(* ===== verification/_CoqProject ===== *)
-Q . S2P
Prelude.v
SdkErrors.v
JsValues.v
Cache.v
IndexerDb.v
IndexerWorld.v
Effects.v
Doubles.v
IndexerGovernor.v
Concentration.v
IndexerDelegation.v
IndexerTracks.v
IndexerTimelock.v
TreasuryProjection.v
Indexer.v
IndexerInvariants.v
IndexerLog.v
IndexerVotes.v
TreasuryMirror.v
TimelockIndexing.v
IndexerDivergence.v
Store.v
TokenVotes.v
Timelock.v
Proposals.v
ProposalBonds.v
Governor.v
GovernorSafety.v
GovernorVotes.v
Treasury.v
CoSponsorship.v
Conviction.v
Optimistic.v
Harness.v
AddressOrder.v
SdkTypes.v
Rewards.v
Merkle.v
RewardEpochs.v
RewardHistory.v
Notifications.v
NotificationEngine.v
NotificationHistory.v
NotificationTiming.v
Signaling.v
SignalingSafety.v
SignalingVotes.v
Tuning.v
TuningBounds.v
TuningCycle.v
TuningSafety.v
Relayer.v
RelayerSafety.v
RelayerLiveness.v
Server.v
ServerFrames.v
ServerHistories.v
ServerSafety.v
Live.v
LiveClient.v
LiveDelivery.v
LiveSafety.v
SdkEvents.v
ContractEvents.v
SdkEventsRead.v
SdkSubscriptions.v
SdkDelivery.v
SdkClient.v
SdkVotes.v
SdkTimelock.v
SdkGovernor.v
SdkContracts.v
SdkTreasury.v
SdkOnMock.v
SdkSubmissions.v
SdkRefinement.v
SdkDelegations.v
SdkContractsSafety.v
