(* ===== verification/Prelude.v ===== *)
(** * NebGov: a verification development

    NebGov is a governance system for Soroban contracts: proposals, votes by
    delegated token power, a timelock, treasury streams, rewards for voting and
    several other decision tracks.  Its TypeScript holds the rules in three
    places.  [packages/indexer] turns the events of the contracts into the
    tables every other service reads; [backend] computes on those tables and
    sends transactions; and [tools/simulation/src/mock] replays the contracts
    in memory.  [sdk] is what applications call: its clients build transactions,
    read the contracts and watch their events.  This development models those
    rules as executable functions and proves what they promise.

    ** Files and what they model

    The indexer, [packages/indexer/src]:

    - [JsValues]: JavaScript data of unknown shape, its conversions, and the
      class [Runtime] of the pieces that come from outside.
    - [Cache]: [cache.ts], also the backend's copy.
    - [IndexerDb]: the tables of [packages/indexer/migrations], with the types,
      keys and references Postgres checks.
    - [IndexerWorld], [IndexerGovernor], [IndexerDelegation], [IndexerTracks],
      [IndexerTimelock], [Indexer]: [events.ts], the handlers by contract and
      the loop [processEvents] with its log and cursor; [pollOnce] of
      [index.ts].
    - [TreasuryProjection]: [treasuryReader.ts], [treasuryProjection.ts].
    - [Concentration]: [concentration.ts].
    - [IndexerInvariants], [IndexerLog], [IndexerVotes], [TreasuryMirror],
      [TimelockIndexing], [IndexerDivergence]: the theorems about them, on the
      small deployment of [Indexer].
    - [Live]: [ws.ts], the server of live events, together with its client
      [sdk/src/streamEvents.ts]; [LiveClient], its sockets and timers;
      [LiveDelivery], what reaches the handler; [LiveSafety], the theorems.

    The backend's reward program, [backend/src/voting-rewards] and
    [backend/src/jobs/voting-rewards-epoch.ts]:

    - [AddressOrder], [Rewards]: the order of addresses; [eligibility.ts].
    - [Merkle]: [merkle.ts].
    - [RewardEpochs], [RewardHistory]: [store.ts], [publisher.ts] and the job;
      the theorems about its histories.

    The backend's services, [backend/src]:

    - [Notifications], [NotificationEngine]: [notifications/], matching, texts,
      delivery with cooldown and retries, the event processor and the timers;
      [NotificationHistory], [NotificationTiming]: the theorems about them.
    - [Signaling]: [signaling/], the job that finalizes polls and their routes;
      [SignalingSafety], [SignalingVotes]: the theorems.
    - [Tuning], [TuningCycle]: [governance-tuning/] and its job;
      [TuningBounds], [TuningSafety]: the theorems.
    - [Relayer]: [routes/relayer.ts] and the log of migration 007;
      [RelayerSafety], [RelayerLiveness]: the theorems.

    The contracts in memory, [tools/simulation/src]:

    - [Store]: [ledger.ts] and [mock/store.ts], the ledger clock and every
      record of the store.
    - [TokenVotes], [Timelock], [Proposals], [Governor], [ProposalBonds],
      [Treasury], [CoSponsorship], [Conviction], [Optimistic]: the executors
      of these names under [mock/].
    - [GovernorSafety], [GovernorVotes]: theorems about histories of the
      governor together with the timelock and the votes.
    - [Harness]: [harness.ts], the store a configuration boots to, snapshots.
    - [Server]: [mock/server.ts], [mock/codec.ts], [mock/registry.ts] and the
      handlers of the executors behind the casts of their arguments;
      [ServerFrames], what each call touches; [ServerHistories], the steps a
      server takes and calls that throw; [ServerSafety], the
      theorems.

    The SDK, [sdk/src]:

    - [SdkEvents]: [events.ts], an event as plain data and a parser for each;
      [ContractEvents]: what the [events.rs] and the [lib.rs] of the contracts
      publish;
      [SdkEventsRead]: the parsers read it back.
    - [SdkSubscriptions]: the subscriptions and the paging of [events.ts], the
      retries of [utils.ts]; [SdkDelivery]: the theorems.
    - [SdkClient]: what the clients share: the Stellar library, the RPC server,
      a call that is simulated, or signed, sent and confirmed; errors of the
      network; texts of hexadecimal digits.
    - [SdkVotes], [SdkTimelock], [SdkGovernor], [SdkContracts], [SdkTreasury]:
      [votes.ts], [timelock.ts], [governor/], the clients of conviction voting,
      the optimistic governor, bonds, co-sponsorship and the vote escrow, and
      [treasury.ts].
    - [SdkOnMock]: the mock server as the RPC of the clients, and what the Stellar
      library promises, with a library that keeps the promises.
    - [SdkRefinement], [SdkSubmissions], [SdkDelegations], [SdkContractsSafety]:
      the theorems about the clients.

    And [Prelude], the state-and-exception monad of the source's functions, its
    weakest preconditions, record update, numbers, text and maps; [Effects],
    functions whose every step is in a relation of states; [Doubles], numbers
    that are not integers, in the binary64 format of [SpecFloat]; [SdkTypes],
    [sdk/src/types/index.ts] as far as the backend uses it; and [SdkErrors],
    [sdk/src/errors.ts] and [mock/errors.ts].

    ** How the parts correspond to the code

    A function of the source that writes is a function in the monad [M] over
    the state it writes to, and [throw] is [Throw].  What was written before a
    throw stays written, as in the source; so every postcondition speaks of the
    state after a throw too.

    In the indexer the state is a [World]: the database, the cache and the
    messages broadcast.  A [pool.query] is [query] of a function on the
    database that says [None] where Postgres refuses the parameters; the
    statement is then not applied, and the call throws.  The handlers keep the
    order of their statements.  [dispatch] has the cases of the [switch] in
    their order, [process_page] the loop of one page, whose cursor is written
    only at the end: a handler that throws leaves the cursor where it was, and
    the next poll fetches the page again.  The rewards job reads the same
    [Db] through [Rewards.fetchEpochVotes], and the contract and the governor
    through the class [RewardsClient], whose one law is that the client answers
    for the epoch it is asked for.

    Each mock executor is an object of handlers over one shared, mutable store.
    A handler of one contract that the source hands a part of the store
    ([store.votes], [store.timelock]) runs there through [zoom].  The governor
    calls the votes for weights and supply, the timelock for operations, and on
    execution the bond contract; co-sponsorship calls the governor; the
    treasury and the bonds move balances of the votes' ledger; conviction
    voting and the optimistic governor read the votes.  The server finds the
    executor by the address of the contract and the handler by its name;
    [ServerFrames.served] says that whatever handler it finds, the store ends
    as one call of the contract's model leaves it.  An object the source
    mutates through an alias is an update of its map entry.

    Histories are step relations: each component has the calls it offers, the
    passing of ledgers, and steps that stand for everything else that may
    change the state, restricted only by what the theorem says.  Invariants are
    proved by induction on them, from the empty database or from the states
    that [Harness.boot_establishes_invariants] shows the harness boots to.  The
    class [Keeps] of [IndexerWorld] carries an invariant of the database
    through a handler; [RewardHistory.steps] carries one through a reward cycle.
    The backend's services are functions over their own tables and an abstract
    outside (clock, HTTP, chain, keys), which a class describes and which may
    change by any of its calls; the class [Evolves] of [Effects] says that a
    function only takes steps of a relation, and finds its proof by the shape of
    the function.

    ** What the theorems show

    - The indexer: any poll of any events keeps keys and references of the database
      intact; every event of a processed page is in the log exactly once; polls that fetch
      whole pages miss nothing; a tally is the sum of the recorded votes while
      no vote is processed twice; timelock events may be replayed; a stream
      event is one atomic step of an abstract projection, and paging reads all
      of the contract's streams.  A read through the cache, by requests that do
      not overlap, is the read itself while writes drop what they change, and
      never older than the time to live of its entry.  The concentration measures are what they are called:
      the Gini index is the mean difference, the Nakamoto number is minimal.
    - Live events: the handler gets each event it wants that was broadcast over
      an open connection once and in order, whenever the filter arrives; a
      stream has one source at a time, and falls silent once unsubscribed.
    - Rewards: each voter's share is the floor of its part; stored claims can
      be made against the stored root and never change; every call sent for an
      epoch carries that root; when a proposal is sent again.
    - Notifications: a delivery is attempted at most five times, and once more
      for each retry its user forces, and a delivered one stays so; triggers of a rule are a cooldown apart.
    - Signaling: stored votes are signed for what they say, one for each voter;
      a tally is the sum of the powers at the snapshot; final results are those
      whose hash was published, while powers can be read.
    - Tuning: with a consistent configuration recommendations stay in their bands
      and within the cap and go the way of the trend and of the hit rate; the
      configuration stays consistent; quiet cycles do not fill the table.
    - Proposals move only along their life cycle, and an executed one waited out
      the timelock, as long as [schedule_with_deps] replaces no operation by one
      due sooner and in less than the minimum delay; tallies are at most the
      snapshot weights of distinct voters and the supply, as long as no
      checkpoint changes in a snapshot ledger that has been voted on; the vote handler and the rate limits do what they say.
    - Votes at a closed ledger add up to the supply, never change, and current
      votes are the delegated balances; delegation stays acyclic.
    - Operations wait for their delay, settled ones are final, and the
      dependency search finds exactly the cycles.
    - Bonds are always covered by the contract's balance, settled once, and
      recoverable after the maximum lock.
    - Streams never exceed their budget or their cooldown, drafts count each
      sponsor once and close for good, stakes add up and conviction converges
      and executes once, objections count once and veto for good.
    - The relayer: no delegator is relayed more than the limit in a day, each
      nonce once, and requests never wait for each other in a circle.
    - The server refines its contracts: its histories, of transactions whose
      arguments have the types the functions declare, are histories of every
      contract model, so what is proved of them holds behind the server; a
      simulation predicts the transaction; a failed transaction changes nothing
      but in the cases named.
    - Every proof the reward tree serves verifies; error text is read back as the
      number and its message, but for two numbers of [finalize_draft].
    - The SDK reads each event that a contract publishes with exactly the parser
      meant for it, up to three readings the theorem names; subscriptions whose
      polls do not overlap, whose pages are not cut and whose callback does not
      throw are exact from their first answer on; all proposals are read when no page ends inside a
      ledger.
    - The clients, with the mock server as their RPC: a vote, a delegation, a
      stake, an objection, a bond, a pledge or a spend is one run of the
      executor's operation, and its hash or typed error is the result; [queue]
      and [execute] are sent only after a simulation that went well; reads give
      what the store has.  On any RPC, no answer that decides about a vote is
      followed by another sending.  Scans of delegations replay the matched
      events once and in order.
    - Where the code does not do what it means to, the behaviour it has is
      proved: in the indexer [failing_page_counts_votes_again],
      [cut_page_loses_events], [strategies_never_indexed],
      [lock_change_erases_lock], [rescheduled_operation_keeps_status] and
      [invalidate_race_serves_stale]; in the rewards job
      [ended_proposal_is_resubmitted] and [waiting_epochs_share_the_pool]; in
      the notifications [cursor_sticks], [retry_goes_to_first_channel] and
      [ending_soon_filter_widens]; in the signaling polls
      [unread_power_breaks_hash]; in the tuning [guard_lasts_one_cycle],
      [concurrent_updates_break_config] and
      [outside_the_band_cap_is_exceeded]; in the relayer
      [resent_permit_is_not_counted]; in the server [failed_schedule]; in the
      live events [poll_misses_100] and [poll_repeats_99]; in the SDK
      [cut_page_is_skipped], [crowded_ledger_is_cut],
      [overlapping_polls_repeat_events], [throwing_callback_repeats_events],
      [delegations_are_not_found], [change_not_understood],
      [crowded_ledger_loses_events], [failed_transaction_is_resent],
      [refused_lock_is_resent], [unconfirmed_spend_is_paid_twice] and
      [refused_arguments_are_retried];
      in the mock
      [timelock_delay_bypass], [identical_actions_share_operation],
      [failed_dispatch_strands_proposal], [same_ledger_double_vote],
      [self_delegation_rejected], [cosponsor_errors_misread], and the closing
      clauses of [powBps_correct] and [snapshot_restores].

    ** Fuel and bounds

    - [streams_from], [spends_from]: the rounds of a paged read;
      [paged_reads_complete] shows how many are enough.
    - [cycle_from]: the epochs from the first unpublished to the current one,
      the bound of the source's loop.
    - [isqrt_loop]: the bits of the number; [isqrt_sqrt] shows it is enough.
    - [visit] of the timelock: the number of operations;
      [validate_dependency_dag_correct] shows that it always returns.
    - [chain_walk]: 64 hops, the limit of the source itself.
    - [pow_loop]: 33 rounds; [pow_loop_total] shows it never runs out.
    - [pages]: the ledgers up to the latest; [all_proposals_are_read] shows it is
      enough.
    - [attempts] of a retry: the attempts allowed; [await_confirmation]: the looks
      at a transaction, ten or twenty, the source's own bounds.
    - [scan] and [page_through]: the ledgers up to the latest;
      [scans_replay_delegations] shows that it is enough.
    - [wait_for]: the rounds until a proposal has a state, which the caller gives:
      the source stops by the clock.
    - [build_levels]: the number of leaves; [build_levels_path] shows that the
      last level is a single node.
    - Ledger numbers, seconds and basis points are integers within the 53 bits
      a JavaScript number holds exactly ([in_range]); [to_number] rounds where
      the source converts a bigint; [to_int32] wraps where it uses bit
      operators.  A bigint is a [Z].  A column of a table has the range of its
      SQL type.

    ** What is not modelled

    SHA-256, the decoder of contract values, the encoding of addresses, the
    date parser and the driver's text of composite values are parameters.
    Names that JavaScript objects inherit from their prototype are not keys of
    the model's maps.  Statements of different tasks are not interleaved: the
    indexer polls one page at a time, a request, a reward cycle and a cycle of
    the tuning run alone, while between them the chain and the indexer may do
    anything.  Exceptions are the cache, whose calls are split where they
    suspend, the update of the tuning configuration, split between its two
    statements, the requests of the relayer, whose statements are interleaved
    freely under the locks of the database, and the live events, where the
    server, the client, their messages and the timers take steps in any order, and
    the polls of a subscription.
    A cast of the source, [args as ...], checks nothing when it runs; what a
    handler of the mock does with arguments of other types than it declares is
    not said, and [dispatch] then has no operation to run.
    [toFixed1] is [toFixed(1)] below 10^21.

    In the clients of the SDK, reads that the source starts side by side run one
    after the other, and [toLowerCase] changes ASCII letters only.

    Left out are the HTTP servers, the routes that only read, the SDK's clients of
    the rewards, the signaling polls, the guardian council, the treasury strategies
    and reputation, its factory and its wrapper, the backend's payments of treasury
    streams, the command line, the web application and the Rust contracts but for
    the events they publish. *)

From stdpp Require Export gmap strings list fin_maps relations pretty.
From Stdlib Require Export ZArith Lia Strings.Byte.

Open Scope Z_scope.

(** ** JavaScript exceptions

    [MockContractError] is the class of [tools/simulation/src/mock/errors.ts],
    [SdkError] a class of [sdk/src/errors.ts] with its name, and [PlainError] a
    bare [new Error(message)]. *)
Inductive JsError :=
  | MockContractError (code : Z) (message : string)
  | SdkError (class : string) (code : Z) (message : string)
  | PlainError (message : string).

#[export] Instance JsError_eq_dec : EqDecision JsError.
Proof. solve_decision. Defined.

Inductive outcome (A : Type) :=
  | Ok (a : A)
  | Throw (e : JsError).
Arguments Ok {A} _.
Arguments Throw {A} _.

(** ** The state-and-exception monad

    A computation that throws keeps the writes it made before the [throw]:
    JavaScript does not roll an object graph back, so the state is returned
    beside the outcome and not inside it. *)
Definition M (S A : Type) : Type := S → outcome A * S.

#[export] Instance M_ret {S} : MRet (M S) := λ A a s, (Ok a, s).
#[export] Instance M_bind {S} : MBind (M S) := λ A B k m s,
  match m s with
  | (Ok a, s') => k a s'
  | (Throw e, s') => (Throw e, s')
  end.
#[export] Instance M_fmap {S} : FMap (M S) := λ A B f m s,
  match m s with
  | (Ok a, s') => (Ok (f a), s')
  | (Throw e, s') => (Throw e, s')
  end.

Definition throw {S A} (e : JsError) : M S A := λ s, (Throw e, s).
Definition get {S} : M S S := λ s, (Ok s, s).
Definition gets {S A} (f : S → A) : M S A := λ s, (Ok (f s), s).
Definition modify {S} (f : S → S) : M S unit := λ s, (Ok tt, f s).

(** [if (b) throw e] *)
Definition throw_if {S} (b : bool) (e : JsError) : M S unit :=
  if b then throw e else mret tt.

(** [const x = o; if (!x) throw e] *)
Definition unwrap {S A} (o : option A) (e : JsError) : M S A :=
  match o with Some a => mret a | None => throw e end.

(** Run a computation on a part of the state: the callee is handed
    [store.votes], and its writes land in [store]. *)
Definition zoom {S T A} (rd : S → T) (wr : T → S → S) (m : M T A) : M S A :=
  λ s, match m (rd s) with (o, t) => (o, wr t s) end.

(** [Array.prototype.map] with an effectful callback, left to right. *)
Fixpoint map_m {S A B} (f : A → M S B) (l : list A) : M S (list B) :=
  match l with
  | [] => mret []
  | x :: l' => y ← f x; ys ← map_m f l'; mret (y :: ys)
  end.

(** ** Weakest preconditions

    [wp m Q E s]: from [s], [m] either returns a value and a state in [Q], or
    throws and leaves a state in [E].  Both halves matter, since a thrown
    call keeps its writes. *)
Definition wp {S A} (m : M S A) (Q : A → S → Prop) (E : JsError → S → Prop) (s : S) : Prop :=
  match m s with
  | (Ok a, s') => Q a s'
  | (Throw e, s') => E e s'
  end.

Section wp_laws.
Context {S A B : Type}.
Implicit Types (Q : A → S → Prop) (E : JsError → S → Prop) (s : S).

Lemma wp_ret (a : A) Q E s : wp (mret a) Q E s ↔ Q a s.
Proof. done. Qed.
Lemma wp_throw (e : JsError) Q E s : wp (throw e) Q E s ↔ E e s.
Proof. done. Qed.
Lemma wp_bind (m : M S B) (k : B → M S A) Q E s :
  wp (m ≫= k) Q E s ↔ wp m (λ b, wp (k b) Q E) E s.
Proof. unfold wp, mbind, M_bind. by destruct (m s) as [[b|e] s']. Qed.
Lemma wp_gets (f : S → A) Q E s : wp (gets f) Q E s ↔ Q (f s) s.
Proof. done. Qed.
Lemma wp_get (Q : S → S → Prop) E s : wp get Q E s ↔ Q s s.
Proof. done. Qed.
Lemma wp_modify (f : S → S) (Q : unit → S → Prop) E s :
  wp (modify f) Q E s ↔ Q tt (f s).
Proof. done. Qed.
Lemma wp_throw_if (b : bool) e (Q : unit → S → Prop) E s :
  wp (throw_if b e) Q E s ↔ (b = true → E e s) ∧ (b = false → Q tt s).
Proof. destruct b; cbn; naive_solver. Qed.
Lemma wp_unwrap (o : option A) e Q E s :
  wp (unwrap o e) Q E s ↔ (o = None → E e s) ∧ (∀ a, o = Some a → Q a s).
Proof. destruct o; cbn; naive_solver. Qed.
Lemma wp_zoom {T} (rd : S → T) wr (m : M T A) Q E s :
  wp (zoom rd wr m) Q E s ↔
  wp m (λ a t, Q a (wr t s)) (λ e t, E e (wr t s)) (rd s).
Proof. unfold wp, zoom. by destruct (m (rd s)) as [[a|e] t]. Qed.
Lemma wp_mono (m : M S A) Q Q' E E' s :
  wp m Q E s → (∀ a s', Q a s' → Q' a s') → (∀ e s', E e s' → E' e s') →
  wp m Q' E' s.
Proof. unfold wp. destruct (m s) as [[a|e] s']; auto. Qed.
Lemma wp_run (m : M S A) Q E s o s' :
  m s = (o, s') → wp m Q E s →
  match o with Ok a => Q a s' | Throw e => E e s' end.
Proof. unfold wp. by intros ->. Qed.
Lemma wp_intro (m : M S A) Q E s :
  (∀ o s', m s = (o, s') → match o with Ok a => Q a s' | Throw e => E e s' end) →
  wp m Q E s.
Proof. unfold wp. intros H. destruct (m s) as [o s'] eqn:Hm. by apply (H o s'). Qed.
End wp_laws.

(** A query that returns leaves the state alone. *)
Lemma wp_read {S A} (m : M S A) a s (Q : A → S → Prop) E :
  m s = (Ok a, s) → Q a s → wp m Q E s.
Proof. unfold wp. by intros ->. Qed.

(** An invariant is kept by a call when it holds after a return and after a throw. *)
Definition preserves {S A} (I : S → Prop) (m : M S A) : Prop :=
  ∀ s, I s → wp m (λ _, I) (λ _, I) s.

Create Rewrite HintDb wp.
#[export] Hint Rewrite @wp_ret @wp_throw @wp_bind @wp_gets @wp_get @wp_modify
  @wp_throw_if @wp_unwrap @wp_zoom : wp.

(** Unfold a computation into its weakest precondition and split on its guards. *)
Ltac wp_step :=
  match goal with
  | |- wp (mret _) _ _ _ => rewrite wp_ret
  | |- wp (throw _) _ _ _ => rewrite wp_throw
  | |- wp (_ ≫= _) _ _ _ => rewrite wp_bind
  | |- wp (gets _) _ _ _ => rewrite wp_gets
  | |- wp get _ _ _ => rewrite wp_get
  | |- wp (modify _) _ _ _ => rewrite wp_modify
  | |- wp (throw_if _ _) _ _ _ => rewrite wp_throw_if; split; intros ?
  | |- wp (unwrap _ _) _ _ _ => rewrite wp_unwrap; split; intros
  | |- wp (zoom _ _ _) _ _ _ => rewrite wp_zoom
  | |- wp (if ?b then _ else _) _ _ _ => destruct b eqn:?
  | |- wp (match ?o with Some _ => _ | None => _ end) _ _ _ => destruct o eqn:?
  end.
Ltac wp_go := repeat (wp_step; cbv beta).

(** Equations for running a computation whose guards are known. *)
Lemma bind_run {S A B} (m : M S A) (k : A → M S B) s a s' :
  m s = (Ok a, s') → (m ≫= k) s = k a s'.
Proof. unfold mbind, M_bind. by intros ->. Qed.
Lemma bind_throw {S A B} (m : M S A) (k : A → M S B) s e s' :
  m s = (Throw e, s') → (m ≫= k) s = (Throw e, s').
Proof. unfold mbind, M_bind. by intros ->. Qed.
Lemma bind_ok_inv {S A B} (m : M S A) (k : A → M S B) s b s' :
  (m ≫= k) s = (Ok b, s') → ∃ a s1, m s = (Ok a, s1) ∧ k a s1 = (Ok b, s').
Proof. unfold mbind, M_bind. destruct (m s) as [[a|e] s1]; [eauto|done]. Qed.

(** Compute a run: inline the monad, then the caller splits on the guards. *)
Ltac m_run :=
  unfold mbind, M_bind, mret, M_ret, throw_if, unwrap, get, gets, modify, throw, zoom;
  cbn beta iota.

(** A run known to return, or to throw, meets what [wp] says of it. *)
Lemma wp_ok_inv {S A} (m : M S A) Q E s a s' :
  m s = (Ok a, s') → wp m Q E s → Q a s'.
Proof. intros H Hwp. exact (wp_run _ _ _ _ _ _ H Hwp). Qed.
Lemma wp_throw_inv {S A} (m : M S A) Q E s e s' :
  m s = (Throw e, s') → wp m Q E s → E e s'.
Proof. intros H Hwp. exact (wp_run _ _ _ _ _ _ H Hwp). Qed.

(** Mapping a callback that only reads. *)
Lemma map_m_read {S A B} (f : A → M S B) (g : A → B) l s :
  (∀ x, f x s = (Ok (g x), s)) → map_m f l s = (Ok (g <$> l), s).
Proof.
  intros Hf. induction l as [|x l IH]; cbn [map_m]; [done|].
  erewrite bind_run by apply Hf. erewrite bind_run by apply IH. done.
Qed.

(** ** Record update

    [r <| f := v |>] is the assignment [r.f = v] seen as a function on the
    record.  A record opts in by giving its field-by-field rebuilding [eta]. *)
Class Eta (R : Type) := eta : R → R.
Class Setter {R T : Type} (proj : R → T) := upd : (T → T) → R → R.

Ltac build_setter :=
  lazymatch goal with
  | |- @Setter ?R ?T ?proj =>
    let f := fresh "f" in let r := fresh "r" in
    intros f r;
    let e := eval cbv delta [eta] in (@eta R _) in
    let e := eval hnf in e in
    let body := eval cbv beta in (e r) in
    let body := eval unfold eta in body in
    match eval pattern (proj r) in body with
    | ?g _ => let b := eval cbv beta in (g (f (proj r))) in exact b
    end
  end.
#[export] Hint Extern 0 (Setter _) => build_setter : typeclass_instances.

Declare Scope record_scope.
Open Scope record_scope.
Notation "r <| p ::= f |>" := (upd (proj := p) f r)
  (at level 1, left associativity, p at next level) : record_scope.
Notation "r <| p := v |>" := (upd (proj := p) (λ _, v) r)
  (at level 1, left associativity, p at next level) : record_scope.
Arguments upd {R T} proj {_} f r /.

(** ** JavaScript numbers

    A [bigint] is a [Z].  A [number] that holds an integer is a [Z] too, and
    [to_number] is the rounding [Number(n)] does to the 53-bit significand of
    a double (ties to even); integers up to [2^53] are exact.  The largest
    values of the program are 128-bit, far from the overflow to [Infinity]. *)
Definition to_number (n : Z) : Z :=
  let a := Z.abs n in
  if a <=? 2 ^ 53 then n
  else
    let e := Z.log2 a - 52 in
    let q := a / 2 ^ e in
    let r := a mod 2 ^ e in
    let half := 2 ^ (e - 1) in
    let q' := if (r <? half) then q
              else if (half <? r) then q + 1
              else if Z.even q then q else q + 1 in
    Z.sgn n * (q' * 2 ^ e).

(** Addition of two doubles that hold integers. *)
Definition num_add (a b : Z) : Z := to_number (a + b).

Lemma to_number_exact n : Z.abs n ≤ 2 ^ 53 → to_number n = n.
Proof. intros H. unfold to_number. by rewrite (proj2 (Z.leb_le _ _) H). Qed.
Lemma num_add_exact a b : Z.abs (a + b) ≤ 2 ^ 53 → num_add a b = a + b.
Proof. apply to_number_exact. Qed.

(** [BigInt] division truncates toward zero. *)
Notation "a ÷ᵇ b" := (Z.quot a b) (at level 40, left associativity) : Z_scope.

Lemma quot_div_nonneg a b : 0 ≤ a → 0 ≤ b → a ÷ᵇ b = a / b.
Proof.
  intros Ha Hb. destruct (decide (b = 0)) as [->|].
  - by destruct a.
  - apply Z.quot_div_nonneg; lia.
Qed.
Lemma quot_mul_le a b c : 0 ≤ a → 0 ≤ b → 0 < c → b ≤ c → a * b ÷ᵇ c ≤ a.
Proof.
  intros. rewrite quot_div_nonneg by nia.
  apply Z.div_le_upper_bound; nia.
Qed.

(** ** Bytes and hexadecimal text *)
Abbreviation bytes := (list byte).

(** A source string is its UTF-8 encoding. *)
Definition utf8 (s : string) : bytes := String.list_byte_of_string s.

Definition hex_digit (n : N) : Ascii.ascii :=
  if (n <? 10)%N then Ascii.ascii_of_N (48 + n) else Ascii.ascii_of_N (87 + n).
Definition byte_hex (b : byte) : Ascii.ascii * Ascii.ascii :=
  (hex_digit (Byte.to_N b / 16)%N, hex_digit (Byte.to_N b mod 16)%N).

(** [Buffer.from(b).toString("hex")] *)
Fixpoint to_hex (bs : bytes) : string :=
  match bs with
  | [] => EmptyString
  | b :: bs' => let '(h, l) := byte_hex b in String h (String l (to_hex bs'))
  end.

Definition hex_value (c : Ascii.ascii) : option N :=
  let n := Ascii.N_of_ascii c in
  if (48 <=? n)%N && (n <=? 57)%N then Some (n - 48)%N
  else if (97 <=? n)%N && (n <=? 102)%N then Some (n - 87)%N
  else if (65 <=? n)%N && (n <=? 70)%N then Some (n - 55)%N
  else None.

(** [Buffer.from(s, "hex")]: decoding stops at the first pair that is not
    two hexadecimal digits, and an odd trailing digit is dropped. *)
Fixpoint of_hex (s : string) : bytes :=
  match s with
  | String h (String l s') =>
    match hex_value h, hex_value l with
    | Some a, Some b =>
      match Byte.of_N (16 * a + b) with
      | Some x => x :: of_hex s'
      | None => []
      end
    | _, _ => []
    end
  | _ => []
  end.

Lemma of_hex_to_hex (bs : bytes) : of_hex (to_hex bs) = bs.
Proof. induction bs as [|b bs IH]; [done|]. destruct b; cbn; by rewrite IH. Qed.

#[export] Instance to_hex_inj : Inj (=) (=) to_hex.
Proof. intros a b H. by rewrite <- (of_hex_to_hex a), H, of_hex_to_hex. Qed.

#[export] Instance byte_eq_dec : EqDecision byte := Byte.byte_eq_dec.

(** ** Sums over lists and maps *)
Fixpoint sum_list_Z (l : list Z) : Z :=
  match l with [] => 0 | x :: l' => x + sum_list_Z l' end.

Lemma sum_list_Z_app l1 l2 : sum_list_Z (l1 ++ l2) = sum_list_Z l1 + sum_list_Z l2.
Proof. induction l1; simpl; lia. Qed.
Lemma sum_list_Z_perm l1 l2 : l1 ≡ₚ l2 → sum_list_Z l1 = sum_list_Z l2.
Proof. induction 1; simpl; lia. Qed.
Lemma sum_list_Z_nonneg l : Forall (λ x, 0 ≤ x) l → 0 ≤ sum_list_Z l.
Proof. induction 1; simpl; lia. Qed.
Lemma foldl_add_sum l a : foldl Z.add a l = a + sum_list_Z l.
Proof. revert a. induction l as [|x l IH]; intros a; simpl; [lia|]. rewrite IH; lia. Qed.

(** [map_sum f m] adds up [f k x] over the entries of [m]. *)
Definition map_sum `{Countable K} {A} (f : K → A → Z) (m : gmap K A) : Z :=
  map_fold (λ k x acc, f k x + acc) 0 m.

(** What the entry at [k] contributes. *)
Definition at_key {K A} `{Countable K} (f : K → A → Z) (m : gmap K A) (k : K) : Z :=
  match m !! k with Some x => f k x | None => 0 end.

Section map_sum.
Context `{Countable K} {A : Type}.
Implicit Types (f g : K → A → Z) (m : gmap K A).

Lemma map_sum_empty f : map_sum f ∅ = 0.
Proof. apply map_fold_empty. Qed.

Lemma map_sum_insert_new f m k x :
  m !! k = None → map_sum f (<[k:=x]> m) = f k x + map_sum f m.
Proof.
  intros Hk. unfold map_sum.
  rewrite (map_fold_insert_L _ 0 k x m); [done| |done].
  intros; lia.
Qed.

Lemma map_sum_delete f m k : map_sum f m = at_key f m k + map_sum f (delete k m).
Proof.
  unfold at_key. destruct (m !! k) as [x|] eqn:Hk.
  - rewrite <- (insert_delete_id m k x Hk) at 1.
    rewrite map_sum_insert_new; [done|apply lookup_delete_eq].
  - by rewrite delete_id.
Qed.

Lemma map_sum_insert f m k x :
  map_sum f (<[k:=x]> m) = map_sum f m - at_key f m k + f k x.
Proof.
  rewrite <- insert_delete_eq, map_sum_insert_new by apply lookup_delete_eq.
  rewrite (map_sum_delete f m k). lia.
Qed.

Lemma map_sum_delete_eq f m k : map_sum f (delete k m) = map_sum f m - at_key f m k.
Proof. rewrite (map_sum_delete f m k). lia. Qed.

Lemma map_sum_ext f g m :
  (∀ k x, m !! k = Some x → f k x = g k x) → map_sum f m = map_sum g m.
Proof.
  induction m as [|k x m Hk IH] using map_ind; intros Hfg; [done|].
  rewrite !map_sum_insert_new by done. f_equal.
  - apply Hfg. apply lookup_insert_eq.
  - apply IH. intros k' x' Hk'. apply Hfg.
    rewrite lookup_insert_ne; congruence.
Qed.

Lemma map_sum_le f g m :
  (∀ k x, m !! k = Some x → f k x ≤ g k x) → map_sum f m ≤ map_sum g m.
Proof.
  induction m as [|k x m Hk IH] using map_ind; intros Hfg; [done|].
  rewrite !map_sum_insert_new by done.
  assert (f k x ≤ g k x) by (apply Hfg; apply lookup_insert_eq).
  enough (map_sum f m ≤ map_sum g m) by lia.
  apply IH. intros k' x' Hk'. apply Hfg. rewrite lookup_insert_ne; congruence.
Qed.

Lemma map_sum_zero m : map_sum (λ _ _, 0) m = 0.
Proof.
  induction m as [|k x m Hk IH] using map_ind; [done|].
  rewrite map_sum_insert_new by done. lia.
Qed.

Lemma map_sum_nonneg f m : (∀ k x, m !! k = Some x → 0 ≤ f k x) → 0 ≤ map_sum f m.
Proof. intros Hf. rewrite <- (map_sum_zero m). by apply map_sum_le. Qed.

(** Two summands that differ only at [k]. *)
Lemma map_sum_change f g m k :
  (∀ k' x, k' ≠ k → f k' x = g k' x) →
  map_sum g m = map_sum f m - at_key f m k + at_key g m k.
Proof.
  intros Hfg. rewrite (map_sum_delete f m k), (map_sum_delete g m k).
  rewrite (map_sum_ext f g (delete k m)); [lia|].
  intros k' x Hx. apply Hfg. intros ->. by rewrite lookup_delete_eq in Hx.
Qed.

(** One entry is below the sum when the others are not negative. *)
Lemma map_sum_at_le f m k x :
  (∀ k x, m !! k = Some x → 0 ≤ f k x) → m !! k = Some x → f k x ≤ map_sum f m.
Proof.
  intros Hf Hk. rewrite (map_sum_delete f m k). unfold at_key. rewrite Hk.
  enough (0 ≤ map_sum f (delete k m)) by lia.
  apply map_sum_nonneg. intros k' x' Hk'.
  apply lookup_delete_Some in Hk' as [_ Hk']. by apply Hf.
Qed.
End map_sum.


(** Summing over some keys is at most summing over a map that has every key
    where the summand is not zero. *)
Lemma map_sum_sub {K A B} `{Countable K} (f : K → Z) (m1 : gmap K A) (m2 : gmap K B) :
  (∀ k, 0 ≤ f k) → (∀ k, m2 !! k = None → f k = 0) →
  map_sum (λ k _, f k) m1 ≤ map_sum (λ k _, f k) m2.
Proof.
  revert f. induction m1 as [|k x m Hk IH] using map_ind; intros f Hf Hz.
  { rewrite map_sum_empty. by apply map_sum_nonneg. }
  rewrite map_sum_insert_new by done.
  set (g i := if decide (i = k) then 0 else f i).
  specialize (IH g). rewrite (map_sum_ext (λ i _, f i) (λ i _, g i) m).
  2:{ intros i y Hi. unfold g. rewrite decide_False; [done|]. by intros ->; simplify_eq. }
  rewrite (map_sum_change (λ i _, g i) (λ i _, f i) m2 k).
  2:{ intros i y Hi. unfold g. by rewrite decide_False. }
  assert (at_key (λ i (_ : B), g i) m2 k = 0) as ->.
  { unfold at_key, g. destruct (m2 !! k); [|done]. by rewrite decide_True. }
  assert (at_key (λ i (_ : B), f i) m2 k = f k) as ->.
  { unfold at_key. destruct (m2 !! k) eqn:?; [done|]. by rewrite Hz. }
  enough (map_sum (λ i _, g i) m ≤ map_sum (λ i _, g i) m2) by lia.
  apply IH; unfold g; intros i; case_decide; auto; done.
Qed.

Lemma map_sum_fmap {K A B} `{Countable K} (g : A → B) (f : K → B → Z) (m : gmap K A) :
  map_sum f (g <$> m) = map_sum (λ k x, f k (g x)) m.
Proof.
  induction m as [|k x m Hk IH] using map_ind; [by rewrite fmap_empty|].
  rewrite fmap_insert, !map_sum_insert_new; [by rewrite IH|done|].
  by rewrite lookup_fmap, Hk.
Qed.

(** A part of the entries that an update does not touch. *)
Lemma fmap_alter_same {K A B} `{Countable K} (g : A → B) (f : A → A) (m : gmap K A) k :
  (∀ x, g (f x) = g x) → g <$> alter f k m = g <$> m.
Proof.
  intros Hg. apply map_eq. intros i. rewrite !lookup_fmap.
  destruct (decide (k = i)) as [->|].
  - rewrite lookup_alter_eq. destruct (m !! i); cbn; by rewrite ?Hg.
  - by rewrite lookup_alter_ne.
Qed.

Lemma alter_insert_eq {K A} `{Countable K} (f : A → A) (m : gmap K A) k x :
  m !! k = Some x → alter f k m = <[k := f x]> m.
Proof.
  intros Hk. apply map_eq. intros i. destruct (decide (k = i)) as [->|].
  - by rewrite lookup_alter_eq, lookup_insert_eq, Hk.
  - by rewrite lookup_alter_ne, lookup_insert_ne.
Qed.

Lemma map_sum_alter {K A} `{Countable K} (f : K → A → Z) (g : A → A) (m : gmap K A) k x :
  m !! k = Some x → map_sum f (alter g k m) = map_sum f m - f k x + f k (g x).
Proof.
  intros Hk. rewrite (alter_insert_eq g m k x Hk), map_sum_insert. unfold at_key. by rewrite Hk.
Qed.

Lemma alter_compose {K A} `{Countable K} (f g : A → A) (m : gmap K A) k :
  alter f k (alter g k m) = alter (λ x, f (g x)) k m.
Proof.
  apply map_eq. intros i. destruct (decide (k = i)) as [->|].
  - rewrite !lookup_alter_eq. by destruct (m !! i).
  - by rewrite !lookup_alter_ne.
Qed.

(** A unit of token moves between two keys of a balance map. *)
Lemma map_sum_transfer (m : gmap string Z) (a b : string) (x : Z) :
  let m1 := <[a := default 0 (m !! a) - x]> m in
  map_sum (λ _ v, v) (<[b := default 0 (m1 !! b) + x]> m1) = map_sum (λ _ v, v) m.
Proof.
  intros m1. rewrite map_sum_insert. subst m1. rewrite map_sum_insert.
  unfold at_key. destruct (decide (a = b)) as [->|Hab].
  - rewrite lookup_insert_eq. cbn. destruct (m !! b); cbn; lia.
  - rewrite lookup_insert_ne by done.
    destruct (m !! a), (m !! b); cbn; lia.
Qed.

(** ** JavaScript arrays *)

(** [l.slice(start, end)]: negative positions count from the end. *)
Definition slice_index (len i : Z) : Z := if i <? 0 then Z.max (len + i) 0 else Z.min i len.
Definition js_slice {A} (l : list A) (i j : Z) : list A :=
  let n := Z.of_nat (length l) in
  let a := slice_index n i in
  let b := slice_index n j in
  take (Z.to_nat (b - a)) (drop (Z.to_nat a) l).

Lemma js_slice_prefix {A} (l : list A) n : 0 ≤ n → js_slice l 0 n = take (Z.to_nat n) l.
Proof.
  intros Hn. unfold js_slice, slice_index. replace (n <? 0) with false by lia.
  change (0 <? 0) with false. cbn iota. rewrite (Z.min_l 0) by lia. cbn [Z.to_nat]. rewrite drop_0, Z.sub_0_r.
  destruct (decide (n ≤ Z.of_nat (length l))); [by rewrite Z.min_l by lia|].
  rewrite Z.min_r, !take_ge by lia. done.
Qed.

(** [start + 1, ..., start + n] *)
Definition ids_after (start : Z) (n : nat) : list Z := (λ k, start + 1 + Z.of_nat k) <$> seq 0 n.

(** ** JavaScript [Map]s in insertion order

    An association list when the order of the entries is observable: [set] on
    a present key keeps its place, on a new key appends. *)
Section js_map.
Context {K V : Type} `{EqDecision K}.
Implicit Types (l : list (K * V)) (k : K).

Fixpoint jm_get k l : option V :=
  match l with
  | [] => None
  | (k', v) :: l' => if decide (k' = k) then Some v else jm_get k l'
  end.
Fixpoint jm_set k (v : V) l : list (K * V) :=
  match l with
  | [] => [(k, v)]
  | (k', v') :: l' => if decide (k' = k) then (k', v) :: l' else (k', v') :: jm_set k v l'
  end.
Fixpoint jm_delete k l : list (K * V) :=
  match l with
  | [] => []
  | (k', v') :: l' => if decide (k' = k) then l' else (k', v') :: jm_delete k l'
  end.

Lemma jm_get_None k l : jm_get k l = None ↔ k ∉ l.*1.
Proof.
  induction l as [|[k' v] l IH]; cbn; [split; [intros _; apply not_elem_of_nil|done]|].
  rewrite not_elem_of_cons. case_decide; naive_solver.
Qed.
Lemma jm_get_Some k l v : NoDup l.*1 → jm_get k l = Some v ↔ (k, v) ∈ l.
Proof.
  induction l as [|[k' v'] l IH]; cbn; [by split; [|intros ?%elem_of_nil]|].
  intros [Hk Hl]%NoDup_cons. rewrite elem_of_cons. case_decide as Hd.
  - subst. split; [by intros [= ->]; left|]. intros [[= ->]|Hin]; [done|].
    destruct Hk. by apply (list_elem_of_fmap_2 fst _ (k, v)).
  - rewrite IH by done. naive_solver.
Qed.
Lemma jm_get_set k k' v l : jm_get k' (jm_set k v l) = if decide (k = k') then Some v else jm_get k' l.
Proof.
  induction l as [|[k1 v1] l IH]; cbn; [done|].
  repeat (case_decide; cbn; simplify_eq); try done; by rewrite ?IH; case_decide.
Qed.
Lemma jm_get_delete k k' l :
  NoDup l.*1 → jm_get k' (jm_delete k l) = if decide (k = k') then None else jm_get k' l.
Proof.
  induction l as [|[k1 v1] l IH]; cbn; [by case_decide|]. intros [Hk Hl]%NoDup_cons.
  destruct (decide (k1 = k)) as [->|]; cbn.
  - destruct (decide (k = k')) as [<-|]; [by apply jm_get_None|done].
  - rewrite IH by done. repeat case_decide; congruence.
Qed.
Lemma jm_set_keys k v l x : x ∈ (jm_set k v l).*1 ↔ x = k ∨ x ∈ l.*1.
Proof.
  induction l as [|[k' v'] l IH]; cbn; [rewrite elem_of_cons; naive_solver|].
  case_decide; cbn; rewrite !elem_of_cons; [naive_solver|]. rewrite IH. naive_solver.
Qed.
Lemma jm_set_nodup k v l : NoDup l.*1 → NoDup (jm_set k v l).*1.
Proof.
  induction l as [|[k' v'] l IH]; cbn; [intros; apply NoDup_singleton|].
  intros [Hk Hl]%NoDup_cons. case_decide; cbn; apply NoDup_cons; [done|].
  rewrite jm_set_keys. split; [naive_solver|by apply IH].
Qed.
Lemma jm_delete_keys k l x : NoDup l.*1 → x ∈ (jm_delete k l).*1 ↔ x ≠ k ∧ x ∈ l.*1.
Proof.
  induction l as [|[k' v'] l IH]; cbn; [rewrite !elem_of_nil; naive_solver|].
  intros [Hk Hl]%NoDup_cons. case_decide; cbn; rewrite ?elem_of_cons; [naive_solver|].
  rewrite IH by done. naive_solver.
Qed.
Lemma jm_delete_nodup k l : NoDup l.*1 → NoDup (jm_delete k l).*1.
Proof.
  induction l as [|[k' v'] l IH]; cbn; [done|]. intros [Hk Hl]%NoDup_cons.
  case_decide; cbn; [done|]. apply NoDup_cons. rewrite jm_delete_keys by done.
  split; [naive_solver|by apply IH].
Qed.
End js_map.

Lemma jm_set_Forall {K V} `{EqDecision K} (P : V → Prop) (k : K) (v : V) l :
  P v → Forall (λ kv, P kv.2) l → Forall (λ kv, P kv.2) (jm_set k v l).
Proof.
  intros Hv. induction 1 as [|[k' v'] l Hkv Hl IH]; cbn [jm_set]; [by constructor|].
  case_decide; by constructor.
Qed.
Lemma jm_get_elem {K V} `{EqDecision K} (k : K) (v : V) l : jm_get k l = Some v → (k, v) ∈ l.
Proof.
  induction l as [|[k' v'] l IH]; cbn [jm_get]; [done|]. case_decide as Hk.
  - intros [= ->]. subst. by left.
  - intros Hl. right. auto.
Qed.
Lemma jm_set_fresh {K V} `{EqDecision K} (k : K) (v : V) l : jm_get k l = None → jm_set k v l = l ++ [(k, v)].
Proof.
  induction l as [|[k' v'] l IH]; cbn [jm_get jm_set]; [done|].
  case_decide; [done|]. intros Hl. by rewrite IH.
Qed.

(** The sum of the values of an insertion-ordered map of amounts. *)
Definition jm_total {K} (l : list (K * Z)) : Z := sum_list_Z l.*2.

Lemma jm_total_set {K} `{EqDecision K} (k : K) v l :
  jm_total (jm_set k v l) = jm_total l - default 0 (jm_get k l) + v.
Proof.
  unfold jm_total. induction l as [|[k' v'] l IH]; cbn; [lia|]. case_decide; cbn; lia.
Qed.
Lemma jm_total_delete {K} `{EqDecision K} (k : K) l :
  jm_total (jm_delete k l) = jm_total l - default 0 (jm_get k l).
Proof.
  unfold jm_total. induction l as [|[k' v'] l IH]; cbn; [lia|]. case_decide; cbn; lia.
Qed.

(** ** Decimal text

    [String(n)] of an integer.  The digits come last first; the fuel is the
    number of bits, and [decimal_pretty] identifies the result with stdpp's
    printing, which is injective but does not evaluate. *)
Fixpoint decimal_digits (fuel : nat) (x : N) (s : string) : string :=
  match fuel with
  | O => s
  | S fuel' =>
    if (x =? 0)%N then s
    else decimal_digits fuel' (x / 10)%N (String (pretty_N_char (x mod 10)%N) s)
  end.
Definition decimal_N (x : N) : string :=
  if (x =? 0)%N then "0" else decimal_digits (N.to_nat (N.size x)) x "".
Definition decimal (n : Z) : string :=
  match n with
  | Z0 => "0"
  | Zpos p => decimal_N (Npos p)
  | Zneg p => "-" +:+ decimal_N (Npos p)
  end.

Lemma decimal_digits_go fuel x s :
  (x < 2 ^ N.of_nat fuel)%N → decimal_digits fuel x s = pretty_N_go x s.
Proof.
  revert x s. induction fuel as [|fuel IH]; intros x s Hx; cbn [decimal_digits].
  - cbn in Hx. assert (x = 0%N) as -> by lia. by rewrite pretty_N_go_0.
  - destruct (N.eqb_spec x 0) as [->|Hne]; [by rewrite pretty_N_go_0|].
    rewrite pretty_N_go_step by lia. apply IH.
    rewrite Nat2N.inj_succ, N.pow_succ_r in Hx by lia.
    apply N.Div0.div_lt_upper_bound. lia.
Qed.

Lemma decimal_pretty n : decimal n = pretty n.
Proof.
  assert (∀ p, decimal_N (Npos p) = pretty (Npos p)) as H.
  { intros p. unfold decimal_N, pretty, pretty_N. rewrite decide_False by done. cbn [N.eqb].
    apply decimal_digits_go. rewrite N2Nat.id. apply N.size_gt. }
  destruct n as [|p|p]; [done|apply H|]. unfold decimal. rewrite H. done.
Qed.

(** The value of the digits a text starts with, and what follows them. *)
Definition digit_value (c : Ascii.ascii) : option N :=
  let n := Ascii.N_of_ascii c in
  if (48 <=? n)%N && (n <=? 57)%N then Some (n - 48)%N else None.

Fixpoint read_digits (acc : N) (s : string) : N * string :=
  match s with
  | String c s' =>
    match digit_value c with
    | Some d => read_digits (10 * acc + d) s'
    | None => (acc, s)
    end
  | EmptyString => (acc, s)
  end.

Lemma read_digits_pretty_go (x : N) (s : string) :
  read_digits 0 (pretty_N_go x s) = read_digits x s.
Proof.
  revert s. induction x as [x IH] using (well_founded_induction N.lt_wf_0). intros s.
  destruct (decide (0 < x)%N) as [Hx|Hx].
  - rewrite pretty_N_go_step by done. rewrite IH by (apply N.div_lt; lia).
    cbn [read_digits].
    assert (digit_value (pretty_N_char (x `mod` 10)) = Some (x `mod` 10)%N) as ->.
    { assert (x `mod` 10 < 10)%N as Hlt by (apply N.mod_lt; lia).
      revert Hlt. generalize (x `mod` 10)%N. intros r Hr.
      assert (r ∈ (N.of_nat <$> seq 0 10)) as Hin.
      { apply list_elem_of_fmap. exists (N.to_nat r). rewrite elem_of_seq. lia. }
      clear Hr. revert r Hin. apply Forall_forall. by repeat constructor. }
    f_equal. pose proof (N.div_mod x 10). lia.
  - assert (x = 0%N) as -> by lia. by rewrite pretty_N_go_0.
Qed.

Lemma read_digits_pretty (n : N) (s : string) :
  read_digits 0 (pretty n +:+ s) = read_digits n s.
Proof.
  assert (∀ x t, pretty_N_go x t +:+ s = pretty_N_go x (t +:+ s)) as Happ.
  { intros x. induction x as [x IH] using (well_founded_induction N.lt_wf_0). intros t.
    destruct (decide (0 < x)%N) as [Hx|Hx].
    - rewrite !(pretty_N_go_step x) by done. by rewrite IH by (apply N.div_lt; lia).
    - assert (x = 0%N) as -> by lia. by rewrite !pretty_N_go_0. }
  unfold pretty, pretty_N. case_decide as Hn; [by subst|].
  by rewrite Happ, read_digits_pretty_go.
Qed.

(** Text that is an integer: an optional sign and digits, nothing else. *)
Definition all_digits (s : string) : option N :=
  match s with
  | EmptyString => None
  | _ => match read_digits 0 s with (n, EmptyString) => Some n | _ => None end
  end.
Definition of_decimal (s : string) : option Z :=
  match s with
  | String c s' =>
    if Ascii.eqb c (Ascii.ascii_of_N 45) then Z.opp ∘ Z.of_N <$> all_digits s'
    else Z.of_N <$> all_digits s
  | EmptyString => None
  end.

Lemma string_app_nil_r (s : string) : s +:+ "" = s.
Proof. induction s as [|c s IH]; [done|]. change (String c (s +:+ "") = String c s). by rewrite IH. Qed.
Lemma all_digits_pretty n : all_digits (pretty n) = Some n.
Proof.
  pose proof (read_digits_pretty n "") as H. rewrite string_app_nil_r in H. cbn [read_digits] in H.
  unfold all_digits. rewrite H. destruct (pretty n) eqn:Hp; [|done].
  cbn in H. injection H as <-. done.
Qed.
Lemma of_decimal_N (n : N) : of_decimal (pretty n) = Some (Z.of_N n).
Proof.
  unfold of_decimal. pose proof (all_digits_pretty n) as H. destruct (pretty n) as [|c s] eqn:Hp; [done|].
  destruct (Ascii.eqb_spec c (Ascii.ascii_of_N 45)) as [->|]; [done|]. by rewrite H.
Qed.
Lemma of_decimal_decimal n : of_decimal (decimal n) = Some n.
Proof.
  rewrite decimal_pretty. destruct n as [|p|p]; [done|apply (of_decimal_N (Npos p))|].
  change (pretty (Z.neg p)) with ("-" +:+ pretty (Npos p)).
  change (Z.opp ∘ Z.of_N <$> all_digits (pretty (Npos p)) = Some (Z.neg p)).
  by rewrite all_digits_pretty.
Qed.

(** Rows with different keys are told apart by them. *)
Lemma NoDup_key {A B} (key : A → B) (l : list A) x y :
  NoDup (key <$> l) → x ∈ l → y ∈ l → key x = key y → x = y.
Proof.
  intros Hnd Hx Hy Hkey. apply list_elem_of_lookup in Hx as (i & Hi), Hy as (j & Hj).
  assert (i = j) as ->; [|congruence]. eapply (NoDup_lookup _ _ _ (key x) Hnd); rewrite list_lookup_fmap.
  - by rewrite Hi.
  - by rewrite Hj, Hkey.
Qed.

(** ** Relations *)
Lemma tc_first {A} (R : relation A) x y : tc R x y → ∃ z, R x z ∧ rtc R z y.
Proof.
  destruct 1 as [x y H|x z y H Ht]; [|by eauto using tc_rtc].
  exists y. split; [done|apply rtc_refl].
Qed.

(** ** Keys made of two parts

    [`${id}:${name}`] names both parts, since a number holds no colon. *)
Fixpoint avoids (c : Ascii.ascii) (s : string) : bool :=
  match s with
  | EmptyString => true
  | String d s' => negb (Ascii.eqb d c) && avoids c s'
  end.
Definition colon : Ascii.ascii := Ascii.ascii_of_N 58.

Lemma avoids_split c s1 s2 t1 t2 :
  avoids c s1 → avoids c s2 → s1 +:+ String c t1 = s2 +:+ String c t2 → s1 = s2 ∧ t1 = t2.
Proof.
  revert s2. induction s1 as [|d1 s1 IH]; intros [|d2 s2] H1 H2; cbn in *.
  - by intros [= ->].
  - intros [= <- _]. by rewrite Ascii.eqb_refl in H2.
  - intros [= -> _]. by rewrite Ascii.eqb_refl in H1.
  - apply andb_prop_elim in H1 as [_ H1]. apply andb_prop_elim in H2 as [_ H2].
    intros [= -> H]. by destruct (IH s2 H1 H2 H) as [-> ->].
Qed.

(** A separator that numbers do not hold. *)
Definition not_in_numbers (c : Ascii.ascii) : bool := avoids c "-0123456789".
Lemma pretty_char_avoids c n : not_in_numbers c → (n < 10)%N → Ascii.eqb (pretty_N_char n) c = false.
Proof.
  intros Hc Hn. assert (In n (N.of_nat <$> seq 0 10)) as Hin.
  { apply list_elem_of_In, list_elem_of_fmap. exists (N.to_nat n).
    split; [by rewrite N2Nat.id|]. apply elem_of_seq. lia. }
  unfold not_in_numbers in Hc. cbn [avoids] in Hc. rewrite !andb_True, !negb_True in Hc. destruct_and!.
  cbn in Hin. repeat (destruct Hin as [<-|Hin]; [by apply not_true_is_false; rewrite <- Is_true_true|]). done.
Qed.
Lemma decimal_digits_avoids c fuel x s : not_in_numbers c → avoids c s → avoids c (decimal_digits fuel x s).
Proof.
  intros Hc. revert x s. induction fuel as [|fuel IH]; intros x s Hs; cbn [decimal_digits]; [done|].
  destruct (x =? 0)%N; [done|]. apply IH. cbn [avoids].
  rewrite pretty_char_avoids; [|exact Hc|by apply N.mod_lt]. exact Hs.
Qed.
Lemma decimal_avoids c n : not_in_numbers c → avoids c (decimal n).
Proof.
  intros Hc.
  assert (∀ x, avoids c (decimal_N x)) as H.
  { intros x. unfold decimal_N. destruct (x =? 0)%N; [|by apply decimal_digits_avoids].
    unfold not_in_numbers in Hc. cbn [avoids] in *. rewrite !andb_True in *. by destruct_and!. }
  destruct n as [|p|p]; [exact (H 0%N)|exact (H (Npos p))|]. cbn [decimal]. specialize (H (Npos p)).
  change ("-" +:+ decimal_N (N.pos p)) with (String (Ascii.ascii_of_N 45) (decimal_N (N.pos p))). cbn [avoids].
  unfold not_in_numbers in Hc. cbn [avoids] in Hc. rewrite !andb_True in Hc. destruct_and!. by rewrite andb_True.
Qed.
Lemma decimal_colon n : avoids colon (decimal n).
Proof. by apply decimal_avoids. Qed.
#[export] Instance decimal_inj : Inj (=) (=) decimal.
Proof. intros a b H. apply (inj pretty). by rewrite <- !decimal_pretty. Qed.

Lemma numbered_key_inj a b s t :
  decimal a +:+ ":" +:+ s = decimal b +:+ ":" +:+ t → a = b ∧ s = t.
Proof.
  intros H. apply (avoids_split colon) in H as [H ->]; [|apply decimal_colon..].
  by apply (inj decimal) in H.
Qed.
