(* ===== verification/SdkErrors.v ===== *)
(** * Typed errors of the SDK

    [sdk/src/errors.ts]: one enumeration and one message table per contract,
    and the parsers that recover a typed error from the text a Soroban RPC
    call failed with.  At run time an enumeration member is its number, so
    each family keeps its constructors, their numbers and their messages, and
    the parsers work on numbers, as the casts of the source do.  Text is
    UTF-8 bytes. *)

From S2P Require Import Prelude.

(** ** Text scanning *)

(** [s] without the prefix [p]. *)
Fixpoint strip_prefix (p s : string) : option string :=
  match p, s with
  | EmptyString, _ => Some s
  | String a p', String b s' => if Ascii.eqb a b then strip_prefix p' s' else None
  | String _ _, EmptyString => None
  end.

Definition ascii_lower (c : Ascii.ascii) : Ascii.ascii :=
  let n := Ascii.N_of_ascii c in
  if (65 <=? n)%N && (n <=? 90)%N then Ascii.ascii_of_N (n + 32) else c.

(** The same under the [i] flag; [p] is in lower case. *)
Fixpoint strip_prefix_ci (p s : string) : option string :=
  match p, s with
  | EmptyString, _ => Some s
  | String a p', String b s' =>
    if Ascii.eqb a (ascii_lower b) then strip_prefix_ci p' s' else None
  | String _ _, EmptyString => None
  end.

(** The characters [\s] matches beyond ASCII, as UTF-8: the no-break space,
    the byte order mark, the space separators and the line separators. *)
Definition wide_spaces : list (list Z) :=
  [[194; 160]; [239; 187; 191]; [225; 154; 128]; [226; 128; 128]; [226; 128; 129];
   [226; 128; 130]; [226; 128; 131]; [226; 128; 132]; [226; 128; 133]; [226; 128; 134];
   [226; 128; 135]; [226; 128; 136]; [226; 128; 137]; [226; 128; 138]; [226; 128; 168];
   [226; 128; 169]; [226; 128; 175]; [226; 129; 159]; [227; 128; 128]].

Definition of_codes (l : list Z) : string :=
  foldr (λ n s, String (Ascii.ascii_of_N (Z.to_N n)) s) EmptyString l.

Definition is_ascii_space (c : Ascii.ascii) : bool :=
  let n := Ascii.N_of_ascii c in
  ((9 <=? n)%N && (n <=? 13)%N) || (n =? 32)%N.

(** One white-space character. *)
Definition strip_space (s : string) : option string :=
  match s with
  | String c s' =>
    if is_ascii_space c then Some s'
    else foldr (λ w acc, match strip_prefix (of_codes w) s with
                         | Some r => Some r | None => acc end) None wide_spaces
  | EmptyString => None
  end.

(** [\s*]; a character is at least one byte, so the length is enough fuel. *)
Fixpoint skip_spaces (fuel : nat) (s : string) : string :=
  match fuel with
  | O => s
  | S fuel' => match strip_space s with Some s' => skip_spaces fuel' s' | None => s end
  end.

(** [(\d+)], with the [parseInt(_, 10)] of the group. *)
Definition match_digits (s : string) : option (Z * string) :=
  match s with
  | String c _ =>
    match digit_value c with
    | Some _ => let '(n, r) := read_digits 0 s in Some (to_number (Z.of_N n), r)
    | None => None
    end
  | EmptyString => None
  end.

(** The leftmost match of a pattern. *)
Fixpoint find_match (m : string → option Z) (s : string) : option Z :=
  match m s with
  | Some n => Some n
  | None => match s with String _ s' => find_match m s' | EmptyString => None end
  end.

(** [/Error\(Contract,\s*#(\d+)\)/] *)
Definition hash_pattern (s : string) : option Z :=
  s ← strip_prefix "Error(Contract," s;
  s ← strip_prefix "#" (skip_spaces (String.length s) s);
  '(n, s) ← match_digits s;
  _ ← strip_prefix ")" s;
  Some n.

(** [/ContractError\((\d+)\)/] *)
Definition contract_error_pattern (s : string) : option Z :=
  s ← strip_prefix "ContractError(" s;
  '(n, s) ← match_digits s;
  _ ← strip_prefix ")" s;
  Some n.

(** [/contract error:\s*#?(\d+)/i] *)
Definition generic_pattern (s : string) : option Z :=
  s ← strip_prefix_ci "contract error:" s;
  let s := skip_spaces (String.length s) s in
  fst <$> match_digits (default s (strip_prefix "#" s)).

(** ** Raw errors *)

(** [SorobanRpcError | string | null | undefined] *)
Inductive RawError :=
  | RawString (s : string)
  | RawObject (status error : option string)
  | RawNull.

Definition errorText (raw : RawError) : string :=
  match raw with
  | RawString s => s
  | RawObject _ (Some e) => e
  | RawObject _ None | RawNull => ""
  end.

Definition hasErrorStatus (raw : RawError) : bool :=
  match raw with
  | RawObject (Some st) _ => bool_decide (st = "ERROR")
  | _ => false
  end.

Definition extractContractErrorCode (raw : RawError) : option Z :=
  let str := errorText raw in
  if bool_decide (str = "") then None
  else
    match find_match hash_pattern str with
    | Some n => Some n
    | None =>
      match find_match contract_error_pattern str with
      | Some n => Some n
      | None => find_match generic_pattern str
      end
    end.

(** [GovernorError], [TimelockError], ...: the class is the parser's. *)
Record TypedError := mkTypedError { err_code : Z; err_message : string }.

(** [errorText(raw) || "unknown"] *)
Definition text_or_unknown (raw : RawError) : string :=
  if bool_decide (errorText raw = "") then "unknown" else errorText raw.

(** The body the parsers share: [label] opens the fallback message. *)
Definition parse_error (messages : Z → option string) (label : string)
    (transactionFailed simulationFailed : Z) (raw : RawError) : TypedError :=
  let text code := default "undefined" (messages code) in
  match extractContractErrorCode raw with
  | Some contractCode =>
    mkTypedError contractCode
      (default (label +:+ " contract error #" +:+ decimal contractCode) (messages contractCode))
  | None =>
    if hasErrorStatus raw then
      mkTypedError transactionFailed
        (text transactionFailed +:+ ": " +:+ text_or_unknown raw)
    else
      mkTypedError simulationFailed
        (text simulationFailed +:+ ": " +:+ text_or_unknown raw)
  end.

(** Look a number up in an enumeration. *)
Definition find_code {T} (members : list T) (num : T → Z) (n : Z) : option T :=
  snd <$> list_find (λ c, num c = n) members.

(** ** The error families *)

Module GovernorErrorCode.
Inductive t :=
  | UnauthorizedCancel
  | InvalidSupport
  | ProposalExpired
  | CalldataTooLarge
  | InvalidCalldata
  | ProposalRateLimited
  | ContractPaused
  | UnauthorizedPause
  | InvalidVectorLengths
  | NoTargets
  | ProposalThresholdNotMet
  | AlreadyVoted
  | ZeroVotingPower
  | ProposalNotSucceeded
  | ProposalNotQueued
  | ProposalAlreadyExecuted
  | MissingOpIds
  | UnauthorizedGuardian
  | VetoWindowClosed
  | ProposalNotFound
  | TimelockNotSet
  | GuardianNotSet
  | TooManyTokens
  | EmptyMetadataUri
  | VotesTokenNotSet
  | PauserNotSet
  | ArithmeticOverflow
  | VotePeriodTooShort
  | ExecutionWindowZero
  | TooManyCalldataEntries
  | ProposalNotActive
  | AlreadyInitialized
  | InvalidVotingDelay
  | InvalidVotingPeriod
  | InvalidQuorumNumerator
  | InvalidProposalThreshold
  | InvalidMaxCalldataSize
  | InvalidMaxProposalsPerPeriod
  | InvalidProposalPeriodDuration
  | EmptyBatch
  | BatchProposalNotQueued
  | ProposalAlreadyCancelled
  | InvalidVoteChoice
  | UnauthorizedRegistry
  | RpcNotFound
  | SimulationFailed
  | TransactionFailed
  | TransactionTimeout
  | InvalidArguments
  | UnknownState.
#[export] Instance t_eq_dec : EqDecision t.
Proof. solve_decision. Defined.
Definition num (c : t) : Z :=
  match c with
  | UnauthorizedCancel => 1
  | InvalidSupport => 2
  | ProposalExpired => 3
  | CalldataTooLarge => 4
  | InvalidCalldata => 5
  | ProposalRateLimited => 6
  | ContractPaused => 7
  | UnauthorizedPause => 8
  | InvalidVectorLengths => 9
  | NoTargets => 10
  | ProposalThresholdNotMet => 11
  | AlreadyVoted => 12
  | ZeroVotingPower => 13
  | ProposalNotSucceeded => 14
  | ProposalNotQueued => 15
  | ProposalAlreadyExecuted => 16
  | MissingOpIds => 17
  | UnauthorizedGuardian => 18
  | VetoWindowClosed => 19
  | ProposalNotFound => 20
  | TimelockNotSet => 21
  | GuardianNotSet => 22
  | TooManyTokens => 23
  | EmptyMetadataUri => 24
  | VotesTokenNotSet => 25
  | PauserNotSet => 26
  | ArithmeticOverflow => 27
  | VotePeriodTooShort => 28
  | ExecutionWindowZero => 29
  | TooManyCalldataEntries => 30
  | ProposalNotActive => 31
  | AlreadyInitialized => 32
  | InvalidVotingDelay => 33
  | InvalidVotingPeriod => 34
  | InvalidQuorumNumerator => 35
  | InvalidProposalThreshold => 36
  | InvalidMaxCalldataSize => 37
  | InvalidMaxProposalsPerPeriod => 38
  | InvalidProposalPeriodDuration => 39
  | EmptyBatch => 40
  | BatchProposalNotQueued => 41
  | ProposalAlreadyCancelled => 42
  | InvalidVoteChoice => 43
  | UnauthorizedRegistry => 44
  | RpcNotFound => 100
  | SimulationFailed => 101
  | TransactionFailed => 102
  | TransactionTimeout => 103
  | InvalidArguments => 104
  | UnknownState => 105
  end.
Definition message (c : t) : string :=
  match c with
  | UnauthorizedCancel =>
    "Unauthorized: only the proposer or guardian can cancel this proposal"
  | InvalidSupport =>
    "Invalid vote support: this governance type does not allow abstain votes"
  | ProposalExpired =>
    "Proposal has expired and can no longer be acted upon"
  | CalldataTooLarge =>
    "Calldata exceeds the maximum allowed size"
  | InvalidCalldata =>
    "Calldata is invalid or malformed"
  | ProposalRateLimited =>
    "Proposal creation is rate-limited for this proposer"
  | ContractPaused =>
    "Contract is paused"
  | UnauthorizedPause =>
    "Only the pauser may pause the contract"
  | InvalidVectorLengths =>
    "Targets, function names, and calldatas must have the same length"
  | NoTargets =>
    "At least one target is required"
  | ProposalThresholdNotMet =>
    "Proposer does not meet the proposal threshold"
  | AlreadyVoted =>
    "Voter has already voted on this proposal"
  | ZeroVotingPower =>
    "Account has zero voting power"
  | ProposalNotSucceeded =>
    "Proposal is not in Succeeded state"
  | ProposalNotQueued =>
    "Proposal is not queued"
  | ProposalAlreadyExecuted =>
    "Proposal has already been executed"
  | MissingOpIds =>
    "Missing timelock operation IDs; queue() must be called first"
  | UnauthorizedGuardian =>
    "Only the guardian may perform this action"
  | VetoWindowClosed =>
    "Veto window has closed"
  | ProposalNotFound =>
    "Proposal not found"
  | TimelockNotSet =>
    "Timelock address is not configured"
  | GuardianNotSet =>
    "Guardian address is not configured"
  | TooManyTokens =>
    "Multi-token strategy supports at most 5 tokens"
  | EmptyMetadataUri =>
    "Metadata URI cannot be empty"
  | VotesTokenNotSet =>
    "Votes token address is not configured"
  | PauserNotSet =>
    "Pauser address is not configured"
  | ArithmeticOverflow =>
    "Arithmetic overflow while computing governance state"
  | VotePeriodTooShort =>
    "Voting period is shorter than the minimum required"
  | ExecutionWindowZero =>
    "Execution window must be greater than zero"
  | TooManyCalldataEntries =>
    "Proposal exceeds the maximum number of calldata entries (10)"
  | ProposalNotActive =>
    "Voting has ended for this proposal"
  | AlreadyInitialized =>
    "Contract is already initialized"
  | InvalidVotingDelay =>
    "Voting delay must be greater than zero"
  | InvalidVotingPeriod =>
    "Voting period must be greater than zero"
  | InvalidQuorumNumerator =>
    "Quorum numerator must be between 0 and 100"
  | InvalidProposalThreshold =>
    "Proposal threshold must be non-negative"
  | InvalidMaxCalldataSize =>
    "Max calldata size must be greater than zero"
  | InvalidMaxProposalsPerPeriod =>
    "Max proposals per period must be greater than zero"
  | InvalidProposalPeriodDuration =>
    "Proposal period duration must be greater than zero"
  | EmptyBatch =>
    "Batch proposal cannot be empty"
  | BatchProposalNotQueued =>
    "Batch proposal is not queued"
  | ProposalAlreadyCancelled =>
    "Proposal has already been cancelled"
  | InvalidVoteChoice =>
    "Invalid vote choice: must be 0 (Against), 1 (For), or 2 (Abstain)"
  | UnauthorizedRegistry =>
    "Caller is not the configured co-sponsorship registry"
  | RpcNotFound =>
    "Proposal not found"
  | SimulationFailed =>
    "Simulation failed"
  | TransactionFailed =>
    "Transaction failed"
  | TransactionTimeout =>
    "Transaction timed out"
  | InvalidArguments =>
    "Invalid arguments"
  | UnknownState =>
    "Unknown proposal state"
  end.
Definition members : list t :=
  [UnauthorizedCancel; InvalidSupport; ProposalExpired; CalldataTooLarge; InvalidCalldata; ProposalRateLimited; ContractPaused; UnauthorizedPause; InvalidVectorLengths; NoTargets; ProposalThresholdNotMet; AlreadyVoted; ZeroVotingPower; ProposalNotSucceeded; ProposalNotQueued; ProposalAlreadyExecuted; MissingOpIds; UnauthorizedGuardian; VetoWindowClosed; ProposalNotFound; TimelockNotSet; GuardianNotSet; TooManyTokens; EmptyMetadataUri; VotesTokenNotSet; PauserNotSet; ArithmeticOverflow; VotePeriodTooShort; ExecutionWindowZero; TooManyCalldataEntries; ProposalNotActive; AlreadyInitialized; InvalidVotingDelay; InvalidVotingPeriod; InvalidQuorumNumerator; InvalidProposalThreshold; InvalidMaxCalldataSize; InvalidMaxProposalsPerPeriod; InvalidProposalPeriodDuration; EmptyBatch; BatchProposalNotQueued; ProposalAlreadyCancelled; InvalidVoteChoice; UnauthorizedRegistry; RpcNotFound; SimulationFailed; TransactionFailed; TransactionTimeout; InvalidArguments; UnknownState].
Definition messages (n : Z) : option string := message <$> find_code members num n.
End GovernorErrorCode.

Definition parseGovernorError : RawError → TypedError :=
  parse_error GovernorErrorCode.messages "Governor"
    (GovernorErrorCode.num GovernorErrorCode.TransactionFailed) (GovernorErrorCode.num GovernorErrorCode.SimulationFailed).

Module TimelockErrorCode.
Inductive t :=
  | PredecessorNotDone
  | PredecessorNotFound
  | OperationExpired
  | DependencyCycleDetected
  | PredecessorNotComplete
  | BatchInRecoveryMode
  | BatchRecoveryExpired
  | OperationAlreadyInBatch
  | InvalidPredecessorList
  | SimulationFailed
  | TransactionFailed
  | TransactionTimeout
  | MissingReturnValue.
#[export] Instance t_eq_dec : EqDecision t.
Proof. solve_decision. Defined.
Definition num (c : t) : Z :=
  match c with
  | PredecessorNotDone => 1
  | PredecessorNotFound => 2
  | OperationExpired => 3
  | DependencyCycleDetected => 10
  | PredecessorNotComplete => 11
  | BatchInRecoveryMode => 12
  | BatchRecoveryExpired => 13
  | OperationAlreadyInBatch => 14
  | InvalidPredecessorList => 15
  | SimulationFailed => 100
  | TransactionFailed => 101
  | TransactionTimeout => 102
  | MissingReturnValue => 103
  end.
Definition message (c : t) : string :=
  match c with
  | PredecessorNotDone =>
    "Cannot execute: predecessor operation has not been executed yet"
  | PredecessorNotFound =>
    "Cannot schedule: the specified predecessor operation does not exist"
  | OperationExpired =>
    "Operation has expired and can no longer be executed"
  | DependencyCycleDetected =>
    "The dependency graph contains a cycle and cannot be scheduled"
  | PredecessorNotComplete =>
    "A predecessor operation in the batch has not completed yet"
  | BatchInRecoveryMode =>
    "Batch is in recovery mode and cannot accept this operation"
  | BatchRecoveryExpired =>
    "Batch recovery deadline has expired"
  | OperationAlreadyInBatch =>
    "Operation is already part of a batch"
  | InvalidPredecessorList =>
    "Invalid predecessor list provided"
  | SimulationFailed =>
    "Simulation failed"
  | TransactionFailed =>
    "Transaction failed"
  | TransactionTimeout =>
    "Transaction timed out"
  | MissingReturnValue =>
    "No return value from contract"
  end.
Definition members : list t :=
  [PredecessorNotDone; PredecessorNotFound; OperationExpired; DependencyCycleDetected; PredecessorNotComplete; BatchInRecoveryMode; BatchRecoveryExpired; OperationAlreadyInBatch; InvalidPredecessorList; SimulationFailed; TransactionFailed; TransactionTimeout; MissingReturnValue].
Definition messages (n : Z) : option string := message <$> find_code members num n.
End TimelockErrorCode.

Definition parseTimelockError : RawError → TypedError :=
  parse_error TimelockErrorCode.messages "Timelock"
    (TimelockErrorCode.num TimelockErrorCode.TransactionFailed) (TimelockErrorCode.num TimelockErrorCode.SimulationFailed).

Module VotesErrorCode.
Inductive t :=
  | InvalidSignature
  | NonceAlreadyUsed
  | PermitExpired
  | InvalidDelegationPermit
  | RelayerNotWhitelisted
  | InvalidChainId
  | InvalidContractId
  | ChainDepthExceeded
  | SplitTooManyTargets
  | SplitDuplicateDelegatee
  | SplitZeroWeight
  | SplitWeightsMustSum10000
  | SimulationFailed
  | TransactionFailed
  | TransactionTimeout
  | DelegationFailed
  | EventScanFailed.
#[export] Instance t_eq_dec : EqDecision t.
Proof. solve_decision. Defined.
Definition num (c : t) : Z :=
  match c with
  | InvalidSignature => 10
  | NonceAlreadyUsed => 11
  | PermitExpired => 12
  | InvalidDelegationPermit => 13
  | RelayerNotWhitelisted => 14
  | InvalidChainId => 15
  | InvalidContractId => 16
  | ChainDepthExceeded => 17
  | SplitTooManyTargets => 18
  | SplitDuplicateDelegatee => 19
  | SplitZeroWeight => 20
  | SplitWeightsMustSum10000 => 21
  | SimulationFailed => 100
  | TransactionFailed => 101
  | TransactionTimeout => 102
  | DelegationFailed => 103
  | EventScanFailed => 104
  end.
Definition message (c : t) : string :=
  match c with
  | InvalidSignature =>
    "Invalid or missing delegation signature"
  | NonceAlreadyUsed =>
    "Permit nonce has already been used or invalidated"
  | PermitExpired =>
    "Delegation permit has expired"
  | InvalidDelegationPermit =>
    "Delegation permit is malformed or out of order"
  | RelayerNotWhitelisted =>
    "Relayer is not whitelisted to submit signed permits"
  | InvalidChainId =>
    "Permit was signed for a different network"
  | InvalidContractId =>
    "Permit was signed for a different contract"
  | ChainDepthExceeded =>
    "Delegation would exceed the maximum chain depth"
  | SplitTooManyTargets =>
    "Split delegation has more entries than the maximum allowed targets"
  | SplitDuplicateDelegatee =>
    "Split delegation contains a duplicate delegatee"
  | SplitZeroWeight =>
    "Split delegation entry must have a non-zero weight"
  | SplitWeightsMustSum10000 =>
    "Split delegation weights must sum to exactly 10000 (100%)"
  | SimulationFailed =>
    "Simulation failed"
  | TransactionFailed =>
    "Transaction failed"
  | TransactionTimeout =>
    "Transaction timed out"
  | DelegationFailed =>
    "Delegation transaction failed"
  | EventScanFailed =>
    "Failed to scan delegation events"
  end.
Definition members : list t :=
  [InvalidSignature; NonceAlreadyUsed; PermitExpired; InvalidDelegationPermit; RelayerNotWhitelisted; InvalidChainId; InvalidContractId; ChainDepthExceeded; SplitTooManyTargets; SplitDuplicateDelegatee; SplitZeroWeight; SplitWeightsMustSum10000; SimulationFailed; TransactionFailed; TransactionTimeout; DelegationFailed; EventScanFailed].
Definition messages (n : Z) : option string := message <$> find_code members num n.
End VotesErrorCode.

Definition parseVotesError : RawError → TypedError :=
  parse_error VotesErrorCode.messages "Votes"
    (VotesErrorCode.num VotesErrorCode.TransactionFailed) (VotesErrorCode.num VotesErrorCode.SimulationFailed).

Module VoteEscrowErrorCode.
Inductive t :=
  | NotInitialized
  | LockNotFound
  | LockNotMatured
  | LockAlreadyWithdrawn
  | InvalidDuration
  | InvalidAmount
  | InvalidEndLedger
  | ArithmeticOverflow
  | Unauthorized
  | LockAlreadyExists
  | SimulationFailed
  | TransactionFailed
  | TransactionTimeout.
#[export] Instance t_eq_dec : EqDecision t.
Proof. solve_decision. Defined.
Definition num (c : t) : Z :=
  match c with
  | NotInitialized => 1
  | LockNotFound => 2
  | LockNotMatured => 3
  | LockAlreadyWithdrawn => 4
  | InvalidDuration => 5
  | InvalidAmount => 6
  | InvalidEndLedger => 7
  | ArithmeticOverflow => 8
  | Unauthorized => 9
  | LockAlreadyExists => 10
  | SimulationFailed => 100
  | TransactionFailed => 101
  | TransactionTimeout => 102
  end.
Definition message (c : t) : string :=
  match c with
  | NotInitialized =>
    "Vote escrow contract is not initialized"
  | LockNotFound =>
    "No active lock found for this account"
  | LockNotMatured =>
    "Lock has not yet reached its end ledger"
  | LockAlreadyWithdrawn =>
    "Lock has already been withdrawn"
  | InvalidDuration =>
    "Lock duration is outside the allowed range"
  | InvalidAmount =>
    "Lock amount must be positive"
  | InvalidEndLedger =>
    "New end ledger must be after the current end ledger"
  | ArithmeticOverflow =>
    "Arithmetic overflow in voting power calculation"
  | Unauthorized =>
    "Caller is not authorized to perform this action"
  | LockAlreadyExists =>
    "An active lock already exists for this account"
  | SimulationFailed =>
    "Simulation failed"
  | TransactionFailed =>
    "Transaction failed"
  | TransactionTimeout =>
    "Transaction timed out"
  end.
Definition members : list t :=
  [NotInitialized; LockNotFound; LockNotMatured; LockAlreadyWithdrawn; InvalidDuration; InvalidAmount; InvalidEndLedger; ArithmeticOverflow; Unauthorized; LockAlreadyExists; SimulationFailed; TransactionFailed; TransactionTimeout].
Definition messages (n : Z) : option string := message <$> find_code members num n.
End VoteEscrowErrorCode.

Definition parseVoteEscrowError : RawError → TypedError :=
  parse_error VoteEscrowErrorCode.messages "Vote escrow"
    (VoteEscrowErrorCode.num VoteEscrowErrorCode.TransactionFailed) (VoteEscrowErrorCode.num VoteEscrowErrorCode.SimulationFailed).

Module TreasuryErrorCode.
Inductive t :=
  | SingleTransferExceeded
  | DailyLimitExceeded
  | NotInitialized
  | NoPendingOwner
  | TxNotFound
  | NotAnOwner
  | ArithmeticOverflow
  | StreamNotFound
  | StreamNotActive
  | StreamExpired
  | StreamRevoked
  | StreamBudgetExhausted
  | StreamSpendExceedsMax
  | StreamCooldownNotElapsed
  | UnauthorizedStreamOwner
  | InsufficientTreasuryBalance
  | StreamAlreadyRevoked
  | StreamEndBeforeStart
  | StreamSpendNotFound
  | SimulationFailed
  | TransactionFailed
  | TransactionTimeout
  | MissingReturnValue
  | InvalidArguments.
#[export] Instance t_eq_dec : EqDecision t.
Proof. solve_decision. Defined.
Definition num (c : t) : Z :=
  match c with
  | SingleTransferExceeded => 1
  | DailyLimitExceeded => 2
  | NotInitialized => 3
  | NoPendingOwner => 4
  | TxNotFound => 5
  | NotAnOwner => 6
  | ArithmeticOverflow => 7
  | StreamNotFound => 10
  | StreamNotActive => 11
  | StreamExpired => 12
  | StreamRevoked => 13
  | StreamBudgetExhausted => 14
  | StreamSpendExceedsMax => 15
  | StreamCooldownNotElapsed => 16
  | UnauthorizedStreamOwner => 17
  | InsufficientTreasuryBalance => 18
  | StreamAlreadyRevoked => 19
  | StreamEndBeforeStart => 20
  | StreamSpendNotFound => 21
  | SimulationFailed => 100
  | TransactionFailed => 101
  | TransactionTimeout => 102
  | MissingReturnValue => 103
  | InvalidArguments => 104
  end.
Definition message (c : t) : string :=
  match c with
  | SingleTransferExceeded =>
    "Transfer exceeds the maximum allowed single-transfer amount"
  | DailyLimitExceeded =>
    "Transfer exceeds the configured daily treasury limit"
  | NotInitialized =>
    "Treasury contract has not been initialized"
  | NoPendingOwner =>
    "No pending treasury owner has been proposed"
  | TxNotFound =>
    "Treasury transaction not found"
  | NotAnOwner =>
    "Address is not a treasury owner"
  | ArithmeticOverflow =>
    "Treasury amount calculation overflowed"
  | StreamNotFound =>
    "Budget stream not found"
  | StreamNotActive =>
    "Budget stream is not active"
  | StreamExpired =>
    "Budget stream has expired"
  | StreamRevoked =>
    "Budget stream has been revoked"
  | StreamBudgetExhausted =>
    "Budget stream has no remaining funds"
  | StreamSpendExceedsMax =>
    "Spend exceeds the maximum single spend for a stream"
  | StreamCooldownNotElapsed =>
    "Cooldown period between spends has not elapsed"
  | UnauthorizedStreamOwner =>
    "Caller is not the authorized stream owner"
  | InsufficientTreasuryBalance =>
    "Treasury has insufficient balance for the stream spend"
  | StreamAlreadyRevoked =>
    "Stream has already been revoked"
  | StreamEndBeforeStart =>
    "Stream end ledger is before start ledger"
  | StreamSpendNotFound =>
    "Stream spend record not found"
  | SimulationFailed =>
    "Simulation failed"
  | TransactionFailed =>
    "Transaction failed"
  | TransactionTimeout =>
    "Transaction timed out"
  | MissingReturnValue =>
    "No return value from contract"
  | InvalidArguments =>
    "Invalid arguments"
  end.
Definition members : list t :=
  [SingleTransferExceeded; DailyLimitExceeded; NotInitialized; NoPendingOwner; TxNotFound; NotAnOwner; ArithmeticOverflow; StreamNotFound; StreamNotActive; StreamExpired; StreamRevoked; StreamBudgetExhausted; StreamSpendExceedsMax; StreamCooldownNotElapsed; UnauthorizedStreamOwner; InsufficientTreasuryBalance; StreamAlreadyRevoked; StreamEndBeforeStart; StreamSpendNotFound; SimulationFailed; TransactionFailed; TransactionTimeout; MissingReturnValue; InvalidArguments].
Definition messages (n : Z) : option string := message <$> find_code members num n.
End TreasuryErrorCode.

Definition parseTreasuryError : RawError → TypedError :=
  parse_error TreasuryErrorCode.messages "Treasury"
    (TreasuryErrorCode.num TreasuryErrorCode.TransactionFailed) (TreasuryErrorCode.num TreasuryErrorCode.SimulationFailed).

Module CoSponsorshipErrorCode.
Inductive t :=
  | AlreadyInitialized
  | DraftNotFound
  | DraftExpired
  | DraftClosed
  | AlreadyCoSponsored
  | NotCoSponsored
  | CoSponsorLimitReached
  | DraftThresholdNotMet
  | UnauthorizedDraftCreator
  | ZeroVotingPower
  | InvalidVectorLengths
  | NoTargets
  | CalldataTooLarge
  | TooManyCalldataEntries
  | NotInitialized
  | SimulationFailed
  | TransactionFailed
  | TransactionTimeout
  | MissingReturnValue.
#[export] Instance t_eq_dec : EqDecision t.
Proof. solve_decision. Defined.
Definition num (c : t) : Z :=
  match c with
  | AlreadyInitialized => 1
  | DraftNotFound => 2
  | DraftExpired => 3
  | DraftClosed => 4
  | AlreadyCoSponsored => 5
  | NotCoSponsored => 6
  | CoSponsorLimitReached => 7
  | DraftThresholdNotMet => 8
  | UnauthorizedDraftCreator => 9
  | ZeroVotingPower => 10
  | InvalidVectorLengths => 11
  | NoTargets => 12
  | CalldataTooLarge => 13
  | TooManyCalldataEntries => 14
  | NotInitialized => 15
  | SimulationFailed => 100
  | TransactionFailed => 101
  | TransactionTimeout => 102
  | MissingReturnValue => 103
  end.
Definition message (c : t) : string :=
  match c with
  | AlreadyInitialized =>
    "Contract is already initialized"
  | DraftNotFound =>
    "Draft not found"
  | DraftExpired =>
    "Draft has expired"
  | DraftClosed =>
    "Draft has already been finalized or cancelled"
  | AlreadyCoSponsored =>
    "Address has already co-sponsored this draft"
  | NotCoSponsored =>
    "Address has not co-sponsored this draft"
  | CoSponsorLimitReached =>
    "Draft has reached its maximum co-sponsor count"
  | DraftThresholdNotMet =>
    "Draft's accumulated co-sponsor power does not meet the proposal threshold"
  | UnauthorizedDraftCreator =>
    "Only the draft's creator (or admin, for cancellation) may perform this action"
  | ZeroVotingPower =>
    "Account has zero voting power"
  | InvalidVectorLengths =>
    "Targets, function names, and calldatas must have the same length"
  | NoTargets =>
    "At least one target is required"
  | CalldataTooLarge =>
    "Calldata exceeds the maximum allowed size"
  | TooManyCalldataEntries =>
    "Too many calldata entries"
  | NotInitialized =>
    "Contract has not been initialized yet"
  | SimulationFailed =>
    "Simulation failed"
  | TransactionFailed =>
    "Transaction failed"
  | TransactionTimeout =>
    "Transaction timed out"
  | MissingReturnValue =>
    "No return value from contract"
  end.
Definition members : list t :=
  [AlreadyInitialized; DraftNotFound; DraftExpired; DraftClosed; AlreadyCoSponsored; NotCoSponsored; CoSponsorLimitReached; DraftThresholdNotMet; UnauthorizedDraftCreator; ZeroVotingPower; InvalidVectorLengths; NoTargets; CalldataTooLarge; TooManyCalldataEntries; NotInitialized; SimulationFailed; TransactionFailed; TransactionTimeout; MissingReturnValue].
Definition messages (n : Z) : option string := message <$> find_code members num n.
End CoSponsorshipErrorCode.

(** [finalize_draft] can surface two governor errors, whose codes overlap the
    family's own. *)
Definition parseCoSponsorshipError (raw : RawError) (operation : option string) : TypedError :=
  match extractContractErrorCode raw with
  | Some contractCode =>
    if bool_decide (operation = Some "finalize_draft") &&
       ((contractCode =? GovernorErrorCode.num GovernorErrorCode.ProposalRateLimited) ||
        (contractCode =? GovernorErrorCode.num GovernorErrorCode.ContractPaused))
    then
      mkTypedError (CoSponsorshipErrorCode.num CoSponsorshipErrorCode.TransactionFailed)
        ("Governor rejected the underlying proposal: " +:+
         default ("Governor contract error #" +:+ decimal contractCode)
           (GovernorErrorCode.messages contractCode))
    else
      parse_error CoSponsorshipErrorCode.messages "Co-sponsorship"
        (CoSponsorshipErrorCode.num CoSponsorshipErrorCode.TransactionFailed)
        (CoSponsorshipErrorCode.num CoSponsorshipErrorCode.SimulationFailed) raw
  | None =>
    parse_error CoSponsorshipErrorCode.messages "Co-sponsorship"
      (CoSponsorshipErrorCode.num CoSponsorshipErrorCode.TransactionFailed)
      (CoSponsorshipErrorCode.num CoSponsorshipErrorCode.SimulationFailed) raw
  end.

Module SignalingErrorCode.
Inductive t :=
  | AlreadyInitialized
  | AlreadyAnchored
  | Unauthorized
  | NotInitialized
  | SimulationFailed
  | TransactionFailed
  | TransactionTimeout
  | MissingReturnValue.
#[export] Instance t_eq_dec : EqDecision t.
Proof. solve_decision. Defined.
Definition num (c : t) : Z :=
  match c with
  | AlreadyInitialized => 1
  | AlreadyAnchored => 2
  | Unauthorized => 3
  | NotInitialized => 4
  | SimulationFailed => 100
  | TransactionFailed => 101
  | TransactionTimeout => 102
  | MissingReturnValue => 103
  end.
Definition message (c : t) : string :=
  match c with
  | AlreadyInitialized =>
    "Contract is already initialized"
  | AlreadyAnchored =>
    "This poll's result has already been anchored"
  | Unauthorized =>
    "Only the configured admin may anchor a result"
  | NotInitialized =>
    "Contract has not been initialized yet"
  | SimulationFailed =>
    "Simulation failed"
  | TransactionFailed =>
    "Transaction failed"
  | TransactionTimeout =>
    "Transaction timed out"
  | MissingReturnValue =>
    "No return value from contract"
  end.
Definition members : list t :=
  [AlreadyInitialized; AlreadyAnchored; Unauthorized; NotInitialized; SimulationFailed; TransactionFailed; TransactionTimeout; MissingReturnValue].
Definition messages (n : Z) : option string := message <$> find_code members num n.
End SignalingErrorCode.

Definition parseSignalingError : RawError → TypedError :=
  parse_error SignalingErrorCode.messages "Signal-anchor"
    (SignalingErrorCode.num SignalingErrorCode.TransactionFailed) (SignalingErrorCode.num SignalingErrorCode.SimulationFailed).

Module ProposalBondsErrorCode.
Inductive t :=
  | AlreadyInitialized
  | NotInitialized
  | BondAlreadyLocked
  | BondNotFound
  | BondNotLocked
  | DescriptionHashMismatch
  | ProposalNotTerminal
  | RefundGraceNotElapsed
  | NotAuthorized
  | SimulationFailed
  | TransactionFailed
  | TransactionTimeout
  | MissingReturnValue.
#[export] Instance t_eq_dec : EqDecision t.
Proof. solve_decision. Defined.
Definition num (c : t) : Z :=
  match c with
  | AlreadyInitialized => 1
  | NotInitialized => 2
  | BondAlreadyLocked => 3
  | BondNotFound => 4
  | BondNotLocked => 5
  | DescriptionHashMismatch => 6
  | ProposalNotTerminal => 7
  | RefundGraceNotElapsed => 8
  | NotAuthorized => 9
  | SimulationFailed => 100
  | TransactionFailed => 101
  | TransactionTimeout => 102
  | MissingReturnValue => 103
  end.
Definition message (c : t) : string :=
  match c with
  | AlreadyInitialized =>
    "Contract is already initialized"
  | NotInitialized =>
    "Contract has not been initialized yet"
  | BondAlreadyLocked =>
    "A bond has already been locked for this description hash"
  | BondNotFound =>
    "Bond not found"
  | BondNotLocked =>
    "Bond is not in the Locked state"
  | DescriptionHashMismatch =>
    "The proposal's description hash does not match this bond"
  | ProposalNotTerminal =>
    "The correlated proposal has not reached a terminal state"
  | RefundGraceNotElapsed =>
    "The post-terminal refund grace window has not elapsed yet"
  | NotAuthorized =>
    "Caller is not authorized to perform this action"
  | SimulationFailed =>
    "Simulation failed"
  | TransactionFailed =>
    "Transaction failed"
  | TransactionTimeout =>
    "Transaction timed out"
  | MissingReturnValue =>
    "No return value from contract"
  end.
Definition members : list t :=
  [AlreadyInitialized; NotInitialized; BondAlreadyLocked; BondNotFound; BondNotLocked; DescriptionHashMismatch; ProposalNotTerminal; RefundGraceNotElapsed; NotAuthorized; SimulationFailed; TransactionFailed; TransactionTimeout; MissingReturnValue].
Definition messages (n : Z) : option string := message <$> find_code members num n.
End ProposalBondsErrorCode.

Definition parseProposalBondsError : RawError → TypedError :=
  parse_error ProposalBondsErrorCode.messages "Proposal-bonds"
    (ProposalBondsErrorCode.num ProposalBondsErrorCode.TransactionFailed) (ProposalBondsErrorCode.num ProposalBondsErrorCode.SimulationFailed).

Module TreasuryStrategiesErrorCode.
Inductive t :=
  | AlreadyInitialized
  | NotAdmin
  | NotTreasury
  | StrategyNotFound
  | NoActiveStrategy
  | AllocationCapExceeded
  | InsufficientAllocation
  | WithdrawalNotFound
  | WithdrawalAlreadyClaimed
  | WithdrawalNotYetClaimable
  | InvalidAmount
  | InvalidBps
  | SimulationFailed
  | TransactionFailed
  | TransactionTimeout
  | MissingReturnValue.
#[export] Instance t_eq_dec : EqDecision t.
Proof. solve_decision. Defined.
Definition num (c : t) : Z :=
  match c with
  | AlreadyInitialized => 1
  | NotAdmin => 2
  | NotTreasury => 3
  | StrategyNotFound => 4
  | NoActiveStrategy => 5
  | AllocationCapExceeded => 6
  | InsufficientAllocation => 7
  | WithdrawalNotFound => 8
  | WithdrawalAlreadyClaimed => 9
  | WithdrawalNotYetClaimable => 10
  | InvalidAmount => 11
  | InvalidBps => 12
  | SimulationFailed => 100
  | TransactionFailed => 101
  | TransactionTimeout => 102
  | MissingReturnValue => 103
  end.
Definition message (c : t) : string :=
  match c with
  | AlreadyInitialized =>
    "Contract is already initialized"
  | NotAdmin =>
    "Only the configured admin may perform this action"
  | NotTreasury =>
    "Only the configured treasury may perform this action"
  | StrategyNotFound =>
    "Strategy not found"
  | NoActiveStrategy =>
    "No active strategy is registered for this token"
  | AllocationCapExceeded =>
    "Deposit would exceed the strategy's max_allocation_bps cap"
  | InsufficientAllocation =>
    "Withdrawal amount exceeds the strategy's current allocation"
  | WithdrawalNotFound =>
    "Withdrawal request not found"
  | WithdrawalAlreadyClaimed =>
    "Withdrawal has already been claimed"
  | WithdrawalNotYetClaimable =>
    "Withdrawal cooldown has not elapsed yet"
  | InvalidAmount =>
    "Amount must be greater than zero"
  | InvalidBps =>
    "max_allocation_bps must not exceed 10000"
  | SimulationFailed =>
    "Simulation failed"
  | TransactionFailed =>
    "Transaction failed"
  | TransactionTimeout =>
    "Transaction timed out"
  | MissingReturnValue =>
    "No return value from contract"
  end.
Definition members : list t :=
  [AlreadyInitialized; NotAdmin; NotTreasury; StrategyNotFound; NoActiveStrategy; AllocationCapExceeded; InsufficientAllocation; WithdrawalNotFound; WithdrawalAlreadyClaimed; WithdrawalNotYetClaimable; InvalidAmount; InvalidBps; SimulationFailed; TransactionFailed; TransactionTimeout; MissingReturnValue].
Definition messages (n : Z) : option string := message <$> find_code members num n.
End TreasuryStrategiesErrorCode.

Definition parseTreasuryStrategiesError : RawError → TypedError :=
  parse_error TreasuryStrategiesErrorCode.messages "Treasury-strategies"
    (TreasuryStrategiesErrorCode.num TreasuryStrategiesErrorCode.TransactionFailed) (TreasuryStrategiesErrorCode.num TreasuryStrategiesErrorCode.SimulationFailed).

Module ConvictionVotingErrorCode.
Inductive t :=
  | AlreadyInitialized
  | NotInitialized
  | InvalidConfiguration
  | InvalidAmount
  | ProposalNotFound
  | ProposalClosed
  | InsufficientVotingPower
  | StakeNotFound
  | Unauthorized
  | ArithmeticOverflow
  | InvalidCalldata
  | SimulationFailed
  | TransactionFailed
  | TransactionTimeout.
#[export] Instance t_eq_dec : EqDecision t.
Proof. solve_decision. Defined.
Definition num (c : t) : Z :=
  match c with
  | AlreadyInitialized => 1
  | NotInitialized => 2
  | InvalidConfiguration => 3
  | InvalidAmount => 4
  | ProposalNotFound => 5
  | ProposalClosed => 6
  | InsufficientVotingPower => 7
  | StakeNotFound => 8
  | Unauthorized => 9
  | ArithmeticOverflow => 10
  | InvalidCalldata => 11
  | SimulationFailed => 100
  | TransactionFailed => 101
  | TransactionTimeout => 102
  end.
Definition message (c : t) : string :=
  match c with
  | AlreadyInitialized =>
    "Contract is already initialized"
  | NotInitialized =>
    "Contract has not been initialized yet"
  | InvalidConfiguration =>
    "Invalid configuration parameters"
  | InvalidAmount =>
    "Amount must be positive"
  | ProposalNotFound =>
    "Proposal not found"
  | ProposalClosed =>
    "Proposal is closed or already executed"
  | InsufficientVotingPower =>
    "Insufficient voting power for this action"
  | StakeNotFound =>
    "No stake found for this account"
  | Unauthorized =>
    "Caller is not authorized to perform this action"
  | ArithmeticOverflow =>
    "Arithmetic overflow in conviction calculation"
  | InvalidCalldata =>
    "Calldata is invalid or malformed"
  | SimulationFailed =>
    "Simulation failed"
  | TransactionFailed =>
    "Transaction failed"
  | TransactionTimeout =>
    "Transaction timed out"
  end.
Definition members : list t :=
  [AlreadyInitialized; NotInitialized; InvalidConfiguration; InvalidAmount; ProposalNotFound; ProposalClosed; InsufficientVotingPower; StakeNotFound; Unauthorized; ArithmeticOverflow; InvalidCalldata; SimulationFailed; TransactionFailed; TransactionTimeout].
Definition messages (n : Z) : option string := message <$> find_code members num n.
End ConvictionVotingErrorCode.

Definition parseConvictionVotingError : RawError → TypedError :=
  parse_error ConvictionVotingErrorCode.messages "Conviction-voting"
    (ConvictionVotingErrorCode.num ConvictionVotingErrorCode.TransactionFailed) (ConvictionVotingErrorCode.num ConvictionVotingErrorCode.SimulationFailed).

Module OptimisticGovernorErrorCode.
Inductive t :=
  | AlreadyInitialized
  | NotInitialized
  | InvalidConfiguration
  | InvalidCalldata
  | ProposalNotFound
  | NotInChallengeWindow
  | ChallengeWindowNotElapsed
  | ChallengeWindowElapsed
  | AlreadyObjected
  | NoVotingPower
  | ProposalObjected
  | ProposalNotPassed
  | ProposalAlreadyFinalized
  | Unauthorized
  | ArithmeticOverflow
  | ProposalNotCancellable
  | SimulationFailed
  | TransactionFailed
  | TransactionTimeout.
#[export] Instance t_eq_dec : EqDecision t.
Proof. solve_decision. Defined.
Definition num (c : t) : Z :=
  match c with
  | AlreadyInitialized => 1
  | NotInitialized => 2
  | InvalidConfiguration => 3
  | InvalidCalldata => 4
  | ProposalNotFound => 5
  | NotInChallengeWindow => 6
  | ChallengeWindowNotElapsed => 7
  | ChallengeWindowElapsed => 8
  | AlreadyObjected => 9
  | NoVotingPower => 10
  | ProposalObjected => 11
  | ProposalNotPassed => 12
  | ProposalAlreadyFinalized => 13
  | Unauthorized => 14
  | ArithmeticOverflow => 15
  | ProposalNotCancellable => 16
  | SimulationFailed => 100
  | TransactionFailed => 101
  | TransactionTimeout => 102
  end.
Definition message (c : t) : string :=
  match c with
  | AlreadyInitialized =>
    "Contract is already initialized"
  | NotInitialized =>
    "Contract has not been initialized yet"
  | InvalidConfiguration =>
    "Invalid configuration parameters"
  | InvalidCalldata =>
    "Calldata is invalid or malformed"
  | ProposalNotFound =>
    "Proposal not found"
  | NotInChallengeWindow =>
    "Proposal is not in the challenge window"
  | ChallengeWindowNotElapsed =>
    "Challenge window has not elapsed yet"
  | ChallengeWindowElapsed =>
    "Challenge window has already elapsed"
  | AlreadyObjected =>
    "Address has already objected to this proposal"
  | NoVotingPower =>
    "Account has zero voting power"
  | ProposalObjected =>
    "Proposal has been objected and is no longer passing"
  | ProposalNotPassed =>
    "Proposal has not passed the challenge window"
  | ProposalAlreadyFinalized =>
    "Proposal has already been finalized or objected"
  | Unauthorized =>
    "Caller is not authorized to perform this action"
  | ArithmeticOverflow =>
    "Arithmetic overflow in objection calculation"
  | ProposalNotCancellable =>
    "Proposal cannot be cancelled in its current state"
  | SimulationFailed =>
    "Simulation failed"
  | TransactionFailed =>
    "Transaction failed"
  | TransactionTimeout =>
    "Transaction timed out"
  end.
Definition members : list t :=
  [AlreadyInitialized; NotInitialized; InvalidConfiguration; InvalidCalldata; ProposalNotFound; NotInChallengeWindow; ChallengeWindowNotElapsed; ChallengeWindowElapsed; AlreadyObjected; NoVotingPower; ProposalObjected; ProposalNotPassed; ProposalAlreadyFinalized; Unauthorized; ArithmeticOverflow; ProposalNotCancellable; SimulationFailed; TransactionFailed; TransactionTimeout].
Definition messages (n : Z) : option string := message <$> find_code members num n.
End OptimisticGovernorErrorCode.

Definition parseOptimisticGovernorError : RawError → TypedError :=
  parse_error OptimisticGovernorErrorCode.messages "Optimistic-governor"
    (OptimisticGovernorErrorCode.num OptimisticGovernorErrorCode.TransactionFailed) (OptimisticGovernorErrorCode.num OptimisticGovernorErrorCode.SimulationFailed).

Module VotingRewardsErrorCode.
Inductive t :=
  | AlreadyInitialized
  | NotInitialized
  | NotAuthorized
  | InvalidEpochDuration
  | EpochNotFound
  | EpochNotEnded
  | EpochAlreadyFinalized
  | EpochNotFinalized
  | InsufficientPool
  | InvalidAmount
  | AlreadyClaimed
  | InvalidProof
  | EpochOverclaimed
  | SimulationFailed
  | TransactionFailed
  | TransactionTimeout
  | MissingReturnValue.
#[export] Instance t_eq_dec : EqDecision t.
Proof. solve_decision. Defined.
Definition num (c : t) : Z :=
  match c with
  | AlreadyInitialized => 1
  | NotInitialized => 2
  | NotAuthorized => 3
  | InvalidEpochDuration => 4
  | EpochNotFound => 5
  | EpochNotEnded => 6
  | EpochAlreadyFinalized => 7
  | EpochNotFinalized => 8
  | InsufficientPool => 9
  | InvalidAmount => 10
  | AlreadyClaimed => 11
  | InvalidProof => 12
  | EpochOverclaimed => 13
  | SimulationFailed => 100
  | TransactionFailed => 101
  | TransactionTimeout => 102
  | MissingReturnValue => 103
  end.
Definition message (c : t) : string :=
  match c with
  | AlreadyInitialized =>
    "Contract is already initialized"
  | NotInitialized =>
    "Contract has not been initialized yet"
  | NotAuthorized =>
    "Caller is not authorized to perform this action"
  | InvalidEpochDuration =>
    "Epoch duration must be greater than zero"
  | EpochNotFound =>
    "Epoch not found"
  | EpochNotEnded =>
    "The epoch's end ledger has not been reached yet"
  | EpochAlreadyFinalized =>
    "This epoch's Merkle root has already been published"
  | EpochNotFinalized =>
    "This epoch's Merkle root has not been published yet"
  | InsufficientPool =>
    "The rewards pool does not hold enough unallocated balance for this amount"
  | InvalidAmount =>
    "Amount must be greater than zero"
  | AlreadyClaimed =>
    "This address has already claimed for this epoch"
  | InvalidProof =>
    "The Merkle proof does not verify against this epoch's published root"
  | EpochOverclaimed =>
    "This claim would exceed the epoch's total allocated rewards"
  | SimulationFailed =>
    "Simulation failed"
  | TransactionFailed =>
    "Transaction failed"
  | TransactionTimeout =>
    "Transaction timed out"
  | MissingReturnValue =>
    "No return value from contract"
  end.
Definition members : list t :=
  [AlreadyInitialized; NotInitialized; NotAuthorized; InvalidEpochDuration; EpochNotFound; EpochNotEnded; EpochAlreadyFinalized; EpochNotFinalized; InsufficientPool; InvalidAmount; AlreadyClaimed; InvalidProof; EpochOverclaimed; SimulationFailed; TransactionFailed; TransactionTimeout; MissingReturnValue].
Definition messages (n : Z) : option string := message <$> find_code members num n.
End VotingRewardsErrorCode.

Definition parseVotingRewardsError : RawError → TypedError :=
  parse_error VotingRewardsErrorCode.messages "Voting-rewards"
    (VotingRewardsErrorCode.num VotingRewardsErrorCode.TransactionFailed) (VotingRewardsErrorCode.num VotingRewardsErrorCode.SimulationFailed).

(** ** The mock's error text

    [MockContractError.toSorobanErrorString] of
    [tools/simulation/src/mock/errors.ts]. *)
Definition toSorobanErrorString (code : Z) : string :=
  "Error(Contract, #" +:+ decimal code +:+ ")".

(** ** Reading back a printed number *)
Lemma match_digits_pretty (n : N) c r :
  digit_value c = None →
  match_digits (pretty n +:+ String c r) = Some (to_number (Z.of_N n), String c r).
Proof.
  intros Hc. pose proof (read_digits_pretty n (String c r)) as Hread.
  cbn [read_digits] in Hread. rewrite Hc in Hread. unfold match_digits. revert Hread.
  destruct (pretty n +:+ String c r) as [|h t] eqn:Hp; intros Hread; [done|].
  destruct (digit_value h) as [v|] eqn:Hh; [by rewrite Hread|]. exfalso.
  cbn [read_digits] in Hread. rewrite Hh in Hread. injection Hread as <- <-. cbn in Hp. by injection Hp as <- _.
Qed.

Lemma pretty_Z_nonneg n : 0 ≤ n → pretty n = pretty (Z.to_N n).
Proof. by destruct n. Qed.

(** The text of a mock error matches at its first character. *)
Lemma hash_pattern_mock n :
  0 ≤ n ≤ 2 ^ 53 → hash_pattern (toSorobanErrorString n) = Some n.
Proof.
  intros Hn. unfold hash_pattern, toSorobanErrorString.
  rewrite decimal_pretty, pretty_Z_nonneg by lia.
  change (match_digits (pretty (Z.to_N n) +:+ ")") ≫=
          (λ '(m, s), _ ← strip_prefix ")" s; Some m) = Some n).
  rewrite match_digits_pretty by done. cbn.
  rewrite Z2N.id by lia. by rewrite to_number_exact by lia.
Qed.

Lemma extract_mock_code n :
  0 ≤ n ≤ 2 ^ 53 →
  extractContractErrorCode (RawString (toSorobanErrorString n)) = Some n.
Proof.
  intros Hn. unfold extractContractErrorCode. cbn [errorText].
  rewrite bool_decide_eq_false_2 by done.
  assert (find_match hash_pattern (toSorobanErrorString n) = Some n) as ->; [|done].
  pose proof (hash_pattern_mock n Hn) as H. unfold find_match.
  destruct (toSorobanErrorString n); by rewrite H.
Qed.

(** ** What every family promises

    A family is an enumeration with numbers and messages, and a parser; the
    laws tie the parser to the table. *)
Class ErrorFamily (T : Type) := {
  family_num : T → Z;
  family_message : T → string;
  family_parse : RawError → TypedError;
}.
Class ErrorFamilyLaws (T : Type) `{ErrorFamily T} := {
  family_num_range (c : T) : 0 ≤ family_num c ≤ 2 ^ 53;
  family_num_inj (c d : T) : family_num c = family_num d → c = d;
  family_parse_code (c : T) (raw : RawError) :
    extractContractErrorCode raw = Some (family_num c) →
    family_parse raw = mkTypedError (family_num c) (family_message c);
}.

Lemma find_code_inj {T} (members : list T) (num : T → Z) (c d : T) :
  find_code members num (num c) = Some c → find_code members num (num d) = Some d →
  num c = num d → c = d.
Proof. intros Hc Hd H. rewrite H, Hd in Hc. congruence. Qed.

Lemma parse_error_code messages label tf sf raw n msg :
  extractContractErrorCode raw = Some n → messages n = Some msg →
  parse_error messages label tf sf raw = mkTypedError n msg.
Proof. intros H Hm. unfold parse_error. by rewrite H, Hm. Qed.


Lemma Governor_found (c : GovernorErrorCode.t) : find_code GovernorErrorCode.members GovernorErrorCode.num (GovernorErrorCode.num c) = Some c.
Proof. by destruct c. Qed.
#[export] Instance Governor_family : ErrorFamily GovernorErrorCode.t :=
  {| family_num := GovernorErrorCode.num; family_message := GovernorErrorCode.message;
     family_parse := parseGovernorError |}.
#[export] Instance Governor_laws : ErrorFamilyLaws GovernorErrorCode.t.
Proof.
  split.
  - intros c. by destruct c.
  - intros c d. apply (find_code_inj _ _ _ _ (Governor_found c) (Governor_found d)).
  - intros c raw Hraw. cbn in *. unfold parseGovernorError.
    apply parse_error_code; [done|].
    unfold GovernorErrorCode.messages. by rewrite Governor_found.
Qed.

Lemma Timelock_found (c : TimelockErrorCode.t) : find_code TimelockErrorCode.members TimelockErrorCode.num (TimelockErrorCode.num c) = Some c.
Proof. by destruct c. Qed.
#[export] Instance Timelock_family : ErrorFamily TimelockErrorCode.t :=
  {| family_num := TimelockErrorCode.num; family_message := TimelockErrorCode.message;
     family_parse := parseTimelockError |}.
#[export] Instance Timelock_laws : ErrorFamilyLaws TimelockErrorCode.t.
Proof.
  split.
  - intros c. by destruct c.
  - intros c d. apply (find_code_inj _ _ _ _ (Timelock_found c) (Timelock_found d)).
  - intros c raw Hraw. cbn in *. unfold parseTimelockError.
    apply parse_error_code; [done|].
    unfold TimelockErrorCode.messages. by rewrite Timelock_found.
Qed.

Lemma Votes_found (c : VotesErrorCode.t) : find_code VotesErrorCode.members VotesErrorCode.num (VotesErrorCode.num c) = Some c.
Proof. by destruct c. Qed.
#[export] Instance Votes_family : ErrorFamily VotesErrorCode.t :=
  {| family_num := VotesErrorCode.num; family_message := VotesErrorCode.message;
     family_parse := parseVotesError |}.
#[export] Instance Votes_laws : ErrorFamilyLaws VotesErrorCode.t.
Proof.
  split.
  - intros c. by destruct c.
  - intros c d. apply (find_code_inj _ _ _ _ (Votes_found c) (Votes_found d)).
  - intros c raw Hraw. cbn in *. unfold parseVotesError.
    apply parse_error_code; [done|].
    unfold VotesErrorCode.messages. by rewrite Votes_found.
Qed.

Lemma VoteEscrow_found (c : VoteEscrowErrorCode.t) : find_code VoteEscrowErrorCode.members VoteEscrowErrorCode.num (VoteEscrowErrorCode.num c) = Some c.
Proof. by destruct c. Qed.
#[export] Instance VoteEscrow_family : ErrorFamily VoteEscrowErrorCode.t :=
  {| family_num := VoteEscrowErrorCode.num; family_message := VoteEscrowErrorCode.message;
     family_parse := parseVoteEscrowError |}.
#[export] Instance VoteEscrow_laws : ErrorFamilyLaws VoteEscrowErrorCode.t.
Proof.
  split.
  - intros c. by destruct c.
  - intros c d. apply (find_code_inj _ _ _ _ (VoteEscrow_found c) (VoteEscrow_found d)).
  - intros c raw Hraw. cbn in *. unfold parseVoteEscrowError.
    apply parse_error_code; [done|].
    unfold VoteEscrowErrorCode.messages. by rewrite VoteEscrow_found.
Qed.

Lemma Treasury_found (c : TreasuryErrorCode.t) : find_code TreasuryErrorCode.members TreasuryErrorCode.num (TreasuryErrorCode.num c) = Some c.
Proof. by destruct c. Qed.
#[export] Instance Treasury_family : ErrorFamily TreasuryErrorCode.t :=
  {| family_num := TreasuryErrorCode.num; family_message := TreasuryErrorCode.message;
     family_parse := parseTreasuryError |}.
#[export] Instance Treasury_laws : ErrorFamilyLaws TreasuryErrorCode.t.
Proof.
  split.
  - intros c. by destruct c.
  - intros c d. apply (find_code_inj _ _ _ _ (Treasury_found c) (Treasury_found d)).
  - intros c raw Hraw. cbn in *. unfold parseTreasuryError.
    apply parse_error_code; [done|].
    unfold TreasuryErrorCode.messages. by rewrite Treasury_found.
Qed.

Lemma CoSponsorship_found (c : CoSponsorshipErrorCode.t) : find_code CoSponsorshipErrorCode.members CoSponsorshipErrorCode.num (CoSponsorshipErrorCode.num c) = Some c.
Proof. by destruct c. Qed.
#[export] Instance CoSponsorship_family : ErrorFamily CoSponsorshipErrorCode.t :=
  {| family_num := CoSponsorshipErrorCode.num; family_message := CoSponsorshipErrorCode.message;
     family_parse := (λ raw, parseCoSponsorshipError raw None) |}.
#[export] Instance CoSponsorship_laws : ErrorFamilyLaws CoSponsorshipErrorCode.t.
Proof.
  split.
  - intros c. by destruct c.
  - intros c d. apply (find_code_inj _ _ _ _ (CoSponsorship_found c) (CoSponsorship_found d)).
  - intros c raw Hraw. cbn in *. unfold parseCoSponsorshipError. rewrite Hraw. cbn.
    apply parse_error_code; [done|].
    unfold CoSponsorshipErrorCode.messages. by rewrite CoSponsorship_found.
Qed.

Lemma Signaling_found (c : SignalingErrorCode.t) : find_code SignalingErrorCode.members SignalingErrorCode.num (SignalingErrorCode.num c) = Some c.
Proof. by destruct c. Qed.
#[export] Instance Signaling_family : ErrorFamily SignalingErrorCode.t :=
  {| family_num := SignalingErrorCode.num; family_message := SignalingErrorCode.message;
     family_parse := parseSignalingError |}.
#[export] Instance Signaling_laws : ErrorFamilyLaws SignalingErrorCode.t.
Proof.
  split.
  - intros c. by destruct c.
  - intros c d. apply (find_code_inj _ _ _ _ (Signaling_found c) (Signaling_found d)).
  - intros c raw Hraw. cbn in *. unfold parseSignalingError.
    apply parse_error_code; [done|].
    unfold SignalingErrorCode.messages. by rewrite Signaling_found.
Qed.

Lemma ProposalBonds_found (c : ProposalBondsErrorCode.t) : find_code ProposalBondsErrorCode.members ProposalBondsErrorCode.num (ProposalBondsErrorCode.num c) = Some c.
Proof. by destruct c. Qed.
#[export] Instance ProposalBonds_family : ErrorFamily ProposalBondsErrorCode.t :=
  {| family_num := ProposalBondsErrorCode.num; family_message := ProposalBondsErrorCode.message;
     family_parse := parseProposalBondsError |}.
#[export] Instance ProposalBonds_laws : ErrorFamilyLaws ProposalBondsErrorCode.t.
Proof.
  split.
  - intros c. by destruct c.
  - intros c d. apply (find_code_inj _ _ _ _ (ProposalBonds_found c) (ProposalBonds_found d)).
  - intros c raw Hraw. cbn in *. unfold parseProposalBondsError.
    apply parse_error_code; [done|].
    unfold ProposalBondsErrorCode.messages. by rewrite ProposalBonds_found.
Qed.

Lemma TreasuryStrategies_found (c : TreasuryStrategiesErrorCode.t) : find_code TreasuryStrategiesErrorCode.members TreasuryStrategiesErrorCode.num (TreasuryStrategiesErrorCode.num c) = Some c.
Proof. by destruct c. Qed.
#[export] Instance TreasuryStrategies_family : ErrorFamily TreasuryStrategiesErrorCode.t :=
  {| family_num := TreasuryStrategiesErrorCode.num; family_message := TreasuryStrategiesErrorCode.message;
     family_parse := parseTreasuryStrategiesError |}.
#[export] Instance TreasuryStrategies_laws : ErrorFamilyLaws TreasuryStrategiesErrorCode.t.
Proof.
  split.
  - intros c. by destruct c.
  - intros c d. apply (find_code_inj _ _ _ _ (TreasuryStrategies_found c) (TreasuryStrategies_found d)).
  - intros c raw Hraw. cbn in *. unfold parseTreasuryStrategiesError.
    apply parse_error_code; [done|].
    unfold TreasuryStrategiesErrorCode.messages. by rewrite TreasuryStrategies_found.
Qed.

Lemma ConvictionVoting_found (c : ConvictionVotingErrorCode.t) : find_code ConvictionVotingErrorCode.members ConvictionVotingErrorCode.num (ConvictionVotingErrorCode.num c) = Some c.
Proof. by destruct c. Qed.
#[export] Instance ConvictionVoting_family : ErrorFamily ConvictionVotingErrorCode.t :=
  {| family_num := ConvictionVotingErrorCode.num; family_message := ConvictionVotingErrorCode.message;
     family_parse := parseConvictionVotingError |}.
#[export] Instance ConvictionVoting_laws : ErrorFamilyLaws ConvictionVotingErrorCode.t.
Proof.
  split.
  - intros c. by destruct c.
  - intros c d. apply (find_code_inj _ _ _ _ (ConvictionVoting_found c) (ConvictionVoting_found d)).
  - intros c raw Hraw. cbn in *. unfold parseConvictionVotingError.
    apply parse_error_code; [done|].
    unfold ConvictionVotingErrorCode.messages. by rewrite ConvictionVoting_found.
Qed.

Lemma OptimisticGovernor_found (c : OptimisticGovernorErrorCode.t) : find_code OptimisticGovernorErrorCode.members OptimisticGovernorErrorCode.num (OptimisticGovernorErrorCode.num c) = Some c.
Proof. by destruct c. Qed.
#[export] Instance OptimisticGovernor_family : ErrorFamily OptimisticGovernorErrorCode.t :=
  {| family_num := OptimisticGovernorErrorCode.num; family_message := OptimisticGovernorErrorCode.message;
     family_parse := parseOptimisticGovernorError |}.
#[export] Instance OptimisticGovernor_laws : ErrorFamilyLaws OptimisticGovernorErrorCode.t.
Proof.
  split.
  - intros c. by destruct c.
  - intros c d. apply (find_code_inj _ _ _ _ (OptimisticGovernor_found c) (OptimisticGovernor_found d)).
  - intros c raw Hraw. cbn in *. unfold parseOptimisticGovernorError.
    apply parse_error_code; [done|].
    unfold OptimisticGovernorErrorCode.messages. by rewrite OptimisticGovernor_found.
Qed.

Lemma VotingRewards_found (c : VotingRewardsErrorCode.t) : find_code VotingRewardsErrorCode.members VotingRewardsErrorCode.num (VotingRewardsErrorCode.num c) = Some c.
Proof. by destruct c. Qed.
#[export] Instance VotingRewards_family : ErrorFamily VotingRewardsErrorCode.t :=
  {| family_num := VotingRewardsErrorCode.num; family_message := VotingRewardsErrorCode.message;
     family_parse := parseVotingRewardsError |}.
#[export] Instance VotingRewards_laws : ErrorFamilyLaws VotingRewardsErrorCode.t.
Proof.
  split.
  - intros c. by destruct c.
  - intros c d. apply (find_code_inj _ _ _ _ (VotingRewards_found c) (VotingRewards_found d)).
  - intros c raw Hraw. cbn in *. unfold parseVotingRewardsError.
    apply parse_error_code; [done|].
    unfold VotingRewardsErrorCode.messages. by rewrite VotingRewards_found.
Qed.

(** ** Properties *)

(** The twelve families as the clients use them: the name in the fallback message,
    the parser with the name of the operation (which one of them reads), and
    the numbers with their messages. *)
Record Family := mkFamily {
  fm_label : string; fm_parse : RawError → option string → TypedError; fm_errors : list (Z * string) }.
Definition family {T} (label : string) (parse : RawError → option string → TypedError) (members : list T) (num : T → Z)
    (message : T → string) : Family := mkFamily label parse ((λ c, (num c, message c)) <$> members).
Definition plain (parse : RawError → TypedError) (raw : RawError) (operation : option string) : TypedError := parse raw.
Definition families : list Family :=
  [ family "Governor" (plain parseGovernorError)
      GovernorErrorCode.members GovernorErrorCode.num GovernorErrorCode.message;
    family "Timelock" (plain parseTimelockError)
      TimelockErrorCode.members TimelockErrorCode.num TimelockErrorCode.message;
    family "Votes" (plain parseVotesError)
      VotesErrorCode.members VotesErrorCode.num VotesErrorCode.message;
    family "Vote escrow" (plain parseVoteEscrowError)
      VoteEscrowErrorCode.members VoteEscrowErrorCode.num VoteEscrowErrorCode.message;
    family "Treasury" (plain parseTreasuryError)
      TreasuryErrorCode.members TreasuryErrorCode.num TreasuryErrorCode.message;
    family "Co-sponsorship" parseCoSponsorshipError
      CoSponsorshipErrorCode.members CoSponsorshipErrorCode.num CoSponsorshipErrorCode.message;
    family "Signal-anchor" (plain parseSignalingError)
      SignalingErrorCode.members SignalingErrorCode.num SignalingErrorCode.message;
    family "Proposal-bonds" (plain parseProposalBondsError)
      ProposalBondsErrorCode.members ProposalBondsErrorCode.num ProposalBondsErrorCode.message;
    family "Treasury-strategies" (plain parseTreasuryStrategiesError)
      TreasuryStrategiesErrorCode.members TreasuryStrategiesErrorCode.num TreasuryStrategiesErrorCode.message;
    family "Conviction-voting" (plain parseConvictionVotingError)
      ConvictionVotingErrorCode.members ConvictionVotingErrorCode.num ConvictionVotingErrorCode.message;
    family "Optimistic-governor" (plain parseOptimisticGovernorError)
      OptimisticGovernorErrorCode.members OptimisticGovernorErrorCode.num OptimisticGovernorErrorCode.message;
    family "Voting-rewards" (plain parseVotingRewardsError)
      VotingRewardsErrorCode.members VotingRewardsErrorCode.num VotingRewardsErrorCode.message ].

(** The message of a number. *)
Fixpoint message_of (errors : list (Z * string)) (n : Z) : option string :=
  match errors with (m, msg) :: rest => if m =? n then Some msg else message_of rest n | [] => None end.
Lemma message_of_table {T} (members : list T) (num : T → Z) (message : T → string) n :
  message_of ((λ c, (num c, message c)) <$> members) n = message <$> find_code members num n.
Proof.
  unfold find_code. induction members as [|c members IH]; [done|]. cbn. destruct (Z.eqb_spec (num c) n).
  - by rewrite decide_True.
  - rewrite decide_False by done. etransitivity; [exact IH|]. by destruct (list_find _ members) as [[i d]|].
Qed.

(** [finalize_draft] can bring up two errors of the governor. *)
Definition of_governor (f : Family) (operation : option string) (n : Z) : bool :=
  bool_decide (fm_label f = "Co-sponsorship" ∧ operation = Some "finalize_draft" ∧ (n = 6 ∨ n = 7)).
Definition read_back (f : Family) (operation : option string) (n : Z) : TypedError :=
  if of_governor f operation n then
    mkTypedError (CoSponsorshipErrorCode.num CoSponsorshipErrorCode.TransactionFailed)
      ("Governor rejected the underlying proposal: " +:+
       if n =? 6 then GovernorErrorCode.message GovernorErrorCode.ProposalRateLimited
       else GovernorErrorCode.message GovernorErrorCode.ContractPaused)
  else mkTypedError n (default (fm_label f +:+ " contract error #" +:+ decimal n) (message_of (fm_errors f) n)).

Lemma plain_reads {T} label tf sf (members : list T) num message raw operation n :
  label ≠ "Co-sponsorship" → extractContractErrorCode raw = Some n →
  let f := family label (plain (parse_error (λ n, message <$> find_code members num n) label tf sf)) members num message in
  fm_parse f raw operation = read_back f operation n.
Proof.
  intros Hlabel Hn f. unfold read_back, of_governor. rewrite bool_decide_eq_false_2 by tauto.
  subst f. unfold family, plain, parse_error. cbn [fm_parse fm_label fm_errors]. by rewrite Hn, message_of_table.
Qed.
Lemma cosponsorship_reads raw operation n :
  extractContractErrorCode raw = Some n →
  let f := family "Co-sponsorship" parseCoSponsorshipError CoSponsorshipErrorCode.members CoSponsorshipErrorCode.num
    CoSponsorshipErrorCode.message in
  fm_parse f raw operation = read_back f operation n.
Proof.
  intros Hn f. unfold read_back, of_governor. subst f. unfold family. cbn [fm_parse fm_label fm_errors].
  unfold parseCoSponsorshipError, parse_error. rewrite Hn, message_of_table.
  change (GovernorErrorCode.num GovernorErrorCode.ProposalRateLimited) with 6.
  change (GovernorErrorCode.num GovernorErrorCode.ContractPaused) with 7.
  case_bool_decide as Hop; cbn [andb]; [|by rewrite bool_decide_eq_false_2 by tauto].
  destruct (Z.eqb_spec n 6) as [->|H6]; [by rewrite bool_decide_eq_true_2 by auto|].
  destruct (Z.eqb_spec n 7) as [->|H7]; [by rewrite bool_decide_eq_true_2 by auto|].
  cbn [orb]. by rewrite bool_decide_eq_false_2 by lia.
Qed.
Lemma families_distinct : Forall (λ f, Forall (λ e, message_of (fm_errors f) e.1 = Some e.2) (fm_errors f)) families.
Proof. unfold families. repeat (apply Forall_cons; split); try apply Forall_nil; vm_compute; repeat constructor. Qed.

(** C15: what the mock throws, the SDK reads back.  For each of the twelve
    families, every operation and every number, the text [Error(Contract, #n)] is
    parsed, whether it arrives as a bare string or in the [error] field of an
    RPC response, to the typed error with that number and the message of the
    family's member with that number (the members' numbers are distinct; a number
    of none gets the family's fallback message).  The one exception is named by
    [read_back]: numbers 6 and 7 of [finalize_draft] are the governor's, and
    become the co-sponsorship family's "transaction failed" with the governor's
    message. *)
Theorem sdk_recovers_mock_error f operation n raw :
  f ∈ families → 0 ≤ n ≤ 2 ^ 53 → errorText raw = toSorobanErrorString n →
  fm_parse f raw operation = read_back f operation n ∧
  ∀ message, (n, message) ∈ fm_errors f → message_of (fm_errors f) n = Some message.
Proof.
  intros Hf Hn Hraw.
  assert (extractContractErrorCode raw = Some n) as Hcode.
  { rewrite <- (extract_mock_code n) by done. unfold extractContractErrorCode. by rewrite Hraw. }
  split.
  - unfold families in Hf. repeat (apply elem_of_cons in Hf as [->|Hf]); [..|by apply elem_of_nil in Hf];
      first [by apply cosponsorship_reads|by apply plain_reads].
  - pose proof families_distinct as Hd. rewrite Forall_forall in Hd. specialize (Hd f Hf). rewrite Forall_forall in Hd.
    intros message Hin. by apply (Hd (n, message)).
Qed.

Lemma sdk_recovers_mock_error_witness :
  parseGovernorError (RawObject (Some "ERROR") (Some "Error(Contract, #12)")) =
    mkTypedError 12 "Voter has already voted on this proposal" ∧
  parseCoSponsorshipError (RawString "Error(Contract, #7)") (Some "finalize_draft") =
    mkTypedError 101 "Governor rejected the underlying proposal: Contract is paused".
Proof.
  split.
  - apply (sdk_recovers_mock_error (family "Governor" (plain parseGovernorError) GovernorErrorCode.members GovernorErrorCode.num
      GovernorErrorCode.message) None 12 (RawObject (Some "ERROR") (Some "Error(Contract, #12)"))); [by left|lia|done].
  - apply (sdk_recovers_mock_error (family "Co-sponsorship" parseCoSponsorshipError CoSponsorshipErrorCode.members
      CoSponsorshipErrorCode.num CoSponsorshipErrorCode.message) (Some "finalize_draft") 7 (RawString "Error(Contract, #7)"));
      [do 5 right; by left|lia|done].
Defined.
