(* ===== verification/JsValues.v ===== *)
(** * Dynamic JavaScript values

    The indexer and the backend work on values whose shape is only known at
    run time: [scValToNative] turns a contract value into plain JavaScript
    data, and the handlers index, cast and print it.  This file has those
    values, the conversions [String], [Number], [BigInt] and [Boolean],
    property access, [JSON.stringify] and the class [Runtime] of the pieces
    that come from outside: the hash, the date parser and the driver's
    rendering of composite values. *)

From S2P Require Import Prelude.

(** A value the handlers can meet.  [VNum] is a number with an integral value
    and [VNaN] is the number [NaN]; the contracts have no fractions.  A byte
    string arrives as a [Buffer], a contract map as a plain object; [VMap] is
    the JavaScript class [Map]. *)
Inductive JsValue :=
  | VUndefined
  | VNull
  | VBool (b : bool)
  | VNum (n : Z)
  | VNaN
  | VBig (n : Z)
  | VStr (s : string)
  | VBytes (bs : bytes)
  | VArr (l : list JsValue)
  | VObj (fields : list (string * JsValue))
  | VMap (entries : list (string * JsValue)).

(** ** Conversions *)

(** [v === undefined || v === null] *)
Definition nullish (v : JsValue) : bool :=
  match v with VUndefined | VNull => true | _ => false end.
(** [v === undefined] *)
Definition is_undefined (v : JsValue) : bool := match v with VUndefined => true | _ => false end.
(** [v ?? w] *)
Definition coalesce (v w : JsValue) : JsValue := if nullish v then w else v.
Notation "v ?? w" := (coalesce v w) (at level 40, left associativity).

(** [Boolean(v)], also the test of [if (v)] and [v || w] *)
Definition truthy (v : JsValue) : bool :=
  match v with
  | VUndefined | VNull | VNaN => false
  | VBool b => b
  | VNum n | VBig n => negb (n =? 0)
  | VStr s => negb (String.eqb s "")
  | VBytes _ | VArr _ | VObj _ | VMap _ => true
  end.

(** [buffer.toString()].  Texts are kept in UTF-8: a byte sequence that encodes a
    character stands for it, and the longest beginnings of one, and bytes that begin
    none, are replaced by U+FFFD.  [Utf8State] is a character that is not complete:
    its bytes, how many follow, and the bounds of the next one. *)
Record Utf8State := mkUtf8 { u_seen : bytes; u_needed : nat; u_lower : N; u_upper : N }.
Definition utf8_replacement : bytes := [xef; xbf; xbd].
Definition utf8_first (b : byte) : bytes * option Utf8State :=
  let n := Byte.to_N b in
  let opens needed lower upper := ([], Some (mkUtf8 [b] needed lower upper)) in
  (if n <? 128 then ([b], None)
   else if n <? 194 then (utf8_replacement, None)
   else if n <? 224 then opens 1%nat 128 191
   else if n =? 224 then opens 2%nat 160 191
   else if n =? 237 then opens 2%nat 128 159
   else if n <? 240 then opens 2%nat 128 191
   else if n =? 240 then opens 3%nat 144 191
   else if n <? 244 then opens 3%nat 128 191
   else if n =? 244 then opens 3%nat 128 143
   else (utf8_replacement, None))%N.
Definition utf8_next (b : byte) (state : option Utf8State) : bytes * option Utf8State :=
  match state with
  | None => utf8_first b
  | Some c =>
    let n := Byte.to_N b in
    if ((u_lower c <=? n) && (n <=? u_upper c))%N then
      match u_needed c with
      | Datatypes.S (Datatypes.S k) => ([], Some (mkUtf8 (u_seen c ++ [b]) (Datatypes.S k) 128 191))
      | _ => (u_seen c ++ [b], None)
      end
    else let '(out, state) := utf8_first b in (utf8_replacement ++ out, state)
  end.
Fixpoint utf8_text (state : option Utf8State) (bs : bytes) : bytes :=
  match bs with
  | [] => match state with None => [] | Some _ => utf8_replacement end
  | b :: bs => let '(out, state) := utf8_next b state in out ++ utf8_text state bs
  end.
Definition buffer_text (bs : bytes) : string := String.string_of_list_byte (utf8_text None bs).

(** [String(v)] *)
Fixpoint js_String (v : JsValue) : string :=
  match v with
  | VUndefined => "undefined"
  | VNull => "null"
  | VBool b => if b then "true" else "false"
  | VNum n | VBig n => decimal n
  | VNaN => "NaN"
  | VStr s => s
  | VBytes bs => buffer_text bs
  | VArr l => String.concat "," (List.map (λ x, if nullish x then "" else js_String x) l)
  | VObj _ => "[object Object]"
  | VMap _ => "[object Map]"
  end.

(** [a > b] on texts, which compares them character by character. *)
Definition text_gt (a b : string) : bool := match String.compare a b with Gt => true | _ => false end.

(** The white space of one byte that [Number] and [BigInt] trim. *)
Definition is_blank (c : Ascii.ascii) : bool :=
  let n := Ascii.N_of_ascii c in ((9 <=? n) && (n <=? 13) || (n =? 32))%N.
Fixpoint trim_left (s : string) : string :=
  match s with
  | String c s' => if is_blank c then trim_left s' else s
  | EmptyString => EmptyString
  end.
Fixpoint trim_right (s : string) : string :=
  match s with
  | String c s' =>
    match trim_right s' with
    | EmptyString => if is_blank c then EmptyString else String c EmptyString
    | r => String c r
    end
  | EmptyString => EmptyString
  end.
Definition trim (s : string) : string := trim_right (trim_left s).

(** The integer a text spells; the empty text is zero.  Fractions, exponents
    and other radices are read as no integer. *)
Definition text_integer (s : string) : option Z :=
  let t := trim s in if String.eqb t "" then Some 0 else of_decimal t.

Definition number_or_nan (o : option Z) : JsValue :=
  match o with Some n => VNum (to_number n) | None => VNaN end.

(** [Number(v)] *)
Definition js_Number (v : JsValue) : JsValue :=
  match v with
  | VUndefined | VNaN => VNaN
  | VNull => VNum 0
  | VBool b => VNum (if b then 1 else 0)
  | VNum n => VNum n
  | VBig n => VNum (to_number n)
  | VStr s => number_or_nan (text_integer s)
  | VBytes _ | VArr _ | VObj _ | VMap _ => number_or_nan (text_integer (js_String v))
  end.

Definition TypeError (text : string) : JsError := PlainError ("TypeError: " +:+ text).

(** [BigInt(v)] *)
Definition js_BigInt {S} (v : JsValue) : M S Z :=
  match v with
  | VUndefined | VNull => throw (TypeError "Cannot convert to a BigInt")
  | VBool b => mret (if b then 1 else 0)
  | VNum n | VBig n => mret n
  | VNaN => throw (PlainError "RangeError: NaN cannot be converted to a BigInt")
  | VStr s => unwrap (text_integer s) (PlainError "SyntaxError: Cannot convert to a BigInt")
  | VBytes _ | VArr _ | VObj _ | VMap _ =>
    unwrap (text_integer (js_String v)) (PlainError "SyntaxError: Cannot convert to a BigInt")
  end.

(** ** Access *)

Definition field (k : string) (fields : list (string * JsValue)) : JsValue :=
  default VUndefined (jm_get k fields).

(** [v.k] *)
Definition prop {S} (v : JsValue) (k : string) : M S JsValue :=
  match v with
  | VUndefined | VNull => throw (TypeError "Cannot read properties of undefined")
  | VObj fields => mret (field k fields)
  | _ => mret VUndefined
  end.

Definition nth_value (l : list JsValue) (i : nat) : JsValue := default VUndefined (l !! i).

(** [v[i]] *)
Definition item {S} (v : JsValue) (i : nat) : M S JsValue :=
  match v with
  | VUndefined | VNull => throw (TypeError "Cannot read properties of undefined")
  | VArr l => mret (nth_value l i)
  | VStr s => mret (match String.get i s with Some c => VStr (String c "") | None => VUndefined end)
  | VBytes bs => mret (match bs !! i with Some b => VNum (Z.of_N (Byte.to_N b)) | None => VUndefined end)
  | _ => mret VUndefined
  end.

(** [const [a, b, ...] = v] takes the items in order; what is not iterable throws. *)
Definition iterate {S} (v : JsValue) : M S (list JsValue) :=
  match v with
  | VArr l => mret l
  | VStr s => mret ((λ c, VStr (String c "")) <$> String.list_ascii_of_string s)
  | VBytes bs => mret ((λ b, VNum (Z.of_N (Byte.to_N b))) <$> bs)
  | VMap es => mret ((λ '(k, x), VArr [VStr k; x]) <$> es)
  | _ => throw (TypeError "value is not iterable")
  end.

(** [Array.isArray(v)] *)
Definition is_array (v : JsValue) : bool := match v with VArr _ => true | _ => false end.
(** [Array.isArray(raw) ? raw : [raw]] *)
Definition as_array (v : JsValue) : list JsValue := match v with VArr l => l | _ => [v] end.

(** [Buffer.from(v).toString("hex")]: from a text, an array of numbers or bytes. *)
Definition byte_of_value (v : JsValue) : byte :=
  match js_Number v with
  | VNum n => default x00 (Byte.of_N (Z.to_N (n mod 256)))
  | _ => x00
  end.
Definition buffer_hex {S} (v : JsValue) : M S string :=
  match v with
  | VBytes bs => mret (to_hex bs)
  | VStr s => mret (to_hex (utf8 s))
  | VArr l => mret (to_hex (byte_of_value <$> l))
  | _ => throw (TypeError "The first argument must be a buffer, an array or a string")
  end.

(** ** JSON *)
Definition json_escape (c : Ascii.ascii) : string :=
  let n := Ascii.N_of_ascii c in
  let backslash := Ascii.ascii_of_N 92 in
  if (n =? 34)%N || (n =? 92)%N then String backslash (String c "")
  else if (n =? 8)%N then String backslash "b"
  else if (n =? 9)%N then String backslash "t"
  else if (n =? 10)%N then String backslash "n"
  else if (n =? 12)%N then String backslash "f"
  else if (n =? 13)%N then String backslash "r"
  else if (n <? 32)%N then
    String backslash ("u00" +:+ String (hex_digit (n / 16)%N) (String (hex_digit (n mod 16)%N) ""))
  else String c "".
Fixpoint json_chars (s : string) : string :=
  match s with String c s' => json_escape c +:+ json_chars s' | EmptyString => "" end.
Definition quote : string := String (Ascii.ascii_of_N 34) "".
Definition json_string (s : string) : string := quote +:+ json_chars s +:+ quote.

(** [JSON.stringify(v, replacer)] where the replacer prints a bigint; no text
    for [undefined], which an object drops and an array prints as null. *)
Fixpoint json_text (v : JsValue) : option string :=
  match v with
  | VUndefined => None
  | VNull | VNaN => Some "null"
  | VBool b => Some (if b then "true" else "false")
  | VNum n => Some (decimal n)
  | VBig n => Some (json_string (decimal n))
  | VStr s => Some (json_string s)
  | VBytes bs =>
    Some ("{" +:+ json_string "type" +:+ ":" +:+ json_string "Buffer" +:+ "," +:+
          json_string "data" +:+ ":[" +:+
          String.concat "," (List.map (λ b, decimal (Z.of_N (Byte.to_N b))) bs) +:+ "]}")
  | VArr l => Some ("[" +:+ String.concat "," (List.map (λ x, default "null" (json_text x)) l) +:+ "]")
  | VObj fields =>
    Some ("{" +:+ String.concat "," (List.flat_map (λ '(k, x),
      match json_text x with Some t => [json_string k +:+ ":" +:+ t] | None => [] end) fields) +:+ "}")
  | VMap _ => Some "{}"
  end.
Definition stringifyJson (v : JsValue) : string := default "undefined" (json_text v).

(** ** Outside the source

    [sha256_hex] is [crypto]'s digest, [parse_date] the milliseconds of a
    [Date] made from a text, [pg_composite] the text node-postgres sends for
    an array, an object, a map or a buffer. *)
Class Runtime := {
  sha256_hex : string → string;
  parse_date : string → option Z;
  pg_composite : JsValue → string;
}.

(** The parameter node-postgres sends for a value: [None] is NULL. *)
Definition pg_text `{Runtime} (v : JsValue) : option string :=
  match v with
  | VUndefined | VNull => None
  | VBool b => Some (if b then "true" else "false")
  | VNum n | VBig n => Some (decimal n)
  | VNaN => Some "NaN"
  | VStr s => Some s
  | VBytes _ | VArr _ | VObj _ | VMap _ => Some (pg_composite v)
  end.

(** ** Lemmas *)

(** *** Texts of buffers *)
Lemma buffer_text_ascii bs : Forall (λ b, (Byte.to_N b < 128)%N) bs → buffer_text bs = String.string_of_list_byte bs.
Proof.
  intros Hbs. unfold buffer_text. f_equal. induction Hbs as [|b bs Hb _ IH]; [done|]. cbn. unfold utf8_first.
  rewrite (proj2 (N.ltb_lt _ _) Hb). cbn. by rewrite IH.
Qed.
(** A two-byte character is kept, a stray continuation and a cut character are not. *)
Example buffer_text_replaces :
  utf8_text None [xc3; xa9; x41] = [xc3; xa9; x41] ∧ utf8_text None [xa9; x41] = utf8_replacement ++ [x41] ∧
  utf8_text None [xe2; x82; x41; xf0] = utf8_replacement ++ [x41] ++ utf8_replacement.
Proof. done. Qed.


(** *** Texts of integers *)
Fixpoint no_blank (s : string) : bool := match s with String c s' => negb (is_blank c) && no_blank s' | EmptyString => true end.
Lemma trim_no_blank s : no_blank s = true → trim s = s.
Proof.
  intros Hs. unfold trim. assert (trim_left s = s) as ->.
  { destruct s as [|c s]; [done|]. cbn in *. by destruct (is_blank c). }
  induction s as [|c s IH]; [done|]. cbn in *. apply andb_true_iff in Hs as [Hc Hs]. rewrite IH by done. by destruct s, (is_blank c).
Qed.
Lemma digits_no_blank acc s n : read_digits acc s = (n, "") → no_blank s = true.
Proof.
  revert acc. induction s as [|c s IH]; intros acc H; [done|]. cbn in H. destruct (digit_value c) as [d|] eqn:Hd; [|done].
  cbn. rewrite (IH _ H), andb_true_r. unfold digit_value, is_blank in *. destruct (_ && _) eqn:Hr; [|done].
  apply andb_true_iff in Hr as [H1 H2]. apply N.leb_le in H1, H2. apply negb_true_iff, orb_false_iff. split; [apply andb_false_iff; right; apply N.leb_gt; lia|apply N.eqb_neq; lia].
Qed.
Lemma decimal_no_blank n : no_blank (decimal n) = true.
Proof.
  assert (∀ m : N, no_blank (pretty m) = true) as Hp.
  { intros m. pose proof (all_digits_pretty m) as H. unfold all_digits in H. destruct (pretty m) as [|c s] eqn:He; [done|].
    destruct (read_digits 0 (String c s)) as [k [|]] eqn:Hr; [by eapply digits_no_blank|done]. }
  rewrite decimal_pretty. destruct n as [|p|p]; [done|apply (Hp (Npos p))|].
  change (pretty (Z.neg p)) with ("-" +:+ pretty (Npos p)). change (no_blank (pretty (Npos p)) = true). apply Hp.
Qed.
(** The text of an integer has only digits and a sign. *)
Definition ascii_text (s : string) : Prop := Forall (λ b, (Byte.to_N b < 128)%N) (utf8 s).
Lemma ascii_text_app a b : ascii_text a → ascii_text b → ascii_text (a +:+ b).
Proof.
  unfold ascii_text, utf8. induction a as [|c a IH]; [done|]. intros Ha Hb. apply Forall_cons in Ha as [Hc Ha].
  constructor; [done|by apply IH].
Qed.
Lemma digits_ascii acc s n : read_digits acc s = (n, "") → ascii_text s.
Proof.
  unfold ascii_text, utf8. revert acc. induction s as [|c s IH]; intros acc H; [constructor|]. cbn in H.
  destruct (digit_value c) as [d|] eqn:Hd; [|done]. constructor; [|by eapply IH].
  unfold digit_value in Hd. destruct (_ && _) eqn:Hr; [|done]. apply andb_true_iff in Hr as [_ Hr]. apply N.leb_le in Hr.
  destruct c as [[] [] [] [] [] [] [] []]; cbn in Hr |- *; lia.
Qed.
Lemma decimal_ascii n : ascii_text (decimal n).
Proof.
  assert (∀ m : N, ascii_text (pretty m)) as Hp.
  { intros m. pose proof (all_digits_pretty m) as H. unfold all_digits in H. destruct (pretty m) as [|c s] eqn:He; [constructor|].
    destruct (read_digits 0 (String c s)) as [k [|]] eqn:Hr; [by eapply digits_ascii|done]. }
  rewrite decimal_pretty. destruct n as [|p|p]; [by repeat constructor|apply (Hp (Npos p))|].
  change (pretty (Z.neg p)) with ("-" +:+ pretty (Npos p)). apply ascii_text_app; [by repeat constructor|apply Hp].
Qed.
Lemma buffer_text_utf8 s : ascii_text s → buffer_text (utf8 s) = s.
Proof. intros Hs. rewrite buffer_text_ascii by done. apply String.string_of_list_byte_of_string. Qed.
(** The text of an integer reads as the integer. *)
Lemma text_integer_decimal n : text_integer (decimal n) = Some n.
Proof.
  unfold text_integer. rewrite trim_no_blank by apply decimal_no_blank. rewrite of_decimal_decimal.
  destruct (String.eqb_spec (decimal n) "") as [He|]; [|done]. pose proof (of_decimal_decimal n) as H. by rewrite He in H.
Qed.

(** Two runs of a reading from different states end alike. *)
Class Reads {S A} (m : M S A) : Prop :=
  reads : ∃ o, ∀ s, m s = (o, s).

Section reads.
Context {S A B : Type}.
#[export] Instance reads_ret (a : A) : Reads (S := S) (mret a).
Proof. by exists (Ok a). Qed.
#[export] Instance reads_throw e : Reads (S := S) (A := A) (throw e).
Proof. by exists (Throw e). Qed.
#[export] Instance reads_throw_if b e : Reads (S := S) (throw_if b e).
Proof. destruct b; [by exists (Throw e)|by exists (Ok tt)]. Qed.
#[export] Instance reads_unwrap (o : option A) e : Reads (S := S) (unwrap o e).
Proof. destruct o as [a|]; [by exists (Ok a)|by exists (Throw e)]. Qed.
#[export] Instance reads_bind (m : M S B) (k : B → M S A) :
  Reads m → (∀ b, Reads (k b)) → Reads (m ≫= k).
Proof.
  intros [[b|e] Hm] Hk.
  - destruct (Hk b) as [o Ho]. exists o. intros s. by rewrite (bind_run _ _ _ _ _ (Hm s)).
  - exists (Throw e). intros s. by rewrite (bind_throw _ _ _ _ _ (Hm s)).
Qed.
#[export] Instance reads_prop v k : Reads (S := S) (prop v k).
Proof. destruct v; eexists; intros ?; reflexivity. Qed.
#[export] Instance reads_item v i : Reads (S := S) (item v i).
Proof. destruct v; eexists; intros ?; reflexivity. Qed.
#[export] Instance reads_iterate v : Reads (S := S) (iterate v).
Proof. destruct v; eexists; intros ?; reflexivity. Qed.
#[export] Instance reads_buffer_hex v : Reads (S := S) (buffer_hex v).
Proof. destruct v; eexists; intros ?; reflexivity. Qed.
End reads.
#[export] Instance reads_BigInt {S} v : Reads (S := S) (js_BigInt v).
Proof. destruct v; unfold js_BigInt; apply _. Qed.

Lemma wp_reads {S A} (m : M S A) `{!Reads m} (Q : A → S → Prop) (E : JsError → S → Prop) s :
  (∀ a, Q a s) → (∀ e, E e s) → wp m Q E s.
Proof.
  intros HQ HE. destruct (reads (m := m)) as [o Ho]. unfold wp. rewrite Ho.
  destruct o; auto.
Qed.
