(* ===== verification/Cache.v ===== *)
(** * The in-process cache

    [packages/indexer/src/cache.ts] and its copy [backend/src/cache.ts]: a
    [Map] of entries with an expiry time, and counters.  Since the callback of
    [cached] is awaited, a call is two steps, [cached_begin] and
    [cached_finish], with anything in between; [cached] is the call that
    nothing interrupts. *)

From S2P Require Import Prelude.

Record CacheEntry (D : Type) := mkCacheEntry { e_data : D; expiresAt : Z }.
Arguments mkCacheEntry {D} _ _.
Arguments e_data {D} _.
Arguments expiresAt {D} _.

(** The module's variables. *)
Record CacheState (D : Type) := mkCacheState {
  entries : gmap string (CacheEntry D);
  hits : Z;
  misses : Z;
}.
Arguments mkCacheState {D} _ _ _.
Arguments entries {D} _.
Arguments hits {D} _.
Arguments misses {D} _.
#[export] Instance CacheState_eta {D} : Eta (CacheState D) :=
  λ c, mkCacheState (entries c) (hits c) (misses c).

Section cache.
Context {D : Type}.
Implicit Types (c : CacheState D) (key : string).

Definition empty_cache : CacheState D := mkCacheState ∅ 0 0.

(** [entry && Date.now() < entry.expiresAt] *)
Definition live (now : Z) (e : CacheEntry D) : bool := now <? expiresAt e.

(** Up to the call of [fn]: the hit, or the count of the miss. *)
Definition cached_begin key (now : Z) : M (CacheState D) (option D) :=
  entry ← gets (λ c, entries c !! key);
  match entry with
  | Some e =>
    if live now e then modify (λ c, c <| hits ::= (Z.add 1) |>);; mret (Some (e_data e))
    else modify (λ c, c <| misses ::= (Z.add 1) |>);; mret None
  | None => modify (λ c, c <| misses ::= (Z.add 1) |>);; mret None
  end.
(** The continuation of [fn()]. *)
Definition cached_finish key (ttlMs now : Z) (data : D) : M (CacheState D) D :=
  modify (λ c, c <| entries ::= (<[key := mkCacheEntry data (now + ttlMs)]>) |>);; mret data.

(** The call at time [now] whose callback, a computation on some other state,
    returns at time [later]. *)
Definition cached {X} key (ttlMs now later : Z) (fn : M X D) : M (CacheState D * X) D :=
  hit ← zoom fst (λ c s, (c, s.2)) (cached_begin key now);
  match hit with
  | Some data => mret data
  | None =>
    data ← zoom snd (λ x s, (s.1, x)) fn;
    zoom fst (λ c s, (c, s.2)) (cached_finish key ttlMs later data)
  end.

Definition invalidate (keys : list string) c : CacheState D :=
  c <| entries ::= (λ m, foldl (λ m key, delete key m) m keys) |>.
(** [key.startsWith(prefix)] *)
Definition starts_with (prefix key : string) : bool := String.prefix prefix key.
Definition invalidatePattern (prefix : string) c : CacheState D :=
  c <| entries ::= (filter (λ '(key, _), starts_with prefix key = false)) |>.

Definition getMetrics c : Z * Z * Z := (hits c, misses c, Z.of_nat (size (entries c))).
Definition resetMetrics c : CacheState D := c <| hits := 0 |> <| misses := 0 |>.

(** ** What invalidation keeps *)
Lemma lookup_foldl_delete (keys : list string) (m : gmap string (CacheEntry D)) k :
  foldl (λ m key, delete key m) m keys !! k = if decide (k ∈ keys) then None else m !! k.
Proof.
  revert m. induction keys as [|x keys IH]; intros m; cbn [foldl].
  { rewrite decide_False; [done|apply not_elem_of_nil]. }
  rewrite IH. destruct (decide (k ∈ x :: keys)) as [Hin|Hin].
  - case_decide as Hk; [done|]. apply elem_of_cons in Hin as [->|]; [|done].
    apply lookup_delete_eq.
  - apply not_elem_of_cons in Hin as [? ?]. rewrite decide_False by done.
    by apply lookup_delete_ne.
Qed.
Lemma invalidate_lookup keys c k :
  entries (invalidate keys c) !! k = if decide (k ∈ keys) then None else entries c !! k.
Proof. apply lookup_foldl_delete. Qed.
Lemma invalidatePattern_lookup prefix c k :
  entries (invalidatePattern prefix c) !! k =
  if starts_with prefix k then None else entries c !! k.
Proof.
  cbn [invalidatePattern entries upd]. rewrite map_lookup_filter.
  destruct (entries c !! k) as [e|]; cbn; [|by destruct (starts_with prefix k)].
  destruct (starts_with prefix k) eqn:Hp; cbn; [by rewrite option_guard_False|by rewrite option_guard_True].
Qed.

(** ** Serving a database through the cache

    [query key x] is what the callback for [key] reads from the database [x],
    when it starts; it returns [took] later.  A write changes the database and then
    drops cache keys.  Each operation carries the time it starts at, and the next
    one starts when it is over. *)
Context {X : Type} (query : string → X → D).

Inductive Op :=
  | ReadOp (key : string) (ttlMs took : Z)
  | WriteOp (f : X → X) (keys prefixes : list string).

Definition drop_keys (keys prefixes : list string) c : CacheState D :=
  foldl (λ c p, invalidatePattern p c) (invalidate keys c) prefixes.

Definition serve_cached (s : CacheState D * X) (op : Z * Op) : option D * (CacheState D * X) :=
  match op with
  | (now, ReadOp key ttlMs took) =>
    match cached key ttlMs now (now + took) (gets (query key)) s with
    | (Ok data, s') => (Some data, s')
    | (Throw _, s') => (None, s')
    end
  | (_, WriteOp f keys prefixes) => (None, (drop_keys keys prefixes s.1, f s.2))
  end.
(** The specification: no cache at all. *)
Definition written (x : X) (op : Z * Op) : X := match op.2 with ReadOp _ _ _ => x | WriteOp f _ _ => f x end.
Definition serve_direct (x : X) (op : Z * Op) : option D * X :=
  (match op.2 with ReadOp key _ _ => Some (query key x) | WriteOp _ _ _ => None end, written x op).
Fixpoint serve {T} (step : T → Z * Op → option D * T) (s : T) (ops : list (Z * Op)) : list (option D) :=
  match ops with
  | [] => []
  | op :: ops' => let '(o, s') := step s op in o :: serve step s' ops'
  end.
(** The database before the operation at [i]. *)
Definition db_at (x : X) (ops : list (Z * Op)) (i : nat) : X := foldl written x (take i ops).

(** Every key whose answer a write changes is among those it drops. *)
Definition coherent (op : Op) : Prop :=
  match op with
  | ReadOp _ _ _ => True
  | WriteOp f keys prefixes =>
    ∀ key x, query key (f x) = query key x ∨ key ∈ keys ∨ ∃ p, p ∈ prefixes ∧ starts_with p key = true
  end.

Lemma drop_keys_lookup keys prefixes c k e :
  entries (drop_keys keys prefixes c) !! k = Some e →
  entries c !! k = Some e ∧ k ∉ keys ∧ ∀ p, p ∈ prefixes → starts_with p k = false.
Proof.
  unfold drop_keys.
  assert (∀ c', entries (foldl (λ c p, invalidatePattern p c) c' prefixes) !! k = Some e →
          entries c' !! k = Some e ∧ ∀ p, p ∈ prefixes → starts_with p k = false) as H.
  { induction prefixes as [|p ps IH]; intros c' Hc; cbn [foldl] in Hc.
    { split; [done|]. by intros p ?%elem_of_nil. }
    apply IH in Hc as [Hc Hps]. rewrite invalidatePattern_lookup in Hc.
    destruct (starts_with p k) eqn:Hp; [done|]. split; [done|].
    intros p' [->|Hin]%elem_of_cons; [done|by apply Hps]. }
  intros [Hc Hps]%H. rewrite invalidate_lookup in Hc. by case_decide.
Qed.

(** The simulation: what the cache holds is what the database answers. *)
Definition fresh (s : CacheState D * X) : Prop :=
  ∀ key e, entries s.1 !! key = Some e → e_data e = query key s.2.

Lemma read_hit key ttlMs now later c x e :
  entries c !! key = Some e → live now e = true →
  cached key ttlMs now later (gets (query key)) (c, x) =
  (Ok (e_data e), (c <| hits ::= (Z.add 1) |>, x)).
Proof.
  intros He Hl. unfold cached, cached_begin. m_run. cbn [fst]. by rewrite He, Hl.
Qed.
Lemma read_miss key ttlMs now later c x :
  (∀ e, entries c !! key = Some e → live now e = false) →
  cached key ttlMs now later (gets (query key)) (c, x) =
  (Ok (query key x),
   (c <| misses ::= (Z.add 1) |> <| entries ::= (<[key := mkCacheEntry (query key x) (later + ttlMs)]>) |>, x)).
Proof.
  intros Hl. unfold cached, cached_begin, cached_finish. m_run. cbn [fst].
  destruct (entries c !! key) as [e|]; [by rewrite (Hl e)|done].
Qed.
Lemma read_cases key now c :
  (∃ e, entries c !! key = Some e ∧ live now e = true) ∨
  (∀ e, entries c !! key = Some e → live now e = false).
Proof.
  destruct (entries c !! key) as [e|] eqn:He; [|by right].
  destruct (live now e) eqn:Hl; [left; eauto|right; by intros ? [= <-]].
Qed.

Lemma serve_step_refines s op :
  fresh s → coherent op.2 →
  ∃ o s', serve_cached s op = (o, s') ∧ serve_direct s.2 op = (o, s'.2) ∧ fresh s'.
Proof.
  destruct s as [c x], op as [now [key ttlMs took|f keys prefixes]]; cbn [snd]; intros Hf Hc.
  - destruct (read_cases key now c) as [(e & He & Hl)|Hl].
    + exists (Some (e_data e)), (c <| hits ::= (Z.add 1) |>, x).
      cbn [serve_cached serve_direct]. rewrite (read_hit _ _ _ _ _ _ e) by done.
      split; [done|]. split; [by rewrite (Hf key e He)|exact Hf].
    + eexists _, _. cbn [serve_cached serve_direct]. rewrite read_miss by done.
      split; [done|]. split; [done|]. intros k e. cbn [fst snd entries upd].
      intros [[<- <-]|[_ He]]%lookup_insert_Some; [done|by apply Hf].
  - eexists _, _. split; [done|]. split; [done|]. intros k e. cbn [fst snd].
    intros (He & Hk & Hp)%drop_keys_lookup. rewrite (Hf k e He).
    destruct (Hc k x) as [->|[?|(p & Hin & Hs)]]; [done|done|].
    by rewrite Hp in Hs.
Qed.

Lemma serve_refines (x : X) c (ops : list (Z * Op)) :
  Forall (λ op, coherent op.2) ops → fresh (c, x) → serve serve_cached (c, x) ops = serve serve_direct x ops.
Proof.
  revert c x. induction ops as [|op ops IH]; intros c x Hops Hf; [done|].
  apply Forall_cons in Hops as [Hop Hops].
  destruct (serve_step_refines (c, x) op Hf Hop) as (o & [c' x'] & H1 & H2 & Hf').
  cbn [serve snd] in *. rewrite H1, H2. f_equal. by apply IH.
Qed.

(** *** How old an answer may be *)

(** [total] is the whole history; an entry of the cache was stored by one of its
    first [n] operations. *)
Section age.
Context (x0 : X) (total : list (Z * Op)).
(** The read at [j] asked for [key] when the database answered [data], and was over
    at [over], with the time to live [ttl]. *)
Definition asked (j : nat) (key : string) (data : D) (start over ttl : Z) : Prop :=
  ∃ took, total !! j = Some (start, ReadOp key ttl took) ∧ data = query key (db_at x0 total j) ∧ over = start + took.
Definition stored (n : nat) c : Prop := ∀ key e, entries c !! key = Some e →
  ∃ j start over ttl, (j < n)%nat ∧ asked j key (e_data e) start over ttl ∧ expiresAt e = over + ttl.
Lemma stored_weaken n c : stored n c → stored (S n) c.
Proof. intros Hs key e (j & t & over & ttl & Hj & H)%Hs. exists j, t, over, ttl. split; [lia|done]. Qed.
Lemma db_at_next n op : total !! n = Some op → db_at x0 total (S n) = written (db_at x0 total n) op.
Proof. intros Hn. unfold db_at. by rewrite (take_S_r _ _ _ Hn), foldl_app. Qed.
Lemma stored_step n c op o s' :
  total !! n = Some op → stored n c → serve_cached (c, db_at x0 total n) op = (o, s') →
  stored (S n) s'.1 ∧ s'.2 = db_at x0 total (S n) ∧
  ∀ key ttl took data, op.2 = ReadOp key ttl took → o = Some data →
    ∃ j start over ttl', (j ≤ n)%nat ∧ asked j key data start over ttl' ∧ (j = n ∨ op.1 < over + ttl').
Proof.
  intros Hn Hs Hrun. rewrite (db_at_next _ _ Hn). destruct op as [now [key ttlMs took|f keys prefixes]]; cbn [serve_cached] in Hrun.
  - assert (asked n key (query key (db_at x0 total n)) now (now + took) ttlMs) as Hask by by exists took.
    destruct (read_cases key now c) as [(e & He & Hl)|Hl].
    + rewrite (read_hit _ _ _ _ _ _ e) in Hrun by done. injection Hrun as <- <-. split; [by apply stored_weaken|]. split; [done|].
      intros key' ttl' took' data [= <- <- <-] [= <-]. destruct (Hs _ _ He) as (j & start & over & ttl & Hj & Ha & Hexp).
      exists j, start, over, ttl. split; [lia|]. split; [done|]. right. unfold live in Hl. apply Z.ltb_lt in Hl. cbn. lia.
    + rewrite read_miss in Hrun by done. injection Hrun as <- <-. cbn [fst snd]. split; [|split; [done|]].
      * intros k e. cbn [entries upd]. intros [[<- <-]|[_ He]]%lookup_insert_Some; [|exact (stored_weaken _ _ Hs _ _ He)].
        exists n, now, (now + took), ttlMs. split; [lia|]. by split.
      * intros key' ttl' took' data [= <- <- <-] [= <-]. exists n, now, (now + took), ttlMs. split; [lia|]. split; [done|by left].
  - injection Hrun as <- <-. cbn [fst snd]. split; [|by split].
    intros k e (He & _ & _)%drop_keys_lookup. exact (stored_weaken _ _ Hs _ _ He).
Qed.
Lemma served_age c n ops i now key ttl took data :
  drop n total = ops → stored n c → ops !! i = Some (now, ReadOp key ttl took) →
  serve serve_cached (c, db_at x0 total n) ops !! i = Some (Some data) →
  ∃ j start over ttl', (j ≤ n + i)%nat ∧ asked j key data start over ttl' ∧ (j = (n + i)%nat ∨ now < over + ttl').
Proof.
  revert c n i. induction ops as [|op ops IH]; intros c n i Hdrop Hs Hi; [done|].
  assert (total !! n = Some op) as Hn by (by rewrite <- (Nat.add_0_r n), <- lookup_drop, Hdrop).
  cbn [serve]. destruct (serve_cached (c, db_at x0 total n) op) as [o [c' x']] eqn:Hrun.
  destruct (stored_step _ _ _ _ _ Hn Hs Hrun) as (Hs' & Hx & Hread). cbn [fst snd] in *. subst x'.
  destruct i as [|i]; cbn [lookup list_lookup] in Hi |- *.
  - injection Hi as ->. intros [= ->]. rewrite Nat.add_0_r. by eapply Hread.
  - intros Hd. rewrite <- Nat.add_succ_comm. apply (IH c' (S n) i); [|done..].
    rewrite <- (Nat.add_1_r n), <- drop_drop, Hdrop. done.
Qed.
End age.

(** Time does not go back. *)
Definition in_order (ops : list (Z * Op)) : Prop :=
  ∀ i j a b, (i ≤ j)%nat → ops !! i = Some a → ops !! j = Some b → a.1 ≤ b.1.

(** C9: A server that reads through the cache, and whose requests do not overlap,
    answers every request exactly as one that asks the database each time, as long
    as every write drops the keys whose answers it changes.  Whatever the writes
    drop, it answers a read with what the database answered to a read of the same
    key: this one, or an earlier one that was over less than its time to live
    before. *)
Theorem cached_refines_direct (x : X) (ops : list (Z * Op)) :
  (Forall (λ op, coherent op.2) ops → serve serve_cached (empty_cache, x) ops = serve serve_direct x ops) ∧
  (in_order ops → ∀ i now key ttl took data,
    ops !! i = Some (now, ReadOp key ttl took) → serve serve_cached (empty_cache, x) ops !! i = Some (Some data) →
    ∃ j start took' ttl', (j ≤ i)%nat ∧ ops !! j = Some (start, ReadOp key ttl' took') ∧ data = query key (db_at x ops j) ∧
      start ≤ now ∧ (j = i ∨ now < start + took' + ttl')).
Proof.
  split; [by intros Hops; apply serve_refines|]. intros Hord i now key ttl took data Hi Hd.
  destruct (served_age x ops empty_cache 0 ops i now key ttl took data) as (j & start & over & ttl' & Hj & (took' & Hjop & -> & ->) & Hage);
    [by rewrite drop_0|by intros ? ?|done|done|].
  exists j, start, took', ttl'. split_and!; [done|done|done|exact (Hord _ _ _ _ Hj Hjop Hi)|done].
Qed.
End cache.
Arguments Op _ : clear implicits.

(** A request that starts before a write and ends after it stores what it read
    before: the write's invalidation comes too early, and the old answer is
    served until it expires. *)
Lemma invalidate_race_serves_stale {D X} (query : string → X → D) c (x : X) (f : X → X) key ttlMs t t' :
  entries c !! key = None → t ≤ t' < t + ttlMs →
  let before := query key x in
  let c1 := (cached_begin key t c).2 in
  let c2 := invalidate [key] c1 in
  let c3 := (cached_finish key ttlMs t before c2).2 in
  (cached_begin key t c).1 = Ok None ∧
  (cached key ttlMs t' t' (gets (query key)) (c3, f x)).1 = Ok before.
Proof.
  intros Hc Ht before c1 c2 c3.
  assert (cached_begin key t c = (Ok None, c <| misses ::= (Z.add 1) |>)) as Hb.
  { unfold cached_begin. m_run. by rewrite Hc. }
  rewrite Hb. split; [done|].
  rewrite (read_hit query _ _ _ _ _ _ (mkCacheEntry before (t + ttlMs))); [done| |].
  - subst c3. unfold cached_finish. m_run. cbn [snd upd entries]. apply lookup_insert_eq.
  - unfold live. cbn [expiresAt]. apply Z.ltb_lt. lia.
Qed.

(** A counter that is read, incremented and read again. *)
Definition ex_read (key : string) (x : Z) : Z := if String.eqb key "count" then x else 0.
Definition ex_ops (dropped : list string) : list (Z * Op Z) :=
  [(0, ReadOp "count" 10 2); (3, ReadOp "count" 10 2); (6, WriteOp (Z.add 1) dropped []); (9, ReadOp "count" 10 2);
   (12, ReadOp "count" 10 2)].
Lemma cached_refines_direct_witness :
  serve (serve_cached ex_read) (empty_cache, 5) (ex_ops ["count"]) = [Some 5; Some 5; None; Some 6; Some 6] ∧
  (** A write that drops nothing is seen when the entry has expired. *)
  serve (serve_cached ex_read) (empty_cache, 5) (ex_ops []) = [Some 5; Some 5; None; Some 5; Some 6] ∧
  ∃ j start took' ttl', (j ≤ 3)%nat ∧ ex_ops [] !! j = Some (start, ReadOp "count" ttl' took') ∧
    5 = ex_read "count" (db_at 5 (ex_ops []) j) ∧ start ≤ 9 ∧ (j = 3%nat ∨ 9 < start + took' + ttl').
Proof.
  split; [|split; [reflexivity|]].
  - rewrite (proj1 (cached_refines_direct ex_read 5 (ex_ops ["count"]))); [reflexivity|].
    repeat apply Forall_cons_2; try apply Forall_nil_2; cbn [snd coherent]; try exact I.
    intros key x. unfold ex_read. destruct (String.eqb_spec key "count") as [->|_]; [right; left; by left|by left].
  - apply (proj2 (cached_refines_direct ex_read 5 (ex_ops []))) with (i := 3%nat) (ttl := 10) (took := 2); [|reflexivity..].
    intros i j a b Hij Ha Hb. do 5 try destruct i as [|i]; do 5 try destruct j as [|j]; cbn in *; simplify_eq; cbn; lia.
Defined.
