(* ===== verification/IndexerDb.v ===== *)
(** * The indexer's database

    The tables of [packages/indexer/migrations] that the event handlers
    write, with a row record for each, and the checks Postgres makes on a
    parameter: its type and range, NOT NULL and the references between
    tables.  A table with a unique key is a map from the key, an append-only
    table the list of its rows in insertion order; [votes], whose serial id
    orders a query, is an insertion-ordered map.  The columns that default to
    the time of the insertion are left out. *)

From S2P Require Import Prelude JsValues.

(** ** Columns

    The value a column stores for a parameter; [None] is a refused statement. *)
Section columns.
Context `{Runtime}.

Definition int_column (lo hi : Z) (v : JsValue) : option Z :=
  t ← pg_text v;
  n ← of_decimal t;
  if (lo <=? n) && (n <=? hi) then Some n else None.
Definition SMALLINT : JsValue → option Z := int_column (- 2 ^ 15) (2 ^ 15 - 1).
Definition INTEGER : JsValue → option Z := int_column (- 2 ^ 31) (2 ^ 31 - 1).
Definition BIGINT : JsValue → option Z := int_column (- 2 ^ 63) (2 ^ 63 - 1).
(** [NUMERIC(p, 0)] *)
Definition NUMERIC (p : Z) : JsValue → option Z := int_column (1 - 10 ^ p) (10 ^ p - 1).
(** [NUMERIC] without a precision. *)
Definition ANY_NUMERIC (v : JsValue) : option Z := t ← pg_text v; of_decimal t.

Definition TEXT (v : JsValue) : option string := pg_text v.
(** The length of a text in characters: bytes that continue one do not count. *)
Fixpoint char_length (s : string) : Z :=
  match s with
  | String c s' =>
    (if ((128 <=? Ascii.N_of_ascii c) && (Ascii.N_of_ascii c <? 192))%N then 0 else 1) + char_length s'
  | EmptyString => 0
  end.
Definition VARCHAR (n : Z) (v : JsValue) : option string :=
  t ← pg_text v; if char_length t <=? n then Some t else None.
Definition BOOLEAN (v : JsValue) : option bool :=
  t ← pg_text v;
  if bool_decide (t ∈ ["t"; "true"; "y"; "yes"; "on"; "1"]) then Some true
  else if bool_decide (t ∈ ["f"; "false"; "n"; "no"; "off"; "0"]) then Some false
  else None.

(** A column without NOT NULL. *)
Definition nullable {A} (column : JsValue → option A) (v : JsValue) : option (option A) :=
  match pg_text v with None => Some None | Some _ => Some <$> column v end.

Lemma int_column_range lo hi v n : int_column lo hi v = Some n → lo ≤ n ≤ hi.
Proof.
  unfold int_column. intros (t & _ & (k & _ & Hk)%bind_Some)%bind_Some.
  destruct ((lo <=? k) && (k <=? hi)) eqn:Hr; [|done]. injection Hk as ->. lia.
Qed.
Lemma int_column_decimal lo hi n :
  lo ≤ n ≤ hi → int_column lo hi (VStr (decimal n)) = Some n.
Proof.
  intros Hn. unfold int_column. cbn [pg_text mbind option_bind]. rewrite of_decimal_decimal. cbn [mbind option_bind].
  replace ((lo <=? n) && (n <=? hi)) with true by lia. done.
Qed.
Lemma int_column_num lo hi n : lo ≤ n ≤ hi → int_column lo hi (VNum n) = Some n.
Proof. exact (int_column_decimal lo hi n). Qed.
(** A column stores the number it is given. *)
Lemma int_column_inv lo hi n n' : int_column lo hi (VStr (decimal n)) = Some n' → n' = n.
Proof.
  unfold int_column. cbn [pg_text mbind option_bind]. rewrite of_decimal_decimal. cbn [mbind option_bind].
  destruct (_ && _); congruence.
Qed.
Lemma BIGINT_decimal n n' : BIGINT (VStr (decimal n)) = Some n' → n' = n.
Proof. apply int_column_inv. Qed.
Lemma NUMERIC_decimal p n n' : NUMERIC p (VStr (decimal n)) = Some n' → n' = n.
Proof. apply int_column_inv. Qed.
Lemma INTEGER_num n n' : INTEGER (VNum n) = Some n' → n' = n.
Proof. exact (int_column_inv _ _ n n'). Qed.
Lemma VARCHAR_text n t t' : VARCHAR n (VStr t) = Some t' → t' = t.
Proof. unfold VARCHAR. cbn [pg_text mbind option_bind]. destruct (_ <=? _); congruence. Qed.
End columns.

(** ** Rows *)
Record ProposalRow := mkProposalRow {
  pr_proposer : string; pr_description : string; pr_description_hash : option string;
  pr_start_ledger : Z; pr_end_ledger : Z;
  pr_votes_for : Z; pr_votes_against : Z; pr_votes_abstain : Z;
  pr_executed : bool; pr_cancelled : bool; pr_queued : bool }.
#[export] Instance ProposalRow_eta : Eta ProposalRow := λ r, mkProposalRow
  (pr_proposer r) (pr_description r) (pr_description_hash r) (pr_start_ledger r) (pr_end_ledger r)
  (pr_votes_for r) (pr_votes_against r) (pr_votes_abstain r) (pr_executed r) (pr_cancelled r) (pr_queued r).

Record VoteRow := mkVoteRow {
  vt_support : Z; vt_weight : Z; vt_reason : option string; vt_ledger : Z }.
Record DelegateRow := mkDelegateRow {
  dg_delegator : string; dg_old_delegatee : string; dg_new_delegatee : string; dg_ledger : Z }.
Record DelegationEntryRow := mkDelegationEntryRow {
  de_delegator : string; de_delegatee : string; de_delegated_at_ledger : Z;
  de_revoked_at_ledger : option Z; de_power : Z; de_chain_depth : Z; de_active : bool }.
#[export] Instance DelegationEntryRow_eta : Eta DelegationEntryRow := λ r, mkDelegationEntryRow
  (de_delegator r) (de_delegatee r) (de_delegated_at_ledger r) (de_revoked_at_ledger r)
  (de_power r) (de_chain_depth r) (de_active r).
Record SplitDelegationRow := mkSplitDelegationRow {
  sd_delegator : string; sd_delegatee : string; sd_weight_bps : Z; sd_delegated_power : Z; sd_active : bool }.
#[export] Instance SplitDelegationRow_eta : Eta SplitDelegationRow := λ r, mkSplitDelegationRow
  (sd_delegator r) (sd_delegatee r) (sd_weight_bps r) (sd_delegated_power r) (sd_active r).
Record BySigRow := mkBySigRow {
  bs_delegator : string; bs_delegatee : string; bs_relayer : string; bs_nonce : Z; bs_ledger : Z }.
Record RelayerRow := mkRelayerRow { rl_relayer : string; rl_whitelisted : bool; rl_ledger : Z }.
Record ReputationRow := mkReputationRow { rp_score : Z; rp_last_updated_ledger : option Z }.
Record ReputationHistoryRow := mkReputationHistoryRow {
  rh_proposer : string; rh_ledger : Z; rh_score : Z; rh_change : Z; rh_reason : string }.
Record ThresholdRow := mkThresholdRow {
  th_proposer : string; th_ledger : Z; th_old : Z; th_new : Z }.
Record WrapperRow := mkWrapperRow { wr_account : string; wr_amount : Z; wr_ledger : Z }.
Record TransferRow := mkTransferRow {
  tr_op_hash : string; tr_token : string; tr_recipient_count : Z; tr_total_amount : Z; tr_ledger : Z }.
Record ConfigUpdateRow := mkConfigUpdateRow {
  cu_ledger : Z; cu_old_settings : option string; cu_new_settings : string; cu_closed_at : option Z }.
Record UpgradeRow := mkUpgradeRow { ug_ledger : Z; ug_new_wasm_hash : string }.
Record EventLogRow := mkEventLogRow {
  el_event_type : string; el_ledger : Z; el_transaction_hash : option string;
  el_contract_address : string; el_payload : string }.
Record DraftRow := mkDraftRow {
  dr_creator : string; dr_description_hash : option string; dr_metadata_uri : option string;
  dr_created_ledger : Z; dr_expiry_ledger : Z; dr_total_power : Z;
  dr_finalized : bool; dr_cancelled : bool; dr_expired : bool; dr_resulting_proposal_id : option Z }.
#[export] Instance DraftRow_eta : Eta DraftRow := λ r, mkDraftRow
  (dr_creator r) (dr_description_hash r) (dr_metadata_uri r) (dr_created_ledger r) (dr_expiry_ledger r)
  (dr_total_power r) (dr_finalized r) (dr_cancelled r) (dr_expired r) (dr_resulting_proposal_id r).
Record CoSponsorRow := mkCoSponsorRow { cs_pledged_power : Z; cs_pledged_at_ledger : Z; cs_withdrawn : bool }.
#[export] Instance CoSponsorRow_eta : Eta CoSponsorRow := λ r, mkCoSponsorRow
  (cs_pledged_power r) (cs_pledged_at_ledger r) (cs_withdrawn r).
Record SignalAnchorRow := mkSignalAnchorRow {
  sa_result_hash : string; sa_anchored_ledger : Z; sa_anchorer : string; sa_tx_hash : option string }.
Record StrategyRow := mkStrategyRow {
  st_adapter : string; st_token : string; st_active : bool; st_current_allocation : Z; st_registered_ledger : Z }.
#[export] Instance StrategyRow_eta : Eta StrategyRow := λ r, mkStrategyRow
  (st_adapter r) (st_token r) (st_active r) (st_current_allocation r) (st_registered_ledger r).
Record AllocationRow := mkAllocationRow { al_strategy_id : Z; al_amount : Z; al_ledger : Z }.
Record WithdrawalRow := mkWithdrawalRow {
  wd_strategy_id : Z; wd_amount : Z; wd_actual_amount : option Z; wd_requested_ledger : Z;
  wd_claimable_ledger : Z; wd_claimed_ledger : option Z }.
#[export] Instance WithdrawalRow_eta : Eta WithdrawalRow := λ r, mkWithdrawalRow
  (wd_strategy_id r) (wd_amount r) (wd_actual_amount r) (wd_requested_ledger r)
  (wd_claimable_ledger r) (wd_claimed_ledger r).
Record EscrowRow := mkEscrowRow {
  es_amount : Z; es_start_ledger : Z; es_end_ledger : Z; es_initial_voting_power : Z;
  es_withdrawn : bool; es_updated_ledger : Z }.
#[export] Instance EscrowRow_eta : Eta EscrowRow := λ r, mkEscrowRow
  (es_amount r) (es_start_ledger r) (es_end_ledger r) (es_initial_voting_power r)
  (es_withdrawn r) (es_updated_ledger r).
Record BondRow := mkBondRow {
  bd_proposer : string; bd_amount : Z; bd_state : string; bd_locked_ledger : Z;
  bd_refunded_ledger : option Z; bd_slashed_ledger : option Z; bd_slash_recipient : option string }.
#[export] Instance BondRow_eta : Eta BondRow := λ r, mkBondRow
  (bd_proposer r) (bd_amount r) (bd_state r) (bd_locked_ledger r)
  (bd_refunded_ledger r) (bd_slashed_ledger r) (bd_slash_recipient r).
Record LiquidityRow := mkLiquidityRow {
  lq_event_type : string; lq_provider : string; lq_outcome_a : Z; lq_outcome_b : Z;
  lq_amount_a : Z; lq_amount_b : Z; lq_lp_tokens : Z; lq_ledger : Z }.
Record SwapRow := mkSwapRow {
  sw_trader : string; sw_outcome_in : Z; sw_outcome_out : Z; sw_amount_in : Z; sw_amount_out : Z;
  sw_fee : Z; sw_ledger : Z }.
Record PoolFeeRow := mkPoolFeeRow {
  pf_outcome_a : Z; pf_outcome_b : Z; pf_old_fee_bps : Z; pf_new_fee_bps : Z; pf_ledger : Z }.
Record TimelockOpRow := mkTimelockOpRow {
  to_target : string; to_fn_name : string; to_ready_at : Z; to_expires_at : Z; to_status : string;
  to_executed_by : option string; to_executed_at_ledger : option Z;
  to_cancelled_by : option string; to_cancelled_at_ledger : option Z; to_ledger : Z }.
#[export] Instance TimelockOpRow_eta : Eta TimelockOpRow := λ r, mkTimelockOpRow
  (to_target r) (to_fn_name r) (to_ready_at r) (to_expires_at r) (to_status r)
  (to_executed_by r) (to_executed_at_ledger r) (to_cancelled_by r) (to_cancelled_at_ledger r) (to_ledger r).
Record GraphRow := mkGraphRow {
  gr_batch_op_id : option string; gr_op_count : option Z; gr_has_cycle : bool;
  gr_cycle_path : option string; gr_ledger : Z }.
Record PartialRow := mkPartialRow {
  pb_total_ops : Z; pb_completed_ops : Z; pb_status : string; pb_last_op_id : option string;
  pb_last_status : option string; pb_retry_count : Z; pb_recovery_deadline : option Z;
  pb_started_at_ledger : Z; pb_completed_at_ledger : option Z; pb_updated_at_ledger : Z }.
#[export] Instance PartialRow_eta : Eta PartialRow := λ r, mkPartialRow
  (pb_total_ops r) (pb_completed_ops r) (pb_status r) (pb_last_op_id r) (pb_last_status r) (pb_retry_count r)
  (pb_recovery_deadline r) (pb_started_at_ledger r) (pb_completed_at_ledger r) (pb_updated_at_ledger r).
Record ConvictionRow := mkConvictionRow {
  cv_proposer : string; cv_target : string; cv_requested_amount : Z; cv_created_ledger : Z;
  cv_conviction : Z; cv_last_updated_ledger : Z; cv_executed : bool; cv_cancelled : bool }.
#[export] Instance ConvictionRow_eta : Eta ConvictionRow := λ r, mkConvictionRow
  (cv_proposer r) (cv_target r) (cv_requested_amount r) (cv_created_ledger r)
  (cv_conviction r) (cv_last_updated_ledger r) (cv_executed r) (cv_cancelled r).
Record StakeRow := mkStakeRow { sk_proposal_id : Z; sk_amount : Z; sk_updated_at_ledger : Z }.
Record OptimisticRow := mkOptimisticRow {
  op_proposer : string; op_created_ledger : Z; op_challenge_end_ledger : Z;
  op_objection_votes : Z; op_state : string }.
#[export] Instance OptimisticRow_eta : Eta OptimisticRow := λ r, mkOptimisticRow
  (op_proposer r) (op_created_ledger r) (op_challenge_end_ledger r) (op_objection_votes r) (op_state r).
Record ObjectionRow := mkObjectionRow { ob_weight : Z; ob_running_total : Z; ob_ledger : Z }.
Record StreamRow := mkStreamRow {
  sm_name : string; sm_owner : string; sm_token : string; sm_total_allocated : Z; sm_total_spent : Z;
  sm_start_ledger : Z; sm_end_ledger : Z; sm_is_active : bool; sm_is_revoked : bool;
  sm_revoked_at_ledger : option Z; sm_max_single_spend : Z; sm_cooldown_ledgers : Z;
  sm_last_spend_ledger : Z; sm_spend_count : Z; sm_created_by_proposal_id : Z; sm_updated_at_ledger : Z }.
#[export] Instance StreamRow_eta : Eta StreamRow := λ r, mkStreamRow
  (sm_name r) (sm_owner r) (sm_token r) (sm_total_allocated r) (sm_total_spent r)
  (sm_start_ledger r) (sm_end_ledger r) (sm_is_active r) (sm_is_revoked r)
  (sm_revoked_at_ledger r) (sm_max_single_spend r) (sm_cooldown_ledgers r)
  (sm_last_spend_ledger r) (sm_spend_count r) (sm_created_by_proposal_id r) (sm_updated_at_ledger r).
Record SpendRow := mkSpendRow {
  sp_recipient : string; sp_amount : Z; sp_memo : string; sp_executed_at_ledger : Z; sp_executed_by : string }.
Record StreamEventRow := mkStreamEventRow {
  se_event_type : string; se_stream_id : Z; se_name : option string; se_owner : option string;
  se_recipient : option string; se_amount : option Z; se_total_amount : option Z;
  se_recipient_count : option Z; se_caller : option string; se_unspent_returned : option Z;
  se_old_end_ledger : option Z; se_new_end_ledger : option Z; se_additional_amount : option Z;
  se_new_total_amount : option Z; se_unspent : option Z; se_ledger : Z;
  se_transaction_hash : option string; se_payload : string }.
Record ConcentrationRow := mkConcentrationRow {
  cn_total_voting_power : Z; cn_top1 : Z; cn_top5 : Z; cn_top10 : Z; cn_top20 : Z; cn_gini : Z;
  cn_nakamoto : Z; cn_delegate_top5 : Z; cn_delegate_gini : Z }.

(** ** The tables *)
Record Db := mkDb {
  last_ledger : Z;
  event_log : list (string * EventLogRow);
  proposals : gmap Z ProposalRow;
  votes : list ((Z * string) * VoteRow);
  delegates : list DelegateRow;
  delegation_entries : list DelegationEntryRow;
  split_delegations : list SplitDelegationRow;
  delegated_by_sig_events : list BySigRow;
  relayer_whitelist_history : list RelayerRow;
  proposer_reputation : gmap string ReputationRow;
  reputation_score_history : list ReputationHistoryRow;
  effective_threshold_history : list ThresholdRow;
  wrapper_deposits : list WrapperRow;
  wrapper_withdrawals : list WrapperRow;
  treasury_transfers : list TransferRow;
  config_updates : list ConfigUpdateRow;
  governor_upgrades : list UpgradeRow;
  governance_snapshots : gmap Z Z;
  concentration_snapshots : gmap Z ConcentrationRow;
  drafts : gmap Z DraftRow;
  draft_co_sponsors : gmap (Z * string) CoSponsorRow;
  signal_anchors : gmap Z SignalAnchorRow;
  treasury_strategies : gmap Z StrategyRow;
  strategy_allocations : list AllocationRow;
  strategy_withdrawals : gmap Z WithdrawalRow;
  vote_escrow_locks : gmap string EscrowRow;
  proposal_bonds : gmap string BondRow;
  liquidity_events : list LiquidityRow;
  swap_events : list SwapRow;
  pool_fee_updates : list PoolFeeRow;
  timelock_operations : gmap string TimelockOpRow;
  timelock_batch_operations : gmap string TimelockOpRow;
  timelock_dependency_graphs : gmap string GraphRow;
  timelock_partial_batch_state : gmap string PartialRow;
  conviction_proposals : gmap Z ConvictionRow;
  conviction_stakes : gmap string StakeRow;
  conviction_snapshots : gmap (Z * Z) Z;
  optimistic_proposals : gmap Z OptimisticRow;
  optimistic_objections : gmap (Z * string) ObjectionRow;
  treasury_streams : gmap Z StreamRow;
  treasury_stream_spends : gmap (Z * Z) SpendRow;
  treasury_stream_events : gmap string StreamEventRow;
}.
#[export] Instance Db_eta : Eta Db := λ d, mkDb
  (last_ledger d) (event_log d) (proposals d) (votes d) (delegates d) (delegation_entries d)
  (split_delegations d) (delegated_by_sig_events d) (relayer_whitelist_history d) (proposer_reputation d)
  (reputation_score_history d) (effective_threshold_history d) (wrapper_deposits d) (wrapper_withdrawals d)
  (treasury_transfers d) (config_updates d) (governor_upgrades d) (governance_snapshots d)
  (concentration_snapshots d) (drafts d) (draft_co_sponsors d) (signal_anchors d) (treasury_strategies d)
  (strategy_allocations d) (strategy_withdrawals d) (vote_escrow_locks d) (proposal_bonds d)
  (liquidity_events d) (swap_events d) (pool_fee_updates d) (timelock_operations d)
  (timelock_batch_operations d) (timelock_dependency_graphs d) (timelock_partial_batch_state d)
  (conviction_proposals d) (conviction_stakes d) (conviction_snapshots d) (optimistic_proposals d)
  (optimistic_objections d) (treasury_streams d) (treasury_stream_spends d) (treasury_stream_events d).
Definition empty_db : Db := mkDb 0 [] ∅ [] [] [] [] [] [] ∅ [] [] [] [] [] [] [] ∅ ∅ ∅ ∅ ∅ ∅ [] ∅ ∅ ∅ [] [] []
  ∅ ∅ ∅ ∅ ∅ ∅ ∅ ∅ ∅ ∅ ∅ ∅.
