(* ===== verification/IndexerWorld.v ===== *)
(** * What an event handler of the indexer works on

    The database, the cache of the API and the messages sent to the WebSocket
    clients; the statement [pool.query] runs, which Postgres applies whole or
    refuses; and the event itself, with its topics and value already decoded
    by the SDK's [scValToNative].  The classes [Keeps] and [StmtKeeps] carry
    an invariant of the database through a handler statement by statement. *)

From S2P Require Import Prelude JsValues Cache IndexerDb.

(** [WsEvent] of [ws.ts]; the data is an object. *)
Record WsEvent := mkWsEvent { ws_type : string; ws_data : list (string * JsValue) }.

Record World := mkWorld {
  w_db : Db;
  w_cache : CacheState JsValue;
  w_sent : list WsEvent;
}.
#[export] Instance World_eta : Eta World := λ w, mkWorld (w_db w) (w_cache w) (w_sent w).

(** [SorobanRpc.Api.EventResponse], with the fields the handlers read. *)
Record EventResponse := mkEventResponse {
  ev_id : option string;
  ev_ledger : Z;
  ev_contractId : option string;
  ev_txHash : option string;
  ev_ledgerClosedAt : JsValue;
  ev_topic : list JsValue;
  ev_value : JsValue;
}.

(** ** Effects *)

(** A statement takes effect as a whole, or is refused and has none. *)
Definition Stmt : Type := Db → option Db.

(** [await pool.query(...)] *)
Definition query (s : Stmt) : M World unit :=
  w ← get;
  match s (w_db w) with
  | Some d => modify (λ w, w <| w_db := d |>)
  | None => throw (PlainError "the database refuses the statement")
  end.
(** A SELECT. *)
Definition select {A} (f : Db → A) : M World A := gets (λ w, f (w_db w)).
Definition evict (keys : list string) : M World unit := modify (λ w, w <| w_cache ::= (invalidate keys) |>).
Definition evict_prefix (prefix : string) : M World unit :=
  modify (λ w, w <| w_cache ::= (invalidatePattern prefix) |>).
Definition broadcast (type : string) (data : list (string * JsValue)) : M World unit :=
  modify (λ w, w <| w_sent ::= (λ l, l ++ [mkWsEvent type data]) |>).

(** [for (const x of l) await f(x)] *)
Fixpoint for_each {S A} (f : A → M S unit) (l : list A) : M S unit :=
  match l with
  | [] => mret tt
  | x :: l' => f x;; for_each f l'
  end.

(** The number of a value, as [event.ledger] is passed to a column. *)
Definition ledger_value (event : EventResponse) : JsValue := VNum (ev_ledger event).
(** [x ?? null] of an optional text. *)
Definition opt_text (o : option string) : JsValue := match o with Some s => VStr s | None => VNull end.
Definition opt_undefined (o : option string) : JsValue := match o with Some s => VStr s | None => VUndefined end.

(** [a - b] on numbers. *)
Definition num_sub (a b : JsValue) : JsValue :=
  match a, b with VNum x, VNum y => VNum (to_number (x - y)) | _, _ => VNaN end.

(** [lift] runs a call that touches nothing of the world. *)
Definition lift {S A} (o : outcome A) : M S A := λ s, (o, s).
#[export] Instance reads_lift {S A} (o : outcome A) : Reads (S := S) (lift o).
Proof. exists o. intros s. reflexivity. Qed.

(** [raw] as an object whose properties are about to be read. *)
Definition props {S} (v : JsValue) : M S (string → JsValue) :=
  match v with
  | VUndefined | VNull => throw (TypeError "Cannot read properties of undefined")
  | VObj fields => mret (λ k, field k fields)
  | _ => mret (λ _, VUndefined)
  end.
#[export] Instance reads_props {S} v : Reads (S := S) (props v).
Proof. destruct v; eexists; intros ?; reflexivity. Qed.

(** ** Event identifiers *)

(** The object [{ topics, value, tx_hash }] that is stored with an event. *)
Definition event_payload (event : EventResponse) (topics : list JsValue) : string :=
  stringifyJson (VObj [("topics", VArr topics); ("value", ev_value event); ("tx_hash", opt_undefined (ev_txHash event))]).

(** The RPC's identifier of the event, or a digest of what is known of it. *)
Definition indexerEventId `{Runtime} (event : EventResponse) (eventType : string)
    (contractAddress : option string) (serializedPayload : string) : string :=
  match ev_id event with
  | Some (String c s) => String c s
  | _ =>
    "synthetic:" +:+ sha256_hex (String.concat ":"
      [default "" (ev_txHash event); decimal (ev_ledger event); default "" contractAddress; eventType; serializedPayload])
  end.

(** ** Carrying an invariant of the database *)
Definition on_db (I : Db → Prop) (w : World) : Prop := I (w_db w).

Class StmtKeeps (I : Db → Prop) (s : Stmt) : Prop :=
  stmt_keeps : ∀ d d', I d → s d = Some d' → I d'.
Class Keeps (I : Db → Prop) {A} (m : M World A) : Prop :=
  keeps : preserves (on_db I) m.

Lemma wp_query s (Q : unit → World → Prop) (E : JsError → World → Prop) w :
  (∀ d, s (w_db w) = Some d → Q tt (w <| w_db := d |>)) →
  (∀ e, s (w_db w) = None → E e w) →
  wp (query s) Q E w.
Proof.
  intros HQ HE. unfold query. rewrite wp_bind, wp_get.
  destruct (s (w_db w)) as [d|] eqn:Hs; [rewrite wp_modify; by apply HQ|]. by apply HE.
Qed.

Section keeps.
Context (I : Db → Prop).

#[export] Instance keeps_query s : StmtKeeps I s → Keeps I (query s).
Proof. intros Hs w Hw. apply wp_query; [|done]. intros d Hd. exact (Hs _ _ Hw Hd). Qed.
#[export] Instance keeps_select {A} (f : Db → A) : Keeps I (select f).
Proof. intros w Hw. exact Hw. Qed.
#[export] Instance keeps_evict keys : Keeps I (evict keys).
Proof. intros w Hw. exact Hw. Qed.
#[export] Instance keeps_evict_prefix p : Keeps I (evict_prefix p).
Proof. intros w Hw. exact Hw. Qed.
#[export] Instance keeps_broadcast t data : Keeps I (broadcast t data).
Proof. intros w Hw. exact Hw. Qed.
#[export] Instance keeps_reads {A} (m : M World A) : Reads m → Keeps I m | 5.
Proof. intros Hm w Hw. by apply (wp_reads m). Qed.
#[export] Instance keeps_bind {A B} (m : M World B) (k : B → M World A) :
  Keeps I m → (∀ b, Keeps I (k b)) → Keeps I (m ≫= k).
Proof.
  intros Hm Hk w Hw. rewrite wp_bind. eapply wp_mono; [by apply Hm| |done].
  intros b w' Hw'. by apply Hk.
Qed.
#[export] Instance keeps_if {A} (b : bool) (m1 m2 : M World A) :
  Keeps I m1 → Keeps I m2 → Keeps I (if b then m1 else m2).
Proof. by destruct b. Qed.
#[export] Instance keeps_option {A B} (o : option B) (k : B → M World A) (m : M World A) :
  (∀ b, Keeps I (k b)) → Keeps I m → Keeps I (match o with Some b => k b | None => m end).
Proof. by destruct o. Qed.
#[export] Instance keeps_for_each {A} (f : A → M World unit) l :
  (∀ x, Keeps I (f x)) → Keeps I (for_each f l).
Proof. intros Hf. induction l as [|x l IH]; cbn [for_each]; apply _. Qed.
End keeps.

(** A statement that leaves alone the tables an invariant speaks of. *)
Class Untouched {T} (f : Db → T) (s : Stmt) : Prop :=
  untouched : ∀ d d', s d = Some d' → f d' = f d.

(** ** Idempotent statements and handlers

    Applying it again to what it returned changes nothing. *)
Class Idempotent (s : Stmt) : Prop := idempotent : ∀ d d', s d = Some d' → s d' = Some d'.

(** Inserting under a key: [ON CONFLICT (key) DO NOTHING]. *)
Definition insert_new {K A} `{Countable K} (k : K) (r : A) (m : gmap K A) : gmap K A :=
  match m !! k with Some _ => m | None => <[k := r]> m end.

Section insert_new.
Context `{Countable K} {A : Type}.
Implicit Types (m : gmap K A).
Lemma insert_new_lookup k r m i :
  insert_new k r m !! i = if decide (i = k) then Some (default r (m !! k)) else m !! i.
Proof.
  unfold insert_new. case_decide as Hi.
  - subst. destruct (m !! k) eqn:Hk; [by rewrite Hk|by rewrite lookup_insert_eq].
  - destruct (m !! k); [done|by rewrite lookup_insert_ne].
Qed.
Lemma insert_new_idemp k r m : insert_new k r (insert_new k r m) = insert_new k r m.
Proof.
  apply map_eq. intros i. rewrite !insert_new_lookup. case_decide as Hi; [|done].
  by rewrite decide_True.
Qed.
Lemma insert_new_is_Some k r m i : is_Some (m !! i) → is_Some (insert_new k r m !! i).
Proof. rewrite insert_new_lookup. case_decide; [intros _; eauto|done]. Qed.
Lemma alter_idemp (f : A → A) k m : (∀ x, f (f x) = f x) → alter f k (alter f k m) = alter f k m.
Proof. intros Hf. rewrite alter_compose. apply alter_ext. by intros x _. Qed.
End insert_new.
