(* ===== verification/Effects.v ===== *)
(** * Jobs and routes

    What the background jobs and the routes of the backend are made of beside
    the monad: [try] and [catch], filters that may throw; and the class
    [Evolves], which carries a preorder on states through a computation,
    whether it returns or throws. *)

From S2P Require Import Prelude JsValues IndexerWorld.

(** [try { await m } catch (err) { await h(err) }] *)
Definition try_catch {S A} (m : M S A) (h : JsError → M S A) : M S A := λ s,
  match m s with (Ok a, s') => (Ok a, s') | (Throw e, s') => h e s' end.

(** A call that neither reads nor writes. *)
Definition from_outcome {S A} (o : outcome A) : M S A := λ s, (o, s).

(** [rows.filter(f)] where [f] may throw. *)
Fixpoint filter_m {S A} (f : A → M S bool) (l : list A) : M S (list A) :=
  match l with
  | [] => mret []
  | x :: l' => b ← f x; rest ← filter_m f l'; mret (if (b : bool) then x :: rest else rest)
  end.

(** ** Computations that only make some kind of step *)
Class Evolves {S A} (R : S → S → Prop) (m : M S A) : Prop :=
  evolves : ∀ s, wp m (λ _, R s) (λ _, R s) s.

Section evolves.
Context {S : Type} (R : S → S → Prop) `{!PreOrder R}.
Lemma ev_bind_at {A B} (m : M S B) (k : B → M S A) s :
  wp m (λ b s1, R s s1 ∧ wp (k b) (λ _, R s1) (λ _, R s1) s1) (λ _, R s) s →
  wp (m ≫= k) (λ _, R s) (λ _, R s) s.
Proof.
  intros Hm. apply wp_bind. eapply wp_mono; [exact Hm| |done]. cbn. intros b s1 [Hs1 Hk].
  eapply wp_mono; [exact Hk| |]; cbn; intros x s2 Hs2; exact (transitivity Hs1 Hs2).
Qed.
#[export] Instance ev_ret {A} (a : A) : Evolves R (mret a).
Proof. intros s. apply wp_ret. reflexivity. Qed.
#[export] Instance ev_throw {A} e : Evolves R (throw (A := A) e).
Proof. intros s. apply wp_throw. reflexivity. Qed.
#[export] Instance ev_gets {A} (f : S → A) : Evolves R (gets f).
Proof. intros s. apply wp_gets. reflexivity. Qed.
#[export] Instance ev_reads {A} (m : M S A) : Reads m → Evolves R m.
Proof. intros Hm s. apply wp_reads; [done|intros _; reflexivity..]. Qed.
#[export] Instance ev_bind {A B} (m : M S B) (k : B → M S A) :
  Evolves R m → (∀ b, Evolves R (k b)) → Evolves R (m ≫= k).
Proof. intros Hm Hk s. apply ev_bind_at. eapply wp_mono; [apply Hm| |done]. cbn. intros b s1 Hs1. split; [done|apply Hk]. Qed.
#[export] Instance ev_catch {A} (m : M S A) h : Evolves R m → (∀ e, Evolves R (h e)) → Evolves R (try_catch m h).
Proof.
  intros Hm Hh s. unfold wp, try_catch. specialize (Hm s). unfold wp in Hm. destruct (m s) as [[a|e] s1]; [done|].
  specialize (Hh e s1). unfold wp in Hh. destruct (h e s1) as [[a|e'] s2]; exact (transitivity Hm Hh).
Qed.
#[export] Instance ev_for_each {A} (f : A → M S unit) l : (∀ x, Evolves R (f x)) → Evolves R (for_each f l).
Proof. intros Hf. induction l as [|x l IH]; cbn [for_each]; apply _. Qed.
#[export] Instance ev_filter {A} (f : A → M S bool) l : (∀ x, Evolves R (f x)) → Evolves R (filter_m f l).
Proof. intros Hf. induction l as [|x l IH]; cbn [filter_m]; apply _. Qed.
#[export] Instance ev_if {A} (b : bool) (m1 m2 : M S A) : Evolves R m1 → Evolves R m2 → Evolves R (if b then m1 else m2).
Proof. by destruct b. Qed.
End evolves.
(** The state a computation leaves. *)
Lemma evolves_run {S A} (R : S → S → Prop) (m : M S A) `{!Evolves R m} s o s' : m s = (o, s') → R s s'.
Proof. intros Hrun. pose proof (evolves (R := R) (m := m) s) as Hwp. apply (wp_run _ _ _ _ _ _ Hrun) in Hwp. by destruct o. Qed.
Lemma evolves_state {S A} (R : S → S → Prop) (m : M S A) `{!Evolves R m} s : R s (m s).2.
Proof. apply (evolves_run R m s (m s).1). by destruct (m s). Qed.

(** ** Computations that keep a part of the state *)
Definition keeps {S B} (f : S → B) (s s' : S) : Prop := f s' = f s.
#[export] Instance keeps_preorder {S B} (f : S → B) : PreOrder (keeps f).
Proof. split; [done|]. unfold keeps. intros x y z. congruence. Qed.

Section keeps.
Context {S B : Type} (f : S → B).
#[export] Instance ev_get R `{!PreOrder R} : Evolves R (get (S := S)).
Proof. intros s. apply wp_get. reflexivity. Qed.
#[export] Instance ev_fmap {A C} R `{!PreOrder R} (g : A → C) (m : M S A) : Evolves R m → Evolves R (g <$> m).
Proof.
  intros Hm s. specialize (Hm s). unfold wp, fmap, M_fmap in *. by destruct (m s) as [[]].
Qed.
#[export] Instance ev_map_m {A C} R `{!PreOrder R} (g : A → M S C) l : (∀ x, Evolves R (g x)) → Evolves R (map_m g l).
Proof. intros Hg. induction l as [|x l IH]; cbn [map_m]; apply _. Qed.
Lemma ev_modify_keeps g : (∀ s, f (g s) = f s) → Evolves (keeps f) (modify g).
Proof. intros Hg s. apply wp_modify, Hg. Qed.
Lemma ev_zoom_keeps {T A} (rd : S → T) wr (m : M T A) : (∀ t s, f (wr t s) = f s) → Evolves (keeps f) (zoom rd wr m).
Proof. intros Hf s. unfold wp, zoom. destruct (m (rd s)) as [[] t]; apply Hf. Qed.
(** A part is looked at, and written back as it was. *)
Lemma ev_zoom_read {T A} (rd : S → T) wr (m : M T A) :
  (∀ s, wr (rd s) s = s) → Evolves (keeps id) m → Evolves (keeps f) (zoom rd wr m).
Proof.
  intros Hwr Hm s. specialize (Hm (rd s)). unfold wp, zoom, keeps, id in *. destruct (m (rd s)) as [[] t]; subst; by rewrite Hwr.
Qed.
Lemma ev_keeps_read {A} (m : M S A) : Evolves (keeps id) m → Evolves (keeps f) m.
Proof. intros Hm s. specialize (Hm s). unfold wp, keeps, id in *. destruct (m s) as [[] s']; by subst. Qed.
End keeps.
(** Takes a function apart, statement by statement. *)
Ltac ev_go :=
  repeat first
    [ progress cbv zeta
    | lazymatch goal with
      | |- Evolves _ (mbind _ _) => apply ev_bind; [apply _| |intros ?]
      | |- Evolves _ (fmap _ _) => apply ev_fmap; [apply _|]
      | |- Evolves _ (map_m _ _) => apply ev_map_m; [apply _|intros ?]
      | |- Evolves (keeps _) (modify _) => apply ev_modify_keeps; intros; reflexivity
      | |- _ => solve [apply _]
      end
    | case_match ].
