(* ===== verification/Doubles.v ===== *)
(** * Doubles

    Numbers with a fraction, which the tuning analyzer averages and the SDK takes
    square roots of: IEEE binary64, from the Standard Library's [SpecFloat], with
    the conversions and the roundings of JavaScript. *)

From Stdlib Require Import SpecFloat.
From S2P Require Import Prelude.
Open Scope Z_scope.

Definition double : Type := spec_float.
Definition d_add : double → double → double := SFadd 53 1024.
Definition d_sub : double → double → double := SFsub 53 1024.
Definition d_mul : double → double → double := SFmul 53 1024.
Definition d_div : double → double → double := SFdiv 53 1024.
Definition d_sqrt : double → double := SFsqrt 53 1024.
(** [Number(n)] *)
Definition of_int (n : Z) : double := binary_normalize 53 1024 n 0 false.

(** The results of [Math.round] and [Math.floor] and what is computed from them:
    an integer, an infinity or [NaN]. *)
Inductive number := Int (n : Z) | Infinite (negative : bool) | NaN.
#[export] Instance number_eq_dec : EqDecision number.
Proof. solve_decision. Defined.

(** The integer below the fraction [num / 2^k]. *)
Definition signed (s : bool) (m : positive) : Z := if s then Zneg m else Zpos m.
Definition Math_floor (x : double) : number :=
  match x with
  | S754_zero _ => Int 0
  | S754_infinity s => Infinite s
  | S754_nan => NaN
  | S754_finite s m e => Int (if 0 <=? e then signed s m * 2 ^ e else signed s m / 2 ^ (- e))
  end.
(** [Math.round]: the integer below [x + 1/2], which is taken exactly. *)
Definition Math_round (x : double) : number :=
  match x with
  | S754_zero _ => Int 0
  | S754_infinity s => Infinite s
  | S754_nan => NaN
  | S754_finite s m e =>
    Int (if 0 <=? e then signed s m * 2 ^ e else (2 * signed s m + 2 ^ (- e)) / 2 ^ (1 - e))
  end.

(** [Math.min], [Math.max] and sums with an integer. *)
Definition num_min (x : number) (n : Z) : number :=
  match x with Int m => Int (Z.min m n) | Infinite false => Int n | Infinite true => Infinite true | NaN => NaN end.
Definition num_max (x : number) (n : Z) : number :=
  match x with Int m => Int (Z.max m n) | Infinite true => Int n | Infinite false => Infinite false | NaN => NaN end.
Definition num_plus (n : Z) (x : number) : number := match x with Int m => Int (n + m) | y => y end.
Definition num_opp (x : number) : number :=
  match x with Int m => Int (- m) | Infinite s => Infinite (negb s) | NaN => NaN end.
Definition num_abs (x : number) : number :=
  match x with Int m => Int (Z.abs m) | Infinite _ => Infinite false | NaN => NaN end.
(** [String(x)], for integers below [10^21] *)
Definition num_text (x : number) : string :=
  match x with Int n => decimal n | Infinite false => "Infinity" | Infinite true => "-Infinity" | NaN => "NaN" end.

(** [x.toFixed(1)] below [10^21]: the nearest number of tenths, the larger of two. *)
Definition tenths (m : positive) (e : Z) : Z :=
  if 0 <=? e then Zpos m * 2 ^ e * 10 else (20 * Zpos m + 2 ^ (- e)) / 2 ^ (1 - e).
Definition fixed1 (n : Z) : string := decimal (n / 10) +:+ "." +:+ decimal (n mod 10).
Definition toFixed1 (x : double) : string :=
  match x with
  | S754_zero _ => "0.0"
  | S754_infinity s => if s then "-Infinity" else "Infinity"
  | S754_nan => "NaN"
  | S754_finite s m e => (if s then "-" else "") +:+ fixed1 (tenths m e)
  end.

(** ** No [NaN] from numbers *)
Definition is_nan (x : double) : bool := match x with S754_nan => true | _ => false end.

Lemma shr_1_nonneg r : 0 ≤ shr_m r → 0 ≤ shr_m (shr_1 r).
Proof. destruct r as [[|[p|p|]|[p|p|]] a b]; cbn; lia. Qed.
Lemma iter_shr_nonneg p r : 0 ≤ shr_m r → 0 ≤ shr_m (SpecFloat.iter_pos shr_1 p r).
Proof. revert r. induction p as [p IH|p IH|]; intros r Hr; cbn; [| |by apply shr_1_nonneg]; auto using shr_1_nonneg. Qed.
Lemma shr_fexp_nonneg m e l : 0 ≤ m → 0 ≤ shr_m (shr_fexp 53 1024 m e l).1.
Proof.
  intros Hm. unfold shr_fexp, shr. assert (0 ≤ shr_m (shr_record_of_loc m l)) as Hr by (by destruct l as [|[]]).
  destruct (_ - _); cbn [fst]; [done|by apply iter_shr_nonneg|done].
Qed.
Lemma round_even_nonneg m l : 0 ≤ m → 0 ≤ round_nearest_even m l.
Proof. intros Hm. destruct l as [|[]]; cbn [round_nearest_even]; try lia. destruct (Z.even m); lia. Qed.
Lemma round_aux_number s m e l : 0 ≤ m → is_nan (binary_round_aux 53 1024 s m e l) = false.
Proof.
  intros Hm. unfold binary_round_aux. pose proof (shr_fexp_nonneg m e l Hm) as H1.
  destruct (shr_fexp 53 1024 m e l) as [r1 e1]. cbn [fst] in H1.
  pose proof (shr_fexp_nonneg (round_nearest_even (shr_m r1) (loc_of_shr_record r1)) e1 loc_Exact (round_even_nonneg _ _ H1)) as H2.
  destruct (shr_fexp 53 1024 _ e1 loc_Exact) as [r2 e2]. cbn [fst] in H2. destruct (shr_m r2); [done|by destruct (_ <=? _)|lia].
Qed.
Lemma of_int_number n : is_nan (of_int n) = false.
Proof.
  unfold of_int, binary_normalize, binary_round. destruct n as [|p|p]; [done|..];
    destruct (shl_align p 0 _); by apply round_aux_number.
Qed.

Example half_up : Math_round (d_div (of_int 5) (of_int 2)) = Int 3 ∧ Math_round (d_div (of_int (-5)) (of_int 2)) = Int (-2).
Proof. by vm_compute. Qed.
Example tenth_up : toFixed1 (d_div (of_int 1) (of_int 3)) = "0.3" ∧ toFixed1 (d_div (of_int (-25)) (of_int 2)) = "-12.5".
Proof. by vm_compute. Qed.
