(* ===== verification/IndexerGovernor.v ===== *)
(** * Indexer: the governor's events

    The handlers of [packages/indexer/src/events.ts] for proposals, votes,
    configuration, upgrades, reputation and thresholds, and the periodic
    snapshot of votes.  Each handler decodes the event, runs its statements in
    order, evicts cache entries and broadcasts. *)

From S2P Require Import Prelude JsValues Cache IndexerDb IndexerWorld.

Section governor.
Context `{Runtime}.
Implicit Types (event : EventResponse) (topics : list JsValue) (d : Db).

(** ** Proposals *)
Definition insert_proposal (id proposer description description_hash start_ledger end_ledger : JsValue) : Stmt := λ d,
  id ← BIGINT id; proposer ← TEXT proposer; description ← TEXT description;
  description_hash ← nullable TEXT description_hash;
  start_ledger ← INTEGER start_ledger; end_ledger ← INTEGER end_ledger;
  Some (d <| proposals ::= (insert_new id
    (mkProposalRow proposer description description_hash start_ledger end_ledger 0 0 0 false false false)) |>).

(** The fields of a [ProposalCreated] event, from the legacy tuple or the struct. *)
Definition decode_proposal_created event topics :
    M World (JsValue * JsValue * string * option string * JsValue * JsValue) :=
  let raw := ev_value event in
  match raw with
  | VArr l =>
    mret (nth_value l 0, nth_value topics 1, js_String (nth_value l 1 ?? VStr ""), None,
          nth_value l 5, nth_value l 6)
  | _ =>
    id ← prop raw "proposal_id";
    proposer ← prop raw "proposer";
    description ← prop raw "description";
    hash ← prop raw "description_hash";
    descriptionHash ← (if truthy hash then Some <$> buffer_hex hash else mret None);
    start ← prop raw "start_ledger";
    end_ ← prop raw "end_ledger";
    mret (id, VStr (js_String (proposer ?? VStr "")), js_String (description ?? VStr ""),
          descriptionHash, js_Number start, js_Number end_)
  end.

Definition handleProposalCreated event topics : M World unit :=
  '(id, proposer, description, descriptionHash, startLedger, endLedger) ← decode_proposal_created event topics;
  evict_prefix "proposals:";;
  query (insert_proposal (VStr (js_String id)) proposer (VStr description) (opt_text descriptionHash)
    startLedger endLedger);;
  evict ["profile:" +:+ js_String proposer];;
  broadcast "proposal_created"
    [("id", VStr (js_String id)); ("proposer", proposer); ("description", VStr description);
     ("start_ledger", startLedger); ("end_ledger", endLedger)].

(** [UPDATE proposals SET ... WHERE id = $n] *)
Definition update_proposal_row (f : ProposalRow → ProposalRow) (id : JsValue) : Stmt := λ d,
  id ← BIGINT id; Some (d <| proposals ::= (alter f id) |>).

(** The three handlers share their last three effects. *)
Definition announce (type id : string) : M World unit :=
  evict ["proposal_votes:" +:+ id];;
  evict_prefix "proposals:";;
  broadcast type [("proposal_id", VStr id)].

Definition handleProposalQueued topics : M World unit :=
  let proposalId := js_String (nth_value topics 1) in
  query (update_proposal_row (λ r, r <| pr_queued := true |>) (VStr proposalId));;
  announce "proposal_queued" proposalId.

Definition handleProposalExecuted topics : M World unit :=
  let proposalId := js_String (nth_value topics 1) in
  query (update_proposal_row (λ r, r <| pr_executed := true |>) (VStr proposalId));;
  announce "proposal_executed" proposalId.

(** [data[0]], [data.get("proposal_id")] or [data?.proposal_id] *)
Definition cancelled_proposal_id (data : JsValue) : JsValue :=
  match data with
  | VArr l => nth_value l 0
  | VMap es => field "proposal_id" es
  | VObj fields => field "proposal_id" fields
  | _ => VUndefined
  end.

Definition handleProposalCancelled event : M World unit :=
  let proposalId := cancelled_proposal_id (ev_value event) in
  throw_if (is_undefined proposalId) (PlainError "ProposalCancelled event is missing proposal_id");;
  let id := js_String proposalId in
  query (update_proposal_row (λ r, r <| pr_cancelled := true |>) (VStr id));;
  announce "proposal_cancelled" id.

(** ** Votes *)
Definition upsert_vote (proposal_id voter support weight reason ledger : JsValue) : Stmt := λ d,
  proposal_id ← BIGINT proposal_id; voter ← TEXT voter; support ← SMALLINT support;
  weight ← BIGINT weight; reason ← nullable TEXT reason; ledger ← INTEGER ledger;
  match jm_get (proposal_id, voter) (votes d) with
  | Some old =>
    Some (d <| votes ::= (jm_set (proposal_id, voter)
      (mkVoteRow support weight (match reason with Some r => Some r | None => vt_reason old end)
         (vt_ledger old))) |>)
  | None =>
    _ ← proposals d !! proposal_id;
    Some (d <| votes ::= (jm_set (proposal_id, voter) (mkVoteRow support weight reason ledger)) |>)
  end.

Inductive TallyColumn := votes_for | votes_against | votes_abstain.
(** [support === 1 ? "votes_for" : support === 0 ? "votes_against" : "votes_abstain"] *)
Definition tally_column (support : JsValue) : TallyColumn :=
  match support with
  | VNum n => if n =? 1 then votes_for else if n =? 0 then votes_against else votes_abstain
  | _ => votes_abstain
  end.
Definition tally (col : TallyColumn) (r : ProposalRow) : Z :=
  match col with
  | votes_for => pr_votes_for r | votes_against => pr_votes_against r | votes_abstain => pr_votes_abstain r
  end.
Definition set_tally (col : TallyColumn) (n : Z) (r : ProposalRow) : ProposalRow :=
  match col with
  | votes_for => r <| pr_votes_for := n |>
  | votes_against => r <| pr_votes_against := n |>
  | votes_abstain => r <| pr_votes_abstain := n |>
  end.
(** [UPDATE proposals SET col = col + $1 WHERE id = $2]; the sum is a BIGINT. *)
Definition add_to_tally (col : TallyColumn) (weight id : JsValue) : Stmt := λ d,
  weight ← BIGINT weight; id ← BIGINT id;
  match proposals d !! id with
  | Some r =>
    n ← BIGINT (VNum (tally col r + weight));
    Some (d <| proposals ::= (<[id := set_tally col n r]>) |>)
  | None => Some d
  end.

Definition handleVoteCast event topics (withReason : bool) : M World unit :=
  let voter := nth_value topics 1 in
  let data := ev_value event in
  d0 ← item data 0;
  let proposalId := js_String d0 in
  d1 ← item data 1;
  let support := js_Number d1 in
  w ← item data (if withReason then 3%nat else 2%nat);
  let weight := js_String w in
  reason ← (if withReason then Some ∘ js_String <$> item data 2 else mret None);
  query (upsert_vote (VStr proposalId) voter support (VStr weight) (opt_text reason) (ledger_value event));;
  query (add_to_tally (tally_column support) (VStr weight) (VStr proposalId));;
  evict ["proposal_votes:" +:+ proposalId; "profile:" +:+ js_String voter];;
  evict_prefix "proposals:";;
  broadcast "vote_cast"
    [("proposal_id", VStr proposalId); ("voter", voter); ("support", support); ("weight", VStr weight);
     ("reason", opt_undefined reason)].

(** ** Configuration and upgrades *)
Record GovernorSettings := mkGovernorSettings {
  voting_delay : JsValue; voting_period : JsValue; quorum_numerator : JsValue;
  proposal_threshold : Z; guardian : string; voteType : Z; proposal_grace_period : JsValue;
  use_dynamic_quorum : bool; reflector_oracle : option string; min_quorum_usd : Z;
  max_calldata_size : JsValue; proposal_cooldown : JsValue; max_proposals_per_period : JsValue;
  proposal_period_duration : JsValue }.

Definition parseLedgerClosedAt (value : JsValue) : option Z :=
  match value with VStr s => if String.eqb s "" then None else parse_date s | _ => None end.

Definition toNumber (value : JsValue) : option JsValue :=
  match value with
  | VNum _ | VNaN => Some value
  | VBig _ => Some (js_Number value)
  | VStr s =>
    if String.eqb s "" then None
    else match js_Number value with VNaN => None | n => Some n end
  | _ => None
  end.

(** [bigint], or what is truthy, through [Number] *)
Definition threshold_number (v : JsValue) : option JsValue :=
  match v with
  | VBig _ => Some (js_Number v)
  | _ => if truthy v then Some (js_Number v) else None
  end.

Definition toGovernorSettings (value : JsValue) : M World (option GovernorSettings) :=
  match value with
  | VObj obj =>
    match toNumber (field "voting_delay" obj), toNumber (field "voting_period" obj),
          toNumber (field "quorum_numerator" obj), threshold_number (field "proposal_threshold" obj),
          toNumber (field "proposal_grace_period" obj) with
    | Some votingDelay, Some votingPeriod, Some quorumNumerator, Some proposalThreshold, Some gracePeriod =>
      threshold ← js_BigInt proposalThreshold;
      let oracle := field "reflector_oracle" obj in
      let usd := field "min_quorum_usd" obj in
      min_usd ← (if truthy usd then js_BigInt (js_Number usd) else mret 0);
      mret (Some {|
        voting_delay := votingDelay; voting_period := votingPeriod; quorum_numerator := quorumNumerator;
        proposal_threshold := threshold;
        guardian := js_String (field "guardian" obj ?? VStr "");
        voteType := 0;
        proposal_grace_period := gracePeriod;
        use_dynamic_quorum := truthy (field "use_dynamic_quorum" obj);
        reflector_oracle := if nullish oracle then None else Some (js_String oracle);
        min_quorum_usd := min_usd;
        max_calldata_size := default (VNum 10000) (toNumber (field "max_calldata_size" obj));
        proposal_cooldown := default (VNum 100) (toNumber (field "proposal_cooldown" obj));
        max_proposals_per_period := default (VNum 5) (toNumber (field "max_proposals_per_period" obj));
        proposal_period_duration := default (VNum 10000) (toNumber (field "proposal_period_duration" obj)) |})
    | _, _, _, _, _ => mret None
    end
  | _ => mret None
  end.

(** The object literal as a value. *)
Definition settings_value (s : GovernorSettings) : JsValue := VObj
  [("voting_delay", voting_delay s); ("voting_period", voting_period s);
   ("quorum_numerator", quorum_numerator s); ("proposal_threshold", VBig (proposal_threshold s));
   ("guardian", VStr (guardian s)); ("voteType", VNum (voteType s));
   ("proposal_grace_period", proposal_grace_period s);
   ("use_dynamic_quorum", VBool (use_dynamic_quorum s));
   ("reflector_oracle", opt_text (reflector_oracle s)); ("min_quorum_usd", VBig (min_quorum_usd s));
   ("max_calldata_size", max_calldata_size s); ("proposal_cooldown", proposal_cooldown s);
   ("max_proposals_per_period", max_proposals_per_period s);
   ("proposal_period_duration", proposal_period_duration s)].

Definition insert_config_update (ledger old_settings new_settings : JsValue) (closed_at : option Z) : Stmt := λ d,
  ledger ← INTEGER ledger; old_settings ← nullable TEXT old_settings; new_settings ← TEXT new_settings;
  Some (d <| config_updates ::= (λ l, l ++ [mkConfigUpdateRow ledger old_settings new_settings closed_at]) |>).

Definition handleConfigUpdated event : M World unit :=
  old ← prop (ev_value event) "old_settings";
  oldSettings ← (if nullish old then mret None else toGovernorSettings old);
  new ← prop (ev_value event) "new_settings";
  newSettings ← toGovernorSettings new;
  match nullish old, oldSettings, newSettings with
  | false, None, _ => mret tt
  | _, _, None => mret tt
  | _, _, Some settings =>
    query (insert_config_update (ledger_value event)
      (match oldSettings with Some s => VStr (stringifyJson (settings_value s)) | None => VNull end)
      (VStr (stringifyJson (settings_value settings)))
      (parseLedgerClosedAt (ev_ledgerClosedAt event)))
  end.

Definition insert_governor_upgrade (ledger new_wasm_hash : JsValue) : Stmt := λ d,
  ledger ← INTEGER ledger; new_wasm_hash ← TEXT new_wasm_hash;
  Some (d <| governor_upgrades ::= (λ l, l ++ [mkUpgradeRow ledger new_wasm_hash]) |>).

Definition handleGovernorUpgraded event : M World unit :=
  newHash ← prop (ev_value event) "new_hash";
  let hashStr := match newHash with VBytes bs => to_hex bs | _ => js_String (newHash ?? VStr "") end in
  query (insert_governor_upgrade (ledger_value event) (VStr hashStr)).

(** ** Reputation and thresholds *)
Definition upsert_reputation (proposer score ledger : JsValue) : Stmt := λ d,
  proposer ← VARCHAR 56 proposer; score ← INTEGER score; ledger ← nullable INTEGER ledger;
  Some (d <| proposer_reputation ::= (<[proposer := mkReputationRow score ledger]>) |>).
Definition insert_reputation_history (proposer ledger score change reason : JsValue) : Stmt := λ d,
  proposer ← VARCHAR 56 proposer; ledger ← INTEGER ledger; score ← INTEGER score;
  change ← INTEGER change; reason ← VARCHAR 64 reason;
  Some (d <| reputation_score_history ::= (λ l, l ++ [mkReputationHistoryRow proposer ledger score change reason]) |>).

Definition handleReputationUpdated event topics : M World unit :=
  let data := ev_value event in
  p ← prop data "proposer";
  let proposer := js_String (p ?? nth_value topics 1) in
  o ← prop data "old_score";
  let oldScore := js_Number o in
  n ← prop data "new_score";
  let newScore := js_Number n in
  r ← prop data "reason";
  let reason := js_String r in
  query (upsert_reputation (VStr proposer) newScore (ledger_value event));;
  query (insert_reputation_history (VStr proposer) (ledger_value event) newScore
    (num_sub newScore oldScore) (VStr reason));;
  evict ["reputation:" +:+ proposer];;
  evict_prefix "reputation:leaderboard";;
  broadcast "reputation_updated"
    [("proposer", VStr proposer); ("old_score", oldScore); ("new_score", newScore);
     ("reason", VStr reason); ("ledger", ledger_value event)].

Definition insert_threshold (proposer ledger old_threshold new_threshold : JsValue) : Stmt := λ d,
  proposer ← VARCHAR 56 proposer; ledger ← INTEGER ledger;
  old_threshold ← ANY_NUMERIC old_threshold; new_threshold ← ANY_NUMERIC new_threshold;
  Some (d <| effective_threshold_history ::= (λ l, l ++ [mkThresholdRow proposer ledger old_threshold new_threshold]) |>).

Definition handleEffectiveThresholdChanged event topics : M World unit :=
  let data := ev_value event in
  p ← prop data "proposer";
  let proposer := js_String (p ?? nth_value topics 1) in
  o ← prop data "old_threshold";
  oldThreshold ← js_BigInt o;
  n ← prop data "new_threshold";
  newThreshold ← js_BigInt n;
  query (insert_threshold (VStr proposer) (ledger_value event) (VStr (decimal oldThreshold)) (VStr (decimal newThreshold)));;
  broadcast "effective_threshold_changed"
    [("proposer", VStr proposer); ("old_threshold", VStr (decimal oldThreshold));
     ("new_threshold", VStr (decimal newThreshold)); ("ledger", ledger_value event)].

(** ** Snapshots of the votes *)
Definition SNAPSHOT_INTERVAL_LEDGERS : Z := 100.

(** [SELECT ledger ... ORDER BY ledger DESC LIMIT 1] *)
Definition max_key {A} (m : gmap Z A) : option Z :=
  foldr (λ kv acc, Some (match acc with Some k => Z.max kv.1 k | None => kv.1 end)) None (map_to_list m).
(** [COALESCE(SUM(weight), 0)] *)
Definition total_weight d : Z := sum_list_Z ((λ kv, vt_weight kv.2) <$> votes d).

Definition insert_governance_snapshot (ledger total : JsValue) : Stmt := λ d,
  ledger ← INTEGER ledger; total ← ANY_NUMERIC total;
  Some (d <| governance_snapshots ::= (insert_new ledger total) |>).

Definition maybeTakeGovernanceSnapshot (currentLedger : Z) : M World unit :=
  last ← select (λ d, default 0 (max_key (governance_snapshots d)));
  if currentLedger - last <? SNAPSHOT_INTERVAL_LEDGERS then mret tt
  else
    total ← select total_weight;
    query (insert_governance_snapshot (VNum currentLedger) (VStr (decimal total)));;
    evict_prefix "analytics:";;
    broadcast "analytics_snapshot_taken"
      [("ledger", VNum currentLedger); ("total_votes_cast", VStr (decimal total))].
End governor.
