(* ===== verification/Concentration.v ===== *)
(** * Indexer: concentration of voting power

    [packages/indexer/src/concentration.ts]: the Gini coefficient, the Nakamoto
    coefficient and the share of the largest holders in basis points, the two
    distributions they are computed from, and the periodic snapshot.  Sorting
    is [merge_sort]: equal amounts cannot be told apart. *)

From stdpp Require Import sorting.
From S2P Require Import Prelude JsValues Cache IndexerDb IndexerWorld IndexerGovernor.

Open Scope Z_scope.

Definition BPS : Z := 10000.

(** [values.map((v) => (v > 0n ? v : 0n))] *)
Definition clamp (values : list Z) : list Z := (λ v, if 0 <? v then v else 0) <$> values.
Definition ascending (values : list Z) : list Z := merge_sort Z.le values.
Definition descending (values : list Z) : list Z := merge_sort (flip Z.le) values.
(** [xs.reduce((acc, v) => acc + v, 0n)] *)
Definition reduce_sum (xs : list Z) : Z := foldl Z.add 0 xs.

(** The loop of the Gini coefficient: [n] values in all, the next of rank [rank]. *)
Fixpoint weighted_from (n rank : Z) (xs : list Z) (weighted : Z) : Z :=
  match xs with
  | [] => weighted
  | x :: xs' => weighted_from n (rank + 1) xs' (weighted + (2 * rank - n - 1) * x)
  end.

Definition giniCoefficientBps (values : list Z) : Z :=
  let xs := ascending (clamp values) in
  let n := Z.of_nat (length xs) in
  if n <? 2 then 0
  else
    let total := reduce_sum xs in
    if total <=? 0 then 0
    else
      let weighted := weighted_from n 1 xs 0 in
      let bps := to_number (weighted * BPS ÷ᵇ (n * total)) in
      let bps := if bps <? 0 then 0 else bps in
      if 10000 <? bps then 10000 else bps.

(** [for (const v of xs) { cumulative += v; count++; if (cumulative > half) break; }] *)
Fixpoint count_until (half : Z) (xs : list Z) (cumulative count : Z) : Z :=
  match xs with
  | [] => count
  | v :: xs' =>
    let cumulative := cumulative + v in
    let count := count + 1 in
    if half <? cumulative then count else count_until half xs' cumulative count
  end.

Definition nakamotoCoefficient (values : list Z) : Z :=
  let xs := descending (clamp values) in
  let total := reduce_sum xs in
  if total <=? 0 then 0 else count_until (total ÷ᵇ 2) xs 0 0.

Definition topNShareBps (values : list Z) (n : Z) : Z :=
  if n <=? 0 then 0
  else
    let xs := descending (clamp values) in
    let total := reduce_sum xs in
    if total <=? 0 then 0
    else to_number (reduce_sum (js_slice xs 0 n) * BPS ÷ᵇ total).

Definition computeConcentrationMetrics (holderPowers delegatePowers : list Z) : ConcentrationRow := {|
  cn_total_voting_power := foldl (λ acc v, acc + (if 0 <? v then v else 0)) 0 holderPowers;
  cn_top1 := topNShareBps holderPowers 1;
  cn_top5 := topNShareBps holderPowers 5;
  cn_top10 := topNShareBps holderPowers 10;
  cn_top20 := topNShareBps holderPowers 20;
  cn_gini := giniCoefficientBps holderPowers;
  cn_nakamoto := nakamotoCoefficient holderPowers;
  cn_delegate_top5 := topNShareBps delegatePowers 5;
  cn_delegate_gini := giniCoefficientBps delegatePowers |}.

(** ** The distributions *)

(** [SELECT DISTINCT ON (k) ... ORDER BY k, ledger DESC, id DESC]: of the rows
    of each key the one of the latest ledger, of several the last inserted. *)
Definition keep_latest {A} (m : gmap string (Z * A)) (row : string * (Z * A)) : gmap string (Z * A) :=
  match m !! row.1 with
  | Some (ledger, _) => if ledger <=? row.2.1 then <[row.1 := row.2]> m else m
  | None => <[row.1 := row.2]> m
  end.
Definition distinct_latest {A} (rows : list (string * (Z * A))) : gmap string A :=
  snd <$> foldl keep_latest ∅ rows.

Definition loadHolderPowers (d : Db) : gmap string Z :=
  distinct_latest ((λ kv, (kv.1.2, (vt_ledger kv.2, vt_weight kv.2))) <$> votes d).

(** One delegator's power goes to the current delegatee. *)
Definition receive (holderPowers : gmap string Z) (delegator delegatee : string) (received : gmap string Z) : gmap string Z :=
  if String.eqb delegatee "" then received
  else
    let power := default 0 (holderPowers !! delegator) in
    if power <=? 0 then received
    else <[delegatee := default 0 (received !! delegatee) + power]> received.
Definition loadDelegatePowers (holderPowers : gmap string Z) (d : Db) : gmap string Z :=
  map_fold (receive holderPowers) ∅
    (distinct_latest ((λ r, (dg_delegator r, (dg_ledger r, dg_new_delegatee r))) <$> delegates d)).

(** [[...powers.values()]] *)
Definition map_values (m : gmap string Z) : list Z := (map_to_list m).*2.

Section snapshot.
Context `{Runtime}.

Definition insert_concentration (ledger : JsValue) (m : ConcentrationRow) : Stmt := λ d,
  ledger ← INTEGER ledger;
  total ← NUMERIC 38 (VStr (decimal (cn_total_voting_power m)));
  top1 ← INTEGER (VNum (cn_top1 m)); top5 ← INTEGER (VNum (cn_top5 m));
  top10 ← INTEGER (VNum (cn_top10 m)); top20 ← INTEGER (VNum (cn_top20 m));
  gini ← INTEGER (VNum (cn_gini m)); nakamoto ← INTEGER (VNum (cn_nakamoto m));
  dtop5 ← INTEGER (VNum (cn_delegate_top5 m)); dgini ← INTEGER (VNum (cn_delegate_gini m));
  Some (d <| concentration_snapshots ::=
    (insert_new ledger (mkConcentrationRow total top1 top5 top10 top20 gini nakamoto dtop5 dgini)) |>).

Definition maybeTakeConcentrationSnapshot (currentLedger : Z) : M World unit :=
  last ← select (λ d, default 0 (max_key (concentration_snapshots d)));
  if currentLedger - last <? SNAPSHOT_INTERVAL_LEDGERS then mret tt
  else
    holderPowers ← select loadHolderPowers;
    delegatePowers ← select (loadDelegatePowers holderPowers);
    let metrics := computeConcentrationMetrics (map_values holderPowers) (map_values delegatePowers) in
    query (insert_concentration (VNum currentLedger) metrics);;
    evict_prefix "analytics:concentration:";;
    broadcast "analytics_snapshot_taken"
      [("ledger", VNum currentLedger); ("nakamoto_coefficient", VNum (cn_nakamoto metrics));
       ("top5_share_bps", VNum (cn_top5 metrics))].
End snapshot.

(** ** Sorting and clamping *)
Lemma ascending_perm l : ascending l ≡ₚ l.
Proof. apply merge_sort_Permutation. Qed.
Lemma descending_perm l : descending l ≡ₚ l.
Proof. apply merge_sort_Permutation. Qed.
#[export] Instance Z_le_total' : Total Z.le.
Proof. intros x y. lia. Qed.
#[export] Instance Z_ge_total : Total (flip Z.le).
Proof. intros x y. unfold flip. lia. Qed.
#[export] Instance Z_ge_trans : Transitive (flip Z.le).
Proof. intros x y z. unfold flip. lia. Qed.
Lemma ascending_sorted l : StronglySorted Z.le (ascending l).
Proof. apply (StronglySorted_merge_sort Z.le). Qed.
Lemma descending_sorted l : StronglySorted (flip Z.le) (descending l).
Proof. apply (StronglySorted_merge_sort (flip Z.le)). Qed.
Lemma clamp_nonneg l : Forall (λ x, 0 ≤ x) (clamp l).
Proof. unfold clamp. apply Forall_fmap, Forall_true. intros x. cbn. destruct (Z.ltb_spec 0 x); lia. Qed.
Lemma clamp_id l : Forall (λ x, 0 ≤ x) l → clamp l = l.
Proof.
  unfold clamp. induction 1 as [|x l Hx Hl IH]; [done|]. rewrite fmap_cons, IH.
  destruct (Z.ltb_spec 0 x); f_equal; lia.
Qed.
Lemma reduce_sum_eq l : reduce_sum l = sum_list_Z l.
Proof. unfold reduce_sum. rewrite foldl_add_sum. lia. Qed.

(** ** The Gini coefficient against its definition *)

(** The sum of [|x - y|] over the pairs of values. *)
Definition spread (x : Z) (l : list Z) : Z := sum_list_Z ((λ y, Z.abs (x - y)) <$> l).
Definition total_difference (l : list Z) : Z := sum_list_Z ((λ x, spread x l) <$> l).

Lemma spread_perm x l l' : l ≡ₚ l' → spread x l = spread x l'.
Proof. intros Hp. apply sum_list_Z_perm. by rewrite Hp. Qed.
Lemma total_difference_perm l l' : l ≡ₚ l' → total_difference l = total_difference l'.
Proof.
  intros Hp. unfold total_difference.
  rewrite (sum_list_Z_perm ((λ x, spread x l) <$> l) ((λ x, spread x l) <$> l')) by (by rewrite Hp).
  f_equal. apply list_fmap_ext. intros i x _. by apply spread_perm.
Qed.
Lemma spread_cons x y l : spread x (y :: l) = Z.abs (x - y) + spread x l.
Proof. done. Qed.
Lemma total_difference_cons x l : total_difference (x :: l) = 2 * spread x l + total_difference l.
Proof.
  unfold total_difference at 1. rewrite fmap_cons. cbn [sum_list_Z]. rewrite spread_cons.
  replace (Z.abs (x - x)) with 0 by lia.
  assert (∀ k, sum_list_Z ((λ y, spread y (x :: k)) <$> l) =
               spread x l + sum_list_Z ((λ y, spread y k) <$> l)) as H.
  { intros k. induction l as [|y l IH]; [done|]. rewrite !fmap_cons. cbn [sum_list_Z].
    rewrite !spread_cons, IH. lia. }
  rewrite H. unfold total_difference. lia.
Qed.
Lemma spread_below x l : Forall (λ y, x ≤ y) l → spread x l = sum_list_Z l - Z.of_nat (length l) * x.
Proof.
  induction 1 as [|y l Hy Hl IH]; [done|]. rewrite spread_cons, IH. cbn [sum_list_Z length]. lia.
Qed.

Lemma weighted_acc n r xs acc : weighted_from n r xs acc = acc + weighted_from n r xs 0.
Proof.
  revert r acc. induction xs as [|x xs IH]; intros r acc; cbn [weighted_from]; [lia|].
  rewrite IH, (IH _ (0 + _)). lia.
Qed.
Lemma weighted_shift n r xs :
  weighted_from (n + 1) (r + 1) xs 0 = weighted_from n r xs 0 + sum_list_Z xs.
Proof.
  revert r. induction xs as [|x xs IH]; intros r; cbn [weighted_from sum_list_Z]; [lia|].
  rewrite weighted_acc, (weighted_acc n), IH. lia.
Qed.
(** Twice the weighted sum of a sorted list is the sum of all differences. *)
Lemma weighted_difference xs :
  StronglySorted Z.le xs → 2 * weighted_from (Z.of_nat (length xs)) 1 xs 0 = total_difference xs.
Proof.
  induction 1 as [|x xs Hs IH Hx]; [done|].
  rewrite total_difference_cons, spread_below by done. cbn [weighted_from length].
  rewrite weighted_acc. replace (Z.of_nat (S (length xs))) with (Z.of_nat (length xs) + 1) by lia.
  rewrite weighted_shift. lia.
Qed.
Lemma spread_nonneg x l : 0 ≤ spread x l.
Proof. apply sum_list_Z_nonneg, Forall_fmap, Forall_true. intros y. cbn. lia. Qed.
Lemma total_difference_nonneg l : 0 ≤ total_difference l.
Proof. induction l as [|x l IH]; [done|]. rewrite total_difference_cons. pose proof (spread_nonneg x l). lia. Qed.
(** No value differs from the others by more than their sum. *)
Lemma spread_le x l : 0 ≤ x → Forall (λ y, 0 ≤ y) l → spread x l ≤ Z.of_nat (length l) * x + sum_list_Z l.
Proof.
  intros Hx. induction 1 as [|y l Hy Hl IH]; [cbn; lia|]. rewrite spread_cons. cbn [length sum_list_Z]. lia.
Qed.
Lemma total_difference_le l :
  Forall (λ y, 0 ≤ y) l → total_difference l ≤ 2 * Z.max 0 (Z.of_nat (length l) - 1) * sum_list_Z l.
Proof.
  induction 1 as [|x l Hx Hl IH]; [cbn; lia|]. rewrite total_difference_cons.
  pose proof (spread_le x l Hx Hl). pose proof (sum_list_Z_nonneg l Hl). cbn [length sum_list_Z].
  destruct l as [|y l]; [cbn in *; lia|]. cbn [length] in *. nia.
Qed.

(** One value and [k] zeros. *)
Lemma zeros_difference k : total_difference (replicate k 0) = 0 ∧ sum_list_Z (replicate k 0) = 0 ∧ ∀ x, spread x (replicate k 0) = Z.of_nat k * Z.abs x.
Proof.
  induction k as [|k (IHd & IHs & IHx)]; [done|]. cbn [replicate]. split; [|split].
  - rewrite total_difference_cons, IHd, IHx. lia.
  - cbn [sum_list_Z]. lia.
  - intros x. rewrite spread_cons, IHx. lia.
Qed.

(** C14: The Gini coefficient is the mean absolute difference of the clamped
    powers over twice their mean, rounded down to basis points: the sorted
    sum the code computes equals the sum over all pairs, the clamps never
    act, and the result is strictly below 10000.  Where one of [k + 1] addresses
    owns everything it is [k * 10000 / (k + 1)], and not the 10000 the comment on
    the function names. *)
Theorem gini_is_mean_difference (values : list Z) :
  let xs := clamp values in
  let n := Z.of_nat (length xs) in
  giniCoefficientBps values =
    (if sum_list_Z xs <=? 0 then 0 else total_difference xs * 10000 / (2 * n * sum_list_Z xs)) ∧
  0 ≤ giniCoefficientBps values < 10000 ∧
  (∀ x k, 0 < x → xs ≡ₚ x :: replicate k 0 → giniCoefficientBps values = Z.of_nat k * 10000 / (Z.of_nat k + 1)).
Proof.
  intros xs n.
  assert (giniCoefficientBps values =
    (if sum_list_Z xs <=? 0 then 0 else total_difference xs * 10000 / (2 * n * sum_list_Z xs)) ∧
    0 ≤ giniCoefficientBps values < 10000) as [Heq Hrange].
  2: { split; [exact Heq|]. split; [exact Hrange|]. intros x k Hx Hp. destruct (zeros_difference k) as (Hd & Hs & Hsp).
    rewrite Heq, (sum_list_Z_perm _ _ Hp), (total_difference_perm _ _ Hp), total_difference_cons, Hd, Hsp. subst n.
    rewrite (Permutation_length Hp). cbn [sum_list_Z length]. rewrite length_replicate, Hs.
    destruct (Z.leb_spec (x + 0) 0); [lia|].
    replace ((2 * (Z.of_nat k * Z.abs x) + 0) * 10000) with (Z.of_nat k * 10000 * (2 * x)) by lia.
    replace (2 * Z.of_nat (S k) * (x + 0)) with ((Z.of_nat k + 1) * (2 * x)) by lia.
    by rewrite Z.div_mul_cancel_r by lia. }
  unfold giniCoefficientBps, BPS.
  assert (length (ascending (clamp values)) = length xs) as Hlen.
  { by rewrite (Permutation_length (ascending_perm _)). }
  rewrite reduce_sum_eq, (sum_list_Z_perm _ _ (ascending_perm _)), Hlen.
  fold xs. fold n. pose proof (clamp_nonneg values) as Hpos. fold xs in Hpos.
  pose proof (weighted_difference _ (ascending_sorted (clamp values))) as Hw.
  rewrite Hlen, (total_difference_perm _ _ (ascending_perm _)) in Hw. fold xs n in Hw.
  set (w := weighted_from n 1 (ascending xs) 0) in *.
  pose proof (total_difference_nonneg xs) as Hd0. pose proof (total_difference_le xs Hpos) as Hd1.
  destruct (Z.ltb_spec n 2) as [Hn|Hn].
  { split; [|lia]. destruct (Z.leb_spec (sum_list_Z xs) 0); [done|].
    replace (total_difference xs) with 0 by (subst n; nia). by rewrite Z.mul_0_l, Zdiv_0_l. }
  destruct (Z.leb_spec (sum_list_Z xs) 0) as [Ht|Ht]; [split; [done|lia]|].
  set (t := sum_list_Z xs) in *. replace (Z.max 0 (Z.of_nat (length xs) - 1)) with (n - 1) in Hd1 by lia.
  assert (0 < n * t) as Hnt by nia.
  rewrite quot_div_nonneg by nia.
  assert (0 ≤ w * 10000 / (n * t) < 10000) as [H0 H1].
  { assert (w ≤ n * t - t) by lia.
    split; [apply Z.div_pos; lia|]. apply Z.div_lt_upper_bound; lia. }
  rewrite to_number_exact by lia.
  replace (w * 10000 / (n * t) <? 0) with false by lia.
  replace (10000 <? w * 10000 / (n * t)) with false by lia.
  split; [|lia]. replace (2 * n * t) with (2 * (n * t)) by lia.
  replace (total_difference xs * 10000) with (2 * (w * 10000)) by lia.
  by rewrite Z.div_mul_cancel_l by lia.
Qed.

(** ** The largest holders *)

(** Whatever group of at most [k] values one takes, the [k] largest have as much. *)
Lemma top_is_largest (l S : list Z) (k : nat) :
  StronglySorted (flip Z.le) l → Forall (λ x, 0 ≤ x) l → S ⊆+ l → (length S ≤ k)%nat →
  sum_list_Z S ≤ sum_list_Z (take k l).
Proof.
  intros Hs. revert S k. induction Hs as [|x l Hs IH Hx]; intros S k Hpos Hsub Hlen.
  { apply submseteq_nil_r in Hsub as ->. by rewrite take_nil. }
  apply Forall_cons in Hpos as [Hx0 Hpos].
  assert (∀ j, sum_list_Z (take j l) ≤ sum_list_Z (take j (x :: l))) as Htake.
  { intros [|j]; [apply Z.le_refl|]. cbn [take sum_list_Z].
    destruct (l !! j) as [y|] eqn:Hy.
    - rewrite (take_S_r _ _ y Hy), sum_list_Z_app. cbn [sum_list_Z].
      rewrite Forall_lookup in Hx. specialize (Hx j y Hy). unfold flip in Hx. lia.
    - apply lookup_ge_None in Hy. rewrite !take_ge by lia. lia. }
  apply submseteq_cons_r in Hsub as [Hsub|(S' & HS & Hsub)].
  - etransitivity; [by apply (IH S k)|apply Htake].
  - rewrite (sum_list_Z_perm _ _ HS). rewrite (Permutation_length HS) in Hlen. cbn [length] in Hlen.
    destruct k as [|k]; [lia|]. cbn [take sum_list_Z].
    specialize (IH S' k Hpos Hsub ltac:(lia)). lia.
Qed.

Lemma count_until_spec half xs cum count :
  0 ≤ half - cum → half < cum + sum_list_Z xs → Forall (λ x, 0 ≤ x) xs →
  ∃ k : nat, count_until half xs cum count = count + Z.of_nat k ∧ (1 ≤ k ≤ length xs)%nat ∧
    half < cum + sum_list_Z (take k xs) ∧ cum + sum_list_Z (take (k - 1) xs) ≤ half.
Proof.
  revert cum count. induction xs as [|x xs IH]; intros cum count Hc Ht Hpos.
  { cbn in Ht. lia. }
  apply Forall_cons in Hpos as [Hx Hpos]. cbn [sum_list_Z] in Ht. cbn [count_until].
  destruct (Z.ltb_spec half (cum + x)) as [Hl|Hl].
  - exists 1%nat. cbn [take sum_list_Z length Nat.sub]. split; [lia|]. split; [lia|]. rewrite take_0. cbn [sum_list_Z]. split; lia.
  - destruct (IH (cum + x) (count + 1)) as (k & -> & Hk & H1 & H2); [lia|lia|done|].
    exists (S k). cbn [length take sum_list_Z]. split; [lia|]. split; [lia|]. split; [lia|].
    destruct k as [|k]; [lia|]. cbn [take sum_list_Z Nat.sub] in *. rewrite Nat.sub_0_r in H2. lia.
Qed.

(** The Nakamoto coefficient is the size of the smallest group of holders
    with more than half of all voting power: some group of that size has it
    and no smaller group does; it is zero exactly when nobody has power. *)
Theorem nakamoto_is_minimal (values : list Z) :
  let xs := clamp values in
  let total := sum_list_Z xs in
  let k := nakamotoCoefficient values in
  (total ≤ 0 → k = 0) ∧
  (0 < total →
    (∃ S, S ⊆+ xs ∧ Z.of_nat (length S) = k ∧ total < 2 * sum_list_Z S) ∧
    (∀ S, S ⊆+ xs → Z.of_nat (length S) < k → 2 * sum_list_Z S ≤ total)).
Proof.
  intros xs total k. unfold k, nakamotoCoefficient.
  rewrite reduce_sum_eq, (sum_list_Z_perm _ _ (descending_perm _)). fold xs total.
  split; [intros Ht; by destruct (Z.leb_spec total 0); [|lia]|]. intros Ht.
  destruct (Z.leb_spec total 0); [lia|].
  set (ds := descending xs).
  assert (ds ≡ₚ xs) as Hperm by apply descending_perm.
  assert (Forall (λ x, 0 ≤ x) ds) as Hpos by (rewrite Hperm; apply clamp_nonneg).
  pose proof (descending_sorted xs) as Hs. fold ds in Hs.
  rewrite quot_div_nonneg by lia. pose proof (Z.div_mod total 2 ltac:(lia)). pose proof (Z.mod_pos_bound total 2 ltac:(lia)).
  assert (sum_list_Z ds = total) as Hsum by (by apply sum_list_Z_perm).
  destruct (count_until_spec (total / 2) ds 0 0) as (n & -> & Hn & Hmore & Hless); [lia|lia|done|].
  split.
  - exists (take n ds). split; [rewrite <- Hperm; apply sublist_submseteq, sublist_take|].
    rewrite length_take. split; [lia|]. lia.
  - intros S HS Hlen. rewrite <- Hperm in HS.
    pose proof (top_is_largest ds S (n - 1) Hs Hpos HS ltac:(lia)). lia.
Qed.

(** The share of the top [n] is the largest share any [n] holders have
    together, rounded down to basis points; it grows with [n] and is at most
    10000, which it reaches once [n] covers all holders. *)
Theorem top_n_share_is_largest (values : list Z) (n : Z) :
  let xs := clamp values in
  let total := sum_list_Z xs in
  0 < n → 0 < total →
  (∃ S, S ⊆+ xs ∧ Z.of_nat (length S) ≤ n ∧ topNShareBps values n = sum_list_Z S * 10000 / total) ∧
  (∀ S, S ⊆+ xs → Z.of_nat (length S) ≤ n → sum_list_Z S * 10000 / total ≤ topNShareBps values n) ∧
  0 ≤ topNShareBps values n ≤ 10000 ∧
  (∀ m, n ≤ m → topNShareBps values n ≤ topNShareBps values m) ∧
  (Z.of_nat (length xs) ≤ n → topNShareBps values n = 10000).
Proof.
  intros xs total Hn Ht.
  set (ds := descending xs).
  assert (ds ≡ₚ xs) as Hperm by apply descending_perm.
  assert (Forall (λ x, 0 ≤ x) ds) as Hpos by (rewrite Hperm; apply clamp_nonneg).
  pose proof (descending_sorted xs) as Hs. fold ds in Hs.
  assert (sum_list_Z ds = total) as Hsum by (by apply sum_list_Z_perm).
  set (top k := sum_list_Z (take (Z.to_nat k) ds)).
  assert (∀ k, 0 ≤ top k ≤ total) as Htop.
  { intros k. subst top. cbn beta.
    assert (sum_list_Z (take (Z.to_nat k) ds ++ drop (Z.to_nat k) ds) = total) as Hsplit by (by rewrite take_drop).
    rewrite sum_list_Z_app in Hsplit.
    assert (0 ≤ sum_list_Z (drop (Z.to_nat k) ds)) by (by apply sum_list_Z_nonneg, Forall_drop).
    assert (0 ≤ sum_list_Z (take (Z.to_nat k) ds)) by (by apply sum_list_Z_nonneg, Forall_take). lia. }
  assert (∀ k, 0 < k → topNShareBps values k = top k * 10000 / total) as Hshare.
  { intros k Hk. unfold topNShareBps. destruct (Z.leb_spec k 0); [lia|].
    rewrite !reduce_sum_eq. fold xs ds. rewrite Hsum. destruct (Z.leb_spec total 0); [lia|].
    assert (sum_list_Z (js_slice ds 0 k) = top k) as ->.
    { unfold top. rewrite js_slice_prefix by lia. done. }
    specialize (Htop k). rewrite quot_div_nonneg by (unfold BPS; lia). unfold BPS.
    rewrite to_number_exact; [done|].
    assert (0 ≤ top k * 10000 / total) by (apply Z.div_pos; lia).
    assert (top k * 10000 / total ≤ 10000) by (apply Z.div_le_upper_bound; lia). lia. }
  assert (∀ S k, S ⊆+ xs → Z.of_nat (length S) ≤ k → sum_list_Z S ≤ top k) as Hbest.
  { intros S k HS Hlen. rewrite <- Hperm in HS. apply (top_is_largest ds); [done..|lia]. }
  assert (∀ k, take (Z.to_nat k) ds ⊆+ xs) as Htake.
  { intros k. rewrite <- Hperm. apply sublist_submseteq, sublist_take. }
  rewrite Hshare by lia. split; [|split; [|split; [|split]]].
  - exists (take (Z.to_nat n) ds). split; [apply Htake|]. rewrite length_take. split; [lia|done].
  - intros S HS Hlen. apply Z.div_le_mono; [lia|]. specialize (Hbest S n HS Hlen). lia.
  - specialize (Htop n). split; [apply Z.div_pos; lia|apply Z.div_le_upper_bound; lia].
  - intros m Hm. rewrite Hshare by lia. apply Z.div_le_mono; [lia|].
    enough (top n ≤ top m) by lia. apply Hbest; [apply Htake|]. rewrite length_take. pose proof (Nat.le_min_l (Z.to_nat n) (length ds)). lia.
  - intros Hall. assert (top n = total) as ->; [|by rewrite Z.mul_comm, Z.div_mul by lia].
    subst top. cbn beta. rewrite take_ge; [done|]. rewrite (Permutation_length Hperm). lia.
Qed.

(** ** Delegated power *)
Lemma receive_sum hp k e (r : gmap string Z) :
  map_sum (λ _ v, v) (receive hp k e r) ≤ map_sum (λ _ v, v) r + Z.max 0 (default 0 (hp !! k)).
Proof.
  unfold receive. destruct (String.eqb e ""); [lia|]. destruct (Z.leb_spec (default 0 (hp !! k)) 0); [lia|].
  rewrite map_sum_insert. unfold at_key. destruct (r !! e); cbn [from_option id]; lia.
Qed.

(** The power delegates receive is at most the power holders have, since
    each delegator counts for one delegatee. *)
Theorem delegate_powers_bounded (holderPowers : gmap string Z) (d : Db) :
  map_sum (λ _ v, v) (loadDelegatePowers holderPowers d) ≤ map_sum (λ _ v, Z.max 0 v) holderPowers.
Proof.
  unfold loadDelegatePowers. generalize (distinct_latest ((λ r, (dg_delegator r, (dg_ledger r, dg_new_delegatee r))) <$> delegates d)).
  intros m. set (f k := Z.max 0 (default 0 (holderPowers !! k))).
  transitivity (map_sum (λ k _, f k) m).
  - apply (map_fold_weak_ind (λ r m, map_sum (λ _ v, v) r ≤ map_sum (λ k _, f k) m)).
    { by rewrite !map_sum_empty. }
    intros k e m' r Hk IH. rewrite map_sum_insert_new by done.
    pose proof (receive_sum holderPowers k e r). unfold f in *. lia.
  - etransitivity; [apply (map_sum_sub f m holderPowers)|].
    + intros k. subst f. cbn beta. lia.
    + intros k Hk. subst f. cbn beta. by rewrite Hk.
    + apply map_sum_le. intros k x Hk. subst f. cbn beta. by rewrite Hk.
Qed.

Lemma top_n_share_is_largest_witness :
  0 < sum_list_Z (clamp [50; -3; 30; 20]) ∧ topNShareBps [50; -3; 30; 20] 2 = 8000 ∧
  0 ≤ topNShareBps [50; -3; 30; 20] 2 ≤ 10000.
Proof.
  split; [reflexivity|]. split; [vm_compute; reflexivity|].
  destruct (top_n_share_is_largest [50; -3; 30; 20] 2) as (_ & _ & Hb & _); [lia|reflexivity|exact Hb].
Defined.
