(* ===== verification/IndexerDelegation.v ===== *)
(** * Indexer: delegation, wrapper and co-sponsorship events

    The handlers of [packages/indexer/src/events.ts] for delegation of every
    kind (registry, split, by signature), relayers, wrapper deposits and
    withdrawals, drafts and their sponsors, proposal bonds and result anchors. *)

From S2P Require Import Prelude JsValues Cache IndexerDb IndexerWorld.

Section delegation.
Context `{Runtime}.
Implicit Types (event : EventResponse) (topics : list JsValue) (d : Db).

(** ** Delegation *)
Definition insert_delegate (delegator old_delegatee new_delegatee ledger : JsValue) : Stmt := λ d,
  delegator ← TEXT delegator; old_delegatee ← TEXT old_delegatee; new_delegatee ← TEXT new_delegatee;
  ledger ← INTEGER ledger;
  Some (d <| delegates ::= (λ l, l ++ [mkDelegateRow delegator old_delegatee new_delegatee ledger]) |>).

Definition handleDelegateChanged event topics : M World unit :=
  let delegator := nth_value topics 1 in
  data ← iterate (ev_value event);
  let oldDelegatee := nth_value data 0 in
  let newDelegatee := nth_value data 1 in
  query (insert_delegate delegator oldDelegatee newDelegatee (ledger_value event));;
  evict_prefix "delegates:";;
  evict ["profile:" +:+ js_String delegator];;
  broadcast "delegate_changed"
    [("delegator", delegator); ("old_delegatee", oldDelegatee); ("new_delegatee", newDelegatee);
     ("ledger", ledger_value event)].

Definition insert_delegation_entry (delegator delegatee ledger power depth : JsValue) : Stmt := λ d,
  delegator ← VARCHAR 56 delegator; delegatee ← VARCHAR 56 delegatee; ledger ← INTEGER ledger;
  power ← ANY_NUMERIC power; depth ← INTEGER depth;
  Some (d <| delegation_entries ::=
    (λ l, l ++ [mkDelegationEntryRow delegator delegatee ledger None power depth true]) |>).

Definition handleDelegationRegistered event topics : M World unit :=
  let delegator := nth_value topics 1 in
  data ← iterate (ev_value event);
  let delegatee := nth_value data 0 in
  let power := VStr (js_String (nth_value data 1)) in
  let chainDepth := nth_value data 2 in
  query (insert_delegation_entry delegator delegatee (ledger_value event) power chainDepth);;
  evict_prefix "delegates:";;
  evict ["profile:" +:+ js_String delegator; "profile:" +:+ js_String delegatee];;
  broadcast "delegation_registered"
    [("delegator", delegator); ("delegatee", delegatee); ("power", power);
     ("chain_depth", chainDepth); ("ledger", ledger_value event)].

(** The rows of [WHERE delegator_address = $1 AND delegatee_address = $2 AND active = TRUE] *)
Definition entry_between (delegator delegatee : option string) (r : DelegationEntryRow) : bool :=
  bool_decide (Some (de_delegator r) = delegator) && bool_decide (Some (de_delegatee r) = delegatee) && de_active r.

Definition revoke_entries (delegator delegatee at_ledger : JsValue) : Stmt := λ d,
  at_ledger ← nullable INTEGER at_ledger;
  Some (d <| delegation_entries ::= (fmap (λ r,
    if entry_between (pg_text delegator) (pg_text delegatee) r
    then r <| de_active := false |> <| de_revoked_at_ledger := at_ledger |> else r)) |>).

Definition handleDelegationRevoked event topics : M World unit :=
  let delegator := nth_value topics 1 in
  data ← iterate (ev_value event);
  let previousDelegatee := nth_value data 0 in
  let atLedger := nth_value data 1 in
  query (revoke_entries delegator previousDelegatee atLedger);;
  evict_prefix "delegates:";;
  evict ["profile:" +:+ js_String delegator; "profile:" +:+ js_String previousDelegatee];;
  broadcast "delegation_revoked"
    [("delegator", delegator); ("previous_delegatee", previousDelegatee); ("ledger", atLedger)].

Definition handleDelegationDepthLimitUpdated event : M World unit :=
  data ← iterate (ev_value event);
  broadcast "delegation_depth_limit_updated"
    [("old_limit", nth_value data 0); ("new_limit", nth_value data 1); ("ledger", ledger_value event)].

(** ** Split delegation *)
Definition deactivate_splits (delegator : JsValue) : Stmt := λ d,
  Some (d <| split_delegations ::= (fmap (λ r,
    if bool_decide (Some (sd_delegator r) = pg_text delegator) && sd_active r then r <| sd_active := false |> else r)) |>).

(** [SELECT power_at_delegation ... ORDER BY id DESC LIMIT 1], as the driver
    returns a NUMERIC: its text. *)
Definition latest_power (delegator delegatee : JsValue) d : option JsValue :=
  (λ r, VStr (decimal (de_power r))) <$>
  last (base.filter (λ r, entry_between (pg_text delegator) (pg_text delegatee) r = true) (delegation_entries d)).

Definition insert_split (delegator delegatee weight_bps power : JsValue) : Stmt := λ d,
  delegator ← VARCHAR 56 delegator; delegatee ← VARCHAR 56 delegatee; weight_bps ← INTEGER weight_bps;
  power ← NUMERIC 38 power;
  Some (d <| split_delegations ::= (λ l, l ++ [mkSplitDelegationRow delegator delegatee weight_bps power true]) |>).

Definition record_split (delegator entry : JsValue) : M World unit :=
  delegatee ← prop entry "delegatee";
  powerResult ← select (latest_power delegator delegatee);
  weight_bps ← prop entry "weight_bps";
  query (insert_split delegator delegatee weight_bps (default (VStr "0") powerResult)).

Definition handleSplitDelegated event topics : M World unit :=
  let delegator := nth_value topics 1 in
  let splits := ev_value event in
  query (deactivate_splits delegator);;
  entries ← iterate splits;
  for_each (record_split delegator) entries;;
  evict_prefix "delegates:";;
  evict_prefix "split-delegations:";;
  evict ["profile:" +:+ js_String delegator];;
  broadcast "split_delegated" [("delegator", delegator); ("splits", splits); ("ledger", ledger_value event)].

Definition handleSplitUndelegated event topics : M World unit :=
  let delegator := nth_value topics 1 in
  query (deactivate_splits delegator);;
  evict_prefix "delegates:";;
  evict_prefix "split-delegations:";;
  evict ["profile:" +:+ js_String delegator];;
  broadcast "split_undelegated" [("delegator", delegator); ("ledger", ledger_value event)].

(** ** Signed delegation and relayers *)
Definition insert_by_sig (delegator delegatee relayer nonce ledger : JsValue) : Stmt := λ d,
  delegator ← VARCHAR 56 delegator; delegatee ← VARCHAR 56 delegatee; relayer ← VARCHAR 56 relayer;
  nonce ← ANY_NUMERIC nonce; ledger ← INTEGER ledger;
  Some (d <| delegated_by_sig_events ::= (λ l, l ++ [mkBySigRow delegator delegatee relayer nonce ledger]) |>).

Definition handleDelegatedBySig event topics : M World unit :=
  let delegator := nth_value topics 1 in
  let data := ev_value event in
  n ← prop data "nonce";
  let nonce := VStr (js_String n) in
  delegatee ← prop data "delegatee";
  relayer ← prop data "relayer";
  query (insert_by_sig delegator delegatee relayer nonce (ledger_value event));;
  evict_prefix "delegations_by_sig:";;
  broadcast "delegated_by_sig"
    [("delegator", delegator); ("delegatee", delegatee); ("relayer", relayer); ("nonce", nonce);
     ("ledger", ledger_value event)].

Definition handlePermitsInvalidated event topics : M World unit :=
  let delegator := nth_value topics 1 in
  n ← prop (ev_value event) "new_nonce";
  broadcast "permits_invalidated"
    [("delegator", delegator); ("new_nonce", VStr (js_String n)); ("ledger", ledger_value event)].

Definition insert_relayer (relayer whitelisted ledger : JsValue) : Stmt := λ d,
  relayer ← VARCHAR 56 relayer; whitelisted ← BOOLEAN whitelisted; ledger ← INTEGER ledger;
  Some (d <| relayer_whitelist_history ::= (λ l, l ++ [mkRelayerRow relayer whitelisted ledger]) |>).

Definition handleRelayerWhitelistUpdated event topics : M World unit :=
  let relayer := nth_value topics 1 in
  whitelisted ← prop (ev_value event) "whitelisted";
  query (insert_relayer relayer whitelisted (ledger_value event));;
  evict_prefix "relayers:";;
  broadcast "relayer_whitelist_updated"
    [("relayer", relayer); ("whitelisted", whitelisted); ("ledger", ledger_value event)].

(** ** The token wrapper *)
Definition wrapper_row (account amount ledger : JsValue) : option WrapperRow :=
  account ← TEXT account; amount ← BIGINT amount; ledger ← INTEGER ledger;
  Some (mkWrapperRow account amount ledger).
Definition insert_wrapper_deposit (account amount ledger : JsValue) : Stmt := λ d,
  row ← wrapper_row account amount ledger; Some (d <| wrapper_deposits ::= (λ l, l ++ [row]) |>).
Definition insert_wrapper_withdrawal (account amount ledger : JsValue) : Stmt := λ d,
  row ← wrapper_row account amount ledger; Some (d <| wrapper_withdrawals ::= (λ l, l ++ [row]) |>).

Definition handleWrapperDeposit event topics : M World unit :=
  let account := nth_value topics 1 in
  a ← item (ev_value event) 1;
  let amount := VStr (js_String a) in
  query (insert_wrapper_deposit account amount (ledger_value event));;
  evict ["profile:" +:+ js_String account];;
  broadcast "wrapper_deposit" [("account", account); ("amount", amount); ("ledger", ledger_value event)].

Definition handleWrapperWithdraw event topics : M World unit :=
  let account := nth_value topics 1 in
  a ← item (ev_value event) 1;
  let amount := VStr (js_String a) in
  query (insert_wrapper_withdrawal account amount (ledger_value event));;
  evict ["profile:" +:+ js_String account];;
  broadcast "wrapper_withdrawal" [("account", account); ("amount", amount); ("ledger", ledger_value event)].

(** ** Drafts *)
Definition insert_draft (draft_id creator hash uri created expiry : JsValue) : Stmt := λ d,
  draft_id ← BIGINT draft_id; creator ← VARCHAR 56 creator; hash ← nullable TEXT hash; uri ← nullable TEXT uri;
  created ← INTEGER created; expiry ← INTEGER expiry;
  Some (d <| drafts ::= (insert_new draft_id
    (mkDraftRow creator hash uri created expiry 0 false false false None)) |>).

Definition handleDraftCreated event topics : M World unit :=
  let creator := nth_value topics 1 in
  let data := ev_value event in
  i ← prop data "draft_id";
  let draftId := js_String i in
  hash ← prop data "description_hash";
  descriptionHash ← (if truthy hash then Some <$> buffer_hex hash else mret None);
  uri ← prop data "metadata_uri";
  let metadataUri := uri ?? VNull in
  created ← prop data "created_ledger";
  expiry ← prop data "expiry_ledger";
  query (insert_draft (VStr draftId) creator (opt_text descriptionHash) metadataUri (js_Number created) (js_Number expiry));;
  evict_prefix "drafts:";;
  broadcast "draft_created"
    [("draft_id", VStr draftId); ("creator", creator); ("metadata_uri", metadataUri); ("ledger", ledger_value event)].

Definition upsert_co_sponsor (draft_id sponsor power ledger : JsValue) : Stmt := λ d,
  draft_id ← BIGINT draft_id; sponsor ← VARCHAR 56 sponsor; power ← ANY_NUMERIC power; ledger ← INTEGER ledger;
  match draft_co_sponsors d !! (draft_id, sponsor) with
  | Some old =>
    Some (d <| draft_co_sponsors ::= (<[(draft_id, sponsor) := old <| cs_pledged_power := power |> <| cs_withdrawn := false |>]>) |>)
  | None =>
    _ ← drafts d !! draft_id;
    Some (d <| draft_co_sponsors ::= (<[(draft_id, sponsor) := mkCoSponsorRow power ledger false]>) |>)
  end.
(** [UPDATE drafts SET ... WHERE draft_id = $n] *)
Definition update_draft_row (f : DraftRow → DraftRow) (draft_id : JsValue) : Stmt := λ d,
  draft_id ← BIGINT draft_id; Some (d <| drafts ::= (alter f draft_id) |>).
Definition set_draft_power (total_power draft_id : JsValue) : Stmt := λ d,
  total_power ← ANY_NUMERIC total_power;
  update_draft_row (λ r, r <| dr_total_power := total_power |>) draft_id d.

Definition handleCoSponsored event topics : M World unit :=
  let sponsor := nth_value topics 1 in
  let data := ev_value event in
  d0 ← item data 0;
  let draftId := VStr (js_String d0) in
  d1 ← item data 1;
  let power := VStr (js_String d1) in
  d2 ← item data 2;
  let totalPower := VStr (js_String d2) in
  query (upsert_co_sponsor draftId sponsor power (ledger_value event));;
  query (set_draft_power totalPower draftId);;
  evict_prefix "drafts:";;
  broadcast "co_sponsored"
    [("draft_id", draftId); ("sponsor", sponsor); ("power", power); ("total_power", totalPower);
     ("ledger", ledger_value event)].

Definition withdraw_co_sponsor (draft_id sponsor : JsValue) : Stmt := λ d,
  draft_id ← BIGINT draft_id;
  match pg_text sponsor with
  | Some s => Some (d <| draft_co_sponsors ::= (alter (λ r, r <| cs_withdrawn := true |>) (draft_id, s)) |>)
  | None => Some d
  end.

Definition handleCoSponsorshipWithdrawn event topics : M World unit :=
  let sponsor := nth_value topics 1 in
  let data := ev_value event in
  d0 ← item data 0;
  let draftId := VStr (js_String d0) in
  d2 ← item data 2;
  let totalPower := VStr (js_String d2) in
  query (withdraw_co_sponsor draftId sponsor);;
  query (set_draft_power totalPower draftId);;
  evict_prefix "drafts:";;
  broadcast "co_sponsorship_withdrawn"
    [("draft_id", draftId); ("sponsor", sponsor); ("total_power", totalPower); ("ledger", ledger_value event)].

Definition finalize_draft_row (proposal_id draft_id : JsValue) : Stmt := λ d,
  proposal_id ← nullable BIGINT proposal_id;
  update_draft_row (λ r, r <| dr_finalized := true |> <| dr_resulting_proposal_id := proposal_id |>) draft_id d.

Definition handleDraftFinalized event : M World unit :=
  let data := ev_value event in
  d0 ← item data 0;
  let draftId := VStr (js_String d0) in
  d1 ← item data 1;
  let proposalId := VStr (js_String d1) in
  query (finalize_draft_row proposalId draftId);;
  evict_prefix "drafts:";;
  broadcast "draft_finalized" [("draft_id", draftId); ("proposal_id", proposalId); ("ledger", ledger_value event)].

Definition handleDraftCancelled event : M World unit :=
  d0 ← item (ev_value event) 0;
  let draftId := VStr (js_String d0) in
  query (update_draft_row (λ r, r <| dr_cancelled := true |>) draftId);;
  evict_prefix "drafts:";;
  broadcast "draft_cancelled" [("draft_id", draftId); ("ledger", ledger_value event)].

Definition handleDraftExpired event : M World unit :=
  d0 ← item (ev_value event) 0;
  let draftId := VStr (js_String d0) in
  query (update_draft_row (λ r, r <| dr_expired := true |>) draftId);;
  evict_prefix "drafts:";;
  broadcast "draft_expired" [("draft_id", draftId); ("ledger", ledger_value event)].

(** ** Proposal bonds *)
Definition insert_bond (hash proposer amount ledger : JsValue) : Stmt := λ d,
  hash ← TEXT hash; proposer ← VARCHAR 56 proposer; amount ← ANY_NUMERIC amount; ledger ← INTEGER ledger;
  Some (d <| proposal_bonds ::= (insert_new hash (mkBondRow proposer amount "locked" ledger None None None)) |>).
Definition refund_bond_row (ledger : JsValue) (hash : string) : Stmt := λ d,
  ledger ← nullable INTEGER ledger;
  Some (d <| proposal_bonds ::= (alter (λ r, r <| bd_state := "refunded" |> <| bd_refunded_ledger := ledger |>) hash) |>).
Definition slash_bond_row (ledger recipient : JsValue) (hash : string) : Stmt := λ d,
  ledger ← nullable INTEGER ledger; recipient ← nullable (VARCHAR 56) recipient;
  Some (d <| proposal_bonds ::= (alter (λ r,
    r <| bd_state := "slashed" |> <| bd_slashed_ledger := ledger |> <| bd_slash_recipient := recipient |>) hash) |>).

Definition handleBondLocked event topics : M World unit :=
  let proposer := nth_value topics 1 in
  let data := ev_value event in
  d0 ← item data 0;
  descriptionHash ← buffer_hex d0;
  d1 ← item data 1;
  let amount := VStr (js_String d1) in
  query (insert_bond (VStr descriptionHash) proposer amount (ledger_value event));;
  evict_prefix "proposal-bonds:";;
  broadcast "bond_locked"
    [("description_hash", VStr descriptionHash); ("proposer", proposer); ("amount", amount);
     ("ledger", ledger_value event)].

Definition handleBondRefunded event topics : M World unit :=
  let proposer := nth_value topics 1 in
  let data := ev_value event in
  d0 ← item data 0;
  descriptionHash ← buffer_hex d0;
  d1 ← item data 1;
  let amount := VStr (js_String d1) in
  query (refund_bond_row (ledger_value event) descriptionHash);;
  evict_prefix "proposal-bonds:";;
  broadcast "bond_refunded"
    [("description_hash", VStr descriptionHash); ("proposer", proposer); ("amount", amount);
     ("ledger", ledger_value event)].

Definition handleBondSlashed event topics : M World unit :=
  let proposer := nth_value topics 1 in
  let data := ev_value event in
  d0 ← item data 0;
  descriptionHash ← buffer_hex d0;
  d1 ← item data 1;
  let amount := VStr (js_String d1) in
  recipient ← item data 2;
  query (slash_bond_row (ledger_value event) recipient descriptionHash);;
  evict_prefix "proposal-bonds:";;
  broadcast "bond_slashed"
    [("description_hash", VStr descriptionHash); ("proposer", proposer); ("amount", amount);
     ("recipient", recipient); ("ledger", ledger_value event)].

(** ** Anchored signaling results *)
Definition insert_signal_anchor (poll_id hash ledger anchorer tx_hash : JsValue) : Stmt := λ d,
  poll_id ← BIGINT poll_id; hash ← VARCHAR 64 hash; ledger ← INTEGER ledger; anchorer ← VARCHAR 56 anchorer;
  tx_hash ← nullable (VARCHAR 64) tx_hash;
  Some (d <| signal_anchors ::= (insert_new poll_id (mkSignalAnchorRow hash ledger anchorer tx_hash)) |>).

Definition handleResultAnchored event topics : M World unit :=
  let anchorer := nth_value topics 1 in
  let data := ev_value event in
  d0 ← item data 0;
  let pollId := VStr (js_String d0) in
  d1 ← item data 1;
  resultHash ← buffer_hex d1;
  d2 ← item data 2;
  let anchoredLedger := js_Number d2 in
  query (insert_signal_anchor pollId (VStr resultHash) anchoredLedger anchorer (opt_text (ev_txHash event)));;
  evict_prefix "signal-anchors:";;
  broadcast "result_anchored"
    [("poll_id", pollId); ("result_hash", VStr resultHash); ("anchored_ledger", anchoredLedger);
     ("anchorer", anchorer)].
End delegation.
