(* ===== verification/IndexerTracks.v ===== *)
(** * Indexer: conviction, optimistic, escrow, strategy and pool events

    The handlers of [packages/indexer/src/events.ts] for conviction voting,
    the optimistic governor, vote escrow, treasury strategies, batch transfers
    and the liquidity pool. *)

From S2P Require Import Prelude JsValues Cache IndexerDb IndexerWorld.

Section tracks.
Context `{Runtime}.
Implicit Types (event : EventResponse) (topics : list JsValue) (d : Db).

(** ** Conviction voting *)
Definition insert_conviction_proposal (id proposer target amount ledger : JsValue) : Stmt := λ d,
  id ← NUMERIC 20 id; proposer ← TEXT proposer; target ← TEXT target; amount ← NUMERIC 39 amount;
  ledger ← BIGINT ledger;
  Some (d <| conviction_proposals ::= (insert_new id (mkConvictionRow proposer target amount ledger 0 ledger false false)) |>).
Definition delete_stake (staker proposal_id : JsValue) : Stmt := λ d,
  proposal_id ← NUMERIC 20 proposal_id;
  match pg_text staker with
  | Some s =>
    if bool_decide (sk_proposal_id <$> conviction_stakes d !! s = Some proposal_id)
    then Some (d <| conviction_stakes ::= (delete s) |>) else Some d
  | None => Some d
  end.
Definition upsert_stake (staker proposal_id amount ledger : JsValue) : Stmt := λ d,
  staker ← TEXT staker; proposal_id ← NUMERIC 20 proposal_id; amount ← NUMERIC 39 amount; ledger ← BIGINT ledger;
  _ ← conviction_proposals d !! proposal_id;
  Some (d <| conviction_stakes ::= (<[staker := mkStakeRow proposal_id amount ledger]>) |>).
(** [UPDATE conviction_proposals SET ... WHERE proposal_id = $1] *)
Definition update_conviction (f : ConvictionRow → ConvictionRow) (id : JsValue) : Stmt := λ d,
  id ← NUMERIC 20 id; Some (d <| conviction_proposals ::= (alter f id) |>).
Definition set_conviction (id conviction ledger : JsValue) : Stmt := λ d,
  conviction ← NUMERIC 39 conviction; ledger ← BIGINT ledger;
  update_conviction (λ r, r <| cv_conviction := conviction |> <| cv_last_updated_ledger := ledger |>) id d.
Definition upsert_conviction_snapshot (id ledger conviction : JsValue) : Stmt := λ d,
  id ← NUMERIC 20 id; ledger ← BIGINT ledger; conviction ← NUMERIC 39 conviction;
  _ ← conviction_proposals d !! id;
  Some (d <| conviction_snapshots ::= (<[(id, ledger) := conviction]>) |>).

Definition finish_conviction event (type proposalId : string) : M World unit :=
  evict_prefix "conviction:";;
  broadcast type [("proposal_id", VStr proposalId); ("ledger", ledger_value event)].

Definition handleConvictionEvent event (eventType : string) topics : M World unit :=
  let proposalId := js_String (nth_value topics 1) in
  let values := as_array (ev_value event) in
  let id := VStr proposalId in
  let v i := VStr (js_String (nth_value values i)) in
  if String.eqb eventType "ProposalCreated" then
    query (insert_conviction_proposal id (v 0%nat) (v 1%nat) (v 2%nat) (ledger_value event));;
    finish_conviction event "conviction_proposal_created" proposalId
  else if String.eqb eventType "StakeUpdated" then
    amount ← js_BigInt (v 1%nat);
    (if amount =? 0 then query (delete_stake (v 0%nat) id)
     else query (upsert_stake (v 0%nat) id (VStr (decimal amount)) (ledger_value event)));;
    finish_conviction event "conviction_stake_updated" proposalId
  else if String.eqb eventType "ConvictionUpdated" then
    query (set_conviction id (v 0%nat) (ledger_value event));;
    query (upsert_conviction_snapshot id (ledger_value event) (v 0%nat));;
    finish_conviction event "conviction_conviction_updated" proposalId
  else if String.eqb eventType "ProposalExecuted" then
    query (update_conviction (λ r, r <| cv_executed := true |>) id);;
    finish_conviction event "conviction_proposal_executed" proposalId
  else if String.eqb eventType "ProposalCancelled" then
    query (update_conviction (λ r, r <| cv_cancelled := true |>) id);;
    finish_conviction event "conviction_proposal_cancelled" proposalId
  else mret tt.

(** ** The optimistic governor *)
Definition insert_optimistic_proposal (id proposer created challenge_end : JsValue) : Stmt := λ d,
  id ← NUMERIC 20 id; proposer ← TEXT proposer; created ← BIGINT created; challenge_end ← BIGINT challenge_end;
  Some (d <| optimistic_proposals ::= (insert_new id (mkOptimisticRow proposer created challenge_end 0 "challenge_window")) |>).
Definition insert_objection (id objector weight total ledger : JsValue) : Stmt := λ d,
  id ← NUMERIC 20 id; objector ← TEXT objector; weight ← NUMERIC 39 weight; total ← NUMERIC 39 total;
  ledger ← BIGINT ledger;
  match optimistic_objections d !! (id, objector) with
  | Some _ => Some d
  | None =>
    _ ← optimistic_proposals d !! id;
    Some (d <| optimistic_objections ::= (<[(id, objector) := mkObjectionRow weight total ledger]>) |>)
  end.
Definition update_optimistic (f : OptimisticRow → OptimisticRow) (id : JsValue) : Stmt := λ d,
  id ← NUMERIC 20 id; Some (d <| optimistic_proposals ::= (alter f id) |>).
Definition set_objection_votes (id total : JsValue) : Stmt := λ d,
  total ← NUMERIC 39 total; update_optimistic (λ r, r <| op_objection_votes := total |>) id d.

Definition finish_optimistic event (type proposalId : string) : M World unit :=
  evict_prefix "optimistic:";;
  broadcast type [("proposal_id", VStr proposalId); ("ledger", ledger_value event)].
(** The four cases that set the state column. *)
Definition optimistic_state (eventType : string) : option (string * string) :=
  if String.eqb eventType "ProposalObjected" then Some ("objected", "optimistic_proposal_objected")
  else if String.eqb eventType "ProposalPassed" then Some ("passed", "optimistic_proposal_passed")
  else if String.eqb eventType "ProposalExecuted" then Some ("executed", "optimistic_proposal_executed")
  else if String.eqb eventType "ProposalCancelled" then Some ("cancelled", "optimistic_proposal_cancelled")
  else None.

Definition handleOptimisticGovernorEvent event (eventType : string) topics : M World unit :=
  let proposalId := js_String (nth_value topics 1) in
  let values := as_array (ev_value event) in
  let id := VStr proposalId in
  let v i := VStr (js_String (nth_value values i)) in
  if String.eqb eventType "ProposalCreated" then
    query (insert_optimistic_proposal id (v 0%nat) (ledger_value event) (v 1%nat));;
    finish_optimistic event "optimistic_proposal_created" proposalId
  else if String.eqb eventType "ObjectionCast" then
    query (insert_objection id (v 0%nat) (v 1%nat) (v 2%nat) (ledger_value event));;
    query (set_objection_votes id (v 2%nat));;
    finish_optimistic event "optimistic_objection_cast" proposalId
  else match optimistic_state eventType with
  | Some (state, type) =>
    query (update_optimistic (λ r, r <| op_state := state |>) id);;
    finish_optimistic event type proposalId
  | None => mret tt
  end.

(** ** Vote escrow *)
Definition withdraw_lock (owner : string) (ledger : JsValue) : Stmt := λ d,
  ledger ← BIGINT ledger;
  Some (d <| vote_escrow_locks ::= (alter (λ r, r <| es_withdrawn := true |> <| es_updated_ledger := ledger |>) owner) |>).
Definition upsert_lock (owner : string) (amount start end_ power ledger : JsValue) : Stmt := λ d,
  amount ← NUMERIC 39 amount; start ← BIGINT start; end_ ← BIGINT end_; power ← NUMERIC 39 power;
  ledger ← BIGINT ledger;
  Some (d <| vote_escrow_locks ::= (λ m,
    match m !! owner with
    | Some old => <[owner := old <| es_amount := amount |> <| es_end_ledger := end_ |>
                          <| es_initial_voting_power := power |> <| es_withdrawn := false |>
                          <| es_updated_ledger := ledger |>]> m
    | None => <[owner := mkEscrowRow amount start end_ power false ledger]> m
    end) |>).

Definition handleVoteEscrowEvent event (eventType : string) topics : M World unit :=
  let data := match ev_value event with VObj fields => fields | _ => [] end in
  let owner := js_String ((field "owner" data ?? nth_value topics 1) ?? VStr "") in
  if String.eqb owner "" then mret tt
  else if String.eqb eventType "LockWithdrawn" then
    query (withdraw_lock owner (ledger_value event));;
    evict_prefix "vote-escrow:"
  else
    let amount := js_String (field "amount" data ?? VNum 0) in
    let startLedger := js_Number ((field "start_ledger" data ?? field "start" data) ?? ledger_value event) in
    let endLedger := js_Number ((field "end_ledger" data ?? field "end" data) ?? VNum 0) in
    let initialVotingPower :=
      js_String ((field "initial_voting_power" data ?? field "voting_power" data) ?? VStr amount) in
    query (upsert_lock owner (VStr amount) startLedger endLedger (VStr initialVotingPower) (ledger_value event));;
    evict_prefix "vote-escrow:".

(** ** Treasury strategies *)
Definition insert_strategy (id adapter token ledger : JsValue) : Stmt := λ d,
  id ← BIGINT id; adapter ← VARCHAR 56 adapter; token ← VARCHAR 56 token; ledger ← INTEGER ledger;
  Some (d <| treasury_strategies ::= (insert_new id (mkStrategyRow adapter token true 0 ledger)) |>).
Definition deactivate_strategy (id : JsValue) : Stmt := λ d,
  id ← BIGINT id; Some (d <| treasury_strategies ::= (alter (λ r, r <| st_active := false |>) id) |>).
Definition insert_allocation (id amount ledger : JsValue) : Stmt := λ d,
  id ← BIGINT id; amount ← NUMERIC 39 amount; ledger ← INTEGER ledger;
  _ ← treasury_strategies d !! id;
  Some (d <| strategy_allocations ::= (λ l, l ++ [mkAllocationRow id amount ledger]) |>).
(** [SET current_allocation = current_allocation + sign * $2 WHERE strategy_id = $1] *)
Definition shift_allocation (sign : Z) (id amount : JsValue) : Stmt := λ d,
  id ← BIGINT id; amount ← ANY_NUMERIC amount;
  match treasury_strategies d !! id with
  | Some r =>
    n ← NUMERIC 39 (VNum (st_current_allocation r + sign * amount));
    Some (d <| treasury_strategies ::= (<[id := r <| st_current_allocation := n |>]>) |>)
  | None => Some d
  end.
Definition insert_withdrawal (withdrawal_id id amount ledger claimable : JsValue) : Stmt := λ d,
  withdrawal_id ← BIGINT withdrawal_id; id ← BIGINT id; amount ← NUMERIC 39 amount;
  ledger ← INTEGER ledger; claimable ← INTEGER claimable;
  match strategy_withdrawals d !! withdrawal_id with
  | Some _ => Some d
  | None =>
    _ ← treasury_strategies d !! id;
    Some (d <| strategy_withdrawals ::= (<[withdrawal_id := mkWithdrawalRow id amount None ledger claimable None]>) |>)
  end.
Definition claim_withdrawal (withdrawal_id amount ledger : JsValue) : Stmt := λ d,
  amount ← nullable (NUMERIC 39) amount; ledger ← nullable INTEGER ledger; withdrawal_id ← BIGINT withdrawal_id;
  Some (d <| strategy_withdrawals ::= (alter (λ r,
    r <| wd_actual_amount := amount |> <| wd_claimed_ledger := ledger |>) withdrawal_id) |>).

Definition handleStrategyRegistered event topics : M World unit :=
  let strategyId := VStr (js_String (nth_value topics 1)) in
  adapter ← prop (ev_value event) "adapter";
  token ← prop (ev_value event) "token";
  query (insert_strategy strategyId adapter token (ledger_value event));;
  evict_prefix "treasury-strategies:";;
  broadcast "strategy_registered"
    [("strategy_id", strategyId); ("adapter", adapter); ("token", token); ("ledger", ledger_value event)].

Definition handleStrategyDeactivated event topics : M World unit :=
  let strategyId := VStr (js_String (nth_value topics 1)) in
  query (deactivate_strategy strategyId);;
  evict_prefix "treasury-strategies:";;
  broadcast "strategy_deactivated" [("strategy_id", strategyId); ("ledger", ledger_value event)].

Definition handleStrategyDeposited event topics : M World unit :=
  let strategyId := VStr (js_String (nth_value topics 1)) in
  a ← prop (ev_value event) "amount";
  let amount := VStr (js_String a) in
  query (insert_allocation strategyId amount (ledger_value event));;
  query (shift_allocation 1 strategyId amount);;
  evict_prefix "treasury-strategies:";;
  broadcast "strategy_deposited"
    [("strategy_id", strategyId); ("amount", amount); ("ledger", ledger_value event)].

Definition handleStrategyWithdrawalRequested event topics : M World unit :=
  let withdrawalId := VStr (js_String (nth_value topics 1)) in
  let data := ev_value event in
  i ← prop data "strategy_id";
  let strategyId := VStr (js_String i) in
  a ← prop data "amount";
  let amount := VStr (js_String a) in
  c ← prop data "claimable_ledger";
  let claimableLedger := js_Number c in
  query (insert_withdrawal withdrawalId strategyId amount (ledger_value event) claimableLedger);;
  query (shift_allocation (-1) strategyId amount);;
  evict_prefix "treasury-strategies:";;
  broadcast "strategy_withdrawal_requested"
    [("withdrawal_id", withdrawalId); ("strategy_id", strategyId); ("amount", amount);
     ("claimable_ledger", claimableLedger)].

Definition handleStrategyWithdrawalClaimed event topics : M World unit :=
  let withdrawalId := VStr (js_String (nth_value topics 1)) in
  a ← prop (ev_value event) "actual_amount";
  let actualAmount := VStr (js_String a) in
  query (claim_withdrawal withdrawalId actualAmount (ledger_value event));;
  evict_prefix "treasury-strategies:";;
  broadcast "strategy_withdrawal_claimed"
    [("withdrawal_id", withdrawalId); ("actual_amount", actualAmount); ("ledger", ledger_value event)].

(** ** Batch transfers of the treasury *)
Definition insert_transfer (op_hash token count total ledger : JsValue) : Stmt := λ d,
  op_hash ← TEXT op_hash; token ← TEXT token; count ← INTEGER count; total ← BIGINT total; ledger ← INTEGER ledger;
  Some (d <| treasury_transfers ::= (λ l, l ++ [mkTransferRow op_hash token count total ledger]) |>).

Definition handleTreasuryBatchTransfer event topics : M World unit :=
  let token := nth_value topics 1 in
  let data := ev_value event in
  d0 ← item data 0;
  opHash ← buffer_hex d0;
  d1 ← item data 1;
  d2 ← item data 2;
  query (insert_transfer (VStr opHash) token (js_Number d1) (VStr (js_String d2)) (ledger_value event)).

(** ** The liquidity pool *)
Definition insert_liquidity (event_type : string) (provider a b amount_a amount_b lp ledger : JsValue) : Stmt := λ d,
  provider ← TEXT provider; a ← INTEGER a; b ← INTEGER b; amount_a ← ANY_NUMERIC amount_a;
  amount_b ← ANY_NUMERIC amount_b; lp ← ANY_NUMERIC lp; ledger ← INTEGER ledger;
  Some (d <| liquidity_events ::= (λ l, l ++ [mkLiquidityRow event_type provider a b amount_a amount_b lp ledger]) |>).

(** The bodies of the two handlers differ in the field of the tokens, the row
    and the message. *)
Definition record_liquidity event topics (lp_field row_type ws_type : string) : M World unit :=
  let provider := nth_value topics 1 in
  let data := ev_value event in
  a ← prop data "outcome_a";
  b ← prop data "outcome_b";
  x ← prop data "amount_a";
  y ← prop data "amount_b";
  lp ← prop data lp_field;
  let outcomeA := js_Number a in
  let outcomeB := js_Number b in
  let amountA := VStr (js_String x) in
  let amountB := VStr (js_String y) in
  let lpTokens := VStr (js_String lp) in
  query (insert_liquidity row_type provider outcomeA outcomeB amountA amountB lpTokens (ledger_value event));;
  broadcast ws_type
    [("provider", provider); ("outcome_a", outcomeA); ("outcome_b", outcomeB); ("amount_a", amountA);
     ("amount_b", amountB); ("lp_tokens", lpTokens); ("ledger", ledger_value event)].
Definition handleLiquidityAdded event topics : M World unit :=
  record_liquidity event topics "lp_tokens_minted" "add" "liquidity_added".
Definition handleLiquidityRemoved event topics : M World unit :=
  record_liquidity event topics "lp_tokens_burned" "remove" "liquidity_removed".

Definition insert_swap (trader in_ out amount_in amount_out fee ledger : JsValue) : Stmt := λ d,
  trader ← TEXT trader; in_ ← INTEGER in_; out ← INTEGER out; amount_in ← ANY_NUMERIC amount_in;
  amount_out ← ANY_NUMERIC amount_out; fee ← ANY_NUMERIC fee; ledger ← INTEGER ledger;
  Some (d <| swap_events ::= (λ l, l ++ [mkSwapRow trader in_ out amount_in amount_out fee ledger]) |>).

Definition handleSwap event topics : M World unit :=
  let trader := nth_value topics 1 in
  let data := ev_value event in
  a ← prop data "outcome_in";
  b ← prop data "outcome_out";
  x ← prop data "amount_in";
  y ← prop data "amount_out";
  f ← prop data "fee";
  let outcomeIn := js_Number a in
  let outcomeOut := js_Number b in
  let amountIn := VStr (js_String x) in
  let amountOut := VStr (js_String y) in
  let fee := VStr (js_String f) in
  query (insert_swap trader outcomeIn outcomeOut amountIn amountOut fee (ledger_value event));;
  broadcast "swap"
    [("trader", trader); ("outcome_in", outcomeIn); ("outcome_out", outcomeOut); ("amount_in", amountIn);
     ("amount_out", amountOut); ("fee", fee); ("ledger", ledger_value event)].

Definition insert_pool_fee (a b old_fee new_fee ledger : JsValue) : Stmt := λ d,
  a ← INTEGER a; b ← INTEGER b; old_fee ← INTEGER old_fee; new_fee ← INTEGER new_fee; ledger ← INTEGER ledger;
  Some (d <| pool_fee_updates ::= (λ l, l ++ [mkPoolFeeRow a b old_fee new_fee ledger]) |>).

Definition handlePoolFeeUpdated event : M World unit :=
  let data := ev_value event in
  a ← prop data "outcome_a";
  b ← prop data "outcome_b";
  o ← prop data "old_fee_bps";
  n ← prop data "new_fee_bps";
  let outcomeA := js_Number a in
  let outcomeB := js_Number b in
  let oldFeeBps := js_Number o in
  let newFeeBps := js_Number n in
  query (insert_pool_fee outcomeA outcomeB oldFeeBps newFeeBps (ledger_value event));;
  broadcast "pool_fee_updated"
    [("outcome_a", outcomeA); ("outcome_b", outcomeB); ("old_fee_bps", oldFeeBps);
     ("new_fee_bps", newFeeBps); ("ledger", ledger_value event)].
End tracks.
