(* ===== verification/IndexerTimelock.v ===== *)
(** * Indexer: the timelock's events

    The sixteen handlers of [packages/indexer/src/events.ts] for timelock
    operations, batches, the dependency check and partially executed batches.
    A contract may publish a tuple or a struct; [pick] reads either. *)

From S2P Require Import Prelude JsValues Cache IndexerDb IndexerWorld.

Section timelock.
Context `{Runtime}.
Implicit Types (event : EventResponse) (raw : JsValue) (d : Db).

(** [data?.[i] ?? object?.k] where [data] is the array and [object] the rest. *)
Definition pick raw (i : nat) (k : string) : JsValue :=
  match raw with
  | VArr l => nth_value l i ?? VUndefined
  | VObj fields => field k fields
  | _ => VUndefined
  end.

Definition bytesToHex (value : JsValue) : string :=
  if negb (truthy value) then ""
  else match value with
       | VStr s => s
       | VBytes bs => to_hex bs
       | VArr l => to_hex (byte_of_value <$> l)
       | _ => js_String value
       end.

Definition timelockEventId event (eventType : string) : string :=
  match ev_id event with
  | Some id => id
  | None => default "ledger" (ev_txHash event) +:+ ":" +:+ decimal (ev_ledger event) +:+ ":" +:+ eventType
  end.

(** [(v as unknown[]).map(String)] *)
Definition map_strings (v : JsValue) : M World (list string) :=
  match v with
  | VArr l => mret (js_String <$> l)
  | _ => throw (TypeError "map is not a function")
  end.
Definition strings_value (l : list string) : JsValue := VArr (VStr <$> l).

(** ** Rows of operations and of batches

    A row of a batch keeps the targets and the function names as JSON. *)
Definition schedule_row (m : gmap string TimelockOpRow) (op_id target fn_name : string)
    (ready_at expires_at ledger : Z) : gmap string TimelockOpRow :=
  match m !! op_id with
  | Some old => <[op_id := old <| to_target := target |> <| to_fn_name := fn_name |> <| to_ready_at := ready_at |>
                               <| to_expires_at := expires_at |> <| to_ledger := ledger |>]> m
  | None => <[op_id := mkTimelockOpRow target fn_name ready_at expires_at "scheduled" None None None None ledger]> m
  end.
Definition execute_row (caller : string) (ledger : option Z) (r : TimelockOpRow) : TimelockOpRow :=
  r <| to_status := "executed" |> <| to_executed_by := Some caller |> <| to_executed_at_ledger := ledger |>.
Definition cancel_row (caller : string) (ledger : option Z) (r : TimelockOpRow) : TimelockOpRow :=
  r <| to_status := "cancelled" |> <| to_cancelled_by := Some caller |> <| to_cancelled_at_ledger := ledger |>.

Definition schedule_operation (op_id target fn_name : string) (ready_at expires_at ledger : JsValue) : Stmt := λ d,
  ready_at ← BIGINT ready_at; expires_at ← BIGINT expires_at; ledger ← INTEGER ledger;
  Some (d <| timelock_operations ::= (λ m, schedule_row m op_id target fn_name ready_at expires_at ledger) |>).
Definition update_operation (f : string → option Z → TimelockOpRow → TimelockOpRow)
    (op_id caller : string) (ledger : JsValue) : Stmt := λ d,
  ledger ← nullable INTEGER ledger;
  Some (d <| timelock_operations ::= (alter (f caller ledger) op_id) |>).
Definition schedule_batch (op_id targets fn_names : string) (ready_at expires_at ledger : JsValue) : Stmt := λ d,
  ready_at ← BIGINT ready_at; expires_at ← BIGINT expires_at; ledger ← INTEGER ledger;
  Some (d <| timelock_batch_operations ::= (λ m, schedule_row m op_id targets fn_names ready_at expires_at ledger) |>).
Definition update_batch (f : string → option Z → TimelockOpRow → TimelockOpRow)
    (op_id caller : string) (ledger : JsValue) : Stmt := λ d,
  ledger ← nullable INTEGER ledger;
  Some (d <| timelock_batch_operations ::= (alter (f caller ledger) op_id) |>).

Definition handleTimelockOperationScheduled event : M World unit :=
  let raw := ev_value event in
  let opId := bytesToHex (pick raw 0 "op_id") in
  let target := js_String (pick raw 1 "target" ?? VStr "") in
  let fnName := js_String (pick raw 2 "fn_name" ?? VStr "") in
  let readyAt := VStr (js_String (pick raw 3 "ready_at" ?? VNum 0)) in
  let expiresAt := VStr (js_String (pick raw 4 "expires_at" ?? VNum 0)) in
  query (schedule_operation opId target fnName readyAt expiresAt (ledger_value event));;
  evict ["timelock:op:" +:+ opId];;
  evict_prefix "timelock:ops:";;
  broadcast "timelock_operation_scheduled"
    [("op_id", VStr opId); ("target", VStr target); ("fn_name", VStr fnName); ("ready_at", readyAt);
     ("expires_at", expiresAt); ("ledger", ledger_value event)].

Definition handleTimelockOperationExecuted event : M World unit :=
  let raw := ev_value event in
  let opId := bytesToHex (pick raw 0 "op_id") in
  let caller := js_String (pick raw 1 "caller" ?? VStr "") in
  query (update_operation execute_row opId caller (ledger_value event));;
  evict ["timelock:op:" +:+ opId];;
  evict_prefix "timelock:ops:";;
  broadcast "timelock_operation_executed"
    [("op_id", VStr opId); ("caller", VStr caller); ("ledger", ledger_value event)].

Definition handleTimelockOperationCancelled event : M World unit :=
  let raw := ev_value event in
  let opId := bytesToHex (pick raw 0 "op_id") in
  let caller := js_String (pick raw 1 "caller" ?? VStr "") in
  query (update_operation cancel_row opId caller (ledger_value event));;
  evict ["timelock:op:" +:+ opId];;
  evict_prefix "timelock:ops:";;
  broadcast "timelock_operation_cancelled"
    [("op_id", VStr opId); ("caller", VStr caller); ("ledger", ledger_value event)].

Definition handleTimelockBatchOperationScheduled event : M World unit :=
  let raw := ev_value event in
  let batchOpId := bytesToHex (pick raw 0 "batch_op_id") in
  targets ← map_strings (pick raw 1 "targets" ?? VArr []);
  fnNames ← map_strings (pick raw 2 "fn_names" ?? VArr []);
  let readyAt := VStr (js_String (pick raw 3 "ready_at" ?? VNum 0)) in
  let expiresAt := VStr (js_String (pick raw 4 "expires_at" ?? VNum 0)) in
  query (schedule_batch batchOpId (stringifyJson (strings_value targets)) (stringifyJson (strings_value fnNames))
    readyAt expiresAt (ledger_value event));;
  evict ["timelock:batch:" +:+ batchOpId];;
  evict_prefix "timelock:batches:";;
  broadcast "timelock_batch_operation_scheduled"
    [("batch_op_id", VStr batchOpId); ("targets", strings_value targets); ("fn_names", strings_value fnNames);
     ("ready_at", readyAt); ("expires_at", expiresAt); ("ledger", ledger_value event)].

Definition handleTimelockBatchOperationExecuted event : M World unit :=
  let raw := ev_value event in
  let batchOpId := bytesToHex (pick raw 0 "batch_op_id") in
  let caller := js_String (pick raw 1 "caller" ?? VStr "") in
  query (update_batch execute_row batchOpId caller (ledger_value event));;
  evict ["timelock:batch:" +:+ batchOpId];;
  evict_prefix "timelock:batches:";;
  broadcast "timelock_batch_operation_executed"
    [("batch_op_id", VStr batchOpId); ("caller", VStr caller); ("ledger", ledger_value event)].

Definition handleTimelockBatchOperationCancelled event : M World unit :=
  let raw := ev_value event in
  let batchOpId := bytesToHex (pick raw 0 "batch_op_id") in
  let caller := js_String (pick raw 1 "caller" ?? VStr "") in
  query (update_batch cancel_row batchOpId caller (ledger_value event));;
  evict ["timelock:batch:" +:+ batchOpId];;
  evict_prefix "timelock:batches:";;
  broadcast "timelock_batch_operation_cancelled"
    [("batch_op_id", VStr batchOpId); ("caller", VStr caller); ("ledger", ledger_value event)].

Definition handleTimelockMinDelayUpdated event : M World unit :=
  let raw := ev_value event in
  broadcast "timelock_min_delay_updated"
    [("old_delay", VStr (js_String (pick raw 0 "old_delay" ?? VNum 0)));
     ("new_delay", VStr (js_String (pick raw 1 "new_delay" ?? VNum 0))); ("ledger", ledger_value event)].

(** ** The dependency check *)
Definition insert_graph (validation_id : string) (batch_op_id op_count : JsValue) (has_cycle : bool)
    (cycle_path : option string) (ledger : JsValue) : Stmt := λ d,
  batch_op_id ← nullable TEXT batch_op_id; op_count ← nullable INTEGER op_count; ledger ← INTEGER ledger;
  Some (d <| timelock_dependency_graphs ::=
    (insert_new validation_id (mkGraphRow batch_op_id op_count has_cycle cycle_path ledger)) |>).

Definition handleTimelockDependencyDagValidated event : M World unit :=
  let raw := ev_value event in
  let batchOpId := bytesToHex (pick raw 0 "batch_op_id") in
  let opCount := js_Number (pick raw 1 "op_count" ?? VNum 0) in
  query (insert_graph (timelockEventId event "DependencyDagValidated")
    (if String.eqb batchOpId "" then VNull else VStr batchOpId) opCount false None (ledger_value event));;
  (if String.eqb batchOpId "" then mret tt else evict ["timelock:dag:" +:+ batchOpId]);;
  broadcast "timelock_dependency_dag_validated"
    [("batch_op_id", VStr batchOpId); ("op_count", opCount); ("ledger", ledger_value event)].

Definition handleTimelockCycleDetected event : M World unit :=
  let cyclePath := match ev_value event with VArr l => bytesToHex <$> l | _ => [] end in
  query (insert_graph (timelockEventId event "CycleDetected") VNull (VNum (Z.of_nat (length cyclePath))) true
    (Some (stringifyJson (strings_value cyclePath))) (ledger_value event));;
  broadcast "timelock_cycle_detected" [("cycle_path", strings_value cyclePath); ("ledger", ledger_value event)].

(** ** Partially executed batches *)
Definition start_partial (op_id : string) (total ledger : JsValue) : Stmt := λ d,
  total ← INTEGER total; ledger ← INTEGER ledger;
  Some (d <| timelock_partial_batch_state ::= (λ m,
    match m !! op_id with
    | Some old => <[op_id := old <| pb_total_ops := total |> <| pb_status := "in_progress" |>
                                 <| pb_updated_at_ledger := ledger |>]> m
    | None => <[op_id := mkPartialRow total 0 "in_progress" None None 0 None ledger None ledger]> m
    end) |>).
(** [UPDATE timelock_partial_batch_state SET ..., updated_at_ledger = $n WHERE batch_op_id = $1] *)
Definition update_partial (f : PartialRow → PartialRow) (op_id : string) (ledger : JsValue) : Stmt := λ d,
  ledger ← INTEGER ledger;
  Some (d <| timelock_partial_batch_state ::= (alter (λ r, f r <| pb_updated_at_ledger := ledger |>) op_id) |>).
Definition last_op (op_id status : string) (r : PartialRow) : PartialRow :=
  r <| pb_last_op_id := Some op_id |> <| pb_last_status := Some status |>.
Definition succeed_partial (op_id last : string) (completed total ledger : JsValue) : Stmt := λ d,
  completed ← INTEGER completed; total ← INTEGER total;
  update_partial (λ r, (last_op last "succeeded" r) <| pb_completed_ops := completed |> <| pb_total_ops := total |>)
    op_id ledger d.
Definition recover_partial (op_id : string) (deadline ledger : JsValue) : Stmt := λ d,
  deadline ← nullable INTEGER deadline;
  update_partial (λ r, r <| pb_status := "recovery" |> <| pb_recovery_deadline := deadline |>) op_id ledger d.
Definition retry_partial (op_id last : string) (count : JsValue) (status : string) (ledger : JsValue) : Stmt := λ d,
  count ← INTEGER count;
  update_partial (λ r, (last_op last status r) <| pb_retry_count := count |>) op_id ledger d.
Definition complete_partial (op_id : string) (ledger : JsValue) : Stmt := λ d,
  l ← INTEGER ledger;
  update_partial (λ r, r <| pb_status := "completed" |> <| pb_completed_at_ledger := Some l |>) op_id ledger d.
(** [executed_at_ledger = COALESCE(executed_at_ledger, $2)] *)
Definition complete_batch (op_id : string) (ledger : JsValue) : Stmt := λ d,
  l ← INTEGER ledger;
  Some (d <| timelock_batch_operations ::= (alter (λ r,
    r <| to_status := "executed" |>
      <| to_executed_at_ledger ::= (λ o, match o with Some x => Some x | None => Some l end) |>) op_id) |>).

Definition handleTimelockPartialBatchStarted event : M World unit :=
  let raw := ev_value event in
  let batchOpId := bytesToHex (pick raw 0 "batch_op_id") in
  let totalOps := js_Number (pick raw 1 "total_ops" ?? VNum 0) in
  query (start_partial batchOpId totalOps (ledger_value event));;
  evict ["timelock:partial_state:" +:+ batchOpId];;
  broadcast "timelock_partial_batch_started"
    [("batch_op_id", VStr batchOpId); ("total_ops", totalOps); ("ledger", ledger_value event)].

Definition handleTimelockPartialOpSucceeded event : M World unit :=
  let raw := ev_value event in
  let batchOpId := bytesToHex (pick raw 0 "batch_op_id") in
  let opId := bytesToHex (pick raw 1 "op_id") in
  let completed := js_Number (pick raw 2 "completed" ?? VNum 0) in
  let total := js_Number (pick raw 3 "total" ?? VNum 0) in
  query (succeed_partial batchOpId opId completed total (ledger_value event));;
  evict ["timelock:partial_state:" +:+ batchOpId];;
  broadcast "timelock_partial_op_succeeded"
    [("batch_op_id", VStr batchOpId); ("op_id", VStr opId); ("completed", completed); ("total", total);
     ("ledger", ledger_value event)].

Definition handleTimelockPartialOpFailed event : M World unit :=
  let raw := ev_value event in
  let batchOpId := bytesToHex (pick raw 0 "batch_op_id") in
  let opId := bytesToHex (pick raw 1 "op_id") in
  query (update_partial (last_op opId "failed") batchOpId (ledger_value event));;
  evict ["timelock:partial_state:" +:+ batchOpId];;
  broadcast "timelock_partial_op_failed"
    [("batch_op_id", VStr batchOpId); ("op_id", VStr opId); ("ledger", ledger_value event)].

Definition handleTimelockBatchRecoveryEntered event : M World unit :=
  let raw := ev_value event in
  let batchOpId := bytesToHex (pick raw 0 "batch_op_id") in
  let recoveryDeadline := js_Number (pick raw 1 "recovery_deadline" ?? VNum 0) in
  query (recover_partial batchOpId recoveryDeadline (ledger_value event));;
  evict ["timelock:partial_state:" +:+ batchOpId];;
  broadcast "timelock_batch_recovery_entered"
    [("batch_op_id", VStr batchOpId); ("recovery_deadline", recoveryDeadline); ("ledger", ledger_value event)].

Definition handleTimelockFailedOpRetried event : M World unit :=
  let raw := ev_value event in
  let batchOpId := bytesToHex (pick raw 0 "batch_op_id") in
  let opId := bytesToHex (pick raw 1 "op_id") in
  let retryCount := js_Number (pick raw 2 "retry_count" ?? VNum 0) in
  let succeeded := truthy (pick raw 3 "succeeded" ?? VBool false) in
  query (retry_partial batchOpId opId retryCount (if succeeded then "succeeded" else "failed") (ledger_value event));;
  evict ["timelock:partial_state:" +:+ batchOpId];;
  broadcast "timelock_failed_op_retried"
    [("batch_op_id", VStr batchOpId); ("op_id", VStr opId); ("retry_count", retryCount);
     ("succeeded", VBool succeeded); ("ledger", ledger_value event)].

Definition handleTimelockFailedOpSkipped event : M World unit :=
  let raw := ev_value event in
  let batchOpId := bytesToHex (pick raw 0 "batch_op_id") in
  let opId := bytesToHex (pick raw 1 "op_id") in
  query (update_partial (last_op opId "skipped") batchOpId (ledger_value event));;
  evict ["timelock:partial_state:" +:+ batchOpId];;
  broadcast "timelock_failed_op_skipped"
    [("batch_op_id", VStr batchOpId); ("op_id", VStr opId); ("ledger", ledger_value event)].

(** [raw[0]], [raw.batch_op_id] where that key is present, or [raw] itself. *)
Definition complete_batch_id raw : string :=
  match raw with
  | VArr l => bytesToHex (nth_value l 0)
  | VObj fields => match jm_get "batch_op_id" fields with Some v => bytesToHex v | None => bytesToHex raw end
  | _ => bytesToHex raw
  end.

Definition handleTimelockBatchFullyComplete event : M World unit :=
  let batchOpId := complete_batch_id (ev_value event) in
  query (complete_partial batchOpId (ledger_value event));;
  query (complete_batch batchOpId (ledger_value event));;
  evict ["timelock:partial_state:" +:+ batchOpId; "timelock:batch:" +:+ batchOpId];;
  evict_prefix "timelock:batches:";;
  broadcast "timelock_batch_fully_complete" [("batch_op_id", VStr batchOpId); ("ledger", ledger_value event)].
End timelock.
