(* ===== verification/TreasuryProjection.v ===== *)
(** * Indexer: the treasury streams

    [packages/indexer/src/treasuryReader.ts], which reads streams and spends
    from the contract page by page, [treasuryProjection.ts], which stores them
    with each event in one transaction, and the decoder and handler of stream
    events of [events.ts].  A call of the contract is the parameter
    [simulate]. *)

From S2P Require Import Prelude JsValues Cache IndexerDb IndexerWorld.

(** ** Reading the contract *)
Record TreasuryStreamRecord := mkTreasuryStreamRecord {
  streamId : string; name : string; owner : string; token : string;
  totalAllocated : string; totalSpent : string; startLedger : JsValue; endLedger : JsValue;
  isActive : bool; isRevoked : bool; revokedAtLedger : JsValue; maxSingleSpend : string;
  cooldownLedgers : JsValue; lastSpendLedger : JsValue; spendCount : JsValue; createdByProposalId : string }.

Record TreasuryStreamSpendRecord := mkTreasuryStreamSpendRecord {
  s_streamId : string; spendIndex : JsValue; recipient : string; amount : string; memo : string;
  executedAtLedger : JsValue; executedBy : string }.

Record TreasuryStateReader := mkTreasuryStateReader {
  getStream : string → outcome TreasuryStreamRecord;
  getStreams : Z → Z → outcome (list TreasuryStreamRecord);
  getStreamSpends : string → Z → Z → outcome (list TreasuryStreamSpendRecord) }.

Definition parseStream (raw : JsValue) : M unit TreasuryStreamRecord :=
  raw ← props raw;
  let revokedAt := raw "revoked_at_ledger" in
  mret {|
    streamId := js_String (raw "id"); name := js_String (raw "name"); owner := js_String (raw "owner");
    token := js_String (raw "token"); totalAllocated := js_String (raw "total_allocated");
    totalSpent := js_String (raw "total_spent"); startLedger := js_Number (raw "start_ledger");
    endLedger := js_Number (raw "end_ledger"); isActive := truthy (raw "is_active");
    isRevoked := truthy (raw "is_revoked");
    revokedAtLedger := if nullish revokedAt then VNull else js_Number revokedAt;
    maxSingleSpend := js_String (raw "max_single_spend"); cooldownLedgers := js_Number (raw "cooldown_ledgers");
    lastSpendLedger := js_Number (raw "last_spend_ledger"); spendCount := js_Number (raw "spend_count");
    createdByProposalId := js_String (raw "created_by_proposal_id") |}.

Definition parseSpend (raw : JsValue) : M unit TreasuryStreamSpendRecord :=
  raw ← props raw;
  mret {|
    s_streamId := js_String (raw "stream_id"); spendIndex := js_Number (raw "spend_index");
    recipient := js_String (raw "recipient"); amount := js_String (raw "amount"); memo := js_String (raw "memo");
    executedAtLedger := js_Number (raw "executed_at_ledger"); executedBy := js_String (raw "executed_by") |}.

(** [(v as Record<string, unknown>[]).map(f)] *)
Definition map_records {A} (f : JsValue → M unit A) (v : JsValue) : M unit (list A) :=
  match v with
  | VArr l => map_m f l
  | VUndefined | VNull => throw (TypeError "Cannot read properties of undefined")
  | _ => throw (TypeError "map is not a function")
  end.

(** The result of a computation that has no state of its own. *)
Definition result {A} (m : M unit A) : outcome A := fst (m tt).

Definition createTreasuryStateReader (simulate : string → list JsValue → outcome JsValue) : TreasuryStateReader := {|
  getStream := λ streamId, result (
    id ← js_BigInt (VStr streamId);
    retval ← lift (simulate "get_stream" [VBig id]);
    parseStream retval);
  getStreams := λ offset limit, result (
    retval ← lift (simulate "get_streams" [VBig offset; VBig limit]);
    map_records parseStream retval);
  getStreamSpends := λ streamId offset limit, result (
    id ← js_BigInt (VStr streamId);
    retval ← lift (simulate "get_stream_spends" [VBig id; VNum offset; VNum limit]);
    map_records parseSpend retval) |}.

Definition pageSize : Z := 100.

(** [for (let offset = 0; ; offset += pageSize)], ended by a short page. *)
Fixpoint streams_from {S} (fuel : nat) (reader : TreasuryStateReader) (offset : Z) : M S (list TreasuryStreamRecord) :=
  match fuel with
  | O => throw (PlainError "out of fuel")
  | Datatypes.S fuel' =>
    page ← lift (getStreams reader offset pageSize);
    if Z.of_nat (length page) <? pageSize then mret page
    else rest ← streams_from fuel' reader (offset + pageSize); mret (page ++ rest)
  end.
Definition getAllTreasuryStreams {S} (fuel : nat) (reader : TreasuryStateReader) : M S (list TreasuryStreamRecord) :=
  streams_from fuel reader 0.

(** [for (let offset = 0; offset < count; offset += pageSize)], ended early by
    an empty page; [count] rounds are enough. *)
Fixpoint spends_from {S} (fuel : nat) (reader : TreasuryStateReader) (id : string) (count offset : Z) :
    M S (list TreasuryStreamSpendRecord) :=
  match fuel with
  | O => mret []
  | Datatypes.S fuel' =>
    if offset <? count then
      page ← lift (getStreamSpends reader id offset (Z.min pageSize (count - offset)));
      match page with
      | [] => mret []
      | _ => rest ← spends_from fuel' reader id count (offset + pageSize); mret (page ++ rest)
      end
    else mret []
  end.
Definition getAllStreamSpends {S} (reader : TreasuryStateReader) (stream : TreasuryStreamRecord) :
    M S (list TreasuryStreamSpendRecord) :=
  match spendCount stream with
  | VNum count => spends_from (Z.to_nat count) reader (streamId stream) count 0
  | _ => mret []
  end.

(** ** Storing *)
Section store.
Context `{Runtime}.
Implicit Types (d : Db).

(** [TreasuryStreamEventRecord]; [None] and [VUndefined] are absent fields. *)
Record TreasuryStreamEventRecord := mkTreasuryStreamEventRecord {
  r_eventId : string; r_eventType : string; r_streamId : string;
  r_name : option string; r_owner : option string; r_recipient : option string; r_amount : option string;
  r_totalAmount : option string; r_recipientCount : JsValue; r_caller : option string;
  r_unspentReturned : option string; r_oldEndLedger : JsValue; r_newEndLedger : JsValue;
  r_additionalAmount : option string; r_newTotalAmount : option string; r_unspent : option string;
  r_ledger : Z; r_transactionHash : option string; r_payload : string }.
#[export] Instance TreasuryStreamEventRecord_eta : Eta TreasuryStreamEventRecord := λ r,
  mkTreasuryStreamEventRecord (r_eventId r) (r_eventType r) (r_streamId r) (r_name r) (r_owner r) (r_recipient r)
    (r_amount r) (r_totalAmount r) (r_recipientCount r) (r_caller r) (r_unspentReturned r) (r_oldEndLedger r)
    (r_newEndLedger r) (r_additionalAmount r) (r_newTotalAmount r) (r_unspent r) (r_ledger r)
    (r_transactionHash r) (r_payload r).

Definition stream_row (s : TreasuryStreamRecord) (ledger : Z) : option (Z * StreamRow) :=
  id ← NUMERIC 20 (VStr (streamId s));
  total_allocated ← NUMERIC 39 (VStr (totalAllocated s));
  total_spent ← NUMERIC 39 (VStr (totalSpent s));
  start_ledger ← BIGINT (startLedger s);
  end_ledger ← BIGINT (endLedger s);
  revoked_at ← nullable BIGINT (revokedAtLedger s);
  max_single_spend ← NUMERIC 39 (VStr (maxSingleSpend s));
  cooldown ← BIGINT (cooldownLedgers s);
  last_spend ← BIGINT (lastSpendLedger s);
  count ← BIGINT (spendCount s);
  created_by ← NUMERIC 20 (VStr (createdByProposalId s));
  updated_at ← BIGINT (VNum ledger);
  Some (id, mkStreamRow (name s) (owner s) (token s) total_allocated total_spent start_ledger end_ledger
    (isActive s) (isRevoked s) revoked_at max_single_spend cooldown last_spend count created_by updated_at).

Definition upsert_stream_row (id : Z) (row : StreamRow) (m : gmap Z StreamRow) : gmap Z StreamRow :=
  <[id := match m !! id with
          | Some old => row <| sm_updated_at_ledger := Z.max (sm_updated_at_ledger old) (sm_updated_at_ledger row) |>
          | None => row
          end]> m.
Definition upsertStream (stream : TreasuryStreamRecord) (ledger : Z) : Stmt := λ d,
  '(id, row) ← stream_row stream ledger;
  Some (d <| treasury_streams ::= (upsert_stream_row id row) |>).

Definition spend_row (s : TreasuryStreamSpendRecord) : option ((Z * Z) * SpendRow) :=
  id ← NUMERIC 20 (VStr (s_streamId s));
  index ← BIGINT (spendIndex s);
  amount ← NUMERIC 39 (VStr (amount s));
  executed_at ← BIGINT (executedAtLedger s);
  Some ((id, index), mkSpendRow (recipient s) amount (memo s) executed_at (executedBy s)).
Definition upsertSpend (spend : TreasuryStreamSpendRecord) : Stmt := λ d,
  '(key, row) ← spend_row spend;
  if bool_decide (is_Some (treasury_stream_spends d !! key)) || bool_decide (is_Some (treasury_streams d !! key.1))
  then Some (d <| treasury_stream_spends ::= (<[key := row]>) |>) else None.

Definition event_row (e : TreasuryStreamEventRecord) : option StreamEventRow :=
  stream_id ← NUMERIC 20 (VStr (r_streamId e));
  amount ← nullable (NUMERIC 39) (opt_text (r_amount e));
  total ← nullable (NUMERIC 39) (opt_text (r_totalAmount e));
  count ← nullable BIGINT (r_recipientCount e);
  returned ← nullable (NUMERIC 39) (opt_text (r_unspentReturned e));
  old_end ← nullable BIGINT (r_oldEndLedger e);
  new_end ← nullable BIGINT (r_newEndLedger e);
  additional ← nullable (NUMERIC 39) (opt_text (r_additionalAmount e));
  new_total ← nullable (NUMERIC 39) (opt_text (r_newTotalAmount e));
  unspent ← nullable (NUMERIC 39) (opt_text (r_unspent e));
  ledger ← BIGINT (VNum (r_ledger e));
  Some (mkStreamEventRow (r_eventType e) stream_id (r_name e) (r_owner e) (r_recipient e) amount total count
    (r_caller e) returned old_end new_end additional new_total unspent ledger (r_transactionHash e) (r_payload e)).
Definition insert_stream_event (e : TreasuryStreamEventRecord) : Stmt := λ d,
  row ← event_row e;
  Some (d <| treasury_stream_events ::= (insert_new (r_eventId e) row) |>).

Definition treasuryStreamEventExists (eventId : string) : M World bool :=
  select (λ d, bool_decide (is_Some (treasury_stream_events d !! eventId))).

(** [BEGIN] to [COMMIT], or [ROLLBACK] and the error again. *)
Definition transaction {A} (m : M World A) : M World A := λ w,
  match m w with
  | (Ok a, w') => (Ok a, w')
  | (Throw e, w') => (Throw e, w' <| w_db := w_db w |>)
  end.

Definition persistTreasuryStreamEvent (event : TreasuryStreamEventRecord) (stream : TreasuryStreamRecord)
    (spends : list TreasuryStreamSpendRecord) : M World bool :=
  transaction (
    present ← treasuryStreamEventExists (r_eventId event);
    query (insert_stream_event event);;
    if (present : bool) then mret false
    else
      query (upsertStream stream (r_ledger event));;
      for_each (λ spend, query (upsertSpend spend)) spends;;
      mret true).

Fixpoint bootstrap_streams (reader : TreasuryStateReader) (ledger : Z) (streams : list TreasuryStreamRecord)
    (count : Z) : M World Z :=
  match streams with
  | [] => mret count
  | stream :: rest =>
    query (upsertStream stream ledger);;
    spends ← getAllStreamSpends reader stream;
    for_each (λ spend, query (upsertSpend spend)) spends;;
    bootstrap_streams reader ledger rest (count + Z.of_nat (length spends))
  end.
Definition bootstrapTreasuryProjection (fuel : nat) (reader : TreasuryStateReader) (ledger : Z) : M World (Z * Z) :=
  streams ← getAllTreasuryStreams fuel reader;
  count ← bootstrap_streams reader ledger streams 0;
  mret (Z.of_nat (length streams), count).

(** ** The events *)
Definition expectedFields (eventType : string) : nat :=
  if String.eqb eventType "stream_exhausted" then 1
  else if String.eqb eventType "stream_expired" then 2 else 3.

(** [Number.isSafeInteger(v)] *)
Definition isSafeInteger (v : JsValue) : bool := match v with VNum n => Z.abs n <=? 2 ^ 53 - 1 | _ => false end.

Definition decodeTreasuryStreamEvent (event : EventResponse) (eventType : string) : M World TreasuryStreamEventRecord :=
  let raw := ev_value event in
  let data := as_array raw in
  throw_if (negb (Nat.eqb (length data) (expectedFields eventType)))
    (PlainError (eventType +:+ " expected " +:+ decimal (Z.of_nat (expectedFields eventType)) +:+
                 " fields, received " +:+ decimal (Z.of_nat (length data))));;
  let streamId := js_String (nth_value data 0) in
  throw_if (String.eqb streamId "" || String.eqb streamId "undefined") (PlainError (eventType +:+ " is missing stream_id"));;
  let payload := event_payload event (ev_topic event) in
  let text i := Some (js_String (nth_value data i)) in
  let number i := js_Number (nth_value data i) in
  let record := mkTreasuryStreamEventRecord
    (indexerEventId event eventType (ev_contractId event) payload) eventType streamId
    None None None None None VUndefined None None VUndefined VUndefined None None None
    (ev_ledger event) (ev_txHash event) payload in
  if String.eqb eventType "stream_created" then mret (record <| r_name := text 1%nat |> <| r_owner := text 2%nat |>)
  else if String.eqb eventType "stream_spend" then
    mret (record <| r_recipient := text 1%nat |> <| r_amount := text 2%nat |>)
  else if String.eqb eventType "stream_batch" then
    throw_if (negb (isSafeInteger (number 2%nat))) (PlainError (eventType +:+ " has an invalid recipient_count"));;
    mret (record <| r_totalAmount := text 1%nat |> <| r_recipientCount := number 2%nat |>)
  else if String.eqb eventType "stream_revoked" then
    mret (record <| r_caller := text 1%nat |> <| r_unspentReturned := text 2%nat |>)
  else if String.eqb eventType "stream_extended" then
    throw_if (negb (isSafeInteger (number 1%nat)) || negb (isSafeInteger (number 2%nat)))
      (PlainError (eventType +:+ " has an invalid ledger value"));;
    mret (record <| r_oldEndLedger := number 1%nat |> <| r_newEndLedger := number 2%nat |>)
  else if String.eqb eventType "stream_topped_up" then
    mret (record <| r_additionalAmount := text 1%nat |> <| r_newTotalAmount := text 2%nat |>)
  else if String.eqb eventType "stream_expired" then mret (record <| r_unspent := text 1%nat |>)
  else mret record.

Definition treasuryBroadcastData (e : TreasuryStreamEventRecord) : list (string * JsValue) :=
  [("stream_id", VStr (r_streamId e)); ("ledger", VNum (r_ledger e))] ++
  base.filter (λ kv, is_undefined kv.2 = false)
    [("name", opt_undefined (r_name e)); ("owner", opt_undefined (r_owner e));
     ("recipient", opt_undefined (r_recipient e)); ("amount", opt_undefined (r_amount e));
     ("total_amount", opt_undefined (r_totalAmount e)); ("recipient_count", r_recipientCount e);
     ("caller", opt_undefined (r_caller e)); ("unspent_returned", opt_undefined (r_unspentReturned e));
     ("old_end_ledger", r_oldEndLedger e); ("new_end_ledger", r_newEndLedger e);
     ("additional_amount", opt_undefined (r_additionalAmount e));
     ("new_total_amount", opt_undefined (r_newTotalAmount e)); ("unspent", opt_undefined (r_unspent e))].

Definition handleTreasuryStreamEvent (rpcEvent : EventResponse) (eventType : string)
    (reader : option TreasuryStateReader) : M World unit :=
  reader ← unwrap reader (PlainError "Treasury stream indexing requires TREASURY_SIMULATION_ACCOUNT");
  event ← decodeTreasuryStreamEvent rpcEvent eventType;
  present ← treasuryStreamEventExists (r_eventId event);
  if (present : bool) then mret tt
  else
    stream ← lift (getStream reader (r_streamId event));
    spends ← (if String.eqb eventType "stream_spend" || String.eqb eventType "stream_batch"
              then getAllStreamSpends reader stream else mret []);
    inserted ← persistTreasuryStreamEvent event stream spends;
    if (inserted : bool) then
      evict ["treasury:stream:" +:+ r_streamId event; "treasury:budget-summary"];;
      evict_prefix "treasury:streams:";;
      evict_prefix ("treasury:stream:" +:+ r_streamId event +:+ ":spends:");;
      evict_prefix ("treasury:stream:" +:+ r_streamId event +:+ ":events:");;
      broadcast eventType (treasuryBroadcastData event)
    else mret tt.
End store.
