(* ===== verification/Indexer.v ===== *)
(** * Indexer: the event loop

    [processEvents] of [packages/indexer/src/events.ts], with the contracts it
    asks for, the classification of an event by its contract and the dispatch
    to the handlers, and the polling step of [index.ts].  A branch of the
    source's [if] chain over the contracts is a definition of its own. *)

From S2P Require Import Prelude JsValues Cache IndexerDb IndexerWorld.
From S2P Require Import IndexerGovernor.
From S2P Require Import Concentration.
From S2P Require Import IndexerDelegation.
From S2P Require Import IndexerTracks.
From S2P Require Import IndexerTimelock.
From S2P Require Import TreasuryProjection.

(** ** Configuration *)
Record IndexerConfig := mkIndexerConfig {
  governorAddress : string;
  wrapperAddress : option string;
  treasuryAddress : option string;
  liquidityAddress : option string;
  coSponsorshipAddress : option string;
  proposalBondsAddress : option string;
  tokenVotesAddress : option string;
  timelockAddress : option string;
  convictionVotingAddress : option string;
  signalAnchorAddress : option string;
  treasuryStrategiesAddress : option string;
  optimisticGovernorAddress : option string;
  voteEscrowAddress : option string;
  treasuryStateReader : option TreasuryStateReader;
}.

(** [if (address) contractIds.push(address)] *)
Definition configured (address : option string) : list string :=
  match address with Some (String c s) => [String c s] | _ => [] end.
Definition contractIds (config : IndexerConfig) : list string :=
  configured (Some (governorAddress config)) ++ configured (wrapperAddress config) ++
  configured (treasuryAddress config) ++ configured (liquidityAddress config) ++
  configured (coSponsorshipAddress config) ++ configured (proposalBondsAddress config) ++
  configured (tokenVotesAddress config) ++ configured (timelockAddress config) ++
  configured (convictionVotingAddress config) ++ configured (signalAnchorAddress config) ++
  configured (optimisticGovernorAddress config) ++ configured (voteEscrowAddress config).

(** [!!(contractId && address && contractId === address)] *)
Definition is_contract (contractId address : option string) : bool :=
  match contractId with
  | Some c => negb (String.eqb c "") && bool_decide (address = Some c)
  | None => false
  end.

Definition TOPIC_MAP : list (string * string) :=
  [("prop_crtd", "ProposalCreated"); ("vote", "VoteCast"); ("vote_rsn", "VoteCastWithReason");
   ("queued", "ProposalQueued"); ("executed", "ProposalExecuted"); ("cancelled", "ProposalCancelled");
   ("delegate", "DelegateChanged"); ("del_chsh", "DelegateChanged"); ("config_updated", "ConfigUpdated");
   ("upgraded", "GovernorUpgraded");
   ("ProposalCreated", "ProposalCreated"); ("VoteCast", "VoteCast"); ("VoteCastWithReason", "VoteCastWithReason");
   ("ProposalQueued", "ProposalQueued"); ("ProposalExecuted", "ProposalExecuted");
   ("ProposalCancelled", "ProposalCancelled"); ("DelegateChanged", "DelegateChanged");
   ("ConfigUpdated", "ConfigUpdated"); ("GovernorUpgraded", "GovernorUpgraded");
   ("ReputationUpdated", "ReputationUpdated"); ("EffectiveThresholdChanged", "EffectiveThresholdChanged");
   ("DelegatedBySig", "DelegatedBySig"); ("PermitsInvalidated", "PermitsInvalidated");
   ("RelayerWhitelistUpdated", "RelayerWhitelistUpdated");
   ("stream_created", "stream_created"); ("stream_spend", "stream_spend"); ("stream_batch", "stream_batch");
   ("stream_revoked", "stream_revoked"); ("stream_extended", "stream_extended");
   ("stream_topped_up", "stream_topped_up"); ("stream_exhausted", "stream_exhausted");
   ("stream_expired", "stream_expired")].

(** [TOPIC_MAP[raw] ?? raw] *)
Definition event_type (raw : JsValue) : JsValue :=
  match jm_get (js_String raw) TOPIC_MAP with Some t => VStr t | None => raw end.
(** The text a [switch] compares with; what is no text matches no case. *)
Definition event_name (t : JsValue) : string := match t with VStr s => s | _ => "" end.

Section indexer.
Context `{Runtime}.
Implicit Types (event : EventResponse) (topics : list JsValue) (config : IndexerConfig).

(** ** The durable log *)
Definition insert_event_log (event_id : string) (event_type ledger tx contract payload : JsValue) : Stmt := λ d,
  event_type ← VARCHAR 64 event_type; ledger ← INTEGER ledger; tx ← nullable (VARCHAR 64) tx;
  contract ← VARCHAR 56 contract; payload ← TEXT payload;
  match jm_get event_id (event_log d) with
  | Some _ => Some d
  | None => Some (d <| event_log ::= (jm_set event_id (mkEventLogRow event_type ledger tx contract payload)) |>)
  end.

Definition log_event_id event (eventType : JsValue) topics : string :=
  indexerEventId event (js_String eventType) (ev_contractId event) (event_payload event topics).
Definition logToEventLog event (eventType : JsValue) topics : M World unit :=
  query (insert_event_log (log_event_id event eventType topics) eventType (ledger_value event)
    (opt_text (ev_txHash event)) (VStr (default "" (ev_contractId event))) (VStr (event_payload event topics))).

(** ** Dispatch *)

(** [switch (s) { case c: await m; break; ... default: break; }] *)
Fixpoint switch (s : string) (cases : list (string * M World unit)) : M World unit :=
  match cases with
  | [] => mret tt
  | (c, m) :: rest => if String.eqb s c then m else switch s rest
  end.

Definition treasury_cases config event (eventType : string) topics : list (string * M World unit) :=
  let stream := handleTreasuryStreamEvent event eventType (treasuryStateReader config) in
  [("bat_xfer", handleTreasuryBatchTransfer event topics);
   ("stream_created", stream); ("stream_spend", stream); ("stream_batch", stream); ("stream_revoked", stream);
   ("stream_extended", stream); ("stream_topped_up", stream); ("stream_exhausted", stream);
   ("stream_expired", stream)].
Definition wrapper_cases event topics : list (string * M World unit) :=
  [("deposit", handleWrapperDeposit event topics); ("Deposit", handleWrapperDeposit event topics);
   ("withdraw", handleWrapperWithdraw event topics); ("Withdraw", handleWrapperWithdraw event topics);
   ("DelegateChanged", handleDelegateChanged event topics)].
Definition liquidity_cases event topics : list (string * M World unit) :=
  [("LiquidityAdded", handleLiquidityAdded event topics); ("LiquidityRemoved", handleLiquidityRemoved event topics);
   ("Swap", handleSwap event topics); ("PoolFeeUpdated", handlePoolFeeUpdated event)].
Definition co_sponsorship_cases event topics : list (string * M World unit) :=
  [("DraftCreated", handleDraftCreated event topics); ("CoSponsored", handleCoSponsored event topics);
   ("CoSponsorshipWithdrawn", handleCoSponsorshipWithdrawn event topics);
   ("DraftFinalized", handleDraftFinalized event); ("DraftCancelled", handleDraftCancelled event);
   ("DraftExpired", handleDraftExpired event)].
Definition proposal_bonds_cases event topics : list (string * M World unit) :=
  [("BondLocked", handleBondLocked event topics); ("BondRefunded", handleBondRefunded event topics);
   ("BondSlashed", handleBondSlashed event topics)].
Definition token_votes_cases event topics : list (string * M World unit) :=
  [("DelegateChanged", handleDelegateChanged event topics);
   ("DelegationRegistered", handleDelegationRegistered event topics);
   ("DelegationRevoked", handleDelegationRevoked event topics);
   ("DelegationDepthLimitUpdated", handleDelegationDepthLimitUpdated event);
   ("DelegatedBySig", handleDelegatedBySig event topics);
   ("PermitsInvalidated", handlePermitsInvalidated event topics);
   ("RelayerWhitelistUpdated", handleRelayerWhitelistUpdated event topics);
   ("SplitDelegated", handleSplitDelegated event topics);
   ("SplitUndelegated", handleSplitUndelegated event topics)].
Definition timelock_cases event : list (string * M World unit) :=
  [("OperationScheduled", handleTimelockOperationScheduled event);
   ("OperationExecuted", handleTimelockOperationExecuted event);
   ("OperationCancelled", handleTimelockOperationCancelled event);
   ("BatchOperationScheduled", handleTimelockBatchOperationScheduled event);
   ("BatchOperationExecuted", handleTimelockBatchOperationExecuted event);
   ("BatchOperationCancelled", handleTimelockBatchOperationCancelled event);
   ("MinDelayUpdated", handleTimelockMinDelayUpdated event);
   ("DependencyDagValidated", handleTimelockDependencyDagValidated event);
   ("CycleDetected", handleTimelockCycleDetected event);
   ("PartialBatchStarted", handleTimelockPartialBatchStarted event);
   ("PartialOpSucceeded", handleTimelockPartialOpSucceeded event);
   ("PartialOpFailed", handleTimelockPartialOpFailed event);
   ("BatchRecoveryEntered", handleTimelockBatchRecoveryEntered event);
   ("FailedOpRetried", handleTimelockFailedOpRetried event);
   ("FailedOpSkipped", handleTimelockFailedOpSkipped event);
   ("BatchFullyComplete", handleTimelockBatchFullyComplete event)].
Definition signal_anchor_cases event topics : list (string * M World unit) :=
  [("ResultAnchored", handleResultAnchored event topics)].
Definition treasury_strategies_cases event topics : list (string * M World unit) :=
  [("StratReg", handleStrategyRegistered event topics); ("StratDeact", handleStrategyDeactivated event topics);
   ("Deposited", handleStrategyDeposited event topics);
   ("WdrawReq", handleStrategyWithdrawalRequested event topics);
   ("WdrawClaim", handleStrategyWithdrawalClaimed event topics)].
Definition governor_cases event topics : list (string * M World unit) :=
  [("ProposalCreated", handleProposalCreated event topics);
   ("VoteCast", handleVoteCast event topics false); ("VoteCastWithReason", handleVoteCast event topics true);
   ("ProposalQueued", handleProposalQueued topics); ("ProposalExecuted", handleProposalExecuted topics);
   ("ProposalCancelled", handleProposalCancelled event);
   ("DelegateChanged", handleDelegateChanged event topics);
   ("ConfigUpdated", handleConfigUpdated event); ("GovernorUpgraded", handleGovernorUpgraded event);
   ("ReputationUpdated", handleReputationUpdated event topics);
   ("EffectiveThresholdChanged", handleEffectiveThresholdChanged event topics)].

Definition dispatch config event (eventType : string) topics : M World unit :=
  let sent_by address := is_contract (ev_contractId event) (address config) in
  if sent_by convictionVotingAddress then handleConvictionEvent event eventType topics
  else if sent_by treasuryAddress then switch eventType (treasury_cases config event eventType topics)
  else if sent_by wrapperAddress then switch eventType (wrapper_cases event topics)
  else if sent_by liquidityAddress then switch eventType (liquidity_cases event topics)
  else if sent_by coSponsorshipAddress then switch eventType (co_sponsorship_cases event topics)
  else if sent_by proposalBondsAddress then switch eventType (proposal_bonds_cases event topics)
  else if sent_by tokenVotesAddress then switch eventType (token_votes_cases event topics)
  else if sent_by timelockAddress then switch eventType (timelock_cases event)
  else if sent_by signalAnchorAddress then switch eventType (signal_anchor_cases event topics)
  else if sent_by treasuryStrategiesAddress then switch eventType (treasury_strategies_cases event topics)
  else if sent_by optimisticGovernorAddress then handleOptimisticGovernorEvent event eventType topics
  else if sent_by voteEscrowAddress then handleVoteEscrowEvent event eventType topics
  else switch eventType (governor_cases event topics).

(** ** The loop *)

(** The body of the loop over the events of a page. *)
Definition process_event config event : M World unit :=
  let topics := ev_topic event in
  let eventType := event_type (nth_value topics 0) in
  logToEventLog event eventType topics;;
  dispatch config event (event_name eventType) topics.

Fixpoint process_page config (events : list EventResponse) (latestLedger : Z) : M World Z :=
  match events with
  | [] => mret latestLedger
  | event :: rest =>
    process_event config event;;
    process_page config rest (Z.max latestLedger (ev_ledger event))
  end.

(** [server.getEvents({ startLedger, filters: [{ contractIds }], limit })] *)
Definition GetEvents : Type := Z → list string → Z → outcome (list EventResponse).
Definition page_limit : Z := 200.

Definition processEvents (getEvents : GetEvents) config (startLedger : Z) : M World Z :=
  events ← lift (getEvents startLedger (contractIds config) page_limit);
  process_page config events (startLedger - 1).

Definition getLastIndexedLedger : M World Z := select last_ledger.
Definition updateLastIndexedLedger (ledger : Z) : M World unit :=
  query (λ d, ledger ← INTEGER (VNum ledger); Some (d <| last_ledger := ledger |>)).

(** One poll: the variable [lastLedger] it leaves, and the world.  Errors are
    caught and logged; what was written before them stays. *)
Definition pollOnce (getEvents : GetEvents) config (lastLedger : Z) (w : World) : Z * World :=
  match processEvents getEvents config (lastLedger + 1) w with
  | (Ok latestLedger, w1) =>
    if lastLedger <? latestLedger then
      match updateLastIndexedLedger latestLedger w1 with
      | (Ok _, w2) =>
        (latestLedger, snd ((maybeTakeGovernanceSnapshot latestLedger;; maybeTakeConcentrationSnapshot latestLedger) w2))
      | (Throw _, w2) => (lastLedger, w2)
      end
    else (lastLedger, w1)
  | (Throw _, w1) => (lastLedger, w1)
  end.
End indexer.

(** ** A small deployment

    A configuration, a database with one open proposal and a few events, on
    which the theorems about the indexer are applied. *)
Definition ex_runtime : Runtime :=
  {| sha256_hex := λ s, s; parse_date := λ _, None; pg_composite := λ _, "{}" |}.

(** A governor, a timelock and a vote escrow; the strategies contract has an
    address of its own. *)
Definition ex_config : IndexerConfig := {|
  governorAddress := "G"; wrapperAddress := None; treasuryAddress := Some "T"; liquidityAddress := None;
  coSponsorshipAddress := None; proposalBondsAddress := None; tokenVotesAddress := None;
  timelockAddress := Some "L"; convictionVotingAddress := None; signalAnchorAddress := None;
  treasuryStrategiesAddress := Some "S"; optimisticGovernorAddress := None; voteEscrowAddress := Some "E";
  treasuryStateReader := None |}.

Definition ex_proposal : ProposalRow := mkProposalRow "alice" "raise the quorum" None 5 50 0 0 0 false false false.
Definition ex_world : World :=
  mkWorld (empty_db <| proposals := {[1 := ex_proposal]} |>) empty_cache [].

Definition ex_event (id contract : string) (ledger : Z) (topic : list JsValue) (value : JsValue) : EventResponse :=
  mkEventResponse (Some id) ledger (Some contract) (Some "tx") VUndefined topic value.

(** Bob votes for proposal 1 with weight 7, and an event that has no data. *)
Definition ex_vote : EventResponse :=
  ex_event "e1" "G" 11 [VStr "vote"; VStr "bob"] (VArr [VBig 1; VNum 1; VBig 7]).
Definition ex_broken_vote : EventResponse := ex_event "e2" "G" 12 [VStr "vote"; VStr "carol"] VNull.
