(* ===== verification/IndexerInvariants.v ===== *)
(** * Indexer: the database stays well formed

    Every row refers to rows that exist, keys are unique, and the stored
    numbers fit their columns, after any poll of any events.  The proof goes
    through all handlers by [Keeps]: a statement that concerns the invariant
    has an instance of its own, the rest is solved by looking at the tables it
    writes. *)

From S2P Require Import Prelude JsValues Cache IndexerDb IndexerWorld.
From S2P Require Import IndexerGovernor.
From S2P Require Import Concentration.
From S2P Require Import IndexerDelegation.
From S2P Require Import IndexerTracks.
From S2P Require Import IndexerTimelock.
From S2P Require Import TreasuryProjection.
From S2P Require Import Indexer.

(** ** Automation *)
Ltac head_of t := lazymatch t with ?f _ => head_of f | _ => t end.

(** Take a statement that went through apart: every check it passed becomes a
    hypothesis, and the new database is replaced by the update of the old. *)
Ltac stmt_step H :=
  lazymatch type of H with
  | Some _ = Some _ => injection H as <-
  | None = Some _ => discriminate H
  | (_ ≫= _) = Some _ => let E := fresh "Hcol" in apply bind_Some in H as (? & E & H); cbv beta in H
  | (if ?b then _ else _) = Some _ => destruct b eqn:?
  | (match ?o with Some _ => _ | None => _ end) = Some _ => destruct o eqn:?
  | (match ?p with (_, _) => _ end) = Some _ => destruct p
  | ?t = Some _ => let h := head_of t in first [unfold h in H | progress cbv beta in H]
  end.
Ltac stmt_inv H := cbv beta in H; repeat stmt_step H.

Ltac solve_untouched :=
  let Hs := fresh "Hs" in
  intros ? ? ? Hs; stmt_inv Hs; cbn; assumption.

(** ** Instances for the control structure of the dispatch *)
Section control.
Context (I : Db → Prop).
Lemma keeps_switch_case s (cases : list (string * M World unit)) :
  Forall (λ c, s = c.1 → Keeps I c.2) cases → Keeps I (switch s cases).
Proof.
  induction 1 as [|[c m] rest Hm _ IH]; cbn [switch]; [apply _|].
  cbn in Hm. destruct (String.eqb_spec s c); auto.
Qed.
#[export] Instance keeps_switch s (cases : list (string * M World unit)) :
  Forall (λ c, Keeps I c.2) cases → Keeps I (switch s cases).
Proof. intros Hc. apply keeps_switch_case. by eapply Forall_impl; [exact Hc|]. Qed.
#[export] Instance keeps_transaction {A} (m : M World A) : Keeps I m → Keeps I (transaction m).
Proof.
  intros Hm w Hw. specialize (Hm w Hw). revert Hm. unfold wp, transaction.
  destruct (m w) as [[a|e] w']; [done|]. intros _. exact Hw.
Qed.
Lemma keeps_pair {A B C} (p : A * B) (k : A → B → M World C) :
  (∀ a b, Keeps I (k a b)) → Keeps I (let '(a, b) := p in k a b).
Proof. destruct p. auto. Qed.
#[export] Instance keeps_fmap {A B} (f : A → B) (m : M World A) : Keeps I m → Keeps I (f <$> m).
Proof.
  intros Hm w Hw. specialize (Hm w Hw). revert Hm. unfold wp, fmap, M_fmap.
  by destruct (m w) as [[a|e] w'].
Qed.
End control.

#[export] Instance reads_fmap {S A B} (f : A → B) (m : M S A) : Reads m → Reads (f <$> m).
Proof. intros [[a|e] Hm]; [exists (Ok (f a))|exists (Throw e)]; intros s; unfold fmap, M_fmap; by rewrite Hm. Qed.
#[export] Instance reads_if {S A} (b : bool) (m1 m2 : M S A) : Reads m1 → Reads m2 → Reads (if b then m1 else m2).
Proof. by destruct b. Qed.
#[export] Instance reads_spends {S} fuel reader id count offset : Reads (S := S) (spends_from fuel reader id count offset).
Proof.
  revert offset. induction fuel as [|fuel IH]; intros offset; cbn [spends_from]; [apply _|].
  destruct (offset <? count); [|apply _]. apply reads_bind; [apply _|]. intros [|p page]; apply _.
Qed.
#[export] Instance reads_all_spends {S} reader stream : Reads (S := S) (getAllStreamSpends reader stream).
Proof. unfold getAllStreamSpends. destruct (spendCount stream); apply _. Qed.
#[export] Instance reads_streams {S} fuel reader offset : Reads (S := S) (streams_from fuel reader offset).
Proof.
  revert offset. induction fuel as [|fuel IH]; intros offset; cbn [streams_from]; [apply _|].
  apply reads_bind; [apply _|]. intros page. destruct (_ <? _); apply _.
Qed.

#[export] Instance reads_map_strings `{Runtime} v : Reads (map_strings v).
Proof. destruct v; unfold map_strings; apply _. Qed.
#[export] Instance reads_decode_created `{Runtime} event topics : Reads (decode_proposal_created event topics).
Proof. unfold decode_proposal_created. destruct (ev_value event); apply _. Qed.
#[export] Instance reads_settings `{Runtime} v : Reads (toGovernorSettings v).
Proof. destruct v; unfold toGovernorSettings; try apply _. repeat case_match; apply _. Qed.
#[export] Instance reads_decode_stream `{Runtime} event t : Reads (decodeTreasuryStreamEvent event t).
Proof. unfold decodeTreasuryStreamEvent. cbv zeta. apply _. Qed.

(** ** The statements of the handlers *)
Create HintDb stmts discriminated.
#[export] Hint Constants Opaque : stmts.
Section stmts.
Context `{Runtime}.

(** What the strategies' handlers run. *)
Inductive strategy_stmt : Stmt → Prop :=
  | hs_insert_strategy a b c d : strategy_stmt (insert_strategy a b c d)
  | hs_deactivate_strategy a : strategy_stmt (deactivate_strategy a)
  | hs_insert_allocation a b c : strategy_stmt (insert_allocation a b c)
  | hs_shift_allocation s a b : strategy_stmt (shift_allocation s a b)
  | hs_insert_withdrawal a b c d e : strategy_stmt (insert_withdrawal a b c d e)
  | hs_claim_withdrawal a b c : strategy_stmt (claim_withdrawal a b c).

(** What a vote runs. *)
Inductive vote_stmt : Stmt → Prop :=
  | hs_upsert_vote a b c d e f : vote_stmt (upsert_vote a b c d e f)
  | hs_add_to_tally col a b : vote_stmt (add_to_tally col a b).

(** What all other handlers run. *)
Inductive handler_stmt : Stmt → Prop :=
  | hs_insert_proposal a b c d e f : handler_stmt (insert_proposal a b c d e f)
  | hs_queue a : handler_stmt (update_proposal_row (λ r, r <| pr_queued := true |>) a)
  | hs_execute a : handler_stmt (update_proposal_row (λ r, r <| pr_executed := true |>) a)
  | hs_cancel a : handler_stmt (update_proposal_row (λ r, r <| pr_cancelled := true |>) a)
  | hs_config a b c d : handler_stmt (insert_config_update a b c d)
  | hs_upgrade a b : handler_stmt (insert_governor_upgrade a b)
  | hs_reputation a b c : handler_stmt (upsert_reputation a b c)
  | hs_reputation_history a b c d e : handler_stmt (insert_reputation_history a b c d e)
  | hs_threshold a b c d : handler_stmt (insert_threshold a b c d)
  | hs_delegate a b c d : handler_stmt (insert_delegate a b c d)
  | hs_entry a b c d e : handler_stmt (insert_delegation_entry a b c d e)
  | hs_revoke a b c : handler_stmt (revoke_entries a b c)
  | hs_deactivate_splits a : handler_stmt (deactivate_splits a)
  | hs_split a b c d : handler_stmt (insert_split a b c d)
  | hs_by_sig a b c d e : handler_stmt (insert_by_sig a b c d e)
  | hs_relayer a b c : handler_stmt (insert_relayer a b c)
  | hs_deposit a b c : handler_stmt (insert_wrapper_deposit a b c)
  | hs_withdrawal a b c : handler_stmt (insert_wrapper_withdrawal a b c)
  | hs_draft a b c d e f : handler_stmt (insert_draft a b c d e f)
  | hs_co_sponsor a b c d : handler_stmt (upsert_co_sponsor a b c d)
  | hs_draft_power a b : handler_stmt (set_draft_power a b)
  | hs_withdraw_sponsor a b : handler_stmt (withdraw_co_sponsor a b)
  | hs_finalize a b : handler_stmt (finalize_draft_row a b)
  | hs_cancel_draft a : handler_stmt (update_draft_row (λ r, r <| dr_cancelled := true |>) a)
  | hs_expire_draft a : handler_stmt (update_draft_row (λ r, r <| dr_expired := true |>) a)
  | hs_bond a b c d : handler_stmt (insert_bond a b c d)
  | hs_refund a b : handler_stmt (refund_bond_row a b)
  | hs_slash a b c : handler_stmt (slash_bond_row a b c)
  | hs_anchor a b c d e : handler_stmt (insert_signal_anchor a b c d e)
  | hs_conviction a b c d e : handler_stmt (insert_conviction_proposal a b c d e)
  | hs_delete_stake a b : handler_stmt (delete_stake a b)
  | hs_upsert_stake a b c d : handler_stmt (upsert_stake a b c d)
  | hs_set_conviction a b c : handler_stmt (set_conviction a b c)
  | hs_conviction_snapshot a b c : handler_stmt (upsert_conviction_snapshot a b c)
  | hs_conviction_executed a : handler_stmt (update_conviction (λ r, r <| cv_executed := true |>) a)
  | hs_conviction_cancelled a : handler_stmt (update_conviction (λ r, r <| cv_cancelled := true |>) a)
  | hs_optimistic a b c d : handler_stmt (insert_optimistic_proposal a b c d)
  | hs_objection a b c d e : handler_stmt (insert_objection a b c d e)
  | hs_objection_votes a b : handler_stmt (set_objection_votes a b)
  | hs_optimistic_state state a : handler_stmt (update_optimistic (λ r, r <| op_state := state |>) a)
  | hs_withdraw_lock a b : handler_stmt (withdraw_lock a b)
  | hs_upsert_lock a b c d e f : handler_stmt (upsert_lock a b c d e f)
  | hs_transfer a b c d e : handler_stmt (insert_transfer a b c d e)
  | hs_liquidity t a b c d e f g : handler_stmt (insert_liquidity t a b c d e f g)
  | hs_swap a b c d e f g : handler_stmt (insert_swap a b c d e f g)
  | hs_pool_fee a b c d e : handler_stmt (insert_pool_fee a b c d e)
  | hs_schedule a b c d e f : handler_stmt (schedule_operation a b c d e f)
  | hs_update_operation f a b c : handler_stmt (update_operation f a b c)
  | hs_schedule_batch a b c d e f : handler_stmt (schedule_batch a b c d e f)
  | hs_update_batch f a b c : handler_stmt (update_batch f a b c)
  | hs_graph a b c d e f : handler_stmt (insert_graph a b c d e f)
  | hs_start_partial a b c : handler_stmt (start_partial a b c)
  | hs_update_partial f a b : handler_stmt (update_partial f a b)
  | hs_succeed_partial a b c d e : handler_stmt (succeed_partial a b c d e)
  | hs_recover_partial a b c : handler_stmt (recover_partial a b c)
  | hs_retry_partial a b c d e : handler_stmt (retry_partial a b c d e)
  | hs_complete_partial a b : handler_stmt (complete_partial a b)
  | hs_complete_batch a b : handler_stmt (complete_batch a b)
  | hs_stream_event a : handler_stmt (insert_stream_event a)
  | hs_stream a b : handler_stmt (upsertStream a b)
  | hs_spend a : handler_stmt (upsertSpend a).
End stmts.
#[export] Hint Constructors handler_stmt vote_stmt strategy_stmt : stmts.

(** Unfold a handler to reach its statements. *)
Ltac unfold_computation :=
  lazymatch goal with
  | |- Keeps _ ?m => let h := head_of m in unfold h; cbv zeta
  end.
Ltac keeps_step :=
  lazymatch goal with
  | |- Keeps _ (query _) => apply keeps_query
  | |- Keeps _ (select _) => apply keeps_select
  | |- Keeps _ (evict _) => apply keeps_evict
  | |- Keeps _ (evict_prefix _) => apply keeps_evict_prefix
  | |- Keeps _ (broadcast _ _) => apply keeps_broadcast
  | |- Keeps _ (_ ≫= _) => apply keeps_bind; [|intros]
  | |- Keeps _ (transaction _) => apply keeps_transaction
  | |- Keeps _ (for_each _ _) => apply keeps_for_each; intros
  | |- Keeps _ (match ?o with Some _ => _ | None => _ end) => destruct o
  | |- Keeps _ (match _ with (_, _) => _ end) => apply keeps_pair; intros
  | |- Keeps _ (if _ then _ else _) => apply keeps_if
  | |- Keeps _ _ => first [apply keeps_reads; solve [apply _] | unfold_computation]
  end.
Ltac solve_keeps := repeat keeps_step.

(** A reading that has no case of its own. *)
Ltac finish_keeps := try solve [apply keeps_reads; apply _].

(** What no other contract of the configuration published is the governor's. *)
Definition from_governor (config : IndexerConfig) (event : EventResponse) : bool :=
  negb (existsb (λ address, is_contract (ev_contractId event) (address config))
    [convictionVotingAddress; treasuryAddress; wrapperAddress; liquidityAddress; coSponsorshipAddress;
     proposalBondsAddress; tokenVotesAddress; timelockAddress; signalAnchorAddress; treasuryStrategiesAddress;
     optimisticGovernorAddress; voteEscrowAddress]).
Definition is_vote (t : string) : bool := String.eqb t "VoteCast" || String.eqb t "VoteCastWithReason".

Section traversal.
Context `{Runtime} (I : Db → Prop).
Hypothesis HI : ∀ s, handler_stmt s → StmtKeeps I s.

Lemma keeps_stream event t reader : Keeps I (handleTreasuryStreamEvent event t reader).
Proof. solve_keeps; finish_keeps; apply HI; auto with stmts nocore. Qed.

(** Every handler but the vote's and the strategies' runs statements of the list only. *)
Lemma switch_keeps config event t topics :
  Keeps I (switch t (treasury_cases config event t topics)) ∧
  Keeps I (switch t (wrapper_cases event topics)) ∧ Keeps I (switch t (liquidity_cases event topics)) ∧
  Keeps I (switch t (co_sponsorship_cases event topics)) ∧ Keeps I (switch t (proposal_bonds_cases event topics)) ∧
  Keeps I (switch t (token_votes_cases event topics)) ∧ Keeps I (switch t (timelock_cases event)) ∧
  Keeps I (switch t (signal_anchor_cases event topics)).
Proof.
  unfold treasury_cases, wrapper_cases, liquidity_cases, co_sponsorship_cases, proposal_bonds_cases,
    token_votes_cases, timelock_cases, signal_anchor_cases.
  repeat split; apply keeps_switch; repeat apply Forall_cons_2; try apply Forall_nil_2; cbn [snd];
    try apply keeps_stream; solve_keeps; finish_keeps; apply HI; auto with stmts nocore.
Qed.
Lemma event_handlers_keep event t topics :
  Keeps I (handleConvictionEvent event t topics) ∧ Keeps I (handleOptimisticGovernorEvent event t topics) ∧
  Keeps I (handleVoteEscrowEvent event t topics).
Proof. repeat split; solve_keeps; finish_keeps; apply HI; auto with stmts nocore. Qed.

Lemma strategies_keep event t topics :
  (∀ s, strategy_stmt s → StmtKeeps I s) → Keeps I (switch t (treasury_strategies_cases event topics)).
Proof.
  intros HS. unfold treasury_strategies_cases.
  apply keeps_switch; repeat apply Forall_cons_2; try apply Forall_nil_2; cbn [snd];
    solve_keeps; finish_keeps; apply HS; auto with stmts nocore.
Qed.

Lemma governor_keeps event t topics :
  (is_vote t = true → ∀ s, vote_stmt s → StmtKeeps I s) → Keeps I (switch t (governor_cases event topics)).
Proof.
  intros HV. unfold governor_cases.
  apply keeps_switch_case; repeat apply Forall_cons_2; try apply Forall_nil_2; cbn [fst snd]; intros ->;
    solve_keeps; finish_keeps;
    first [apply HI; solve [auto with stmts nocore] | apply HV; [reflexivity|auto with stmts nocore]].
Qed.

Lemma dispatch_keeps config event t topics :
  (is_contract (ev_contractId event) (treasuryStrategiesAddress config) = true →
   ∀ s, strategy_stmt s → StmtKeeps I s) →
  (from_governor config event = true → is_vote t = true → ∀ s, vote_stmt s → StmtKeeps I s) →
  Keeps I (dispatch config event t topics).
Proof.
  intros HS HV. unfold dispatch. cbv zeta. unfold from_governor in HV.
  destruct (switch_keeps config event t topics) as (? & ? & ? & ? & ? & ? & ? & ?).
  destruct (event_handlers_keep event t topics) as (? & ? & ?).
  pose proof (strategies_keep event t topics) as Hst.
  repeat match goal with
  | |- Keeps I (if is_contract ?c ?a then _ else _) =>
    destruct (is_contract c a) eqn:?; [first [assumption|by apply Hst, HS]|]
  end.
  apply governor_keeps, HV. cbn [existsb].
  by repeat match goal with H : is_contract _ _ = false |- _ => rewrite H; clear H end.
Qed.

(** An invariant of all statements is one of the dispatch. *)
Lemma dispatch_keeps_all config event t topics :
  (∀ s, strategy_stmt s ∨ vote_stmt s → StmtKeeps I s) → Keeps I (dispatch config event t topics).
Proof. intros HA. apply dispatch_keeps; intros; apply HA; tauto. Qed.
End traversal.

(** ** The invariant *)
Definition bigint (n : Z) : Prop := - 2 ^ 63 ≤ n ≤ 2 ^ 63 - 1.
Definition int4 (n : Z) : Prop := - 2 ^ 31 ≤ n ≤ 2 ^ 31 - 1.
Definition smallint (n : Z) : Prop := - 2 ^ 15 ≤ n ≤ 2 ^ 15 - 1.
Definition numeric39 (n : Z) : Prop := 1 - 10 ^ 39 ≤ n ≤ 10 ^ 39 - 1.

Definition proposal_fits (id : Z) (r : ProposalRow) : Prop :=
  bigint id ∧ int4 (pr_start_ledger r) ∧ int4 (pr_end_ledger r) ∧
  bigint (pr_votes_for r) ∧ bigint (pr_votes_against r) ∧ bigint (pr_votes_abstain r).
Definition vote_fits (r : VoteRow) : Prop :=
  smallint (vt_support r) ∧ bigint (vt_weight r) ∧ int4 (vt_ledger r).

(** A row's reference is to a row of the other table. *)
Definition refers {K A} `{Countable K} (m : gmap K A) (k : K) : Prop := is_Some (m !! k).

Record well_formed (d : Db) : Prop := {
  wf_log_keys : NoDup (event_log d).*1;
  wf_proposals : map_Forall proposal_fits (proposals d);
  wf_vote_keys : NoDup (votes d).*1;
  wf_votes : Forall (λ kv, vote_fits kv.2) (votes d);
  wf_votes_refer : Forall (λ k, refers (proposals d) k.1) (votes d).*1;
  wf_sponsors_refer : map_Forall (λ k _, refers (drafts d) k.1) (draft_co_sponsors d);
  wf_stakes_refer : map_Forall (λ _ r, refers (conviction_proposals d) (sk_proposal_id r)) (conviction_stakes d);
  wf_snapshots_refer : map_Forall (λ k _, refers (conviction_proposals d) k.1) (conviction_snapshots d);
  wf_objections_refer : map_Forall (λ k _, refers (optimistic_proposals d) k.1) (optimistic_objections d);
  wf_allocations_refer : Forall (λ r, refers (treasury_strategies d) (al_strategy_id r)) (strategy_allocations d);
  wf_withdrawals_refer : map_Forall (λ _ r, refers (treasury_strategies d) (wd_strategy_id r)) (strategy_withdrawals d);
  wf_strategies : map_Forall (λ _ r, numeric39 (st_current_allocation r)) (treasury_strategies d);
  wf_spends_refer : map_Forall (λ k _, refers (treasury_streams d) k.1) (treasury_stream_spends d);
}.

Lemma empty_db_well_formed : well_formed empty_db.
Proof. by constructor; cbn; try apply map_Forall_empty; try constructor. Qed.

(** Tables only lose rows of [conviction_stakes], which nothing refers to. *)
Section refers.
Context `{Countable K} {A : Type}.
Implicit Types (m : gmap K A).
Lemma refers_insert m k x i : refers m i → refers (<[k := x]> m) i.
Proof. unfold refers. destruct (decide (k = i)) as [->|]; [by rewrite lookup_insert_eq|by rewrite lookup_insert_ne]. Qed.
Lemma refers_alter m f k i : refers m i → refers (alter f k m) i.
Proof. unfold refers. intros Hi. by apply lookup_alter_is_Some. Qed.
Lemma refers_insert_new m k x i : refers m i → refers (insert_new k x m) i.
Proof. apply insert_new_is_Some. Qed.
Lemma refers_known m k x : m !! k = Some x → refers m k.
Proof. intros Hk. by exists x. Qed.
End refers.

Section carry.
Context `{Countable K} {A : Type} (P : K → A → Prop).
Implicit Types (m : gmap K A).
Lemma map_Forall_insert_keep m k x : P k x → map_Forall P m → map_Forall P (<[k := x]> m).
Proof. intros Hx Hm. by apply map_Forall_insert_2. Qed.
Lemma map_Forall_insert_new m k x : P k x → map_Forall P m → map_Forall P (insert_new k x m).
Proof. intros Hx Hm. unfold insert_new. destruct (m !! k); [done|by apply map_Forall_insert_2]. Qed.
Lemma map_Forall_alter_keep f m k : (∀ x, P k x → P k (f x)) → map_Forall P m → map_Forall P (alter f k m).
Proof.
  intros Hf Hm i x Hi. apply lookup_alter_Some in Hi as [(-> & y & Hy & ->)|[_ Hi]]; [|by apply Hm].
  apply Hf, (Hm _ y Hy).
Qed.
Lemma map_Forall_delete_keep m k : map_Forall P m → map_Forall P (delete k m).
Proof. apply map_Forall_delete. Qed.
End carry.
Lemma map_Forall_mono {K A} `{Countable K} (P Q : K → A → Prop) (m : gmap K A) :
  map_Forall P m → (∀ k x, P k x → Q k x) → map_Forall Q m.
Proof. intros Hm HPQ. by apply (map_Forall_impl P). Qed.

Lemma jm_set_Forall_keys {K V} `{EqDecision K} (P : K → Prop) (k : K) (v : V) l :
  P k → Forall P l.*1 → Forall P (jm_set k v l).*1.
Proof.
  intros Hk Hl. rewrite Forall_forall in *. intros x [->|Hx]%jm_set_keys; [done|by apply Hl].
Qed.

Lemma INTEGER_int4 `{Runtime} v n : INTEGER v = Some n → int4 n.
Proof. apply int_column_range. Qed.
Lemma BIGINT_bigint `{Runtime} v n : BIGINT v = Some n → bigint n.
Proof. apply int_column_range. Qed.
Lemma SMALLINT_smallint `{Runtime} v n : SMALLINT v = Some n → smallint n.
Proof. apply int_column_range. Qed.
Lemma NUMERIC_39 `{Runtime} v n : NUMERIC 39 v = Some n → numeric39 n.
Proof. apply int_column_range. Qed.
Lemma zero_bigint : bigint 0.
Proof. done. Qed.

Lemma zero_numeric39 : numeric39 0.
Proof. unfold numeric39. lia. Qed.
Lemma proposal_fits_new id a b c s e x y z :
  bigint id → int4 s → int4 e → proposal_fits id (mkProposalRow a b c s e 0 0 0 x y z).
Proof. pose proof zero_bigint. unfold proposal_fits. cbn. tauto. Qed.
Lemma set_tally_fits id col n r : bigint n → proposal_fits id r → proposal_fits id (set_tally col n r).
Proof. unfold proposal_fits. destruct col; cbn; tauto. Qed.
Lemma vote_fits_new s w r l : smallint s → bigint w → int4 l → vote_fits (mkVoteRow s w r l).
Proof. unfold vote_fits. cbn. tauto. Qed.

Create HintDb wf.
#[export] Hint Resolve refers_insert refers_alter refers_insert_new refers_known map_Forall_insert_keep
  map_Forall_insert_new map_Forall_delete_keep jm_set_nodup jm_set_Forall jm_set_Forall_keys
  INTEGER_int4 BIGINT_bigint SMALLINT_smallint NUMERIC_39 zero_bigint zero_numeric39
  proposal_fits_new set_tally_fits vote_fits_new : wf.
#[export] Hint Extern 3 (map_Forall _ (alter _ _ _)) => apply map_Forall_alter_keep; [intros ? ?|] : wf.

Ltac wf_close :=
  first
    [ solve [eauto with wf nocore]
    | solve [eapply map_Forall_mono; [eassumption|intros; eauto with wf nocore]]
    | solve [eapply Forall_impl; [eassumption|intros; eauto with wf nocore]]
    | solve [apply map_Forall_insert_new; [cbn; eauto with wf nocore|assumption]]
    | solve [apply map_Forall_insert_keep; [cbn; eauto with wf nocore|assumption]]
    | solve [apply jm_set_Forall; [eauto with wf nocore|assumption]]
    | solve [apply jm_set_Forall_keys; [cbn [fst]; eauto with wf nocore|assumption]]
    | idtac ].

Lemma stmt_well_formed `{Runtime} s :
  handler_stmt s ∨ strategy_stmt s ∨ vote_stmt s → StmtKeeps well_formed s.
Proof.
  intros [Hs|[Hs|Hs]]; destruct Hs; intros db db' Hdb Hrun; stmt_inv Hrun; try assumption;
    destruct Hdb; constructor; cbn; try assumption; wf_close.
  - apply map_Forall_insert_keep; [|done].
    apply orb_true_iff in Heqb as [Hb|Hb]; apply bool_decide_eq_true in Hb; [|done].
    destruct Hb as [x Hx]. exact (wf_spends_refer0 _ _ Hx).
  - apply Forall_app. split; [done|]. apply Forall_singleton. by exists x2.
  - apply jm_set_Forall; [|done]. apply vote_fits_new; eauto with wf.
    apply jm_get_elem in Heqo. rewrite Forall_forall in wf_votes0. by apply (wf_votes0 _ Heqo).
  - apply jm_set_Forall_keys; [|done]. apply jm_get_elem, (list_elem_of_fmap_2 fst) in Heqo.
    rewrite Forall_forall in wf_votes_refer0. exact (wf_votes_refer0 _ Heqo).
Qed.

(** The log and the cursor are written by the loop itself. *)
Lemma log_well_formed `{Runtime} a b c d e f : StmtKeeps well_formed (insert_event_log a b c d e f).
Proof.
  intros db db' Hdb Hrun. stmt_inv Hrun; [done|]. destruct Hdb. constructor; cbn; try assumption.
  by apply jm_set_nodup.
Qed.
Lemma process_event_well_formed `{Runtime} config event : Keeps well_formed (process_event config event).
Proof.
  unfold process_event, logToEventLog. cbv zeta.
  apply keeps_bind; [apply keeps_query, log_well_formed|intros].
  apply dispatch_keeps_all; intros s Hs; apply stmt_well_formed; tauto.
Qed.
Lemma process_page_keeps `{Runtime} I config events latest :
  (∀ event, event ∈ events → Keeps I (process_event config event)) → Keeps I (process_page config events latest).
Proof.
  revert latest. induction events as [|event events IH]; intros latest Hev; cbn [process_page]; [apply _|].
  apply keeps_bind; [apply Hev; by left|]. intros _. apply IH. intros e He. apply Hev. by right.
Qed.
Lemma processEvents_keeps `{Runtime} I getEvents config start :
  (∀ page event, getEvents start (contractIds config) page_limit = Ok page → event ∈ page →
     Keeps I (process_event config event)) →
  Keeps I (processEvents getEvents config start).
Proof.
  intros Hev w Hw. unfold processEvents, lift. rewrite wp_bind. unfold wp at 1.
  destruct (getEvents start (contractIds config) page_limit) as [page|e] eqn:Hpage; [|done].
  apply process_page_keeps; [|done]. intros event. by apply Hev.
Qed.
Lemma keeps_state {A} I (m : M World A) w : Keeps I m → I (w_db w) → I (w_db (snd (m w))).
Proof. intros Hm Hw. specialize (Hm w Hw). unfold wp in Hm. by destruct (m w) as [[a|e] w']. Qed.

(** What a poll does after the events. *)
Lemma snapshots_keep `{Runtime} I ledger :
  (∀ a b, StmtKeeps I (insert_governance_snapshot a b)) → (∀ a b, StmtKeeps I (insert_concentration a b)) →
  Keeps I (maybeTakeGovernanceSnapshot ledger;; maybeTakeConcentrationSnapshot ledger).
Proof. intros H1 H2. solve_keeps; auto. Qed.
Lemma poll_keeps `{Runtime} I getEvents config last w :
  Keeps I (processEvents getEvents config (last + 1)) →
  (∀ l, Keeps I (updateLastIndexedLedger l)) →
  (∀ a b, StmtKeeps I (insert_governance_snapshot a b)) → (∀ a b, StmtKeeps I (insert_concentration a b)) →
  I (w_db w) → I (w_db (snd (pollOnce getEvents config last w))).
Proof.
  intros HP HU H1 H2 Hw. unfold pollOnce.
  pose proof (keeps_state I _ w HP Hw) as Hw1.
  destruct (processEvents getEvents config (last + 1) w) as [[latest|e] w1]; [|done].
  destruct (last <? latest); [|done].
  pose proof (keeps_state I _ w1 (HU latest) Hw1) as Hw2.
  destruct (updateLastIndexedLedger latest w1) as [[[]|e] w2]; [|done].
  exact (keeps_state I _ w2 (snapshots_keep I latest H1 H2) Hw2).
Qed.

(** Whatever events the RPC returns, a poll leaves a well-formed database:
    numbers fit their columns, keys stay unique, and votes, sponsors, stakes,
    conviction snapshots, objections, allocations, withdrawals and spends
    refer to rows that exist.  This holds for polls that fail half way too. *)
Theorem poll_keeps_database_well_formed `{Runtime} (getEvents : GetEvents) (config : IndexerConfig)
    (lastLedger : Z) (w : World) :
  well_formed (w_db w) → well_formed (w_db (snd (pollOnce getEvents config lastLedger w))).
Proof.
  apply poll_keeps.
  - apply processEvents_keeps. intros page event _ _. apply process_event_well_formed.
  - intros l. apply keeps_query. intros db db' Hdb Hrun. stmt_inv Hrun. by destruct Hdb.
  - intros a b db db' Hdb Hrun. stmt_inv Hrun. by destruct Hdb.
  - intros a b db db' Hdb Hrun. stmt_inv Hrun. by destruct Hdb.
Qed.

#[local] Existing Instance ex_runtime.

Lemma ex_world_well_formed : well_formed (w_db ex_world).
Proof.
  constructor; cbn; try apply map_Forall_empty; try apply Forall_nil_2; try apply NoDup_nil_2.
  apply map_Forall_singleton. repeat split; vm_compute; discriminate.
Qed.

Lemma poll_keeps_database_well_formed_witness :
  well_formed (w_db ex_world) ∧
  well_formed (w_db (snd (pollOnce (λ _ _ _, Ok [ex_vote; ex_broken_vote]) ex_config 10 ex_world))).
Proof.
  split; [exact ex_world_well_formed|].
  exact (poll_keeps_database_well_formed (λ _ _ _, Ok [ex_vote; ex_broken_vote]) ex_config 10 ex_world ex_world_well_formed).
Defined.
