(* ===== verification/IndexerLog.v ===== *)
(** * Indexer: what the log and the cursor guarantee

    Every event of a page that was processed is in [event_log] exactly once,
    however often pages are fetched again; polls that fetch whole pages miss no
    event; a page cut inside a ledger loses the rest of that ledger; and the
    strategies contract is never asked for. *)

From S2P Require Import Prelude JsValues Cache IndexerDb IndexerWorld.
From S2P Require Import Concentration.
From S2P Require Import IndexerGovernor.
From S2P Require Import IndexerTracks.
From S2P Require Import Indexer.
From S2P Require Import IndexerInvariants.

Section log.
Context `{Runtime}.
Implicit Types (event : EventResponse) (config : IndexerConfig) (w : World).

(** The identifier an event is logged under. *)
Definition event_id event : string :=
  log_event_id event (event_type (nth_value (ev_topic event) 0)) (ev_topic event).
Definition logged w : list string := (event_log (w_db w)).*1.

(** ** One event *)

(** A log grows by entries under the given identifiers. *)
Definition grows_by (ids : list string) (l l' : list (string * EventLogRow)) : Prop :=
  ∃ added, l' = l ++ added ∧ (∀ k, k ∈ added.*1 → k ∈ ids) ∧ (NoDup l.*1 → NoDup l'.*1).

Lemma grows_by_refl ids l : grows_by ids l l.
Proof. exists []. rewrite app_nil_r. split; [done|]. split; [|done]. by intros k ?%elem_of_nil. Qed.
Lemma grows_by_trans ids1 ids2 l1 l2 l3 :
  grows_by ids1 l1 l2 → grows_by ids2 l2 l3 → grows_by (ids1 ++ ids2) l1 l3.
Proof.
  intros (a1 & -> & H1 & N1) (a2 & -> & H2 & N2). exists (a1 ++ a2). rewrite app_assoc.
  split; [done|]. split; [|auto]. intros k. rewrite fmap_app, !elem_of_app.
  intros [?|?]; [left|right]; auto.
Qed.
Lemma grows_by_keys ids l l' k : grows_by ids l l' → k ∈ l'.*1 → k ∈ l.*1 ∨ k ∈ ids.
Proof. intros (a & -> & Ha & _). rewrite fmap_app, elem_of_app. intros [?|?]; auto. Qed.
Lemma grows_by_sub ids l l' k : grows_by ids l l' → k ∈ l.*1 → k ∈ l'.*1.
Proof. intros (a & -> & _). rewrite fmap_app, elem_of_app. by left. Qed.


Lemma insert_event_log_spec id a b c d e db db' :
  insert_event_log id a b c d e db = Some db' →
  grows_by [id] (event_log db) (event_log db') ∧ id ∈ (event_log db').*1.
Proof.
  intros Hrun. stmt_inv Hrun.
  - split; [apply grows_by_refl|]. by apply jm_get_elem, (list_elem_of_fmap_2 fst) in Heqo.
  - cbn. assert (Hk := Heqo). apply jm_get_None in Hk. rewrite jm_set_fresh by done. split.
    + eexists. split; [done|]. cbn. split; [done|]. intros Hl. rewrite fmap_app. cbn.
      apply NoDup_app. split; [done|]. split; [|apply NoDup_singleton].
      intros k Hin ->%list_elem_of_singleton. done.
    + rewrite fmap_app. cbn. apply elem_of_app. right. by left.
Qed.

(** The handlers leave the log alone. *)
Lemma dispatch_log l config event t topics : Keeps (λ d, event_log d = l) (dispatch config event t topics).
Proof.
  apply dispatch_keeps_all; [|intros s [Hs|Hs]]; [intros s Hs|..]; destruct Hs; solve_untouched.
Qed.

Lemma process_event_log config event w o w' :
  process_event config event w = (o, w') →
  grows_by [event_id event] (event_log (w_db w)) (event_log (w_db w')) ∧
  (∀ a, o = Ok a → event_id event ∈ logged w').
Proof.
  unfold process_event. cbv zeta. fold (event_id event). unfold logToEventLog.
  set (s := insert_event_log _ _ _ _ _ _). set (rest := dispatch _ _ _ _). intros Hrun.
  unfold mbind, M_bind in Hrun. unfold query, get, mbind, M_bind in Hrun.
  destruct (s (w_db w)) as [d|] eqn:Hs; cbn in Hrun; [|injection Hrun as <- <-].
  2:{ split; [apply grows_by_refl|done]. }
  apply insert_event_log_spec in Hs as [Hgrow Hin].
  assert (event_log (w_db w') = event_log d) as Heq.
  { pose proof (keeps_state (λ d', event_log d' = event_log d) rest
      (w <| w_db := d |>) (dispatch_log _ _ _ _ _) eq_refl) as Hk.
    change (rest {| w_db := d; w_cache := w_cache w; w_sent := w_sent w |} = (o, w')) in Hrun.
    change (event_log (w_db (rest {| w_db := d; w_cache := w_cache w; w_sent := w_sent w |}).2) = event_log d) in Hk.
    by rewrite Hrun in Hk. }
  unfold logged. rewrite Heq. split; [exact Hgrow|]. intros _ _. exact Hin.
Qed.

(** ** A page *)
Lemma foldr_max_shift a b l : foldr Z.max (Z.max a b) l = Z.max b (foldr Z.max a l).
Proof. induction l as [|x l IH]; cbn [foldr]; [lia|]. rewrite IH. lia. Qed.
Lemma process_page_log config events latest w o w' :
  process_page config events latest w = (o, w') →
  grows_by (event_id <$> events) (event_log (w_db w)) (event_log (w_db w')) ∧
  (∀ latest', o = Ok latest' →
     (∀ e, e ∈ events → event_id e ∈ logged w') ∧
     latest' = foldr Z.max latest (ev_ledger <$> events)).
Proof.
  revert latest w. induction events as [|event events IH]; intros latest w Hrun.
  { injection Hrun as <- <-. split; [apply grows_by_refl|]. intros latest' [= <-].
    split; [by intros e ?%elem_of_nil|done]. }
  cbn [process_page] in Hrun. unfold mbind, M_bind in Hrun.
  destruct (process_event config event w) as [[a|e] w1] eqn:Hev.
  - destruct (process_event_log _ _ _ _ _ Hev) as [Hg Hin]. apply IH in Hrun as [Hg' Hok].
    split; [exact (grows_by_trans [event_id event] _ _ _ _ Hg Hg')|].
    intros latest' Ho. destruct (Hok latest' Ho) as [Hall ->]. split.
    + intros e [->|He]%elem_of_cons; [|by apply Hall].
      apply (grows_by_sub _ _ _ _ Hg'), (Hin a eq_refl).
    + rewrite fmap_cons. cbn [foldr]. apply foldr_max_shift.
  - destruct (process_event_log _ _ _ _ _ Hev) as [Hg _]. injection Hrun as <- <-.
    split; [|done]. rewrite fmap_cons.
    exact (grows_by_trans [event_id event] (event_id <$> events) _ _ _ Hg (grows_by_refl _ _)).
Qed.

Lemma processEvents_log getEvents config start w o w' :
  processEvents getEvents config start w = (o, w') →
  ∃ page, grows_by (event_id <$> page) (event_log (w_db w)) (event_log (w_db w')) ∧
  (page = [] ∨ getEvents start (contractIds config) page_limit = Ok page) ∧
  (∀ latest, o = Ok latest →
     getEvents start (contractIds config) page_limit = Ok page ∧
     (∀ e, e ∈ page → event_id e ∈ logged w') ∧
     latest = foldr Z.max (start - 1) (ev_ledger <$> page)).
Proof.
  unfold processEvents, lift, mbind, M_bind. intros Hrun.
  destruct (getEvents start (contractIds config) page_limit) as [page|e].
  - exists page. destruct (process_page_log _ _ _ _ _ _ Hrun) as [Hg Hok].
    split; [exact Hg|]. split; [by right|]. intros latest Ho. split; [done|]. by apply Hok.
  - injection Hrun as <- <-. exists []. split; [apply grows_by_refl|]. split; [by left|]. done.
Qed.

(** C6: The log is exactly once.  However a batch ends, the log only grows at
    its end, by events of the page, and no identifier is there twice; when it
    succeeds every event of the page is in, and the cursor is the latest
    ledger of the page.  Running the same page again changes nothing in it. *)
Theorem event_log_exactly_once getEvents config start w o w' :
  NoDup (logged w) →
  processEvents getEvents config start w = (o, w') →
  (∃ page,
    grows_by (event_id <$> page) (event_log (w_db w)) (event_log (w_db w')) ∧
    (page = [] ∨ getEvents start (contractIds config) page_limit = Ok page) ∧
    (∀ latest, o = Ok latest →
      getEvents start (contractIds config) page_limit = Ok page ∧
      (∀ e, e ∈ page → event_id e ∈ logged w') ∧
      latest = foldr Z.max (start - 1) (ev_ledger <$> page))) ∧
  NoDup (logged w') ∧
  (∀ latest, o = Ok latest →
     ∀ o2 w2, processEvents getEvents config start w' = (o2, w2) → event_log (w_db w2) = event_log (w_db w')).
Proof.
  intros Hnd Hrun. destruct (processEvents_log _ _ _ _ _ _ Hrun) as (page & Hg & Hp & Hok).
  assert (NoDup (logged w')) as Hnd' by (destruct Hg as (a & _ & _ & HN); exact (HN Hnd)).
  split; [by exists page|]. split; [done|].
  intros latest Ho o2 w2 Hrun2. destruct (Hok latest Ho) as (Hpage & Hall & _).
  destruct (processEvents_log _ _ _ _ _ _ Hrun2) as (page2 & (added & Heq & Hids & HN) & Hp2 & _).
  rewrite Heq. destruct added as [|[k r] added]; [by rewrite app_nil_r|]. exfalso.
  assert (k ∈ logged w') as Hk.
  { assert (k ∈ event_id <$> page2) as Hk2 by (apply Hids; by left).
    destruct Hp2 as [->|Hp2]; [by apply elem_of_nil in Hk2|]. rewrite Hp2 in Hpage. injection Hpage as ->.
    apply list_elem_of_fmap in Hk2 as (e & -> & He). by apply Hall. }
  specialize (HN Hnd'). rewrite Heq, fmap_app in HN. apply NoDup_app in HN as (_ & HN & _).
  apply (HN k Hk). by left.
Qed.

(** ** The RPC's pages and the cursor

    [rpc_page chain] is the documented answer of [getEvents]: of the events
    from [startLedger] on that the contracts published, in order, the first
    [limit]. *)
Definition published_by (ids : list string) event : bool :=
  match ev_contractId event with Some c => bool_decide (c ∈ ids) | None => false end.
Definition relevant (chain : list EventResponse) (start : Z) (ids : list string) : list EventResponse :=
  base.filter (λ e, start ≤ ev_ledger e ∧ published_by ids e = true) chain.
Definition rpc_page (chain : list EventResponse) : GetEvents := λ start ids limit,
  Ok (take (Z.to_nat limit) (relevant chain start ids)).

Lemma foldr_max_ge x l : x ≤ foldr Z.max x l.
Proof. induction l as [|y l IH]; cbn [foldr]; lia. Qed.
Lemma foldr_max_in x y l : y ∈ l → y ≤ foldr Z.max x l.
Proof.
  induction l as [|z l IH]; [by intros ?%elem_of_nil|]. intros [->|Hy]%elem_of_cons; cbn [foldr]; [lia|].
  specialize (IH Hy). lia.
Qed.
Lemma foldr_max_cases x l : foldr Z.max x l = x ∨ foldr Z.max x l ∈ l.
Proof.
  induction l as [|y l IH]; cbn [foldr]; [by left|]. destruct (Z.max_spec y (foldr Z.max x l)) as [[_ ->]|[_ ->]].
  - destruct IH as [->|?]; [by left|right; by right].
  - right. by left.
Qed.

Lemma snapshots_log ledger l :
  Keeps (λ d, event_log d = l) (maybeTakeGovernanceSnapshot ledger;; maybeTakeConcentrationSnapshot ledger).
Proof. apply snapshots_keep; intros a b; solve_untouched. Qed.
Lemma updateLast_log ledger l : Keeps (λ d, event_log d = l) (updateLastIndexedLedger ledger).
Proof. apply keeps_query. solve_untouched. Qed.

(** The log after a poll is the log after its events. *)
Lemma pollOnce_log getEvents config last w last' w' :
  pollOnce getEvents config last w = (last', w') →
  ∃ o w1, processEvents getEvents config (last + 1) w = (o, w1) ∧
    event_log (w_db w') = event_log (w_db w1) ∧
    (last' = last ∨ (o = Ok last' ∧ last < last')) ∧
    (∀ latest, o = Ok latest → last' = last → last < latest →
       (INTEGER (VNum latest) = None)).
Proof.
  unfold pollOnce. intros Hrun.
  destruct (processEvents getEvents config (last + 1) w) as [[latest|e] w1] eqn:Hev.
  2:{ injection Hrun as <- <-. by exists (Throw e), w1; repeat split; auto. }
  exists (Ok latest), w1. split; [done|].
  destruct (Z.ltb_spec last latest) as [Hlt|Hge].
  2:{ injection Hrun as <- <-. split; [done|]. split; [by left|]. intros ? [= <-]. lia. }
  pose proof (keeps_state _ _ w1 (updateLast_log latest (event_log (w_db w1))) eq_refl) as Hlog.
  destruct (updateLastIndexedLedger latest w1) as [[[]|e] w2] eqn:Hup; injection Hrun as <- <-.
  - split.
    + rewrite (keeps_state _ _ w2 (snapshots_log latest (event_log (w_db w2))) eq_refl). exact Hlog.
    + split; [by right|]. intros; lia.
  - split; [exact Hlog|]. split; [by left|]. intros ? [= <-] _ _.
    unfold updateLastIndexedLedger, query, mbind, M_bind, get in Hup.
    destruct (INTEGER (VNum latest)) as [n|]; [|done]. discriminate.
Qed.

Lemma relevant_elem chain start ids e :
  e ∈ relevant chain start ids ↔ start ≤ ev_ledger e ∧ published_by ids e = true ∧ e ∈ chain.
Proof. unfold relevant. rewrite list_elem_of_filter. tauto. Qed.

(** The chain grows by ledgers after every ledger polled so far, and the
    indexer polls it; a page is never full. *)
Inductive poll_step config : list EventResponse * Z * World → list EventResponse * Z * World → Prop :=
  | ps_grow chain new last w :
      (∀ e, e ∈ new → last < ev_ledger e) →
      poll_step config (chain, last, w) (chain ++ new, last, w)
  | ps_poll chain last w last' w' :
      (length (relevant chain (last + 1) (contractIds config)) ≤ Z.to_nat page_limit)%nat →
      pollOnce (rpc_page chain) config last w = (last', w') →
      poll_step config (chain, last, w) (chain, last', w').

Definition nothing_missed config (s : list EventResponse * Z * World) : Prop :=
  ∀ e, e ∈ s.1.1 → published_by (contractIds config) e = true → ev_ledger e ≤ s.1.2 → event_id e ∈ logged s.2.

Lemma poll_step_nothing_missed config s s' :
  poll_step config s s' → nothing_missed config s → nothing_missed config s'.
Proof.
  destruct 1 as [chain new last w Hnew|chain last w last' w' Hlen Hpoll]; unfold nothing_missed; cbn; intros IH e He Hpub Hle.
  - apply elem_of_app in He as [He|He]; [by apply IH|]. specialize (Hnew e He). lia.
  - destruct (pollOnce_log _ _ _ _ _ _ Hpoll) as (o & w1 & Hrun & Hlog & Hlast & _).
    destruct (processEvents_log _ _ _ _ _ _ Hrun) as (page & Hg & _ & Hok).
    unfold logged. rewrite Hlog.
    destruct (decide (ev_ledger e ≤ last)) as [Hold|Hnew].
    { apply (grows_by_sub _ _ _ _ Hg). by apply IH. }
    destruct Hlast as [->|[-> Hlt]]; [lia|]. destruct (Hok last' eq_refl) as (Hpage & Hall & _).
    unfold rpc_page in Hpage. injection Hpage as <-. apply Hall.
    rewrite take_ge by done. apply relevant_elem. split; [lia|done].
Qed.

(** C8: As long as no page is full, the indexer misses nothing: along every
    history of new ledgers and polls, failing polls included, each event of
    an indexed contract up to the cursor is in the log. *)
Theorem uncut_polls_miss_nothing config chain last w chain' last' w' :
  rtc (poll_step config) (chain, last, w) (chain', last', w') →
  (∀ e, e ∈ chain → published_by (contractIds config) e = true → last < ev_ledger e) →
  ∀ e, e ∈ chain' → published_by (contractIds config) e = true → ev_ledger e ≤ last' → event_id e ∈ logged w'.
Proof.
  intros Hsteps Hstart.
  assert (nothing_missed config (chain, last, w)) as Hinv.
  { intros e He Hpub Hle. specialize (Hstart e He Hpub). cbn in Hle. lia. }
  change (nothing_missed config (chain', last', w')).
  revert Hinv. generalize dependent (chain', last', w'). generalize (chain, last, w).
  intros s s' Hsteps. induction Hsteps as [|s1 s2 s3 Hstep _ IH]; [done|].
  intros Hinv. apply IH. by eapply poll_step_nothing_missed.
Qed.

(** Polls of one source of events, one after the other. *)
Fixpoint polls (n : nat) getEvents config (last : Z) w : Z * World :=
  match n with
  | O => (last, w)
  | S n' => let '(last', w') := pollOnce getEvents config last w in polls n' getEvents config last' w'
  end.

Lemma polls_never_fetch n chain config last w e :
  ev_ledger e ≤ last →
  (∀ e', e' ∈ chain → event_id e' = event_id e → ev_ledger e' = ev_ledger e) →
  event_id e ∈ logged (polls n (rpc_page chain) config last w).2 → event_id e ∈ logged w.
Proof.
  revert last w. induction n as [|n IH]; intros last w Hle Huniq; cbn [polls]; [done|].
  destruct (pollOnce (rpc_page chain) config last w) as [last' w'] eqn:Hpoll.
  destruct (pollOnce_log _ _ _ _ _ _ Hpoll) as (o & w1 & Hrun & Hlog & Hlast & _).
  intros Hin. apply IH in Hin; [|destruct Hlast as [->|[_ ?]]; lia|done].
  unfold logged in Hin. rewrite Hlog in Hin.
  destruct (processEvents_log _ _ _ _ _ _ Hrun) as (page & Hg & Hp & _).
  destruct (grows_by_keys _ _ _ _ Hg Hin) as [?|Hnew]; [done|]. exfalso. clear Hin. rename Hnew into Hin.
  destruct Hp as [Hnil|Hp]; [rewrite Hnil in Hin; by apply elem_of_nil in Hin|].
  injection Hp as Hpage. rewrite <- Hpage in Hin. apply list_elem_of_fmap in Hin as (e' & Hid & He').
  apply elem_of_take in He' as (i & He' & _). apply list_elem_of_lookup_2, relevant_elem in He' as (Hs & _ & Hc).
  rewrite (Huniq e' Hc (eq_sym Hid)) in Hs. lia.
Qed.

(** A page cut inside a ledger loses events.  When a page is full, its
    last events and the first of the rest share a ledger, and the poll
    succeeds, the cursor passes that ledger: an event of it that was not on the
    page is never logged, by however many later polls. *)
Theorem cut_page_loses_events n chain config last w last' w' e :
  (∀ e', e' ∈ chain → event_id e' = event_id e → ev_ledger e' = ev_ledger e) →
  event_id e ∉ logged w →
  event_id e ∉ event_id <$> take (Z.to_nat page_limit) (relevant chain (last + 1) (contractIds config)) →
  pollOnce (rpc_page chain) config last w = (last', w') →
  ev_ledger e ≤ last' →
  event_id e ∉ logged (polls n (rpc_page chain) config last' w').2.
Proof.
  intros Huniq Hnot Hpage Hpoll Hle Hin. apply polls_never_fetch in Hin; [|done|done].
  destruct (pollOnce_log _ _ _ _ _ _ Hpoll) as (o & w1 & Hrun & Hlog & _).
  unfold logged in Hin. rewrite Hlog in Hin.
  destruct (processEvents_log _ _ _ _ _ _ Hrun) as (page & Hg & Hp & _).
  destruct (grows_by_keys _ _ _ _ Hg Hin) as [?|Hnew]; [done|]. clear Hin. rename Hnew into Hin.
  destruct Hp as [Hnil|Hp]; [rewrite Hnil in Hin; by apply elem_of_nil in Hin|].
  apply Hpage. injection Hp as Hp. by rewrite Hp.
Qed.

(** ** The strategies contract *)
Definition strategy_tables (d : Db) := (treasury_strategies d, strategy_allocations d, strategy_withdrawals d).

(** The RPC answers with events of the contracts it was asked for. *)
Definition serves_only_asked (getEvents : GetEvents) : Prop := ∀ start ids limit page e,
  getEvents start ids limit = Ok page → e ∈ page → published_by ids e = true.

Lemma not_asked_for config getEvents page event start :
  serves_only_asked getEvents →
  (∀ c, treasuryStrategiesAddress config = Some c → c ∉ contractIds config) →
  getEvents start (contractIds config) page_limit = Ok page → event ∈ page →
  is_contract (ev_contractId event) (treasuryStrategiesAddress config) = false.
Proof.
  intros Hserve Hids Hpage He. specialize (Hserve _ _ _ _ _ Hpage He). unfold published_by in Hserve.
  unfold is_contract. destruct (ev_contractId event) as [c|]; [|done].
  apply bool_decide_eq_true in Hserve. apply andb_false_intro2, bool_decide_eq_false. intros Hc.
  by apply (Hids c).
Qed.

(** Strategies are never indexed.  The address of the strategies contract is
    not among those the indexer asks for (unless another contract shares it),
    so with an RPC that answers only for these no poll ever changes a row of
    the strategies tables, although the handlers for its events exist. *)
Theorem strategies_never_indexed getEvents config last w :
  serves_only_asked getEvents →
  (∀ c, treasuryStrategiesAddress config = Some c → c ∉ contractIds config) →
  strategy_tables (w_db (pollOnce getEvents config last w).2) = strategy_tables (w_db w).
Proof.
  intros Hserve Hids. apply (poll_keeps (λ d, strategy_tables d = strategy_tables (w_db w))); [..|done];
    unfold strategy_tables.
  - apply processEvents_keeps. intros page event Hpage He. unfold process_event, logToEventLog. cbv zeta.
    apply keeps_bind; [apply keeps_query; solve_untouched|intros].
    apply dispatch_keeps; [|intros Hc; by rewrite (not_asked_for _ _ _ _ _ Hserve Hids Hpage He) in Hc|intros _ _];
      intros s Hs; destruct Hs; solve_untouched.
  - intros l. apply keeps_query. solve_untouched.
  - intros a b. solve_untouched.
  - intros a b. solve_untouched.
Qed.
End log.

#[local] Existing Instance ex_runtime.

(** A page with one vote, processed twice. *)
Definition ex_source : GetEvents := rpc_page [ex_vote].
Definition ex_processed : World := snd (processEvents ex_source ex_config 11 ex_world).
Lemma event_log_exactly_once_witness :
  processEvents ex_source ex_config 11 ex_world = (Ok 11, ex_processed) ∧ NoDup (logged ex_processed).
Proof.
  assert (processEvents ex_source ex_config 11 ex_world = (Ok 11, ex_processed)) as Hrun by (vm_compute; reflexivity).
  split; [exact Hrun|].
  exact (proj1 (proj2 (event_log_exactly_once ex_source ex_config 11 ex_world (Ok 11) ex_processed (NoDup_nil_2 : NoDup (logged ex_world)) Hrun))).
Defined.

(** A ledger is closed with a vote in it, then the indexer polls. *)
Definition ex_polled : World := snd (pollOnce (rpc_page [ex_vote]) ex_config 10 ex_world).
Lemma uncut_polls_miss_nothing_witness : event_id ex_vote ∈ logged ex_polled.
Proof.
  apply (uncut_polls_miss_nothing ex_config [] 10 ex_world [ex_vote] 11 ex_polled).
  - apply rtc_l with ([ex_vote], 10, ex_world).
    { apply (ps_grow ex_config [] [ex_vote] 10 ex_world). by intros e ->%list_elem_of_singleton. }
    apply rtc_once, ps_poll; vm_compute; [lia|reflexivity].
  - by intros e ?%elem_of_nil.
  - by left.
  - reflexivity.
  - vm_compute. discriminate.
Defined.

(** One ledger with 201 events of a kind no handler knows. *)
Definition ex_crowd : list EventResponse :=
  (λ n, ex_event ("x" +:+ decimal (Z.of_nat n)) "G" 11 [VStr "note"] VNull) <$> seq 0 201.
Definition ex_last : EventResponse := ex_event "x200" "G" 11 [VStr "note"] VNull.
Definition ex_cut : World := snd (pollOnce (rpc_page ex_crowd) ex_config 10 ex_world).
Lemma cut_page_loses_events_witness :
  ex_last ∈ ex_crowd ∧ event_id ex_last ∉ logged (polls 5 (rpc_page ex_crowd) ex_config 11 ex_cut).2.
Proof.
  assert (∀ e', e' ∈ ex_crowd → ev_ledger e' = 11) as Hledger.
  { intros e' (n & -> & _)%list_elem_of_fmap. reflexivity. }
  split; [apply list_elem_of_fmap; exists 200%nat; split; [reflexivity|apply elem_of_seq; lia]|].
  apply (cut_page_loses_events 5 ex_crowd ex_config 10 ex_world 11 ex_cut ex_last).
  - intros e' He' _. apply (Hledger e' He').
  - by intros ?%elem_of_nil.
  - apply (bool_decide_unpack _). vm_compute. exact I.
  - vm_compute. reflexivity.
  - vm_compute. discriminate.
Defined.

Lemma rpc_page_serves_only_asked chain : serves_only_asked (rpc_page chain).
Proof.
  intros start ids limit page e [= <-] (i & Hi & _)%elem_of_take.
  by apply list_elem_of_lookup_2, relevant_elem in Hi as (_ & Hp & _).
Qed.
Lemma strategies_never_indexed_witness :
  strategy_tables (w_db (pollOnce (rpc_page [ex_vote; ex_event "s1" "S" 11 [VStr "StratReg"; VNum 1] VNull]) ex_config 10 ex_world).2) =
  strategy_tables (w_db ex_world).
Proof.
  apply (strategies_never_indexed _ ex_config 10 ex_world); [apply rpc_page_serves_only_asked|].
  intros c [= <-]. apply (bool_decide_unpack _). vm_compute. exact I.
Defined.
