(* ===== verification/IndexerVotes.v ===== *)
(** * Indexer: the tallies of the proposals

    A vote is recorded by two statements: its row in [votes] and the sum in a
    column of [proposals].  The columns are the sums of the rows as long as no
    account's vote is processed twice; each time a vote is processed again, the
    tally grows and the row does not, and a page that fails makes that happen. *)

From S2P Require Import Prelude JsValues Cache IndexerDb IndexerWorld.
From S2P Require Import IndexerGovernor.
From S2P Require Import Indexer.
From S2P Require Import IndexerInvariants.
From S2P Require Import IndexerLog.

#[export] Instance TallyColumn_eq_dec : EqDecision TallyColumn.
Proof. solve_decision. Defined.

(** What a stored choice means: 1 is for, 0 against, the rest abstains. *)
Definition choice (support : Z) : TallyColumn :=
  if support =? 1 then votes_for else if support =? 0 then votes_against else votes_abstain.

(** What a vote row adds to a column of a proposal. *)
Definition counted (id : Z) (col : TallyColumn) (k : Z * string) (r : VoteRow) : Z :=
  if bool_decide (k.1 = id ∧ choice (vt_support r) = col) then vt_weight r else 0.
Definition votes_sum (id : Z) (col : TallyColumn) (l : list ((Z * string) * VoteRow)) : Z :=
  sum_list_Z ((λ kv, counted id col kv.1 kv.2) <$> l).

#[global] Arguments votes_sum : simpl never.

(** The tallies are the sums of the votes. *)
Definition tallies_match (d : Db) : Prop :=
  ∀ id r col, proposals d !! id = Some r → tally col r = votes_sum id col (votes d).
(** No vote is for a proposal that has no row. *)
Definition votes_refer (d : Db) : Prop := ∀ k, k ∈ (votes d).*1 → is_Some (proposals d !! k.1).

Lemma votes_sum_set id col k r l :
  votes_sum id col (jm_set k r l) =
  votes_sum id col l - default 0 (counted id col k <$> jm_get k l) + counted id col k r.
Proof.
  unfold votes_sum. induction l as [|[k' r'] l IH]; cbn [jm_set jm_get].
  { cbn. lia. }
  case_decide as Hk; [subst; cbn; lia|]. rewrite !fmap_cons. cbn [sum_list_Z fst snd]. rewrite IH. lia.
Qed.
Lemma votes_sum_none id col l : (∀ k, k ∈ l.*1 → k.1 ≠ id) → votes_sum id col l = 0.
Proof.
  unfold votes_sum. induction l as [|[k r] l IH]; [done|]. intros Hl.
  rewrite fmap_cons. cbn [sum_list_Z fst snd]. rewrite IH by (intros k' Hk'; apply Hl; by right).
  unfold counted. rewrite bool_decide_eq_false_2; [done|]. intros [Hk _]. apply (Hl k); [by left|done].
Qed.
Lemma tally_set_tally col col' n r :
  tally col' (set_tally col n r) = if decide (col' = col) then n else tally col' r.
Proof. by destruct col, col'. Qed.

Section votes.
Context `{Runtime}.
Implicit Types (event : EventResponse) (config : IndexerConfig) (w : World).

(** ** One vote *)

(** The proposal, the account, the choice and the weight of a vote event, as
    the columns take them. *)
Definition value_at (v : JsValue) (i : nat) : option JsValue :=
  match fst (item (S := unit) v i tt) with Ok x => Some x | Throw _ => None end.
Definition vote_of event topics (withReason : bool) : option (Z * string * Z * Z) :=
  d0 ← value_at (ev_value event) 0;
  d1 ← value_at (ev_value event) 1;
  w ← value_at (ev_value event) (if withReason then 3%nat else 2%nat);
  id ← BIGINT (VStr (js_String d0));
  voter ← TEXT (nth_value topics 1);
  support ← SMALLINT (js_Number d1);
  weight ← BIGINT (VStr (js_String w));
  Some (id, voter, support, weight).

Lemma value_at_run {S} v i x (s s' : S) : item v i s = (Ok x, s') → value_at v i = Some x ∧ s' = s.
Proof. unfold value_at, item. destruct v; cbn; by intros [= <- <-]. Qed.

Lemma query_run (s : Stmt) w u w' : query s w = (Ok u, w') → s (w_db w) = Some (w_db w').
Proof.
  unfold query, get, mbind, M_bind. destruct (s (w_db w)) as [d|]; cbn; [|done]. by intros [= _ <-].
Qed.

Lemma js_Number_num v : js_Number v = VNaN ∨ ∃ n, js_Number v = VNum n.
Proof. destruct v; cbn; unfold number_or_nan; try case_match; eauto. Qed.
Lemma SMALLINT_column v n : SMALLINT (js_Number v) = Some n → tally_column (js_Number v) = choice n.
Proof.
  destruct (js_Number_num v) as [->|[m ->]]; [done|].
  unfold SMALLINT, int_column. cbn. rewrite of_decimal_decimal. cbn.
  destruct (_ && _); [|done]. by intros [= ->].
Qed.

(** Both statements of a vote. *)
Definition record_vote (id : Z) (voter : string) (row : VoteRow) d d' : Prop :=
  votes d' = jm_set (id, voter) row (votes d) ∧
  proposals d' = alter (λ r, let col := choice (vt_support row) in
    set_tally col (tally col r + vt_weight row) r) id (proposals d) ∧
  (jm_get (id, voter) (votes d) = None → is_Some (proposals d !! id)).

Lemma vote_statements id voter support weight reason ledger i v s wt d d1 d2 :
  BIGINT id = Some i → TEXT voter = Some v → SMALLINT support = Some s → BIGINT weight = Some wt →
  tally_column support = choice s →
  upsert_vote id voter support weight reason ledger d = Some d1 →
  add_to_tally (tally_column support) weight id d1 = Some d2 →
  ∃ row, vt_support row = s ∧ vt_weight row = wt ∧ record_vote i v row d d2.
Proof.
  intros Hi Hv Hs Hw Hcol H1 H2.
  assert (∃ row, vt_support row = s ∧ vt_weight row = wt ∧
    votes d1 = jm_set (i, v) row (votes d) ∧ proposals d1 = proposals d ∧
    (jm_get (i, v) (votes d) = None → is_Some (proposals d !! i))) as (row & <- & <- & Hvotes & Hprops & Hid).
  { stmt_inv H1; simplify_eq; eexists (mkVoteRow _ _ _ _); repeat split; try (by eexists); cbn; congruence. }
  exists row. split; [done|]. split; [done|]. unfold record_vote. cbv zeta. rewrite <- Hcol.
  stmt_inv H2; simplify_eq; cbn; rewrite Hprops in *; (split; [done|split; [|done]]).
  - erewrite alter_insert_eq by eassumption. f_equal. f_equal.
    unfold BIGINT, int_column in Hcol2. cbn in Hcol2. rewrite of_decimal_decimal in Hcol2. cbn in Hcol2.
    destruct (_ && _); congruence.
  - by rewrite alter_id'.
Qed.

Lemma upsert_vote_columns id voter support weight reason ledger d d1 :
  upsert_vote id voter support weight reason ledger d = Some d1 →
  ∃ i v s wt, BIGINT id = Some i ∧ TEXT voter = Some v ∧ SMALLINT support = Some s ∧ BIGINT weight = Some wt.
Proof. intros H1. stmt_inv H1; eauto 8. Qed.

Ltac run_bind H x s E := apply bind_ok_inv in H as (x & s & E & H).

Lemma handleVoteCast_run event topics withReason w u w' :
  handleVoteCast event topics withReason w = (Ok u, w') →
  ∃ id voter support weight row,
    vote_of event topics withReason = Some (id, voter, support, weight) ∧
    vt_support row = support ∧ vt_weight row = weight ∧ record_vote id voter row (w_db w) (w_db w').
Proof.
  unfold handleVoteCast. cbv zeta. intros Hrun.
  run_bind Hrun d0 w0 E0. apply value_at_run in E0 as [E0 ->].
  run_bind Hrun d1 w0 E1. apply value_at_run in E1 as [E1 ->].
  run_bind Hrun wt w0 E2. apply value_at_run in E2 as [E2 ->].
  run_bind Hrun reason w0 E3.
  assert (w0 = w) as ->.
  { destruct withReason; [|by injection E3 as _ <-].
    revert E3. unfold fmap, M_fmap. destruct (item _ _ w) as [[a|e] w1] eqn:Ei; [|done].
    apply value_at_run in Ei as [_ ->]. by intros [= _ <-]. }
  run_bind Hrun u1 w1 E4. apply query_run in E4.
  run_bind Hrun u2 w2 E5. apply query_run in E5.
  assert (w_db w2 = w_db w') as Hdb.
  { unfold evict, evict_prefix, broadcast, modify, mbind, M_bind in Hrun. by injection Hrun as <- <-. }
  rewrite <- Hdb. destruct (upsert_vote_columns _ _ _ _ _ _ _ _ E4) as (i & v & s & n & Hi & Hv & Hs & Hn).
  exists i, v, s, n. unfold vote_of. rewrite E0, E1, E2. cbn [mbind option_bind].
  rewrite Hi. cbn [mbind option_bind]. rewrite Hv. cbn [mbind option_bind].
  rewrite Hs. cbn [mbind option_bind]. rewrite Hn. cbn [mbind option_bind].
  destruct (vote_statements _ _ _ _ _ _ _ _ _ _ _ _ _ Hi Hv Hs Hn (SMALLINT_column _ _ Hs) E4 E5) as (row & Hrow & Hw & Hrec).
  by exists row.
Qed.

Lemma record_vote_refer id voter row d d' : record_vote id voter row d d' → votes_refer d → votes_refer d'.
Proof.
  intros (Hv & Hp & Hid) Href k. rewrite Hv, Hp, lookup_alter_is_Some.
  intros [->|Hk]%jm_set_keys; [|by apply Href]. cbn [fst].
  destruct (jm_get (id, voter) (votes d)) as [row'|] eqn:Hold; [|by apply Hid].
  apply jm_get_elem, (list_elem_of_fmap_2 fst) in Hold. exact (Href _ Hold).
Qed.

(** What a column of a proposal holds after a vote. *)
Lemma record_vote_tally id voter row d d' id' r' col :
  record_vote id voter row d d' → proposals d' !! id' = Some r' →
  ∃ r, proposals d !! id' = Some r ∧ tally col r' = tally col r + counted id' col (id, voter) row.
Proof.
  intros (_ & Hp & _). rewrite Hp, lookup_alter_Some. unfold counted. cbn [fst].
  intros [(<- & r & Hr & ->)|[Hne Hr']].
  - exists r. split; [done|]. cbv zeta. rewrite tally_set_tally.
    case_decide as Hc; [subst; by rewrite bool_decide_eq_true_2|].
    rewrite bool_decide_eq_false_2; [lia|]. intros [_ Hcol]. by apply Hc.
  - exists r'. split; [done|]. rewrite bool_decide_eq_false_2; [lia|naive_solver].
Qed.

(** A vote of an account that had none keeps the tallies the sums of the
    votes; one that replaces a row adds its weight on top of the old one's. *)
Lemma record_vote_match id voter row d d' :
  tallies_match d → record_vote id voter row d d' →
  ∀ id' r' col, proposals d' !! id' = Some r' →
    tally col r' = votes_sum id' col (votes d') + default 0 (counted id' col (id, voter) <$> jm_get (id, voter) (votes d)).
Proof.
  intros Hm Hrec id' r' col Hr'.
  destruct (record_vote_tally _ _ _ _ _ _ _ col Hrec Hr') as (r & Hr & ->).
  destruct Hrec as [-> _]. rewrite votes_sum_set, (Hm _ _ col Hr). lia.
Qed.

(** ** A page *)

(** All other statements leave the votes and the tallies alone. *)
Definition tallied (l : list ((Z * string) * VoteRow)) (d : Db) : Prop :=
  tallies_match d ∧ votes_refer d ∧ votes d = l.

Lemma tallied_other l d d' :
  tallied l d → votes d' = votes d → proposals d' = proposals d → tallied l d'.
Proof.
  intros (Hm & Href & Hl) Hv Hp. unfold tallied, tallies_match, votes_refer. by rewrite Hv, Hp.
Qed.
Lemma tallied_insert l id a b c s e d :
  tallied l d → tallied l (d <| proposals ::= (insert_new id (mkProposalRow a b c s e 0 0 0 false false false)) |>).
Proof.
  intros (Hm & Href & Hl). split; [|split; [|done]].
  - intros i r col. cbn. rewrite insert_new_lookup. case_decide as Hi; [|by apply Hm].
    subst i. destruct (proposals d !! id) as [r0|] eqn:Hold; cbn; intros [= <-]; [by apply Hm|].
    rewrite votes_sum_none; [by destruct col|]. intros k Hk <-. apply Href in Hk. rewrite Hold in Hk. by destruct Hk.
  - intros k Hk. cbn. by apply insert_new_is_Some, Href.
Qed.
Lemma tallied_update l f id d :
  (∀ r col, tally col (f r) = tally col r) → tallied l d → tallied l (d <| proposals ::= (alter f id) |>).
Proof.
  intros Hf (Hm & Href & Hl). split; [|split; [|done]].
  - intros i r col. cbn. rewrite lookup_alter_Some. intros [(-> & r0 & Hr & ->)|[_ Hr]]; [|by apply Hm].
    rewrite Hf. by apply Hm.
  - intros k Hk. cbn. apply lookup_alter_is_Some. by apply Href.
Qed.

Lemma stmt_tallied l s : handler_stmt s ∨ strategy_stmt s → StmtKeeps (tallied l) s.
Proof.
  intros [Hs|Hs]; destruct Hs; intros db db' Hd Hrun; stmt_inv Hrun;
    first [by apply tallied_insert | by (apply tallied_update; [by intros r [] |]) | by (eapply tallied_other; [exact Hd|..]) | idtac].
Qed.

(** The kind of an event, and the proposal and the account of the vote it casts. *)
Definition name_of event : string := event_name (event_type (nth_value (ev_topic event) 0)).
Definition casts_vote config event : bool := from_governor config event && is_vote (name_of event).
Definition cast_of event : option (Z * string * Z * Z) :=
  vote_of event (ev_topic event) (String.eqb (name_of event) "VoteCastWithReason").
Definition vote_key config event : option (Z * string) :=
  if casts_vote config event then (λ '(id, voter, _, _), (id, voter)) <$> cast_of event else None.

Lemma dispatch_governor config event t topics :
  from_governor config event = true → dispatch config event t topics = switch t (governor_cases event topics).
Proof.
  unfold from_governor, dispatch. cbv zeta. cbn [existsb].
  repeat match goal with |- context [is_contract ?c ?a] => destruct (is_contract c a); cbn [orb negb]; [done|] end.
  done.
Qed.
Lemma vote_event_run config event :
  casts_vote config event = true →
  process_event config event =
  (logToEventLog event (event_type (nth_value (ev_topic event) 0)) (ev_topic event);;
   handleVoteCast event (ev_topic event) (String.eqb (name_of event) "VoteCastWithReason")).
Proof.
  unfold casts_vote. intros [Hg Hv]%andb_true_iff. unfold process_event. cbv zeta. fold (name_of event).
  rewrite dispatch_governor by done. unfold is_vote in Hv.
  destruct (String.eqb_spec (name_of event) "VoteCast") as [->|]; [done|].
  by destruct (String.eqb_spec (name_of event) "VoteCastWithReason") as [->|].
Qed.

Lemma log_tables a b c e f g d d' :
  insert_event_log a b c e f g d = Some d' → votes d' = votes d ∧ proposals d' = proposals d.
Proof. intros Hrun. by stmt_inv Hrun. Qed.
Lemma log_run event t topics w u w' :
  logToEventLog event t topics w = (Ok u, w') →
  votes (w_db w') = votes (w_db w) ∧ proposals (w_db w') = proposals (w_db w).
Proof. unfold logToEventLog. intros Hrun%query_run. by eapply log_tables. Qed.
Lemma log_tallied l event t topics : Keeps (tallied l) (logToEventLog event t topics).
Proof.
  apply keeps_query. intros db db' Hd [Hv Hp]%log_tables. by eapply tallied_other.
Qed.

(** One event of a page: what is no vote leaves the votes alone, and a vote of
    an account that had none is counted once. *)
Lemma process_event_tallied config event w u w' :
  process_event config event w = (Ok u, w') →
  tallies_match (w_db w) → votes_refer (w_db w) →
  (∀ k, vote_key config event = Some k → k ∉ (votes (w_db w)).*1) →
  tallies_match (w_db w') ∧ votes_refer (w_db w') ∧
  (∀ k, k ∈ (votes (w_db w')).*1 → k ∈ (votes (w_db w)).*1 ∨ vote_key config event = Some k).
Proof.
  intros Hrun Hm Href Hnew. destruct (casts_vote config event) eqn:Hcast.
  - rewrite vote_event_run in Hrun by done. run_bind Hrun u1 w1 Hlog.
    destruct (log_run _ _ _ _ _ _ Hlog) as [Hv Hp].
    destruct (handleVoteCast_run _ _ _ _ _ _ Hrun) as (id & voter & support & weight & row & Hvote & _ & _ & Hrec).
    assert (vote_key config event = Some (id, voter)) as Hkey.
    { unfold vote_key, cast_of. by rewrite Hcast, Hvote. }
    assert (tallied (votes (w_db w)) (w_db w1)) as (Hm1 & Href1 & _) by (by eapply tallied_other; [split|..]).
    split; [|split; [by eapply record_vote_refer|]].
    + intros id' r' col Hr'. rewrite (record_vote_match _ _ _ _ _ Hm1 Hrec _ _ _ Hr').
      rewrite (proj2 (jm_get_None (id, voter) (votes (w_db w1)))); [cbn; lia|]. rewrite Hv. by apply Hnew.
    + intros k. destruct Hrec as (-> & _). rewrite Hkey, Hv. intros [->|Hk]%jm_set_keys; [by right|by left].
  - assert (Keeps (tallied (votes (w_db w))) (process_event config event)) as Hkeeps.
    { unfold process_event. cbv zeta. apply keeps_bind; [apply log_tallied|intros _].
      apply dispatch_keeps; [intros s Hs; apply stmt_tallied; tauto|intros _ s Hs; apply stmt_tallied; tauto|].
      intros Hg Hv. unfold casts_vote, name_of in Hcast. by rewrite Hg, Hv in Hcast. }
    destruct (keeps_state _ _ w Hkeeps (conj Hm (conj Href eq_refl))) as (Hm' & Href' & Hv').
    rewrite Hrun in Hm', Href', Hv'. cbn [snd] in *. split; [done|]. split; [done|].
    intros k Hk. left. by rewrite <- Hv'.
Qed.

(** C1: The tallies of the proposals are the sums of the votes: a page that is
    processed to its end keeps every column [votes_for], [votes_against] and
    [votes_abstain] the sum of the weights of the rows that chose it, if no
    account's vote on a proposal was recorded before or is twice on the page. *)
Theorem tallies_are_sums_of_votes config events latest w latest' w' :
  tallies_match (w_db w) → votes_refer (w_db w) →
  process_page config events latest w = (Ok latest', w') →
  NoDup (omap (vote_key config) events) →
  (∀ k, k ∈ omap (vote_key config) events → k ∉ (votes (w_db w)).*1) →
  tallies_match (w_db w').
Proof.
  revert latest w. induction events as [|event events IH]; intros latest w Hm Href Hrun Hnd Hnew.
  { by injection Hrun as _ <-. }
  cbn [process_page] in Hrun. run_bind Hrun u w1 Hev. cbn [omap list_omap] in Hnd, Hnew.
  destruct (process_event_tallied _ _ _ _ _ Hev Hm Href) as (Hm1 & Href1 & Hkeys).
  { intros k Hk. apply Hnew. rewrite Hk. by left. }
  apply (IH _ _ Hm1 Href1 Hrun).
  - destruct (vote_key config event); [by apply NoDup_cons in Hnd as [_ ?]|done].
  - intros k Hk Hin. destruct (vote_key config event) as [k'|] eqn:Hk'.
    + apply NoDup_cons in Hnd as [Hk'' _].
      destruct (Hkeys k Hin) as [Hold|[= ->]]; [|done]. apply (Hnew k); [by right|done].
    + destruct (Hkeys k Hin) as [Hold|]; [|done]. by apply (Hnew k).
Qed.

(** ** A page that fails *)

(** Processing the event never succeeds, and touches no vote. *)
Definition always_fails config event : Prop := ∀ w, ∃ e w',
  process_event config event w = (Throw e, w') ∧
  votes (w_db w') = votes (w_db w) ∧ proposals (w_db w') = proposals (w_db w).

Lemma no_data_always_fails config event :
  casts_vote config event = true → ev_value event = VNull → always_fails config event.
Proof.
  intros Hcast Hnull w. rewrite vote_event_run by done.
  match goal with |- context [logToEventLog ?a ?b ?c] => destruct (logToEventLog a b c w) as [[[]|e] w1] eqn:Hlog end.
  - destruct (log_run _ _ _ _ _ _ Hlog) as [Hv Hp].
    rewrite (bind_run _ _ _ _ _ Hlog). unfold handleVoteCast. rewrite Hnull. by do 2 eexists.
  - rewrite (bind_throw _ _ _ _ _ Hlog). exists e, w1. split; [done|].
    unfold logToEventLog, query, get, mbind, M_bind in Hlog.
    destruct (insert_event_log _ _ _ _ _ _ (w_db w)); [done|]. by injection Hlog as _ <-.
Qed.

(** A vote that was processed once can be again, while its column has room. *)
Lemma query_accepted (s : Stmt) w d : s (w_db w) = Some d → query s w = (Ok tt, w <| w_db := d |>).
Proof. intros Hs. unfold query, get, mbind, M_bind. by rewrite Hs. Qed.

Lemma log_again a b c e f g d1 d1' d2 :
  insert_event_log a b c e f g d1 = Some d1' → is_Some (insert_event_log a b c e f g d2).
Proof.
  intros Hrun. stmt_inv Hrun; unfold insert_event_log; rewrite Hcol, Hcol0, Hcol1, Hcol2, Hcol3;
    cbn [mbind option_bind]; destruct (jm_get a (event_log d2)); by eexists.
Qed.
Lemma upsert_vote_again id voter support weight reason ledger d1 d1' d2 i v :
  upsert_vote id voter support weight reason ledger d1 = Some d1' →
  BIGINT id = Some i → TEXT voter = Some v → is_Some (jm_get (i, v) (votes d2)) →
  is_Some (upsert_vote id voter support weight reason ledger d2).
Proof.
  intros Hrun Hi Hv [row Hrow]. unfold upsert_vote in Hrun |- *. rewrite Hi, Hv in Hrun |- *. cbn [mbind option_bind] in Hrun |- *.
  stmt_inv Hrun; rewrite Hcol, Hcol0, Hcol1, Hcol2; cbn [mbind option_bind]; rewrite Hrow; by eexists.
Qed.
Lemma add_to_tally_fits col weight id d i wt r :
  BIGINT id = Some i → BIGINT weight = Some wt → proposals d !! i = Some r → bigint (tally col r + wt) →
  is_Some (add_to_tally col weight id d).
Proof.
  intros Hi Hw Hr Hfit. unfold add_to_tally. rewrite Hw, Hi. cbn [mbind option_bind]. rewrite Hr.
  unfold BIGINT. rewrite int_column_num by exact Hfit. by eexists.
Qed.
Lemma upsert_vote_proposals id voter support weight reason ledger d d1 :
  upsert_vote id voter support weight reason ledger d = Some d1 → proposals d1 = proposals d.
Proof. intros H1. by stmt_inv H1. Qed.

Lemma value_at_ok {S} v i x (s : S) : value_at v i = Some x → item v i s = (Ok x, s).
Proof. unfold value_at, item. destruct v; cbn; by intros [= <-]. Qed.

Lemma vote_again event topics withReason id voter support weight w u w1 w2 r :
  handleVoteCast event topics withReason w = (Ok u, w1) →
  vote_of event topics withReason = Some (id, voter, support, weight) →
  is_Some (jm_get (id, voter) (votes (w_db w2))) → proposals (w_db w2) !! id = Some r →
  bigint (tally (choice support) r + weight) →
  ∃ w3, handleVoteCast event topics withReason w2 = (Ok tt, w3).
Proof.
  unfold handleVoteCast. cbv zeta. intros Hrun Hvote Hold Hr Hfit.
  run_bind Hrun d0 w0 E0. apply value_at_run in E0 as [E0 ->].
  run_bind Hrun d1 w0 E1. apply value_at_run in E1 as [E1 ->].
  run_bind Hrun wt w0 E2. apply value_at_run in E2 as [E2 ->].
  run_bind Hrun reason w0 E3. run_bind Hrun u1 w4 E4. clear Hrun.
  unfold vote_of in Hvote. rewrite E0, E1, E2 in Hvote. cbn [mbind option_bind] in Hvote.
  apply bind_Some in Hvote as (id' & Hid & Hvote). apply bind_Some in Hvote as (v' & Hv & Hvote).
  apply bind_Some in Hvote as (s' & Hs & Hvote). apply bind_Some in Hvote as (wt' & Hw & Hvote).
  injection Hvote as -> -> -> ->. apply query_run in E4.
  destruct (upsert_vote_again _ _ _ _ _ _ _ _ (w_db w2) _ _ E4 Hid Hv Hold) as [db2 Hdb2].
  rewrite <- (SMALLINT_column _ _ Hs) in Hfit.
  rewrite <- (upsert_vote_proposals _ _ _ _ _ _ _ _ Hdb2) in Hr.
  destruct (add_to_tally_fits _ _ _ _ _ _ _ Hid Hw Hr Hfit) as [db3 Hdb3].
  assert ((if withReason then Some ∘ js_String <$> item (ev_value event) 2 else mret None) w2 = (Ok reason, w2)) as E3'.
  { pose proof (_ : Reads (if withReason then Some ∘ js_String <$> item (S := World) (ev_value event) 2 else mret None)) as [o Ho].
    rewrite Ho in E3 |- *. by injection E3 as -> _. }
  rewrite (bind_run _ _ _ _ _ (value_at_ok _ _ _ w2 E0)), (bind_run _ _ _ _ _ (value_at_ok _ _ _ w2 E1)),
    (bind_run _ _ _ _ _ (value_at_ok _ _ _ w2 E2)), (bind_run _ _ _ _ _ E3').
  rewrite (bind_run _ _ _ _ _ (query_accepted _ w2 _ Hdb2)).
  eexists. etransitivity; [apply bind_run, query_accepted, Hdb3|]. reflexivity.
Qed.

Lemma failing_poll getEvents config last vote bad w w1 :
  getEvents (last + 1) (contractIds config) page_limit = Ok [vote; bad] →
  always_fails config bad → process_event config vote w = (Ok tt, w1) →
  ∃ w', pollOnce getEvents config last w = (last, w') ∧
    votes (w_db w') = votes (w_db w1) ∧ proposals (w_db w') = proposals (w_db w1).
Proof.
  intros Hpage Hbad Hvote. destruct (Hbad w1) as (e & w' & Hfail & Hv & Hp). exists w'. split; [|done].
  unfold pollOnce.
  assert (processEvents getEvents config (last + 1) w = (Throw e, w')) as ->; [|done].
  unfold processEvents. rewrite (bind_run (lift _) _ w [vote; bad] w) by (unfold lift; by rewrite Hpage).
  cbn [process_page]. rewrite (bind_run _ _ _ _ _ Hvote). by apply bind_throw.
Qed.

(** The state after the vote: its row is there, its weight is in the tally. *)
Lemma vote_event_effect config vote w w1 id voter support weight r :
  casts_vote config vote = true → cast_of vote = Some (id, voter, support, weight) →
  process_event config vote w = (Ok tt, w1) → proposals (w_db w) !! id = Some r →
  (∃ row, jm_get (id, voter) (votes (w_db w1)) = Some row ∧ vt_weight row = weight) ∧
  proposals (w_db w1) !! id = Some (set_tally (choice support)
    (tally (choice support) r + weight) r).
Proof.
  intros Hcast Hof Hrun Hr. rewrite vote_event_run in Hrun by done. run_bind Hrun u w0 Hlog.
  destruct (log_run _ _ _ _ _ _ Hlog) as [_ Hp].
  destruct (handleVoteCast_run _ _ _ _ _ _ Hrun) as (id' & voter' & s' & n' & row & Hvote & Hs & Hw & Hrec).
  unfold cast_of in Hof. rewrite Hvote in Hof. injection Hof as -> -> -> ->.
  destruct Hrec as (Hv & Hprops & _). subst support. split.
  - exists row. rewrite Hv, jm_get_set, decide_True by done. done.
  - rewrite Hprops, Hp, lookup_alter_eq, Hr. cbn. by rewrite Hw.
Qed.

Lemma process_vote_again config vote w u w1 w2 id voter support weight r :
  casts_vote config vote = true → cast_of vote = Some (id, voter, support, weight) →
  process_event config vote w = (Ok u, w1) →
  is_Some (jm_get (id, voter) (votes (w_db w2))) → proposals (w_db w2) !! id = Some r →
  bigint (tally (choice support) r + weight) →
  ∃ w3, process_event config vote w2 = (Ok tt, w3).
Proof.
  intros Hcast Hof Hrun Hold Hr Hfit. rewrite vote_event_run in Hrun |- * by done.
  run_bind Hrun u1 w0 Hlog. unfold logToEventLog in *.
  destruct (log_again _ _ _ _ _ _ _ _ (w_db w2) (query_run _ _ _ _ Hlog)) as [d2 Hd2].
  rewrite (bind_run _ _ _ _ _ (query_accepted _ w2 _ Hd2)).
  destruct (log_tables _ _ _ _ _ _ _ _ Hd2) as [Hv Hp].
  eapply (vote_again _ _ _ _ _ _ _ _ _ _ _ _ Hrun Hof); cbn; [by rewrite Hv|by rewrite Hp|done].
Qed.

(** Votes in front of an event that cannot be processed are counted once
    per poll.  The failing event keeps the cursor where it is, the page is
    fetched again, and the vote before it is added to the tally each time,
    while its row in [votes] stays one. *)
Theorem failing_page_counts_votes_again (n : nat) getEvents config last vote bad w id voter support weight r :
  getEvents (last + 1) (contractIds config) page_limit = Ok [vote; bad] →
  casts_vote config vote = true → cast_of vote = Some (id, voter, support, weight) →
  always_fails config bad → fst (process_event config vote w) = Ok tt →
  proposals (w_db w) !! id = Some r → 0 ≤ weight →
  let col := choice support in
  bigint (tally col r) → tally col r + Z.of_nat n * weight ≤ 2 ^ 63 - 1 →
  let s := polls n getEvents config last w in
  fst s = last ∧
  (∃ r', proposals (w_db (snd s)) !! id = Some r' ∧ tally col r' = tally col r + Z.of_nat n * weight) ∧
  ((0 < n)%nat → ∃ row, jm_get (id, voter) (votes (w_db (snd s))) = Some row ∧ vt_weight row = weight).
Proof.
  cbv zeta. intros Hpage Hcast Hof Hbad. revert w r. induction n as [|n IH]; intros w r Hok Hr Hw Hfit Hle; cbn [polls].
  { split; [done|]. split; [exists r; split; [done|lia]|lia]. }
  destruct (process_event config vote w) as [o w1] eqn:Hrun. cbn in Hok. subst o.
  destruct (failing_poll _ _ _ _ _ _ _ Hpage Hbad Hrun) as (w2 & -> & Hv2 & Hp2).
  destruct (vote_event_effect _ _ _ _ _ _ _ _ _ Hcast Hof Hrun Hr) as [(row & Hrow & Hweight) Hr1].
  rewrite <- Hv2 in Hrow. rewrite <- Hp2 in Hr1.
  pose proof (tally_set_tally (choice support) (choice support)
    (tally (choice support) r + weight) r) as Ht. rewrite decide_True in Ht by done.
  destruct n as [|n].
  { cbn [polls fst snd]. split; [done|]. split; [eexists; split; [exact Hr1|lia]|by exists row]. }
  unfold bigint in Hfit.
  destruct (process_vote_again _ _ _ _ _ w2 _ _ _ _ _ Hcast Hof Hrun (ex_intro _ row Hrow) Hr1) as [w3 Hrun2].
  { unfold bigint. lia. }
  destruct (IH w2 _ (f_equal fst Hrun2) Hr1 Hw) as (H1 & (r' & Hr' & Htally) & Hrows).
  { unfold bigint. lia. }
  { lia. }
  split; [done|]. split; [exists r'; split; [done|lia]|intros _; apply Hrows; lia].
Qed.
End votes.

#[local] Existing Instance ex_runtime.

(** One page with a vote, and a page whose second event cannot be processed. *)
Lemma ex_world_tallies : tallies_match (w_db ex_world).
Proof.
  intros id r col. cbn. intros [<- <-]%lookup_singleton_Some. by destruct col.
Qed.
Definition ex_counted : World := snd (process_page ex_config [ex_vote] 10 ex_world).
Lemma tallies_are_sums_of_votes_witness : tallies_match (w_db ex_counted).
Proof.
  apply (tallies_are_sums_of_votes ex_config [ex_vote] 10 ex_world 11 ex_counted).
  - exact ex_world_tallies.
  - intros k Hk. by apply elem_of_nil in Hk.
  - vm_compute. reflexivity.
  - apply NoDup_singleton.
  - intros k _ Hk. by apply elem_of_nil in Hk.
Defined.

Lemma failing_page_counts_votes_again_witness :
  let s := polls 3 (λ _ _ _, Ok [ex_vote; ex_broken_vote]) ex_config 10 ex_world in
  fst s = 10 ∧ ∃ r, proposals (w_db (snd s)) !! 1 = Some r ∧ pr_votes_for r = 21.
Proof.
  destruct (failing_page_counts_votes_again 3 (λ _ _ _, Ok [ex_vote; ex_broken_vote]) ex_config 10 ex_vote ex_broken_vote
    ex_world 1 "bob" 1 7 ex_proposal) as (H1 & H2 & _).
  - reflexivity.
  - vm_compute. reflexivity.
  - vm_compute. reflexivity.
  - apply no_data_always_fails; vm_compute; reflexivity.
  - vm_compute. reflexivity.
  - vm_compute. reflexivity.
  - lia.
  - by vm_compute.
  - by vm_compute.
  - split; [exact H1|exact H2].
Defined.
