(* ===== verification/TreasuryMirror.v ===== *)
(** * Indexer: the mirror of the treasury streams

    Reading the contract page by page returns all of its streams and spends;
    and a stream event is stored together with the contract's state in one
    step, once: an abstract step [project] on the three tables is what a
    handled event does, and a refused or repeated one does nothing. *)

From S2P Require Import Prelude JsValues Cache IndexerDb IndexerWorld.
From S2P Require Import TreasuryProjection.
From S2P Require Import IndexerInvariants Indexer.

(** ** Paging *)

(** The contract's answer to a page request, for the list it holds. *)
Definition slice {A} (all : list A) (offset limit : Z) : list A :=
  take (Z.to_nat limit) (drop (Z.to_nat offset) all).
Definition serves_streams (reader : TreasuryStateReader) (all : list TreasuryStreamRecord) : Prop :=
  ∀ offset limit, 0 ≤ offset → 0 ≤ limit → getStreams reader offset limit = Ok (slice all offset limit).
Definition serves_spends (reader : TreasuryStateReader) (id : string) (all : list TreasuryStreamSpendRecord) : Prop :=
  ∀ offset limit, 0 ≤ offset → 0 ≤ limit → getStreamSpends reader id offset limit = Ok (slice all offset limit).

Lemma slice_length {A} (all : list A) offset limit :
  0 ≤ limit → Z.of_nat (length (slice all offset limit)) = Z.min limit (Z.of_nat (length all - Z.to_nat offset)).
Proof. intros Hl. unfold slice. rewrite length_take, length_drop. lia. Qed.
Lemma slice_app {A} (all : list A) offset limit n :
  0 ≤ offset → 0 ≤ limit → 0 ≤ n → slice all offset limit ++ slice all (offset + limit) n = slice all offset (limit + n).
Proof.
  intros Ho Hl Hn. unfold slice. rewrite !Z2Nat.inj_add by done.
  rewrite <- drop_drop, <- (take_drop (Z.to_nat limit) (take (Z.to_nat limit + Z.to_nat n) _)).
  rewrite take_take, <- take_drop_commute. f_equal. f_equal. lia.
Qed.
Lemma slice_beyond {A} (all : list A) offset limit :
  Z.of_nat (length all) ≤ offset → slice all offset limit = [].
Proof. intros Ho. unfold slice. rewrite drop_ge by lia. by destruct (Z.to_nat limit). Qed.
Lemma slice_all {A} (all : list A) offset limit :
  0 ≤ offset → Z.of_nat (length all) ≤ offset + limit → slice all offset limit = drop (Z.to_nat offset) all.
Proof. intros Ho Hl. unfold slice. apply take_ge. rewrite length_drop. lia. Qed.

Lemma streams_from_complete {S} fuel reader all offset (s : S) :
  serves_streams reader all → 0 ≤ offset →
  Z.of_nat (length all) < offset + Z.of_nat fuel * pageSize →
  (0 < fuel)%nat →
  streams_from fuel reader offset s = (Ok (drop (Z.to_nat offset) all), s).
Proof.
  intros Hserve. revert offset. induction fuel as [|fuel IH]; intros offset Ho Hfuel Hpos; [lia|].
  cbn [streams_from]. assert (0 ≤ pageSize) as Hp by done.
  rewrite (bind_run _ _ s (slice all offset pageSize) s) by (unfold lift; by rewrite Hserve).
  pose proof (slice_length all offset pageSize Hp) as Hlen.
  destruct (Z.ltb_spec (Z.of_nat (length (slice all offset pageSize))) pageSize) as [Hlt|Hge].
  { cbn. by rewrite slice_all by lia. }
  assert (offset + pageSize ≤ Z.of_nat (length all)) as Hmore by (unfold pageSize in *; lia).
  destruct fuel as [|fuel]; [unfold pageSize in *; lia|].
  rewrite (bind_run _ _ s (drop (Z.to_nat (offset + pageSize)) all) s) by (apply IH; unfold pageSize in *; lia).
  cbn. unfold slice. rewrite Z2Nat.inj_add, <- drop_drop, take_drop by done. done.
Qed.

Lemma spends_from_complete {S} fuel reader id all count offset (s : S) :
  serves_spends reader id all → 0 ≤ offset → count - offset ≤ Z.of_nat fuel →
  spends_from fuel reader id count offset s = (Ok (slice all offset (Z.max 0 (count - offset))), s).
Proof.
  intros Hserve. revert offset. induction fuel as [|fuel IH]; intros offset Ho Hfuel; cbn [spends_from].
  { rewrite Z.max_l by lia. done. }
  destruct (Z.ltb_spec offset count) as [Hlt|Hge]; [|by rewrite Z.max_l by lia].
  set (n := Z.min pageSize (count - offset)). assert (0 < n) as Hn by (unfold n, pageSize; lia).
  rewrite (bind_run _ _ s (slice all offset n) s) by (unfold lift; by rewrite (Hserve offset n) by lia).
  rewrite Z.max_r by lia.
  destruct (slice all offset n) as [|x page] eqn:Hpage.
  { assert (Z.of_nat (length all) ≤ offset) as Hend.
    { pose proof (slice_length all offset n ltac:(lia)) as Hlen. rewrite Hpage in Hlen. cbn in Hlen. lia. }
    by rewrite slice_beyond. }
  rewrite <- Hpage. rewrite (bind_run _ _ s _ s (IH (offset + pageSize) ltac:(unfold pageSize; lia) ltac:(unfold pageSize; lia))).
  unfold mret, M_ret. f_equal. f_equal. destruct (Z.le_gt_cases (count - offset) pageSize) as [Hle|Hgt].
  - rewrite Z.max_l by lia. unfold slice at 2. cbn. rewrite app_nil_r. f_equal. lia.
  - rewrite Z.max_r by lia. assert (n = pageSize) as -> by (unfold n; lia). rewrite slice_app by (unfold pageSize in *; lia).
    f_equal. lia.
Qed.

(** Reading page by page ends and returns everything, in order: all streams
    of a contract that answers with slices of its list, given one round more
    than it has full pages, and as many of a stream's spends as its record
    counts.  Neither changes anything. *)
Theorem paged_reads_complete {S} reader streams stream spends count fuel (s : S) :
  serves_streams reader streams →
  Z.of_nat (length streams) < Z.of_nat fuel * pageSize →
  serves_spends reader (streamId stream) spends → spendCount stream = VNum count →
  getAllTreasuryStreams fuel reader s = (Ok streams, s) ∧
  getAllStreamSpends reader stream s = (Ok (take (Z.to_nat count) spends), s).
Proof.
  intros Hstreams Hfuel Hspends Hcount. split.
  - unfold getAllTreasuryStreams. rewrite (streams_from_complete _ _ streams) by (auto; unfold pageSize in *; lia). done.
  - unfold getAllStreamSpends. rewrite Hcount, (spends_from_complete _ _ _ spends) by (done || lia).
    unfold slice. rewrite Z.sub_0_r. f_equal. f_equal. cbn. f_equal. lia.
Qed.

(** ** One event *)
Section mirror.
Context `{Runtime}.
Implicit Types (event : EventResponse) (w : World).

Definition insert_spends (rows : list ((Z * Z) * SpendRow)) (m : gmap (Z * Z) SpendRow) : gmap (Z * Z) SpendRow :=
  foldl (λ m kv, <[kv.1 := kv.2]> m) m rows.

(** The abstract step: the event, the stream as the contract reports it and
    the spends that were read, all stored or nothing. *)
Definition project (e : TreasuryStreamEventRecord) (stream : TreasuryStreamRecord)
    (spends : list TreasuryStreamSpendRecord) : Stmt := λ d,
  row ← event_row e;
  '(id, srow) ← stream_row stream (r_ledger e);
  rows ← mapM spend_row spends;
  match treasury_stream_events d !! r_eventId e with
  | Some _ => None
  | None =>
    Some (d <| treasury_stream_events ::= <[r_eventId e := row]> |>
            <| treasury_streams ::= (upsert_stream_row id srow) |>
            <| treasury_stream_spends ::= (insert_spends rows) |>)
  end.

Lemma project_stores e stream spends d d' :
  project e stream spends d = Some d' → is_Some (treasury_stream_events d' !! r_eventId e).
Proof. intros Hp. stmt_inv Hp. cbn. rewrite lookup_insert_eq. by eexists. Qed.

(** The spends read with an event. *)
Definition read_spends (eventType : string) reader stream : M World (list TreasuryStreamSpendRecord) :=
  if String.eqb eventType "stream_spend" || String.eqb eventType "stream_batch"
  then getAllStreamSpends reader stream else mret [].
#[local] Instance reads_read_spends eventType reader stream : Reads (read_spends eventType reader stream).
Proof. unfold read_spends. destruct (_ || _); apply _. Qed.

Lemma query_ok (s : Stmt) w u w' : query s w = (Ok u, w') → ∃ d, s (w_db w) = Some d ∧ w' = w <| w_db := d |>.
Proof.
  unfold query, get, mbind, M_bind. destruct (s (w_db w)) as [d|]; cbn; [|done]. intros [= _ <-]. by exists d.
Qed.

Lemma upsert_spends_ok spends w u w' :
  for_each (λ spend, query (upsertSpend spend)) spends w = (Ok u, w') →
  ∃ rows, mapM spend_row spends = Some rows ∧
    w' = w <| w_db := (w_db w) <| treasury_stream_spends ::= (insert_spends rows) |> |>.
Proof.
  revert w. induction spends as [|spend spends IH]; intros w Hrun; cbn [for_each] in Hrun.
  { injection Hrun as _ <-. exists []. split; [done|]. by destruct w as [[] ? ?]. }
  apply bind_ok_inv in Hrun as (u1 & w1 & Hq & Hrun).
  apply query_ok in Hq as (d & Hs & ->). apply IH in Hrun as (rows & Hrows & ->).
  unfold upsertSpend in Hs. destruct (spend_row spend) as [[key row]|] eqn:Hrow; [|done]. cbn [mbind option_bind] in Hs.
  destruct (_ || _); [|done]. injection Hs as <-.
  exists ((key, row) :: rows). split; [|done]. cbn [mapM]. by rewrite Hrow, Hrows.
Qed.

(** A transaction that persisted an event made the abstract step. *)
Lemma persist_ok e stream spends b w w' :
  persistTreasuryStreamEvent e stream spends w = (Ok b, w') →
  treasury_stream_events (w_db w) !! r_eventId e = None →
  b = true ∧ ∃ d, project e stream spends (w_db w) = Some d ∧ w' = w <| w_db := d |>.
Proof.
  intros Hrun Hnew. unfold persistTreasuryStreamEvent, transaction in Hrun.
  match type of Hrun with (match ?m ?s with _ => _ end = _) => destruct (m s) as [[a|err] w0] eqn:Hbody; [|done] end.
  injection Hrun as <- <-.
  apply bind_ok_inv in Hbody as (present & w1 & Hex & Hbody). injection Hex as <- <-.
  rewrite bool_decide_eq_false_2 in Hbody by (rewrite Hnew; by intros [? ?]).
  apply bind_ok_inv in Hbody as (u1 & w1 & Hq & Hbody). apply query_ok in Hq as (d1 & Hd1 & ->).
  apply bind_ok_inv in Hbody as (u2 & w2 & Hq & Hbody). apply query_ok in Hq as (d2 & Hd2 & ->).
  apply bind_ok_inv in Hbody as (u3 & w3 & Hq & Hbody). apply upsert_spends_ok in Hq as (rows & Hrows & ->).
  injection Hbody as <- <-. split; [done|]. unfold project, insert_stream_event, upsertStream in *.
  destruct (event_row e) as [row|]; [|done]. cbn [mbind option_bind] in *.
  destruct (stream_row stream (r_ledger e)) as [[id srow]|]; [|done]. cbn [mbind option_bind] in *.
  rewrite Hrows, Hnew. cbn [mbind option_bind]. eexists. split; [done|].
  injection Hd1 as <-. injection Hd2 as <-. unfold insert_new. cbn. by rewrite Hnew.
Qed.
Lemma persist_throw e stream spends err w w' :
  persistTreasuryStreamEvent e stream spends w = (Throw err, w') → w_db w' = w_db w.
Proof.
  unfold persistTreasuryStreamEvent, transaction.
  match goal with |- (match ?m ?s with _ => _ end = _) → _ => destruct (m s) as [[a|e'] w0] end; [done|].
  by intros [= _ <-].
Qed.

Lemma bind_select {A B} (f : Db → A) (k : A → M World B) w o : (select f ≫= k) w = o → k (f (w_db w)) w = o.
Proof. done. Qed.
Lemma handled_again event eventType reader e w :
  (∀ w0, decodeTreasuryStreamEvent event eventType w0 = (Ok e, w0)) →
  is_Some (treasury_stream_events (w_db w) !! r_eventId e) →
  handleTreasuryStreamEvent event eventType (Some reader) w = (Ok tt, w).
Proof.
  intros Hdec Hin. unfold handleTreasuryStreamEvent. rewrite (bind_run _ _ w reader w) by done.
  rewrite (bind_run _ _ _ _ _ (Hdec w)). rewrite (bind_run _ _ w true w); [done|].
  unfold treasuryStreamEventExists, select, gets. by rewrite bool_decide_eq_true_2.
Qed.

(** C3: Handling a stream event refines the abstract step.  If it returns and
    the event is new, the database made the step [project] with the stream the
    contract reported and, for a spend, all the spends read; if the event is
    stored already nothing changes at all; if it throws, at whatever point, the
    database is as before.  So an event that was handled is handled once:
    handling it again, whatever the contract answers then, changes nothing. *)
Theorem stream_event_refines_projection event eventType reader w o w' :
  handleTreasuryStreamEvent event eventType (Some reader) w = (o, w') →
  (∀ err, o = Throw err → w_db w' = w_db w) ∧
  (∀ u, o = Ok u → ∃ e, fst (decodeTreasuryStreamEvent event eventType w) = Ok e ∧
    (is_Some (treasury_stream_events (w_db w) !! r_eventId e) → w' = w) ∧
    (treasury_stream_events (w_db w) !! r_eventId e = None → ∃ stream spends,
      getStream reader (r_streamId e) = Ok stream ∧
      fst (read_spends eventType reader stream w) = Ok spends ∧
      project e stream spends (w_db w) = Some (w_db w')) ∧
    ∀ reader', handleTreasuryStreamEvent event eventType (Some reader') w' = (Ok tt, w')).
Proof.
  unfold handleTreasuryStreamEvent. rewrite (bind_run _ _ w reader w) by done. intros Hrun.
  pose proof (_ : Reads (decodeTreasuryStreamEvent event eventType)) as [[e|err] Hdec].
  2:{ rewrite (bind_throw _ _ _ _ _ (Hdec w)) in Hrun. by injection Hrun as <- <-. }
  rewrite (bind_run _ _ _ _ _ (Hdec w)) in Hrun.
  apply bind_select in Hrun.
  destruct (treasury_stream_events (w_db w) !! r_eventId e) as [old|] eqn:Hnew.
  { rewrite bool_decide_eq_true_2 in Hrun by done. injection Hrun as <- <-. split; [done|].
    intros _ _. exists e. rewrite Hdec. split; [done|]. split; [done|]. split; [by rewrite Hnew|].
    intros reader'. by apply (handled_again _ _ _ e); [|rewrite Hnew]. }
  rewrite bool_decide_eq_false_2 in Hrun by (intros [? ?]; congruence).
  destruct (getStream reader (r_streamId e)) as [stream|err] eqn:Hstream.
  2:{ rewrite (bind_throw _ _ w err w) in Hrun by (unfold lift; rewrite ?Hstream; done). by injection Hrun as <- <-. }
  rewrite (bind_run _ _ w stream w) in Hrun by (unfold lift; rewrite ?Hstream; done).
  fold (read_spends eventType reader stream) in Hrun.
  pose proof (_ : Reads (read_spends eventType reader stream)) as [[spends|err] Hspends].
  2:{ rewrite (bind_throw _ _ _ _ _ (Hspends w)) in Hrun. by injection Hrun as <- <-. }
  rewrite (bind_run _ _ _ _ _ (Hspends w)) in Hrun.
  destruct (persistTreasuryStreamEvent e stream spends w) as [[b|err] w1] eqn:Hpersist.
  2:{ rewrite (bind_throw _ _ _ _ _ Hpersist) in Hrun. injection Hrun as <- <-.
      split; [|done]. intros _ _. by eapply persist_throw. }
  rewrite (bind_run _ _ _ _ _ Hpersist) in Hrun.
  destruct (persist_ok _ _ _ _ _ _ Hpersist Hnew) as (-> & d & Hproject & ->).
  injection Hrun as <- <-. split; [done|]. intros u _. exists e. rewrite Hdec. split; [done|].
  split; [by intros []; congruence|]. split; [intros _; exists stream, spends; by rewrite Hspends|].
  intros reader'. apply (handled_again _ _ _ e); [done|]. by eapply project_stores.
Qed.
End mirror.

#[local] Existing Instance ex_runtime.

(** A contract with one stream that was spent from once. *)
Definition ex_stream : TreasuryStreamRecord := {|
  streamId := "4"; name := "grants"; owner := "alice"; token := "XLM"; totalAllocated := "100"; totalSpent := "30";
  startLedger := VNum 1; endLedger := VNum 90; isActive := true; isRevoked := false; revokedAtLedger := VNull;
  maxSingleSpend := "50"; cooldownLedgers := VNum 0; lastSpendLedger := VNum 11; spendCount := VNum 1;
  createdByProposalId := "1" |}.
Definition ex_spend : TreasuryStreamSpendRecord := {|
  s_streamId := "4"; spendIndex := VNum 0; recipient := "bob"; amount := "30"; memo := "books";
  executedAtLedger := VNum 11; executedBy := "alice" |}.
Definition ex_reader : TreasuryStateReader := {|
  getStream := λ _, Ok ex_stream; getStreams := λ o l, Ok (slice [ex_stream] o l);
  getStreamSpends := λ _ o l, Ok (slice [ex_spend] o l) |}.
Definition ex_spend_event : EventResponse :=
  ex_event "e3" "T" 11 [VStr "stream_spend"] (VArr [VBig 4; VStr "bob"; VBig 30]).

Lemma paged_reads_complete_witness :
  getAllTreasuryStreams 1 ex_reader tt = (Ok [ex_stream], tt) ∧
  getAllStreamSpends ex_reader ex_stream tt = (Ok [ex_spend], tt).
Proof. apply (paged_reads_complete ex_reader [ex_stream] ex_stream [ex_spend] 1 1 tt); done. Defined.

Definition ex_mirrored : World := snd (handleTreasuryStreamEvent ex_spend_event "stream_spend" (Some ex_reader) ex_world).
Lemma stream_event_refines_projection_witness :
  treasury_stream_events (w_db ex_mirrored) !! "e3" ≠ None ∧
  ∀ reader', handleTreasuryStreamEvent ex_spend_event "stream_spend" (Some reader') ex_mirrored = (Ok tt, ex_mirrored).
Proof.
  split; [vm_compute; discriminate|].
  destruct (stream_event_refines_projection ex_spend_event "stream_spend" ex_reader ex_world (Ok tt) ex_mirrored)
    as [_ Hok]; [vm_compute; reflexivity|].
  destruct (Hok tt eq_refl) as (e & _ & _ & _ & Hagain). exact Hagain.
Defined.
