(* ===== verification/TimelockIndexing.v ===== *)
(** * Indexer: replays of the timelock's events

    The sixteen handlers of timelock events may run again on the event they
    handled last: the database stays as it is.  The status of an operation is
    the exception to an exact mirror: scheduling it again leaves its old
    status in the row. *)

From S2P Require Import Prelude JsValues Cache IndexerDb IndexerWorld.
From S2P Require Import IndexerTimelock.
From S2P Require Import Indexer.
From S2P Require Import IndexerInvariants.

(** ** Computations that may run again *)

(** It returns and leaves the database alone. *)
Class Silent {A} (m : M World A) : Prop :=
  silent : ∀ w, ∃ a w', m w = (Ok a, w') ∧ w_db w' = w_db w.
(** Where it returned, it returns again and finds nothing left to do. *)
Class Replays {A} (m : M World A) : Prop :=
  replays : ∀ w a w1 wx, m w = (Ok a, w1) → w_db wx = w_db w1 →
    ∃ a' w2, m wx = (Ok a', w2) ∧ w_db w2 = w_db w1.

Section replays.
Context {A B : Type}.

#[export] Instance silent_ret (a : A) : Silent (mret a).
Proof. intros w. by exists a, w. Qed.
#[export] Instance silent_evict keys : Silent (evict keys).
Proof. intros w. by eexists _, _. Qed.
#[export] Instance silent_evict_prefix p : Silent (evict_prefix p).
Proof. intros w. by eexists _, _. Qed.
#[export] Instance silent_broadcast t data : Silent (broadcast t data).
Proof. intros w. by eexists _, _. Qed.
#[export] Instance silent_if (b : bool) (m1 m2 : M World A) : Silent m1 → Silent m2 → Silent (if b then m1 else m2).
Proof. by destruct b. Qed.
#[export] Instance silent_bind (m : M World B) (k : B → M World A) :
  Silent m → (∀ b, Silent (k b)) → Silent (m ≫= k).
Proof.
  intros Hm Hk w. destruct (Hm w) as (b & w1 & Hrun & Hdb). destruct (Hk b w1) as (a & w2 & Hrun2 & Hdb2).
  exists a, w2. rewrite (bind_run _ _ _ _ _ Hrun). split; [done|congruence].
Qed.

#[export] Instance replays_silent (m : M World A) : Silent m → Replays m.
Proof.
  intros Hm w a w1 wx _ Hdb. destruct (Hm wx) as (a' & w2 & Hrun & Hdb2). exists a', w2. split; [done|congruence].
Qed.
#[export] Instance replays_read (m : M World B) (k : B → M World A) :
  Reads m → (∀ b, Replays (k b)) → Replays (m ≫= k).
Proof.
  intros [[b|e] Hm] Hk w a w1 wx Hrun Hdb.
  - rewrite (bind_run _ _ _ _ _ (Hm w)) in Hrun. rewrite (bind_run _ _ _ _ _ (Hm wx)). by eapply Hk.
  - by rewrite (bind_throw _ _ _ _ _ (Hm w)) in Hrun.
Qed.
#[export] Instance replays_query (s : Stmt) (k : unit → M World A) :
  Idempotent s → (∀ u, Silent (k u)) → Replays (query s ≫= k).
Proof.
  intros Hs Hk w a w1 wx Hrun Hdb.
  apply bind_ok_inv in Hrun as (u & w0 & Hq & Hrun).
  destruct (Hk u w0) as (a0 & w1' & Hk0 & Hdb0). rewrite Hk0 in Hrun. injection Hrun as <- <-.
  unfold query, get, mbind, M_bind in Hq. destruct (s (w_db w)) as [d|] eqn:Hd; [|done].
  injection Hq as _ <-. cbn in Hdb0. rewrite Hdb0 in *. apply Hs in Hd.
  destruct (Hk tt (wx <| w_db := d |>)) as (a1 & w2 & Hk1 & Hdb1). exists a1, w2. split; [|by rewrite Hdb1].
  unfold query, get, mbind, M_bind. rewrite Hdb, Hd. exact Hk1.
Qed.
(** Two statements in a row that together are idempotent. *)
Lemma replays_query2 (s1 s2 : Stmt) (k : M World A) :
  Idempotent (λ d, s1 d ≫= s2) → Silent k → Replays (query s1;; query s2;; k).
Proof.
  intros Hs Hk w a w1 wx Hrun Hdb.
  apply bind_ok_inv in Hrun as (u & w0 & Hq & Hrun). apply bind_ok_inv in Hrun as (v & w2 & Hq2 & Hrun).
  destruct (Hk w2) as (a0 & w2' & Hk0 & Hdb0). rewrite Hk0 in Hrun. injection Hrun as <- <-.
  unfold query, get, mbind, M_bind in Hq. destruct (s1 (w_db w)) as [d1|] eqn:Hd1; [|done]. injection Hq as _ <-.
  unfold query, get, mbind, M_bind in Hq2. cbn in Hq2. destruct (s2 d1) as [d2|] eqn:Hd2; [|done]. injection Hq2 as _ <-.
  cbn in Hdb0. rewrite Hdb0 in *.
  assert (s1 d2 ≫= s2 = Some d2) as Hagain by (apply (Hs (w_db w)); by rewrite Hd1).
  apply bind_Some in Hagain as (d3 & Hd3 & Hd3').
  destruct (Hk (wx <| w_db := d2 |>)) as (a1 & w3 & Hk1 & Hdb1). exists a1, w3. split; [|by rewrite Hdb1].
  unfold query, get, mbind, M_bind. rewrite Hdb, Hd3. cbn. rewrite Hd3'. exact Hk1.
Qed.
End replays.

Lemma replays_switch t (cases : list (string * M World unit)) :
  Forall (λ c, Replays c.2) cases → Replays (switch t cases).
Proof.
  induction 1 as [|[c m] rest Hm _ IH]; cbn [switch]; [apply _|]. by destruct (String.eqb t c).
Qed.

(** ** The statements *)
Section timelock.
Context `{Runtime}.
Implicit Types (event : EventResponse).

Lemma schedule_row_idemp m op_id t f r e l :
  schedule_row (schedule_row m op_id t f r e l) op_id t f r e l = schedule_row m op_id t f r e l.
Proof.
  unfold schedule_row at 2 3. destruct (m !! op_id) as [old|]; unfold schedule_row;
    rewrite lookup_insert_eq, insert_insert_eq; done.
Qed.

(** The checks of the columns passed once, they pass again. *)
Ltac run_again Hs :=
  stmt_inv Hs; simplify_eq; unfold schedule_operation, schedule_batch, update_operation, update_batch, insert_graph, start_partial,
    succeed_partial, recover_partial, retry_partial, complete_partial, complete_batch, update_partial;
  repeat match goal with E : _ = Some _ |- _ => rewrite E; clear E; cbn [mbind option_bind] end; cbn.

#[export] Instance schedule_operation_idemp op_id t f r e l : Idempotent (schedule_operation op_id t f r e l).
Proof. intros d d' Hs. run_again Hs. by rewrite schedule_row_idemp. Qed.
#[export] Instance schedule_batch_idemp op_id t f r e l : Idempotent (schedule_batch op_id t f r e l).
Proof. intros d d' Hs. run_again Hs. by rewrite schedule_row_idemp. Qed.
#[export] Instance execute_operation_idemp op_id c l : Idempotent (update_operation execute_row op_id c l).
Proof. intros d d' Hs. run_again Hs. by rewrite alter_idemp. Qed.
#[export] Instance cancel_operation_idemp op_id c l : Idempotent (update_operation cancel_row op_id c l).
Proof. intros d d' Hs. run_again Hs. by rewrite alter_idemp. Qed.
#[export] Instance execute_batch_idemp op_id c l : Idempotent (update_batch execute_row op_id c l).
Proof. intros d d' Hs. run_again Hs. by rewrite alter_idemp. Qed.
#[export] Instance cancel_batch_idemp op_id c l : Idempotent (update_batch cancel_row op_id c l).
Proof. intros d d' Hs. run_again Hs. by rewrite alter_idemp. Qed.
#[export] Instance insert_graph_idemp i b n c p l : Idempotent (insert_graph i b n c p l).
Proof. intros d d' Hs. run_again Hs. by rewrite insert_new_idemp. Qed.
#[export] Instance start_partial_idemp op_id t l : Idempotent (start_partial op_id t l).
Proof.
  intros d d' Hs. run_again Hs. destruct (timelock_partial_batch_state d !! op_id) as [old|];
    rewrite lookup_insert_eq, insert_insert_eq; done.
Qed.
#[export] Instance last_op_idemp op_id last status l : Idempotent (update_partial (last_op last status) op_id l).
Proof. intros d d' Hs. run_again Hs. by rewrite alter_idemp. Qed.
#[export] Instance succeed_partial_idemp op_id last c t l : Idempotent (succeed_partial op_id last c t l).
Proof. intros d d' Hs. run_again Hs. by rewrite alter_idemp. Qed.
#[export] Instance recover_partial_idemp op_id n l : Idempotent (recover_partial op_id n l).
Proof. intros d d' Hs. run_again Hs. by rewrite alter_idemp. Qed.
#[export] Instance retry_partial_idemp op_id last n s l : Idempotent (retry_partial op_id last n s l).
Proof. intros d d' Hs. run_again Hs. by rewrite alter_idemp. Qed.
Lemma complete_idemp op_id l : Idempotent (λ d, complete_partial op_id l d ≫= complete_batch op_id l).
Proof.
  intros d d' Hs. apply bind_Some in Hs as (d1 & H1 & Hs). stmt_inv H1. run_again Hs.
  rewrite !alter_idemp; try done. intros [? ? ? ? ? ? exec ? ? ?]. by destruct exec.
Qed.

(** Worlds with the same rows; the caches and the messages may differ. *)
Definition same_rows (w w' : World) : Prop := w_db w' = w_db w.
(** The operation an event is about. *)
Definition event_operation (event : EventResponse) : string := bytesToHex (pick (ev_value event) 0 "op_id").

(** ** The handlers *)
#[local] Instance replays_complete event : Replays (handleTimelockBatchFullyComplete event).
Proof. unfold handleTimelockBatchFullyComplete. cbv zeta. apply replays_query2; [apply complete_idemp|apply _]. Qed.

(** The timelock's events may be replayed.  Where the handler of an event
    returned, running it again on the database it left, whatever the caches
    hold by then, returns and changes no row. *)
Theorem timelock_events_replay event eventType w u w1 wx :
  switch eventType (timelock_cases event) w = (Ok u, w1) → same_rows w1 wx →
  ∃ w2, switch eventType (timelock_cases event) wx = (Ok tt, w2) ∧ same_rows w1 w2.
Proof.
  intros Hrun Hdb. assert (Replays (switch eventType (timelock_cases event))) as Hreplays.
  { apply replays_switch. unfold timelock_cases. repeat apply Forall_cons_2; try apply Forall_nil_2; cbn [snd];
      [..|apply _];
      lazymatch goal with |- Replays ?m => let h := head_of m in unfold h; cbv zeta end; apply _. }
  destruct (Hreplays _ _ _ _ Hrun Hdb) as ([] & w2 & Hrun2 & Hdb2). by exists w2.
Qed.

(** Scheduling again does not undo a status.  The upsert of an
    [OperationScheduled] event refreshes the target, the function, the times
    and the ledger of a row it finds, and keeps its status and who executed or
    cancelled it: an operation that was cancelled and scheduled again is listed
    as cancelled while it waits. *)
Theorem rescheduled_operation_keeps_status event w u w' row :
  handleTimelockOperationScheduled event w = (Ok u, w') →
  timelock_operations (w_db w) !! event_operation event = Some row →
  ∃ row', timelock_operations (w_db w') !! event_operation event = Some row' ∧
    to_status row' = to_status row ∧ to_executed_by row' = to_executed_by row ∧
    to_cancelled_by row' = to_cancelled_by row ∧
    to_ledger row' = ev_ledger event ∧
    BIGINT (VStr (js_String (pick (ev_value event) 3 "ready_at" ?? VNum 0))) = Some (to_ready_at row').
Proof.
  unfold event_operation, handleTimelockOperationScheduled. cbv zeta. intros Hrun Hrow.
  apply bind_ok_inv in Hrun as (u1 & w1 & Hq & Hrun).
  unfold query, get, mbind, M_bind in Hq.
  destruct (schedule_operation _ _ _ _ _ _ (w_db w)) as [d|] eqn:Hs; [|done]. injection Hq as _ <-.
  unfold evict, evict_prefix, broadcast, modify, mbind, M_bind in Hrun. injection Hrun as _ <-. cbn.
  stmt_inv Hs. cbn. unfold schedule_row. rewrite Hrow. eexists. split; [apply lookup_insert_eq|]. cbn.
  repeat split; [|done].
  unfold ledger_value, INTEGER, int_column in Hcol1. cbn in Hcol1. rewrite of_decimal_decimal in Hcol1. cbn in Hcol1.
  destruct (_ && _); [by injection Hcol1|done].
Qed.
End timelock.

#[local] Existing Instance ex_runtime.

(** An operation is scheduled, cancelled and scheduled again. *)
Definition ex_schedule (id : string) (ledger : Z) : EventResponse :=
  ex_event id "L" ledger [VStr "OperationScheduled"]
    (VArr [VBytes [x01; xab]; VStr "target"; VStr "run"; VNum 100; VNum 200]).
Definition ex_cancel : EventResponse :=
  ex_event "t2" "L" 12 [VStr "OperationCancelled"] (VArr [VBytes [x01; xab]; VStr "guardian"]).
Definition ex_scheduled : World := snd (handleTimelockOperationScheduled (ex_schedule "t1" 11) ex_world).
Definition ex_cancelled : World := snd (handleTimelockOperationCancelled ex_cancel ex_scheduled).
Definition ex_rescheduled : World := snd (handleTimelockOperationScheduled (ex_schedule "t3" 13) ex_cancelled).

Lemma timelock_events_replay_witness :
  ∃ w2, switch "OperationScheduled" (timelock_cases (ex_schedule "t1" 11)) ex_scheduled = (Ok tt, w2) ∧
    w_db w2 = w_db ex_scheduled.
Proof.
  apply (timelock_events_replay (ex_schedule "t1" 11) "OperationScheduled" ex_world tt ex_scheduled ex_scheduled);
    [vm_compute; reflexivity|reflexivity].
Defined.

Lemma rescheduled_operation_keeps_status_witness :
  ∃ row', timelock_operations (w_db ex_rescheduled) !! "01ab" = Some row' ∧ to_status row' = "cancelled".
Proof.
  destruct (rescheduled_operation_keeps_status (ex_schedule "t3" 13) ex_cancelled tt ex_rescheduled
    (mkTimelockOpRow "target" "run" 100 200 "cancelled" None None (Some "guardian") (Some 12) 11))
    as (row' & Hrow & Hstatus & _); [vm_compute; reflexivity|vm_compute; reflexivity|].
  exists row'. split; [exact Hrow|exact Hstatus].
Defined.
