(* ===== verification/IndexerDivergence.v ===== *)
(** * Indexer: where the index departs from the contracts

    An event that tops up or extends a lock of the vote escrow carries the
    change and not the lock; the handler reads it as a whole lock and stores
    zeros.  A configuration's threshold passes through a double. *)

From S2P Require Import Prelude JsValues Cache IndexerDb IndexerWorld.
From S2P Require Import IndexerGovernor.
From S2P Require Import IndexerTracks.
From S2P Require Import IndexerInvariants Indexer.

Section divergence.
Context `{Runtime}.
Implicit Types (event : EventResponse) (w : World).

(** ** Vote escrow *)

(** The structs of the escrow contract's events. *)
Definition lock_increased (owner : string) (added_amount new_voting_power : Z) : JsValue :=
  VObj [("owner", VStr owner); ("added_amount", VBig added_amount); ("new_voting_power", VBig new_voting_power)].
Definition lock_extended (owner : string) (old_end_ledger new_end_ledger : Z) : JsValue :=
  VObj [("owner", VStr owner); ("old_end_ledger", VNum old_end_ledger); ("new_end_ledger", VNum new_end_ledger)].

Lemma query_stores (s : Stmt) w d (m : M World unit) :
  s (w_db w) = Some d → (query s;; m) w = m (w <| w_db := d |>).
Proof. intros Hs. unfold query, get, mbind, M_bind. by rewrite Hs. Qed.

(** The fields of a literal. *)
Ltac eval_fields :=
  repeat match goal with
  | |- context [field ?k ?l] => let v := eval vm_compute in (field k l) in change (field k l) with v
  end.

(** Topping up or extending a lock erases it.  After a [LockIncreased] or
    [LockExtended] event as the contract publishes it, the row of the owner's
    lock has amount, end and voting power zero, whatever they were, and is
    marked as not withdrawn; only the start of the lock survives. *)
Theorem lock_change_erases_lock event topics owner a b old w :
  owner ≠ "" → bigint (ev_ledger event) →
  vote_escrow_locks (w_db w) !! owner = Some old →
  ev_value event = lock_increased owner a b ∨ ev_value event = lock_extended owner a b →
  ∀ eventType, eventType = "LockIncreased" ∨ eventType = "LockExtended" →
  ∃ w', handleVoteEscrowEvent event eventType topics w = (Ok tt, w') ∧
    vote_escrow_locks (w_db w') !! owner =
      Some (mkEscrowRow 0 (es_start_ledger old) 0 0 false (ev_ledger event)).
Proof.
  intros Howner Hledger Hold Hvalue eventType Htype.
  assert (∃ d, upsert_lock owner (VStr "0") (ledger_value event) (VNum 0) (VStr "0") (ledger_value event) (w_db w) = Some d ∧
    vote_escrow_locks d !! owner = Some (mkEscrowRow 0 (es_start_ledger old) 0 0 false (ev_ledger event)))
    as (d & Hrun & Hrow).
  { eexists. split.
    - unfold upsert_lock. change (NUMERIC 39 (VStr "0")) with (Some 0). cbn [mbind option_bind].
      unfold ledger_value, BIGINT. rewrite int_column_num by exact Hledger. done.
    - cbn. rewrite Hold. apply lookup_insert_eq. }
  assert (String.eqb eventType "LockWithdrawn" = false) as Hkind by (by destruct Htype as [-> | ->]).
  assert (handleVoteEscrowEvent event eventType topics =
    (query (upsert_lock owner (VStr "0") (ledger_value event) (VNum 0) (VStr "0") (ledger_value event));;
     evict_prefix "vote-escrow:")) as ->.
  { unfold handleVoteEscrowEvent. cbv zeta.
    destruct Hvalue as [-> | ->]; unfold lock_increased, lock_extended; cbv beta iota; eval_fields; cbn -[String.eqb];
      rewrite Hkind; by destruct (String.eqb_spec owner ""). }
  rewrite (query_stores _ _ _ _ Hrun). by eexists.
Qed.

(** ** The threshold of a configuration *)

(** A threshold is stored as the double next to it.  The configuration
    that is recorded has [Number(threshold)], which is the contract's value up
    to 2^53 and a neighbour of it beyond: one more than 2^53 is recorded as
    2^53. *)
Theorem threshold_is_rounded obj threshold (s : GovernorSettings) w w' :
  field "proposal_threshold" obj = VBig threshold →
  toGovernorSettings (VObj obj) w = (Ok (Some s), w') →
  proposal_threshold s = to_number threshold ∧
  (Z.abs threshold ≤ 2 ^ 53 → proposal_threshold s = threshold) ∧
  (threshold = 2 ^ 53 + 1 → proposal_threshold s = 2 ^ 53).
Proof.
  intros Hfield Hrun. unfold toGovernorSettings in Hrun. rewrite Hfield in Hrun. cbn [threshold_number] in Hrun.
  assert (proposal_threshold s = to_number threshold) as ->.
  { repeat match type of Hrun with
    | (match ?o with Some _ => _ | None => _ end) _ = _ => destruct o; [|done]
    end.
    apply bind_ok_inv in Hrun as (t & w1 & Ht & Hrun). injection Ht as <- <-.
    apply bind_ok_inv in Hrun as (usd & w1 & _ & Hrun). by injection Hrun as <- _. }
  split; [done|]. split; [apply to_number_exact|]. by intros ->.
Qed.
End divergence.

#[local] Existing Instance ex_runtime.

(** A lock of 500 until ledger 900 is topped up by 100. *)
Definition ex_lock : EscrowRow := mkEscrowRow 500 10 900 800 false 10.
Definition ex_escrow : World := ex_world <| w_db ::= (λ d, d <| vote_escrow_locks := {["carol" := ex_lock]} |>) |>.
Definition ex_top_up : EventResponse :=
  ex_event "l1" "E" 20 [VStr "LockIncreased"; VStr "carol"] (lock_increased "carol" 100 960).
Lemma lock_change_erases_lock_witness :
  ∃ w', handleVoteEscrowEvent ex_top_up "LockIncreased" [VStr "LockIncreased"; VStr "carol"] ex_escrow = (Ok tt, w') ∧
    vote_escrow_locks (w_db w') !! "carol" = Some (mkEscrowRow 0 10 0 0 false 20).
Proof.
  apply (lock_change_erases_lock ex_top_up [VStr "LockIncreased"; VStr "carol"] "carol" 100 960 ex_lock ex_escrow).
  - discriminate.
  - by vm_compute.
  - vm_compute. reflexivity.
  - left. reflexivity.
  - left. reflexivity.
Defined.

Definition ex_settings : list (string * JsValue) :=
  [("voting_delay", VNum 10); ("voting_period", VNum 100); ("quorum_numerator", VNum 4);
   ("proposal_threshold", VBig (2 ^ 53 + 1)); ("proposal_grace_period", VNum 50)].
Lemma threshold_is_rounded_witness :
  ∃ s, fst (toGovernorSettings (VObj ex_settings) ex_world) = Ok (Some s) ∧ proposal_threshold s = 2 ^ 53.
Proof.
  eexists. split; [vm_compute; reflexivity|].
  eapply (threshold_is_rounded ex_settings (2 ^ 53 + 1) _ ex_world ex_world); [reflexivity| |reflexivity].
  vm_compute. reflexivity.
Defined.
