(* ===== verification/Store.v ===== *)
(** * The in-memory ledger

    The data model of [tools/simulation/src/mock/store.ts] and the clock of
    [tools/simulation/src/ledger.ts].  A [Map] is a [gmap], except where the
    program reads the entries back in insertion order ([stakes], paged by
    [get_stakes]), which is an association list.  Objects reachable from the
    store are owned by it: handlers fetch a record, mutate it and leave it in
    place, which the model writes as an update at its key. *)

From S2P Require Import Prelude.

(** ** The ledger clock ([ledger.ts]) *)
Record LedgerClock := mkClock {
  clk_current : Z;
  clk_genesisTimestamp : Z;
}.
#[export] Instance eta_LedgerClock : Eta LedgerClock :=
  λ r, mkClock (clk_current r) (clk_genesisTimestamp r).

Definition SECONDS_PER_LEDGER : Z := 5.

Definition sequence (c : LedgerClock) : Z := clk_current c.

(** [toWallTime(g).getTime() / 1000]: the milliseconds of the [Date] divide out. *)
Definition toWallTime (c : LedgerClock) (genesisTimestamp : Z) : Z :=
  (genesisTimestamp + clk_current c * SECONDS_PER_LEDGER) * 1000.
Definition timestamp (c : LedgerClock) : Z :=
  toWallTime c (clk_genesisTimestamp c) / 1000.

Definition advance (ledgers : Z) : M LedgerClock unit :=
  c ← get;
  throw_if (ledgers <? 0)
    (PlainError ("LedgerClock.advance: ledgers must be >= 0, got " +:+ decimal ledgers));;
  modify (λ c, c <| clk_current ::= λ n, n + ledgers |>).

Definition advanceTo (targetLedger : Z) : M LedgerClock unit :=
  c ← get;
  if clk_current c <? targetLedger
  then modify (λ c, c <| clk_current := targetLedger |>)
  else mret tt.

Definition secondsToLedgers (seconds : Z) : Z := - ((- seconds) / SECONDS_PER_LEDGER).
Definition ledgersToSeconds (ledgers : Z) : Z := ledgers * SECONDS_PER_LEDGER.

Record ClockSnapshot := mkClockSnapshot { snap_current : Z; snap_genesisTimestamp : Z }.
Definition clock_snapshot (c : LedgerClock) : ClockSnapshot :=
  mkClockSnapshot (clk_current c) (clk_genesisTimestamp c).
Definition clock_restore (snap : ClockSnapshot) : M LedgerClock unit :=
  modify (λ c, c <| clk_current := snap_current snap |>).

(** ** Governor *)
Inductive VoteType := Simple | Extended | Quadratic.
#[export] Instance VoteType_eq_dec : EqDecision VoteType.
Proof. solve_decision. Defined.

Record ProposalRecord := mkProposal {
  p_id : Z;
  p_proposer : string;
  p_description : string;
  p_descriptionHash : string;
  p_metadataUri : string;
  p_targets : list string;
  p_fnNames : list string;
  p_calldatas : list bytes;
  p_startLedger : Z;
  p_endLedger : Z;
  p_votesFor : Z;
  p_votesAgainst : Z;
  p_votesAbstain : Z;
  p_executed : bool;
  p_cancelled : bool;
  p_queued : bool;
  p_opIds : list string;
  p_hasVoted : gmap string bool;
}.
#[export] Instance eta_ProposalRecord : Eta ProposalRecord := λ r,
  mkProposal (p_id r) (p_proposer r) (p_description r) (p_descriptionHash r)
    (p_metadataUri r) (p_targets r) (p_fnNames r) (p_calldatas r) (p_startLedger r)
    (p_endLedger r) (p_votesFor r) (p_votesAgainst r) (p_votesAbstain r) (p_executed r)
    (p_cancelled r) (p_queued r) (p_opIds r) (p_hasVoted r).

Record GovernorSettingsState := mkSettings {
  gs_votingDelay : Z;
  gs_votingPeriod : Z;
  gs_quorumNumerator : Z;
  gs_proposalThreshold : Z;
  gs_guardian : string;
  gs_voteType : VoteType;
  gs_proposalGracePeriod : Z;
  gs_useDynamicQuorum : bool;
  gs_reflectorOracle : option string;
  gs_minQuorumUsd : Z;
  gs_proposalCooldown : Z;
  gs_maxProposalsPerPeriod : Z;
  gs_proposalPeriodDuration : Z;
  gs_maxCalldataSize : Z;
  gs_isPaused : bool;
  gs_pauser : string;
}.
#[export] Instance eta_GovernorSettingsState : Eta GovernorSettingsState := λ r,
  mkSettings (gs_votingDelay r) (gs_votingPeriod r) (gs_quorumNumerator r)
    (gs_proposalThreshold r) (gs_guardian r) (gs_voteType r) (gs_proposalGracePeriod r)
    (gs_useDynamicQuorum r) (gs_reflectorOracle r) (gs_minQuorumUsd r)
    (gs_proposalCooldown r) (gs_maxProposalsPerPeriod r) (gs_proposalPeriodDuration r)
    (gs_maxCalldataSize r) (gs_isPaused r) (gs_pauser r).

Record GovernorState := mkGovernor {
  g_settings : GovernorSettingsState;
  g_proposals : gmap Z ProposalRecord;
  g_proposalCount : Z;
  g_queueTime : gmap Z Z;
  g_lastProposalLedger : gmap string Z;
  g_proposalsInPeriod : gmap string Z;
}.
#[export] Instance eta_GovernorState : Eta GovernorState := λ r,
  mkGovernor (g_settings r) (g_proposals r) (g_proposalCount r) (g_queueTime r)
    (g_lastProposalLedger r) (g_proposalsInPeriod r).

(** ** Timelock *)
Record TimelockOperationRecord := mkOp {
  op_target : string;
  op_fnName : string;
  op_data : bytes;
  op_readyAt : Z;
  op_expiresAt : Z;
  op_executed : bool;
  op_cancelled : bool;
  op_predecessors : option (list string);
}.
#[export] Instance eta_TimelockOperationRecord : Eta TimelockOperationRecord := λ r,
  mkOp (op_target r) (op_fnName r) (op_data r) (op_readyAt r) (op_expiresAt r)
    (op_executed r) (op_cancelled r) (op_predecessors r).

Record TimelockState := mkTimelock {
  tl_minDelay : Z;
  tl_executionWindow : Z;
  tl_operations : gmap string TimelockOperationRecord;
  tl_dependencies : gmap string (list string);
}.
#[export] Instance eta_TimelockState : Eta TimelockState := λ r,
  mkTimelock (tl_minDelay r) (tl_executionWindow r) (tl_operations r) (tl_dependencies r).

(** ** Token votes *)
Record Checkpoint := mkCheckpoint { cp_ledger : Z; cp_votes : Z }.
#[export] Instance Checkpoint_eq_dec : EqDecision Checkpoint.
Proof. solve_decision. Defined.

Record TokenVotesState := mkVotes {
  tv_balances : gmap string Z;
  tv_delegates : gmap string string;
  tv_checkpoints : gmap string (list Checkpoint);
  tv_totalSupplyCheckpoints : list Checkpoint;
}.
#[export] Instance eta_TokenVotesState : Eta TokenVotesState := λ r,
  mkVotes (tv_balances r) (tv_delegates r) (tv_checkpoints r) (tv_totalSupplyCheckpoints r).

Record ContractAddresses := mkAddresses {
  a_governor : string;
  a_timelock : string;
  a_votes : string;
  a_coSponsorship : string;
  a_optimisticGovernor : string;
  a_treasury : string;
  a_convictionVoting : string;
  a_proposalBonds : string;
}.

(** ** Optimistic governor *)
Inductive OptimisticProposalLifecycle :=
  | ChallengeWindow | Objected | Passed | OptExecuted | OptCancelled.
#[export] Instance OptimisticProposalLifecycle_eq_dec : EqDecision OptimisticProposalLifecycle.
Proof. solve_decision. Defined.

Record OptimisticProposalRecord := mkOptimistic {
  o_id : Z;
  o_proposer : string;
  o_target : string;
  o_fnName : string;
  o_calldata : bytes;
  o_descriptionHash : bytes;
  o_createdLedger : Z;
  o_challengeEndLedger : Z;
  o_objectionVotes : Z;
  o_state : OptimisticProposalLifecycle;
}.
#[export] Instance eta_OptimisticProposalRecord : Eta OptimisticProposalRecord := λ r,
  mkOptimistic (o_id r) (o_proposer r) (o_target r) (o_fnName r) (o_calldata r)
    (o_descriptionHash r) (o_createdLedger r) (o_challengeEndLedger r) (o_objectionVotes r)
    (o_state r).

(** [objectorVoted] holds the keys [`${proposalId}:${address}`]. *)
Record OptimisticGovernorState := mkOptimisticGovernor {
  og_admin : string;
  og_votesToken : string;
  og_challengeWindowLedgers : Z;
  og_objectionThresholdBps : Z;
  og_proposerBondAmount : Z;
  og_proposerBondToken : string;
  og_proposals : gmap Z OptimisticProposalRecord;
  og_proposalCount : Z;
  og_objectorVoted : gset string;
}.
#[export] Instance eta_OptimisticGovernorState : Eta OptimisticGovernorState := λ r,
  mkOptimisticGovernor (og_admin r) (og_votesToken r) (og_challengeWindowLedgers r)
    (og_objectionThresholdBps r) (og_proposerBondAmount r) (og_proposerBondToken r)
    (og_proposals r) (og_proposalCount r) (og_objectorVoted r).

(** ** Co-sponsorship *)
Record CoSponsorshipDraftRecord := mkDraft {
  d_id : Z;
  d_creator : string;
  d_description : string;
  d_descriptionHash : bytes;
  d_metadataUri : string;
  d_targets : list string;
  d_fnNames : list string;
  d_calldatas : list bytes;
  d_createdLedger : Z;
  d_expiryLedger : Z;
  d_coSponsors : list string;
  d_coSponsorPower : list Z;
  d_totalPower : Z;
  d_finalized : bool;
  d_cancelled : bool;
}.
#[export] Instance eta_CoSponsorshipDraftRecord : Eta CoSponsorshipDraftRecord := λ r,
  mkDraft (d_id r) (d_creator r) (d_description r) (d_descriptionHash r) (d_metadataUri r)
    (d_targets r) (d_fnNames r) (d_calldatas r) (d_createdLedger r) (d_expiryLedger r)
    (d_coSponsors r) (d_coSponsorPower r) (d_totalPower r) (d_finalized r) (d_cancelled r).

Record CoSponsorshipState := mkCoSponsorship {
  cs_drafts : gmap Z CoSponsorshipDraftRecord;
  cs_draftCount : Z;
}.
#[export] Instance eta_CoSponsorshipState : Eta CoSponsorshipState := λ r,
  mkCoSponsorship (cs_drafts r) (cs_draftCount r).

(** ** Treasury streams *)
Record BudgetStreamRecord := mkStream {
  bs_id : Z;
  bs_name : string;
  bs_owner : string;
  bs_token : string;
  bs_totalAllocated : Z;
  bs_totalSpent : Z;
  bs_startLedger : Z;
  bs_endLedger : Z;
  bs_isActive : bool;
  bs_isRevoked : bool;
  bs_revokedAtLedger : option Z;
  bs_maxSingleSpend : Z;
  bs_cooldownLedgers : Z;
  bs_lastSpendLedger : Z;
  bs_spendCount : Z;
  bs_createdByProposalId : Z;
}.
#[export] Instance eta_BudgetStreamRecord : Eta BudgetStreamRecord := λ r,
  mkStream (bs_id r) (bs_name r) (bs_owner r) (bs_token r) (bs_totalAllocated r)
    (bs_totalSpent r) (bs_startLedger r) (bs_endLedger r) (bs_isActive r) (bs_isRevoked r)
    (bs_revokedAtLedger r) (bs_maxSingleSpend r) (bs_cooldownLedgers r)
    (bs_lastSpendLedger r) (bs_spendCount r) (bs_createdByProposalId r).

Record StreamSpendRecord := mkSpend {
  ss_streamId : Z;
  ss_spendIndex : Z;
  ss_recipient : string;
  ss_amount : Z;
  ss_memo : string;
  ss_executedAtLedger : Z;
  ss_executedBy : string;
}.

Record TreasuryState := mkTreasury {
  tr_governor : string;
  tr_streams : gmap Z BudgetStreamRecord;
  tr_streamCount : Z;
  tr_spends : gmap Z (list StreamSpendRecord);
  tr_tokenList : list string;
  tr_totalStreamedByToken : gmap string Z;
  tr_totalSpentByToken : gmap string Z;
}.
#[export] Instance eta_TreasuryState : Eta TreasuryState := λ r,
  mkTreasury (tr_governor r) (tr_streams r) (tr_streamCount r) (tr_spends r)
    (tr_tokenList r) (tr_totalStreamedByToken r) (tr_totalSpentByToken r).

(** ** Conviction voting *)
Record ConvictionProposalRecord := mkConviction {
  cvp_id : Z;
  cvp_proposer : string;
  cvp_target : string;
  cvp_fnName : string;
  cvp_calldata : bytes;
  cvp_requestedAmount : Z;
  cvp_createdLedger : Z;
  cvp_conviction : Z;
  cvp_lastUpdatedLedger : Z;
  cvp_executed : bool;
  cvp_cancelled : bool;
}.
#[export] Instance eta_ConvictionProposalRecord : Eta ConvictionProposalRecord := λ r,
  mkConviction (cvp_id r) (cvp_proposer r) (cvp_target r) (cvp_fnName r) (cvp_calldata r)
    (cvp_requestedAmount r) (cvp_createdLedger r) (cvp_conviction r)
    (cvp_lastUpdatedLedger r) (cvp_executed r) (cvp_cancelled r).

Record ConvictionStakeRecord := mkStakeRecord {
  cvs_staker : string;
  cvs_proposalId : Z;
  cvs_amount : Z;
}.

Record ConvictionExecutionRecord := mkExecution {
  cve_proposalId : Z;
  cve_target : string;
  cve_fnName : string;
  cve_calldata : bytes;
  cve_ledger : Z;
}.

Record ConvictionVotingState := mkConvictionVoting {
  cv_admin : string;
  cv_votesToken : string;
  cv_decayBps : Z;
  cv_maxRatioBps : Z;
  cv_minThresholdConviction : Z;
  cv_weightBps : Z;
  cv_nextProposalId : Z;
  cv_proposals : gmap Z ConvictionProposalRecord;
  cv_stakes : gmap Z (list (string * Z));
  cv_totalStaked : gmap Z Z;
  cv_stakeByStaker : gmap string Z;
  cv_executions : list ConvictionExecutionRecord;
}.
#[export] Instance eta_ConvictionVotingState : Eta ConvictionVotingState := λ r,
  mkConvictionVoting (cv_admin r) (cv_votesToken r) (cv_decayBps r) (cv_maxRatioBps r)
    (cv_minThresholdConviction r) (cv_weightBps r) (cv_nextProposalId r) (cv_proposals r)
    (cv_stakes r) (cv_totalStaked r) (cv_stakeByStaker r) (cv_executions r).

(** ** Proposal bonds *)
Inductive ProposalBondLifecycle := Locked | Refunded | Slashed.
#[export] Instance ProposalBondLifecycle_eq_dec : EqDecision ProposalBondLifecycle.
Proof. solve_decision. Defined.

Record ProposalBondRecord := mkBond {
  pb_proposer : string;
  pb_descriptionHash : string;
  pb_amount : Z;
  pb_lockedLedger : Z;
  pb_state : ProposalBondLifecycle;
}.
#[export] Instance eta_ProposalBondRecord : Eta ProposalBondRecord := λ r,
  mkBond (pb_proposer r) (pb_descriptionHash r) (pb_amount r) (pb_lockedLedger r)
    (pb_state r).

Record ProposalBondsState := mkBonds {
  pbs_admin : string;
  pbs_bondToken : string;
  pbs_bondAmount : Z;
  pbs_governor : string;
  pbs_refundGraceLedgers : Z;
  pbs_maxLockLedgers : Z;
  pbs_bonds : gmap string ProposalBondRecord;
}.
#[export] Instance eta_ProposalBondsState : Eta ProposalBondsState := λ r,
  mkBonds (pbs_admin r) (pbs_bondToken r) (pbs_bondAmount r) (pbs_governor r)
    (pbs_refundGraceLedgers r) (pbs_maxLockLedgers r) (pbs_bonds r).

(** ** The whole store *)
Record MockLedgerStore := mkStore {
  st_addresses : ContractAddresses;
  st_governor : GovernorState;
  st_timelock : TimelockState;
  st_votes : TokenVotesState;
  st_coSponsorship : CoSponsorshipState;
  st_optimisticGovernor : OptimisticGovernorState;
  st_treasury : TreasuryState;
  st_convictionVoting : ConvictionVotingState;
  st_proposalBonds : ProposalBondsState;
}.
#[export] Instance eta_MockLedgerStore : Eta MockLedgerStore := λ r,
  mkStore (st_addresses r) (st_governor r) (st_timelock r) (st_votes r)
    (st_coSponsorship r) (st_optimisticGovernor r) (st_treasury r)
    (st_convictionVoting r) (st_proposalBonds r).

(** A handler of one contract runs on that contract's part of the store. *)
Definition on_votes {A} (m : M TokenVotesState A) : M MockLedgerStore A :=
  zoom st_votes (λ v s, s <| st_votes := v |>) m.
Definition on_timelock {A} (m : M TimelockState A) : M MockLedgerStore A :=
  zoom st_timelock (λ t s, s <| st_timelock := t |>) m.

Lemma on_votes_read {A} (m : M TokenVotesState A) o s :
  m (st_votes s) = (o, st_votes s) → on_votes m s = (o, s).
Proof. intros H. unfold on_votes, zoom. rewrite H. by destruct s. Qed.

(** ** Moving tokens

    The voting token's balances are the one ledger of tokens in the store. *)
Definition set_balance (a : string) (x : Z) (s : MockLedgerStore) : MockLedgerStore :=
  s <| st_votes ::= λ v, v <| tv_balances ::= <[a := x]> |> |>.

Definition move (from to : string) (x : Z) (m : gmap string Z) : gmap string Z :=
  let m1 := <[from := default 0 (m !! from) - x]> m in
  <[to := default 0 (m1 !! to) + x]> m1.

Definition balance_of (s : MockLedgerStore) (a : string) : Z :=
  default 0 (tv_balances (st_votes s) !! a).

Definition with_balances (f : gmap string Z → gmap string Z) (s : MockLedgerStore) :
    MockLedgerStore :=
  s <| st_votes ::= λ v, v <| tv_balances ::= f |> |>.

Lemma move_at from to x m a :
  default 0 (move from to x m !! a) =
  default 0 (m !! a) - (if decide (a = from) then x else 0) + (if decide (a = to) then x else 0).
Proof.
  unfold move. destruct (decide (a = to)) as [->|Hto].
  - rewrite lookup_insert_eq. cbn. destruct (decide (to = from)) as [->|Hf].
    + rewrite lookup_insert_eq. cbn. lia.
    + rewrite lookup_insert_ne by done. lia.
  - rewrite lookup_insert_ne by done. destruct (decide (a = from)) as [->|Hf].
    + rewrite lookup_insert_eq. cbn. lia.
    + rewrite lookup_insert_ne by done. lia.
Qed.

Lemma balance_move s from to x a :
  balance_of (with_balances (move from to x) s) a =
  balance_of s a - (if decide (a = from) then x else 0) + (if decide (a = to) then x else 0).
Proof. apply move_at. Qed.

Definition total_balance (s : MockLedgerStore) : Z :=
  map_sum (λ _ v, v) (tv_balances (st_votes s)).

(** ** The clock keeps time *)
Lemma timestamp_eq c : timestamp c = clk_genesisTimestamp c + 5 * clk_current c.
Proof.
  unfold timestamp, toWallTime, SECONDS_PER_LEDGER.
  rewrite Z.div_mul by done. lia.
Qed.

Lemma secondsToLedgers_spec s :
  s ≤ ledgersToSeconds (secondsToLedgers s) < s + SECONDS_PER_LEDGER.
Proof.
  unfold ledgersToSeconds, secondsToLedgers, SECONDS_PER_LEDGER.
  pose proof (Z.div_mod (- s) 5). pose proof (Z.mod_pos_bound (- s) 5). lia.
Qed.

(** A store to run the definitions on: [alice] has 50 tokens, the bond is 10. *)
Module StoreExamples.
Definition settings : GovernorSettingsState :=
  mkSettings 1 10 4 0 "guardian" Simple 100 false None 0 0 10 100 1000 false "pauser".
Definition store : MockLedgerStore :=
  mkStore
    (mkAddresses "gov" "timelock" "votes" "cosponsor" "optimistic" "treasury" "conviction" "bonds")
    (mkGovernor settings ∅ 0 ∅ ∅ ∅) (mkTimelock 10 1000 ∅ ∅)
    (mkVotes {["alice" := 50]} ∅ ∅ [])
    (mkCoSponsorship ∅ 0) (mkOptimisticGovernor "admin" "votes" 10 100 0 "votes" ∅ 0 ∅)
    (mkTreasury "gov" ∅ 0 ∅ [] ∅ ∅)
    (mkConvictionVoting "admin" "votes" 9000 1000 0 10000 1 ∅ ∅ ∅ ∅ [])
    (mkBonds "admin" "votes" 10 "gov" 5 100 ∅).
Definition clk (n : Z) : LedgerClock := mkClock n 0.
End StoreExamples.
