(* ===== verification/TokenVotes.v ===== *)
(** * Delegation and vote checkpoints

    [tools/simulation/src/mock/token-votes-executor.ts]: who delegates to
    whom, the per-account history of voting power, and the reads the
    governor and the other tracks make of it. *)

From S2P Require Import Prelude Store.

Definition MAX_CHAIN_WALK : nat := 64.

Definition lastCheckpointVotes (l : option (list Checkpoint)) : Z :=
  match l with
  | None => 0
  | Some l => match last l with Some c => cp_votes c | None => 0 end
  end.

(** The [while] loop of [resolveChain]: the accounts after [current]. *)
Fixpoint chain_walk (hops : nat) (delegates : gmap string string) (current : string)
    : list string :=
  match hops with
  | O => []
  | S hops' =>
    match delegates !! current with
    | None => []
    | Some next =>
      if bool_decide (next = "" ∨ next = current) then []
      else next :: chain_walk hops' delegates next
    end
  end.
Definition resolveChain (s : TokenVotesState) (start : string) : list string :=
  start :: chain_walk MAX_CHAIN_WALK (tv_delegates s) start.

Definition wouldCreateCycle (s : TokenVotesState) (delegator delegatee : string) : bool :=
  bool_decide (delegator ∈ resolveChain s delegatee).

Definition pushCheckpoint (account : string) (ledger votes : Z)
    (m : gmap string (list Checkpoint)) : gmap string (list Checkpoint) :=
  <[account := default [] (m !! account) ++ [mkCheckpoint ledger votes]]> m.

(** The [for] loop of [checkpointAt], from the last entry down. *)
Fixpoint checkpoint_scan (rev_list : list Checkpoint) (ledger : Z) : Z :=
  match rev_list with
  | [] => 0
  | c :: r => if cp_ledger c <=? ledger then cp_votes c else checkpoint_scan r ledger
  end.
Definition checkpointAt (l : option (list Checkpoint)) (ledger : Z) : Z :=
  checkpoint_scan (rev (default [] l)) ledger.

Definition seedBalances (balances : list (string * Z)) (s : TokenVotesState) : TokenVotesState :=
  foldl (λ s '(account, amount), s <| tv_balances ::= <[account := amount]> |>) s balances.

Definition applyDelegation (clock : LedgerClock) (delegator delegatee : string)
    (s : TokenVotesState) : TokenVotesState :=
  let amount := default 0 (tv_balances s !! delegator) in
  let isFirstDelegation := bool_decide (tv_delegates s !! delegator = None) in
  let oldDelegatee := default delegator (tv_delegates s !! delegator) in
  let s :=
    if isFirstDelegation || negb (bool_decide (oldDelegatee = delegatee)) then
      let s :=
        if negb isFirstDelegation then
          s <| tv_checkpoints ::= pushCheckpoint oldDelegatee (sequence clock)
                 (lastCheckpointVotes (tv_checkpoints s !! oldDelegatee) - amount) |>
        else s in
      s <| tv_checkpoints ::= pushCheckpoint delegatee (sequence clock)
             (lastCheckpointVotes (tv_checkpoints s !! delegatee) + amount) |>
    else s in
  let s := s <| tv_delegates ::= <[delegator := delegatee]> |> in
  if isFirstDelegation && (0 <? amount) then
    s <| tv_totalSupplyCheckpoints ::= λ l,
           l ++ [mkCheckpoint (sequence clock) (lastCheckpointVotes (Some l) + amount)] |>
  else s.

(** ** The executor *)
Definition delegate (clock : LedgerClock) (caller delegator delegatee : string)
    : M TokenVotesState unit :=
  throw_if (negb (bool_decide (caller = delegator)))
    (MockContractError 1 "delegate: delegator must authorize this call");;
  s ← get;
  throw_if (wouldCreateCycle s delegator delegatee)
    (MockContractError 1 "delegation would create a cycle");;
  let prospectiveChain := resolveChain s delegatee in
  throw_if (MAX_CHAIN_WALK <? length prospectiveChain)%nat
    (MockContractError 1 "delegation would exceed max chain depth");;
  modify (applyDelegation clock delegator delegatee).

Definition get_votes (account : string) : M TokenVotesState Z :=
  gets (λ s, lastCheckpointVotes (tv_checkpoints s !! account)).

Definition get_base_votes (account : string) : M TokenVotesState Z :=
  gets (λ s, default 0 (tv_balances s !! account)).

Definition get_past_votes (clock : LedgerClock) (account : string) (ledger : Z)
    : M TokenVotesState Z :=
  throw_if (sequence clock <? ledger)
    (MockContractError 100 "get_past_votes: cannot query a future ledger");;
  gets (λ s, checkpointAt (tv_checkpoints s !! account) ledger).

Definition get_past_total_supply (clock : LedgerClock) (ledger : Z) : M TokenVotesState Z :=
  throw_if (sequence clock <? ledger)
    (MockContractError 100 "get_past_total_supply: cannot query a future ledger");;
  gets (λ s, checkpointAt (Some (tv_totalSupplyCheckpoints s)) ledger).

Definition delegates (account : string) : M TokenVotesState (option string) :=
  gets (λ s, tv_delegates s !! account).

#[global] Arguments checkpointAt : simpl never.
#[global] Arguments lastCheckpointVotes : simpl never.
#[global] Arguments pushCheckpoint : simpl never.
#[global] Arguments applyDelegation : simpl never.
#[global] Arguments resolveChain : simpl never.
#[global] Arguments wouldCreateCycle : simpl never.

(** ** Checkpoint lists *)
Lemma checkpointAt_None L : checkpointAt None L = 0.
Proof. done. Qed.
Lemma checkpointAt_push l c L :
  checkpointAt (Some (l ++ [c])) L =
  if cp_ledger c <=? L then cp_votes c else checkpointAt (Some l) L.
Proof. unfold checkpointAt. cbn. by rewrite rev_unit. Qed.
Lemma checkpointAt_default o L : checkpointAt (Some (default [] o)) L = checkpointAt o L.
Proof. by destruct o. Qed.
Lemma lastCheckpoint_push l c : lastCheckpointVotes (Some (l ++ [c])) = cp_votes c.
Proof. unfold lastCheckpointVotes. by rewrite last_snoc. Qed.
Lemma lastCheckpoint_default o : lastCheckpointVotes (Some (default [] o)) = lastCheckpointVotes o.
Proof. by destruct o. Qed.

(** Every entry was written at or before ledger [now]. *)
Definition written_by (now : Z) (l : list Checkpoint) : Prop :=
  Forall (λ c, cp_ledger c ≤ now) l.

Lemma written_by_push now l c :
  written_by now l → cp_ledger c ≤ now → written_by now (l ++ [c]).
Proof. intros Hl Hc. apply Forall_app; split; [done|]. by constructor. Qed.
Lemma written_by_mono now now' l : now ≤ now' → written_by now l → written_by now' l.
Proof. intros Hle Hl. eapply Forall_impl; [exact Hl|]. cbn. intros; lia. Qed.

(** The current power is the power at any ledger that is not in the past. *)
Lemma checkpointAt_last now L o :
  written_by now (default [] o) → now ≤ L → checkpointAt o L = lastCheckpointVotes o.
Proof.
  intros Hw HL. destruct o as [l|]; [|done]. cbn in Hw.
  destruct l as [|c l] using rev_ind; [done|].
  rewrite checkpointAt_push, lastCheckpoint_push.
  apply Forall_app in Hw as [_ Hc]. rewrite Forall_singleton in Hc.
  destruct (Z.leb_spec (cp_ledger c) L); [done|lia].
Qed.

(** [checkpointAt] returns the entry after which every entry is later than
    the ledger asked for, and 0 when all of them are. *)
Lemma checkpointAt_spec (l : list Checkpoint) L :
  (Forall (λ c, L < cp_ledger c) l ∧ checkpointAt (Some l) L = 0) ∨
  (∃ l1 c l2, l = l1 ++ c :: l2 ∧ cp_ledger c ≤ L ∧ Forall (λ c, L < cp_ledger c) l2 ∧
     checkpointAt (Some l) L = cp_votes c).
Proof.
  induction l as [|c l IH] using rev_ind; [left; by split|].
  rewrite checkpointAt_push. destruct (Z.leb_spec (cp_ledger c) L).
  - right. exists l, c, []. eauto using Forall_nil_2.
  - destruct IH as [[Hl ->]|(l1 & c1 & l2 & -> & Hc1 & Hl2 & ->)].
    + left. split; [|done]. apply Forall_app; split; [done|]. by constructor.
    + right. exists l1, c1, (l2 ++ [c]). rewrite <- app_assoc. split_and!; try done.
      apply Forall_app; split; [done|]. by constructor.
Qed.

(** ** The votes component over time

    One step is a move of the clock, a [delegate] call (accepted or thrown), a
    delegation applied by the harness at boot, or a change of the token
    balances by another contract ([lock_bond], [stream_spend], ...). *)
Inductive votes_step : LedgerClock * TokenVotesState → LedgerClock * TokenVotesState → Prop :=
  | votes_step_advance n c c' o s :
      advance n c = (o, c') → votes_step (c, s) (c', s)
  | votes_step_advanceTo n c c' o s :
      advanceTo n c = (o, c') → votes_step (c, s) (c', s)
  | votes_step_delegate c caller delegator delegatee o s s' :
      delegate c caller delegator delegatee s = (o, s') → votes_step (c, s) (c, s')
  | votes_step_boot c delegator delegatee s :
      votes_step (c, s) (c, applyDelegation c delegator delegatee s)
  | votes_step_balances c b s :
      map_Forall (λ _ x, 0 ≤ x) b → votes_step (c, s) (c, s <| tv_balances := b |>).

Definition votes_init (balances : gmap string Z) : TokenVotesState :=
  mkVotes balances ∅ ∅ [].

Definition votes_reachable (cs : LedgerClock * TokenVotesState) : Prop :=
  ∃ c0 b0, map_Forall (λ _ x, 0 ≤ x) b0 ∧ rtc votes_step (c0, votes_init b0) cs.

Definition checkpoints_at (L : Z) (m : gmap string (list Checkpoint)) : Z :=
  map_sum (λ _ l, checkpointAt (Some l) L) m.

Record votes_wf (now : Z) (s : TokenVotesState) : Prop := {
  wf_balances : map_Forall (λ _ x, 0 ≤ x) (tv_balances s);
  wf_checkpoints : map_Forall (λ _ l, written_by now l) (tv_checkpoints s);
  wf_supply : written_by now (tv_totalSupplyCheckpoints s);
  wf_conserved : ∀ L,
    checkpoints_at L (tv_checkpoints s) = checkpointAt (Some (tv_totalSupplyCheckpoints s)) L;
}.

Implicit Types (m : gmap string (list Checkpoint)) (a b d e account : string) (now L : Z).

Lemma lookup_written now m a :
  map_Forall (λ _ l, written_by now l) m → written_by now (default [] (m !! a)).
Proof.
  intros Hm. destruct (m !! a) as [l|] eqn:Ha; [by apply (Hm a)|]. apply Forall_nil_2.
Qed.

Lemma pushCheckpoint_written now a v m :
  map_Forall (λ _ l, written_by now l) m →
  map_Forall (λ _ l, written_by now l) (pushCheckpoint a now v m).
Proof.
  intros Hm. apply map_Forall_insert_2; [|done].
  apply written_by_push; [by apply lookup_written|done].
Qed.

Lemma pushCheckpoint_at now a v m L :
  map_Forall (λ _ l, written_by now l) m →
  checkpoints_at L (pushCheckpoint a now v m) =
  checkpoints_at L m + (if now <=? L then v - lastCheckpointVotes (m !! a) else 0).
Proof.
  intros Hm. unfold checkpoints_at, pushCheckpoint. rewrite map_sum_insert.
  rewrite checkpointAt_push, checkpointAt_default. cbn [cp_ledger cp_votes].
  assert (at_key (λ _ l, checkpointAt (Some l) L) m a = checkpointAt (m !! a) L) as ->.
  { unfold at_key. by destruct (m !! a). }
  destruct (Z.leb_spec now L); [|lia].
  rewrite (checkpointAt_last now) by (done || by apply lookup_written). lia.
Qed.

(** Entries of the past are never rewritten. *)
Lemma pushCheckpoint_past now a b v m L :
  L < now → checkpointAt (pushCheckpoint a now v m !! b) L = checkpointAt (m !! b) L.
Proof.
  intros HL. unfold pushCheckpoint. destruct (decide (a = b)) as [->|Hab].
  - rewrite lookup_insert_eq, checkpointAt_push, checkpointAt_default. cbn [cp_ledger].
    by rewrite (proj2 (Z.leb_gt _ _) HL).
  - by rewrite lookup_insert_ne.
Qed.

Lemma pushCheckpoint_last a b now v m :
  lastCheckpointVotes (pushCheckpoint a now v m !! b) =
  if decide (a = b) then v else lastCheckpointVotes (m !! b).
Proof.
  unfold pushCheckpoint. rewrite lookup_insert. case_decide; [|done].
  by rewrite lastCheckpoint_push.
Qed.

(** The three shapes a delegation takes. *)
Lemma applyDelegation_cases c d e s (P : TokenVotesState → Prop) :
  let amount := default 0 (tv_balances s !! d) in
  let push a v m := pushCheckpoint a (sequence c) v m in
  let last a m := lastCheckpointVotes (m !! a) in
  (tv_delegates s !! d = None →
     P (mkVotes (tv_balances s) (<[d:=e]> (tv_delegates s))
          (push e (last e (tv_checkpoints s) + amount) (tv_checkpoints s))
          (if 0 <? amount then
             tv_totalSupplyCheckpoints s ++
               [mkCheckpoint (sequence c)
                  (lastCheckpointVotes (Some (tv_totalSupplyCheckpoints s)) + amount)]
           else tv_totalSupplyCheckpoints s))) →
  (∀ old, tv_delegates s !! d = Some old → old ≠ e →
     let m1 := push old (last old (tv_checkpoints s) - amount) (tv_checkpoints s) in
     P (mkVotes (tv_balances s) (<[d:=e]> (tv_delegates s))
          (push e (last e m1 + amount) m1) (tv_totalSupplyCheckpoints s))) →
  (tv_delegates s !! d = Some e → P s) →
  P (applyDelegation c d e s).
Proof.
  intros amount push last Hfirst Hmove Hsame. subst amount push last. unfold applyDelegation.
  destruct s as [bal del cks tot]. cbn in *.
  destruct (del !! d) as [old|] eqn:Hd; cbn.
  - destruct (decide (old = e)) as [->|Hne].
    + rewrite (bool_decide_eq_true_2 (e = e)) by done. cbn.
      rewrite insert_id by done. by apply Hsame.
    + rewrite (bool_decide_eq_false_2 (old = e)) by done. cbn. by apply (Hmove old).
  - specialize (Hfirst eq_refl). by destruct (0 <? default 0 (bal !! d)).
Qed.

Lemma applyDelegation_wf c d e s :
  votes_wf (sequence c) s → votes_wf (sequence c) (applyDelegation c d e s).
Proof.
  intros [Hb Hc Ht Hsum].
  assert (0 ≤ default 0 (tv_balances s !! d)) as Hamount.
  { destruct (tv_balances s !! d) as [x|] eqn:Hx; [by apply (Hb d)|done]. }
  apply applyDelegation_cases.
  - intros _. split; cbn; [done|by apply pushCheckpoint_written| |].
    + destruct (0 <? _); [|done]. by apply written_by_push.
    + intros L. rewrite pushCheckpoint_at, Hsum by done.
      destruct (Z.ltb_spec 0 (default 0 (tv_balances s !! d))) as [Hpos|Hzero].
      * rewrite checkpointAt_push. cbn [cp_ledger cp_votes].
        destruct (Z.leb_spec (sequence c) L); [|lia].
        rewrite (checkpointAt_last (sequence c)) by done. lia.
      * destruct (sequence c <=? L); lia.
  - intros old _ Hne. set (m1 := pushCheckpoint old _ _ _).
    assert (map_Forall (λ _ l, written_by (sequence c) l) m1) as Hm1
      by by apply pushCheckpoint_written.
    split; cbn; [done|by apply pushCheckpoint_written|done|].
    intros L. rewrite pushCheckpoint_at by done. subst m1.
    rewrite pushCheckpoint_at, Hsum, pushCheckpoint_last by done.
    rewrite decide_False by done. destruct (sequence c <=? L); lia.
  - done.
Qed.

Lemma votes_wf_mono now now' s : now ≤ now' → votes_wf now s → votes_wf now' s.
Proof.
  intros Hle [Hb Hc Ht Hsum]. split; [done| | |done].
  - intros a l Ha. eapply written_by_mono; [done|]. by eapply Hc.
  - by eapply written_by_mono.
Qed.

Lemma delegate_wf c caller d e :
  preserves (votes_wf (sequence c)) (delegate c caller d e).
Proof. intros s Hs. unfold delegate. wp_go; try done. by apply applyDelegation_wf. Qed.

Lemma advance_monotone n c : wp (advance n) (λ _ c', sequence c ≤ sequence c')
                               (λ _ c', c' = c) c.
Proof.
  unfold advance. wp_go; [done|]. cbn. unfold sequence.
  match goal with H : (_ <? 0) = false |- _ => apply Z.ltb_ge in H end. lia.
Qed.
Lemma advanceTo_monotone n c : wp (advanceTo n) (λ _ c', sequence c ≤ sequence c')
                                 (λ _ c', c' = c) c.
Proof.
  unfold advanceTo. wp_go; unfold sequence; cbn; [|lia].
  match goal with H : (_ <? _) = true |- _ => apply Z.ltb_lt in H end. lia.
Qed.

Lemma votes_step_sequence x y : votes_step x y → sequence x.1 ≤ sequence y.1.
Proof.
  destruct 1 as [n c c' o s H|n c c' o s H| | |]; cbn; try lia.
  - pose proof (wp_run _ _ _ _ _ _ H (advance_monotone n c)). destruct o; [done|by subst].
  - pose proof (wp_run _ _ _ _ _ _ H (advanceTo_monotone n c)). destruct o; [done|by subst].
Qed.

Lemma votes_step_wf x y :
  votes_step x y → votes_wf (sequence x.1) x.2 → votes_wf (sequence y.1) y.2.
Proof.
  intros Hstep Hwf. pose proof (votes_step_sequence _ _ Hstep) as Hseq.
  apply (votes_wf_mono _ _ _ Hseq) in Hwf.
  destruct Hstep as [| |c caller d e o s s' H| |]; cbn in *; try done.
  - pose proof (wp_run _ _ _ _ _ _ H (delegate_wf c caller d e s Hwf)). by destruct o.
  - by apply applyDelegation_wf.
  - destruct Hwf. by split.
Qed.

Lemma votes_reachable_wf x : votes_reachable x → votes_wf (sequence x.1) x.2.
Proof.
  intros (c0 & b0 & Hb0 & Hsteps).
  assert (votes_wf (sequence (c0, votes_init b0).1) (c0, votes_init b0).2) as H0.
  { split; cbn; [done|done|apply Forall_nil_2|done]. }
  revert H0. generalize (c0, votes_init b0) Hsteps. clear. intros x0 Hsteps.
  induction Hsteps as [|x0 x1 x Hstep _ IH]; intros H0; [done|].
  apply IH. by eapply votes_step_wf.
Qed.

(** ** Acyclic delegation *)
Definition delegates_to (m : gmap string string) (a b : string) : Prop :=
  m !! a = Some b ∧ b ≠ "" ∧ b ≠ a.

(** No account reaches itself through other accounts. *)
Definition acyclic_delegation (m : gmap string string) : Prop :=
  ∀ a, ¬ tc (delegates_to m) a a.

(** A walk shorter than its budget visited everything downstream. *)
Lemma chain_walk_complete hops del x y :
  (length (chain_walk hops del x) < hops)%nat →
  rtc (delegates_to del) x y → y ∈ x :: chain_walk hops del x.
Proof.
  revert x. induction hops as [|hops IH]; intros x Hlen Hxy; [cbn in Hlen; lia|].
  inversion Hxy as [|? z ? (Hz & Hz1 & Hz2) Hzy]; subst; [by left|].
  cbn in *. rewrite Hz in *.
  rewrite bool_decide_eq_false_2 in * by naive_solver.
  cbn in Hlen. right. apply IH; [lia|done].
Qed.

Lemma resolveChain_complete s x y :
  (length (resolveChain s x) ≤ MAX_CHAIN_WALK)%nat →
  rtc (delegates_to (tv_delegates s)) x y → y ∈ resolveChain s x.
Proof.
  unfold resolveChain. intros Hlen. apply chain_walk_complete. cbn [length] in Hlen. lia.
Qed.

Section insert_edge.
Context (del : gmap string string) (d e : string).
Hypothesis unreachable : ¬ rtc (delegates_to del) e d.
Let del' := <[d:=e]> del.

Lemma insert_edge_from x y : x ≠ d → delegates_to del' x y → delegates_to del x y.
Proof. intros Hx (H & ? & ?). split_and!; try done. subst del'. by rewrite lookup_insert_ne in H. Qed.

Lemma insert_edge_reach x y :
  rtc (delegates_to del') x y → rtc (delegates_to del) e x → rtc (delegates_to del) e y.
Proof.
  induction 1 as [|x z y Hxz _ IH]; intros Hx; [done|]. apply IH.
  eapply rtc_r; [exact Hx|]. apply insert_edge_from; [congruence|done].
Qed.

Lemma insert_edge_tc x y :
  tc (delegates_to del') x y →
  tc (delegates_to del) x y ∨ (rtc (delegates_to del') x d ∧ rtc (delegates_to del') e y).
Proof.
  assert (∀ z, delegates_to del' d z → z = e) as Hd.
  { intros z (H & _). subst del'. rewrite lookup_insert_eq in H. congruence. }
  induction 1 as [x y Hxy|x z y Hxz Hzy IH]; destruct (decide (x = d)) as [->|Hx].
  - right. by rewrite (Hd _ Hxy).
  - left. apply tc_once. by apply insert_edge_from.
  - right. rewrite (Hd _ Hxz) in Hzy. split; [done|]. by apply tc_rtc.
  - destruct IH as [IH|[IH1 IH2]].
    + left. eapply tc_l; [by apply insert_edge_from|done].
    + right. split; [|done]. by eapply rtc_l.
Qed.

Lemma insert_edge_acyclic : acyclic_delegation del → acyclic_delegation del'.
Proof.
  intros Hac x Hx. destruct (insert_edge_tc _ _ Hx) as [|[Hxd Hex]]; [by eapply Hac|].
  apply unreachable. eapply insert_edge_reach; [by etrans|done].
Qed.
End insert_edge.

Lemma applyDelegation_delegates c d e s :
  tv_delegates (applyDelegation c d e s) = <[d:=e]> (tv_delegates s).
Proof.
  apply applyDelegation_cases; [done|done|].
  intros H. symmetry. by apply insert_id.
Qed.
Lemma applyDelegation_balances c d e s :
  tv_balances (applyDelegation c d e s) = tv_balances s.
Proof. by apply applyDelegation_cases. Qed.

Lemma applyDelegation_past c d e s a L :
  L < sequence c →
  checkpointAt (tv_checkpoints (applyDelegation c d e s) !! a) L =
  checkpointAt (tv_checkpoints s !! a) L.
Proof.
  intros HL. apply applyDelegation_cases; cbn; intros; [| |done];
    rewrite !pushCheckpoint_past; done.
Qed.
Lemma applyDelegation_past_supply c d e s L :
  L < sequence c →
  checkpointAt (Some (tv_totalSupplyCheckpoints (applyDelegation c d e s))) L =
  checkpointAt (Some (tv_totalSupplyCheckpoints s)) L.
Proof.
  intros HL. apply applyDelegation_cases; cbn; intros; [|done|done].
  destruct (0 <? _); [|done]. rewrite checkpointAt_push. cbn [cp_ledger].
  by rewrite (proj2 (Z.leb_gt _ _) HL).
Qed.

(** What an accepted [delegate] call guarantees. *)
Lemma delegate_ok c caller d e s s' :
  delegate c caller d e s = (Ok tt, s') →
  caller = d ∧ d ∉ resolveChain s e ∧
  (length (resolveChain s e) ≤ MAX_CHAIN_WALK)%nat ∧ s' = applyDelegation c d e s.
Proof.
  intros H. enough (wp (delegate c caller d e) (λ _ s', caller = d ∧ d ∉ resolveChain s e ∧
    (length (resolveChain s e) ≤ MAX_CHAIN_WALK)%nat ∧ s' = applyDelegation c d e s)
    (λ _ _, True) s) as Hwp by apply (wp_run _ _ _ _ _ _ H Hwp).
  unfold delegate, wouldCreateCycle. wp_go; try done.
  repeat match goal with
  | H : negb _ = false |- _ => apply negb_false_iff, bool_decide_eq_true in H
  | H : bool_decide _ = false |- _ => apply bool_decide_eq_false in H
  | H : (_ <? _)%nat = false |- _ => apply Nat.ltb_ge in H
  end. done.
Qed.

(** The voting power of [a] at ledger [L]. *)
Definition votes_at (s : TokenVotesState) (L : Z) (a : string) : Z :=
  checkpointAt (tv_checkpoints s !! a) L.
Definition supply_at (s : TokenVotesState) (L : Z) : Z :=
  checkpointAt (Some (tv_totalSupplyCheckpoints s)) L.

Lemma get_past_votes_run c a L s :
  L ≤ sequence c → get_past_votes c a L s = (Ok (votes_at s L a), s).
Proof. intros HL. unfold get_past_votes. by rewrite (proj2 (Z.ltb_ge _ _) HL). Qed.
Lemma get_past_total_supply_run c L s :
  L ≤ sequence c → get_past_total_supply c L s = (Ok (supply_at s L), s).
Proof. intros HL. unfold get_past_total_supply. by rewrite (proj2 (Z.ltb_ge _ _) HL). Qed.

Lemma delegate_throw c caller d e err s s' :
  delegate c caller d e s = (Throw err, s') → s' = s.
Proof.
  intros H. assert (wp (delegate c caller d e) (λ _ _, True) (λ _ s1, s1 = s) s) as Hwp
    by (unfold delegate; wp_go; done).
  apply (wp_run _ _ _ _ _ _ H Hwp).
Qed.

Lemma votes_step_past x y a L :
  votes_step x y → L < sequence x.1 →
  votes_at y.2 L a = votes_at x.2 L a ∧ supply_at y.2 L = supply_at x.2 L.
Proof.
  assert (∀ c d e s, L < sequence c →
    votes_at (applyDelegation c d e s) L a = votes_at s L a ∧
    supply_at (applyDelegation c d e s) L = supply_at s L) as Hdel.
  { intros. unfold votes_at, supply_at.
    by rewrite applyDelegation_past, applyDelegation_past_supply. }
  intros Hstep HL. destruct Hstep as [| |c caller d e o s s' H| |]; cbn in *; try done.
  - destruct o as [[]|err].
    + apply delegate_ok in H as (_ & _ & _ & ->). by apply Hdel.
    + by apply delegate_throw in H as ->.
  - by apply Hdel.
Qed.

Lemma votes_steps_past x y a L :
  rtc votes_step x y → L < sequence x.1 →
  sequence x.1 ≤ sequence y.1 ∧
  votes_at y.2 L a = votes_at x.2 L a ∧ supply_at y.2 L = supply_at x.2 L.
Proof.
  induction 1 as [x|x z y Hstep _ IH]; intros HL; [done|].
  pose proof (votes_step_sequence _ _ Hstep) as Hseq.
  destruct (votes_step_past _ _ a L Hstep HL) as [<- <-].
  destruct IH as (? & -> & ->); [lia|]. split_and!; [lia|done|done].
Qed.

(** ** Current power is the delegated balance *)

(** The balances of the accounts that delegate to [a]. *)
Definition delegated_to (del : gmap string string) (bal : gmap string Z) (a : string) : Z :=
  map_sum (λ d x, if decide (del !! d = Some a) then x else 0) bal.
Definition delegated_balance (s : TokenVotesState) (a : string) : Z :=
  delegated_to (tv_delegates s) (tv_balances s) a.
Definition power_matches (s : TokenVotesState) : Prop :=
  ∀ a, lastCheckpointVotes (tv_checkpoints s !! a) = delegated_balance s a.

(** Re-pointing [d] moves its balance. *)
Lemma delegated_to_insert (del : gmap string string) (bal : gmap string Z) d e a :
  delegated_to (<[d:=e]> del) bal a =
  delegated_to del bal a
  - (if decide (del !! d = Some a) then default 0 (bal !! d) else 0)
  + (if decide (e = a) then default 0 (bal !! d) else 0).
Proof.
  unfold delegated_to.
  rewrite (map_sum_change (λ d' x, if decide (del !! d' = Some a) then x else 0) _ _ d).
  2:{ intros d' x Hd. by rewrite lookup_insert_ne. }
  unfold at_key. rewrite lookup_insert_eq.
  destruct (bal !! d); cbn; repeat case_decide; simplify_eq; lia.
Qed.

Lemma applyDelegation_power c d e s :
  power_matches s → power_matches (applyDelegation c d e s).
Proof.
  intros Hp. apply applyDelegation_cases; [| |done].
  - intros Hd a. unfold delegated_balance. cbn.
    rewrite delegated_to_insert, pushCheckpoint_last, !Hp. unfold delegated_balance.
    repeat case_decide; simplify_eq; lia.
  - intros old Hd Hne m1 a. subst m1. unfold delegated_balance. cbn.
    rewrite delegated_to_insert, !pushCheckpoint_last, !Hp. unfold delegated_balance.
    repeat case_decide; simplify_eq; lia.
Qed.

(** A step that moves no tokens. *)
Definition delegation_step (x y : LedgerClock * TokenVotesState) : Prop :=
  votes_step x y ∧ tv_balances y.2 = tv_balances x.2.

Lemma delegation_step_power x y :
  delegation_step x y → power_matches x.2 → power_matches y.2.
Proof.
  intros [Hstep Hbal] Hp.
  destruct Hstep as [| |c caller d e o s s' H| |c b s Hb]; cbn in *; try done.
  - destruct o as [[]|err].
    + apply delegate_ok in H as (_ & _ & _ & ->). by apply applyDelegation_power.
    + by apply delegate_throw in H as ->.
  - by apply applyDelegation_power.
  - destruct s. cbn in *. by subst.
Qed.

Lemma votes_init_power bal : power_matches (votes_init bal).
Proof.
  intros a. unfold delegated_balance, delegated_to. cbn.
  rewrite (map_sum_ext _ (λ _ _, 0)); [by rewrite map_sum_zero|].
  intros d x _. rewrite lookup_empty. by case_decide.
Qed.

(** ** Properties *)

(** C5: snapshot conservation.  In every reachable state and for every ledger
    that has closed, the voting power of all accounts at that ledger adds up
    to the total supply recorded for it, so a vote can never be counted
    against a quorum it is not part of.  It holds whatever token transfers
    the other contracts made between delegations. *)
Theorem past_votes_sum_to_supply c s L :
  votes_reachable (c, s) → L ≤ sequence c →
  (∀ a, get_past_votes c a L s = (Ok (votes_at s L a), s)) ∧
  get_past_total_supply c L s =
    (Ok (map_sum (λ a _, votes_at s L a) (tv_checkpoints s)), s).
Proof.
  intros Hr HL. apply votes_reachable_wf in Hr. cbn in Hr.
  split; [intros a; by apply get_past_votes_run|].
  rewrite get_past_total_supply_run by done. unfold supply_at.
  rewrite <- (wf_conserved _ _ Hr).
  do 2 f_equal. apply map_sum_ext. intros a l Ha. unfold votes_at. by rewrite Ha.
Qed.

(** History is immutable.  Whatever happens after a ledger has closed,
    the voting power read at it for any account, and the total supply, stay
    what they were. *)
Theorem past_votes_immutable c s c' s' a L :
  rtc votes_step (c, s) (c', s') → L < sequence c →
  get_past_votes c' a L s' = (Ok (votes_at s L a), s') ∧
  get_past_total_supply c' L s' = (Ok (supply_at s L), s').
Proof.
  intros Hsteps HL.
  destruct (votes_steps_past _ _ a L Hsteps HL) as (Hseq & Hv & Hs). cbn in *.
  rewrite <- Hv, <- Hs.
  split; [apply get_past_votes_run|apply get_past_total_supply_run]; lia.
Qed.

(** An accepted [delegate] call keeps the delegation graph free of
    cycles, although the walk that looks for one stops after 64 hops. *)
Theorem delegate_keeps_acyclic c caller d e s s' :
  acyclic_delegation (tv_delegates s) →
  delegate c caller d e s = (Ok tt, s') →
  acyclic_delegation (tv_delegates s').
Proof.
  intros Hac H. apply delegate_ok in H as (_ & Hd & Hlen & ->).
  rewrite applyDelegation_delegates. apply insert_edge_acyclic; [|done].
  intros Hreach. by apply Hd, resolveChain_complete.
Qed.

(** While no tokens move, the power [get_votes] reports is exactly the sum
    of the balances delegated to the account, through any number of
    delegations and re-delegations. *)
Theorem get_votes_is_delegated_balance c0 bal c s a :
  rtc delegation_step (c0, votes_init bal) (c, s) →
  get_votes a s = (Ok (delegated_balance s a), s).
Proof.
  intros Hsteps. unfold get_votes, gets. do 2 f_equal.
  enough (power_matches (c, s).2) as Hp by apply Hp.
  pose proof (votes_init_power bal) as H0. change (votes_init bal) with (c0, votes_init bal).2 in H0.
  revert H0. generalize (c0, votes_init bal), (c, s), Hsteps. clear.
  intros x y Hsteps. induction Hsteps as [|x z y Hstep _ IH]; intros H0; [done|].
  apply IH. by eapply delegation_step_power.
Qed.

(** Self-delegation is refused.  [resolveChain] starts its chain with the
    delegatee itself, so [wouldCreateCycle] reports a cycle for every account
    that delegates to itself. *)
Theorem self_delegation_rejected c a s :
  delegate c a a a s = (Throw (MockContractError 1 "delegation would create a cycle"), s).
Proof.
  assert (wouldCreateCycle s a a = true) as Hcycle by (apply bool_decide_eq_true_2; by left).
  unfold delegate. rewrite (bool_decide_eq_true_2 (a = a)) by done.
  erewrite bind_run by reflexivity. erewrite bind_run by reflexivity.
  by rewrite Hcycle.
Qed.

(** ** Witnesses *)
Module Examples.
Definition clk : LedgerClock := mkClock 10 0.
Definition bals : gmap string Z := {["alice" := 5; "bob" := 7]}.
Definition s1 : TokenVotesState := applyDelegation clk "alice" "carol" (votes_init bals).

Lemma bals_nonneg : map_Forall (λ _ x, 0 ≤ x) bals.
Proof. apply (bool_decide_unpack _). vm_compute. exact I. Qed.

Lemma s1_reachable : votes_reachable (clk, s1).
Proof. exists clk, bals. split; [apply bals_nonneg|]. apply rtc_once. constructor. Qed.
End Examples.

Lemma past_votes_sum_to_supply_witness :
  get_past_total_supply Examples.clk 10 Examples.s1 = (Ok 5, Examples.s1).
Proof.
  destruct (past_votes_sum_to_supply Examples.clk Examples.s1 10) as [_ H].
  - apply Examples.s1_reachable.
  - vm_compute. discriminate.
  - rewrite H. vm_compute. reflexivity.
Defined.

Lemma past_votes_immutable_witness :
  let c' := mkClock 12 0 in
  get_past_votes c' "carol" 10
    (applyDelegation c' "bob" "carol" Examples.s1) =
  (Ok 5, applyDelegation c' "bob" "carol" Examples.s1).
Proof.
  intros c'.
  destruct (past_votes_immutable (mkClock 11 0) Examples.s1 c'
    (applyDelegation c' "bob" "carol" Examples.s1) "carol" 10) as [H _].
  - eapply rtc_l; [by eapply (votes_step_advance 1)|]. apply rtc_once. constructor.
  - vm_compute. reflexivity.
  - rewrite H. vm_compute. reflexivity.
Defined.

Lemma delegate_keeps_acyclic_witness :
  let s := votes_init Examples.bals in
  let s' := applyDelegation Examples.clk "alice" "bob" s in
  acyclic_delegation (tv_delegates s').
Proof.
  intros s s'. apply (delegate_keeps_acyclic Examples.clk "alice" "alice" "bob" s s').
  - intros a Ha. destruct Ha as [? ? (H & _)|? ? ? (H & _)]; done.
  - vm_compute. reflexivity.
Defined.

Lemma get_votes_is_delegated_balance_witness :
  get_votes "carol" Examples.s1 = (Ok 5, Examples.s1).
Proof.
  rewrite (get_votes_is_delegated_balance Examples.clk Examples.bals Examples.clk).
  - vm_compute. reflexivity.
  - apply rtc_once. split; [constructor|]. apply applyDelegation_balances.
Defined.
