(* ===== verification/Timelock.v ===== *)
(** * The timelock

    [tools/simulation/src/mock/timelock-executor.ts]: operations that wait
    for a delay, execute inside a window, and may depend on one another.
    [createHash("sha256")] belongs to the runtime's crypto library: it is the
    parameter [sha256] of what computes operation ids. *)

From S2P Require Import Prelude SdkErrors Store.

(** ** Operations *)

(** [requireGovernor]: declared by the file, called by none of its functions. *)
Definition requireGovernor (governorAddress caller : string) : M TimelockState unit :=
  throw_if (negb (String.eqb caller governorAddress)) (MockContractError 0 "only governor").

Section operations.
Context (sha256 : bytes → bytes).

(** The text fed to the hash: the fields in order, with no separator. *)
Definition op_preimage (target : string) (data : bytes) (fnName : string) (delay : Z)
    (predecessor salt : bytes) : bytes :=
  utf8 target ++ utf8 fnName ++ data ++ utf8 (decimal delay) ++ predecessor ++ salt.

Definition computeOpId (target : string) (data : bytes) (fnName : string) (delay : Z)
    (predecessor salt : bytes) : string :=
  to_hex (sha256 (op_preimage target data fnName delay predecessor salt)).

Definition scheduleOperation (clock : LedgerClock) (target : string) (data : bytes)
    (fnName : string) (delay : Z) (predecessor salt : bytes) : M TimelockState string :=
  s ← get;
  throw_if (delay <? tl_minDelay s) (MockContractError 100 "schedule: delay too short");;
  let opId := computeOpId target data fnName delay predecessor salt in
  let readyAt := num_add (timestamp clock) (to_number delay) in
  let expiresAt := num_add readyAt (to_number (tl_executionWindow s)) in
  let op := mkOp target fnName data readyAt expiresAt false false None in
  modify (λ s, s <| tl_operations ::= <[opId := op]> |>);;
  mret opId.

Definition schedule_with_deps (clock : LedgerClock) (target : string) (data : bytes)
    (fnName : string) (delay : Z) (predecessorIds : list bytes) : M TimelockState string :=
  let predecessors := to_hex <$> predecessorIds in
  s ← get;
  throw_if
    (existsb (λ pred, match tl_operations s !! pred with
                      | None => true
                      | Some op => negb (op_executed op) && negb (op_cancelled op)
                      end) predecessors)
    (MockContractError 100 "schedule_with_deps: predecessor not done");;
  let opId := computeOpId target data fnName delay [] [] in
  let readyAt := num_add (timestamp clock) (to_number delay) in
  let expiresAt := num_add readyAt (to_number (tl_executionWindow s)) in
  let op := mkOp target fnName data readyAt expiresAt false false (Some predecessors) in
  modify (λ s, s <| tl_operations ::= <[opId := op]> |>);;
  modify (λ s, s <| tl_dependencies ::= <[opId := predecessors]> |>);;
  mret opId.
End operations.

Definition executeOperation (clock : LedgerClock) (opId : string) : M TimelockState unit :=
  s ← get;
  op ← unwrap (tl_operations s !! opId)
         (MockContractError 100 "execute: operation not found");
  throw_if (op_executed op || op_cancelled op)
    (MockContractError 100 "execute: invalid operation state");;
  throw_if (timestamp clock <? op_readyAt op)
    (MockContractError 100 "execute: operation not ready");;
  throw_if (op_expiresAt op <? timestamp clock)
    (MockContractError (TimelockErrorCode.num TimelockErrorCode.OperationExpired)
       "execute: operation expired");;
  modify (λ s, s <| tl_operations ::= alter (λ op, op <| op_executed := true |>) opId |>).

Definition cancelOperation (opId : string) : M TimelockState unit :=
  s ← get;
  op ← unwrap (tl_operations s !! opId)
         (MockContractError 100 "cancel: operation not found");
  throw_if (op_executed op) (MockContractError 100 "cancel: already executed");;
  modify (λ s, s <| tl_operations ::= alter (λ op, op <| op_cancelled := true |>) opId |>).

(** ** Dependency cycles

    [visit] is the closure of [hasCycle]: a depth-first search that keeps the
    finished nodes in [visited] and the open ones in [stack].  [None] is
    running out of fuel; the fuel counts the nesting of calls. *)
Record SearchState := mkSearch { visited : gset string; stack : gset string }.
#[export] Instance eta_SearchState : Eta SearchState := λ r, mkSearch (visited r) (stack r).

Definition predecessors_of (deps : gmap string (list string)) (id : string) : list string :=
  default [] (deps !! id).

(** [for (const x of xs) if (visit(x)) return true] *)
Fixpoint visit_list (visit : string → SearchState → option (bool * SearchState))
    (ids : list string) (st : SearchState) : option (bool * SearchState) :=
  match ids with
  | [] => Some (false, st)
  | id :: ids' =>
    match visit id st with
    | None => None
    | Some (true, st') => Some (true, st')
    | Some (false, st') => visit_list visit ids' st'
    end
  end.

Fixpoint visit (fuel : nat) (deps : gmap string (list string)) (id : string)
    (st : SearchState) : option (bool * SearchState) :=
  match fuel with
  | O => None
  | S fuel' =>
    if bool_decide (id ∈ stack st) then Some (true, st)
    else if bool_decide (id ∈ visited st) then Some (false, st)
    else
      let st := st <| stack ::= λ k, k ∪ {[id]} |> in
      match visit_list (visit fuel' deps) (predecessors_of deps id) st with
      | None => None
      | Some (true, st') => Some (true, st')
      | Some (false, st') =>
        Some (false, st' <| stack ::= λ k, k ∖ {[id]} |> <| visited ::= λ v, v ∪ {[id]} |>)
      end
  end.

(** Every node the search can meet. *)
Definition dep_nodes (deps : gmap string (list string)) (opIds : list string) : gset string :=
  list_to_set opIds ∪ dom deps ∪ list_to_set (concat (snd <$> map_to_list deps)).

(** The search nests at most once per node, plus the call that finds the node open. *)
Definition search_fuel (deps : gmap string (list string)) (opIds : list string) : nat :=
  S (S (size (dep_nodes deps opIds))).

Definition hasCycle (deps : gmap string (list string)) (opIds : list string) : option bool :=
  fst <$> visit_list (visit (search_fuel deps opIds) deps) opIds (mkSearch ∅ ∅).

(** ** The executor *)
Definition is_ready (clock : LedgerClock) (opIdBytes : bytes) : M TimelockState bool :=
  gets (λ s, match tl_operations s !! to_hex opIdBytes with
             | None => false
             | Some op => negb (op_executed op) && negb (op_cancelled op) &&
                          (op_readyAt op <=? timestamp clock) &&
                          (timestamp clock <=? op_expiresAt op)
             end).

Definition is_pending (clock : LedgerClock) (opIdBytes : bytes) : M TimelockState bool :=
  gets (λ s, match tl_operations s !! to_hex opIdBytes with
             | None => false
             | Some op => negb (op_executed op) && negb (op_cancelled op) &&
                          (timestamp clock <? op_readyAt op)
             end).

Definition min_delay : M TimelockState Z := gets tl_minDelay.
Definition execution_window : M TimelockState Z := gets tl_executionWindow.

(** [None] is a search that did not finish; [hasCycle_total] rules it out. *)
Definition validate_dependency_dag (opIds : list bytes) : M TimelockState unit :=
  let opIdStrs := to_hex <$> opIds in
  s ← get;
  throw_if (default true (hasCycle (tl_dependencies s) opIdStrs))
    (MockContractError 100 "validate_dependency_dag: cycle detected").

Definition execute_batch_partial : M TimelockState unit := mret tt.
Definition retry_failed_operation : M TimelockState unit := mret tt.
Definition skip_failed_operation : M TimelockState unit := mret tt.

(** ** The search decides reachability of a cycle *)
Section cycle_search.
Context (deps : gmap string (list string)).

Definition depends (a b : string) : Prop := b ∈ predecessors_of deps a.

(** Some cycle can be reached from [id]. *)
Definition cyclic_from (id : string) : Prop := ∃ c, rtc depends id c ∧ tc depends c c.

(** Finished nodes: closed under dependencies, on no cycle, not open. *)
Record search_inv (st : SearchState) : Prop := {
  si_closed : ∀ x y, x ∈ visited st → depends x y → y ∈ visited st;
  si_acyclic : ∀ x, x ∈ visited st → ¬ tc depends x x;
  si_disjoint : visited st ## stack st;
}.

Lemma search_inv_reach st x y :
  search_inv st → rtc depends x y → x ∈ visited st → y ∈ visited st.
Proof. intros Hinv. induction 1; eauto using si_closed. Qed.

Lemma visit_list_stack v ids st st' :
  (∀ id st st', v id st = Some (false, st') → stack st' = stack st) →
  visit_list v ids st = Some (false, st') → stack st' = stack st.
Proof.
  intros Hv. revert st. induction ids as [|id ids IH]; cbn; intros st H; [by simplify_eq|].
  destruct (v id st) as [[[] st1]|] eqn:H1; simplify_eq.
  rewrite (IH _ H). by eapply Hv.
Qed.

Lemma visit_stack fuel id st st' :
  visit fuel deps id st = Some (false, st') → stack st' = stack st.
Proof.
  revert id st st'. induction fuel as [|fuel IH]; cbn; intros id st st' H; [done|].
  case_bool_decide as Hs; [done|]. case_bool_decide as Hv; [by simplify_eq|].
  destruct (visit_list _ _ _) as [[[] st1]|] eqn:H1; simplify_eq. cbn.
  apply visit_list_stack in H1; [|done]. cbn in H1. rewrite H1. set_solver.
Qed.

Definition visit_post (ids : list string) (st : SearchState) (r : bool)
    (st' : SearchState) : Prop :=
  if r then ∃ id, id ∈ ids ∧ cyclic_from id
  else search_inv st' ∧ visited st ⊆ visited st' ∧ (∀ id, id ∈ ids → id ∈ visited st').

Lemma visit_list_spec v ids st r st' :
  (∀ id st st', v id st = Some (false, st') → stack st' = stack st) →
  (∀ id st r st', v id st = Some (r, st') → search_inv st →
     (∀ x, x ∈ stack st → tc depends x id) → visit_post [id] st r st') →
  visit_list v ids st = Some (r, st') → search_inv st →
  (∀ x id, x ∈ stack st → id ∈ ids → tc depends x id) →
  visit_post ids st r st'.
Proof.
  intros Hstack Hv. revert st.
  induction ids as [|id ids IH]; cbn; intros st H Hinv Hpath.
  { simplify_eq. split_and!; [done|done|set_solver]. }
  destruct (v id st) as [[b st1]|] eqn:H1; [|done].
  pose proof (Hv _ _ _ _ H1 Hinv) as Hpost.
  destruct b; simplify_eq.
  - destruct Hpost as (c & Hc & ?); [set_solver|]. exists id. set_solver.
  - destruct Hpost as (Hinv1 & Hsub & Hid); [set_solver|].
    pose proof (Hstack _ _ _ H1) as Hst.
    apply IH in H; [|done|rewrite Hst; set_solver]. destruct r; cbn in *.
    + set_solver.
    + set_solver.
Qed.

(** Closing a node whose dependencies are all finished. *)
Lemma search_inv_close id st :
  search_inv st → id ∈ stack st → (∀ y, depends id y → y ∈ visited st) →
  search_inv (st <| stack ::= λ k, k ∖ {[id]} |> <| visited ::= λ v, v ∪ {[id]} |>).
Proof.
  intros Hinv Hid Hpreds. pose proof (si_disjoint _ Hinv) as Hdisj. split; cbn.
  - intros x y. rewrite !elem_of_union, !elem_of_singleton.
    intros [Hx| ->] Hxy; left; [by eapply si_closed|by apply Hpreds].
  - intros x. rewrite elem_of_union, elem_of_singleton.
    intros [Hx| ->]; [by eapply si_acyclic|]. intros Hcycle.
    apply tc_first in Hcycle as (y & Hy & Hyx).
    pose proof (search_inv_reach _ _ _ Hinv Hyx (Hpreds _ Hy)). set_solver.
  - set_solver.
Qed.

Lemma visit_spec fuel id st r st' :
  visit fuel deps id st = Some (r, st') → search_inv st →
  (∀ x, x ∈ stack st → tc depends x id) → visit_post [id] st r st'.
Proof.
  revert id st r st'. induction fuel as [|fuel IH]; [done|].
  intros id st r st' H Hinv Hpath. cbn in H.
  case_bool_decide as Hs.
  { simplify_eq. exists id. split; [by left|]. exists id. split; [done|by apply Hpath]. }
  case_bool_decide as Hv.
  { simplify_eq. split_and!; [done|done|]. set_solver. }
  set (st0 := mkSearch (visited st) (stack st ∪ {[id]})) in H.
  assert (search_inv st0) as Hinv0.
  { destruct Hinv. split; cbn; [done|done|set_solver]. }
  destruct (visit_list _ _ _) as [[b st1]|] eqn:Hlist; [|done].
  pose proof (visit_list_stack (visit fuel deps) (predecessors_of deps id) st0 st1
    (visit_stack fuel)) as Hstack.
  eapply visit_list_spec in Hlist as Hpost;
    [|apply visit_stack|exact IH|exact Hinv0|].
  2:{ intros x p Hx Hp. cbn in Hx. rewrite elem_of_union, elem_of_singleton in Hx.
      destruct Hx as [Hx| ->]; [eapply tc_r; [by apply Hpath|done]|by apply tc_once]. }
  destruct b; simplify_eq.
  - destruct Hpost as (p & Hp & c & Hpc & Hc). exists id. split; [by left|].
    exists c. split; [by eapply rtc_l|done].
  - destruct Hpost as (Hinv1 & Hsub & Hpreds). apply Hstack in Hlist. cbn in Hsub.
    split_and!; [|set_solver|set_solver].
    apply search_inv_close; [done| |done]. rewrite Hlist. set_solver.
Qed.

(** *** Fuel *)
Lemma visit_list_total v ids st (P : SearchState → Prop) :
  P st →
  (∀ id st, id ∈ ids → P st → ∃ r st', v id st = Some (r, st') ∧ (r = false → P st')) →
  is_Some (visit_list v ids st).
Proof.
  revert st. induction ids as [|id ids IH]; cbn; intros st HP Hv; [by eexists|].
  destruct (Hv id st) as (r & st' & -> & HP'); [by left|done|].
  destruct r; [by eexists|]. apply IH; [auto|]. intros id' st1 Hid. apply Hv. by right.
Qed.

Lemma visit_total (nodes : gset string) fuel id st :
  (∀ x y, x ∈ nodes → depends x y → y ∈ nodes) →
  id ∈ nodes → stack st ⊆ nodes → (size nodes - size (stack st) < fuel)%nat →
  ∃ r st', visit fuel deps id st = Some (r, st').
Proof.
  intros Hclosed. revert id st. induction fuel as [|fuel IH]; [lia|].
  intros id st Hid Hsub Hfuel. cbn.
  case_bool_decide as Hs; [eauto|]. case_bool_decide as Hv; [eauto|].
  set (st0 := mkSearch (visited st) (stack st ∪ {[id]})).
  assert (stack st0 ⊆ nodes) as Hsub0 by (cbn; set_solver).
  assert (size (stack st0) = S (size (stack st))) as Hsize.
  { cbn. rewrite size_union by set_solver. rewrite size_singleton. lia. }
  pose proof (subseteq_size _ _ Hsub0) as Hle.
  destruct (visit_list_total (visit fuel deps) (predecessors_of deps id) st0
    (λ st', stack st' = stack st0)) as [[[] st1] ->]; [done| |eauto|eauto].
  intros p st' Hp Hst'.
  destruct (IH p st') as (r & st1 & Hr); [by eapply Hclosed|by rewrite Hst'| |].
  { rewrite Hst'. lia. }
  exists r, st1. split; [done|]. intros ->. by rewrite (visit_stack _ _ _ _ Hr).
Qed.
End cycle_search.

Lemma dep_nodes_closed deps opIds x y : depends deps x y → y ∈ dep_nodes deps opIds.
Proof.
  unfold depends, predecessors_of, dep_nodes. intros Hy.
  destruct (deps !! x) as [l|] eqn:Hx; [|by apply not_elem_of_nil in Hy].
  rewrite !elem_of_union. right. rewrite elem_of_list_to_set.
  apply list_elem_of_In, in_concat. exists l. rewrite <- !list_elem_of_In. split; [|done].
  apply list_elem_of_fmap. exists (x, l). split; [done|]. by apply elem_of_map_to_list.
Qed.

Lemma hasCycle_correct deps opIds :
  ∃ b, hasCycle deps opIds = Some b ∧
    (b = true ↔ ∃ id, id ∈ opIds ∧ cyclic_from deps id).
Proof.
  unfold hasCycle.
  destruct (visit_list_total (visit (search_fuel deps opIds) deps) opIds (mkSearch ∅ ∅)
    (λ st, stack st = ∅)) as [[b st'] Hrun]; [done| |].
  - intros id st Hid Hst.
    destruct (visit_total deps (dep_nodes deps opIds) (search_fuel deps opIds) id st)
      as (r & st1 & Hr).
    + intros x y _. apply dep_nodes_closed.
    + unfold dep_nodes. set_solver.
    + set_solver.
    + unfold search_fuel. lia.
    + exists r, st1. split; [done|]. intros ->. by rewrite (visit_stack _ _ _ _ _ Hr).
  - rewrite Hrun. exists b. split; [done|].
    eapply visit_list_spec in Hrun; [|apply visit_stack|apply visit_spec| |set_solver].
    2:{ split; cbn; set_solver. }
    destruct b; cbn in *; [naive_solver|]. split; [done|].
    intros (id & Hid & c & Hc & Hcc). destruct Hrun as (Hinv & _ & Hall).
    exfalso. eapply (si_acyclic _ _ Hinv c); [|done].
    eapply search_inv_reach; [done|exact Hc|by apply Hall].
Qed.

(** ** Histories of calls

    The calls that change a timelock, with the clock they see.  A call that
    throws ends its transaction, and the next one starts from what it left. *)
Inductive timelock_call :=
  | TSchedule (target : string) (data : bytes) (fnName : string) (delay : Z)
      (predecessor salt : bytes)
  | TScheduleWithDeps (target : string) (data : bytes) (fnName : string) (delay : Z)
      (predecessorIds : list bytes)
  | TExecute (opId : string)
  | TCancel (opId : string).

Section histories.
Context (sha256 : bytes → bytes).

Definition timelock_exec (clock : LedgerClock) (c : timelock_call) (s : TimelockState) :
    TimelockState :=
  match c with
  | TSchedule t d f delay p salt => (scheduleOperation sha256 clock t d f delay p salt s).2
  | TScheduleWithDeps t d f delay ps => (schedule_with_deps sha256 clock t d f delay ps s).2
  | TExecute opId => (executeOperation clock opId s).2
  | TCancel opId => (cancelOperation opId s).2
  end.

(** The identifier a call writes a fresh record under. *)
Definition schedules (c : timelock_call) : option string :=
  match c with
  | TSchedule t d f delay p salt => Some (computeOpId sha256 t d f delay p salt)
  | TScheduleWithDeps t d f delay ps => Some (computeOpId sha256 t d f delay [] [])
  | _ => None
  end.

Definition timelock_history (s : TimelockState) (h : list (LedgerClock * timelock_call)) :
    TimelockState :=
  foldl (λ s cc, timelock_exec cc.1 cc.2 s) s h.

(** What a call that does not reschedule an operation can do to it. *)
Record op_evolves (op op' : TimelockOperationRecord) : Prop := {
  oe_ready : op_readyAt op' = op_readyAt op;
  oe_expires : op_expiresAt op' = op_expiresAt op;
  oe_executed : op_executed op = true → op_executed op' = true;
  oe_cancelled : op_cancelled op = true → op_cancelled op' = true;
}.

#[global] Instance op_evolves_preorder : PreOrder op_evolves.
Proof.
  split; [by intros []|].
  intros x y z [H1 H2 H3 H4] [K1 K2 K3 K4]. split; [congruence|congruence|auto|auto].
Qed.

Lemma alter_evolves (m : gmap string TimelockOperationRecord) f k id op :
  m !! id = Some op → (∀ op, op_evolves op (f op)) →
  ∃ op', alter f k m !! id = Some op' ∧ op_evolves op op'.
Proof.
  intros Hid Hf. destruct (decide (k = id)) as [->|].
  - rewrite lookup_alter_eq, Hid. eexists. split; [done|apply Hf].
  - rewrite lookup_alter_ne by done. exists op. by split.
Qed.

Lemma executeOperation_run clock opId s :
  executeOperation clock opId s =
  match tl_operations s !! opId with
  | None => (Throw (MockContractError 100 "execute: operation not found"), s)
  | Some op =>
    if op_executed op || op_cancelled op
    then (Throw (MockContractError 100 "execute: invalid operation state"), s)
    else if timestamp clock <? op_readyAt op
    then (Throw (MockContractError 100 "execute: operation not ready"), s)
    else if op_expiresAt op <? timestamp clock
    then (Throw (MockContractError 3 "execute: operation expired"), s)
    else (Ok tt, s <| tl_operations ::=
            alter (λ op, op <| op_executed := true |>) opId |>)
  end.
Proof.
  unfold executeOperation. m_run.
  destruct (tl_operations s !! opId) as [op|]; cbn; [|done].
  destruct (op_executed op || op_cancelled op); cbn; [done|].
  destruct (timestamp clock <? op_readyAt op); cbn; [done|].
  by destruct (op_expiresAt op <? timestamp clock).
Qed.

Lemma cancelOperation_run opId s :
  cancelOperation opId s =
  match tl_operations s !! opId with
  | None => (Throw (MockContractError 100 "cancel: operation not found"), s)
  | Some op =>
    if op_executed op
    then (Throw (MockContractError 100 "cancel: already executed"), s)
    else (Ok tt, s <| tl_operations ::=
            alter (λ op, op <| op_cancelled := true |>) opId |>)
  end.
Proof.
  unfold cancelOperation. m_run. destruct (tl_operations s !! opId) as [op|]; cbn; [|done].
  by destruct (op_executed op).
Qed.

Lemma exec_evolves clock c s id op :
  schedules c ≠ Some id → tl_operations s !! id = Some op →
  ∃ op', tl_operations (timelock_exec clock c s) !! id = Some op' ∧ op_evolves op op'.
Proof.
  intros Hc Hop. destruct c as [t d f delay p salt|t d f delay ps|o|o]; cbn in *.
  - unfold scheduleOperation. m_run. destruct (_ <? _); cbn; [by eexists|].
    rewrite lookup_insert_ne by congruence. by eexists.
  - unfold schedule_with_deps. m_run. destruct (existsb _ _); cbn; [by eexists|].
    rewrite lookup_insert_ne by congruence. by eexists.
  - rewrite executeOperation_run. repeat case_match; try by eexists.
    apply alter_evolves; [done|]. by intros [].
  - rewrite cancelOperation_run. repeat case_match; try by eexists.
    apply alter_evolves; [done|]. by intros [].
Qed.

Lemma history_evolves s h id op :
  Forall (λ cc, schedules cc.2 ≠ Some id) h → tl_operations s !! id = Some op →
  ∃ op', tl_operations (timelock_history s h) !! id = Some op' ∧ op_evolves op op'.
Proof.
  intros Hh. revert s op. induction Hh as [|[clock c] h Hc Hh IH]; intros s op Hop; cbn.
  { by exists op. }
  destruct (exec_evolves clock c s id op Hc Hop) as (op1 & Hop1 & ?).
  destruct (IH _ _ Hop1) as (op' & ? & ?). exists op'. split; [done|]. by etrans.
Qed.

Lemma execute_throw_inv clock opId s e s' :
  executeOperation clock opId s = (Throw e, s') → s' = s.
Proof. rewrite executeOperation_run. repeat case_match; by intros [=]. Qed.

Lemma execute_ok_inv clock opId s s' :
  executeOperation clock opId s = (Ok tt, s') →
  ∃ op, tl_operations s !! opId = Some op ∧ op_executed op = false ∧
    op_cancelled op = false ∧ op_readyAt op ≤ timestamp clock ≤ op_expiresAt op ∧
    s' = s <| tl_operations ::= alter (λ op, op <| op_executed := true |>) opId |>.
Proof.
  rewrite executeOperation_run. destruct (_ !! _) as [op|]; [|done].
  destruct (op_executed op) eqn:?, (op_cancelled op) eqn:?; cbn; try done.
  destruct (Z.ltb_spec (timestamp clock) (op_readyAt op)); [done|].
  destruct (Z.ltb_spec (op_expiresAt op) (timestamp clock)); [done|].
  intros [= <-]. eauto 10.
Qed.
End histories.

Lemma scheduleOperation_ok_inv sha256 clock t d f delay p salt s id s' :
  scheduleOperation sha256 clock t d f delay p salt s = (Ok id, s') →
  tl_minDelay s ≤ delay ∧ id = computeOpId sha256 t d f delay p salt ∧
  tl_operations s' !! id =
    Some (mkOp t f d (num_add (timestamp clock) (to_number delay))
      (num_add (num_add (timestamp clock) (to_number delay)) (to_number (tl_executionWindow s)))
      false false None).
Proof.
  unfold scheduleOperation. m_run.
  destruct (Z.ltb_spec delay (tl_minDelay s)); cbn; [done|].
  intros [= <- <-]. split_and!; [done|done|]. cbn. by rewrite lookup_insert_eq.
Qed.

(** ** Properties *)

(** An operation waits for its delay.  When [scheduleOperation] accepts an
    operation, then whatever other calls follow, at whatever clock, as long as
    none of them schedules the same identifier again, the operation executes
    only inside the window that opens [delay] seconds after it was scheduled
    (never before [minDelay] seconds have passed) and closes [executionWindow]
    seconds later.  The bounds say that the times fit in a double exactly. *)
Theorem scheduled_operation_waits sha256 clock t d f delay p salt s opId s1 h clock' s2 :
  scheduleOperation sha256 clock t d f delay p salt s = (Ok opId, s1) →
  Forall (λ cc, schedules sha256 cc.2 ≠ Some opId) h →
  0 ≤ timestamp clock → 0 ≤ tl_executionWindow s → 0 ≤ tl_minDelay s →
  timestamp clock + delay + tl_executionWindow s ≤ 2 ^ 53 →
  executeOperation clock' opId (timelock_history sha256 s1 h) = (Ok tt, s2) →
  timestamp clock + tl_minDelay s ≤ timestamp clock' ∧
  timestamp clock + delay ≤ timestamp clock' ≤
    timestamp clock + delay + tl_executionWindow s.
Proof.
  intros Hsched Hh Hnow Hwin Hmin Hmax Hexec.
  apply scheduleOperation_ok_inv in Hsched as (Hdelay & -> & Hop).
  destruct (history_evolves _ _ _ _ _ Hh Hop) as (op & Hop' & [Hr He _ _]).
  apply execute_ok_inv in Hexec as (op1 & Hop1 & _ & _ & Hwindow & _).
  rewrite Hop' in Hop1. injection Hop1 as <-. cbn in Hr, He.
  rewrite (to_number_exact delay) in Hr, He by lia.
  rewrite (to_number_exact (tl_executionWindow s)) in He by lia.
  rewrite (num_add_exact (timestamp clock)) in Hr, He by lia.
  rewrite num_add_exact in He by lia. lia.
Qed.

(** A small timelock, used to run the definitions. *)
Definition demo_hash (bs : bytes) : bytes := rev (firstn 32 (rev bs)).
Definition demo_timelock : TimelockState := mkTimelock 100 1000 ∅ ∅.
Definition demo_op : string := computeOpId demo_hash "T" [] "f" 200 [] [].
Definition demo_schedule : M TimelockState string :=
  scheduleOperation demo_hash (mkClock 1 45) "T" [] "f" 200 [] [].
Definition demo_scheduled : TimelockState := (demo_schedule demo_timelock).2.
Definition demo_executed : TimelockState :=
  (executeOperation (mkClock 9 255) demo_op demo_scheduled).2.

Lemma scheduled_operation_waits_witness :
  executeOperation (mkClock 9 255) demo_op
    (timelock_history demo_hash demo_scheduled [(mkClock 2 50, TExecute demo_op)]) =
    (Ok tt, demo_executed) ∧
  50 + 200 ≤ 300.
Proof.
  assert (executeOperation (mkClock 9 255) demo_op
    (timelock_history demo_hash demo_scheduled [(mkClock 2 50, TExecute demo_op)]) =
    (Ok tt, demo_executed)) as H by (vm_compute; reflexivity).
  split; [exact H|].
  refine (proj1 (proj2 (scheduled_operation_waits demo_hash (mkClock 1 45) "T" [] "f" 200 [] []
    demo_timelock demo_op demo_scheduled _ (mkClock 9 255) _ _ _ _ _ _ _ H))).
  - vm_compute; reflexivity.
  - repeat constructor. discriminate.
  - vm_compute; discriminate.
  - cbn; lia.
  - cbn; lia.
  - vm_compute; discriminate.
Defined.

(** Execution and cancellation are final.  After a successful [execute]
    (or a successful [cancel]), whatever calls follow that do not schedule the
    identifier again, every further [execute] throws and changes nothing; an
    executed operation cannot be cancelled either. *)
Theorem settled_operation_is_final sha256 (executed : bool) clock opId s s1 h clock' :
  (if executed then executeOperation clock opId s else cancelOperation opId s) = (Ok tt, s1) →
  Forall (λ cc, schedules sha256 cc.2 ≠ Some opId) h →
  let s2 := timelock_history sha256 s1 h in
  executeOperation clock' opId s2 =
    (Throw (MockContractError 100 "execute: invalid operation state"), s2) ∧
  (executed = true → cancelOperation opId s2 =
    (Throw (MockContractError 100 "cancel: already executed"), s2)).
Proof.
  intros Hset Hh s2.
  assert (∃ op, tl_operations s1 !! opId = Some op ∧
    (if executed then op_executed op else op_cancelled op) = true) as (op & Hop & Hflag).
  { destruct executed.
    - apply execute_ok_inv in Hset as (op & Hop & _ & _ & _ & ->). cbn.
      rewrite lookup_alter_eq, Hop. by eexists.
    - rewrite cancelOperation_run in Hset. destruct (_ !! opId) as [op|] eqn:Hop; [|done].
      destruct (op_executed op); [done|]. injection Hset as <-. cbn.
      rewrite lookup_alter_eq, Hop. by eexists. }
  destruct (history_evolves _ _ _ _ _ Hh Hop) as (op' & Hop' & [_ _ He Hc]).
  rewrite executeOperation_run, cancelOperation_run. subst s2. rewrite Hop'.
  destruct executed.
  - by rewrite (He Hflag).
  - rewrite (Hc Hflag), orb_true_r. done.
Qed.

Lemma settled_operation_is_final_witness :
  executeOperation (mkClock 9 256) demo_op demo_executed =
    (Throw (MockContractError 100 "execute: invalid operation state"), demo_executed).
Proof.
  refine (proj1 (settled_operation_is_final demo_hash true (mkClock 9 255) demo_op demo_scheduled
    demo_executed [] (mkClock 9 256) _ _)).
  - vm_compute; reflexivity.
  - constructor.
Defined.

(** [is_ready] answers exactly whether [execute] would succeed now, and
    [is_pending] whether it could succeed later: the three states are
    exclusive, and both queries leave the timelock alone. *)
Theorem is_ready_iff_executable clock opIdBytes s :
  ∃ ready pending,
    is_ready clock opIdBytes s = (Ok ready, s) ∧
    is_pending clock opIdBytes s = (Ok pending, s) ∧
    (ready = true ↔ (executeOperation clock (to_hex opIdBytes) s).1 = Ok tt) ∧
    (pending = true → executeOperation clock (to_hex opIdBytes) s =
       (Throw (MockContractError 100 "execute: operation not ready"), s)) ∧
    (pending = true → ∀ op, tl_operations s !! to_hex opIdBytes = Some op →
       ∀ later, timestamp clock < timestamp later →
       op_readyAt op ≤ timestamp later ≤ op_expiresAt op →
       (executeOperation later (to_hex opIdBytes) s).1 = Ok tt).
Proof.
  eexists _, _. split; [reflexivity|]. split; [reflexivity|].
  setoid_rewrite executeOperation_run.
  destruct (tl_operations s !! to_hex opIdBytes) as [op|]; [|naive_solver].
  destruct (op_executed op), (op_cancelled op); cbn; try naive_solver.
  destruct (Z.ltb_spec (timestamp clock) (op_readyAt op)),
    (Z.leb_spec (op_readyAt op) (timestamp clock)); try lia; cbn.
  - split; [done|]. split; [done|]. intros _ op' [= <-] later Hlater [H1 H2].
    by rewrite (proj2 (Z.ltb_ge _ _) H1), (proj2 (Z.ltb_ge _ _) H2).
  - destruct (Z.ltb_spec (op_expiresAt op) (timestamp clock)),
      (Z.leb_spec (timestamp clock) (op_expiresAt op)); try lia; cbn; naive_solver.
Qed.

(** [validate_dependency_dag] decides, always returning, whether a cycle
    of predecessor links can be reached from one of the given operations: it
    throws exactly then, and never changes the timelock. *)
Theorem validate_dependency_dag_correct opIds s :
  let cyclic := ∃ id, id ∈ to_hex <$> opIds ∧ cyclic_from (tl_dependencies s) id in
  (¬ cyclic ∧ validate_dependency_dag opIds s = (Ok tt, s)) ∨
  (cyclic ∧ validate_dependency_dag opIds s =
    (Throw (MockContractError 100 "validate_dependency_dag: cycle detected"), s)).
Proof.
  intros cyclic.
  destruct (hasCycle_correct (tl_dependencies s) (to_hex <$> opIds)) as (b & Hb & Hiff).
  unfold validate_dependency_dag. m_run. rewrite Hb. destruct b; cbn; [right|left]; split.
  - by apply Hiff.
  - done.
  - intros Hc. by apply Hiff in Hc.
  - done.
Qed.

(** The delay can be bypassed.  The hashed text has no separators, and
    [schedule_with_deps] checks neither the caller nor the minimum delay.  For
    every hash function, an operation scheduled with delay 3600 shares its
    identifier with the one whose data ends in the byte "3" and whose delay is
    600: scheduling the latter replaces the former by an operation that
    executes after ten minutes instead of an hour. *)
Theorem timelock_delay_bypass sha256 c c' t d f s opId s1 :
  tl_minDelay s = 3600 → 0 ≤ timestamp c → 0 ≤ tl_executionWindow s →
  timestamp c + 3600 + tl_executionWindow s ≤ 2 ^ 53 →
  scheduleOperation sha256 c t d f 3600 [] [] s = (Ok opId, s1) →
  timestamp c + 600 ≤ timestamp c' ≤ timestamp c + 600 + tl_executionWindow s →
  ∃ s2, schedule_with_deps sha256 c t (d ++ utf8 "3") f 600 [] s1 = (Ok opId, s2) ∧
    (executeOperation c' opId s2).1 = Ok tt.
Proof.
  intros Hmin H0 Hw Hmax Hsched [Hlo Hhi].
  assert (tl_executionWindow s1 = tl_executionWindow s) as Hwin.
  { revert Hsched. unfold scheduleOperation. m_run. destruct (_ <? _); [done|]. by intros [= _ <-]. }
  apply scheduleOperation_ok_inv in Hsched as (_ & -> & _).
  assert (computeOpId sha256 t (d ++ utf8 "3") f 600 [] [] = computeOpId sha256 t d f 3600 [] []) as Hid.
  { unfold computeOpId, op_preimage. do 2 f_equal. by rewrite <- !app_assoc. }
  eexists. split.
  - unfold schedule_with_deps. m_run. cbn [existsb fmap list_fmap]. rewrite Hid. reflexivity.
  - rewrite executeOperation_run. cbn -[computeOpId to_number num_add timestamp].
    rewrite lookup_insert_eq. cbn -[computeOpId to_number num_add timestamp].
    rewrite Hwin, (to_number_exact 600), (to_number_exact (tl_executionWindow s)) by lia.
    rewrite (num_add_exact (timestamp c)), num_add_exact by lia.
    rewrite (proj2 (Z.ltb_ge _ _)), (proj2 (Z.ltb_ge _ _)) by lia. done.
Qed.

Lemma timelock_delay_bypass_witness :
  let s := mkTimelock 3600 1000 ∅ ∅ in
  let s1 := (scheduleOperation demo_hash (mkClock 0 0) "T" [] "f" 3600 [] [] s).2 in
  ∃ s2, schedule_with_deps demo_hash (mkClock 0 0) "T" (utf8 "3") "f" 600 [] s1 =
      (Ok (computeOpId demo_hash "T" [] "f" 3600 [] []), s2) ∧
    (executeOperation (mkClock 120 0) (computeOpId demo_hash "T" [] "f" 3600 [] []) s2).1 = Ok tt.
Proof.
  intros s s1.
  apply (timelock_delay_bypass demo_hash (mkClock 0 0) (mkClock 120 0) "T" [] "f" s _ s1);
    (reflexivity || (split; vm_compute; discriminate) || (vm_compute; discriminate)).
Defined.
