(* ===== verification/Proposals.v ===== *)
(** * Proposal life cycle

    The part of [tools/simulation/src/mock/governor-executor.ts] that other
    contracts read: how a vote is weighed, the quorum, and the state a
    proposal is in at a ledger. *)

From S2P Require Import Prelude SdkErrors Store TokenVotes.

(** ** Integer square root

    The [while] loop of [isqrt]; [None] is a loop cut short by its fuel, which
    [isqrt_sqrt] shows does not happen. *)
Fixpoint isqrt_loop (fuel : nat) (n x y : Z) : option Z :=
  if y <? x then
    match fuel with
    | O => None
    | S fuel' => isqrt_loop fuel' n y ((y + n ÷ᵇ y) ÷ᵇ 2)
    end
  else Some x.

(** The error at least halves in every turn, so one turn per bit is enough. *)
Definition isqrt_fuel (n : Z) : nat := S (Z.to_nat (Z.log2_up n)).

Definition isqrt (n : Z) : Z :=
  if n <=? 0 then 0
  else default 0 (isqrt_loop (isqrt_fuel n) n n ((n + 1) ÷ᵇ 2)).

Definition applyVoteType (voteType : VoteType) (rawWeight : Z) : Z :=
  match voteType with
  | Quadratic => isqrt rawWeight
  | _ => rawWeight
  end.

(** ** States *)
Inductive ProposalStateName :=
  | Pending | Active | Defeated | Succeeded | Queued | Executed | Cancelled | Expired.
#[export] Instance ProposalStateName_eq_dec : EqDecision ProposalStateName.
Proof. solve_decision. Defined.

(** The text of a state in error messages and on the wire. *)
Definition state_name (s : ProposalStateName) : string :=
  match s with
  | Pending => "Pending" | Active => "Active" | Defeated => "Defeated"
  | Succeeded => "Succeeded" | Queued => "Queued" | Executed => "Executed"
  | Cancelled => "Cancelled" | Expired => "Expired"
  end.

Definition computeQuorum (clock : LedgerClock) (proposal : ProposalRecord)
    : M MockLedgerStore Z :=
  store ← get;
  let quorumNumerator := gs_quorumNumerator (g_settings (st_governor store)) in
  if quorumNumerator =? 0 then mret 0
  else
    supply ← on_votes (get_past_total_supply clock (p_startLedger proposal));
    mret ((supply * quorumNumerator) ÷ᵇ 100).

Definition computeProposalState (clock : LedgerClock) (proposal : ProposalRecord)
    : M MockLedgerStore ProposalStateName :=
  if p_cancelled proposal then mret Cancelled
  else if p_executed proposal then mret Executed
  else if p_queued proposal then mret Queued
  else
    let current := sequence clock in
    if current <? p_startLedger proposal then mret Pending
    else if current <=? p_endLedger proposal then mret Active
    else
      quorumReq ← computeQuorum clock proposal;
      let quorumMet := quorumReq <=? p_votesFor proposal + p_votesAbstain proposal in
      let forWins := p_votesAgainst proposal <? p_votesFor proposal in
      if quorumMet && forWins then
        store ← get;
        let graceEnd :=
          p_endLedger proposal + gs_proposalGracePeriod (g_settings (st_governor store)) in
        mret (if graceEnd <? current then Expired else Succeeded)
      else mret Defeated.

(** ** The square root is the floor of the root *)

(** One turn of the loop, from above the root: the error is at least halved. *)
Lemma newton_step n y :
  0 < n → Z.sqrt n < y →
  Z.sqrt n ≤ (y + n ÷ᵇ y) ÷ᵇ 2 ∧
  2 * ((y + n ÷ᵇ y) ÷ᵇ 2 - Z.sqrt n) ≤ y - Z.sqrt n.
Proof.
  intros Hn Hy. pose proof (Z.sqrt_spec n ltac:(lia)) as Hs. cbv zeta in Hs.
  pose proof (Z.sqrt_nonneg n) as H0.
  set (r := Z.sqrt n) in *.
  rewrite (quot_div_nonneg n y) by lia.
  assert (0 ≤ n / y) by (apply Z.div_pos; lia).
  rewrite quot_div_nonneg by lia.
  assert (n / y ≤ r) by (apply Z.lt_succ_r, Z.div_lt_upper_bound; nia).
  split; [|pose proof (Z.mul_div_le (y + n / y) 2); lia].
  apply Z.div_le_lower_bound; [lia|].
  pose proof (Z.mul_succ_div_gt n y). set (q := n / y) in *.
  destruct (decide (2 * r ≤ y + q)) as [|Hlt]; [done|]. exfalso.
  assert (4 * (y * Z.succ q) ≤ (y + Z.succ q) * (y + Z.succ q))
    by (pose proof (Z.square_nonneg (y - Z.succ q)); nia).
  assert ((y + Z.succ q) * (y + Z.succ q) ≤ (2 * r) * (2 * r)) by (apply Z.mul_le_mono_nonneg; lia).
  lia.
Qed.

Lemma isqrt_loop_stop n fuel x y : x ≤ y → isqrt_loop fuel n x y = Some x.
Proof. intros H. apply Z.ltb_ge in H. destruct fuel; cbn [isqrt_loop]; by rewrite H. Qed.

Lemma isqrt_loop_turn n fuel x y :
  y < x → isqrt_loop (S fuel) n x y = isqrt_loop fuel n y ((y + n ÷ᵇ y) ÷ᵇ 2).
Proof. intros H. apply Z.ltb_lt in H. cbn [isqrt_loop]. by rewrite H. Qed.

Lemma isqrt_loop_sqrt n fuel x y :
  0 < n → Z.sqrt n ≤ y → (x ≤ y → x = Z.sqrt n) → y - Z.sqrt n < 2 ^ Z.of_nat fuel →
  isqrt_loop (S fuel) n x y = Some (Z.sqrt n).
Proof.
  intros Hn. revert x y. induction fuel as [|fuel IH]; intros x y Hy Hx Hfuel.
  all: destruct (Z.ltb_spec y x) as [Hlt|Hge];
    [|rewrite isqrt_loop_stop by lia; by rewrite Hx].
  all: rewrite isqrt_loop_turn by done; destruct (decide (y = Z.sqrt n)) as [Hr|Hne].
  1,3: rewrite isqrt_loop_stop; [by f_equal|].
  1,2: pose proof (Z.sqrt_spec n ltac:(lia)) as Hs; cbv zeta in Hs; pose proof (Z.sqrt_nonneg n);
    assert (0 < Z.sqrt n) by (apply Z.sqrt_pos; lia);
    assert (y ≤ n ÷ᵇ y) by (rewrite quot_div_nonneg by lia; apply Z.div_le_lower_bound; nia);
    rewrite (quot_div_nonneg (_ + _)) by lia; apply Z.div_le_lower_bound; lia.
  - cbn in Hfuel. lia.
  - destruct (newton_step n y) as [H1 H2]; [done|lia|].
    apply IH; [done|lia|]. rewrite Nat2Z.inj_succ, Z.pow_succ_r in Hfuel by lia. lia.
Qed.

Lemma isqrt_sqrt n : isqrt n = Z.sqrt n.
Proof.
  unfold isqrt. destruct (Z.leb_spec n 0) as [Hn|Hn].
  { destruct (decide (n = 0)) as [->|]; [done|]. by rewrite Z.sqrt_neg by lia. }
  unfold isqrt_fuel. rewrite isqrt_loop_sqrt; [done|done| | |].
  all: assert (0 < Z.sqrt n) by (apply Z.sqrt_pos; lia).
  all: destruct (decide (n = 1)) as [->|]; [vm_compute; congruence|].
  all: destruct (newton_step n n) as [H1 H2]; [done|by apply Z.sqrt_lt_lin; lia|].
  all: rewrite Z.quot_same in H1, H2 by lia.
  - done.
  - lia.
  - rewrite Z2Nat.id by apply Z.log2_up_nonneg.
    pose proof (Z.log2_up_spec n). pose proof (Z.sqrt_lt_lin n). lia.
Qed.

(** Weighing never gains weight, and no vote is negative. *)
Lemma applyVoteType_bounds vt w : 0 ≤ w → 0 ≤ applyVoteType vt w ≤ w.
Proof.
  intros Hw. destruct vt; cbn; [lia|lia|]. rewrite isqrt_sqrt.
  split; [apply Z.sqrt_nonneg|by apply Z.sqrt_le_lin].
Qed.

(** ** Reading the state changes nothing *)
Lemma get_past_total_supply_reads c L s : (get_past_total_supply c L s).2 = s.
Proof. unfold get_past_total_supply. m_run. by destruct (_ <? _). Qed.

Lemma computeQuorum_run c p s :
  computeQuorum c p s =
  (if gs_quorumNumerator (g_settings (st_governor s)) =? 0 then Ok 0
   else if sequence c <? p_startLedger p
   then Throw (MockContractError 100 "get_past_total_supply: cannot query a future ledger")
   else Ok (supply_at (st_votes s) (p_startLedger p) *
            gs_quorumNumerator (g_settings (st_governor s)) ÷ᵇ 100), s).
Proof.
  unfold computeQuorum. m_run. destruct (_ =? 0); [done|].
  unfold on_votes, get_past_total_supply. m_run.
  destruct (_ <? _); cbn; by destruct s.
Qed.

(** The quorum as a number, for a proposal whose voting has started. *)
Definition quorum_of (s : MockLedgerStore) (p : ProposalRecord) : Z :=
  supply_at (st_votes s) (p_startLedger p) *
    gs_quorumNumerator (g_settings (st_governor s)) ÷ᵇ 100.

Lemma computeQuorum_started c p s :
  p_startLedger p ≤ sequence c → computeQuorum c p s = (Ok (quorum_of s p), s).
Proof.
  intros H. rewrite computeQuorum_run. unfold quorum_of.
  rewrite (proj2 (Z.ltb_ge _ _) H).
  destruct (Z.eqb_spec (gs_quorumNumerator (g_settings (st_governor s))) 0) as [->|]; [|done].
  by rewrite Z.mul_0_r.
Qed.

(** The verdict on a proposal once voting is over. *)
Definition passed (s : MockLedgerStore) (p : ProposalRecord) : bool :=
  (quorum_of s p <=? p_votesFor p + p_votesAbstain p) &&
  (p_votesAgainst p <? p_votesFor p).

Definition proposal_state (c : LedgerClock) (s : MockLedgerStore) (p : ProposalRecord) :
    ProposalStateName :=
  if p_cancelled p then Cancelled
  else if p_executed p then Executed
  else if p_queued p then Queued
  else if sequence c <? p_startLedger p then Pending
  else if sequence c <=? p_endLedger p then Active
  else if passed s p then
    if p_endLedger p + gs_proposalGracePeriod (g_settings (st_governor s)) <? sequence c
    then Expired else Succeeded
  else Defeated.

(** The state is a total function of the ledger, the store and the proposal. *)
Lemma computeProposalState_run c p s :
  computeProposalState c p s = (Ok (proposal_state c s p), s).
Proof.
  unfold computeProposalState, proposal_state.
  destruct (p_cancelled p); [done|]. destruct (p_executed p); [done|].
  destruct (p_queued p); [done|].
  destruct (Z.ltb_spec (sequence c) (p_startLedger p)) as [|Hstart]; [done|].
  destruct (Z.leb_spec (sequence c) (p_endLedger p)); [done|].
  erewrite bind_run by (by apply computeQuorum_started).
  unfold passed. destruct (_ && _); [|done]. m_run. done.
Qed.
