(* ===== verification/ProposalBonds.v ===== *)
(** * Proposal bonds

    [tools/simulation/src/mock/proposal-bonds-executor.ts]: a proposer locks a
    bond under a description hash; it is refunded once the proposal is
    settled, or slashed by the governor.  Bonds move on the voting token's
    balances, the one ledger of tokens the store has. *)

From S2P Require Import Prelude SdkErrors Store TokenVotes Proposals.

(** A description hash, as bytes or as hexadecimal text. *)
Inductive HashArg := HashBytes (b : bytes) | HashText (s : string).

(** [toLowerCase] on the ASCII text a hash is. *)
Fixpoint to_lower (s : string) : string :=
  match s with
  | EmptyString => EmptyString
  | String c s' => String (ascii_lower c) (to_lower s')
  end.

Definition hashKey (descriptionHash : HashArg) : string :=
  match descriptionHash with
  | HashText s => to_lower s
  | HashBytes b => to_hex b
  end.

Definition requireSigner (caller signer : string) : M MockLedgerStore unit :=
  throw_if (negb (String.eqb caller signer)) (PlainError "not authorized").

Definition mustGetBond (key : string) : M MockLedgerStore ProposalBondRecord :=
  store ← get;
  unwrap (pbs_bonds (st_proposalBonds store) !! key)
    (MockContractError (ProposalBondsErrorCode.num ProposalBondsErrorCode.BondNotFound)
       ("bond " +:+ key +:+ " not found")).

Definition transfer (from to : string) (amount : Z) : M MockLedgerStore unit :=
  store ← get;
  let fromBalance := default 0 (tv_balances (st_votes store) !! from) in
  throw_if (fromBalance <? amount) (PlainError "insufficient balance");;
  modify (set_balance from (fromBalance - amount));;
  store ← get;
  modify (set_balance to (default 0 (tv_balances (st_votes store) !! to) + amount)).

Definition set_bond (key : string) (b : ProposalBondRecord) (s : MockLedgerStore) :
    MockLedgerStore :=
  s <| st_proposalBonds ::= λ p, p <| pbs_bonds ::= <[key := b]> |> |>.

(** [bond.state = state] on the record in the map. *)
Definition set_bond_state (key : string) (st : ProposalBondLifecycle) (s : MockLedgerStore) :
    MockLedgerStore :=
  s <| st_proposalBonds ::= λ p, p <| pbs_bonds ::= alter (λ b, b <| pb_state := st |>) key |> |>.

Definition lock_bond (clock : LedgerClock) (caller proposer : string)
    (descriptionHash : HashArg) : M MockLedgerStore unit :=
  requireSigner caller proposer;;
  let key := hashKey descriptionHash in
  store ← get;
  throw_if (bool_decide (is_Some (pbs_bonds (st_proposalBonds store) !! key)))
    (MockContractError (ProposalBondsErrorCode.num ProposalBondsErrorCode.BondAlreadyLocked)
       "lock_bond: bond already locked for this description hash");;
  let bondAmount := pbs_bondAmount (st_proposalBonds store) in
  throw_if (bondAmount <=? 0)
    (MockContractError (ProposalBondsErrorCode.num ProposalBondsErrorCode.NotInitialized)
       "lock_bond: invalid bond amount");;
  transfer proposer (a_proposalBonds (st_addresses store)) bondAmount;;
  modify (set_bond key (mkBond proposer key bondAmount (sequence clock) Locked)).

Definition is_terminal (st : ProposalStateName) : bool :=
  match st with Executed | Defeated | Expired | Cancelled => true | _ => false end.

(** The checks of a refund before the maximum lock is over. *)
Definition refund_allowed (clock : LedgerClock) (key : string) (proposalId : Z)
    : M MockLedgerStore unit :=
  store ← get;
  proposal ← unwrap (g_proposals (st_governor store) !! proposalId)
    (MockContractError (GovernorErrorCode.num GovernorErrorCode.ProposalNotFound)
       ("refund_bond: proposal " +:+ decimal proposalId +:+ " not found"));
  throw_if (negb (String.eqb (p_descriptionHash proposal) key))
    (MockContractError (ProposalBondsErrorCode.num ProposalBondsErrorCode.DescriptionHashMismatch)
       "refund_bond: proposal description hash does not match this bond");;
  st ← computeProposalState clock proposal;
  throw_if (negb (is_terminal st))
    (MockContractError (ProposalBondsErrorCode.num ProposalBondsErrorCode.ProposalNotTerminal)
       ("refund_bond: proposal " +:+ decimal proposalId +:+ " is not terminal (state "
          +:+ state_name st +:+ ")"));;
  throw_if (sequence clock <?
      p_endLedger proposal + pbs_refundGraceLedgers (st_proposalBonds store))
    (MockContractError (ProposalBondsErrorCode.num ProposalBondsErrorCode.RefundGraceNotElapsed)
       "refund_bond: refund grace window has not elapsed").

Definition refund_bond (clock : LedgerClock) (caller refundCaller : string)
    (descriptionHash : HashArg) (proposalId : Z) : M MockLedgerStore unit :=
  requireSigner caller refundCaller;;
  let key := hashKey descriptionHash in
  bond ← mustGetBond key;
  throw_if (bool_decide (pb_state bond ≠ Locked))
    (MockContractError (ProposalBondsErrorCode.num ProposalBondsErrorCode.BondNotLocked)
       "refund_bond: bond is not locked");;
  store ← get;
  let pastMaxLock :=
    pb_lockedLedger bond + pbs_maxLockLedgers (st_proposalBonds store) <=? sequence clock in
  (if pastMaxLock then mret tt else refund_allowed clock key proposalId);;
  transfer (a_proposalBonds (st_addresses store)) (pb_proposer bond) (pb_amount bond);;
  modify (set_bond_state key Refunded).

Definition slash (caller slashCaller : string) (descriptionHash : HashArg) (recipient : string)
    : M MockLedgerStore unit :=
  requireSigner caller slashCaller;;
  store ← get;
  throw_if (negb (String.eqb slashCaller (pbs_governor (st_proposalBonds store))))
    (MockContractError (ProposalBondsErrorCode.num ProposalBondsErrorCode.NotAuthorized)
       "slash: only the governor may slash a bond");;
  let key := hashKey descriptionHash in
  bond ← mustGetBond key;
  throw_if (bool_decide (pb_state bond ≠ Locked))
    (MockContractError (ProposalBondsErrorCode.num ProposalBondsErrorCode.BondNotLocked)
       "slash: bond is not locked");;
  transfer (a_proposalBonds (st_addresses store)) recipient (pb_amount bond);;
  modify (set_bond_state key Slashed).

Definition get_bond (descriptionHash : HashArg) : M MockLedgerStore (option ProposalBondRecord) :=
  gets (λ s, pbs_bonds (st_proposalBonds s) !! hashKey descriptionHash).

(** [bondToken], [bondAmount], [governor], [refundGraceLedgers], [maxLockLedgers]. *)
Definition bonds_get_settings : M MockLedgerStore (string * Z * string * Z * Z) :=
  gets (λ s, let p := st_proposalBonds s in
    (pbs_bondToken p, pbs_bondAmount p, pbs_governor p, pbs_refundGraceLedgers p,
     pbs_maxLockLedgers p)).

Lemma transfer_run from to x s :
  transfer from to x s =
  if balance_of s from <? x then (Throw (PlainError "insufficient balance"), s)
  else (Ok tt, with_balances (move from to x) s).
Proof.
  unfold transfer, balance_of. m_run. destruct (_ <? x); [done|]. cbn.
  unfold set_balance, with_balances, move. cbn. done.
Qed.

(** ** What the calls do *)


(** The store a successful transfer and its bookkeeping leave; [P] holds of
    the proposers that lock. *)
Inductive bond_effect (P : string → Prop) (s : MockLedgerStore) : MockLedgerStore → Prop :=
  | effect_none : bond_effect P s s
  | effect_lock clock proposer key :
    P proposer →
    pbs_bonds (st_proposalBonds s) !! key = None →
    0 < pbs_bondAmount (st_proposalBonds s) ≤ balance_of s proposer →
    bond_effect P s
      (set_bond key (mkBond proposer key (pbs_bondAmount (st_proposalBonds s)) (sequence clock) Locked)
        (with_balances (move proposer (a_proposalBonds (st_addresses s))
           (pbs_bondAmount (st_proposalBonds s))) s))
  | effect_release key bond recipient st :
    pbs_bonds (st_proposalBonds s) !! key = Some bond → pb_state bond = Locked → st ≠ Locked →
    pb_amount bond ≤ balance_of s (a_proposalBonds (st_addresses s)) →
    bond_effect P s
      (set_bond_state key st
        (with_balances (move (a_proposalBonds (st_addresses s)) recipient (pb_amount bond)) s)).

Lemma transfer_wp from to x s (Q : unit → MockLedgerStore → Prop) E :
  (balance_of s from < x → E (PlainError "insufficient balance") s) →
  (x ≤ balance_of s from → Q tt (with_balances (move from to x) s)) →
  wp (transfer from to x) Q E s.
Proof.
  intros HE HQ. unfold wp. rewrite transfer_run.
  destruct (Z.ltb_spec (balance_of s from) x); auto.
Qed.

Lemma refund_allowed_reads clock key proposalId s : (refund_allowed clock key proposalId s).2 = s.
Proof.
  unfold refund_allowed. m_run. destruct (_ !! proposalId) as [p|]; [|done]. m_run.
  destruct (negb (String.eqb _ _)); [done|]. m_run. rewrite computeProposalState_run.
  destruct (negb _); [done|]. m_run. by destruct (_ <? _).
Qed.

Lemma refund_allowed_wp clock key proposalId s (Q : unit → MockLedgerStore → Prop) E :
  (∀ e, E e s) → Q tt s → wp (refund_allowed clock key proposalId) Q E s.
Proof.
  intros HE HQ. apply wp_intro. intros o s' H.
  assert (s' = s) as -> by (by rewrite <- (refund_allowed_reads clock key proposalId s), H).
  destruct o as [[]|]; auto.
Qed.

Lemma lock_bond_wp P clock caller proposer h s :
  P proposer →
  wp (lock_bond clock caller proposer h) (λ _ s', bond_effect P s s') (λ _ s', s' = s) s.
Proof.
  intros HP. unfold lock_bond, requireSigner. wp_go; try done.
  apply transfer_wp; [done|]. intros Hbal. rewrite wp_modify.
  apply effect_lock; [done| |lia].
  apply bool_decide_eq_false in H0. by destruct (_ !! _) eqn:?; [destruct H0; eexists|].
Qed.

Lemma refund_bond_wp P clock caller rc h pid s :
  wp (refund_bond clock caller rc h pid) (λ _ s', bond_effect P s s') (λ _ s', s' = s) s.
Proof.
  unfold refund_bond, requireSigner, mustGetBond. wp_go; try done.
  2: apply refund_allowed_wp; [done|]; wp_go.
  all: apply transfer_wp; [done|]; intros Hbal; rewrite wp_modify;
    match goal with H : bool_decide _ = false |- _ => apply bool_decide_eq_false, dec_stable in H end;
    by apply effect_release.
Qed.

Lemma slash_wp P caller sc h r s :
  wp (slash caller sc h r) (λ _ s', bond_effect P s s') (λ _ s', s' = s) s.
Proof.
  unfold slash, requireSigner, mustGetBond. wp_go; try done.
  apply transfer_wp; [done|]. intros Hbal. rewrite wp_modify.
  match goal with H : bool_decide _ = false |- _ => apply bool_decide_eq_false, dec_stable in H end.
  by apply effect_release.
Qed.

(** ** Histories *)
Inductive bond_call :=
  | BLock (caller proposer : string) (h : HashArg)
  | BRefund (caller refundCaller : string) (h : HashArg) (proposalId : Z)
  | BSlash (caller slashCaller : string) (h : HashArg) (recipient : string).

Definition bond_run (clock : LedgerClock) (c : bond_call) : M MockLedgerStore unit :=
  match c with
  | BLock caller p h => lock_bond clock caller p h
  | BRefund caller rc h pid => refund_bond clock caller rc h pid
  | BSlash caller sc h r => slash caller sc h r
  end.

Lemma bond_run_effect (P : string → Prop) clock c s :
  (∀ caller p h, c = BLock caller p h → P p) → bond_effect P s (bond_run clock c s).2.
Proof.
  intros HP.
  assert (wp (bond_run clock c) (λ _ s', bond_effect P s s') (λ _ s', s' = s) s) as H.
  { destruct c; [apply lock_bond_wp; eauto|apply refund_bond_wp|apply slash_wp]. }
  unfold wp in H. destruct (bond_run clock c s) as [[] s']; [done|].
  subst s'. apply effect_none.
Qed.

(** A bond call, or a step of the rest of the system: it may do anything to
    the store but touch the bonds, the addresses, or take from the balance of
    the bonds contract, which only that contract can spend. *)
Inductive bond_step (s s' : MockLedgerStore) : Prop :=
  | step_call clock c :
    (∀ caller p h, c = BLock caller p h → p ≠ a_proposalBonds (st_addresses s)) →
    s' = (bond_run clock c s).2 → bond_step s s'
  | step_env :
    pbs_bonds (st_proposalBonds s') = pbs_bonds (st_proposalBonds s) →
    st_addresses s' = st_addresses s →
    balance_of s (a_proposalBonds (st_addresses s)) ≤
      balance_of s' (a_proposalBonds (st_addresses s)) →
    bond_step s s'.

Definition locked_amount (_ : string) (b : ProposalBondRecord) : Z :=
  match pb_state b with Locked => pb_amount b | _ => 0 end.

Record bonds_solvent (s : MockLedgerStore) : Prop := {
  bsv_amounts : ∀ k b, pbs_bonds (st_proposalBonds s) !! k = Some b → 0 < pb_amount b;
  bsv_covered : map_sum locked_amount (pbs_bonds (st_proposalBonds s)) ≤
    balance_of s (a_proposalBonds (st_addresses s));
}.

Lemma locked_sum_alter m key bond st :
  m !! key = Some bond → pb_state bond = Locked → st ≠ Locked →
  map_sum locked_amount (alter (λ b, b <| pb_state := st |>) key m) =
  map_sum locked_amount m - pb_amount bond.
Proof.
  intros Hk Hl Hst. rewrite (map_sum_alter _ _ _ _ bond Hk). unfold locked_amount. cbn.
  rewrite Hl. destruct st; [done|lia|lia].
Qed.

Lemma set_bond_state_bonds key st s f :
  pbs_bonds (st_proposalBonds (set_bond_state key st (with_balances f s))) =
  alter (λ b, b <| pb_state := st |>) key (pbs_bonds (st_proposalBonds s)).
Proof. done. Qed.
Lemma set_bond_state_balance key st s a : balance_of (set_bond_state key st s) a = balance_of s a.
Proof. done. Qed.

Lemma bond_call_solvent clock c s :
  (∀ caller p h, c = BLock caller p h → p ≠ a_proposalBonds (st_addresses s)) →
  bonds_solvent s → bonds_solvent (bond_run clock c s).2.
Proof.
  intros Hc Hs. destruct (bond_run_effect (λ p, p ≠ a_proposalBonds (st_addresses s)) clock c s Hc)
    as [|clock' p key Hp Hkey Hpos|key bond r st Hkey Hl Hst Hbal]; [done| |];
    destruct Hs as [Ha Hcov]; split.
  - cbn. intros k b. destruct (decide (k = key)) as [->|].
    + rewrite lookup_insert_eq. intros [= <-]. cbn. lia.
    + rewrite lookup_insert_ne by done. apply Ha.
  - cbn [set_bond st_proposalBonds st_addresses]. unfold set_bond. cbn -[with_balances balance_of].
    rewrite map_sum_insert_new by done. cbn.
    change (balance_of _ ?a) with
      (balance_of (with_balances (move p a (pbs_bondAmount (st_proposalBonds s))) s) a).
    rewrite balance_move, decide_False, decide_True by done. lia.
  - cbn. intros k b. rewrite lookup_alter_Some. intros [(-> & b' & Hb & ->)|[_ Hb]].
    + exact (Ha _ _ Hb).
    + exact (Ha _ _ Hb).
  - rewrite set_bond_state_bonds, set_bond_state_balance, (locked_sum_alter _ _ bond) by done.
    change (st_addresses (set_bond_state _ _ (with_balances _ s))) with (st_addresses s).
    rewrite balance_move, decide_True by done.
    pose proof (Ha _ _ Hkey). destruct (decide _); lia.
Qed.

Lemma bond_step_solvent s s' : bond_step s s' → bonds_solvent s → bonds_solvent s'.
Proof.
  intros [clock c Hc ->|Hb Haddr Hbal] Hs; [by apply bond_call_solvent|].
  destruct Hs as [Ha Hcov]. split; rewrite Hb; [done|]. rewrite Haddr. lia.
Qed.

Lemma bond_history_solvent s s' : rtc bond_step s s' → bonds_solvent s → bonds_solvent s'.
Proof. induction 1; eauto using bond_step_solvent. Qed.

(** One locked bond is covered. *)
Lemma solvent_covers s key bond :
  bonds_solvent s → pbs_bonds (st_proposalBonds s) !! key = Some bond → pb_state bond = Locked →
  pb_amount bond ≤ balance_of s (a_proposalBonds (st_addresses s)).
Proof.
  intros [Ha Hcov] Hk Hl. etrans; [|exact Hcov].
  etrans; [|apply (map_sum_at_le locked_amount _ key bond); [|done]].
  - unfold locked_amount. by rewrite Hl.
  - intros k b Hb. specialize (Ha _ _ Hb). unfold locked_amount. destruct (pb_state b); lia.
Qed.

(** ** Properties *)

(** No call of the bonds contract creates or destroys tokens: the sum of
    all balances is the same after [lock_bond], [refund_bond] and [slash],
    whether they return or throw. *)
Theorem bond_calls_conserve_tokens clock c s :
  total_balance (bond_run clock c s).2 = total_balance s.
Proof.
  destruct (bond_run_effect (λ _, True) clock c s) as [| |]; [done|done| |].
  all: unfold total_balance; cbn; apply map_sum_transfer.
Qed.

(** C13: the contract always holds what it owes.  From a store without bonds,
    along every history of bond calls and of any other activity that does not
    spend the contract's own balance, the bonds still locked add up to no more
    than that balance, and each of them was locked for a positive amount.  (The
    contract itself never signs a [lock_bond].) *)
Theorem bonds_always_covered s0 s :
  pbs_bonds (st_proposalBonds s0) = ∅ →
  0 ≤ balance_of s0 (a_proposalBonds (st_addresses s0)) →
  rtc bond_step s0 s →
  bonds_solvent s.
Proof.
  intros Hnone Hbal Hsteps. eapply bond_history_solvent; [exact Hsteps|].
  split; rewrite Hnone; [by intros k b; rewrite lookup_empty|]. by rewrite map_sum_empty.
Qed.

Module Examples.
Import StoreExamples.
Definition locked : MockLedgerStore :=
  (bond_run (clk 7) (BLock "alice" "alice" (HashText "AB")) store).2.
Definition refunded : MockLedgerStore :=
  (bond_run (clk 107) (BRefund "bob" "bob" (HashText "ab") 1) locked).2.

(** The proposal the bond was for, cancelled by its proposer. *)
Definition cancelled_proposal : ProposalRecord :=
  mkProposal 1 "alice" "text" "ab" "uri" ["t"] ["f"] [[]] 10 20 0 0 0 false true false [] ∅.
Definition with_proposal : MockLedgerStore :=
  locked <| st_governor ::= λ g, g <| g_proposals ::= <[1 := cancelled_proposal]> |> |>.

Lemma locked_step : bond_step store locked.
Proof. refine (step_call _ _ (clk 7) (BLock "alice" "alice" (HashText "AB")) _ eq_refl). by intros ??? [= <- <- <-]. Qed.
End Examples.

Lemma bonds_always_covered_witness :
  bonds_solvent Examples.locked ∧
  map_sum locked_amount (pbs_bonds (st_proposalBonds Examples.locked)) = 10.
Proof.
  split; [|vm_compute; reflexivity].
  apply (bonds_always_covered StoreExamples.store Examples.locked).
  - reflexivity.
  - vm_compute; discriminate.
  - apply rtc_once, Examples.locked_step.
Defined.

(** No bond is stuck.  In every reachable store, once [maxLockLedgers]
    have passed since a bond was locked, [refund_bond] by anyone, naming any
    proposal, returns, marks the bond refunded and pays its amount to its
    proposer out of the contract's balance. *)
Theorem bond_refundable_after_max_lock s0 s clock caller h pid bond :
  pbs_bonds (st_proposalBonds s0) = ∅ →
  0 ≤ balance_of s0 (a_proposalBonds (st_addresses s0)) →
  rtc bond_step s0 s →
  pbs_bonds (st_proposalBonds s) !! hashKey h = Some bond →
  pb_state bond = Locked →
  pb_lockedLedger bond + pbs_maxLockLedgers (st_proposalBonds s) ≤ sequence clock →
  ∃ s', refund_bond clock caller caller h pid s = (Ok tt, s') ∧
    pbs_bonds (st_proposalBonds s') !! hashKey h = Some (bond <| pb_state := Refunded |>) ∧
    ∀ a, balance_of s' a = balance_of s a
      - (if decide (a = a_proposalBonds (st_addresses s)) then pb_amount bond else 0)
      + (if decide (a = pb_proposer bond) then pb_amount bond else 0).
Proof.
  intros Hnone Hbal Hsteps Hkey Hl Hlock.
  assert (bonds_solvent s) as Hs.
  { eapply bond_history_solvent; [exact Hsteps|].
    split; rewrite Hnone; [by intros k b; rewrite lookup_empty|]. by rewrite map_sum_empty. }
  pose proof (solvent_covers _ _ _ Hs Hkey Hl) as Hcov.
  unfold refund_bond, requireSigner, mustGetBond. rewrite String.eqb_refl. m_run. cbn.
  rewrite Hkey. cbn. rewrite bool_decide_false by (by intros []). cbn.
  rewrite (proj2 (Z.leb_le _ _) Hlock). m_run.
  rewrite transfer_run, (proj2 (Z.ltb_ge _ _) Hcov).
  eexists. split; [reflexivity|]. split.
  - rewrite set_bond_state_bonds, lookup_alter_eq, Hkey. done.
  - intros a. rewrite set_bond_state_balance. apply balance_move.
Qed.

Lemma bond_refundable_after_max_lock_witness :
  (∃ s', refund_bond (StoreExamples.clk 107) "bob" "bob" (HashText "ab") 1 Examples.locked =
           (Ok tt, s') ∧
     pbs_bonds (st_proposalBonds s') !! hashKey (HashText "ab") =
       Some (mkBond "alice" "ab" 10 7 Refunded) ∧
     ∀ a, balance_of s' a = balance_of Examples.locked a
      - (if decide (a = "bonds") then 10 else 0) + (if decide (a = "alice") then 10 else 0)).
Proof.
  refine (bond_refundable_after_max_lock StoreExamples.store Examples.locked (StoreExamples.clk 107)
    "bob" (HashText "ab") 1 (mkBond "alice" "ab" 10 7 Locked) _ _ _ _ _ _).
  - reflexivity.
  - vm_compute; discriminate.
  - apply rtc_once, Examples.locked_step.
  - reflexivity.
  - reflexivity.
  - vm_compute; discriminate.
Defined.

Lemma bond_step_settled s s' key bond :
  bond_step s s' → pbs_bonds (st_proposalBonds s) !! key = Some bond → pb_state bond ≠ Locked →
  pbs_bonds (st_proposalBonds s') !! key = Some bond.
Proof.
  intros [clock c _ ->|Hb _ _] Hk Hst; [|by rewrite Hb].
  destruct (bond_run_effect (λ _, True) clock c s)
    as [|clock' p key' _ Hkey'|key' bond' r st Hkey' Hl]; [done|done| |].
  - cbn. rewrite lookup_insert_ne by congruence. done.
  - rewrite set_bond_state_bonds, lookup_alter_ne by congruence. done.
Qed.

(** A bond is settled once.  When it has been refunded or slashed, then
    along every further history its record stays as it is, and every attempt
    to refund or slash it, or to lock a bond under its hash again, throws and
    changes nothing. *)
Theorem settled_bond_is_final s s' key bond clock caller x r h pid :
  pbs_bonds (st_proposalBonds s) !! key = Some bond → pb_state bond ≠ Locked →
  rtc bond_step s s' → hashKey h = key →
  pbs_bonds (st_proposalBonds s') !! key = Some bond ∧
  (∃ e, refund_bond clock caller x h pid s' = (Throw e, s')) ∧
  (∃ e, slash caller x h r s' = (Throw e, s')) ∧
  (∃ e, lock_bond clock caller x h s' = (Throw e, s')).
Proof.
  intros Hk Hst Hsteps Hkey.
  assert (pbs_bonds (st_proposalBonds s') !! key = Some bond) as Hk'.
  { induction Hsteps as [|s s1 s' Hstep _ IH]; [done|]. by eapply IH, bond_step_settled. }
  split; [done|]. unfold refund_bond, slash, lock_bond, requireSigner, mustGetBond. m_run.
  destruct (negb (String.eqb caller x)); cbn; [by split_and!; eexists|]. rewrite Hkey, Hk'. cbn.
  rewrite (bool_decide_true (pb_state bond ≠ Locked)) by done. cbn. split_and!; [by eexists| |].
  - destruct (negb _); cbn; [by eexists|]. rewrite Hk'. cbn.
    rewrite bool_decide_true by done. by eexists.
  - by eexists.
Qed.

Lemma settled_bond_is_final_witness :
  ∃ e, slash "gov" "gov" (HashText "aB") "eve" Examples.refunded = (Throw e, Examples.refunded).
Proof.
  refine (proj1 (proj2 (proj2 (settled_bond_is_final Examples.refunded Examples.refunded "ab"
    (mkBond "alice" "ab" 10 7 Refunded) (StoreExamples.clk 0) "gov" "gov" "eve" (HashText "aB") 0 _ _ _ _)))).
  - reflexivity.
  - discriminate.
  - apply rtc_refl.
  - reflexivity.
Defined.

Lemma is_terminal_spec st : is_terminal st = true ↔ st ∈ [Executed; Defeated; Expired; Cancelled].
Proof. rewrite !elem_of_cons, elem_of_nil. destruct st; cbn; naive_solver. Qed.

(** Who gets a refund before the maximum lock.  [refund_bond] returns
    exactly when the caller signed, the bond is locked, the named proposal
    exists and carries the bond's description hash, it is in a terminal state,
    and the grace window after its voting is over.  Otherwise it throws.  (The
    contract's balance covers the bond: see the theorem above.) *)
Theorem refund_before_max_lock_iff s clock caller rc h pid bond :
  pbs_bonds (st_proposalBonds s) !! hashKey h = Some bond →
  sequence clock < pb_lockedLedger bond + pbs_maxLockLedgers (st_proposalBonds s) →
  pb_amount bond ≤ balance_of s (a_proposalBonds (st_addresses s)) →
  (refund_bond clock caller rc h pid s).1 = Ok tt ↔
  caller = rc ∧ pb_state bond = Locked ∧
  ∃ p, g_proposals (st_governor s) !! pid = Some p ∧
    p_descriptionHash p = hashKey h ∧
    proposal_state clock s p ∈ [Executed; Defeated; Expired; Cancelled] ∧
    p_endLedger p + pbs_refundGraceLedgers (st_proposalBonds s) ≤ sequence clock.
Proof.
  intros Hkey Hlock Hcov.
  unfold refund_bond, requireSigner, mustGetBond. m_run.
  destruct (String.eqb_spec caller rc) as [->|]; cbn; [|naive_solver].
  rewrite Hkey. cbn. case_bool_decide; cbn; [naive_solver|].
  rewrite (proj2 (Z.leb_gt _ _) Hlock). unfold refund_allowed. m_run.
  destruct (g_proposals (st_governor s) !! pid) as [p|]; cbn.
  2: { split; [done|]. by intros (_ & _ & p & [=] & _). }
  destruct (String.eqb_spec (p_descriptionHash p) (hashKey h)) as [|Hh]; cbn.
  2: { split; [done|]. by intros (_ & _ & p' & [= <-] & Hh' & _). }
  rewrite computeProposalState_run. cbn.
  destruct (is_terminal (proposal_state clock s p)) eqn:Ht; cbn.
  2: { split; [done|]. intros (_ & _ & p' & [= <-] & _ & Hin & _).
       apply is_terminal_spec in Hin. by rewrite Hin in Ht. }
  apply is_terminal_spec in Ht.
  destruct (Z.ltb_spec (sequence clock) (p_endLedger p + pbs_refundGraceLedgers (st_proposalBonds s)));
    cbn.
  { split; [done|]. intros (_ & _ & p' & [= <-] & _ & _ & ?). lia. }
  rewrite transfer_run, (proj2 (Z.ltb_ge _ _) Hcov). cbn. split; [intros _|done].
  split; [done|]. split; [(done || by apply dec_stable)|]. by exists p.
Qed.

Lemma refund_before_max_lock_iff_witness :
  (refund_bond (StoreExamples.clk 25) "alice" "alice" (HashText "ab") 1 Examples.with_proposal).1 =
    Ok tt.
Proof.
  refine (proj2 (refund_before_max_lock_iff Examples.with_proposal (StoreExamples.clk 25) "alice" "alice"
    (HashText "ab") 1 (mkBond "alice" "ab" 10 7 Locked) _ _ _) _).
  - reflexivity.
  - reflexivity.
  - vm_compute; discriminate.
  - split; [reflexivity|]. split; [reflexivity|]. exists Examples.cancelled_proposal.
    split; [reflexivity|]. split; [reflexivity|]. split; [|vm_compute; discriminate].
    apply (bool_decide_unpack _). vm_compute. exact I.
Defined.
