(* ===== verification/Governor.v ===== *)
(** * The governor

    [tools/simulation/src/mock/governor-executor.ts]: proposals are created,
    voted on, queued in the timelock and executed.  [sha256] is the hash of the
    runtime's crypto library, and [scValToNative] the decoder of the Stellar
    SDK that reads the arguments of a queued call; both are parameters. *)

From S2P Require Import Prelude SdkErrors Store TokenVotes Timelock Proposals ProposalBonds.

(** ** Creating proposals *)

(** [Math.floor(current / duration)] as the text of a template: the quotient
    of two integers below 2^53 never rounds up to the next integer, and the
    division by zero is a non-finite number. *)
Definition period_text (current duration : Z) : string :=
  if duration =? 0 then
    if current =? 0 then "NaN" else if current <? 0 then "-Infinity" else "Infinity"
  else decimal (current / duration).

Definition proposal_period_key (proposer : string) (current duration : Z) : string :=
  proposer +:+ ":" +:+ period_text current duration.

Definition governor_error (c : GovernorErrorCode.t) (message : string) : JsError :=
  MockContractError (GovernorErrorCode.num c) message.

Definition on_governor (f : GovernorState → GovernorState) (s : MockLedgerStore) :
    MockLedgerStore :=
  s <| st_governor ::= f |>.

(** [proposal.field = ...] on the record the map holds. *)
Definition update_proposal (id : Z) (f : ProposalRecord → ProposalRecord) :
    MockLedgerStore → MockLedgerStore :=
  on_governor (λ g, g <| g_proposals ::= alter f id |>).

Definition createProposal (clock : LedgerClock) (proposer description : string)
    (descriptionHash : bytes) (metadataUri : string) (targets fnNames : list string)
    (calldatas : list bytes) (checkThreshold : bool) : M MockLedgerStore Z :=
  store ← get;
  let gov := st_governor store in
  let settings := g_settings gov in
  throw_if (gs_isPaused settings)
    (governor_error GovernorErrorCode.ContractPaused "propose: contract is paused");;
  throw_if (negb (length targets =? length fnNames)%nat ||
            negb (length targets =? length calldatas)%nat)
    (governor_error GovernorErrorCode.InvalidVectorLengths "propose: length mismatch");;
  throw_if (length targets =? 0)%nat
    (governor_error GovernorErrorCode.NoTargets "propose: no targets");;
  throw_if (existsb (λ calldata, gs_maxCalldataSize settings <? Z.of_nat (length calldata)) calldatas)
    (governor_error GovernorErrorCode.CalldataTooLarge "propose: calldata exceeds maximum size");;
  throw_if (10 <? length calldatas)%nat
    (governor_error GovernorErrorCode.TooManyCalldataEntries "propose: too many calldata entries");;
  votes ← on_votes (get_votes proposer);
  throw_if (checkThreshold && (votes <? gs_proposalThreshold settings))
    (governor_error GovernorErrorCode.ProposalThresholdNotMet
       "propose: proposal threshold not met");;
  let current := sequence clock in
  let lastProposalLedger := g_lastProposalLedger gov !! proposer in
  throw_if (match lastProposalLedger with
            | Some l => current <? l + gs_proposalCooldown settings
            | None => false
            end)
    (governor_error GovernorErrorCode.ProposalRateLimited "propose: proposer is in cooldown");;
  let periodKey := proposal_period_key proposer current (gs_proposalPeriodDuration settings) in
  let proposalsInPeriod := default 0 (g_proposalsInPeriod gov !! periodKey) in
  throw_if (gs_maxProposalsPerPeriod settings <=? proposalsInPeriod)
    (governor_error GovernorErrorCode.ProposalRateLimited
       "propose: max proposals per period reached");;
  let id := g_proposalCount gov + 1 in
  let proposal :=
    mkProposal id proposer description (to_hex descriptionHash) metadataUri targets fnNames
      calldatas (current + gs_votingDelay settings)
      (current + gs_votingDelay settings + gs_votingPeriod settings)
      0 0 0 false false false [] ∅ in
  modify (on_governor (λ g, g <| g_proposals ::= <[id := proposal]> |>));;
  modify (on_governor (λ g, g <| g_proposalCount := id |>));;
  modify (on_governor (λ g, g <| g_lastProposalLedger ::= <[proposer := current]> |>));;
  modify (on_governor (λ g, g <| g_proposalsInPeriod ::= <[periodKey := proposalsInPeriod + 1]> |>));;
  mret id.

Definition mustGetProposal (id : Z) : M MockLedgerStore ProposalRecord :=
  store ← get;
  unwrap (g_proposals (st_governor store) !! id)
    (governor_error GovernorErrorCode.ProposalNotFound
       ("proposal " +:+ decimal id +:+ " not found")).

(** ** Calls into the bonds contract *)

(** What [scValToNative] makes of an argument. *)
Inductive native := NString (s : string) | NBytes (b : bytes) | NBigInt (n : Z) | NOther.

Definition native_hash (a : native) : option HashArg :=
  match a with
  | NString s => Some (HashText s)
  | NBytes b => Some (HashBytes b)
  | _ => None
  end.

Definition type_error : JsError := PlainError "TypeError".

(** [proposalBondsExecutor[fnName]], applied to the decoded arguments the way
    the handler's cast reads them; arguments of another shape end in an
    exception.  Names that only [Object.prototype] has are left out. *)
Definition bonds_handler (fnName : string) :
    option (LedgerClock → string → list native → M MockLedgerStore unit) :=
  if String.eqb fnName "lock_bond" then
    Some (λ clock caller args,
      match args with
      | NString proposer :: h :: _ =>
        match native_hash h with
        | Some h => lock_bond clock caller proposer h
        | None => throw type_error
        end
      | _ => throw type_error
      end)
  else if String.eqb fnName "refund_bond" then
    Some (λ clock caller args,
      match args with
      | NString refundCaller :: h :: NBigInt proposalId :: _ =>
        match native_hash h with
        | Some h => refund_bond clock caller refundCaller h proposalId
        | None => throw type_error
        end
      | _ => throw type_error
      end)
  else if String.eqb fnName "slash" then
    Some (λ clock caller args,
      match args with
      | NString slashCaller :: h :: NString recipient :: _ =>
        match native_hash h with
        | Some h => slash caller slashCaller h recipient
        | None => throw type_error
        end
      | _ => throw type_error
      end)
  else if String.eqb fnName "get_bond" then
    Some (λ clock caller args,
      match args with
      | h :: _ =>
        match native_hash h with
        | Some h => get_bond h;; mret tt
        | None => throw type_error
        end
      | _ => throw type_error
      end)
  else if String.eqb fnName "get_settings" then
    Some (λ clock caller args, bonds_get_settings;; mret tt)
  else None.

Definition dispatchProposalBondsAction (scValToNative : bytes → outcome (list native))
    (clock : LedgerClock) (proposal : ProposalRecord) : M MockLedgerStore unit :=
  store ← get;
  let op :=
    match p_opIds proposal with
    | EmptyString :: _ | [] => None
    | opId :: _ => tl_operations (st_timelock store) !! opId
    end in
  match op with
  | None => mret tt
  | Some op =>
    if negb (String.eqb (op_target op) (a_proposalBonds (st_addresses store))) then mret tt
    else
      match bonds_handler (op_fnName op) with
      | None =>
        throw (PlainError ("execute: unknown proposal-bonds action " +:+ op_fnName op))
      | Some handler =>
        match scValToNative (op_data op) with
        | Throw e => throw e
        | Ok args => handler clock (a_governor (st_addresses store)) args
        end
      end
  end.

(** ** The executor *)
Module GovernorExecutor.

Definition propose (clock : LedgerClock) (caller proposer description : string)
    (descriptionHash : bytes) (metadataUri : string) (targets fnNames : list string)
    (calldatas : list bytes) : M MockLedgerStore Z :=
  throw_if (negb (String.eqb caller proposer))
    (MockContractError 100 "propose: proposer must authorize this call");;
  createProposal clock proposer description descriptionHash metadataUri targets fnNames
    calldatas true.

Definition propose_via_registry (clock : LedgerClock) (caller registry proposer description : string)
    (descriptionHash : bytes) (metadataUri : string) (targets fnNames : list string)
    (calldatas : list bytes) : M MockLedgerStore Z :=
  store ← get;
  throw_if (negb (String.eqb caller (a_coSponsorship (st_addresses store))) ||
            negb (String.eqb registry caller))
    (MockContractError 100 "propose_via_registry: unauthorized registry");;
  createProposal clock proposer description descriptionHash metadataUri targets fnNames
    calldatas false.

(** The tally a vote of [weight] leaves. *)
Definition count_vote (support : string) (weight : Z) (p : ProposalRecord) : ProposalRecord :=
  if 0 <? weight then
    if String.eqb support "For" then p <| p_votesFor ::= λ v, v + weight |>
    else if String.eqb support "Against" then p <| p_votesAgainst ::= λ v, v + weight |>
    else if String.eqb support "Abstain" then p <| p_votesAbstain ::= λ v, v + weight |>
    else p
  else p.

Definition cast_vote (clock : LedgerClock) (caller voter : string) (proposalId : Z)
    (support : string) : M MockLedgerStore unit :=
  throw_if (negb (String.eqb caller voter))
    (MockContractError 100 "cast_vote: voter must authorize this call");;
  store ← get;
  let settings := g_settings (st_governor store) in
  throw_if (gs_isPaused settings)
    (governor_error GovernorErrorCode.ContractPaused "cast_vote: contract is paused");;
  proposal ← mustGetProposal proposalId;
  throw_if (default false (p_hasVoted proposal !! voter))
    (governor_error GovernorErrorCode.AlreadyVoted "cast_vote: already voted");;
  let voteType := gs_voteType settings in
  throw_if (bool_decide (voteType = Simple) && String.eqb support "Abstain")
    (governor_error GovernorErrorCode.InvalidSupport
       "cast_vote: abstain not allowed for Simple vote type");;
  let current := sequence clock in
  throw_if (p_cancelled proposal || p_executed proposal || p_queued proposal ||
            (current <? p_startLedger proposal) || (p_endLedger proposal <? current))
    (governor_error GovernorErrorCode.ProposalNotActive "cast_vote: proposal is not active");;
  rawWeight ← on_votes (get_past_votes clock voter (p_startLedger proposal));
  let weight := applyVoteType voteType rawWeight in
  modify (update_proposal proposalId (count_vote support weight));;
  modify (update_proposal proposalId (λ p, p <| p_hasVoted ::= <[voter := true]> |>)).

Definition queue (sha256 : bytes → bytes) (clock : LedgerClock) (proposalId : Z)
    : M MockLedgerStore unit :=
  proposal ← mustGetProposal proposalId;
  state ← computeProposalState clock proposal;
  throw_if (bool_decide (state = Expired))
    (governor_error GovernorErrorCode.ProposalExpired "queue: proposal expired");;
  throw_if (bool_decide (state ≠ Succeeded))
    (governor_error GovernorErrorCode.ProposalNotSucceeded "queue: proposal not succeeded");;
  requiredQuorum ← computeQuorum clock proposal;
  let quorumMet := requiredQuorum <=? p_votesFor proposal + p_votesAbstain proposal in
  let forWins := p_votesAgainst proposal <? p_votesFor proposal in
  throw_if (negb quorumMet || negb forWins)
    (governor_error GovernorErrorCode.ProposalNotSucceeded "queue: quorum/majority not met");;
  match p_targets proposal, p_calldatas proposal, p_fnNames proposal with
  | target :: _, calldata :: _, fnName :: _ =>
    store ← get;
    let delay := tl_minDelay (st_timelock store) in
    opId ← on_timelock (scheduleOperation sha256 clock target calldata fnName delay [] []);
    modify (update_proposal proposalId (λ p, p <| p_opIds := [opId] |>));;
    modify (update_proposal proposalId (λ p, p <| p_queued := true |>));;
    modify (on_governor (λ g, g <| g_queueTime ::= <[proposalId := sequence clock]> |>))
  | [], _, _ =>
    throw (governor_error GovernorErrorCode.NoTargets "queue: no targets")
  | _, _, _ => throw type_error
  end.

Definition execute (scValToNative : bytes → outcome (list native)) (clock : LedgerClock)
    (proposalId : Z) : M MockLedgerStore unit :=
  proposal ← mustGetProposal proposalId;
  state ← computeProposalState clock proposal;
  throw_if (bool_decide (state ≠ Queued))
    (governor_error GovernorErrorCode.ProposalNotQueued "execute: proposal not queued");;
  throw_if (p_executed proposal)
    (governor_error GovernorErrorCode.ProposalAlreadyExecuted "execute: already executed");;
  opId ← unwrap (head (p_opIds proposal))
    (governor_error GovernorErrorCode.MissingOpIds "execute: missing op ids");
  on_timelock (executeOperation clock opId);;
  dispatchProposalBondsAction scValToNative clock proposal;;
  modify (update_proposal proposalId (λ p, p <| p_executed := true |>)).

Definition cancel (clock : LedgerClock) (caller cancelCaller : string) (proposalId : Z)
    : M MockLedgerStore unit :=
  throw_if (negb (String.eqb caller cancelCaller))
    (MockContractError 100 "cancel: caller must authorize this call");;
  proposal ← mustGetProposal proposalId;
  state ← computeProposalState clock proposal;
  store ← get;
  let guardian := gs_guardian (g_settings (st_governor store)) in
  let canCancel :=
    (String.eqb cancelCaller (p_proposer proposal) && bool_decide (state = Pending)) ||
    (String.eqb cancelCaller guardian && bool_decide (state = Active)) in
  throw_if (negb canCancel)
    (governor_error GovernorErrorCode.UnauthorizedCancel "cancel: unauthorized");;
  modify (update_proposal proposalId (λ p, p <| p_cancelled := true |>)).

Definition cancel_queued (clock : LedgerClock) (caller cancelCaller : string) (proposalId : Z)
    : M MockLedgerStore unit :=
  throw_if (negb (String.eqb caller cancelCaller))
    (MockContractError 100 "cancel_queued: caller must authorize this call");;
  proposal ← mustGetProposal proposalId;
  throw_if (negb (p_queued proposal) || p_cancelled proposal)
    (governor_error GovernorErrorCode.ProposalNotQueued "cancel_queued: proposal not queued");;
  store ← get;
  let guardian := gs_guardian (g_settings (st_governor store)) in
  throw_if (negb (String.eqb cancelCaller guardian))
    (governor_error GovernorErrorCode.UnauthorizedGuardian "cancel_queued: only guardian may veto");;
  queueTime ← unwrap (g_queueTime (st_governor store) !! proposalId)
    (governor_error GovernorErrorCode.ProposalNotQueued "cancel_queued: missing queue time");
  let delayLedgers := to_number (tl_minDelay (st_timelock store)) / SECONDS_PER_LEDGER in
  let vetoWindowEndLedger := queueTime + delayLedgers in
  throw_if (vetoWindowEndLedger <=? sequence clock)
    (governor_error GovernorErrorCode.VetoWindowClosed "cancel_queued: veto window closed");;
  modify (update_proposal proposalId (λ p, p <| p_cancelled := true |>));;
  map_m (λ opId, on_timelock (cancelOperation opId)) (p_opIds proposal);;
  mret tt.

Definition state (clock : LedgerClock) (proposalId : Z) : M MockLedgerStore ProposalStateName :=
  proposal ← mustGetProposal proposalId;
  computeProposalState clock proposal.

Definition get_settings : M MockLedgerStore GovernorSettingsState :=
  gets (λ s, g_settings (st_governor s)).

Definition get_proposal (proposalId : Z) : M MockLedgerStore ProposalRecord :=
  mustGetProposal proposalId.

Definition get_quorum (clock : LedgerClock) (proposalId : Z) : M MockLedgerStore Z :=
  proposal ← mustGetProposal proposalId;
  computeQuorum clock proposal.

Definition is_quorum_reached (clock : LedgerClock) (proposalId : Z) : M MockLedgerStore bool :=
  proposal ← mustGetProposal proposalId;
  requiredQuorum ← computeQuorum clock proposal;
  mret (requiredQuorum <=? p_votesFor proposal + p_votesAbstain proposal).

Definition proposal_threshold : M MockLedgerStore Z :=
  gets (λ s, gs_proposalThreshold (g_settings (st_governor s))).

Definition proposal_votes (proposalId : Z) : M MockLedgerStore (Z * Z * Z) :=
  proposal ← mustGetProposal proposalId;
  mret (p_votesFor proposal, p_votesAgainst proposal, p_votesAbstain proposal).

Definition has_voted (proposalId : Z) (voter : string) : M MockLedgerStore bool :=
  proposal ← mustGetProposal proposalId;
  mret (default false (p_hasVoted proposal !! voter)).

Definition proposal_count : M MockLedgerStore Z := gets (λ s, g_proposalCount (st_governor s)).

Definition set_paused (b : bool) : MockLedgerStore → MockLedgerStore :=
  on_governor (λ g, g <| g_settings ::= λ t, t <| gs_isPaused := b |> |>).

Definition pause (caller : string) : M MockLedgerStore unit :=
  store ← get;
  throw_if (negb (String.eqb caller (gs_pauser (g_settings (st_governor store)))))
    (governor_error GovernorErrorCode.UnauthorizedPause "pause: only pauser can pause");;
  modify (set_paused true).

Definition unpause (caller : string) : M MockLedgerStore unit :=
  store ← get;
  throw_if (negb (String.eqb caller (gs_pauser (g_settings (st_governor store)))))
    (governor_error GovernorErrorCode.UnauthorizedPause "unpause: only pauser can unpause");;
  modify (set_paused false).
End GovernorExecutor.

(** ** What a call does to the store *)
Inductive gov_call :=
  | GPropose (caller proposer description : string) (descriptionHash : bytes)
      (metadataUri : string) (targets fnNames : list string) (calldatas : list bytes)
  | GRegistry (caller registry proposer description : string) (descriptionHash : bytes)
      (metadataUri : string) (targets fnNames : list string) (calldatas : list bytes)
  | GVote (caller voter : string) (proposalId : Z) (support : string)
  | GQueue (proposalId : Z)
  | GExecute (proposalId : Z)
  | GCancel (caller cancelCaller : string) (proposalId : Z)
  | GCancelQueued (caller cancelCaller : string) (proposalId : Z)
  | GPause (caller : string)
  | GUnpause (caller : string).

Section calls.
Context (sha256 : bytes → bytes) (scValToNative : bytes → outcome (list native)).

Definition gov_run (clock : LedgerClock) (c : gov_call) : M MockLedgerStore unit :=
  match c with
  | GPropose caller p d h u ts fs ds =>
    GovernorExecutor.propose clock caller p d h u ts fs ds;; mret tt
  | GRegistry caller r p d h u ts fs ds =>
    GovernorExecutor.propose_via_registry clock caller r p d h u ts fs ds;; mret tt
  | GVote caller v id sup => GovernorExecutor.cast_vote clock caller v id sup
  | GQueue id => GovernorExecutor.queue sha256 clock id
  | GExecute id => GovernorExecutor.execute scValToNative clock id
  | GCancel caller cc id => GovernorExecutor.cancel clock caller cc id
  | GCancelQueued caller cc id => GovernorExecutor.cancel_queued clock caller cc id
  | GPause caller => GovernorExecutor.pause caller
  | GUnpause caller => GovernorExecutor.unpause caller
  end.
End calls.

(** The record and the store that [createProposal] makes. *)
Definition new_proposal (clock : LedgerClock) (s : MockLedgerStore) (proposer description : string)
    (descriptionHash : bytes) (metadataUri : string) (targets fnNames : list string)
    (calldatas : list bytes) : ProposalRecord :=
  let gov := st_governor s in
  mkProposal (g_proposalCount gov + 1) proposer description (to_hex descriptionHash) metadataUri
    targets fnNames calldatas (sequence clock + gs_votingDelay (g_settings gov))
    (sequence clock + gs_votingDelay (g_settings gov) + gs_votingPeriod (g_settings gov))
    0 0 0 false false false [] ∅.

Definition period_key (clock : LedgerClock) (s : MockLedgerStore) (proposer : string) : string :=
  proposal_period_key proposer (sequence clock)
    (gs_proposalPeriodDuration (g_settings (st_governor s))).

Definition proposals_in_period (clock : LedgerClock) (s : MockLedgerStore) (proposer : string) : Z :=
  default 0 (g_proposalsInPeriod (st_governor s) !! period_key clock s proposer).

Definition add_proposal (clock : LedgerClock) (p : ProposalRecord) (s : MockLedgerStore) :
    MockLedgerStore :=
  on_governor (λ g, g
    <| g_proposals ::= <[p_id p := p]> |>
    <| g_proposalCount := p_id p |>
    <| g_lastProposalLedger ::= <[p_proposer p := sequence clock]> |>
    <| g_proposalsInPeriod ::=
         <[period_key clock s (p_proposer p) := proposals_in_period clock s (p_proposer p) + 1]> |>) s.

Definition cooled_down (clock : LedgerClock) (s : MockLedgerStore) (proposer : string) : Prop :=
  ∀ l, g_lastProposalLedger (st_governor s) !! proposer = Some l →
    l + gs_proposalCooldown (g_settings (st_governor s)) ≤ sequence clock.

(** What a vote adds, and what it leaves on the record. *)
Definition vote_weight (s : MockLedgerStore) (L : Z) (voter : string) : Z :=
  applyVoteType (gs_voteType (g_settings (st_governor s))) (votes_at (st_votes s) L voter).

Definition voted (s : MockLedgerStore) (support voter : string) (p : ProposalRecord) :
    ProposalRecord :=
  (GovernorExecutor.count_vote support (vote_weight s (p_startLedger p) voter) p)
    <| p_hasVoted ::= <[voter := true]> |>.

(** Everything but the bonds and the token balances is the same. *)
Record bonds_frame (s s' : MockLedgerStore) : Prop := {
  bf_governor : st_governor s' = st_governor s;
  bf_timelock : st_timelock s' = st_timelock s;
  bf_addresses : st_addresses s' = st_addresses s;
  bf_checkpoints : tv_checkpoints (st_votes s') = tv_checkpoints (st_votes s);
  bf_supply : tv_totalSupplyCheckpoints (st_votes s') = tv_totalSupplyCheckpoints (st_votes s);
  bf_delegates : tv_delegates (st_votes s') = tv_delegates (st_votes s);
}.

#[export] Instance bonds_frame_refl : Reflexive bonds_frame.
Proof. done. Qed.

Lemma bond_effect_frame P s s' : bond_effect P s s' → bonds_frame s s'.
Proof. by destruct 1. Qed.

Lemma bonds_handler_frame name handler clock caller args s :
  bonds_handler name = Some handler → bonds_frame s (handler clock caller args s).2.
Proof.
  assert (∀ c, bonds_frame s (bond_run clock c s).2) as Hrun.
  { intros c. eapply (bond_effect_frame (λ _, True)), bond_run_effect. done. }
  unfold bonds_handler.
  destruct (String.eqb name "lock_bond"); [|destruct (String.eqb name "refund_bond");
    [|destruct (String.eqb name "slash"); [|destruct (String.eqb name "get_bond");
    [|destruct (String.eqb name "get_settings"); [|done]]]]]; intros [= <-].
  all: repeat case_match; try done.
  - apply (Hrun (BLock caller _ _)).
  - apply (Hrun (BRefund caller _ _ _)).
  - apply (Hrun (BSlash caller _ _ _)).
Qed.

Lemma dispatch_frame dec clock p s : bonds_frame s (dispatchProposalBondsAction dec clock p s).2.
Proof.
  unfold dispatchProposalBondsAction. m_run.
  destruct (match p_opIds p with | EmptyString :: _ | [] => None | opId :: _ => _ end) as [op|];
    [|done].
  destruct (negb _); [done|]. destruct (bonds_handler (op_fnName op)) eqn:Hh; [|done].
  destruct (dec (op_data op)); [|done]. by eapply bonds_handler_frame.
Qed.

(** The operations of a timelock, changed by flags only. *)
Record timelock_evolves (t t' : TimelockState) : Prop := {
  te_delay : tl_minDelay t' = tl_minDelay t;
  te_window : tl_executionWindow t' = tl_executionWindow t;
  te_ops : ∀ id op, tl_operations t !! id = Some op →
    ∃ op', tl_operations t' !! id = Some op' ∧ op_evolves op op';
}.
#[export] Instance timelock_evolves_preorder : PreOrder timelock_evolves.
Proof.
  split; [split; [done|done|]; intros id op Hop; by exists op|].
  intros x y z [H1 H2 H3] [K1 K2 K3]. split; [congruence|congruence|].
  intros id op Hop. destruct (H3 _ _ Hop) as (op1 & Hop1 & He).
  destruct (K3 _ _ Hop1) as (op2 & Hop2 & He2). exists op2. split; [done|by etrans].
Qed.

Lemma cancelOperation_evolves opId t : timelock_evolves t (cancelOperation opId t).2.
Proof.
  split.
  1-2: rewrite cancelOperation_run; by repeat case_match.
  intros id op Hop. by apply (exec_evolves (λ b, b) (mkClock 0 0) (TCancel opId)).
Qed.
Lemma executeOperation_evolves clock opId t :
  timelock_evolves t (executeOperation clock opId t).2.
Proof.
  split.
  1-2: rewrite executeOperation_run; by repeat case_match.
  intros id op Hop. by apply (exec_evolves (λ b, b) clock (TExecute opId)).
Qed.

Definition set_timelock (t : TimelockState) (s : MockLedgerStore) : MockLedgerStore :=
  s <| st_timelock := t |>.

Inductive gov_effect (clock : LedgerClock) (s : MockLedgerStore) : MockLedgerStore → Prop :=
  | ge_same : gov_effect clock s s
  | ge_pause b : gov_effect clock s (GovernorExecutor.set_paused b s)
  | ge_create proposer d h u ts fs ds :
    let p := new_proposal clock s proposer d h u ts fs ds in
    cooled_down clock s proposer →
    proposals_in_period clock s proposer <
      gs_maxProposalsPerPeriod (g_settings (st_governor s)) →
    gov_effect clock s (add_proposal clock p s)
  | ge_vote id p voter support :
    g_proposals (st_governor s) !! id = Some p →
    p_hasVoted p !! voter ≠ Some true →
    proposal_state clock s p = Active →
    gov_effect clock s (update_proposal id (voted s support voter) s)
  | ge_queue id p opId op :
    g_proposals (st_governor s) !! id = Some p →
    proposal_state clock s p = Succeeded →
    op_readyAt op = num_add (timestamp clock) (to_number (tl_minDelay (st_timelock s))) →
    gov_effect clock s
      (on_governor (λ g, g
         <| g_proposals ::= alter (λ p, p <| p_opIds := [opId] |> <| p_queued := true |>) id |>
         <| g_queueTime ::= <[id := sequence clock]> |>)
         (set_timelock ((st_timelock s) <| tl_operations ::= <[opId := op]> |>) s))
  | ge_execute id p opId op t s2 (done : bool) :
    g_proposals (st_governor s) !! id = Some p →
    proposal_state clock s p = Queued →
    head (p_opIds p) = Some opId →
    tl_operations (st_timelock s) !! opId = Some op →
    op_readyAt op ≤ timestamp clock →
    timelock_evolves (st_timelock s) t →
    bonds_frame (set_timelock t s) s2 →
    gov_effect clock s
      (if done then update_proposal id (λ p, p <| p_executed := true |>) s2 else s2)
  | ge_cancel id p :
    g_proposals (st_governor s) !! id = Some p →
    (proposal_state clock s p = Pending ∨ proposal_state clock s p = Active) →
    gov_effect clock s (update_proposal id (λ p, p <| p_cancelled := true |>) s)
  | ge_veto id p q t :
    g_proposals (st_governor s) !! id = Some p →
    p_queued p = true → p_cancelled p = false →
    g_queueTime (st_governor s) !! id = Some q →
    sequence clock < q + to_number (tl_minDelay (st_timelock s)) / SECONDS_PER_LEDGER →
    timelock_evolves (st_timelock s) t →
    gov_effect clock s
      (update_proposal id (λ p, p <| p_cancelled := true |>) (set_timelock t s)).

(** A call and its result, thrown or not, is one of these effects. *)
Notation has_effect clock m s :=
  (wp m (λ _, gov_effect clock s) (λ _, gov_effect clock s) s).

Lemma createProposal_effect clock proposer d h u ts fs ds b s :
  has_effect clock (createProposal clock proposer d h u ts fs ds b) s.
Proof.
  unfold createProposal. wp_go. all: try apply ge_same.
  eapply wp_read; [by apply on_votes_read|]. wp_go. all: try apply ge_same.
  match goal with |- gov_effect _ _ ?s' =>
    replace s' with (add_proposal clock (new_proposal clock s proposer d h u ts fs ds) s) by done end.
  apply ge_create.
  - intros l Hl. match goal with H : match _ with Some _ => _ | None => _ end = false |- _ =>
      rewrite Hl in H; by apply Z.ltb_ge in H end.
  - unfold proposals_in_period, period_key. by apply Z.leb_gt.
Qed.

Lemma mustGetProposal_wp id s (Q : ProposalRecord → MockLedgerStore → Prop) E :
  (∀ e, E e s) → (∀ p, g_proposals (st_governor s) !! id = Some p → Q p s) →
  wp (mustGetProposal id) Q E s.
Proof. intros HE HQ. unfold mustGetProposal. wp_go; [apply HE|by apply HQ]. Qed.

Lemma computeProposalState_wp clock p s (Q : ProposalStateName → MockLedgerStore → Prop) E :
  Q (proposal_state clock s p) s → wp (computeProposalState clock p) Q E s.
Proof. intros HQ. unfold wp. by rewrite computeProposalState_run. Qed.

Lemma update_proposal_compose id f g s :
  update_proposal id f (update_proposal id g s) = update_proposal id (λ p, f (g p)) s.
Proof.
  unfold update_proposal, on_governor. cbn. do 2 f_equal. apply alter_compose.
Qed.
Lemma update_proposal_ext id p f g s :
  g_proposals (st_governor s) !! id = Some p → f p = g p →
  update_proposal id f s = update_proposal id g s.
Proof.
  intros Hp Hfg. unfold update_proposal, on_governor. cbn. do 2 f_equal.
  apply alter_ext. intros x Hx. by simplify_map_eq.
Qed.

Lemma proposal_state_started clock s p :
  proposal_state clock s p = Active → p_startLedger p ≤ sequence clock ≤ p_endLedger p.
Proof.
  unfold proposal_state. destruct (p_cancelled p), (p_executed p), (p_queued p); try done.
  destruct (Z.ltb_spec (sequence clock) (p_startLedger p)); [done|].
  destruct (Z.leb_spec (sequence clock) (p_endLedger p)); [done|]. by repeat case_match.
Qed.

Lemma proposal_state_succeeded clock s p :
  proposal_state clock s p = Succeeded →
  p_cancelled p = false ∧ p_executed p = false ∧ p_queued p = false ∧
  p_startLedger p ≤ sequence clock ∧ p_endLedger p < sequence clock ∧ passed s p = true ∧
  sequence clock ≤ p_endLedger p + gs_proposalGracePeriod (g_settings (st_governor s)).
Proof.
  unfold proposal_state. destruct (p_cancelled p), (p_executed p), (p_queued p); try done.
  destruct (Z.ltb_spec (sequence clock) (p_startLedger p)); [done|].
  destruct (Z.leb_spec (sequence clock) (p_endLedger p)); [done|].
  destruct (passed s p); [|done].
  destruct (Z.ltb_spec (p_endLedger p + gs_proposalGracePeriod (g_settings (st_governor s)))
    (sequence clock)); [done|]. naive_solver lia.
Qed.

Lemma proposal_state_queued clock s p :
  proposal_state clock s p = Queued →
  p_cancelled p = false ∧ p_executed p = false ∧ p_queued p = true.
Proof.
  unfold proposal_state. destruct (p_cancelled p), (p_executed p), (p_queued p); try done.
  by repeat case_match.
Qed.

Lemma vote_window clock s p :
  p_cancelled p || p_executed p || p_queued p || (sequence clock <? p_startLedger p)
    || (p_endLedger p <? sequence clock) = (if decide (proposal_state clock s p = Active) then false else true).
Proof.
  unfold proposal_state. destruct (p_cancelled p), (p_executed p), (p_queued p); try done.
  cbn. destruct (sequence clock <? p_startLedger p); [done|]. rewrite Z.leb_antisym.
  destruct (p_endLedger p <? sequence clock); cbn; [|done]. by repeat case_match.
Qed.

Lemma cast_vote_effect clock caller voter id sup s :
  has_effect clock (GovernorExecutor.cast_vote clock caller voter id sup) s.
Proof.
  unfold GovernorExecutor.cast_vote. wp_go; try apply ge_same.
  apply mustGetProposal_wp; [intros; apply ge_same|]. intros p Hp.
  wp_go; try apply ge_same.
  match goal with H : _ || _ = false |- _ =>
    pose proof H as Hwin; rewrite (vote_window clock s) in Hwin end.
  destruct (decide _) as [Hact|]; [|done].
  pose proof (proposal_state_started _ _ _ Hact) as [Hstart _].
  eapply wp_read; [by apply on_votes_read, get_past_votes_run|]. wp_go.
  rewrite update_proposal_compose.
  rewrite (update_proposal_ext id p _ (voted s sup voter)) by done.
  eapply ge_vote; [done| |done]. by destruct (p_hasVoted p !! voter) as [[]|].
Qed.

Lemma scheduleOperation_min_run sha256 clock t d f s :
  ∃ opId op, op_readyAt op = num_add (timestamp clock) (to_number (tl_minDelay s)) ∧
    scheduleOperation sha256 clock t d f (tl_minDelay s) [] [] s =
    (Ok opId, s <| tl_operations ::= <[opId := op]> |>).
Proof.
  unfold scheduleOperation. m_run. rewrite Z.ltb_irrefl.
  eexists _, (mkOp t f d _ _ false false None). split; [|reflexivity]. done.
Qed.

Lemma queue_effect sha256 clock id s :
  has_effect clock (GovernorExecutor.queue sha256 clock id) s.
Proof.
  unfold GovernorExecutor.queue. wp_go.
  apply mustGetProposal_wp; [intros; apply ge_same|]. intros p Hp. wp_go.
  apply computeProposalState_wp. wp_go; try apply ge_same.
  case_bool_decide as Hstate; [done|].
  assert (proposal_state clock s p = Succeeded) as Hsucc by (done || by apply dec_stable).
  pose proof (proposal_state_succeeded _ _ _ Hsucc) as (_ & _ & _ & Hstart & _).
  eapply wp_read; [by apply computeQuorum_started|]. wp_go; try apply ge_same.
  destruct (p_targets p) as [|target ?]; [wp_go; apply ge_same|].
  destruct (p_calldatas p) as [|data ?]; [wp_go; apply ge_same|].
  destruct (p_fnNames p) as [|fn ?]; [wp_go; apply ge_same|].
  unfold on_timelock. wp_go.
  destruct (scheduleOperation_min_run sha256 clock target data fn (st_timelock s))
    as (opId & op & Hready & Hrun).
  eapply wp_intro. rewrite Hrun. intros o t [= <- <-]. wp_go.
  rewrite update_proposal_compose. by eapply (ge_queue clock s id p opId op).
Qed.

Lemma execute_effect dec clock id s :
  has_effect clock (GovernorExecutor.execute dec clock id) s.
Proof.
  unfold GovernorExecutor.execute. wp_go.
  apply mustGetProposal_wp; [intros; apply ge_same|]. intros p Hp. wp_go.
  apply computeProposalState_wp. wp_go; try apply ge_same.
  case_bool_decide as Hstate; [done|].
  assert (proposal_state clock s p = Queued) as Hq by (done || by apply dec_stable).
  unfold on_timelock. wp_go. destruct (executeOperation clock a (st_timelock s)) as [o t] eqn:Hex.
  assert (timelock_evolves (st_timelock s) t) as Ht
    by (change t with (o, t).2; rewrite <- Hex; apply executeOperation_evolves).
  eapply wp_intro. rewrite Hex. intros o' t' [= <- <-]. destruct o as [[]|e].
  2:{ apply execute_throw_inv in Hex as ->. replace (s <| st_timelock := _ |>) with s by (by destruct s).
      apply ge_same. }
  apply execute_ok_inv in Hex as (op & Hop & _ & _ & [Hready _] & _).
  assert (head (p_opIds p) = Some a) as Hhead by done.
  rewrite wp_bind. eapply wp_intro. intros o s2 Hdisp.
  pose proof (dispatch_frame dec clock p (set_timelock t s)) as Hframe.
  unfold set_timelock in Hframe at 2. rewrite Hdisp in Hframe. cbn in Hframe.
  destruct o as [[]|e]; wp_go.
  - by eapply (ge_execute clock s id p a op t s2 true).
  - by eapply (ge_execute clock s id p a op t s2 false).
Qed.

Lemma cancel_effect clock caller cc id s :
  has_effect clock (GovernorExecutor.cancel clock caller cc id) s.
Proof.
  unfold GovernorExecutor.cancel. wp_go; try apply ge_same.
  apply mustGetProposal_wp; [intros; apply ge_same|]. intros p Hp. wp_go.
  apply computeProposalState_wp. wp_go; try apply ge_same.
  eapply ge_cancel; [done|].
  match goal with H : negb _ = false |- _ => apply negb_false_iff, orb_true_iff in H as [H|H];
    apply andb_true_iff in H as [_ H]; apply bool_decide_eq_true in H end; auto.
Qed.

(** The loop over the operations, ended or cut short by a throw. *)
Lemma cancel_ops_wp ids s (Q : list unit → MockLedgerStore → Prop) E :
  (∀ us t, timelock_evolves (st_timelock s) t → Q us (set_timelock t s)) →
  (∀ e t, timelock_evolves (st_timelock s) t → E e (set_timelock t s)) →
  wp (map_m (λ opId, on_timelock (cancelOperation opId)) ids) Q E s.
Proof.
  revert s Q. induction ids as [|id ids IH]; intros s Q HQ HE; cbn [map_m]; wp_go.
  { replace s with (set_timelock (st_timelock s) s) by (by destruct s). apply HQ. done. }
  unfold on_timelock at 1. wp_go.
  pose proof (cancelOperation_evolves id (st_timelock s)) as Hev.
  eapply wp_intro. intros [u|e] t Hc; rewrite Hc in Hev; cbn in Hev; [|by apply HE].
  wp_go. apply IH; intros; wp_go; [apply HQ|apply HE]; by etrans.
Qed.

Lemma cancel_queued_effect clock caller cc id s :
  has_effect clock (GovernorExecutor.cancel_queued clock caller cc id) s.
Proof.
  unfold GovernorExecutor.cancel_queued. wp_go; try apply ge_same.
  apply mustGetProposal_wp; [intros; apply ge_same|]. intros p Hp. wp_go; try apply ge_same.
  match goal with H : negb _ || _ = false |- _ =>
    apply orb_false_iff in H as [?%negb_false_iff ?] end.
  match goal with H : (_ <=? _) = false |- _ => apply Z.leb_gt in H end.
  apply cancel_ops_wp; intros; wp_go; by eapply ge_veto.
Qed.

Section call_effects.
Context (sha256 : bytes → bytes) (dec : bytes → outcome (list native)).

Lemma gov_run_effect clock c s : gov_effect clock s (gov_run sha256 dec clock c s).2.
Proof.
  assert (has_effect clock (gov_run sha256 dec clock c) s) as H.
  { destruct c; cbn [gov_run].
    - wp_go. unfold GovernorExecutor.propose. wp_go; [apply ge_same|].
      eapply wp_mono; [apply createProposal_effect|intros; by wp_go|done].
    - wp_go. unfold GovernorExecutor.propose_via_registry. wp_go; [apply ge_same|].
      eapply wp_mono; [apply createProposal_effect|intros; by wp_go|done].
    - apply cast_vote_effect.
    - apply queue_effect.
    - apply execute_effect.
    - apply cancel_effect.
    - apply cancel_queued_effect.
    - unfold GovernorExecutor.pause. wp_go; [apply ge_same|apply ge_pause].
    - unfold GovernorExecutor.unpause. wp_go; [apply ge_same|apply ge_pause]. }
  unfold wp in H. by destruct (gov_run _ _ _ _ _) as [[] ?].
Qed.
End call_effects.
