(* ===== verification/GovernorVotes.v ===== *)
(** * Tallies and rate limits of the governor

    What accumulates over a history of the governor: the votes on a proposal
    are the snapshot weights of the accounts that voted, each counted at most
    once, and no proposer exceeds the cooldown and the quota per period. *)

From S2P Require Import Prelude SdkErrors Store TokenVotes Timelock Proposals ProposalBonds.
From S2P Require Import Governor GovernorSafety.
Import GovernorExecutor (cast_vote).

(** ** Tallies *)

(** The tally of a proposal, over all three options. *)
Definition tally (p : ProposalRecord) : Z := p_votesFor p + p_votesAgainst p + p_votesAbstain p.

(** The weight of everyone who has voted, read at the snapshot of the proposal. *)
Definition voters_weight (s : MockLedgerStore) (p : ProposalRecord) : Z :=
  map_sum (λ a _, Z.max 0 (vote_weight s (p_startLedger p) a)) (p_hasVoted p).

Record tally_ok (c : LedgerClock) (s : MockLedgerStore) (p : ProposalRecord) : Prop := {
  to_sum : tally p ≤ voters_weight s p;
  to_voters : ∀ a b, p_hasVoted p !! a = Some b → b = true;
  to_started : p_hasVoted p ≠ ∅ → p_startLedger p ≤ sequence c;
  to_for : 0 ≤ p_votesFor p;
  to_against : 0 ≤ p_votesAgainst p;
  to_abstain : 0 ≤ p_votesAbstain p;
}.

(** A step at which no checkpoint is written in the very ledger that a vote
    already cast was weighed at, and token balances stay non-negative. *)
Definition quiet_step sha256 dec (w w' : world) : Prop :=
  world_step sha256 dec w w' ∧
  map_Forall (λ _ x, 0 ≤ x) (tv_balances (st_votes w'.2)) ∧
  (tv_checkpoints (st_votes w'.2) = tv_checkpoints (st_votes w.2) ∨
   ∀ id p, g_proposals (st_governor w.2) !! id = Some p → p_hasVoted p ≠ ∅ →
     p_startLedger p < sequence w.1).

Record tallies_inv (w : world) : Prop := {
  ti_votes : votes_wf (sequence w.1) (st_votes w.2);
  ti_tallies : ∀ id p, g_proposals (st_governor w.2) !! id = Some p → tally_ok w.1 w.2 p;
}.

Lemma count_vote_fields support w p :
  let p' := GovernorExecutor.count_vote support w p in
  tally p' ≤ tally p + Z.max 0 w ∧ p_hasVoted p' = p_hasVoted p ∧
  p_startLedger p' = p_startLedger p ∧ p_votesFor p ≤ p_votesFor p' ∧
  p_votesAgainst p ≤ p_votesAgainst p' ∧ p_votesAbstain p ≤ p_votesAbstain p'.
Proof.
  intros p'. subst p'. unfold GovernorExecutor.count_vote, tally.
  destruct (Z.ltb_spec 0 w); [|split_and!; (lia || done)].
  repeat case_match; cbn; split_and!; (lia || done).
Qed.

(** The record kept, or a new one without votes, in a world with the same
    snapshots. *)
Lemma tally_ok_mono c s c' s' p p' :
  tally_ok c s p → sequence c ≤ sequence c' →
  (p_startLedger p', p_votesFor p', p_votesAgainst p', p_votesAbstain p', p_hasVoted p') =
  (p_startLedger p, p_votesFor p, p_votesAgainst p, p_votesAbstain p, p_hasVoted p) →
  gs_voteType (g_settings (st_governor s')) = gs_voteType (g_settings (st_governor s)) →
  (p_hasVoted p ≠ ∅ → ∀ a, votes_at (st_votes s') (p_startLedger p) a =
     votes_at (st_votes s) (p_startLedger p) a) →
  tally_ok c' s' p'.
Proof.
  intros [Hsum Hv Hst H1 H2 H3] Hseq [= E1 E2 E3 E4 E5] Hvt Hsnap.
  split; unfold tally, voters_weight in *; rewrite ?E1, ?E2, ?E3, ?E4, ?E5; try done.
  - destruct (decide (p_hasVoted p = ∅)) as [He|Hne].
    + rewrite He in *. by rewrite !map_sum_empty in *.
    + erewrite map_sum_ext; [exact Hsum|]. intros a x _. cbn. unfold vote_weight.
      by rewrite Hvt, Hsnap.
  - intros Hne. specialize (Hst Hne). lia.
Qed.

Lemma updated_tallies (w w' : world) id f :
  g_proposals (st_governor w'.2) = alter f id (g_proposals (st_governor w.2)) →
  (∀ i p, g_proposals (st_governor w.2) !! i = Some p → tally_ok w'.1 w'.2 p) →
  (∀ p, g_proposals (st_governor w.2) !! id = Some p → tally_ok w'.1 w'.2 (f p)) →
  ∀ i p, g_proposals (st_governor w'.2) !! i = Some p → tally_ok w'.1 w'.2 p.
Proof.
  intros -> Hall Hid i p. rewrite lookup_alter_Some. intros [(-> & x & Hx & ->)|[? ?]]; eauto.
Qed.

(** One more voter adds at most their weight. *)
Lemma voted_tally c s support voter p :
  tally_ok c s p → p_hasVoted p !! voter ≠ Some true → p_startLedger p ≤ sequence c →
  tally_ok c s (voted s support voter p).
Proof.
  intros [Hsum Hv Hst H1 H2 H3] Hnew Hstart.
  set (w := vote_weight s (p_startLedger p) voter).
  destruct (count_vote_fields support w p) as (Ht & Eh & Es & Hf & Ha & Hb).
  assert (p_hasVoted p !! voter = None) as Hnone.
  { destruct (p_hasVoted p !! voter) as [b|] eqn:Hb'; [|done]. by rewrite (Hv _ _ Hb') in Hnew. }
  unfold voted. fold w. set (p1 := GovernorExecutor.count_vote support w p) in *.
  split; cbn; try lia.
  - unfold voters_weight, tally in *. cbn. rewrite Eh, Es, map_sum_insert_new by done.
    fold w. lia.
  - rewrite Eh. intros a b. rewrite lookup_insert_Some. intros [[_ <-]|[_ Hb']]; [done|by eapply Hv].
Qed.

(** What every governor call leaves alone. *)
Record gov_frame (s s' : MockLedgerStore) : Prop := {
  gf_settings : ∃ b, g_settings (st_governor s') = (g_settings (st_governor s)) <| gs_isPaused := b |>;
  gf_checkpoints : tv_checkpoints (st_votes s') = tv_checkpoints (st_votes s);
  gf_supply : tv_totalSupplyCheckpoints (st_votes s') = tv_totalSupplyCheckpoints (st_votes s);
}.

Lemma settings_same (g : GovernorSettingsState) : ∃ b, g = g <| gs_isPaused := b |>.
Proof. exists (gs_isPaused g). by destruct g. Qed.

Lemma gov_effect_frame c s s' : gov_effect c s s' → gov_frame s s'.
Proof.
  destruct 1 as [|b| | | |id p opId op t s2 done Hp Hq Hhead Hop Hready Hev Hframe| |].
  2: by split; [exists b|..].
  5: { destruct Hframe as [Hg _ _ Hck Hsup _]. destruct done; split; cbn; try done; rewrite Hg;
         apply settings_same. }
  all: split; cbn; [apply settings_same|done|done].
Qed.

Lemma gov_effect_tallies c s s' :
  gov_effect c s s' →
  (∀ id p, g_proposals (st_governor s) !! id = Some p → tally_ok c s p) →
  ∀ id p, g_proposals (st_governor s') !! id = Some p → tally_ok c s' p.
Proof.
  intros Heff Hall. pose proof (gov_effect_frame _ _ _ Heff) as [[b Hset] Hck _].
  assert (∀ p p', (p_startLedger p', p_votesFor p', p_votesAgainst p', p_votesAbstain p', p_hasVoted p') =
    (p_startLedger p, p_votesFor p, p_votesAgainst p, p_votesAbstain p, p_hasVoted p) →
    tally_ok c s p → tally_ok c s' p') as Hsame.
  { intros p p' Hf Hp. eapply tally_ok_mono; [exact Hp|done|done|by rewrite Hset|].
    intros _ a. unfold votes_at. by rewrite Hck. }
  destruct Heff as [|b'|proposer d h u ts fs ds p0 Hcool Hmax|id0 p0 voter sup Hp0 Hnv Hact
    |id0 p0 opId op Hp0 Hsucc Hready|id0 p0 opId op t s2 done Hp0 Hq Hhead Hop Hready Hev Hframe
    |id0 p0 Hp0 Hst|id0 p0 q t Hp0 Hq Hnc Hqt Hveto Hev].
  - done.
  - cbn. eauto.
  - cbn. intros id p. rewrite lookup_insert_Some. intros [[_ <-]|[_ Hp]]; [|eauto].
    by split; cbn.
  - apply (updated_tallies (c, s) (c, _) id0 (voted s sup voter)); [done| |]; cbn; [eauto|].
    intros p Hp. assert (p0 = p) as -> by congruence.
    eapply (tally_ok_mono c s _ _ (voted s sup voter p)); [|done..].
    apply voted_tally; [by eapply Hall|done|]. by apply proposal_state_started in Hact as [? _].
  - apply (updated_tallies (c, s) (c, _) id0 (λ p, p <| p_opIds := [opId] |> <| p_queued := true |>));
      [done| |]; [eauto|]. intros p Hp. apply (Hsame p); [done|by eapply Hall].
  - destruct Hframe as [Hg Ht _ _ _ _]. cbn in Hg.
    destruct done; [|cbn; rewrite Hg; eauto].
    apply (updated_tallies (c, s) (c, _) id0 (λ p, p <| p_executed := true |>)); [|eauto|].
    + cbn. by rewrite Hg.
    + intros p Hp. apply (Hsame p); [done|by eapply Hall].
  - apply (updated_tallies (c, s) (c, _) id0 (λ p, p <| p_cancelled := true |>)); [done|eauto|].
    intros p Hp. apply (Hsame p); [done|by eapply Hall].
  - apply (updated_tallies (c, s) (c, _) id0 (λ p, p <| p_cancelled := true |>)); [done|eauto|].
    intros p Hp. apply (Hsame p); [done|by eapply Hall].
Qed.

Lemma votes_wf_balances now (v v' : TokenVotesState) :
  votes_wf now v → map_Forall (λ _ x, 0 ≤ x) (tv_balances v') →
  tv_checkpoints v' = tv_checkpoints v →
  tv_totalSupplyCheckpoints v' = tv_totalSupplyCheckpoints v → votes_wf now v'.
Proof. intros [_ Hc Hs Hsum] Hb E1 E2. split; rewrite ?E1, ?E2; done. Qed.

Lemma quiet_step_inv sha256 dec w w' : quiet_step sha256 dec w w' → tallies_inv w → tallies_inv w'.
Proof.
  intros (Hstep & Hbal & Hquiet) [Hwf Hall].
  destruct Hstep as [c s call|c c' s v Hv Hr|c s target data fnName delay ids t Hops|c s s' Hg Ht Hv]; cbn -[schedule_with_deps] in *.
  - pose proof (gov_run_effect sha256 dec c call s) as Heff.
    pose proof (gov_effect_frame _ _ _ Heff) as [_ Hck Hsup].
    split; cbn; [by eapply votes_wf_balances|]. by eapply gov_effect_tallies.
  - destruct (votes_step_clock _ _ Hv) as [Hseq _]. cbn in Hseq.
    split; cbn; [by apply (votes_step_wf _ _ Hv)|].
    intros id p Hp. eapply tally_ok_mono; [by eapply Hall|done|done|done|].
    intros Hne a. cbn. destruct Hquiet as [Hck|Hpast].
    + unfold votes_at. by rewrite Hck.
    + destruct (votes_step_past _ _ a (p_startLedger p) Hv) as [Hva _]; [by eapply Hpast|done].
  - split; [done|]. intros id p Hp. by eapply tally_ok_mono; [by eapply Hall|..].
  - split; cbn; [by rewrite Hv|]. rewrite Hg. intros id p Hp.
    eapply tally_ok_mono; [by eapply Hall|done|done|by rewrite Hg|by rewrite Hv].
Qed.

Lemma quiet_steps_inv sha256 dec w w' :
  rtc (quiet_step sha256 dec) w w' → tallies_inv w → tallies_inv w'.
Proof. induction 1; eauto using quiet_step_inv. Qed.

Lemma voters_weight_supply now s p :
  votes_wf now (st_votes s) → (∀ a, 0 ≤ votes_at (st_votes s) (p_startLedger p) a) →
  voters_weight s p ≤ supply_at (st_votes s) (p_startLedger p).
Proof.
  intros Hwf Hnn. unfold voters_weight, supply_at. rewrite <- (wf_conserved _ _ Hwf).
  assert (∀ a, 0 ≤ vote_weight s (p_startLedger p) a ≤ votes_at (st_votes s) (p_startLedger p) a)
    as Hw by (intros a; by apply applyVoteType_bounds).
  etrans; [apply (map_sum_sub (λ a, Z.max 0 (vote_weight s (p_startLedger p) a)) _
    (tv_checkpoints (st_votes s)))|].
  - intros a. lia.
  - intros a Ha. specialize (Hw a). unfold votes_at in Hw. rewrite Ha, checkpointAt_None in Hw. lia.
  - apply map_sum_le. intros a l Ha. specialize (Hw a). unfold votes_at in Hw.
    rewrite Ha in Hw. lia.
Qed.

(** ** Properties *)

(** C4: one account, one vote.  In every history in which token balances stay
    non-negative and no checkpoint is
    written in the very ledger of a snapshot already voted on, the votes For,
    Against and Abstain of a proposal are non-negative and add up to at most
    the snapshot weights of the accounts that voted, each taken once; and when
    no account had a negative balance of votes at the snapshot, to at most the
    total supply the quorum is measured against. *)
Theorem tally_bounded_by_snapshot sha256 dec w0 c s id p :
  world_boot w0 → rtc (quiet_step sha256 dec) w0 (c, s) →
  g_proposals (st_governor s) !! id = Some p →
  0 ≤ p_votesFor p ∧ 0 ≤ p_votesAgainst p ∧ 0 ≤ p_votesAbstain p ∧
  tally p ≤ voters_weight s p ∧
  ((∀ a, 0 ≤ votes_at (st_votes s) (p_startLedger p) a) →
   tally p ≤ supply_at (st_votes s) (p_startLedger p)).
Proof.
  intros Hboot Hsteps Hp.
  assert (tallies_inv w0) as H0.
  { split; [by apply wb_votes|]. intros i q. by rewrite (wb_proposals _ Hboot), lookup_empty. }
  destruct (quiet_steps_inv _ _ _ _ Hsteps H0) as [Hwf Hall].
  destruct (Hall _ _ Hp) as [Hsum _ _ H1 H2 H3]. split_and!; try done.
  intros Hnn. etrans; [done|]. by eapply voters_weight_supply.
Qed.

(** ** Rate limits *)

Section rates.
Implicit Types (c : LedgerClock) (s : MockLedgerStore) (p : ProposalRecord).

(** The ledger a proposal was made at. *)
Definition created_at s p : Z := p_startLedger p - gs_votingDelay (g_settings (st_governor s)).

Definition key_of s p : string :=
  proposal_period_key (p_proposer p) (created_at s p)
    (gs_proposalPeriodDuration (g_settings (st_governor s))).

Definition proposals_with_key s (k : string) : Z :=
  map_sum (λ _ p, if String.eqb (key_of s p) k then 1 else 0) (g_proposals (st_governor s)).

Record rate_inv (w : world) : Prop := {
  ri_ids : ∀ id p, g_proposals (st_governor w.2) !! id = Some p →
    id ≤ g_proposalCount (st_governor w.2);
  ri_last : ∀ id p, g_proposals (st_governor w.2) !! id = Some p →
    ∃ l, g_lastProposalLedger (st_governor w.2) !! p_proposer p = Some l ∧
      created_at w.2 p ≤ l ≤ sequence w.1;
  ri_apart : ∀ id1 id2 p1 p2,
    g_proposals (st_governor w.2) !! id1 = Some p1 →
    g_proposals (st_governor w.2) !! id2 = Some p2 →
    id1 < id2 → p_proposer p1 = p_proposer p2 →
    created_at w.2 p1 + gs_proposalCooldown (g_settings (st_governor w.2)) ≤ created_at w.2 p2;
  ri_count : ∀ k, proposals_with_key w.2 k ≤ default 0 (g_proposalsInPeriod (st_governor w.2) !! k);
  ri_max : ∀ k n, g_proposalsInPeriod (st_governor w.2) !! k = Some n →
    n ≤ gs_maxProposalsPerPeriod (g_settings (st_governor w.2));
}.
End rates.

(** What the rate limits look at. *)
Definition rate_view (p : ProposalRecord) : string * Z := (p_proposer p, p_startLedger p).

Record same_rate (s s' : MockLedgerStore) : Prop := {
  sr_settings : ∃ b, g_settings (st_governor s') = (g_settings (st_governor s)) <| gs_isPaused := b |>;
  sr_proposals : rate_view <$> g_proposals (st_governor s') = rate_view <$> g_proposals (st_governor s);
  sr_count : g_proposalCount (st_governor s') = g_proposalCount (st_governor s);
  sr_last : g_lastProposalLedger (st_governor s') = g_lastProposalLedger (st_governor s);
  sr_counts : g_proposalsInPeriod (st_governor s') = g_proposalsInPeriod (st_governor s);
}.

Lemma same_rate_lookup s s' id p' :
  same_rate s s' → g_proposals (st_governor s') !! id = Some p' →
  ∃ p, g_proposals (st_governor s) !! id = Some p ∧ p_proposer p' = p_proposer p ∧
    created_at s' p' = created_at s p.
Proof.
  intros [[b Hb] Hv _ _ _] Hp. apply (f_equal (.!! id)) in Hv. rewrite !lookup_fmap, Hp in Hv.
  destruct (g_proposals (st_governor s) !! id) as [p|]; [|done]. cbn in Hv.
  injection Hv as E1 E2. exists p. unfold created_at. rewrite Hb. cbn. split_and!; [done|done|lia].
Qed.

Lemma proposals_with_key_view s k :
  proposals_with_key s k =
  map_sum (λ _ v, if String.eqb (proposal_period_key v.1
      (v.2 - gs_votingDelay (g_settings (st_governor s)))
      (gs_proposalPeriodDuration (g_settings (st_governor s)))) k then 1 else 0)
    (rate_view <$> g_proposals (st_governor s)).
Proof. by rewrite map_sum_fmap. Qed.

Lemma same_rate_inv c c' s s' :
  same_rate s s' → sequence c ≤ sequence c' → rate_inv (c, s) → rate_inv (c', s').
Proof.
  intros Hsame Hseq [Hids Hlast Hapart Hcount Hmax].
  pose proof (same_rate_lookup s s') as Hlook.
  destruct Hsame as [[b Hb] Hv Hc Hl Hn] eqn:Heq. clear Heq.
  split; cbn in *.
  - intros id p Hp. rewrite Hc. destruct (Hlook id p) as (q & Hq & _); [done|done|eauto].
  - intros id p Hp. destruct (Hlook id p) as (q & Hq & E1 & E2); [done|done|].
    rewrite E1, E2, Hl. destruct (Hlast _ _ Hq) as (l & ? & ?). exists l. split; [done|lia].
  - intros id1 id2 p1 p2 Hp1 Hp2 Hlt Hprop.
    destruct (Hlook id1 p1) as (q1 & Hq1 & E1 & E2); [done|done|].
    destruct (Hlook id2 p2) as (q2 & Hq2 & E3 & E4); [done|done|].
    rewrite E2, E4, Hb. cbn. apply (Hapart id1 id2); [done|done|done|congruence].
  - intros k. rewrite Hn. etrans; [|apply Hcount]. rewrite !proposals_with_key_view, Hv, Hb. done.
  - intros k n. rewrite Hn, Hb. cbn. apply Hmax.
Qed.

Lemma same_rate_update s id f :
  (∀ p, rate_view (f p) = rate_view p) → same_rate s (update_proposal id f s).
Proof.
  intros Hf. split; cbn; [apply settings_same| |done|done|done]. by apply fmap_alter_same.
Qed.

Lemma voted_rate_view s sup voter p : rate_view (voted s sup voter p) = rate_view p.
Proof. unfold voted, GovernorExecutor.count_vote, rate_view. by repeat case_match. Qed.

(** A new proposal, within the limits. *)
Lemma add_proposal_rates c s proposer d h u ts fs ds :
  let p := new_proposal c s proposer d h u ts fs ds in
  cooled_down c s proposer →
  proposals_in_period c s proposer < gs_maxProposalsPerPeriod (g_settings (st_governor s)) →
  rate_inv (c, s) → rate_inv (c, add_proposal c p s).
Proof.
  intros p Hcool Hroom [Hids Hlast Hapart Hcount Hmax]. cbn in Hids, Hlast, Hapart, Hcount, Hmax.
  set (s' := add_proposal c p s). set (new := g_proposalCount (st_governor s) + 1).
  assert (g_proposals (st_governor s') = <[new := p]> (g_proposals (st_governor s))) as Hprops by done.
  assert (created_at s' p = sequence c) as Hcreated by (unfold created_at; cbn; lia).
  split; cbn [fst snd].
  - intros id q. rewrite Hprops, lookup_insert_Some. change (g_proposalCount (st_governor s')) with new.
    intros [[<- _]|[_ Hq]]; [lia|]. specialize (Hids _ _ Hq). lia.
  - intros id q. rewrite Hprops, lookup_insert_Some.
    change (g_lastProposalLedger (st_governor s')) with
      (<[proposer := sequence c]> (g_lastProposalLedger (st_governor s))).
    intros [[_ <-]|[_ Hq]]; [exists (sequence c); rewrite lookup_insert_eq; split; [done|lia]|].
    destruct (Hlast _ _ Hq) as (l & Hl & ? & ?). change (created_at s' q) with (created_at s q).
    destruct (decide (proposer = p_proposer q)) as [E|E].
    + exists (sequence c). rewrite E, lookup_insert_eq. split; [done|lia].
    + exists l. rewrite lookup_insert_ne by done. split; [done|lia].
  - intros id1 id2 p1 p2. rewrite Hprops, !lookup_insert_Some.
    intros [[<- <-]|[_ Hp1]] [[<- <-]|[_ Hp2]] Hlt Hprop.
    + lia.
    + specialize (Hids _ _ Hp2). subst new. lia.
    + rewrite Hcreated. change (created_at s' p1) with (created_at s p1).
      destruct (Hlast _ _ Hp1) as (l & Hl & ? & ?). rewrite Hprop in Hl. specialize (Hcool _ Hl).
      change (g_settings (st_governor s')) with (g_settings (st_governor s)). lia.
    + by apply (Hapart id1 id2).
  - intros k. change (g_proposalsInPeriod (st_governor s')) with
      (<[period_key c s proposer := proposals_in_period c s proposer + 1]>
        (g_proposalsInPeriod (st_governor s))).
    unfold proposals_with_key. rewrite Hprops, map_sum_insert_new.
    2:{ destruct (_ !! new) as [q|] eqn:Hq; [|done]. specialize (Hids _ _ Hq). subst new. lia. }
    assert (key_of s' p = period_key c s proposer) as ->
      by (unfold key_of, period_key; by rewrite Hcreated).
    specialize (Hcount k). unfold proposals_with_key in Hcount.
    change (key_of s') with (key_of s).
    destruct (String.eqb_spec (period_key c s proposer) k) as [<-|Hne].
    + rewrite lookup_insert_eq. cbn. unfold proposals_in_period. lia.
    + rewrite lookup_insert_ne by done. lia.
  - intros k n. change (g_proposalsInPeriod (st_governor s')) with
      (<[period_key c s proposer := proposals_in_period c s proposer + 1]>
        (g_proposalsInPeriod (st_governor s))).
    change (g_settings (st_governor s')) with (g_settings (st_governor s)).
    rewrite lookup_insert_Some. intros [[_ <-]|[_ Hn]]; [lia|by eapply Hmax].
Qed.

Lemma gov_effect_rates c s s' : gov_effect c s s' → rate_inv (c, s) → rate_inv (c, s').
Proof.
  intros Heff Hinv.
  destruct Heff as [|b'|proposer d h u ts fs ds p0 Hcool Hmax|id0 p0 voter sup Hp0 Hnv Hact
    |id0 p0 opId op Hp0 Hsucc Hready|id0 p0 opId op t s2 done Hp0 Hq Hhead Hop Hready Hev Hframe
    |id0 p0 Hp0 Hst|id0 p0 q t Hp0 Hq Hnc Hqt Hveto Hev].
  3: by apply add_proposal_rates.
  all: apply (same_rate_inv c c s); [|done|done].
  - split; [apply settings_same|done..].
  - split; cbn; [by exists b'|done..].
  - apply same_rate_update, voted_rate_view.
  - split; cbn; [apply settings_same| |done|done|done]. by apply fmap_alter_same.
  - destruct Hframe as [Hg _ _ _ _ _]. cbn in Hg.
    assert (same_rate s s2) as Hs by (split; rewrite Hg; [apply settings_same|done..]).
    destruct done; [|done].
    destruct (same_rate_update s2 id0 (λ p, p <| p_executed := true |>)) as [H1 H2 H3 H4 H5]; [done|].
    split; [by rewrite <- Hg|by rewrite <- Hg|by rewrite <- Hg|by rewrite <- Hg|by rewrite <- Hg].
  - by apply same_rate_update.
  - destruct (same_rate_update (set_timelock t s) id0 (λ p, p <| p_cancelled := true |>))
      as [H1 H2 H3 H4 H5]; [done|]. by split.
Qed.

Lemma world_step_rates sha256 dec w w' : world_step sha256 dec w w' → rate_inv w → rate_inv w'.
Proof.
  intros [c s call|c c' s v Hstep Hr|c s target data fnName delay ids t Hops|c s s' Hg Ht Hv] Hinv.
  - eapply gov_effect_rates; [apply gov_run_effect|done].
  - destruct (votes_step_clock _ _ Hstep) as [Hseq _].
    eapply same_rate_inv; [|exact Hseq|exact Hinv]. split; [apply settings_same|done..].
  - eapply same_rate_inv; [|done|exact Hinv]. split; [apply settings_same|done..].
  - eapply same_rate_inv; [|done|exact Hinv]. split; rewrite Hg; [apply settings_same|done..].
Qed.

(** Proposers are rate limited.  In every history, two proposals of one
    account are at least the cooldown apart, and within one period of
    [proposalPeriodDuration] ledgers an account makes at most
    [maxProposalsPerPeriod] proposals. *)
Theorem proposer_rate_limits sha256 dec w0 c s :
  world_boot w0 → rtc (world_step sha256 dec) w0 (c, s) →
  let settings := g_settings (st_governor s) in
  (∀ id1 id2 p1 p2,
    g_proposals (st_governor s) !! id1 = Some p1 → g_proposals (st_governor s) !! id2 = Some p2 →
    id1 < id2 → p_proposer p1 = p_proposer p2 →
    created_at s p1 + gs_proposalCooldown settings ≤ created_at s p2) ∧
  (∀ who period,
    map_sum (λ _ p, if String.eqb (p_proposer p) who &&
        String.eqb (period_text (created_at s p) (gs_proposalPeriodDuration settings)) period
        then 1 else 0)
      (g_proposals (st_governor s)) ≤ Z.max 0 (gs_maxProposalsPerPeriod settings)).
Proof.
  intros Hboot Hsteps settings.
  assert (rate_inv (c, s)) as [_ _ Hapart Hcount Hmax].
  { assert (rate_inv w0) as H0.
    { destruct Hboot as [_ _ Hp Hl Hc _]. unfold proposals_with_key.
      split; unfold proposals_with_key; rewrite ?Hp, ?Hl, ?Hc; intros *;
        rewrite ?lookup_empty, ?map_sum_empty; done. }
    revert H0. clear Hboot. induction Hsteps; eauto using world_step_rates. }
  cbn in Hapart, Hcount, Hmax. split.
  - done.
  - intros who period.
    set (k := who +:+ ":" +:+ period). specialize (Hcount k). unfold proposals_with_key in Hcount.
    etrans; [apply (map_sum_le _ (λ _ p, if String.eqb (key_of s p) k then 1 else 0))|].
    + intros id p Hp. destruct (String.eqb_spec (p_proposer p) who) as [E1|]; cbn; [|by case_match].
      destruct (String.eqb_spec (period_text (created_at s p) (gs_proposalPeriodDuration settings))
        period) as [E2|]; cbn; [|by case_match].
      assert (key_of s p = k) as ->; [|by rewrite String.eqb_refl].
      unfold key_of, proposal_period_key. subst settings k. by rewrite E1, E2.
    + etrans; [exact Hcount|]. destruct (_ !! k) as [n|] eqn:Hn; cbn; [|lia].
      specialize (Hmax _ _ Hn). subst settings. lia.
Qed.

(** ** The calls, branch by branch *)

(** The conditions of a vote. *)
Record vote_admitted (c : LedgerClock) (caller voter : string) (id : Z) (sup : string)
    (s : MockLedgerStore) : Prop := {
  va_signed : caller = voter;
  va_unpaused : gs_isPaused (g_settings (st_governor s)) = false;
  va_open : ∃ p, g_proposals (st_governor s) !! id = Some p ∧ p_hasVoted p !! voter ≠ Some true ∧
    proposal_state c s p = Active;
  va_support : ¬ (gs_voteType (g_settings (st_governor s)) = Simple ∧ sup = "Abstain");
}.

(** A branch that throws: no condition of a vote can be met there. *)
Ltac rejected := split; [intros ?; split; [done|intros [[] _]; naive_solver congruence]|congruence].

(** C10: what a vote does.  [cast_vote] returns exactly when the voter signed,
    the governor is not paused, the proposal exists and is Active, the voter
    has not voted on it, and the support is not Abstain under Simple voting.
    It then adds the voter's snapshot weight (its integer square root under
    Quadratic voting) to the chosen tally, marks the voter, and touches
    nothing else; when it throws, nothing at all has changed. *)
Theorem cast_vote_correct c caller voter id sup s :
  (∀ s', cast_vote c caller voter id sup s = (Ok tt, s') ↔
    vote_admitted c caller voter id sup s ∧ s' = update_proposal id (voted s sup voter) s) ∧
  (∀ e s', cast_vote c caller voter id sup s = (Throw e, s') → s' = s).
Proof.
  unfold cast_vote, mustGetProposal. m_run.
  destruct (String.eqb_spec caller voter) as [->|]; cbn; [|rejected].
  destruct (gs_isPaused _) eqn:Hpaused; cbn; [rejected|].
  destruct (g_proposals (st_governor s) !! id) as [p|] eqn:Hp; cbn; [|rejected].
  assert (default false (p_hasVoted p !! voter) = true ↔ p_hasVoted p !! voter = Some true) as Hv
    by (destruct (p_hasVoted p !! voter) as [[]|]; naive_solver).
  destruct (default false (p_hasVoted p !! voter)); cbn; [rejected|].
  destruct (bool_decide _ && _) eqn:Habs; cbn.
  { apply andb_true_iff in Habs as [Ha%bool_decide_eq_true Hb%String.eqb_eq].
    rejected. }
  assert (¬ (gs_voteType (g_settings (st_governor s)) = Simple ∧ sup = "Abstain")) as Hn.
  { intros [Ha ->]. by rewrite bool_decide_true, String.eqb_refl in Habs. }
  rewrite (vote_window c s). destruct (decide (proposal_state c s p = Active)) as [Hact|]; cbn;
    [|rejected].
  pose proof (proposal_state_started _ _ _ Hact) as [Hst _].
  erewrite on_votes_read by (by apply get_past_votes_run). cbn [fst snd].
  rewrite update_proposal_compose, (update_proposal_ext id p _ (voted s sup voter)) by done.
  split; [|congruence]. intros s'. split; [intros [= <-]|by intros [_ ->]].
  split; [|done]. split; [done|done| |done]. exists p. split_and!; [done| |done]. naive_solver.
Qed.

Lemma execute_run dec c id s p opId :
  g_proposals (st_governor s) !! id = Some p → proposal_state c s p = Queued →
  head (p_opIds p) = Some opId →
  GovernorExecutor.execute dec c id s =
  match executeOperation c opId (st_timelock s) with
  | (Throw e, t) => (Throw e, set_timelock t s)
  | (Ok _, t) =>
    match dispatchProposalBondsAction dec c p (set_timelock t s) with
    | (Throw e, s2) => (Throw e, s2)
    | (Ok _, s2) => (Ok tt, update_proposal id (λ p, p <| p_executed := true |>) s2)
    end
  end.
Proof.
  intros Hp Hst Hhead. unfold GovernorExecutor.execute, mustGetProposal. m_run.
  rewrite Hp. cbn. rewrite computeProposalState_run, Hst. cbn.
  rewrite (bool_decide_false (Queued ≠ Queued)) by (intros H; by apply H). cbn.
  apply proposal_state_queued in Hst as (_ & -> & _). cbn. rewrite Hhead. cbn.
  unfold on_timelock. m_run.
  destruct (executeOperation c opId (st_timelock s)) as [[[]|] t]; [|done].
  unfold set_timelock. by destruct (dispatchProposalBondsAction _ _ _ _) as [[[]|] s2].
Qed.

Lemma execute_settled dec c id s p opId op :
  g_proposals (st_governor s) !! id = Some p → p_queued p = true → p_cancelled p = false →
  p_executed p = false →
  head (p_opIds p) = Some opId → tl_operations (st_timelock s) !! opId = Some op →
  op_executed op = true →
  GovernorExecutor.execute dec c id s =
    (Throw (MockContractError 100 "execute: invalid operation state"), s).
Proof.
  intros Hp Hq Hc He Hhead Hop Hx.
  rewrite (execute_run _ _ _ _ p opId); [|done| |done].
  - rewrite executeOperation_run, Hop, Hx. cbn. by destruct s.
  - unfold proposal_state. by rewrite Hc, He, Hq.
Qed.

(** Queued for ever: no ledger and no decoder makes [execute] return. *)
Definition stranded (id : Z) (s : MockLedgerStore) : Prop :=
  ∃ p, g_proposals (st_governor s) !! id = Some p ∧
  ∀ dec c, proposal_state c s p = Queued ∧
    GovernorExecutor.execute dec c id s =
      (Throw (MockContractError 100 "execute: invalid operation state"), s).

(** Execution is not atomic.  When the action of a queued proposal fails
    after the timelock has accepted the operation, [execute] throws, but the
    operation stays marked executed: the proposal remains Queued and no later
    [execute], at any ledger, can succeed. *)
Theorem failed_dispatch_strands_proposal dec c id s p opId t e s' :
  g_proposals (st_governor s) !! id = Some p → proposal_state c s p = Queued →
  head (p_opIds p) = Some opId →
  executeOperation c opId (st_timelock s) = (Ok tt, t) →
  dispatchProposalBondsAction dec c p (set_timelock t s) = (Throw e, s') →
  GovernorExecutor.execute dec c id s = (Throw e, s') ∧ stranded id s'.
Proof.
  intros Hp Hst Hhead Hex Hdisp.
  assert (bonds_frame (set_timelock t s) s') as [Hg Ht _ _ _ _]
    by (change s' with (Throw e : outcome unit, s').2; rewrite <- Hdisp; apply dispatch_frame).
  cbn in Hg, Ht. rewrite (execute_run _ _ _ _ p opId), Hex, Hdisp by done.
  split; [done|]. exists p. split; [by rewrite Hg|]. intros dec' c'.
  apply proposal_state_queued in Hst as (Hc & He & Hq).
  split; [unfold proposal_state; by rewrite Hc, He, Hq|].
  apply execute_ok_inv in Hex as (op & Hop & _ & _ & _ & ->).
  eapply execute_settled; [by rewrite Hg|done|done|done|done| |].
  - rewrite Ht. cbn. by rewrite lookup_alter_eq, Hop.
  - done.
Qed.

(** The first action of a proposal, the only one that is queued. *)
Definition first_action (p : ProposalRecord) : option (string * bytes * string) :=
  match p_targets p, p_calldatas p, p_fnNames p with
  | t :: _, d :: _, f :: _ => Some (t, d, f)
  | _, _, _ => None
  end.

Lemma queue_ok_inv sha256 c id s s' :
  GovernorExecutor.queue sha256 c id s = (Ok tt, s') →
  ∃ p t d f, g_proposals (st_governor s) !! id = Some p ∧ first_action p = Some (t, d, f) ∧
    proposal_state c s p = Succeeded ∧
    tl_minDelay (st_timelock s') = tl_minDelay (st_timelock s) ∧
    g_proposals (st_governor s') =
      <[id := p <| p_opIds := [computeOpId sha256 t d f (tl_minDelay (st_timelock s)) [] []] |>
                <| p_queued := true |>]> (g_proposals (st_governor s)).
Proof.
  unfold GovernorExecutor.queue, mustGetProposal. m_run.
  destruct (g_proposals (st_governor s) !! id) as [p|] eqn:Hp; cbn; [|done].
  rewrite computeProposalState_run. cbn. case_bool_decide; [done|]. cbn.
  case_bool_decide as Hst; [done|]. cbn.
  assert (proposal_state c s p = Succeeded) as Hsucc by (done || by apply dec_stable).
  pose proof (proposal_state_succeeded _ _ _ Hsucc) as (_ & _ & _ & Hstart & _).
  rewrite computeQuorum_started by done. destruct (_ || _); [done|]. cbn.
  unfold first_action.
  destruct (p_targets p) as [|t ts] eqn:Et; [done|].
  destruct (p_calldatas p) as [|d ds] eqn:Ed; [done|].
  destruct (p_fnNames p) as [|f fs] eqn:Ef; [done|].
  unfold on_timelock, scheduleOperation. m_run. rewrite Z.ltb_irrefl. cbn. intros [= <-].
  exists p, t, d, f. rewrite Et, Ed, Ef. split_and!; try done. cbn.
  rewrite alter_compose. apply map_eq. intros i. destruct (decide (id = i)) as [<-|].
  - rewrite lookup_alter_eq, lookup_insert_eq, Hp. cbn. by rewrite Et, Ed, Ef.
  - by rewrite lookup_alter_ne, lookup_insert_ne.
Qed.

(** Identical actions collide.  The operation identifier that [queue]
    computes depends on the action and the delay alone.  Two proposals with the
    same first action therefore share one timelock operation: once the first
    has executed, the second, although voted through and queued, can never
    execute. *)
Theorem identical_actions_share_operation sha256 dec s c1 id1 s1 c2 id2 s2 c3 s3 p1 p2 :
  id1 ≠ id2 →
  g_proposals (st_governor s) !! id1 = Some p1 →
  g_proposals (st_governor s) !! id2 = Some p2 →
  first_action p1 = first_action p2 →
  GovernorExecutor.queue sha256 c1 id1 s = (Ok tt, s1) →
  GovernorExecutor.queue sha256 c2 id2 s1 = (Ok tt, s2) →
  GovernorExecutor.execute dec c3 id1 s2 = (Ok tt, s3) →
  ∀ dec' c4, GovernorExecutor.execute dec' c4 id2 s3 =
    (Throw (MockContractError 100 "execute: invalid operation state"), s3).
Proof.
  intros Hne Hp1 Hp2 Hact Hq1 Hq2 Hex dec' c4.
  apply queue_ok_inv in Hq1 as (p1' & t & d & f & Hp1' & Ha1 & Hs1 & Hd1 & Hprops1).
  apply queue_ok_inv in Hq2 as (p2' & t2 & d2 & f2 & Hp2' & Ha2 & Hs2 & Hd2 & Hprops2).
  rewrite Hp1 in Hp1'. injection Hp1' as <-.
  rewrite Hprops1, lookup_insert_ne, Hp2 in Hp2' by done. injection Hp2' as <-.
  assert ((t2, d2, f2) = (t, d, f)) as [= -> -> ->] by congruence.
  rewrite Hd1 in Hprops2. set (opId := computeOpId _ _ _ _ _ _ _) in *.
  destruct (execute_ok_ready _ _ _ _ _ Hex) as (p & o & op & Hp & Hst & Hhead & _).
  rewrite Hprops2, lookup_insert_ne, Hprops1, lookup_insert_eq in Hp by done.
  injection Hp as <-. cbn in Hhead. injection Hhead as <-.
  rewrite (execute_run _ _ _ _ (p1 <| p_opIds := [opId] |> <| p_queued := true |>) opId) in Hex;
    [|rewrite Hprops2, lookup_insert_ne, Hprops1, lookup_insert_eq by done; done|done|done].
  destruct (executeOperation c3 opId (st_timelock s2)) as [[[]|] tl] eqn:Hop; [|done].
  destruct (dispatchProposalBondsAction _ _ _ _) as [[[]|] s2'] eqn:Hdisp; [|done].
  injection Hex as <-.
  assert (bonds_frame (set_timelock tl s2) s2') as [Hg Ht _ _ _ _]
    by (change s2' with (Ok tt, s2').2; rewrite <- Hdisp; apply dispatch_frame).
  cbn in Hg, Ht.
  apply execute_ok_inv in Hop as (op' & Hop' & _ & _ & _ & ->).
  apply proposal_state_succeeded in Hs2 as (Hc & He & _).
  eapply (execute_settled _ _ _ _ (p2 <| p_opIds := [opId] |> <| p_queued := true |>) opId
    (op' <| op_executed := true |>)); [|done|done|done|done| |done].
  - cbn. rewrite lookup_alter_ne by done. by rewrite Hg, Hprops2, lookup_insert_eq.
  - cbn. rewrite Ht. cbn. by rewrite lookup_alter_eq, Hop'.
Qed.

(** ** Runs of the definitions *)
Module VoteExamples.
Import GovernorSafety.Examples.

Lemma quiet w w' :
  world_step sha dec w w' →
  bool_decide (map_Forall (λ _ x, 0 ≤ x) (tv_balances (st_votes w'.2))) = true →
  tv_checkpoints (st_votes w'.2) = tv_checkpoints (st_votes w.2) →
  quiet_step sha dec w w'.
Proof. intros H1 H2%bool_decide_eq_true H3. split_and!; [done|done|by left]. Qed.

(** Boot, delegation, a proposal, and one vote. *)
Lemma voted_history : rtc (quiet_step sha dec) w0 (clk 10, voted).
Proof.
  apply (rtc_l _ _ (clk 7, delegated)).
  { split_and!.
    - apply (ws_votes _ _ (clk 7) (clk 7)); [apply votes_step_boot|].
      split_and!; vm_compute; discriminate.
    - apply (bool_decide_unpack _). vm_compute. exact I.
    - right. intros id p Hp. exfalso. revert Hp. vm_compute. destruct id; discriminate. }
  apply (rtc_l _ _ (clk 8, delegated));
    [apply quiet; [apply (ticks 7 8); tick|vm_compute; reflexivity..]|].
  apply (rtc_l _ _ (clk 8, proposed)); [apply quiet; [apply calls|vm_compute; reflexivity..]|].
  apply (rtc_l _ _ (clk 10, proposed));
    [apply quiet; [apply (ticks 8 10); tick|vm_compute; reflexivity..]|].
  apply rtc_once. apply quiet; [apply calls|vm_compute; reflexivity..].
Qed.

(** Two votes with the same tokens, in the ledger of the snapshot. *)
Definition voted_once := call (GVote "bob" "bob" 1 "For") 9 proposed.
Definition moved : MockLedgerStore :=
  voted_once <| st_votes := applyDelegation (clk 9) "alice" "carol" (st_votes voted_once) |>.
Definition voted_twice := call (GVote "carol" "carol" 1 "For") 9 moved.

Lemma voted_twice_history : rtc (world_step sha dec) w0 (clk 9, voted_twice).
Proof.
  apply (rtc_l _ _ (clk 7, delegated)).
  { apply (ws_votes _ _ (clk 7) (clk 7)); [apply votes_step_boot|].
    split_and!; vm_compute; discriminate. }
  apply (rtc_l _ _ (clk 8, delegated)); [apply (ticks 7 8); tick|].
  apply (rtc_l _ _ (clk 8, proposed)); [apply calls|].
  apply (rtc_l _ _ (clk 9, proposed)); [apply (ticks 8 9); tick|].
  apply (rtc_l _ _ (clk 9, voted_once)); [apply calls|].
  apply (rtc_l _ _ (clk 9, moved)).
  { apply (ws_votes _ _ (clk 9) (clk 9)); [apply votes_step_boot|].
    split_and!; vm_compute; discriminate. }
  apply rtc_once, calls.
Qed.

Definition no_proposal : ProposalRecord :=
  mkProposal 0 "" "" "" "" [] [] [] 0 0 0 0 0 false false false [] ∅.
Definition proposal_1 (s : MockLedgerStore) : ProposalRecord :=
  default no_proposal (g_proposals (st_governor s) !! 1).

(** A second proposal with the same action, queued next to the first. *)
Definition proposed2 :=
  call (GPropose "bob" "bob" "again" [] "uri" ["t"] ["f"] [[]]) 8 proposed.
Definition voted2 := call (GVote "bob" "bob" 2 "For") 10 (call (GVote "bob" "bob" 1 "For") 10 proposed2).
Definition queued_1 := call (GQueue 1) 30 voted2.
Definition queued_2 := call (GQueue 2) 31 queued_1.
Definition executed_1 := call (GExecute 1) 33 queued_2.

(** A proposal whose action is a call of the bonds contract that fails. *)
Definition proposed3 :=
  call (GPropose "bob" "bob" "slash" [] "uri" ["bonds"] ["slash"] [[]]) 8 delegated.
Definition queued3 := call (GQueue 1) 30 (call (GVote "bob" "bob" 1 "For") 10 proposed3).
Definition op3 : string := default "" (head (p_opIds (proposal_1 queued3))).
End VoteExamples.

Lemma tally_bounded_by_snapshot_witness :
  tally (VoteExamples.proposal_1 GovernorSafety.Examples.voted) ≤ 50.
Proof.
  destruct (tally_bounded_by_snapshot GovernorSafety.Examples.sha GovernorSafety.Examples.dec
    GovernorSafety.Examples.w0 (GovernorSafety.Examples.clk 10) GovernorSafety.Examples.voted 1
    (VoteExamples.proposal_1 GovernorSafety.Examples.voted)) as (_ & _ & _ & H & _).
  - apply GovernorSafety.Examples.gs_boot.
  - apply VoteExamples.voted_history.
  - vm_compute. reflexivity.
  - etrans; [exact H|]. vm_compute. discriminate.
Defined.

Lemma proposer_rate_limits_witness :
  map_sum (λ _ p, if String.eqb (p_proposer p) "bob" &&
      String.eqb (period_text (created_at GovernorSafety.Examples.executed p) 100) "0"
      then 1 else 0)
    (g_proposals (st_governor GovernorSafety.Examples.executed)) ≤ 10.
Proof.
  exact (proj2 (proposer_rate_limits GovernorSafety.Examples.sha GovernorSafety.Examples.dec
    GovernorSafety.Examples.w0 (GovernorSafety.Examples.clk 32) GovernorSafety.Examples.executed
    GovernorSafety.Examples.gs_boot GovernorSafety.Examples.history_executed) "bob" "0").
Defined.

Lemma failed_dispatch_strands_proposal_witness :
  ∃ e s', GovernorExecutor.execute GovernorSafety.Examples.dec (GovernorSafety.Examples.clk 32) 1
    VoteExamples.queued3 = (Throw e, s') ∧
    GovernorExecutor.execute GovernorSafety.Examples.dec (GovernorSafety.Examples.clk 33) 1 s' =
      (Throw (MockContractError 100 "execute: invalid operation state"), s').
Proof.
  destruct (failed_dispatch_strands_proposal GovernorSafety.Examples.dec
    (GovernorSafety.Examples.clk 32) 1 VoteExamples.queued3
    (VoteExamples.proposal_1 VoteExamples.queued3) VoteExamples.op3
    (executeOperation (GovernorSafety.Examples.clk 32) VoteExamples.op3
       (st_timelock VoteExamples.queued3)).2
    type_error
    (set_timelock (executeOperation (GovernorSafety.Examples.clk 32) VoteExamples.op3
       (st_timelock VoteExamples.queued3)).2 VoteExamples.queued3)) as (H1 & p & _ & H2);
    [vm_compute; reflexivity..|].
  eexists _, _. split; [exact H1|]. exact (proj2 (H2 _ _)).
Defined.

Lemma identical_actions_share_operation_witness :
  GovernorExecutor.execute GovernorSafety.Examples.dec (GovernorSafety.Examples.clk 40) 2
    VoteExamples.executed_1 =
  (Throw (MockContractError 100 "execute: invalid operation state"), VoteExamples.executed_1).
Proof.
  apply (identical_actions_share_operation GovernorSafety.Examples.sha GovernorSafety.Examples.dec
    VoteExamples.voted2 (GovernorSafety.Examples.clk 30) 1 VoteExamples.queued_1
    (GovernorSafety.Examples.clk 31) 2 VoteExamples.queued_2 (GovernorSafety.Examples.clk 33)
    VoteExamples.executed_1 (VoteExamples.proposal_1 VoteExamples.voted2)
    (default VoteExamples.no_proposal (g_proposals (st_governor VoteExamples.voted2) !! 2)));
    [discriminate|vm_compute; reflexivity..].
Defined.

(** The quiet-ledger condition of the tally bound is needed.  The snapshot
    a vote reads is still open in the start ledger itself: an account that
    votes then can hand its tokens to another one, which votes with them again,
    and the tally exceeds the total supply. *)
Theorem same_ledger_double_vote :
  ∃ c s p, rtc (world_step GovernorSafety.Examples.sha GovernorSafety.Examples.dec)
      GovernorSafety.Examples.w0 (c, s) ∧
    g_proposals (st_governor s) !! 1 = Some p ∧
    supply_at (st_votes s) (p_startLedger p) < tally p.
Proof.
  exists (GovernorSafety.Examples.clk 9), VoteExamples.voted_twice,
    (VoteExamples.proposal_1 VoteExamples.voted_twice).
  split; [apply VoteExamples.voted_twice_history|]. split; vm_compute; reflexivity.
Qed.
