(* ===== verification/Treasury.v ===== *)
(** * Treasury budget streams

    [tools/simulation/src/mock/treasury-executor.ts]: the governor opens a
    budget for an owner, who spends from it in instalments.  Spends move the
    voting token's balances; the stream's own token is only reported. *)

From S2P Require Import Prelude SdkErrors Store.

Definition on_treasury (f : TreasuryState → TreasuryState) (s : MockLedgerStore) :
    MockLedgerStore :=
  s <| st_treasury ::= f |>.

(** [stream.field = ...] on the record the map holds. *)
Definition update_stream (id : Z) (f : BudgetStreamRecord → BudgetStreamRecord) :
    MockLedgerStore → MockLedgerStore :=
  on_treasury (λ t, t <| tr_streams ::= alter f id |>).

Module TreasuryExecutor.

Definition requireSigner (caller signer : string) : M MockLedgerStore unit :=
  throw_if (negb (String.eqb caller signer)) (PlainError "not authorized").

Definition requireGovernor (caller : string) : M MockLedgerStore unit :=
  store ← get;
  throw_if (negb (String.eqb caller (tr_governor (st_treasury store)))) (PlainError "not authorized").

Definition loadStream (streamId : Z) : M MockLedgerStore BudgetStreamRecord :=
  store ← get;
  unwrap (tr_streams (st_treasury store) !! streamId)
    (MockContractError 10 ("stream " +:+ decimal streamId +:+ " not found")).

Definition addToTotal (token : string) (amount : Z) (m : gmap string Z) : gmap string Z :=
  <[token := default 0 (m !! token) + amount]> m.

Definition validateSpend (clock : LedgerClock) (stream : BudgetStreamRecord) (owner : string)
    (amount : Z) : M MockLedgerStore unit :=
  throw_if (bs_isRevoked stream) (MockContractError 13 "stream has been revoked");;
  throw_if (negb (bs_isActive stream)) (MockContractError 11 "stream is not active");;
  throw_if (negb (String.eqb owner (bs_owner stream)))
    (MockContractError 17 "caller is not the authorized stream owner");;
  let currentLedger := sequence clock in
  throw_if ((currentLedger <? bs_startLedger stream) || (bs_endLedger stream <? currentLedger))
    (MockContractError 12 "stream has expired");;
  throw_if (amount <=? 0) (PlainError "amount must be positive");;
  throw_if (bs_maxSingleSpend stream <? amount)
    (MockContractError 15 "spend exceeds the maximum single spend");;
  throw_if (bs_totalAllocated stream - bs_totalSpent stream <? amount)
    (MockContractError 14 "stream has no remaining funds");;
  throw_if ((0 <? bs_cooldownLedgers stream) && (0 <? bs_spendCount stream) &&
            (currentLedger - bs_lastSpendLedger stream <? bs_cooldownLedgers stream))
    (MockContractError 16 "cooldown period between spends has not elapsed").

Definition transferFromTreasury (recipient : string) (amount : Z) : M MockLedgerStore unit :=
  store ← get;
  let treasuryAccount := a_treasury (st_addresses store) in
  let treasuryBalance := default 0 (tv_balances (st_votes store) !! treasuryAccount) in
  throw_if (treasuryBalance <? amount)
    (MockContractError 18 "treasury has insufficient balance");;
  modify (set_balance treasuryAccount (treasuryBalance - amount));;
  store ← get;
  modify (set_balance recipient (default 0 (tv_balances (st_votes store) !! recipient) + amount)).

(** The list [tokenList], with [token] appended when it is new. *)
Definition add_token (token : string) (l : list string) : list string :=
  if bool_decide (token ∈ l) then l else l ++ [token].

Definition create_stream (clock : LedgerClock) (caller signer name owner token : string)
    (totalAllocated startLedger endLedger maxSingleSpend cooldownLedgers proposalId : Z)
    : M MockLedgerStore Z :=
  requireSigner caller signer;;
  requireGovernor signer;;
  throw_if (totalAllocated <=? 0) (PlainError "allocation must be positive");;
  throw_if (maxSingleSpend <=? 0) (PlainError "max single spend must be positive");;
  throw_if (endLedger <=? startLedger)
    (MockContractError 20 "stream end ledger is before start ledger");;
  throw_if (endLedger <=? sequence clock) (MockContractError 12 "stream has expired");;
  store ← get;
  let id := tr_streamCount (st_treasury store) + 1 in
  let stream :=
    mkStream id name owner token totalAllocated 0 startLedger endLedger true false None
      maxSingleSpend cooldownLedgers 0 0 proposalId in
  modify (on_treasury (λ t, t <| tr_streams ::= <[id := stream]> |>));;
  modify (on_treasury (λ t, t <| tr_streamCount := id |>));;
  modify (on_treasury (λ t, t <| tr_tokenList ::= add_token token |>));;
  modify (on_treasury (λ t, t <| tr_totalStreamedByToken ::= addToTotal token totalAllocated |>));;
  mret id.

Definition stream_spend (clock : LedgerClock) (caller owner : string) (streamId : Z)
    (recipient : string) (amount : Z) (memo : string) : M MockLedgerStore unit :=
  requireSigner caller owner;;
  stream ← loadStream streamId;
  validateSpend clock stream owner amount;;
  transferFromTreasury recipient amount;;
  modify (update_stream streamId (λ b, b <| bs_totalSpent ::= λ v, v + amount |>));;
  modify (update_stream streamId (λ b, b <| bs_lastSpendLedger := sequence clock |>));;
  modify (update_stream streamId (λ b, b <| bs_spendCount ::= λ v, v + 1 |>));;
  store ← get;
  let records := default [] (tr_spends (st_treasury store) !! streamId) in
  let record :=
    mkSpend streamId (Z.of_nat (length records)) recipient amount memo (sequence clock) owner in
  modify (on_treasury (λ t, t <| tr_spends ::= <[streamId := records ++ [record]]> |>));;
  modify (on_treasury (λ t, t <| tr_totalSpentByToken ::= addToTotal (bs_token stream) amount |>));;
  modify (update_stream streamId (λ b,
    if bs_totalAllocated b - bs_totalSpent b =? 0 then b <| bs_isActive := false |> else b)).

Definition top_up_stream (clock : LedgerClock) (caller signer : string)
    (streamId additionalAmount : Z) : M MockLedgerStore unit :=
  requireSigner caller signer;;
  requireGovernor signer;;
  throw_if (additionalAmount <=? 0) (PlainError "additional must be positive");;
  stream ← loadStream streamId;
  throw_if (bs_isRevoked stream) (MockContractError 13 "stream has been revoked");;
  modify (update_stream streamId (λ b, b <| bs_totalAllocated ::= λ v, v + additionalAmount |>));;
  modify (update_stream streamId (λ b,
    if negb (bs_isActive b) && negb (bs_isRevoked b) && (sequence clock <=? bs_endLedger b)
    then b <| bs_isActive := true |> else b));;
  modify (on_treasury (λ t,
    t <| tr_totalStreamedByToken ::= addToTotal (bs_token stream) additionalAmount |>)).

Definition get_stream (streamId : Z) : M MockLedgerStore BudgetStreamRecord := loadStream streamId.

Definition get_streams (offset limit : Z) : M MockLedgerStore (list BudgetStreamRecord) :=
  store ← get;
  let count := to_number (tr_streamCount (st_treasury store)) in
  let start := Z.min (to_number offset) count in
  let end_ := Z.min (num_add start (to_number limit)) count in
  map_m loadStream (ids_after start (Z.to_nat (end_ - start))).

Definition get_stream_spends (streamId offset limit : Z)
    : M MockLedgerStore (list StreamSpendRecord) :=
  gets (λ s, js_slice (default [] (tr_spends (st_treasury s) !! streamId)) offset (offset + limit)).

Definition get_stream_remaining (streamId : Z) : M MockLedgerStore Z :=
  stream ← loadStream streamId;
  mret (bs_totalAllocated stream - bs_totalSpent stream).

Record StreamBudgetReportRecord := mkReport {
  sr_streamId : Z;
  sr_name : string;
  sr_totalAllocated : Z;
  sr_totalSpent : Z;
  sr_remaining : Z;
  sr_utilizationBps : Z;
  sr_isActive : bool;
  sr_daysRemaining : Z;
  sr_spendCount : Z;
  sr_avgSpend : Z;
}.

Definition get_stream_report (clock : LedgerClock) (streamId : Z)
    : M MockLedgerStore StreamBudgetReportRecord :=
  stream ← loadStream streamId;
  let remaining := bs_totalAllocated stream - bs_totalSpent stream in
  let utilizationBps :=
    if 0 <? bs_totalAllocated stream
    then to_number (bs_totalSpent stream * 10000 ÷ᵇ bs_totalAllocated stream) else 0 in
  let naturallyExpired := bs_endLedger stream <? sequence clock in
  let daysRemaining :=
    if bs_isRevoked stream || naturallyExpired || (sequence clock <? bs_startLedger stream) then 0
    else (bs_endLedger stream - sequence clock) / 17280 in
  mret (mkReport streamId (bs_name stream) (bs_totalAllocated stream) (bs_totalSpent stream)
    remaining utilizationBps
    (bs_isActive stream && negb (bs_isRevoked stream) && negb naturallyExpired)
    daysRemaining (bs_spendCount stream)
    (if 0 <? bs_spendCount stream then bs_totalSpent stream ÷ᵇ bs_spendCount stream else 0)).

Record TreasuryBudgetSummaryRecord := mkSummary {
  ts_totalStreams : Z;
  ts_activeStreams : Z;
  ts_totalAllocatedByToken : list (string * Z);
  ts_totalSpentByToken : list (string * Z);
  ts_totalRemainingByToken : list (string * Z);
}.

Definition get_budget_summary (clock : LedgerClock)
    : M MockLedgerStore TreasuryBudgetSummaryRecord :=
  gets (λ store,
    let t := st_treasury store in
    let streams := (map_to_list (tr_streams t)).*2 in
    let activeStreams := List.filter (λ stream,
      bs_isActive stream && negb (bs_isRevoked stream) &&
      (sequence clock <=? bs_endLedger stream)) streams in
    let pair (m : gmap string Z) := (λ token, (token, default 0 (m !! token))) <$> tr_tokenList t in
    let remaining token :=
      default 0 (tr_totalStreamedByToken t !! token) - default 0 (tr_totalSpentByToken t !! token) in
    mkSummary (Z.of_nat (length streams)) (Z.of_nat (length activeStreams))
      (pair (tr_totalStreamedByToken t)) (pair (tr_totalSpentByToken t))
      ((λ token, (token, remaining token)) <$> tr_tokenList t)).
End TreasuryExecutor.
Import TreasuryExecutor.

(** ** What a call does to the treasury *)
Definition spent_from (clock : LedgerClock) (amount : Z) (b : BudgetStreamRecord) :
    BudgetStreamRecord :=
  let b := b <| bs_totalSpent ::= λ v, v + amount |> <| bs_lastSpendLedger := sequence clock |>
             <| bs_spendCount ::= λ v, v + 1 |> in
  if bs_totalAllocated b - bs_totalSpent b =? 0 then b <| bs_isActive := false |> else b.

Definition topped_up (clock : LedgerClock) (amount : Z) (b : BudgetStreamRecord) :
    BudgetStreamRecord :=
  let b := b <| bs_totalAllocated ::= λ v, v + amount |> in
  if negb (bs_isActive b) && negb (bs_isRevoked b) && (sequence clock <=? bs_endLedger b)
  then b <| bs_isActive := true |> else b.

Definition spends_of (t : TreasuryState) (id : Z) : list StreamSpendRecord :=
  default [] (tr_spends t !! id).

(** The conditions [validateSpend] checks. *)
Record spend_valid (clock : LedgerClock) (b : BudgetStreamRecord) (owner : string) (amount : Z) :
    Prop := {
  sv_revoked : bs_isRevoked b = false;
  sv_active : bs_isActive b = true;
  sv_owner : owner = bs_owner b;
  sv_window : bs_startLedger b ≤ sequence clock ≤ bs_endLedger b;
  sv_positive : 0 < amount;
  sv_single : amount ≤ bs_maxSingleSpend b;
  sv_budget : amount ≤ bs_totalAllocated b - bs_totalSpent b;
  sv_cooldown : 0 < bs_cooldownLedgers b → 0 < bs_spendCount b →
    bs_cooldownLedgers b ≤ sequence clock - bs_lastSpendLedger b;
}.

Lemma validateSpend_run clock b owner amount s :
  (spend_valid clock b owner amount ∧ validateSpend clock b owner amount s = (Ok tt, s)) ∨
  (¬ spend_valid clock b owner amount ∧ ∃ e, validateSpend clock b owner amount s = (Throw e, s)).
Proof.
  unfold validateSpend. m_run.
  destruct (bs_isRevoked b) eqn:H1; [right; split; [by intros []; congruence|by eexists]|].
  destruct (bs_isActive b) eqn:H2; [|right; split; [by intros []; congruence|by eexists]]. cbn.
  destruct (String.eqb_spec owner (bs_owner b)) as [H3|];
    [|right; split; [by intros []; congruence|by eexists]]. cbn.
  destruct (Z.ltb_spec (sequence clock) (bs_startLedger b)) as [|H4];
    [right; split; [intros []; lia|by eexists]|]. cbn.
  destruct (Z.ltb_spec (bs_endLedger b) (sequence clock)) as [|H5];
    [right; split; [intros []; lia|by eexists]|]. cbn.
  destruct (Z.leb_spec amount 0) as [|H6]; [right; split; [intros []; lia|by eexists]|].
  destruct (Z.ltb_spec (bs_maxSingleSpend b) amount) as [|H7];
    [right; split; [intros []; lia|by eexists]|].
  destruct (Z.ltb_spec (bs_totalAllocated b - bs_totalSpent b) amount) as [|H8];
    [right; split; [intros []; lia|by eexists]|].
  destruct (Z.ltb_spec 0 (bs_cooldownLedgers b)), (Z.ltb_spec 0 (bs_spendCount b)),
    (Z.ltb_spec (sequence clock - bs_lastSpendLedger b) (bs_cooldownLedgers b)); cbn.
  1: right; split; [intros []; lia|by eexists].
  all: left; split; [by split; auto; lia|done].
Qed.

(** The store a spend leaves. *)
Definition spend_result (clock : LedgerClock) (b : BudgetStreamRecord) (id : Z)
    (recipient : string) (amount : Z) (memo : string) (s : MockLedgerStore) : MockLedgerStore :=
  let rs := spends_of (st_treasury s) id in
  let r := mkSpend id (Z.of_nat (length rs)) recipient amount memo (sequence clock) (bs_owner b) in
  on_treasury (λ t, t
    <| tr_streams ::= alter (spent_from clock amount) id |>
    <| tr_spends ::= <[id := rs ++ [r]]> |>
    <| tr_totalSpentByToken ::= addToTotal (bs_token b) amount |>)
    (with_balances (move (a_treasury (st_addresses s)) recipient amount) s).

Lemma transferFromTreasury_run recipient amount s :
  transferFromTreasury recipient amount s =
  if balance_of s (a_treasury (st_addresses s)) <? amount
  then (Throw (MockContractError 18 "treasury has insufficient balance"), s)
  else (Ok tt, with_balances (move (a_treasury (st_addresses s)) recipient amount) s).
Proof.
  unfold transferFromTreasury, balance_of. m_run. by destruct (_ <? amount).
Qed.

Lemma stream_spend_run clock caller owner id recipient amount memo s :
  (∃ b, tr_streams (st_treasury s) !! id = Some b ∧ caller = owner ∧
     spend_valid clock b owner amount ∧ amount ≤ balance_of s (a_treasury (st_addresses s)) ∧
     stream_spend clock caller owner id recipient amount memo s =
       (Ok tt, spend_result clock b id recipient amount memo s)) ∨
  (¬ (∃ b, tr_streams (st_treasury s) !! id = Some b ∧ caller = owner ∧
     spend_valid clock b owner amount ∧ amount ≤ balance_of s (a_treasury (st_addresses s))) ∧
   ∃ e, stream_spend clock caller owner id recipient amount memo s = (Throw e, s)).
Proof.
  unfold stream_spend, requireSigner, loadStream. m_run.
  destruct (String.eqb_spec caller owner) as [->|]; cbn;
    [|right; split; [naive_solver|by eexists]].
  destruct (tr_streams (st_treasury s) !! id) as [b|] eqn:Hb; cbn;
    [|right; split; [naive_solver|by eexists]].
  destruct (validateSpend_run clock b owner amount s) as [[Hv ->]|[Hv [e ->]]];
    [|right; split; [naive_solver|by eexists]].
  rewrite transferFromTreasury_run.
  destruct (Z.ltb_spec (balance_of s (a_treasury (st_addresses s))) amount);
    [right; split; [naive_solver lia|by eexists]|].
  left. exists b. split_and!; [done|done|done|lia|].
  unfold spend_result, update_stream, on_treasury, spends_of, spent_from. cbn.
  rewrite !alter_compose. destruct Hv as [_ _ -> _ _ _ _ _]. done.
Qed.

Definition new_stream (s : MockLedgerStore) (name owner token : string)
    (totalAllocated startLedger endLedger maxSingleSpend cooldownLedgers proposalId : Z) :
    BudgetStreamRecord :=
  mkStream (tr_streamCount (st_treasury s) + 1) name owner token totalAllocated 0 startLedger
    endLedger true false None maxSingleSpend cooldownLedgers 0 0 proposalId.

Inductive treasury_effect (clock : LedgerClock) (t : TreasuryState) : TreasuryState → Prop :=
  | te_same : treasury_effect clock t t
  | te_create b :
    bs_id b = tr_streamCount t + 1 → 0 < bs_totalAllocated b → bs_totalSpent b = 0 →
    bs_spendCount b = 0 → bs_isActive b = true → bs_isRevoked b = false →
    treasury_effect clock t (t
      <| tr_streams ::= <[bs_id b := b]> |>
      <| tr_streamCount := bs_id b |>
      <| tr_tokenList ::= add_token (bs_token b) |>
      <| tr_totalStreamedByToken ::= addToTotal (bs_token b) (bs_totalAllocated b) |>)
  | te_spend id b r :
    tr_streams t !! id = Some b → spend_valid clock b (bs_owner b) (ss_amount r) →
    ss_executedAtLedger r = sequence clock →
    treasury_effect clock t (t
      <| tr_streams ::= alter (spent_from clock (ss_amount r)) id |>
      <| tr_spends ::= <[id := spends_of t id ++ [r]]> |>
      <| tr_totalSpentByToken ::= addToTotal (bs_token b) (ss_amount r) |>)
  | te_top_up id b amount :
    tr_streams t !! id = Some b → bs_isRevoked b = false → 0 < amount →
    treasury_effect clock t (t
      <| tr_streams ::= alter (topped_up clock amount) id |>
      <| tr_totalStreamedByToken ::= addToTotal (bs_token b) amount |>).

Inductive treasury_call :=
  | TrCreate (caller signer name owner token : string)
      (totalAllocated startLedger endLedger maxSingleSpend cooldownLedgers proposalId : Z)
  | TrSpend (caller owner : string) (streamId : Z) (recipient : string) (amount : Z) (memo : string)
  | TrTopUp (caller signer : string) (streamId amount : Z).

Definition treasury_run (clock : LedgerClock) (c : treasury_call) : M MockLedgerStore unit :=
  match c with
  | TrCreate caller signer name owner token a st e m cd p =>
    create_stream clock caller signer name owner token a st e m cd p;; mret tt
  | TrSpend caller owner id r a memo => stream_spend clock caller owner id r a memo
  | TrTopUp caller signer id a => top_up_stream clock caller signer id a
  end.

Lemma create_stream_effect clock caller signer name owner token a st e m cd p s :
  wp (create_stream clock caller signer name owner token a st e m cd p)
    (λ _ s', treasury_effect clock (st_treasury s) (st_treasury s')) (λ _ s', s' = s) s.
Proof.
  unfold create_stream, requireSigner, requireGovernor. wp_go; try done.
  apply (te_create clock (st_treasury s) (new_stream s name owner token a st e m cd p)); cbn;
    try done. by apply Z.leb_gt.
Qed.

Lemma top_up_stream_effect clock caller signer id a s :
  wp (top_up_stream clock caller signer id a)
    (λ _ s', treasury_effect clock (st_treasury s) (st_treasury s')) (λ _ s', s' = s) s.
Proof.
  unfold top_up_stream, requireSigner, requireGovernor, loadStream. wp_go; try done.
  cbn. rewrite alter_compose. apply (te_top_up clock (st_treasury s)); [done|done|]. by apply Z.leb_gt.
Qed.

Lemma treasury_run_effect clock c s :
  treasury_effect clock (st_treasury s) (st_treasury (treasury_run clock c s).2).
Proof.
  assert (∀ m : M MockLedgerStore unit,
    wp m (λ _ s', treasury_effect clock (st_treasury s) (st_treasury s')) (λ _ s', s' = s) s →
    treasury_effect clock (st_treasury s) (st_treasury (m s).2)) as Hwp.
  { intros m H. unfold wp in H. destruct (m s) as [[] s']; [done|]. subst. apply te_same. }
  destruct c as [| caller owner id r a memo |]; cbn [treasury_run].
  - apply Hwp. wp_go. eapply wp_mono; [apply create_stream_effect|intros; by wp_go|done].
  - destruct (stream_spend_run clock caller owner id r a memo s)
      as [(b & Hb & _ & Hv & _ & ->)|[_ [e ->]]]; [|apply te_same].
    pose proof (sv_owner _ _ _ _ Hv) as ->.
    apply (te_spend clock (st_treasury s) id b
      (mkSpend id (Z.of_nat (length (spends_of (st_treasury s) id))) r a memo (sequence clock) (bs_owner b)));
      done.
  - apply Hwp, top_up_stream_effect.
Qed.

(** ** The invariant of a stream *)
Definition amounts (rs : list StreamSpendRecord) : list Z := ss_amount <$> rs.

(** Successive spends are the cooldown apart. *)
Fixpoint spaced (gap : Z) (rs : list StreamSpendRecord) : Prop :=
  match rs with
  | r1 :: ((r2 :: _) as rs') => gap ≤ ss_executedAtLedger r2 - ss_executedAtLedger r1 ∧ spaced gap rs'
  | _ => True
  end.

Record stream_ok (t : TreasuryState) (id : Z) (b : BudgetStreamRecord) : Prop := {
  so_id : id ≤ tr_streamCount t;
  so_spent : bs_totalSpent b = sum_list_Z (amounts (spends_of t id));
  so_count : bs_spendCount b = Z.of_nat (length (spends_of t id));
  so_positive : Forall (λ x, 0 < x) (amounts (spends_of t id));
  so_budget : bs_totalSpent b ≤ bs_totalAllocated b;
  so_allocated : 0 < bs_totalAllocated b;
  so_active : bs_isActive b = true → bs_totalSpent b < bs_totalAllocated b;
  so_last : ∀ r, last (spends_of t id) = Some r → ss_executedAtLedger r = bs_lastSpendLedger b;
  so_spaced : 0 < bs_cooldownLedgers b → spaced (bs_cooldownLedgers b) (spends_of t id);
}.

Definition by_token (f : BudgetStreamRecord → Z) (token : string) (t : TreasuryState) : Z :=
  map_sum (λ _ b, if String.eqb (bs_token b) token then f b else 0) (tr_streams t).

Record treasury_ok (t : TreasuryState) : Prop := {
  to_streams : ∀ id b, tr_streams t !! id = Some b → stream_ok t id b;
  to_spends : ∀ id, tr_streams t !! id = None → tr_spends t !! id = None;
  to_allocated : ∀ token, default 0 (tr_totalStreamedByToken t !! token) =
    by_token bs_totalAllocated token t;
  to_spent : ∀ token, default 0 (tr_totalSpentByToken t !! token) = by_token bs_totalSpent token t;
  to_nodup : NoDup (tr_tokenList t);
  to_tokens : ∀ id b, tr_streams t !! id = Some b → bs_token b ∈ tr_tokenList t;
}.

Lemma addToTotal_at token a m k :
  default 0 (addToTotal token a m !! k) = default 0 (m !! k) + if String.eqb token k then a else 0.
Proof.
  unfold addToTotal. destruct (String.eqb_spec token k) as [->|].
  - rewrite lookup_insert_eq. done.
  - rewrite lookup_insert_ne by done. lia.
Qed.

Lemma spaced_snoc gap rs r :
  spaced gap rs → (∀ x, last rs = Some x → gap ≤ ss_executedAtLedger r - ss_executedAtLedger x) →
  spaced gap (rs ++ [r]).
Proof.
  induction rs as [|r1 [|r2 rs] IH]; intros Hs Hl; [done|by split; auto|].
  destruct Hs as [Hgap Hs]. split; [done|]. apply IH; [done|]. intros x Hx. apply Hl. done.
Qed.

Lemma add_token_in token l : token ∈ add_token token l.
Proof. unfold add_token. case_bool_decide; [done|]. set_solver. Qed.
Lemma add_token_mono token l x : x ∈ l → x ∈ add_token token l.
Proof. unfold add_token. case_bool_decide; set_solver. Qed.
Lemma add_token_nodup token l : NoDup l → NoDup (add_token token l).
Proof.
  unfold add_token. case_bool_decide; [done|]. intros Hl. apply NoDup_app. split_and!; [done| |].
  - set_solver.
  - apply NoDup_singleton.
Qed.

(** A stream that the step did not touch. *)
Lemma stream_ok_frame t t' id b :
  stream_ok t id b → tr_streamCount t ≤ tr_streamCount t' → spends_of t' id = spends_of t id →
  stream_ok t' id b.
Proof. intros [] Hc Hs. split; rewrite ?Hs; try done. lia. Qed.

Lemma spent_from_fields clock a b :
  bs_token (spent_from clock a b) = bs_token b ∧
  bs_totalAllocated (spent_from clock a b) = bs_totalAllocated b ∧
  bs_totalSpent (spent_from clock a b) = bs_totalSpent b + a ∧
  bs_spendCount (spent_from clock a b) = bs_spendCount b + 1 ∧
  bs_lastSpendLedger (spent_from clock a b) = sequence clock ∧
  bs_cooldownLedgers (spent_from clock a b) = bs_cooldownLedgers b ∧
  (bs_isActive (spent_from clock a b) = true → bs_totalSpent b + a ≠ bs_totalAllocated b).
Proof.
  unfold spent_from. cbn.
  destruct (Z.eqb_spec (bs_totalAllocated b - (bs_totalSpent b + a)) 0); cbn;
    split_and!; try done. intros _. lia.
Qed.

Lemma topped_up_fields clock a b :
  bs_token (topped_up clock a b) = bs_token b ∧
  bs_totalAllocated (topped_up clock a b) = bs_totalAllocated b + a ∧
  bs_totalSpent (topped_up clock a b) = bs_totalSpent b ∧
  bs_spendCount (topped_up clock a b) = bs_spendCount b ∧
  bs_lastSpendLedger (topped_up clock a b) = bs_lastSpendLedger b ∧
  bs_cooldownLedgers (topped_up clock a b) = bs_cooldownLedgers b.
Proof. unfold topped_up. by case_match. Qed.

Lemma spend_stream_ok clock t id b r t' :
  stream_ok t id b → spend_valid clock b (bs_owner b) (ss_amount r) →
  ss_executedAtLedger r = sequence clock →
  tr_streamCount t' = tr_streamCount t → spends_of t' id = spends_of t id ++ [r] →
  stream_ok t' id (spent_from clock (ss_amount r) b).
Proof.
  intros [Hid Hsp Hc Hpos Hbud Hal Hact Hlast Hspace] Hv Hr Hcount Hrs.
  destruct (spent_from_fields clock (ss_amount r) b) as (E1 & E2 & E3 & E4 & E5 & E6 & E7).
  destruct Hv as [_ _ _ _ Hp _ Hle Hcd].
  split; rewrite ?Hrs, ?E2, ?E3, ?E4, ?E5, ?E6, ?Hcount; unfold amounts in *;
    rewrite ?fmap_app, ?sum_list_Z_app, ?length_app; try done.
  - rewrite Hsp. cbn. lia.
  - rewrite Hc. cbn. lia.
  - apply Forall_app. split; [done|]. by constructor.
  - lia.
  - intros Ha%E7. lia.
  - rewrite last_snoc. by intros r' [= <-].
  - intros Hcool. apply spaced_snoc; [auto|]. intros x Hx. rewrite Hr, (Hlast _ Hx). apply Hcd; [done|].
    rewrite Hc. destruct (spends_of t id); [done|cbn; lia].
Qed.

Lemma top_up_stream_ok clock t id b a t' :
  stream_ok t id b → 0 < a →
  tr_streamCount t' = tr_streamCount t → spends_of t' id = spends_of t id →
  stream_ok t' id (topped_up clock a b).
Proof.
  intros [Hid Hsp Hc Hpos Hbud Hal Hact Hlast Hspace] Ha Hcount Hrs.
  destruct (topped_up_fields clock a b) as (E1 & E2 & E3 & E4 & E5 & E6).
  split; rewrite ?Hrs, ?E2, ?E3, ?E4, ?E5, ?E6, ?Hcount; try done; lia.
Qed.

(** An update of one stream, seen by the invariant. *)
Lemma treasury_update_ok t t' id b f (da ds : Z) :
  treasury_ok t → tr_streams t !! id = Some b →
  tr_streams t' = alter f id (tr_streams t) →
  tr_streamCount t' = tr_streamCount t → tr_tokenList t' = tr_tokenList t →
  (∀ i, i ≠ id → tr_spends t' !! i = tr_spends t !! i) →
  bs_token (f b) = bs_token b →
  bs_totalAllocated (f b) = bs_totalAllocated b + da → bs_totalSpent (f b) = bs_totalSpent b + ds →
  (∀ k, default 0 (tr_totalStreamedByToken t' !! k) =
    default 0 (tr_totalStreamedByToken t !! k) + if String.eqb (bs_token b) k then da else 0) →
  (∀ k, default 0 (tr_totalSpentByToken t' !! k) =
    default 0 (tr_totalSpentByToken t !! k) + if String.eqb (bs_token b) k then ds else 0) →
  stream_ok t' id (f b) →
  treasury_ok t'.
Proof.
  intros [Hst Hsp Hal Hspt Hnd Htok] Hb Es Ec El Eo Et Ea Esp Hta Hts Hok.
  split; rewrite ?El, ?Es; try done.
  - intros i x. rewrite lookup_alter_Some. intros [(<- & y & Hy & ->)|[Hne Hx]].
    + by simplify_eq.
    + eapply stream_ok_frame; [by apply Hst|lia|]. unfold spends_of. by rewrite Eo.
  - intros i. rewrite lookup_alter_None. intros Hi. rewrite Eo; [by apply Hsp|]. by intros ->; simplify_eq.
  - intros k. unfold by_token. rewrite Es, (map_sum_alter _ _ _ _ b Hb), Et, Ea, Hta, Hal.
    unfold by_token. destruct (String.eqb _ k); lia.
  - intros k. unfold by_token. rewrite Es, (map_sum_alter _ _ _ _ b Hb), Et, Esp, Hts, Hspt.
    unfold by_token. destruct (String.eqb _ k); lia.
  - intros i x. rewrite lookup_alter_Some. intros [(<- & y & Hy & ->)|[Hne Hx]].
    + simplify_eq. rewrite Et. by eapply Htok.
    + by eapply Htok.
Qed.

Lemma treasury_create_ok t b :
  treasury_ok t → bs_id b = tr_streamCount t + 1 → 0 < bs_totalAllocated b →
  bs_totalSpent b = 0 → bs_spendCount b = 0 →
  treasury_ok (t <| tr_streams ::= <[bs_id b := b]> |> <| tr_streamCount := bs_id b |>
    <| tr_tokenList ::= add_token (bs_token b) |>
    <| tr_totalStreamedByToken ::= addToTotal (bs_token b) (bs_totalAllocated b) |>).
Proof.
  intros [Hst Hsp Hal Hspt Hnd Htok] Hid Hpos H0 Hc0.
  assert (tr_streams t !! bs_id b = None) as Hnew.
  { destruct (tr_streams t !! bs_id b) as [x|] eqn:Hx; [|done].
    pose proof (so_id _ _ _ (Hst _ _ Hx)). lia. }
  pose proof (Hsp _ Hnew) as Hnone.
  split; cbn -[addToTotal].
  - intros i x. rewrite lookup_insert_Some. intros [[<- <-]|[Hne Hx]].
    + split; unfold spends_of; cbn; rewrite ?Hnone; cbn; try done; lia.
    + eapply stream_ok_frame; [by apply Hst| |done]. cbn. lia.
  - intros i. rewrite lookup_insert_None. intros [Hi _]. by apply Hsp.
  - intros k. rewrite addToTotal_at, Hal. unfold by_token. cbn. rewrite map_sum_insert_new by done.
    destruct (String.eqb _ k); lia.
  - intros k. rewrite Hspt. unfold by_token. cbn. rewrite map_sum_insert_new, H0 by done.
    by destruct (String.eqb _ k).
  - by apply add_token_nodup.
  - intros i x. rewrite lookup_insert_Some. intros [[<- <-]|[Hne Hx]].
    + apply add_token_in.
    + apply add_token_mono. by eapply Htok.
Qed.

Lemma treasury_effect_ok clock t t' : treasury_effect clock t t' → treasury_ok t → treasury_ok t'.
Proof.
  intros Heff Hok.
  destruct Heff as [|b Hid Hpos Hs0 Hc0 Hact Hrev|id b r Hb Hv Hr|id b a Hb Hrev Ha].
  - done.
  - by apply treasury_create_ok.
  - destruct (spent_from_fields clock (ss_amount r) b) as (E1 & E2 & E3 & _).
    eapply (treasury_update_ok t _ id b (spent_from clock (ss_amount r)) 0 (ss_amount r));
      try done; cbn -[addToTotal].
    + intros i Hi. by rewrite lookup_insert_ne.
    + lia.
    + intros k. destruct (String.eqb _ k); lia.
    + intros k. apply addToTotal_at.
    + eapply spend_stream_ok; [by apply (to_streams _ Hok)|done|done|done|].
      unfold spends_of. cbn. by rewrite lookup_insert_eq.
  - destruct (topped_up_fields clock a b) as (E1 & E2 & E3 & _).
    eapply (treasury_update_ok t _ id b (topped_up clock a) a 0); try done; cbn -[addToTotal].
    + lia.
    + intros k. apply addToTotal_at.
    + intros k. destruct (String.eqb _ k); lia.
    + eapply top_up_stream_ok; [by apply (to_streams _ Hok)|done|done|done].
Qed.

(** ** Histories *)

(** A treasury call at any ledger, or anything that leaves the treasury alone. *)
Inductive treasury_step (s s' : MockLedgerStore) : Prop :=
  | tr_call clock c : s' = (treasury_run clock c s).2 → treasury_step s s'
  | tr_env : st_treasury s' = st_treasury s → treasury_step s s'.

Definition treasury_boot (s : MockLedgerStore) : Prop :=
  tr_streams (st_treasury s) = ∅ ∧ tr_spends (st_treasury s) = ∅ ∧ tr_tokenList (st_treasury s) = [] ∧
  tr_totalStreamedByToken (st_treasury s) = ∅ ∧ tr_totalSpentByToken (st_treasury s) = ∅.

Lemma treasury_history_ok s s' :
  treasury_boot s → rtc treasury_step s s' → treasury_ok (st_treasury s').
Proof.
  intros (H1 & H2 & H3 & H4 & H5) Hsteps.
  assert (treasury_ok (st_treasury s)) as H0.
  { split; unfold by_token; rewrite ?H1, ?H2, ?H3, ?H4, ?H5; try done; constructor. }
  clear H1 H2 H3 H4 H5. revert H0. induction Hsteps as [|s s1 s' Hstep _ IH]; intros H0; [done|].
  apply IH. destruct Hstep as [clock c ->| ->]; [|done].
  eapply treasury_effect_ok; [apply treasury_run_effect|done].
Qed.

(** ** Properties *)

(** C11: streams stay within their budget.  In every history, each stream has
    spent exactly the sum of its recorded spends, all of them positive, never
    more than it was allocated, and it is inactive once nothing is left; and
    the per-token totals that [get_budget_summary] reports are the sums over
    the streams of that token. *)
Theorem streams_within_budget s0 s :
  treasury_boot s0 → rtc treasury_step s0 s →
  (∀ id b, tr_streams (st_treasury s) !! id = Some b →
    bs_totalSpent b = sum_list_Z (amounts (spends_of (st_treasury s) id)) ∧
    Forall (λ x, 0 < x) (amounts (spends_of (st_treasury s) id)) ∧
    bs_spendCount b = Z.of_nat (length (spends_of (st_treasury s) id)) ∧
    0 ≤ bs_totalSpent b ≤ bs_totalAllocated b ∧
    (bs_totalSpent b = bs_totalAllocated b → bs_isActive b = false)) ∧
  (∀ token, default 0 (tr_totalStreamedByToken (st_treasury s) !! token) =
      by_token bs_totalAllocated token (st_treasury s) ∧
    default 0 (tr_totalSpentByToken (st_treasury s) !! token) =
      by_token bs_totalSpent token (st_treasury s)).
Proof.
  intros Hboot Hsteps. pose proof (treasury_history_ok _ _ Hboot Hsteps) as [Hst _ Hal Hsp _ _].
  split; [|done]. intros id b Hb. destruct (Hst _ _ Hb) as [_ H1 H2 H3 H4 H5 H6 _ _].
  split_and!; try done.
  - rewrite H1. apply sum_list_Z_nonneg. eapply Forall_impl; [exact H3|]. cbn. lia.
  - intros E. destruct (bs_isActive b); [|done]. specialize (H6 eq_refl). lia.
Qed.

(** A treasury with 100 tokens and one stream, spent from twice. *)
Module Examples.
Import StoreExamples.
Definition funded : MockLedgerStore := with_balances (λ _, {["treasury" := 100]}) store.
Definition run (n : Z) (c : treasury_call) (s : MockLedgerStore) : MockLedgerStore :=
  (treasury_run (clk n) c s).2.
Definition opened := run 1 (TrCreate "gov" "gov" "grants" "bob" "USDC" 30 0 1000 20 5 7) funded.
Definition spent1 := run 10 (TrSpend "bob" "bob" 1 "carol" 10 "first") opened.
Definition spent2 := run 20 (TrSpend "bob" "bob" 1 "carol" 20 "second") spent1.
Definition stream_1 : BudgetStreamRecord :=
  default (mkStream 0 "" "" "" 0 0 0 0 false false None 0 0 0 0 0)
    (tr_streams (st_treasury spent2) !! 1).

Lemma tr_boot : treasury_boot funded.
Proof. by split_and!. Qed.
Lemma tr_step n c s : treasury_step s (run n c s).
Proof. by apply (tr_call _ _ (clk n) c). Qed.
Lemma tr_history : rtc treasury_step funded spent2.
Proof.
  apply (rtc_l _ _ opened); [apply tr_step|]. apply (rtc_l _ _ spent1); [apply tr_step|].
  apply rtc_once, tr_step.
Qed.
End Examples.

Lemma streams_within_budget_witness :
  bs_totalSpent Examples.stream_1 = 30 ∧ bs_isActive Examples.stream_1 = false ∧
  by_token bs_totalSpent "USDC" (st_treasury Examples.spent2) = 30.
Proof.
  destruct (streams_within_budget Examples.funded Examples.spent2 Examples.tr_boot Examples.tr_history)
    as [H1 H2].
  destruct (H1 1 Examples.stream_1) as (E1 & _ & _ & _ & E2); [vm_compute; reflexivity|].
  split; [exact E1|]. split; [apply E2; vm_compute; reflexivity|].
  rewrite <- (proj2 (H2 "USDC")). vm_compute. reflexivity.
Defined.

(** Spends respect the cooldown.  In every history, two successive spends
    of a stream with a cooldown are at least that many ledgers apart. *)
Theorem spends_respect_cooldown s0 s id b i r r' :
  treasury_boot s0 → rtc treasury_step s0 s →
  tr_streams (st_treasury s) !! id = Some b → 0 < bs_cooldownLedgers b →
  spends_of (st_treasury s) id !! i = Some r → spends_of (st_treasury s) id !! S i = Some r' →
  ss_executedAtLedger r + bs_cooldownLedgers b ≤ ss_executedAtLedger r'.
Proof.
  intros Hboot Hsteps Hb Hcd. pose proof (treasury_history_ok _ _ Hboot Hsteps) as Hok.
  pose proof (so_spaced _ _ _ (to_streams _ Hok _ _ Hb) Hcd) as Hspaced. revert i.
  induction (spends_of (st_treasury s) id) as [|r1 [|r2 rs] IH]; intros i; [done|by destruct i|].
  destruct Hspaced as [Hgap Hspaced]. destruct i as [|i]; [|by apply IH].
  cbn. intros [= <-] [= <-]. lia.
Qed.

Lemma spends_respect_cooldown_witness : 10 + 5 ≤ 20.
Proof.
  apply (spends_respect_cooldown Examples.funded Examples.spent2 1 Examples.stream_1 0
    (mkSpend 1 0 "carol" 10 "first" 10 "bob") (mkSpend 1 1 "carol" 20 "second" 20 "bob")
    Examples.tr_boot Examples.tr_history); vm_compute; reflexivity.
Defined.

(** What a spend takes.  [stream_spend] returns exactly when the owner
    signed, the stream exists, is active, open, within its cooldown and limits,
    and the treasury holds the amount.  It then moves the amount to the
    recipient, records it, and updates the stream; otherwise it throws and
    changes nothing. *)
Theorem stream_spend_correct clock caller owner id recipient amount memo s :
  (∀ s', stream_spend clock caller owner id recipient amount memo s = (Ok tt, s') ↔
    ∃ b, tr_streams (st_treasury s) !! id = Some b ∧ caller = owner ∧
      spend_valid clock b owner amount ∧ amount ≤ balance_of s (a_treasury (st_addresses s)) ∧
      s' = spend_result clock b id recipient amount memo s) ∧
  (∀ e s', stream_spend clock caller owner id recipient amount memo s = (Throw e, s') → s' = s).
Proof.
  destruct (stream_spend_run clock caller owner id recipient amount memo s)
    as [(b & Hb & -> & Hv & Hbal & ->)|[Hno [e ->]]].
  - split; [|done]. intros s'. split.
    + intros [= <-]. exists b. by split_and!.
    + intros (b' & Hb' & _ & _ & _ & ->). by simplify_eq.
  - split; [|congruence]. intros s'. split; [done|].
    intros (b & Hb & Hc & Hv & Hbal & _). destruct Hno. by exists b.
Qed.

(** The report is in range.  In every history, the report of a stream has
    a utilisation between 0 and 10000 basis points, non-negative remainder and
    days, and an average spend that, times the number of spends, does not
    exceed what was spent. *)
Theorem stream_report_bounds s0 s clock id b :
  treasury_boot s0 → rtc treasury_step s0 s →
  tr_streams (st_treasury s) !! id = Some b →
  ∃ r, get_stream_report clock id s = (Ok r, s) ∧
    sr_remaining r = bs_totalAllocated b - bs_totalSpent b ∧ 0 ≤ sr_remaining r ∧
    0 ≤ sr_utilizationBps r ≤ 10000 ∧ 0 ≤ sr_daysRemaining r ∧
    0 ≤ sr_avgSpend r * sr_spendCount r ≤ bs_totalSpent b ∧
    (sr_isActive r = true → 0 < sr_remaining r).
Proof.
  intros Hboot Hsteps Hb. pose proof (treasury_history_ok _ _ Hboot Hsteps) as Hok.
  destruct (to_streams _ Hok _ _ Hb) as [_ H1 H2 H3 H4 H5 H6 _ _].
  assert (0 ≤ bs_totalSpent b) as H0.
  { rewrite H1. apply sum_list_Z_nonneg. eapply Forall_impl; [exact H3|]. cbn. lia. }
  unfold get_stream_report, loadStream. m_run. rewrite Hb. cbn -[to_number]. eexists. split; [done|]. cbn -[to_number].
  rewrite (proj2 (Z.ltb_lt _ _) H5).
  assert (0 ≤ bs_totalSpent b * 10000 ÷ᵇ bs_totalAllocated b ≤ 10000) as Hu.
  { rewrite quot_div_nonneg by lia. split; [apply Z.div_pos; lia|].
    apply Z.div_le_upper_bound; lia. }
  rewrite to_number_exact by lia.
  split_and!; try lia.
  - destruct (bs_isRevoked b); cbn; [lia|].
    destruct (Z.ltb_spec (bs_endLedger b) (sequence clock)); cbn; [lia|].
    destruct (_ <? _); [lia|]. apply Z.div_pos; lia.
  - destruct (Z.ltb_spec 0 (bs_spendCount b)); [|lia].
    rewrite quot_div_nonneg by lia. assert (0 ≤ bs_totalSpent b / bs_spendCount b) by (apply Z.div_pos; lia). nia.
  - destruct (Z.ltb_spec 0 (bs_spendCount b)); [|lia].
    rewrite quot_div_nonneg by lia. pose proof (Z.mul_div_le (bs_totalSpent b) (bs_spendCount b)). lia.
  - intros Ha. apply andb_true_iff in Ha as [[Ha _]%andb_true_iff _]. specialize (H6 Ha). lia.
Qed.

Lemma stream_report_bounds_witness :
  ∃ r, get_stream_report (StoreExamples.clk 30) 1 Examples.spent2 = (Ok r, Examples.spent2) ∧
    0 ≤ sr_utilizationBps r ≤ 10000.
Proof.
  destruct (stream_report_bounds Examples.funded Examples.spent2 (StoreExamples.clk 30) 1
    Examples.stream_1 Examples.tr_boot Examples.tr_history) as (r & H1 & _ & _ & H2 & _);
    [vm_compute; reflexivity|].
  exists r. split; [exact H1|exact H2].
Defined.
