(* ===== verification/CoSponsorship.v ===== *)
(** * Co-sponsored drafts

    [tools/simulation/src/mock/co-sponsorship-executor.ts]: a draft collects
    sponsors until their voting power reaches the proposal threshold; its
    creator then turns it into a governor proposal through the registry. *)

From S2P Require Import Prelude SdkErrors Store TokenVotes Proposals ProposalBonds Governor.

Definition on_cosponsorship (f : CoSponsorshipState → CoSponsorshipState) (s : MockLedgerStore) :
    MockLedgerStore :=
  s <| st_coSponsorship ::= f |>.

Definition update_draft (id : Z) (f : CoSponsorshipDraftRecord → CoSponsorshipDraftRecord) :
    MockLedgerStore → MockLedgerStore :=
  on_cosponsorship (λ c, c <| cs_drafts ::= alter f id |>).

Module CoSponsorshipExecutor.

Definition getDraft (id : Z) : M MockLedgerStore CoSponsorshipDraftRecord :=
  store ← get;
  unwrap (cs_drafts (st_coSponsorship store) !! id)
    (MockContractError 1 ("draft " +:+ decimal id +:+ " not found")).

Definition create_draft (clock : LedgerClock) (caller creator description : string)
    (descriptionHash : bytes) (metadataUri : string) (targets fnNames : list string)
    (calldatas : list bytes) : M MockLedgerStore Z :=
  throw_if (negb (String.eqb caller creator))
    (MockContractError 100 "create_draft: creator must authorize this call");;
  throw_if ((length targets =? 0)%nat || negb (length targets =? length fnNames)%nat ||
            negb (length targets =? length calldatas)%nat)
    (MockContractError 2 "create_draft: invalid action");;
  store ← get;
  let id := cs_draftCount (st_coSponsorship store) + 1 in
  let draft :=
    mkDraft id creator description descriptionHash metadataUri targets fnNames calldatas
      (sequence clock) (sequence clock + 7200) [] [] 0 false false in
  modify (on_cosponsorship (λ c, c <| cs_drafts ::= <[id := draft]> |>));;
  modify (on_cosponsorship (λ c, c <| cs_draftCount := id |>));;
  mret id.

Definition draft_closed (clock : LedgerClock) (draft : CoSponsorshipDraftRecord) : bool :=
  d_finalized draft || d_cancelled draft || (d_expiryLedger draft <? sequence clock).

Definition co_sponsor (clock : LedgerClock) (caller sponsor : string) (draftId : Z)
    : M MockLedgerStore unit :=
  throw_if (negb (String.eqb caller sponsor))
    (MockContractError 100 "co_sponsor: sponsor must authorize this call");;
  draft ← getDraft draftId;
  throw_if (draft_closed clock draft) (MockContractError 3 "co_sponsor: draft is closed");;
  throw_if (bool_decide (sponsor ∈ d_coSponsors draft))
    (MockContractError 4 "co_sponsor: sponsor already pledged");;
  power ← on_votes (get_votes sponsor);
  throw_if (power <=? 0) (MockContractError 5 "co_sponsor: sponsor has no voting power");;
  modify (update_draft draftId (λ d, d <| d_coSponsors ::= λ l, l ++ [sponsor] |>));;
  modify (update_draft draftId (λ d, d <| d_coSponsorPower ::= λ l, l ++ [power] |>));;
  modify (update_draft draftId (λ d, d <| d_totalPower ::= λ v, v + power |>)).

Definition finalize_draft (clock : LedgerClock) (caller creator : string) (draftId : Z)
    : M MockLedgerStore Z :=
  throw_if (negb (String.eqb caller creator))
    (MockContractError 100 "finalize_draft: creator must authorize this call");;
  draft ← getDraft draftId;
  throw_if (negb (String.eqb (d_creator draft) creator))
    (MockContractError 6 "finalize_draft: unauthorized creator");;
  throw_if (draft_closed clock draft) (MockContractError 3 "finalize_draft: draft is closed");;
  powers ← map_m (λ sponsor, on_votes (get_votes sponsor)) (d_coSponsors draft);
  let currentPower := foldl Z.add 0 powers in
  store ← get;
  throw_if (currentPower <? gs_proposalThreshold (g_settings (st_governor store)))
    (MockContractError 7 "finalize_draft: threshold not met");;
  let registry := a_coSponsorship (st_addresses store) in
  proposalId ← GovernorExecutor.propose_via_registry clock registry registry (d_creator draft)
    (d_description draft) (d_descriptionHash draft) (d_metadataUri draft) (d_targets draft)
    (d_fnNames draft) (d_calldatas draft);
  modify (update_draft draftId (λ d, d <| d_coSponsorPower := powers |>));;
  modify (update_draft draftId (λ d, d <| d_totalPower := currentPower |>));;
  modify (update_draft draftId (λ d, d <| d_finalized := true |>));;
  mret proposalId.

Definition get_draft (draftId : Z) : M MockLedgerStore CoSponsorshipDraftRecord := getDraft draftId.
End CoSponsorshipExecutor.
Import CoSponsorshipExecutor.

(** ** What the calls do *)

(** The current power of the sponsors of a draft. *)
Definition power_of (s : MockLedgerStore) (a : string) : Z :=
  lastCheckpointVotes (tv_checkpoints (st_votes s) !! a).
Definition powers_of (s : MockLedgerStore) (d : CoSponsorshipDraftRecord) : list Z :=
  power_of s <$> d_coSponsors d.

Definition pledged (sponsor : string) (power : Z) (d : CoSponsorshipDraftRecord) :
    CoSponsorshipDraftRecord :=
  d <| d_coSponsors ::= λ l, l ++ [sponsor] |> <| d_coSponsorPower ::= λ l, l ++ [power] |>
    <| d_totalPower ::= λ v, v + power |>.

Definition finalized (powers : list Z) (d : CoSponsorshipDraftRecord) : CoSponsorshipDraftRecord :=
  d <| d_coSponsorPower := powers |> <| d_totalPower := sum_list_Z powers |>
    <| d_finalized := true |>.

(** The checks [createProposal] makes of a proposal that needs no threshold. *)
Record proposal_admitted (c : LedgerClock) (s : MockLedgerStore) (proposer : string)
    (targets fnNames : list string) (calldatas : list bytes) : Prop := {
  pa_unpaused : gs_isPaused (g_settings (st_governor s)) = false;
  pa_lengths : length targets = length fnNames ∧ length targets = length calldatas;
  pa_targets : targets ≠ [];
  pa_calldata : Forall (λ d, Z.of_nat (length d) ≤ gs_maxCalldataSize (g_settings (st_governor s)))
    calldatas;
  pa_count : (length calldatas ≤ 10)%nat;
  pa_cooldown : cooled_down c s proposer;
  pa_quota : proposals_in_period c s proposer <
    gs_maxProposalsPerPeriod (g_settings (st_governor s));
}.

Lemma createProposal_run c proposer d h u ts fs ds s :
  (proposal_admitted c s proposer ts fs ds ∧
   createProposal c proposer d h u ts fs ds false s =
     (Ok (g_proposalCount (st_governor s) + 1),
      add_proposal c (new_proposal c s proposer d h u ts fs ds) s)) ∨
  (¬ proposal_admitted c s proposer ts fs ds ∧
   ∃ e, createProposal c proposer d h u ts fs ds false s = (Throw e, s)).
Proof.
  unfold createProposal. m_run.
  destruct (gs_isPaused (g_settings (st_governor s))) eqn:H1;
    [right; split; [by intros []; congruence|by eexists]|].
  destruct (Nat.eqb_spec (length ts) (length fs)) as [H2|];
    [|right; split; [intros []; lia|by eexists]]. cbn [negb orb].
  destruct (Nat.eqb_spec (length ts) (length ds)) as [H3|];
    [|right; split; [intros []; lia|by eexists]]. cbn [negb orb].
  destruct (Nat.eqb_spec (length ts) 0) as [|H4];
    [right; split; [intros []; by destruct ts|by eexists]|].
  destruct (existsb _ ds) eqn:H5.
  { right. split; [|by eexists]. intros [_ _ _ Hall _ _ _]. apply existsb_exists in H5 as (x & Hx & Hlt).
    apply list_elem_of_In in Hx. rewrite Forall_forall in Hall. specialize (Hall _ Hx).
    apply Z.ltb_lt in Hlt. lia. }
  destruct (Nat.ltb_spec 10 (length ds)); [right; split; [intros []; lia|by eexists]|].
  unfold mret, M_ret; cbn beta iota. erewrite on_votes_read by done. cbn -[proposal_period_key default].
  destruct (match _ with Some _ => _ | None => _ end) eqn:H6.
  { right. split; [|by eexists]. intros [_ _ _ _ _ Hc _].
    destruct (_ !! proposer) as [l|] eqn:Hl; [|done]. specialize (Hc _ Hl).
    apply Z.ltb_lt in H6. lia. }
  destruct (Z.leb_spec (gs_maxProposalsPerPeriod (g_settings (st_governor s)))
    (default 0 (g_proposalsInPeriod (st_governor s) !! proposal_period_key proposer (sequence c)
      (gs_proposalPeriodDuration (g_settings (st_governor s)))))) as [|H7].
  { right. split; [|by eexists]. intros []. unfold proposals_in_period, period_key in *. lia. }
  left. split; [|done]. split; try done.
  - by intros ->.
  - apply Forall_forall. intros x Hx. apply Z.le_ngt. intros Hlt.
    assert (existsb (λ d, gs_maxCalldataSize (g_settings (st_governor s)) <? Z.of_nat (length d)) ds
      = true) as Hex; [|by rewrite Hex in H5].
    apply existsb_exists. exists x. split; [by apply list_elem_of_In|by apply Z.ltb_lt].
  - intros l Hl. rewrite Hl in H6. by apply Z.ltb_ge in H6.
Qed.

(** Whether a draft can be finalized now. *)
Record finalizable (c : LedgerClock) (s : MockLedgerStore) (creator : string)
    (d : CoSponsorshipDraftRecord) : Prop := {
  fi_creator : d_creator d = creator;
  fi_open : draft_closed c d = false;
  fi_power : gs_proposalThreshold (g_settings (st_governor s)) ≤ sum_list_Z (powers_of s d);
  fi_proposal : proposal_admitted c s creator (d_targets d) (d_fnNames d) (d_calldatas d);
}.

Definition draft_proposal (c : LedgerClock) (s : MockLedgerStore) (d : CoSponsorshipDraftRecord) :
    ProposalRecord :=
  new_proposal c s (d_creator d) (d_description d) (d_descriptionHash d) (d_metadataUri d)
    (d_targets d) (d_fnNames d) (d_calldatas d).

Lemma update_draft_compose id f g s :
  update_draft id f (update_draft id g s) = update_draft id (f ∘ g) s.
Proof. unfold update_draft, on_cosponsorship. cbn. by rewrite alter_compose. Qed.

Lemma update_draft_pledged id sponsor power s :
  update_draft id (λ d, d <| d_totalPower ::= λ v, v + power |>)
    (update_draft id (λ d, d <| d_coSponsorPower ::= λ l, l ++ [power] |>)
      (update_draft id (λ d, d <| d_coSponsors ::= λ l, l ++ [sponsor] |>) s)) =
  update_draft id (pledged sponsor power) s.
Proof. by rewrite !update_draft_compose. Qed.
Lemma update_draft_finalized id powers total s :
  total = sum_list_Z powers →
  update_draft id (λ d, d <| d_finalized := true |>)
    (update_draft id (λ d, d <| d_totalPower := total |>)
      (update_draft id (λ d, d <| d_coSponsorPower := powers |>) s)) =
  update_draft id (finalized powers) s.
Proof. intros ->. by rewrite !update_draft_compose. Qed.

Lemma power_read s a : on_votes (get_votes a) s = (Ok (power_of s a), s).
Proof. by apply on_votes_read. Qed.

Lemma co_sponsor_run clock caller sponsor id s :
  (∃ d, caller = sponsor ∧ cs_drafts (st_coSponsorship s) !! id = Some d ∧
    draft_closed clock d = false ∧ sponsor ∉ d_coSponsors d ∧ 0 < power_of s sponsor ∧
    co_sponsor clock caller sponsor id s =
      (Ok tt, update_draft id (pledged sponsor (power_of s sponsor)) s)) ∨
  (∃ e, co_sponsor clock caller sponsor id s = (Throw e, s)).
Proof.
  unfold co_sponsor, getDraft. m_run. destruct (String.eqb_spec caller sponsor) as [->|]; [|by right; eexists].
  cbn -[on_votes power_of createProposal]. destruct (_ !! id) as [d|] eqn:Hd; [|by right; eexists]. cbn -[on_votes power_of createProposal].
  destruct (draft_closed clock d) eqn:Hc; [by right; eexists|].
  case_bool_decide as Hin; [by right; eexists|].
  cbn -[on_votes power_of createProposal]. rewrite power_read. destruct (Z.leb_spec (power_of s sponsor) 0); [by right; eexists|].
  left. exists d. split_and!; try done. cbn -[on_votes power_of createProposal]. f_equal. apply update_draft_pledged.
Qed.

Lemma finalize_draft_run clock caller creator id s :
  (∃ d, caller = creator ∧ cs_drafts (st_coSponsorship s) !! id = Some d ∧
    finalizable clock s creator d ∧
    finalize_draft clock caller creator id s =
      (Ok (g_proposalCount (st_governor s) + 1),
       update_draft id (finalized (powers_of s d)) (add_proposal clock (draft_proposal clock s d) s))) ∨
  ((∀ d, caller = creator → cs_drafts (st_coSponsorship s) !! id = Some d →
      ¬ finalizable clock s creator d) ∧
   ∃ e, finalize_draft clock caller creator id s = (Throw e, s)).
Proof.
  unfold finalize_draft, getDraft, GovernorExecutor.propose_via_registry. m_run.
  destruct (String.eqb_spec caller creator) as [->|]; [|right; split; [done|by eexists]].
  cbn -[on_votes power_of createProposal]. destruct (_ !! id) as [d|] eqn:Hd; [|right; split; [done|by eexists]]. cbn -[on_votes power_of createProposal].
  destruct (String.eqb_spec (d_creator d) creator) as [Hcr|];
    [|right; split; [by intros ? _ [= ->] []|by eexists]].
  destruct (draft_closed clock d) eqn:Hcl;
    [right; split; [intros ? _ [= ->] []; congruence|by eexists]|].
  cbn -[on_votes power_of createProposal]. erewrite map_m_read by apply power_read. cbn -[on_votes power_of createProposal]. rewrite foldl_add_sum, Z.add_0_l.
  fold (powers_of s d).
  destruct (Z.ltb_spec (sum_list_Z (powers_of s d)) (gs_proposalThreshold (g_settings (st_governor s))));
    [right; split; [intros ? _ [= ->] []; lia|by eexists]|].
  rewrite !String.eqb_refl. cbn -[on_votes power_of createProposal].
  rewrite String.eqb_refl. cbn -[on_votes power_of createProposal].
  destruct (createProposal_run clock (d_creator d) (d_description d) (d_descriptionHash d)
    (d_metadataUri d) (d_targets d) (d_fnNames d) (d_calldatas d) s) as [[Hadm ->]|[Hadm [e ->]]].
  - left. exists d. split_and!; try done.
    + by split; [| | |rewrite <- Hcr].
    + f_equal. by apply update_draft_finalized.
  - right. split; [|by eexists]. intros ? _ [= ->] []. by rewrite <- Hcr in *.
Qed.

(** ** Histories *)
Inductive cosponsor_call :=
  | CsCreate (caller creator description : string) (descriptionHash : bytes) (metadataUri : string)
      (targets fnNames : list string) (calldatas : list bytes)
  | CsSponsor (caller sponsor : string) (draftId : Z)
  | CsFinalize (caller creator : string) (draftId : Z).

Definition cosponsor_run (clock : LedgerClock) (c : cosponsor_call) : M MockLedgerStore unit :=
  match c with
  | CsCreate caller creator d h u ts fs ds =>
    create_draft clock caller creator d h u ts fs ds;; mret tt
  | CsSponsor caller sponsor id => co_sponsor clock caller sponsor id
  | CsFinalize caller creator id => finalize_draft clock caller creator id;; mret tt
  end.

(** A world moves by a call, by the clock, or by anything that leaves the
    drafts alone: votes, delegations, governor calls. *)
Inductive draft_step : LedgerClock * MockLedgerStore → LedgerClock * MockLedgerStore → Prop :=
  | ds_call clock c s : draft_step (clock, s) (clock, (cosponsor_run clock c s).2)
  | ds_time clock clock' s : sequence clock ≤ sequence clock' → draft_step (clock, s) (clock', s)
  | ds_other clock s s' : st_coSponsorship s' = st_coSponsorship s → draft_step (clock, s) (clock, s').

(** What a call can do to the drafts. *)
Inductive draft_effect (clock : LedgerClock) (s : MockLedgerStore) : CoSponsorshipState → Prop :=
  | de_same : draft_effect clock s (st_coSponsorship s)
  | de_created d :
    d_coSponsors d = [] → d_coSponsorPower d = [] → d_totalPower d = 0 → d_finalized d = false →
    d_cancelled d = false → d_id d = cs_draftCount (st_coSponsorship s) + 1 →
    d_expiryLedger d = d_createdLedger d + 7200 →
    draft_effect clock s
      (mkCoSponsorship (<[d_id d := d]> (cs_drafts (st_coSponsorship s))) (d_id d))
  | de_updated id d f :
    cs_drafts (st_coSponsorship s) !! id = Some d → draft_closed clock d = false →
    (∃ a, a ∉ d_coSponsors d ∧ 0 < power_of s a ∧ f = pledged a (power_of s a)) ∨
      f = finalized (powers_of s d) →
    draft_effect clock s
      (mkCoSponsorship (alter f id (cs_drafts (st_coSponsorship s))) (cs_draftCount (st_coSponsorship s))).

Lemma cosponsor_run_effect clock c s :
  draft_effect clock s (st_coSponsorship (cosponsor_run clock c s).2).
Proof.
  destruct c as [caller creator d h u ts fs ds|caller sponsor id|caller creator id];
    unfold cosponsor_run.
  - unfold create_draft. m_run.
    destruct (negb _); [constructor|]. cbn. destruct (_ || _); [constructor|].
    cbn. set (d0 := mkDraft _ _ _ _ _ _ _ _ _ _ _ _ _ _ _).
    by apply (de_created clock s d0).
  - destruct (co_sponsor_run clock caller sponsor id s)
      as [(d & _ & Hd & Hc & Hn & Hp & ->)|[e ->]]; [|constructor].
    apply (de_updated clock s id d (pledged sponsor (power_of s sponsor)) Hd Hc). left. by exists sponsor.
  - destruct (finalize_draft_run clock caller creator id s)
      as [(d & _ & Hd & [_ Hc _ _] & Hrun)|[_ [e Hrun]]].
    + rewrite (bind_run _ _ _ _ _ Hrun). cbn.
      apply (de_updated clock s id d (finalized (powers_of s d)) Hd Hc). by right.
    + rewrite (bind_throw _ _ _ _ _ Hrun). constructor.
Qed.

(** ** The draft invariant *)
Record draft_ok (d : CoSponsorshipDraftRecord) : Prop := {
  do_nodup : NoDup (d_coSponsors d);
  do_lengths : length (d_coSponsorPower d) = length (d_coSponsors d);
  do_total : d_totalPower d = sum_list_Z (d_coSponsorPower d);
  do_positive : d_finalized d = false → Forall (λ x, 0 < x) (d_coSponsorPower d);
  do_expiry : d_expiryLedger d = d_createdLedger d + 7200;
  do_cancelled : d_cancelled d = false;
}.

Record drafts_ok (cs : CoSponsorshipState) : Prop := {
  dr_each : ∀ id d, cs_drafts cs !! id = Some d → d_id d = id ∧ draft_ok d;
  dr_count : 0 ≤ cs_draftCount cs;
  dr_ids : ∀ id, is_Some (cs_drafts cs !! id) ↔ 0 < id ≤ cs_draftCount cs;
}.

Lemma power_of_nonneg_length s d : length (powers_of s d) = length (d_coSponsors d).
Proof. unfold powers_of. by rewrite length_fmap. Qed.

Lemma pledged_ok a x d :
  a ∉ d_coSponsors d → 0 < x → d_finalized d = false → draft_ok d → draft_ok (pledged a x d).
Proof.
  intros Ha Hx Hf [H1 H2 H3 H4 H5 H6]. split; cbn; try done.
  - apply NoDup_app. split_and!; [done| |apply NoDup_singleton].
    intros y Hy Hy'. apply list_elem_of_singleton in Hy' as ->. done.
  - rewrite !length_app. cbn. lia.
  - rewrite sum_list_Z_app, H3. cbn. lia.
  - intros _. apply Forall_app. split; [by apply H4|by apply Forall_singleton].
Qed.
Lemma finalized_ok s d : draft_ok d → draft_ok (finalized (powers_of s d) d).
Proof.
  intros [H1 H2 H3 H4 H5 H6]. split; cbn; try done. apply power_of_nonneg_length.
Qed.

Lemma draft_closed_false clock d :
  draft_closed clock d = false →
  d_finalized d = false ∧ d_cancelled d = false ∧ sequence clock ≤ d_expiryLedger d.
Proof.
  unfold draft_closed. intros [[H1 H2]%orb_false_iff H3]%orb_false_iff.
  split_and!; [done|done|]. by apply Z.ltb_ge.
Qed.

Lemma draft_effect_ok clock s cs :
  draft_effect clock s cs → drafts_ok (st_coSponsorship s) → drafts_ok cs.
Proof.
  intros He [Heach Hcount Hids]. destruct He as [|d H1 H2 H3 H4 H5 H6 H7|id d f Hd Hc Hf]; [done| |].
  - split; cbn.
    + intros i b. rewrite lookup_insert_Some. intros [[<- <-]|[_ Hb]]; [|by apply Heach].
      split; [done|]. split; rewrite ?H1, ?H2, ?H3; try done. constructor.
    + lia.
    + intros i. rewrite lookup_insert_is_Some, Hids. lia.
  - apply draft_closed_false in Hc as (Hfin & _ & _). destruct (Heach _ _ Hd) as [Hid Hok].
    split; cbn; [|done|].
    + intros i b. rewrite lookup_alter_Some. intros [(<- & x & Hx & ->)|[_ Hb]]; [|by apply Heach].
      rewrite Hd in Hx. injection Hx as <-.
      destruct Hf as [(a & Ha & Hp & ->)| ->]; (split; [exact Hid|]).
      * by apply pledged_ok.
      * by apply finalized_ok.
    + intros i. by rewrite lookup_alter_is_Some, Hids.
Qed.

Lemma draft_history_ok w w' :
  rtc draft_step w w' → drafts_ok (st_coSponsorship w.2) → drafts_ok (st_coSponsorship w'.2).
Proof.
  induction 1 as [|w1 w2 w3 Hstep _ IH]; [done|]. intros Hok. apply IH.
  destruct Hstep as [clock c s|clock clock' s Hle|clock s s' Heq]; cbn in *; [|done|by rewrite Heq].
  eapply draft_effect_ok; [apply cosponsor_run_effect|done].
Qed.

Definition no_drafts (s : MockLedgerStore) : Prop := st_coSponsorship s = mkCoSponsorship ∅ 0.

Lemma no_drafts_ok s : no_drafts s → drafts_ok (st_coSponsorship s).
Proof.
  intros ->. split; cbn; [done|lia|]. intros id. rewrite lookup_empty. split; [by intros []|lia].
Qed.

Lemma closed_step w w' id d :
  draft_step w w' → cs_drafts (st_coSponsorship w.2) !! id = Some d → draft_closed w.1 d = true →
  drafts_ok (st_coSponsorship w.2) →
  cs_drafts (st_coSponsorship w'.2) !! id = Some d ∧ draft_closed w'.1 d = true.
Proof.
  intros Hstep Hd Hc Hok. destruct Hstep as [clock c s|clock clock' s Hle|clock s s' Heq]; cbn in *.
  - split; [|done]. destruct (cosponsor_run_effect clock c s) as [|d' _ _ _ _ _ Hid _|id' d' f Hd' Hc' _].
    + done.
    + cbn. rewrite lookup_insert_ne; [done|]. intros Heq.
      destruct (proj1 (dr_ids _ Hok id) (mk_is_Some _ _ Hd)). lia.
    + cbn. rewrite lookup_alter_ne; [done|]. intros ->. congruence.
  - split; [done|]. unfold draft_closed in *. apply orb_true_iff in Hc as [-> |Hlt]; [done|].
    apply Z.ltb_lt in Hlt. apply orb_true_iff. right. apply Z.ltb_lt. lia.
  - by rewrite Heq.
Qed.

(** A member pledges, a second one too, and the creator finalizes. *)
Module Examples.
Import StoreExamples.
Definition backed : MockLedgerStore :=
  store <| st_votes ::= λ v, v <| tv_checkpoints :=
    {["bob" := [mkCheckpoint 1 3]; "carol" := [mkCheckpoint 1 4]]} |> |>
    <| st_governor ::= λ g, g <| g_settings ::= λ x, x <| gs_proposalThreshold := 7 |> |> |>.
Definition run (n : Z) (c : cosponsor_call) (s : MockLedgerStore) : MockLedgerStore :=
  (cosponsor_run (clk n) c s).2.
Definition drafted := run 5 (CsCreate "alice" "alice" "lower the fee" [] "ipfs" ["pool"] ["set_fee"] [[]]) backed.
Definition pledged1 := run 5 (CsSponsor "bob" "bob" 1) drafted.
Definition pledged2 := run 5 (CsSponsor "carol" "carol" 1) pledged1.
Definition done := run 5 (CsFinalize "alice" "alice" 1) pledged2.
Definition draft_1 (s : MockLedgerStore) : CoSponsorshipDraftRecord :=
  default (mkDraft 0 "" "" [] "" [] [] [] 0 0 [] [] 0 false false)
    (cs_drafts (st_coSponsorship s) !! 1).

Lemma cs_step c s : draft_step (clk 5, s) (clk 5, run 5 c s).
Proof. apply ds_call. Qed.
Lemma cs_history2 : rtc draft_step (clk 5, backed) (clk 5, pledged2).
Proof.
  apply (rtc_l _ _ (clk 5, drafted)); [apply cs_step|].
  apply (rtc_l _ _ (clk 5, pledged1)); [apply cs_step|]. apply rtc_once, cs_step.
Qed.
Definition world_done : LedgerClock * MockLedgerStore := (clk 5, done).
Lemma cs_history : rtc draft_step (clk 5, backed) world_done.
Proof. apply (rtc_r _ (clk 5, pledged2)); [apply cs_history2|apply cs_step]. Qed.
End Examples.

(** ** Properties *)

(** What [finalize_draft] does, on every input.  It returns exactly when
    the creator calls it on an open draft whose sponsors together still hold
    the proposal threshold, judged by their votes now and not by what they
    pledged, and the governor admits the proposal; it then returns the next
    proposal id, under which the governor holds the draft's proposal in the
    creator's name, and closes the draft with the powers counted.  Otherwise
    it throws and changes nothing. *)
Theorem finalize_draft_correct clock caller creator id s :
  let '(r, s') := finalize_draft clock caller creator id s in
  ((∃ pid, r = Ok pid) ↔
    caller = creator ∧
    ∃ d, cs_drafts (st_coSponsorship s) !! id = Some d ∧ finalizable clock s creator d) ∧
  match r with
  | Ok pid =>
    pid = g_proposalCount (st_governor s) + 1 ∧ g_proposalCount (st_governor s') = pid ∧
    ∃ d, cs_drafts (st_coSponsorship s) !! id = Some d ∧
      g_proposals (st_governor s') !! pid = Some (draft_proposal clock s d) ∧
      cs_drafts (st_coSponsorship s') !! id = Some (finalized (powers_of s d) d)
  | Throw _ => s' = s
  end.
Proof.
  destruct (finalize_draft_run clock caller creator id s)
    as [(d & Hcaller & Hd & Hfi & ->)|[Hno [e ->]]].
  - split; [split; eauto|]. cbn. split_and!; [done|done|]. exists d.
    rewrite lookup_insert_eq, lookup_alter_eq, Hd. done.
  - split; [|done]. split; [by intros [? [=]]|]. intros [? (d & Hd & Hfi)]. by destruct (Hno d).
Qed.

(** The pledges of a draft add up.  In every history that starts without
    drafts, and whatever else happens to the store, the drafts are numbered
    without gaps; each has one recorded power per sponsor, no sponsor twice,
    and a total that is the sum of those powers, all positive until the draft
    is finalized. *)
Theorem draft_pledges_add_up w w' :
  no_drafts w.2 → rtc draft_step w w' →
  (∀ id, is_Some (cs_drafts (st_coSponsorship w'.2) !! id) ↔
     0 < id ≤ cs_draftCount (st_coSponsorship w'.2)) ∧
  ∀ id d, cs_drafts (st_coSponsorship w'.2) !! id = Some d →
    d_id d = id ∧ NoDup (d_coSponsors d) ∧
    length (d_coSponsorPower d) = length (d_coSponsors d) ∧
    d_totalPower d = sum_list_Z (d_coSponsorPower d) ∧
    (d_finalized d = false → Forall (λ x, 0 < x) (d_coSponsorPower d)).
Proof.
  intros H0 Hsteps. pose proof (draft_history_ok _ _ Hsteps (no_drafts_ok _ H0)) as Hok.
  split; [apply Hok|]. intros id d Hd.
  destruct (dr_each _ Hok _ _ Hd) as [Hid []]. by split_and!.
Qed.

Lemma draft_pledges_add_up_witness :
  d_totalPower (Examples.draft_1 Examples.done) = sum_list_Z [3; 4] ∧
  NoDup (d_coSponsors (Examples.draft_1 Examples.done)).
Proof.
  destruct (draft_pledges_add_up _ _ (eq_refl : no_drafts (StoreExamples.clk 5, Examples.backed).2)
    Examples.cs_history) as [_ H].
  destruct (H 1 (Examples.draft_1 Examples.done)) as (_ & H1 & _ & H2 & _); [vm_compute; reflexivity|].
  split; [rewrite H2; vm_compute; reflexivity|exact H1].
Defined.

(** A closed draft is closed for good.  Once a draft of a history is
    finalized or past its expiry, every later history leaves its record as it
    is, and every [co_sponsor] or [finalize_draft] of it throws. *)
Theorem closed_draft_is_final w0 w w' id d :
  no_drafts w0.2 → rtc draft_step w0 w → cs_drafts (st_coSponsorship w.2) !! id = Some d →
  draft_closed w.1 d = true → rtc draft_step w w' →
  cs_drafts (st_coSponsorship w'.2) !! id = Some d ∧
  (∀ caller sponsor, ∃ e, co_sponsor w'.1 caller sponsor id w'.2 = (Throw e, w'.2)) ∧
  (∀ caller creator, ∃ e, finalize_draft w'.1 caller creator id w'.2 = (Throw e, w'.2)).
Proof.
  intros H0 Hpre Hd Hc Hsteps.
  pose proof (draft_history_ok _ _ Hpre (no_drafts_ok _ H0)) as Hok.
  assert (cs_drafts (st_coSponsorship w'.2) !! id = Some d ∧ draft_closed w'.1 d = true) as [Hd' Hc'].
  { clear Hpre. induction Hsteps as [|w1 w2 w3 Hstep Hrest IH]; [done|].
    destruct (closed_step _ _ _ _ Hstep Hd Hc Hok). apply IH; [done|done|].
    by apply (draft_history_ok w1); [apply rtc_once|]. }
  split; [done|]. split; intros caller a.
  - destruct (co_sponsor_run w'.1 caller a id w'.2) as [(d' & _ & Hd2 & Hc2 & _)|He]; [congruence|done].
  - destruct (finalize_draft_run w'.1 caller a id w'.2) as [(d' & _ & Hd2 & [_ Hc2 _ _] & _)|[_ He]];
      [congruence|done].
Qed.

Lemma closed_draft_is_final_witness :
  ∃ e, finalize_draft Examples.world_done.1 "alice" "alice" 1 Examples.world_done.2 =
    (Throw e, Examples.world_done.2).
Proof.
  destruct (closed_draft_is_final (StoreExamples.clk 5, Examples.backed)
    Examples.world_done Examples.world_done 1
    (Examples.draft_1 Examples.done)) as (_ & _ & H);
    [reflexivity|apply Examples.cs_history|vm_compute; reflexivity|vm_compute; reflexivity|constructor|].
  exact (H "alice" "alice").
Defined.

(** How the SDK reads a failed call of this contract. *)
Definition sdk_reads {A} (o : outcome A) : option TypedError :=
  match o with
  | Throw (MockContractError code _) =>
    Some (parseCoSponsorshipError (RawString (toSorobanErrorString code)) None)
  | _ => None
  end.

Definition typed (c : CoSponsorshipErrorCode.t) : TypedError :=
  mkTypedError (CoSponsorshipErrorCode.num c) (CoSponsorshipErrorCode.message c).

(** The error codes of the mock are not those of the contract.  A sponsor
    without voting power is reported by the SDK as having sponsored already, a
    sponsor who pledged before as facing a closed draft, and an unknown draft
    as an initialized contract. *)
Theorem cosponsor_errors_misread clock sponsor id s :
  (∀ d, cs_drafts (st_coSponsorship s) !! id = Some d → draft_closed clock d = false →
    sponsor ∉ d_coSponsors d → power_of s sponsor ≤ 0 →
    sdk_reads (co_sponsor clock sponsor sponsor id s).1 =
      Some (typed CoSponsorshipErrorCode.AlreadyCoSponsored)) ∧
  (∀ d, cs_drafts (st_coSponsorship s) !! id = Some d → draft_closed clock d = false →
    sponsor ∈ d_coSponsors d →
    sdk_reads (co_sponsor clock sponsor sponsor id s).1 =
      Some (typed CoSponsorshipErrorCode.DraftClosed)) ∧
  (cs_drafts (st_coSponsorship s) !! id = None →
    sdk_reads (co_sponsor clock sponsor sponsor id s).1 =
      Some (typed CoSponsorshipErrorCode.AlreadyInitialized)).
Proof.
  unfold co_sponsor, getDraft. m_run. rewrite String.eqb_refl. cbn -[on_votes power_of].
  split_and!.
  - intros d -> Hc Hn Hp. cbn -[on_votes power_of]. rewrite Hc, bool_decide_false by done.
    cbn -[on_votes power_of]. rewrite power_read, (proj2 (Z.leb_le _ _) Hp). vm_compute. reflexivity.
  - intros d -> Hc Hn. cbn -[on_votes power_of]. rewrite Hc, bool_decide_true by done.
    vm_compute. reflexivity.
  - intros ->. vm_compute. reflexivity.
Qed.

Lemma cosponsor_errors_misread_witness :
  sdk_reads (co_sponsor (StoreExamples.clk 5) "eve" "eve" 1 Examples.drafted).1 =
    Some (typed CoSponsorshipErrorCode.AlreadyCoSponsored) ∧
  sdk_reads (co_sponsor (StoreExamples.clk 5) "eve" "eve" 2 Examples.drafted).1 =
    Some (typed CoSponsorshipErrorCode.AlreadyInitialized).
Proof.
  split.
  - apply (proj1 (cosponsor_errors_misread (StoreExamples.clk 5) "eve" 1 Examples.drafted)
      (Examples.draft_1 Examples.drafted)); vm_compute; try reflexivity; [apply not_elem_of_nil|discriminate].
  - apply (cosponsor_errors_misread (StoreExamples.clk 5) "eve" 2 Examples.drafted).
    vm_compute. reflexivity.
Defined.
