(* ===== verification/Conviction.v ===== *)
(** * Conviction voting

    [tools/simulation/src/mock/conviction-voting-executor.ts]: stakers commit
    voting power to one proposal each; the proposal's conviction moves
    towards a level set by the stake, and a checkpoint executes the proposal
    once the conviction reaches a threshold that grows with the amount asked
    for. *)

From S2P Require Import Prelude SdkErrors Store TokenVotes Proposals.

Definition BPS : Z := 10000.
Definition I128_MAX : Z := Z.shiftl 1 127 - 1.

Module ConvictionVotingContractError.
Inductive t :=
  | AlreadyInitialized
  | NotInitialized
  | InvalidConfiguration
  | InvalidAmount
  | ProposalNotFound
  | ProposalClosed
  | InsufficientVotingPower
  | StakeNotFound
  | Unauthorized
  | ArithmeticOverflow
  | InvalidCalldata.
Definition num (c : t) : Z :=
  match c with
  | AlreadyInitialized => 1
  | NotInitialized => 2
  | InvalidConfiguration => 3
  | InvalidAmount => 4
  | ProposalNotFound => 5
  | ProposalClosed => 6
  | InsufficientVotingPower => 7
  | StakeNotFound => 8
  | Unauthorized => 9
  | ArithmeticOverflow => 10
  | InvalidCalldata => 11
  end.
End ConvictionVotingContractError.

Definition conviction_error (c : ConvictionVotingContractError.t) (message : string) : JsError :=
  MockContractError (ConvictionVotingContractError.num c) message.

(** ** Fixed-point powers

    [e & 1] and [e >>= 1] first convert the number [e] to a signed 32-bit
    integer. *)
Definition to_int32 (z : Z) : Z :=
  let m := z mod 2 ^ 32 in if m <? 2 ^ 31 then m else m - 2 ^ 32.

(** The [while] loop of [powBps]; [None] when the fuel runs out. *)
Fixpoint pow_loop (fuel : nat) (result b e : Z) : option Z :=
  match fuel with
  | O => None
  | S fuel' =>
    if 0 <? e then
      let result := if Z.land (to_int32 e) 1 =? 0 then result else result * b ÷ᵇ BPS in
      let e := Z.shiftr (to_int32 e) 1 in
      let b := if 0 <? e then b * b ÷ᵇ BPS else b in
      pow_loop fuel' result b e
    else Some result
  end.

(** 33 rounds are enough for any exponent: see [pow_loop_total]. *)
Definition powBps (base exponent : Z) : Z := default 0 (pow_loop 33 BPS base exponent).

Definition projectConviction (conviction totalStaked elapsed decayBps weightBps : Z) : Z :=
  let decay := powBps decayBps elapsed in
  let decayGap := BPS - decayBps in
  let steady := totalStaked * weightBps ÷ᵇ (if 0 <? decayGap then decayGap else 1) in
  let retained := conviction * decay ÷ᵇ BPS in
  let accrued := steady * (BPS - decay) ÷ᵇ BPS in
  retained + accrued.

(** ** The executor *)
Definition on_conviction {A} (m : M ConvictionVotingState A) : M MockLedgerStore A :=
  zoom st_convictionVoting (λ c s, s <| st_convictionVoting := c |>) m.

Module ConvictionVotingExecutor.

Definition mustGetProposal (id : Z) : M ConvictionVotingState ConvictionProposalRecord :=
  state ← get;
  unwrap (cv_proposals state !! id)
    (conviction_error ConvictionVotingContractError.ProposalNotFound
       ("proposal " +:+ decimal id +:+ " not found")).

Definition mustGetOpenProposal (id : Z) : M ConvictionVotingState ConvictionProposalRecord :=
  proposal ← mustGetProposal id;
  throw_if (cvp_executed proposal || cvp_cancelled proposal)
    (conviction_error ConvictionVotingContractError.ProposalClosed
       ("proposal " +:+ decimal id +:+ " is closed"));;
  mret proposal.

Definition totalStaked (state : ConvictionVotingState) (proposalId : Z) : Z :=
  default 0 (cv_totalStaked state !! proposalId).

Definition stakesFor (proposalId : Z) : M ConvictionVotingState (list (string * Z)) :=
  state ← get;
  match cv_stakes state !! proposalId with
  | Some stakes => mret stakes
  | None => modify (λ c, c <| cv_stakes ::= <[proposalId := []]> |>);; mret []
  end.

(** Writes through the object [stakesFor] returns. *)
Definition update_stakes (proposalId : Z) (f : list (string * Z) → list (string * Z)) :
    ConvictionVotingState → ConvictionVotingState :=
  λ c, c <| cv_stakes ::= alter f proposalId |>.

(** The store holds the proposal object itself, so the final [set] of
    [updateConviction] stores what the assignments already changed; the
    mutated object is returned for its callers. *)
Definition updateConviction (clock : LedgerClock) (proposal : ConvictionProposalRecord)
    : M ConvictionVotingState ConvictionProposalRecord :=
  let elapsed := sequence clock - cvp_lastUpdatedLedger proposal in
  if (elapsed <=? 0) || cvp_executed proposal || cvp_cancelled proposal then mret proposal
  else
    state ← get;
    let proposal :=
      proposal
        <| cvp_conviction :=
             projectConviction (cvp_conviction proposal) (totalStaked state (cvp_id proposal))
               elapsed (cv_decayBps state) (cv_weightBps state) |>
        <| cvp_lastUpdatedLedger := sequence clock |> in
    modify (λ c, c <| cv_proposals ::= <[cvp_id proposal := proposal]> |>);;
    mret proposal.

Definition removeStake (staker : string) (proposalId : Z) : M ConvictionVotingState unit :=
  stakes ← stakesFor proposalId;
  match jm_get staker stakes with
  | Some amount =>
    modify (update_stakes proposalId (jm_delete staker));;
    modify (λ c, c <| cv_totalStaked ::=
      λ t, <[proposalId := default 0 (t !! proposalId) - amount]> t |>)
  | None => mret tt
  end;;
  modify (λ c, c <| cv_stakeByStaker ::= delete staker |>).

Definition requiredThreshold (clock : LedgerClock) (requestedAmount : Z) : M MockLedgerStore Z :=
  store ← get;
  let state := st_convictionVoting store in
  throw_if (requestedAmount <? 0)
    (conviction_error ConvictionVotingContractError.InvalidAmount "threshold: negative amount");;
  if requestedAmount =? 0 then mret (cv_minThresholdConviction state)
  else
    supply ← on_votes (get_past_total_supply clock (sequence clock));
    if supply <=? 0 then mret I128_MAX
    else
      let maxRatio := cv_maxRatioBps state in
      let ratio := requestedAmount * BPS ÷ᵇ supply in
      if maxRatio <=? ratio then mret I128_MAX
      else
        let gap := maxRatio - ratio in
        mret (cv_minThresholdConviction state * maxRatio * maxRatio ÷ᵇ (gap * gap)).

Definition create_proposal (clock : LedgerClock) (caller proposer target fnName : string)
    (calldata : bytes) (requestedAmount : Z) : M MockLedgerStore Z :=
  throw_if (negb (String.eqb caller proposer))
    (MockContractError 100 "create_proposal: proposer must authorize this call");;
  throw_if (requestedAmount <? 0)
    (conviction_error ConvictionVotingContractError.InvalidAmount
       "create_proposal: negative amount");;
  on_conviction (
    state ← get;
    let id := cv_nextProposalId state in
    let ledger := sequence clock in
    modify (λ c, c <| cv_nextProposalId := id + 1 |>);;
    modify (λ c, c <| cv_proposals ::=
      <[id := mkConviction id proposer target fnName calldata requestedAmount ledger 0 ledger
                false false]> |>);;
    modify (λ c, c <| cv_stakes ::= <[id := []]> |>);;
    modify (λ c, c <| cv_totalStaked ::= <[id := 0]> |>);;
    mret id).

Definition stake (clock : LedgerClock) (caller staker : string) (proposalId amount : Z)
    : M MockLedgerStore unit :=
  throw_if (negb (String.eqb caller staker))
    (MockContractError 100 "stake: staker must authorize this call");;
  throw_if (amount <=? 0)
    (conviction_error ConvictionVotingContractError.InvalidAmount "stake: amount must be positive");;
  votes ← on_votes (get_votes staker);
  throw_if (votes <? amount)
    (conviction_error ConvictionVotingContractError.InsufficientVotingPower
       "stake: insufficient voting power");;
  on_conviction (
    target ← mustGetOpenProposal proposalId;
    updateConviction clock target;;
    state ← get;
    match cv_stakeByStaker state !! staker with
    | Some oldId =>
      if negb (oldId =? proposalId) then
        old ← mustGetProposal oldId;
        updateConviction clock old;;
        removeStake staker oldId
      else mret tt
    | None => mret tt
    end;;
    stakes ← stakesFor proposalId;
    let delta := amount - default 0 (jm_get staker stakes) in
    modify (update_stakes proposalId (jm_set staker amount));;
    modify (λ c, c <| cv_totalStaked ::= <[proposalId := totalStaked c proposalId + delta]> |>);;
    modify (λ c, c <| cv_stakeByStaker ::= <[staker := proposalId]> |>)).

Definition withdraw_stake (clock : LedgerClock) (caller staker : string) : M MockLedgerStore unit :=
  throw_if (negb (String.eqb caller staker))
    (MockContractError 100 "withdraw_stake: staker must authorize this call");;
  on_conviction (
    state ← get;
    proposalId ← unwrap (cv_stakeByStaker state !! staker)
      (conviction_error ConvictionVotingContractError.StakeNotFound
         "withdraw_stake: no stake found");
    proposal ← mustGetProposal proposalId;
    updateConviction clock proposal;;
    removeStake staker proposalId).

Definition checkpoint_conviction (clock : LedgerClock) (proposalId : Z) : M MockLedgerStore Z :=
  proposal ← on_conviction (mustGetProposal proposalId);
  if cvp_executed proposal || cvp_cancelled proposal then mret (cvp_conviction proposal)
  else
    proposal ← on_conviction (updateConviction clock proposal);
    threshold ← requiredThreshold clock (cvp_requestedAmount proposal);
    (if threshold <=? cvp_conviction proposal then
       on_conviction (
         let proposal := proposal <| cvp_executed := true |> in
         modify (λ c, c <| cv_proposals ::= <[cvp_id proposal := proposal]> |>);;
         modify (λ c, c <| cv_executions ::= λ l, l ++
           [mkExecution (cvp_id proposal) (cvp_target proposal) (cvp_fnName proposal)
              (cvp_calldata proposal) (sequence clock)] |>))
     else mret tt);;
    mret (cvp_conviction proposal).

Definition get_proposal (proposalId : Z) : M MockLedgerStore ConvictionProposalRecord :=
  on_conviction (mustGetProposal proposalId).

Definition get_stakes (proposalId offset limit : Z) : M MockLedgerStore (list ConvictionStakeRecord) :=
  on_conviction (
    mustGetProposal proposalId;;
    if limit =? 0 then mret []
    else
      stakes ← stakesFor proposalId;
      let entries := (λ '(staker, amount), mkStakeRecord staker proposalId amount) <$> stakes in
      mret (js_slice entries (to_number offset) (to_number (offset + limit)))).

Definition get_required_threshold (clock : LedgerClock) (requestedAmount : Z) : M MockLedgerStore Z :=
  requiredThreshold clock requestedAmount.
End ConvictionVotingExecutor.
Import ConvictionVotingExecutor.

(** ** Powers and projection *)
Lemma to_int32_small z : 0 ≤ z < 2 ^ 31 → to_int32 z = z.
Proof.
  intros Hz. unfold to_int32. rewrite Z.mod_small by lia.
  by rewrite (proj2 (Z.ltb_lt _ _)) by lia.
Qed.
Lemma to_int32_range z : - 2 ^ 31 ≤ to_int32 z < 2 ^ 31.
Proof.
  unfold to_int32. pose proof (Z.mod_pos_bound z (2 ^ 32)).
  destruct (Z.ltb_spec (z mod 2 ^ 32) (2 ^ 31)); lia.
Qed.

Lemma pow_loop_S fuel r b e :
  pow_loop (S fuel) r b e =
  if 0 <? e then
    let r' := if Z.land (to_int32 e) 1 =? 0 then r else r * b ÷ᵇ BPS in
    let e' := Z.shiftr (to_int32 e) 1 in
    pow_loop fuel r' (if 0 <? e' then b * b ÷ᵇ BPS else b) e'
  else Some r.
Proof. done. Qed.

Lemma shiftr_half z : Z.shiftr z 1 = z / 2.
Proof. by rewrite Z.shiftr_div_pow2. Qed.

Lemma pow_loop_fuel fuel r b e :
  e < 2 ^ Z.of_nat fuel → 0 ≤ e < 2 ^ 31 → is_Some (pow_loop (S fuel) r b e).
Proof.
  revert r b e. induction fuel as [|fuel IH]; intros r b e He Hr; rewrite pow_loop_S;
    (destruct (Z.ltb_spec 0 e); [|by eexists]).
  - cbn in He. lia.
  - rewrite Nat2Z.inj_succ, Z.pow_succ_r in He by lia. cbv zeta.
    rewrite to_int32_small, shiftr_half by done. apply IH; [apply Z.div_lt_upper_bound; lia|].
    split; [apply Z.div_pos; lia|apply Z.div_lt_upper_bound; lia].
Qed.

(** The loop of [powBps] ends within its 33 rounds, for every exponent. *)
Lemma pow_loop_total r b e : is_Some (pow_loop 33 r b e).
Proof.
  rewrite pow_loop_S. destruct (0 <? e); [|by eexists]. cbv zeta.
  pose proof (to_int32_range e) as Hr. rewrite shiftr_half.
  assert (to_int32 e / 2 < 2 ^ 30) by (apply Z.div_lt_upper_bound; lia).
  destruct (Z.ltb_spec 0 (to_int32 e / 2)).
  - apply (pow_loop_fuel 31); cbn in *; lia.
  - rewrite pow_loop_S, (proj2 (Z.ltb_ge _ _)) by done. by eexists.
Qed.

(** One squaring step: the exact powers on both sides grow alike. *)
Lemma pow_step_bound B r b k x :
  0 < B → 0 ≤ b → 0 ≤ k → 0 ≤ r →
  x * B ^ k ≤ r * (b * b / B) ^ k → x * B ^ (2 * k) ≤ r * b ^ (2 * k).
Proof.
  intros HB Hb Hk Hr Hx. rewrite !Z.pow_mul_r, !Z.pow_2_r by lia.
  transitivity (r * ((b * b / B) * B) ^ k).
  - rewrite !Z.pow_mul_l. assert (0 < B ^ k) by (apply Z.pow_pos_nonneg; lia). nia.
  - apply Z.mul_le_mono_nonneg_l; [done|]. apply Z.pow_le_mono_l. split.
    + apply Z.mul_nonneg_nonneg; [apply Z.div_pos; nia|lia].
    + rewrite Z.mul_comm. apply Z.mul_div_le. lia.
Qed.

(** The loop never overestimates: [x ≤ r * (b / BPS) ^ e], cross-multiplied. *)
Lemma pow_loop_bound fuel r b e x :
  0 ≤ r → 0 ≤ b → 0 ≤ e < 2 ^ 31 → pow_loop fuel r b e = Some x →
  0 ≤ x ∧ x * BPS ^ e ≤ r * b ^ e.
Proof.
  revert r b e. induction fuel as [|fuel IH]; intros r b e Hr Hb He; [done|].
  rewrite pow_loop_S. destruct (Z.ltb_spec 0 e) as [Hpos|].
  2:{ intros [= ->]. assert (e = 0) as -> by lia. cbn. lia. }
  cbv zeta. rewrite to_int32_small, shiftr_half by done. change 1 with (Z.ones 1) at 1. rewrite Z.land_ones by done.
  change (2 ^ 1) with 2. rewrite !quot_div_nonneg by (unfold BPS; nia).
  pose proof (Z.div_mod e 2 ltac:(done)) as Hdm. pose proof (Z.mod_pos_bound e 2 ltac:(done)).
  set (k := e / 2) in *. set (r' := if e mod 2 =? 0 then r else r * b / BPS).
  assert (0 ≤ r') by (subst r'; destruct (_ =? _); [done|apply Z.div_pos; unfold BPS; nia]).
  assert (0 ≤ b * b / BPS) by (apply Z.div_pos; unfold BPS; nia).
  assert (0 ≤ k) by (apply Z.div_pos; lia).
  intros Hx. assert (0 ≤ x ∧ x * BPS ^ (2 * k) ≤ r' * b ^ (2 * k)) as [Hx0 Hxk].
  { destruct (Z.ltb_spec 0 k).
    - apply IH in Hx as [? ?]; [|done|done|lia]. split; [done|]. by apply pow_step_bound.
    - assert (k = 0) as -> by lia. apply IH in Hx as [? ?]; [|done|done|lia].
      by rewrite Z.mul_0_r. }
  split; [done|]. subst r'. destruct (Z.eqb_spec (e mod 2) 0) as [E|E].
  - by replace e with (2 * k) by lia.
  - replace e with (2 * k + 1) by lia. rewrite !Z.pow_add_r, !Z.pow_1_r by lia.
    assert (BPS * (r * b / BPS) ≤ r * b) by (apply Z.mul_div_le; done).
    assert (0 ≤ b ^ (2 * k)) by (apply Z.pow_nonneg; lia).
    transitivity (r * b / BPS * b ^ (2 * k) * BPS); [unfold BPS in *; nia|].
    transitivity (BPS * (r * b / BPS) * b ^ (2 * k)); [lia|]. nia.
Qed.

Lemma powBps_bound b e :
  0 ≤ b → 0 ≤ e < 2 ^ 31 → 0 ≤ powBps b e ∧ powBps b e * BPS ^ e ≤ BPS * b ^ e.
Proof.
  intros Hb He. unfold powBps. destruct (pow_loop_total BPS b e) as [x Hx]. rewrite Hx.
  by eapply pow_loop_bound.
Qed.

Lemma powBps_range b e : 0 ≤ b ≤ BPS → 0 ≤ e < 2 ^ 31 → 0 ≤ powBps b e ≤ BPS.
Proof.
  intros Hb He. destruct (powBps_bound b e) as [H0 H]; [lia|done|]. split; [done|].
  assert (0 < BPS ^ e) by (apply Z.pow_pos_nonneg; unfold BPS; lia).
  assert (b ^ e ≤ BPS ^ e) by (apply Z.pow_le_mono_l; lia). unfold BPS in *; nia.
Qed.

Lemma powBps_decays b e : 0 ≤ b ≤ BPS → 0 < e < 2 ^ 31 → powBps b e ≤ b.
Proof.
  intros Hb He. destruct (powBps_bound b e) as [H0 H]; [lia|lia|].
  replace e with (Z.succ (e - 1)) in H at 2 3 by lia. rewrite !Z.pow_succ_r in H by lia.
  assert (0 < BPS ^ (e - 1)) by (apply Z.pow_pos_nonneg; unfold BPS; lia).
  assert (b ^ (e - 1) ≤ BPS ^ (e - 1)) by (apply Z.pow_le_mono_l; lia).
  assert (0 ≤ b ^ (e - 1)) by (apply Z.pow_nonneg; lia).
  assert (powBps b e * BPS ^ (e - 1) ≤ b * BPS ^ (e - 1)); [|nia]. unfold BPS in *. nia.
Qed.

(** A decaying average of two levels lies between them, up to the rounding. *)
Lemma mix_bounds c s d :
  0 ≤ c → 0 ≤ s → 0 ≤ d ≤ BPS →
  Z.min c s - 1 ≤ c * d / BPS + s * (BPS - d) / BPS ≤ Z.max c s.
Proof.
  intros Hc Hs Hd. unfold BPS in *.
  pose proof (Z.div_mod (c * d) 10000 ltac:(done)). pose proof (Z.mod_pos_bound (c * d) 10000 ltac:(done)).
  pose proof (Z.div_mod (s * (10000 - d)) 10000 ltac:(done)).
  pose proof (Z.mod_pos_bound (s * (10000 - d)) 10000 ltac:(done)).
  assert (Z.min c s * d ≤ c * d ≤ Z.max c s * d) by nia.
  assert (Z.min c s * (10000 - d) ≤ s * (10000 - d) ≤ Z.max c s * (10000 - d)) by nia. nia.
Qed.

(** The level conviction approaches under a constant stake. *)
Definition steady_level (staked decayBps weightBps : Z) : Z :=
  staked * weightBps / Z.max (BPS - decayBps) 1.

Lemma project_eq c t e d w :
  0 ≤ c → 0 ≤ t → 0 ≤ w → 0 ≤ d ≤ BPS → 0 ≤ e < 2 ^ 31 →
  projectConviction c t e d w =
    c * powBps d e / BPS + steady_level t d w * (BPS - powBps d e) / BPS.
Proof.
  intros Hc Ht Hw Hd He. unfold projectConviction, steady_level.
  replace (if 0 <? BPS - d then BPS - d else 1) with (Z.max (BPS - d) 1)
    by (destruct (Z.ltb_spec 0 (BPS - d)); lia).
  pose proof (powBps_range d e Hd He).
  rewrite (quot_div_nonneg (t * w)) by nia.
  assert (0 ≤ t * w / Z.max (BPS - d) 1) by (apply Z.div_pos; nia).
  by rewrite !quot_div_nonneg by (unfold BPS in *; nia).
Qed.

Lemma project_nonneg c t e d w :
  0 ≤ c → 0 ≤ t → 0 ≤ w → 0 ≤ d ≤ BPS → 0 ≤ e < 2 ^ 31 → 0 ≤ projectConviction c t e d w.
Proof.
  intros Hc Ht Hw Hd He. rewrite project_eq by done. pose proof (powBps_range d e Hd He).
  assert (0 ≤ steady_level t d w) by (apply Z.div_pos; nia).
  apply Z.add_nonneg_nonneg; apply Z.div_pos; unfold BPS in *; nia.
Qed.

(** ** The threshold *)
Definition threshold_of (c : LedgerClock) (s : MockLedgerStore) (amount : Z) : Z :=
  let state := st_convictionVoting s in
  let supply := supply_at (st_votes s) (sequence c) in
  let ratio := amount * BPS ÷ᵇ supply in
  let gap := cv_maxRatioBps state - ratio in
  if amount =? 0 then cv_minThresholdConviction state
  else if (supply <=? 0) || (cv_maxRatioBps state <=? ratio) then I128_MAX
  else cv_minThresholdConviction state * cv_maxRatioBps state * cv_maxRatioBps state ÷ᵇ (gap * gap).

Lemma requiredThreshold_run c amount s :
  requiredThreshold c amount s =
  if amount <? 0 then
    (Throw (conviction_error ConvictionVotingContractError.InvalidAmount
              "threshold: negative amount"), s)
  else (Ok (threshold_of c s amount), s).
Proof.
  unfold requiredThreshold, threshold_of. m_run.
  destruct (amount <? 0); [done|]. cbn -[on_votes]. destruct (amount =? 0); [done|].
  erewrite on_votes_read by (by apply get_past_total_supply_run). cbn -[BPS].
  destruct (_ <=? 0); [done|]. by destruct (_ <=? _).
Qed.

(** ** What the helpers do *)
Definition stakes_of (c : ConvictionVotingState) (id : Z) : list (string * Z) :=
  default [] (cv_stakes c !! id).

Record conv_ok (now : Z) (c : ConvictionVotingState) : Prop := {
  co_next : 1 ≤ cv_nextProposalId c;
  co_ids : ∀ id, is_Some (cv_proposals c !! id) ↔ 1 ≤ id < cv_nextProposalId c;
  co_each : ∀ id p, cv_proposals c !! id = Some p →
    cvp_id p = id ∧ cvp_lastUpdatedLedger p ≤ now ∧ cvp_cancelled p = false ∧
    0 ≤ cvp_requestedAmount p;
  co_nodup : ∀ id, NoDup (stakes_of c id).*1;
  co_total : ∀ id, totalStaked c id = jm_total (stakes_of c id);
  co_positive : ∀ id, Forall (λ x, 0 < x) (stakes_of c id).*2;
  co_staker : ∀ a id, a ∈ (stakes_of c id).*1 ↔ cv_stakeByStaker c !! a = Some id;
  co_exists : ∀ a id, cv_stakeByStaker c !! a = Some id → is_Some (cv_proposals c !! id);
  co_once : NoDup (cve_proposalId <$> cv_executions c);
  co_executed : ∀ id, id ∈ (cve_proposalId <$> cv_executions c) ↔
    ∃ p, cv_proposals c !! id = Some p ∧ cvp_executed p = true;
}.

(** Closed proposals keep their record. *)
Definition keeps_closed (c c' : ConvictionVotingState) : Prop :=
  ∀ id p, cv_proposals c !! id = Some p → cvp_executed p = true → cv_proposals c' !! id = Some p.

Definition conv_next (now : Z) (c c' : ConvictionVotingState) : Prop :=
  conv_ok now c' ∧ keeps_closed c c'.

Lemma mustGetProposal_run id p c :
  cv_proposals c !! id = Some p → mustGetProposal id c = (Ok p, c).
Proof. intros Hp. unfold mustGetProposal. m_run. by rewrite Hp. Qed.
Lemma mustGetProposal_none id c :
  cv_proposals c !! id = None → ∃ e, mustGetProposal id c = (Throw e, c).
Proof. intros Hp. unfold mustGetProposal. m_run. rewrite Hp. by eexists. Qed.
Lemma mustGetOpenProposal_run id p c :
  cv_proposals c !! id = Some p → cvp_executed p = false → cvp_cancelled p = false →
  mustGetOpenProposal id c = (Ok p, c).
Proof.
  intros Hp He Hc. unfold mustGetOpenProposal. rewrite (bind_run _ _ _ _ _ (mustGetProposal_run _ _ _ Hp)).
  by rewrite He, Hc.
Qed.
Lemma mustGetOpenProposal_closed id c :
  (∀ p, cv_proposals c !! id = Some p → cvp_executed p = true) →
  ∃ e, mustGetOpenProposal id c = (Throw e, c).
Proof.
  intros Hall. unfold mustGetOpenProposal. destruct (cv_proposals c !! id) as [p|] eqn:Hp.
  - rewrite (bind_run _ _ _ _ _ (mustGetProposal_run _ _ _ Hp)), (Hall p) by done. by eexists.
  - destruct (mustGetProposal_none _ _ Hp) as [e He]. rewrite (bind_throw _ _ _ _ _ He). by eexists.
Qed.

(** A proposal that is open gets a newer record. *)
Lemma conv_ok_update now c id p p' :
  conv_ok now c → cv_proposals c !! id = Some p → cvp_executed p = false →
  cvp_id p' = cvp_id p → cvp_lastUpdatedLedger p' ≤ now → cvp_cancelled p' = cvp_cancelled p →
  cvp_executed p' = false → cvp_requestedAmount p' = cvp_requestedAmount p →
  conv_next now c (c <| cv_proposals ::= <[cvp_id p := p']> |>).
Proof.
  intros [H1 H2 H3 H4 H5 H6 H7 H8 H9 H10] Hp He Hid Hl Hc He' Hra.
  destruct (H3 _ _ Hp) as (Hpid & _ & Hpc & Hpr). rewrite Hpid. split.
  - split; cbn; try done.
    + intros i. rewrite lookup_insert_is_Some, <- H2. split.
      * intros [<-|[_ ?]]; [by eexists|done].
      * intros Hi. destruct (decide (id = i)); auto.
    + intros i q. rewrite lookup_insert_Some. intros [[<- <-]|[_ Hq]]; [|by apply H3].
      split_and!; [congruence|done|congruence|lia].
    + intros a i Ha. apply lookup_insert_is_Some. destruct (decide (id = i)); [by left|right].
      split; [done|by apply (H8 a)].
    + intros i. rewrite H10. split.
      * intros (q & Hq & Hqe). exists q. split; [|done]. rewrite lookup_insert_ne; [done|].
        intros ->. congruence.
      * intros (q & Hq & Hqe). apply lookup_insert_Some in Hq as [[<- <-]|[_ Hq]]; [congruence|eauto].
  - intros i q Hq Hqe. cbn. rewrite lookup_insert_ne; [done|]. intros ->. congruence.
Qed.

Lemma keeps_closed_refl c : keeps_closed c c.
Proof. by intros id p. Qed.
Lemma keeps_closed_trans a b c : keeps_closed a b → keeps_closed b c → keeps_closed a c.
Proof. intros H1 H2 id p Hp He. by apply H2; [apply H1|]. Qed.

(** The record [updateConviction] leaves. *)
Definition updated (clock : LedgerClock) (c : ConvictionVotingState)
    (p : ConvictionProposalRecord) : ConvictionProposalRecord :=
  p <| cvp_conviction :=
         projectConviction (cvp_conviction p) (totalStaked c (cvp_id p))
           (sequence clock - cvp_lastUpdatedLedger p) (cv_decayBps c) (cv_weightBps c) |>
    <| cvp_lastUpdatedLedger := sequence clock |>.

Lemma updateConviction_run clock p c :
  cv_proposals c !! cvp_id p = Some p →
  updateConviction clock p c =
  let p' := if (sequence clock - cvp_lastUpdatedLedger p <=? 0) || cvp_executed p || cvp_cancelled p
            then p else updated clock c p in
  (Ok p', c <| cv_proposals ::= <[cvp_id p := p']> |>).
Proof.
  intros Hp. unfold updateConviction. m_run. destruct (_ || _); [|done].
  cbv zeta. f_equal. destruct c. cbn in *. by rewrite insert_id.
Qed.

Lemma conv_next_refl now c : conv_ok now c → conv_next now c c.
Proof. intros H. split; [done|apply keeps_closed_refl]. Qed.

Lemma updateConviction_ok clock p c id :
  conv_ok (sequence clock) c → cv_proposals c !! id = Some p →
  ∃ p', updateConviction clock p c = (Ok p', c <| cv_proposals ::= <[id := p']> |>) ∧
    conv_next (sequence clock) c (c <| cv_proposals ::= <[id := p']> |>) ∧
    cvp_executed p' = cvp_executed p ∧ cvp_id p' = id.
Proof.
  intros Hok Hp. destruct (co_each _ _ Hok _ _ Hp) as (<- & _ & _ & _).
  rewrite updateConviction_run by done. cbv zeta. eexists. split; [done|].
  destruct ((_ || cvp_executed p) || cvp_cancelled p) eqn:Hg; (split; [|done]).
  - replace (c <| cv_proposals ::= <[cvp_id p := p]> |>) with c;
      [by apply conv_next_refl|]. destruct c. cbn in *. by rewrite insert_id.
  - apply orb_false_iff in Hg as [[_ He]%orb_false_iff _].
    apply (conv_ok_update _ _ (cvp_id p) p); cbn; try done; lia.
Qed.

Definition touched (id : Z) (c : ConvictionVotingState) : ConvictionVotingState :=
  match cv_stakes c !! id with Some _ => c | None => c <| cv_stakes ::= <[id := []]> |> end.

Lemma touched_fields id c :
  (∀ i, stakes_of (touched id c) i = stakes_of c i) ∧
  cv_stakes (touched id c) !! id = Some (stakes_of c id) ∧
  cv_proposals (touched id c) = cv_proposals c ∧ cv_totalStaked (touched id c) = cv_totalStaked c ∧
  cv_stakeByStaker (touched id c) = cv_stakeByStaker c ∧
  cv_executions (touched id c) = cv_executions c ∧
  cv_nextProposalId (touched id c) = cv_nextProposalId c.
Proof.
  unfold touched, stakes_of. destruct (cv_stakes c !! id) eqn:Hs; [by rewrite Hs|]. cbn.
  split_and!; try done; [|by rewrite lookup_insert_eq].
  intros i. destruct (decide (i = id)) as [->|].
  - by rewrite lookup_insert_eq, Hs.
  - by rewrite lookup_insert_ne.
Qed.

Lemma conv_ok_touched now id c : conv_ok now c → conv_ok now (touched id c).
Proof.
  intros [H1 H2 H3 H4 H5 H6 H7 H8 H9 H10].
  destruct (touched_fields id c) as (F1 & _ & F3 & F4 & F5 & F6 & F7).
  split; unfold totalStaked in *;
    rewrite ?F3, ?F4, ?F5, ?F6, ?F7; try done; intros; rewrite ?F1; auto.
Qed.

Lemma stakesFor_run id c : stakesFor id c = (Ok (stakes_of c id), touched id c).
Proof. unfold stakesFor, touched, stakes_of. m_run. by destruct (cv_stakes c !! id). Qed.

Lemma stakes_of_alter c id f i l :
  cv_stakes c !! id = Some l →
  stakes_of (update_stakes id f c) i = if decide (i = id) then f l else stakes_of c i.
Proof.
  intros Hl. unfold stakes_of, update_stakes. cbn. case_decide as Hi.
  - subst. by rewrite lookup_alter_eq, Hl.
  - by rewrite lookup_alter_ne.
Qed.

(** The stake of [a] on [id] becomes [x], or disappears. *)
Definition staked (a : string) (id x : Z) (c : ConvictionVotingState) : ConvictionVotingState :=
  (update_stakes id (jm_set a x) c)
    <| cv_totalStaked ::= <[id := totalStaked c id + (x - default 0 (jm_get a (stakes_of c id)))]> |>
    <| cv_stakeByStaker ::= <[a := id]> |>.
Definition unstaked (a : string) (id x : Z) (c : ConvictionVotingState) : ConvictionVotingState :=
  (update_stakes id (jm_delete a) c)
    <| cv_totalStaked ::= λ t, <[id := default 0 (t !! id) - x]> t |>
    <| cv_stakeByStaker ::= delete a |>.

Lemma conv_ok_staked now a id x c :
  conv_ok now c → is_Some (cv_proposals c !! id) → is_Some (cv_stakes c !! id) → 0 < x →
  (∀ i, cv_stakeByStaker c !! a = Some i → i = id) → conv_ok now (staked a id x c).
Proof.
  intros [H1 H2 H3 H4 H5 H6 H7 H8 H9 H10] Hp [l Hl] Hx Ha.
  assert (stakes_of c id = l) as Hsl by (unfold stakes_of; by rewrite Hl).
  assert (∀ i, stakes_of (staked a id x c) i = if decide (i = id) then jm_set a x l else stakes_of c i)
    as Hs by (intros i; by apply stakes_of_alter).
  split; unfold totalStaked in *; cbn [cv_nextProposalId cv_proposals cv_totalStaked
    cv_stakeByStaker cv_executions staked update_stakes upd]; try done.
  - intros i. rewrite Hs. case_decide; [|done]. apply jm_set_nodup. rewrite <- Hsl. apply H4.
  - intros i. rewrite Hs. unfold staked, update_stakes. cbn. case_decide as Hi.
    + subst. rewrite lookup_insert_eq, jm_total_set. cbn. unfold totalStaked. rewrite H5. lia.
    + rewrite lookup_insert_ne by done. apply H5.
  - intros i. rewrite Hs. case_decide; [|done]. apply Forall_forall. intros v Hv.
    apply list_elem_of_fmap in Hv as ([b v'] & -> & Hin).
    apply jm_get_Some in Hin; [|apply jm_set_nodup; rewrite <- Hsl; apply H4].
    rewrite jm_get_set in Hin. case_decide; [naive_solver|].
    apply jm_get_Some in Hin; [|rewrite <- Hsl; apply H4].
    specialize (H6 id). rewrite Hsl, Forall_forall in H6. apply H6.
    by apply (list_elem_of_fmap_2 snd _ (b, v')).
  - intros b i. rewrite Hs. unfold staked, update_stakes. cbn. case_decide as Hi.
    + subst. rewrite jm_set_keys, lookup_insert_Some, H7. split; [|naive_solver].
      intros [->|Hb]; [by left|]. destruct (decide (a = b)) as [->|]; [by left|by right].
    + rewrite H7, lookup_insert_Some. split; [|naive_solver]. intros Hb. right.
      split; [|done]. intros ->. by apply Hi, Ha.
  - intros b i. unfold staked. cbn. rewrite lookup_insert_Some. intros [[_ <-]|[_ Hb]]; [done|eauto].
Qed.

Lemma conv_ok_unstaked now a id x c :
  conv_ok now c → cv_stakeByStaker c !! a = Some id → is_Some (cv_stakes c !! id) →
  jm_get a (stakes_of c id) = Some x → conv_ok now (unstaked a id x c).
Proof.
  intros [H1 H2 H3 H4 H5 H6 H7 H8 H9 H10] Ha [l Hl] Hx.
  assert (stakes_of c id = l) as Hsl by (unfold stakes_of; by rewrite Hl).
  pose proof (H4 id) as Hnd. rewrite Hsl in Hnd, Hx.
  assert (∀ i, stakes_of (unstaked a id x c) i = if decide (i = id) then jm_delete a l else stakes_of c i)
    as Hs by (intros i; by apply stakes_of_alter).
  split; try done.
  - intros i. rewrite Hs. case_decide; [|done]. by apply jm_delete_nodup.
  - intros i. rewrite Hs. unfold totalStaked, unstaked, update_stakes. cbn. case_decide as Hi.
    + subst. rewrite lookup_insert_eq, jm_total_delete, Hx. cbn.
      specialize (H5 id). unfold totalStaked in H5. rewrite H5. lia.
    + rewrite lookup_insert_ne by done. apply H5.
  - intros i. rewrite Hs. case_decide; [|done]. apply Forall_forall. intros v Hv.
    apply list_elem_of_fmap in Hv as ([b v'] & -> & Hin).
    apply jm_get_Some in Hin; [|by apply jm_delete_nodup].
    rewrite jm_get_delete in Hin by done. case_decide; [done|].
    apply jm_get_Some in Hin; [|done].
    specialize (H6 id). rewrite Hsl, Forall_forall in H6. apply H6.
    by apply (list_elem_of_fmap_2 snd _ (b, v')).
  - intros b i. rewrite Hs. unfold unstaked, update_stakes. cbn.
    rewrite lookup_delete_Some, <- H7. case_decide as Hi.
    + subst. rewrite jm_delete_keys by done. naive_solver.
    + rewrite H7. split; [|naive_solver]. intros Hb. split; [|done]. intros ->. congruence.
  - intros b i. unfold unstaked. cbn. rewrite lookup_delete_Some. naive_solver.
Qed.

Lemma has_stake now c a id :
  conv_ok now c → cv_stakeByStaker c !! a = Some id →
  (∃ x, jm_get a (stakes_of c id) = Some x) ∧ is_Some (cv_stakes c !! id) ∧ touched id c = c.
Proof.
  intros Hok Ha. apply (co_staker _ _ Hok) in Ha as Hin.
  assert (is_Some (cv_stakes c !! id)) as Hs.
  { unfold stakes_of in Hin. destruct (cv_stakes c !! id); [by eexists|by apply elem_of_nil in Hin]. }
  split_and!; [|done|].
  - destruct (jm_get a (stakes_of c id)) eqn:Hg; [by eexists|]. by apply jm_get_None in Hg.
  - unfold touched. by destruct Hs as [l ->].
Qed.

Lemma removeStake_run now c a id :
  conv_ok now c → cv_stakeByStaker c !! a = Some id →
  ∃ x, removeStake a id c = (Ok tt, unstaked a id x c) ∧ conv_ok now (unstaked a id x c).
Proof.
  intros Hok Ha. destruct (has_stake _ _ _ _ Hok Ha) as ([x Hx] & Hs & Ht).
  exists x. split; [|by apply conv_ok_unstaked].
  unfold removeStake. erewrite bind_run by apply stakesFor_run. rewrite Hx, Ht. done.
Qed.

Lemma keeps_closed_same c c' : cv_proposals c' = cv_proposals c → keeps_closed c c'.
Proof. by intros Hp id p ? ?; rewrite Hp. Qed.

Lemma conv_next_trans now a b c : conv_next now a b → conv_next now b c → conv_next now a c.
Proof. intros [_ H1] [H2 H3]. split; [done|by eapply keeps_closed_trans]. Qed.

(** What staking does once the amount has been checked against the votes. *)
Definition place_stake (clock : LedgerClock) (staker : string) (proposalId amount : Z) :
    M ConvictionVotingState unit :=
  target ← mustGetOpenProposal proposalId;
  updateConviction clock target;;
  state ← get;
  match cv_stakeByStaker state !! staker with
  | Some oldId =>
    if negb (oldId =? proposalId) then
      old ← mustGetProposal oldId;
      updateConviction clock old;;
      removeStake staker oldId
    else mret tt
  | None => mret tt
  end;;
  stakes ← stakesFor proposalId;
  let delta := amount - default 0 (jm_get staker stakes) in
  modify (update_stakes proposalId (jm_set staker amount));;
  modify (λ c, c <| cv_totalStaked ::= <[proposalId := totalStaked c proposalId + delta]> |>);;
  modify (λ c, c <| cv_stakeByStaker ::= <[staker := proposalId]> |>).

(** Leaving the old proposal: afterwards the staker has no other stake. *)
Lemma leave_old clock staker id c :
  conv_ok (sequence clock) c → is_Some (cv_proposals c !! id) →
  ∃ c', match cv_stakeByStaker c !! staker with
        | Some oldId =>
          if negb (oldId =? id) then
            old ← mustGetProposal oldId; updateConviction clock old;; removeStake staker oldId
          else mret tt
        | None => mret tt
        end c = (Ok tt, c') ∧ conv_next (sequence clock) c c' ∧ is_Some (cv_proposals c' !! id) ∧
        (∀ i, cv_stakeByStaker c' !! staker = Some i → i = id).
Proof.
  intros Hok Hid. destruct (cv_stakeByStaker c !! staker) as [oldId|] eqn:Hst;
    [destruct (Z.eqb_spec oldId id) as [->|Hne]; cbn [negb]|].
  - exists c. split_and!; [done|by apply conv_next_refl|done|]. intros i. by rewrite Hst; intros [= ->].
  - destruct (co_exists _ _ Hok _ _ Hst) as [old Hold].
    destruct (updateConviction_ok clock old c oldId Hok Hold) as (p' & Hrun & Hnext & _ & _).
    set (c1 := c <| cv_proposals ::= <[oldId := p']> |>) in *.
    destruct (removeStake_run (sequence clock) c1 staker oldId) as (x & Hrm & Hok2);
      [apply Hnext|done|].
    exists (unstaked staker oldId x c1). split_and!.
    + rewrite (bind_run _ _ _ _ _ (mustGetProposal_run _ _ _ Hold)).
      by rewrite (bind_run _ _ _ _ _ Hrun).
    + eapply conv_next_trans; [exact Hnext|]. split; [done|]. by apply keeps_closed_same.
    + cbn. rewrite lookup_insert_ne by done. done.
    + intros i. cbn. by rewrite lookup_delete_eq.
  - exists c. split_and!; [done|by apply conv_next_refl|done|]. by rewrite Hst.
Qed.

Lemma place_stake_run clock staker id amount c :
  conv_ok (sequence clock) c → 0 < amount →
  (∃ p c', cv_proposals c !! id = Some p ∧ cvp_executed p = false ∧
    place_stake clock staker id amount c = (Ok tt, c') ∧ conv_next (sequence clock) c c' ∧
    jm_get staker (stakes_of c' id) = Some amount ∧ cv_stakeByStaker c' !! staker = Some id) ∨
  ((∀ p, cv_proposals c !! id = Some p → cvp_executed p = true) ∧
   ∃ e, place_stake clock staker id amount c = (Throw e, c)).
Proof.
  intros Hok Hx. unfold place_stake.
  assert ((∃ p, cv_proposals c !! id = Some p ∧ cvp_executed p = false) ∨
          (∀ p, cv_proposals c !! id = Some p → cvp_executed p = true)) as [(p & Hp & He)|Hall].
  { destruct (cv_proposals c !! id) as [p|]; [|by right].
    destruct (cvp_executed p) eqn:He; [right; by intros ? [= <-]|left; eauto]. }
  2:{ right. split; [done|]. destruct (mustGetOpenProposal_closed _ _ Hall) as [e Hrun].
      rewrite (bind_throw _ _ _ _ _ Hrun). by eexists. }
  destruct (co_each _ _ Hok _ _ Hp) as (_ & _ & Hcan & _).
  left. destruct (updateConviction_ok clock p c id Hok Hp) as (p' & Hrun & Hnext & _).
  set (c1 := c <| cv_proposals ::= <[id := p']> |>) in *.
  destruct (leave_old clock staker id c1) as (c2 & Hrun2 & Hnext2 & Hid2 & Hst2);
    [apply Hnext|by apply lookup_insert_is_Some'; left|].
  set (c3 := touched id c2).
  destruct (touched_fields id c2) as (F1 & F2 & F3 & F4 & F5 & F6 & F7).
  assert (conv_ok (sequence clock) (staked staker id amount c3)) as Hok3.
  { apply conv_ok_staked; [apply conv_ok_touched, Hnext2| | |done|].
    - subst c3. by rewrite F3.
    - subst c3. rewrite F2. by eexists.
    - subst c3. rewrite F5. exact Hst2. }
  exists p, (staked staker id amount c3). split_and!; [done|done| | | |].
  - rewrite (bind_run _ _ _ _ _ (mustGetOpenProposal_run _ _ _ Hp He Hcan)).
    rewrite (bind_run _ _ _ _ _ Hrun). rewrite (bind_run _ _ _ c1 c1) by done.
    rewrite (bind_run _ _ _ _ _ Hrun2), (bind_run _ _ _ _ _ (stakesFor_run id c2)).
    unfold staked. by rewrite F1.
  - eapply conv_next_trans; [exact Hnext|]. eapply conv_next_trans; [exact Hnext2|].
    split; [done|]. apply keeps_closed_same. cbn. by subst c3.
  - assert (stakes_of (staked staker id amount c3) id = jm_set staker amount (stakes_of c2 id)) as ->.
    { etransitivity; [by apply (stakes_of_alter c3 id _ id _ F2)|]. by rewrite decide_True. }
    by rewrite jm_get_set, decide_True.
  - cbn. by rewrite lookup_insert_eq.
Qed.

(** ** What the calls do *)
Definition on_conv (f : ConvictionVotingState → ConvictionVotingState) (s : MockLedgerStore) :
    MockLedgerStore :=
  s <| st_convictionVoting ::= f |>.
Definition votes_now (s : MockLedgerStore) (a : string) : Z :=
  lastCheckpointVotes (tv_checkpoints (st_votes s) !! a).

Lemma on_conviction_run {A} (m : M ConvictionVotingState A) o c s :
  m (st_convictionVoting s) = (o, c) → on_conviction m s = (o, on_conv (λ _, c) s).
Proof. intros H. unfold on_conviction, zoom. by rewrite H. Qed.
Lemma on_conv_id s : on_conv (λ _, st_convictionVoting s) s = s.
Proof. by destruct s. Qed.

Lemma stake_run clock caller staker id amount s :
  conv_ok (sequence clock) (st_convictionVoting s) →
  (∃ c' p, caller = staker ∧ 0 < amount ≤ votes_now s staker ∧
    cv_proposals (st_convictionVoting s) !! id = Some p ∧ cvp_executed p = false ∧
    stake clock caller staker id amount s = (Ok tt, on_conv (λ _, c') s) ∧
    conv_next (sequence clock) (st_convictionVoting s) c' ∧
    jm_get staker (stakes_of c' id) = Some amount ∧ cv_stakeByStaker c' !! staker = Some id) ∨
  (¬ (caller = staker ∧ 0 < amount ≤ votes_now s staker ∧
      ∃ p, cv_proposals (st_convictionVoting s) !! id = Some p ∧ cvp_executed p = false) ∧
   ∃ e, stake clock caller staker id amount s = (Throw e, s)).
Proof.
  intros Hok.
  change (stake clock caller staker id amount) with
    (throw_if (negb (String.eqb caller staker))
      (MockContractError 100 "stake: staker must authorize this call");;
     throw_if (amount <=? 0) (conviction_error ConvictionVotingContractError.InvalidAmount
       "stake: amount must be positive");;
     votes ← on_votes (get_votes staker);
     throw_if (votes <? amount) (conviction_error
       ConvictionVotingContractError.InsufficientVotingPower "stake: insufficient voting power");;
     on_conviction (place_stake clock staker id amount)).
  destruct (String.eqb_spec caller staker) as [->|]; [|right; split; [tauto|by eexists]].
  cbn [negb throw_if]. rewrite (bind_run _ _ s tt s) by done.
  destruct (Z.leb_spec amount 0); cbn [throw_if];
    [right; split; [lia|by eexists]|].
  rewrite (bind_run _ _ s tt s) by done.
  rewrite (bind_run _ _ s (votes_now s staker) s) by (by apply on_votes_read).
  destruct (Z.ltb_spec (votes_now s staker) amount); cbn [throw_if];
    [right; split; [lia|by eexists]|].
  rewrite (bind_run _ _ s tt s) by done.
  destruct (place_stake_run clock staker id amount (st_convictionVoting s) Hok)
    as [(p & c' & Hp & He & Hrun & Hnext & Hg & Hst)|[Hno [e Hrun]]]; [done| |].
  - left. exists c', p. split_and!; try done. by apply on_conviction_run.
  - right. split; [intros (_ & _ & p & Hp & He); by rewrite (Hno _ Hp) in He|].
    exists e. rewrite (on_conviction_run _ _ _ _ Hrun). by rewrite on_conv_id.
Qed.

Lemma withdraw_stake_run clock caller staker s :
  conv_ok (sequence clock) (st_convictionVoting s) →
  (∃ c', withdraw_stake clock caller staker s = (Ok tt, on_conv (λ _, c') s) ∧
    conv_next (sequence clock) (st_convictionVoting s) c' ∧ cv_stakeByStaker c' !! staker = None) ∨
  (∃ e, withdraw_stake clock caller staker s = (Throw e, s)).
Proof.
  intros Hok. unfold withdraw_stake. destruct (String.eqb_spec caller staker) as [->|];
    cbn [negb throw_if]; [|right; by eexists].
  rewrite (bind_run _ _ s tt s) by done. set (c := st_convictionVoting s) in *.
  destruct (cv_stakeByStaker c !! staker) as [id|] eqn:Hst.
  2:{ right. eexists. erewrite on_conviction_run.
      2:{ rewrite (bind_run _ _ _ c c) by done. rewrite Hst. reflexivity. }
      subst c. by rewrite on_conv_id. }
  left. destruct (co_exists _ _ Hok _ _ Hst) as [p Hp].
  destruct (updateConviction_ok clock p c id Hok Hp) as (p' & Hrun & Hnext & _).
  set (c1 := c <| cv_proposals ::= <[id := p']> |>) in *.
  destruct (removeStake_run (sequence clock) c1 staker id) as (x & Hrm & Hok2);
    [apply Hnext|done|].
  exists (unstaked staker id x c1). split_and!.
  - apply on_conviction_run. rewrite (bind_run _ _ _ c c) by done. rewrite Hst.
    rewrite (bind_run _ _ _ id c) by done.
    rewrite (bind_run _ _ _ _ _ (mustGetProposal_run _ _ _ Hp)).
    by rewrite (bind_run _ _ _ _ _ Hrun).
  - eapply conv_next_trans; [exact Hnext|]. split; [done|]. by apply keeps_closed_same.
  - cbn. by rewrite lookup_delete_eq.
Qed.

(** The record a checkpoint sees. *)
Definition refreshed (clock : LedgerClock) (c : ConvictionVotingState)
    (p : ConvictionProposalRecord) : ConvictionProposalRecord :=
  if sequence clock - cvp_lastUpdatedLedger p <=? 0 then p else updated clock c p.

Definition execution_of (clock : LedgerClock) (p : ConvictionProposalRecord) :
    ConvictionExecutionRecord :=
  mkExecution (cvp_id p) (cvp_target p) (cvp_fnName p) (cvp_calldata p) (sequence clock).

Definition executed_at (clock : LedgerClock) (p : ConvictionProposalRecord)
    (c : ConvictionVotingState) : ConvictionVotingState :=
  c <| cv_proposals ::= <[cvp_id p := p <| cvp_executed := true |>]> |>
    <| cv_executions ::= λ l, l ++ [execution_of clock p] |>.

Lemma checkpoint_run clock id p s :
  conv_ok (sequence clock) (st_convictionVoting s) →
  cv_proposals (st_convictionVoting s) !! id = Some p →
  checkpoint_conviction clock id s =
  if cvp_executed p then (Ok (cvp_conviction p), s)
  else
    let p' := refreshed clock (st_convictionVoting s) p in
    let s' := on_conv (λ c, c <| cv_proposals ::= <[id := p']> |>) s in
    (Ok (cvp_conviction p'),
     if threshold_of clock s (cvp_requestedAmount p) <=? cvp_conviction p'
     then on_conv (executed_at clock p') s' else s').
Proof.
  intros Hok Hp. set (c := st_convictionVoting s) in *. unfold checkpoint_conviction.
  destruct (co_each _ _ Hok _ _ Hp) as (Hid & _ & Hcan & Hra).
  erewrite bind_run by (by apply on_conviction_run, mustGetProposal_run). subst c. rewrite on_conv_id.
  destruct (cvp_executed p) eqn:He; [done|]. rewrite Hcan. cbn [orb].
  rewrite <- Hid in Hp. erewrite bind_run by (by apply on_conviction_run, updateConviction_run).
  cbv zeta. rewrite He, Hcan, !orb_false_r. fold (refreshed clock (st_convictionVoting s) p).
  set (p' := refreshed _ _ p). assert (cvp_requestedAmount p' = cvp_requestedAmount p ∧ cvp_id p' = cvp_id p)
    as [Hra' Hid'] by (unfold p', refreshed; by destruct (_ <=? 0)).
  erewrite bind_run by (rewrite requiredThreshold_run, Hra', (proj2 (Z.ltb_ge _ _) Hra); reflexivity).
  rewrite Hid. set (s' := on_conv _ s).
  replace (on_conv (λ c, c <| cv_proposals ::= <[id := p']> |>) s) with s' by done.
  replace (threshold_of clock s' (cvp_requestedAmount p)) with (threshold_of clock s (cvp_requestedAmount p))
    by done.
  by destruct (_ <=? cvp_conviction p').
Qed.

Lemma refreshed_fields clock c p :
  cvp_id (refreshed clock c p) = cvp_id p ∧ cvp_executed (refreshed clock c p) = cvp_executed p ∧
  cvp_cancelled (refreshed clock c p) = cvp_cancelled p ∧
  cvp_requestedAmount (refreshed clock c p) = cvp_requestedAmount p ∧
  (cvp_lastUpdatedLedger p ≤ sequence clock →
   cvp_lastUpdatedLedger (refreshed clock c p) = sequence clock).
Proof.
  unfold refreshed. destruct (Z.leb_spec (sequence clock - cvp_lastUpdatedLedger p) 0);
    split_and!; try done; lia.
Qed.

(** Executing an open proposal. *)
Lemma executed_next clock c p :
  conv_ok (sequence clock) c → cv_proposals c !! cvp_id p = Some p → cvp_executed p = false →
  conv_next (sequence clock) c (executed_at clock p c).
Proof.
  intros [H1 H2 H3 H4 H5 H6 H7 H8 H9 H10] Hp He. split.
  - split; cbn; try done.
    + intros i. rewrite lookup_insert_is_Some, <- H2. split; [by intros [<-|[_ ?]]; [eexists|]|].
      intros Hi. destruct (decide (cvp_id p = i)); auto.
    + intros i q. rewrite lookup_insert_Some. intros [[<- <-]|[_ Hq]]; [|by apply H3].
      cbn. destruct (H3 _ _ Hp) as (_ & ? & ? & ?). by split_and!.
    + intros a i Ha. apply lookup_insert_is_Some. destruct (decide (cvp_id p = i)); [by left|right].
      split; [done|by apply (H8 a)].
    + rewrite fmap_app. cbn. apply NoDup_app. split_and!; [done| |apply NoDup_singleton].
      intros x Hx ->%list_elem_of_singleton. apply H10 in Hx as (q & Hq & Hqe). congruence.
    + intros i. rewrite fmap_app, elem_of_app, H10. cbn. rewrite list_elem_of_singleton. split.
      * intros [(q & Hq & Hqe)| ->]; [|by exists (p <| cvp_executed := true |>); rewrite lookup_insert_eq].
        exists q. split; [|done]. rewrite lookup_insert_ne; [done|]. intros <-. congruence.
      * intros (q & Hq & Hqe). apply lookup_insert_Some in Hq as [[<- _]|[_ Hq]]; eauto.
  - intros i q Hq Hqe. cbn. rewrite lookup_insert_ne; [done|]. intros <-. congruence.
Qed.

Lemma checkpoint_next clock id s :
  conv_ok (sequence clock) (st_convictionVoting s) →
  conv_next (sequence clock) (st_convictionVoting s)
    (st_convictionVoting (checkpoint_conviction clock id s).2).
Proof.
  intros Hok. set (c := st_convictionVoting s) in *. destruct (cv_proposals c !! id) as [p|] eqn:Hp.
  2:{ destruct (mustGetProposal_none _ _ Hp) as [e He]. unfold checkpoint_conviction.
      erewrite bind_throw by (by apply on_conviction_run). by apply conv_next_refl. }
  rewrite (checkpoint_run _ _ _ _ Hok Hp). destruct (cvp_executed p) eqn:He; [by apply conv_next_refl|].
  cbv zeta. fold c. destruct (co_each _ _ Hok _ _ Hp) as (Hid & Hl & Hcan & Hra).
  destruct (refreshed_fields clock c p) as (F1 & F2 & F3 & F4 & F5).
  set (p' := refreshed clock c p) in *. set (c1 := c <| cv_proposals ::= <[id := p']> |>).
  assert (conv_next (sequence clock) c c1) as Hnext.
  { subst c1. rewrite <- Hid. eapply (conv_ok_update _ _ id p); try done; [|congruence].
    rewrite (F5 Hl). lia. }
  destruct (_ <=? cvp_conviction p'); [|exact Hnext].
  eapply conv_next_trans; [exact Hnext|]. apply executed_next; [apply Hnext| |congruence].
  cbn. rewrite F1, Hid. by rewrite lookup_insert_eq.
Qed.

Lemma create_next clock caller proposer target f d a s :
  conv_ok (sequence clock) (st_convictionVoting s) →
  conv_next (sequence clock) (st_convictionVoting s)
    (st_convictionVoting (create_proposal clock caller proposer target f d a s).2).
Proof.
  intros Hok. unfold create_proposal. m_run. destruct (negb _); [by apply conv_next_refl|].
  unfold mret, M_ret. cbn beta iota.
  destruct (Z.ltb_spec a 0); [by apply conv_next_refl|]. unfold on_conviction. m_run.
  cbn -[insert]. destruct Hok as [H1 H2 H3 H4 H5 H6 H7 H8 H9 H10].
  set (c := st_convictionVoting s) in *. set (n := cv_nextProposalId c) in *.
  assert (cv_proposals c !! n = None) as Hn.
  { apply eq_None_not_Some. rewrite H2. lia. }
  assert (∀ b, b ∉ (stakes_of c n).*1) as Hempty.
  { intros b Hb. apply H7, H8 in Hb. rewrite Hn in Hb. by destruct Hb. }
  split.
  - assert (∀ i, default [] (<[n := []]> (cv_stakes c) !! i) = if decide (i = n) then [] else stakes_of c i)
      as Hs.
    { intros i. case_decide; [by subst; rewrite lookup_insert_eq|by rewrite lookup_insert_ne]. }
    split; cbn -[insert]; unfold stakes_of, totalStaked; cbn -[insert]; try done.
    + lia.
    + intros i. rewrite lookup_insert_is_Some, H2. fold n. lia.
    + intros i q. rewrite lookup_insert_Some. intros [[<- <-]|[_ Hq]]; [|by apply H3].
      cbn. split_and!; (done || lia).
    + intros i. rewrite Hs. case_decide; [constructor|apply H4].
    + intros i. rewrite Hs. case_decide; [by subst; rewrite lookup_insert_eq|].
      rewrite lookup_insert_ne by done. apply H5.
    + intros i. rewrite Hs. case_decide; [constructor|apply H6].
    + intros b i. rewrite Hs. case_decide; [|apply H7]. subst. cbn. rewrite elem_of_nil.
      split; [done|]. intros Hb. apply (Hempty b), H7. done.
    + intros b i Hb. apply lookup_insert_is_Some. destruct (decide (n = i)); [by left|right].
      split; [done|by apply (H8 b)].
    + intros i. rewrite H10. split.
      * intros (q & Hq & Hqe). exists q. split; [|done]. rewrite lookup_insert_ne; [done|]. congruence.
      * intros (q & Hq & Hqe). apply lookup_insert_Some in Hq as [[_ <-]|[_ Hq]]; [done|eauto].
  - intros i q Hq Hqe. cbn -[insert]. rewrite lookup_insert_ne; [done|]. congruence.
Qed.

Lemma get_stakes_next now id o l s :
  conv_ok now (st_convictionVoting s) →
  conv_next now (st_convictionVoting s) (st_convictionVoting (get_stakes id o l s).2).
Proof.
  intros Hok. unfold get_stakes, on_conviction, zoom. set (c := st_convictionVoting s) in *.
  destruct (cv_proposals c !! id) as [p|] eqn:Hp.
  - rewrite (bind_run _ _ _ _ _ (mustGetProposal_run _ _ _ Hp)).
    destruct (l =? 0); [by apply conv_next_refl|].
    rewrite (bind_run _ _ _ _ _ (stakesFor_run id c)). split; [by apply conv_ok_touched|].
    apply keeps_closed_same. apply touched_fields.
  - destruct (mustGetProposal_none _ _ Hp) as [e He]. rewrite (bind_throw _ _ _ _ _ He).
    by apply conv_next_refl.
Qed.

(** ** Histories *)
Inductive conviction_call :=
  | CvCreate (caller proposer target fnName : string) (calldata : bytes) (requestedAmount : Z)
  | CvStake (caller staker : string) (proposalId amount : Z)
  | CvWithdraw (caller staker : string)
  | CvCheckpoint (proposalId : Z)
  | CvStakes (proposalId offset limit : Z).

Definition conviction_run (clock : LedgerClock) (c : conviction_call) : M MockLedgerStore unit :=
  match c with
  | CvCreate caller p t f d a => create_proposal clock caller p t f d a;; mret tt
  | CvStake caller a id x => stake clock caller a id x
  | CvWithdraw caller a => withdraw_stake clock caller a
  | CvCheckpoint id => checkpoint_conviction clock id;; mret tt
  | CvStakes id o l => get_stakes id o l;; mret tt
  end.

(** A world moves by a call, by the clock, or by anything that leaves the
    conviction contract alone: transfers and delegations of votes above all. *)
Inductive conviction_step :
    LedgerClock * MockLedgerStore → LedgerClock * MockLedgerStore → Prop :=
  | cs_call clock c s : conviction_step (clock, s) (clock, (conviction_run clock c s).2)
  | cs_time clock clock' s :
    sequence clock ≤ sequence clock' → conviction_step (clock, s) (clock', s)
  | cs_other clock s s' :
    st_convictionVoting s' = st_convictionVoting s → conviction_step (clock, s) (clock, s').

Lemma ignore_result {A} (m : M MockLedgerStore A) s : ((m;; mret tt) s).2 = (m s).2.
Proof. unfold mbind, M_bind. by destruct (m s) as [[] ?]. Qed.

Lemma conviction_run_next clock c s :
  conv_ok (sequence clock) (st_convictionVoting s) →
  conv_next (sequence clock) (st_convictionVoting s)
    (st_convictionVoting (conviction_run clock c s).2).
Proof.
  intros Hok. destruct c as [caller p t f d a|caller a id x|caller a|id|id o l]; cbn [conviction_run].
  - rewrite ignore_result. by apply create_next.
  - destruct (stake_run clock caller a id x s Hok)
      as [(c' & p & _ & _ & _ & _ & -> & H & _)|[_ [e ->]]]; [done|by apply conv_next_refl].
  - destruct (withdraw_stake_run clock caller a s Hok) as [(c' & -> & H & _)|[e ->]];
      [done|by apply conv_next_refl].
  - rewrite ignore_result. by apply checkpoint_next.
  - rewrite ignore_result. by apply get_stakes_next.
Qed.

Lemma conv_ok_later now now' c : conv_ok now c → now ≤ now' → conv_ok now' c.
Proof.
  intros [H1 H2 H3 H4 H5 H6 H7 H8 H9 H10] Hle. split; try done.
  intros i p Hp. destruct (H3 _ _ Hp) as (? & ? & ? & ?). split_and!; (done || lia).
Qed.

Lemma conviction_step_next w w' :
  conviction_step w w' → conv_ok (sequence w.1) (st_convictionVoting w.2) →
  conv_next (sequence w'.1) (st_convictionVoting w.2) (st_convictionVoting w'.2).
Proof.
  intros [clock c s|clock clock' s Hle|clock s s' Heq] Hok; cbn in *.
  - by apply conviction_run_next.
  - apply conv_next_refl. by eapply conv_ok_later.
  - rewrite Heq. by apply conv_next_refl.
Qed.

Lemma conviction_history_next w w' :
  rtc conviction_step w w' → conv_ok (sequence w.1) (st_convictionVoting w.2) →
  conv_ok (sequence w'.1) (st_convictionVoting w'.2) ∧
  keeps_closed (st_convictionVoting w.2) (st_convictionVoting w'.2).
Proof.
  induction 1 as [|w1 w2 w3 Hstep _ IH]; intros Hok; [split; [done|apply keeps_closed_refl]|].
  destruct (conviction_step_next _ _ Hstep Hok) as [Hok2 Hk]. destruct (IH Hok2) as [Hok3 Hk3].
  split; [done|by eapply keeps_closed_trans].
Qed.

(** A contract that has just been set up. *)
Definition conviction_boot (s : MockLedgerStore) : Prop :=
  let c := st_convictionVoting s in
  cv_nextProposalId c = 1 ∧ cv_proposals c = ∅ ∧ cv_stakes c = ∅ ∧ cv_totalStaked c = ∅ ∧
  cv_stakeByStaker c = ∅ ∧ cv_executions c = [].

Lemma conviction_boot_ok s now : conviction_boot s → conv_ok now (st_convictionVoting s).
Proof.
  intros (H1 & H2 & H3 & H4 & H5 & H6).
  split; unfold stakes_of, totalStaked; rewrite ?H1, ?H2, ?H3, ?H4, ?H5, ?H6; try done;
    intros; rewrite ?lookup_empty; try done; try (by constructor).
  - split; [by intros []|lia].
  - cbn. rewrite elem_of_nil. done.
  - cbn. rewrite elem_of_nil. split; [done|]. by intros (? & ? & _).
Qed.

Lemma projectConviction_now c t d w : projectConviction c t 0 d w = c.
Proof.
  unfold projectConviction. replace (powBps d 0) with BPS by done. unfold BPS.
  rewrite Z.sub_diag, Z.mul_0_r, Z.quot_0_l, Z.add_0_r by done. by apply Z.quot_mul.
Qed.

(** The threshold in terms of the share of the supply asked for. *)
Definition threshold_curve (m r supply a : Z) : Z :=
  if a =? 0 then m
  else if bool_decide (supply ≤ 0 ∨ r ≤ a * BPS / supply) then I128_MAX
  else m * r * r / ((r - a * BPS / supply) * (r - a * BPS / supply)).

Lemma threshold_cases clock s a :
  0 ≤ a → 0 ≤ cv_minThresholdConviction (st_convictionVoting s) →
  0 < cv_maxRatioBps (st_convictionVoting s) →
  threshold_of clock s a =
    threshold_curve (cv_minThresholdConviction (st_convictionVoting s))
      (cv_maxRatioBps (st_convictionVoting s)) (supply_at (st_votes s) (sequence clock)) a.
Proof.
  intros Ha Hm Hr. unfold threshold_of, threshold_curve. set (supply := supply_at _ _).
  destruct (a =? 0); [done|]. destruct (Z.leb_spec supply 0); cbn [orb].
  { by rewrite bool_decide_true by (by left). }
  rewrite (quot_div_nonneg (a * BPS)) by (unfold BPS; lia).
  destruct (Z.leb_spec (cv_maxRatioBps (st_convictionVoting s)) (a * BPS / supply)).
  { by rewrite bool_decide_true by (by right). }
  rewrite bool_decide_false by lia. apply quot_div_nonneg; nia.
Qed.

Lemma curve_bounds m r q :
  0 ≤ m → 0 ≤ q < r → m ≤ m * r * r / ((r - q) * (r - q)) ≤ m * r * r.
Proof.
  intros Hm Hq. assert ((r - q) * (r - q) ≤ r * r) by nia.
  split; [apply Z.div_le_lower_bound; nia|].
  apply Z.div_le_upper_bound; [nia|]. assert (1 ≤ (r - q) * (r - q)) by nia.
  assert (0 ≤ m * r * r) by nia. nia.
Qed.

Lemma threshold_curve_mono m r supply a b :
  0 ≤ m → 0 < r → m * r * r ≤ I128_MAX → 0 ≤ a → a ≤ b →
  m ≤ threshold_curve m r supply a ≤ threshold_curve m r supply b.
Proof.
  intros Hm Hr Hmax Ha Hab.
  assert (m ≤ m * r * r) by (assert (1 ≤ r * r) by nia; rewrite <- Z.mul_assoc; nia).
  assert (∀ x, 0 ≤ x → m ≤ threshold_curve m r supply x ≤ I128_MAX) as Hbound.
  { intros x Hx. unfold threshold_curve. destruct (x =? 0); [lia|].
    case_bool_decide as Hg; [lia|]. apply Decidable.not_or in Hg as [Hs Hq].
    assert (0 ≤ x * BPS / supply) by (apply Z.div_pos; unfold BPS; lia).
    pose proof (curve_bounds m r (x * BPS / supply) Hm ltac:(lia)). lia. }
  split; [by apply Hbound|]. destruct (decide (a = 0)) as [->|]; [by apply Hbound; lia|].
  destruct (decide (supply ≤ 0 ∨ r ≤ b * BPS / supply)) as [Hg|Hg].
  - transitivity I128_MAX; [by apply Hbound|]. unfold threshold_curve.
    rewrite (proj2 (Z.eqb_neq b 0)) by lia. by rewrite bool_decide_true.
  - unfold threshold_curve. rewrite !(proj2 (Z.eqb_neq _ 0)) by lia.
    rewrite (bool_decide_false (supply ≤ 0 ∨ r ≤ b * BPS / supply)) by done.
    apply Decidable.not_or in Hg as [Hs Hq].
    assert (0 ≤ a * BPS / supply) by (apply Z.div_pos; unfold BPS; lia).
    assert (a * BPS / supply ≤ b * BPS / supply) by (apply Z.div_le_mono; unfold BPS; lia).
    rewrite bool_decide_false by lia. apply Z.div_le_compat_l; [nia|]. nia.
Qed.

(** A proposal asking for 10, backed by alice's 50 votes. *)
Module Examples.
Import StoreExamples.
Definition voting : MockLedgerStore :=
  store <| st_votes ::= λ v, v <| tv_checkpoints := {["alice" := [mkCheckpoint 1 50]]} |>
                               <| tv_totalSupplyCheckpoints := [mkCheckpoint 1 50] |> |>
    <| st_convictionVoting ::= λ c, c <| cv_maxRatioBps := 5000 |>
                                      <| cv_minThresholdConviction := 30 |> |>.
Definition run (n : Z) (c : conviction_call) (s : MockLedgerStore) : MockLedgerStore :=
  (conviction_run (clk n) c s).2.
Definition proposed := run 1 (CvCreate "bob" "bob" "pool" "fund" [] 10) voting.
Definition supported := run 2 (CvStake "alice" "alice" 1 50) proposed.
Definition passed := run 5 (CvCheckpoint 1) supported.
Definition record (s : MockLedgerStore) : ConvictionProposalRecord :=
  default (mkConviction 0 "" "" "" [] 0 0 0 0 false false)
    (cv_proposals (st_convictionVoting s) !! 1).
Definition w0 : LedgerClock * MockLedgerStore := (clk 1, voting).
Definition w1 : LedgerClock * MockLedgerStore := (clk 5, supported).
Definition w2 : LedgerClock * MockLedgerStore := (clk 5, passed).

Lemma cv_boot : conviction_boot w0.2.
Proof. by split_and!. Qed.
Lemma cv_history1 : rtc conviction_step w0 w1.
Proof.
  apply (rtc_l _ _ (clk 1, proposed)); [apply (cs_call (clk 1) (CvCreate "bob" "bob" "pool" "fund" [] 10))|].
  apply (rtc_l _ _ (clk 2, proposed)); [apply cs_time; vm_compute; discriminate|].
  apply (rtc_l _ _ (clk 2, supported)); [apply (cs_call (clk 2) (CvStake "alice" "alice" 1 50))|].
  apply rtc_once, cs_time. vm_compute. discriminate.
Qed.
Lemma cv_history2 : rtc conviction_step w1 w2.
Proof. apply rtc_once, (cs_call (clk 5) (CvCheckpoint 1)). Qed.
Lemma cv_history : rtc conviction_step w0 w2.
Proof. etransitivity; [apply cv_history1|apply cv_history2]. Qed.
End Examples.

(** ** Properties *)

(** Stakes add up.  In every history that starts with a fresh contract,
    and whatever happens to the votes meanwhile, each proposal's recorded total
    is the sum of its stakes, each stake is positive, and an account is listed
    on exactly the one proposal its pointer names, which exists. *)
Theorem stakes_add_up w0 w :
  conviction_boot w0.2 → rtc conviction_step w0 w →
  let c := st_convictionVoting w.2 in
  ∀ id, totalStaked c id = jm_total (stakes_of c id) ∧
    NoDup (stakes_of c id).*1 ∧ Forall (λ x, 0 < x) (stakes_of c id).*2 ∧
    ∀ a, a ∈ (stakes_of c id).*1 ↔
      cv_stakeByStaker c !! a = Some id ∧ is_Some (cv_proposals c !! id).
Proof.
  intros Hboot Hsteps c id.
  destruct (conviction_history_next _ _ Hsteps (conviction_boot_ok _ _ Hboot)) as [Hok _].
  subst c. split_and!; [apply Hok..|]. intros a. rewrite (co_staker _ _ Hok).
  pose proof (co_exists _ _ Hok a id). naive_solver.
Qed.

Lemma stakes_add_up_witness :
  totalStaked (st_convictionVoting Examples.w1.2) 1 = 50.
Proof.
  rewrite (proj1 (stakes_add_up Examples.w0 Examples.w1 Examples.cv_boot Examples.cv_history1 1)).
  vm_compute. reflexivity.
Defined.

(** A proposal executes once.  In every history no proposal is listed twice
    among the executions, exactly the listed proposals are marked executed, and
    once a proposal is executed no later history changes its record. *)
Theorem conviction_executes_once w0 w w' :
  conviction_boot w0.2 → rtc conviction_step w0 w → rtc conviction_step w w' →
  let c := st_convictionVoting w.2 in let c' := st_convictionVoting w'.2 in
  NoDup (cve_proposalId <$> cv_executions c) ∧
  (∀ id, id ∈ (cve_proposalId <$> cv_executions c) ↔
     ∃ p, cv_proposals c !! id = Some p ∧ cvp_executed p = true) ∧
  (∀ id p, cv_proposals c !! id = Some p → cvp_executed p = true →
     cv_proposals c' !! id = Some p).
Proof.
  intros Hboot Hsteps Hsteps' c c'.
  destruct (conviction_history_next _ _ Hsteps (conviction_boot_ok _ _ Hboot)) as [Hok _].
  split_and!; [apply Hok..|]. by apply (conviction_history_next _ _ Hsteps').
Qed.

Lemma conviction_executes_once_witness :
  NoDup (cve_proposalId <$> cv_executions (st_convictionVoting Examples.w2.2)) ∧
  1 ∈ (cve_proposalId <$> cv_executions (st_convictionVoting Examples.w2.2)).
Proof.
  destruct (conviction_executes_once Examples.w0 Examples.w2 Examples.w2 Examples.cv_boot
    Examples.cv_history (rtc_refl _ _)) as (H1 & H2 & _).
  split; [exact H1|]. apply H2. exists (Examples.record Examples.passed).
  split; vm_compute; reflexivity.
Defined.

(** What a checkpoint does.  In every history, [checkpoint_conviction] of a
    known proposal returns: a closed proposal is left as it is; an open one gets
    the conviction projected from the stakes committed to it since its last
    update, and is executed exactly when that reaches the threshold for the
    amount it asks for. *)
Theorem checkpoint_correct w0 w id p :
  conviction_boot w0.2 → rtc conviction_step w0 w →
  cv_proposals (st_convictionVoting w.2) !! id = Some p →
  let c := st_convictionVoting w.2 in
  let v := projectConviction (cvp_conviction p) (jm_total (stakes_of c id))
             (sequence w.1 - cvp_lastUpdatedLedger p) (cv_decayBps c) (cv_weightBps c) in
  let '(r, s') := checkpoint_conviction w.1 id w.2 in
  (cvp_executed p = true → r = Ok (cvp_conviction p) ∧ s' = w.2) ∧
  (cvp_executed p = false →
     r = Ok v ∧ ∃ q, cv_proposals (st_convictionVoting s') !! id = Some q ∧
       cvp_conviction q = v ∧ cvp_lastUpdatedLedger q = sequence w.1 ∧
       (cvp_executed q = true ↔ threshold_of w.1 w.2 (cvp_requestedAmount p) ≤ v)).
Proof.
  intros Hboot Hsteps Hp c v.
  destruct (conviction_history_next _ _ Hsteps (conviction_boot_ok _ _ Hboot)) as [Hok _].
  rewrite (checkpoint_run _ _ _ _ Hok Hp). destruct (cvp_executed p) eqn:He; [done|].
  cbv zeta. fold c. split; [done|]. intros _.
  destruct (co_each _ _ Hok _ _ Hp) as (Hid & Hl & _ & _).
  destruct (refreshed_fields w.1 c p) as (F1 & F2 & F3 & F4 & F5). specialize (F5 Hl).
  assert (cvp_conviction (refreshed w.1 c p) = v) as Hv.
  { unfold v, refreshed, c. rewrite <- (co_total _ _ Hok id), <- Hid.
    destruct (Z.leb_spec (sequence w.1 - cvp_lastUpdatedLedger p) 0); [|done].
    replace (sequence w.1 - cvp_lastUpdatedLedger p) with 0 by lia. by rewrite projectConviction_now. }
  rewrite Hv. split; [done|]. destruct (Z.leb_spec (threshold_of w.1 w.2 (cvp_requestedAmount p)) v).
  - exists ((refreshed w.1 c p) <| cvp_executed := true |>). split_and!; try done.
    cbn. rewrite F1, Hid. by rewrite lookup_insert_eq.
  - exists (refreshed w.1 c p). split_and!; try done.
    + cbn. by rewrite lookup_insert_eq.
    + rewrite F2, He. split; [done|lia].
Qed.

Lemma checkpoint_correct_witness :
  (checkpoint_conviction Examples.w1.1 1 Examples.w1.2).1 = Ok 135.
Proof.
  pose proof (checkpoint_correct Examples.w0 Examples.w1 1 (Examples.record Examples.supported)
    Examples.cv_boot Examples.cv_history1 ltac:(vm_compute; reflexivity)) as H.
  destruct (checkpoint_conviction Examples.w1.1 1 Examples.w1.2) as [r s'].
  destruct H as [_ H]. destruct (H ltac:(vm_compute; reflexivity)) as [-> _].
  vm_compute. reflexivity.
Defined.

(** Conviction converges.  With the decay and the elapsed ledgers in range,
    the projected conviction lies between the old one and the steady level of
    the stake, up to one unit of rounding below; it grows with the old
    conviction and with the stake; and without stake it falls in every ledger
    until it is zero. *)
Theorem projection_converges c c' t t' e d w :
  0 ≤ c ≤ c' → 0 ≤ t ≤ t' → 0 ≤ w → 0 ≤ d < BPS → 0 ≤ e < 2 ^ 31 →
  Z.min c (steady_level t d w) - 1 ≤ projectConviction c t e d w ≤ Z.max c (steady_level t d w) ∧
  projectConviction c t e d w ≤ projectConviction c' t' e d w ∧
  (0 < e → 0 < c → projectConviction c 0 e d w < c).
Proof.
  intros Hc Ht Hw Hd He. pose proof (powBps_range d e ltac:(unfold BPS in *; lia) He) as Hp.
  assert (∀ x, 0 ≤ x → 0 ≤ steady_level x d w) as Hst by (intros; apply Z.div_pos; nia).
  rewrite !project_eq by (unfold BPS in *; lia). split; [|split].
  - apply mix_bounds; auto with lia.
  - assert (steady_level t d w ≤ steady_level t' d w) by (apply Z.div_le_mono; nia).
    apply Z.add_le_mono; apply Z.div_le_mono; unfold BPS in *; nia.
  - intros He0 Hc0. replace (steady_level 0 d w) with 0 by (unfold steady_level; by rewrite Z.div_0_l by lia).
    rewrite Z.mul_0_l, Z.div_0_l, Z.add_0_r by done.
    pose proof (powBps_decays d e ltac:(unfold BPS in *; lia) ltac:(lia)).
    apply Z.div_lt_upper_bound; unfold BPS in *; nia.
Qed.

Lemma projection_converges_witness :
  1000 ≤ projectConviction 1001 400 10 9000 10000 ≤ 4000 ∧
  projectConviction 1001 0 10 9000 10000 < 1001.
Proof.
  destruct (projection_converges 1001 1001 400 400 10 9000 10000) as (H1 & _ & H3);
    [unfold BPS; lia..|]. split; [exact H1|apply H3; lia].
Defined.

(** The fixed-point power.  [powBps] ends for every exponent; below 2^31
    it never exceeds the exact power [BPS * (b / BPS) ^ e] and stays between 0
    and [BPS]; at 2^31, where [>>=] turns the exponent negative, it returns
    [BPS], as if nothing had decayed. *)
Theorem powBps_correct b e :
  is_Some (pow_loop 33 BPS b e) ∧ powBps b (2 ^ 31) = BPS ∧
  (0 ≤ b ≤ BPS → 0 ≤ e < 2 ^ 31 → 0 ≤ powBps b e ≤ BPS ∧ powBps b e * BPS ^ e ≤ BPS * b ^ e).
Proof.
  split_and!; [apply pow_loop_total|done|]. intros Hb He. split; [by apply powBps_range|].
  apply powBps_bound; lia.
Qed.

Lemma powBps_correct_witness : powBps 9900 3 = 9702 ∧ powBps 9900 3 * BPS ^ 3 ≤ BPS * 9900 ^ 3.
Proof.
  split; [reflexivity|]. destruct (powBps_correct 9900 3) as (_ & _ & H).
  apply H; unfold BPS; lia.
Defined.

(** The threshold grows with the request.  A negative amount is refused; a
    request for nothing needs the minimum; more never needs less, and asking
    for the maximum share of the supply or more needs [I128_MAX], which no
    score reaches. *)
Theorem required_threshold_monotone clock s a b :
  let c := st_convictionVoting s in
  let m := cv_minThresholdConviction c in let r := cv_maxRatioBps c in
  0 ≤ m → 0 < r → m * r * r ≤ I128_MAX →
  (a < 0 → ∃ e, get_required_threshold clock a s = (Throw e, s)) ∧
  (0 ≤ a ≤ b → ∃ x y, get_required_threshold clock a s = (Ok x, s) ∧
     get_required_threshold clock b s = (Ok y, s) ∧
     m ≤ x ≤ y ∧ (a = 0 → x = m) ∧
     (0 < a → r * supply_at (st_votes s) (sequence clock) ≤ a * BPS → x = I128_MAX)).
Proof.
  intros c m r Hm Hr Hmax. unfold get_required_threshold. rewrite !requiredThreshold_run.
  split; [intros Ha; rewrite (proj2 (Z.ltb_lt _ _) Ha); by eexists|]. intros [Ha Hab].
  rewrite !(proj2 (Z.ltb_ge _ _)) by lia. do 2 eexists. split; [done|]. split; [done|].
  rewrite !threshold_cases by (done || lia). fold c m r.
  pose proof (threshold_curve_mono m r
    (supply_at (st_votes s) (sequence clock)) a b Hm Hr Hmax Ha Hab) as Hmono.
  split_and!; [apply Hmono..| |].
  - by intros ->.
  - intros Ha0 Hbig. unfold threshold_curve. rewrite (proj2 (Z.eqb_neq _ _)) by lia.
    case_bool_decide as Hg; [done|]. destruct Hg.
    destruct (decide (supply_at (st_votes s) (sequence clock) ≤ 0)); [by left|right].
    apply Z.div_le_lower_bound; lia.
Qed.

Lemma required_threshold_monotone_witness :
  ∃ x y, get_required_threshold (StoreExamples.clk 5) 10 Examples.voting = (Ok x, Examples.voting) ∧
    get_required_threshold (StoreExamples.clk 5) 20 Examples.voting = (Ok y, Examples.voting) ∧
    30 ≤ x ≤ y.
Proof.
  destruct (required_threshold_monotone (StoreExamples.clk 5) Examples.voting 10 20)
    as [_ H]; [vm_compute; congruence..|].
  destruct H as (x & y & H1 & H2 & H3 & _); [lia|]. exists x, y. split_and!; [exact H1|exact H2|apply H3..].
Defined.
