(* ===== verification/Optimistic.v ===== *)
(** * The optimistic governor

    [tools/simulation/src/mock/optimistic-governor-executor.ts]: a proposal
    passes unless enough voting power objects while its challenge window is
    open. *)

From S2P Require Import Prelude SdkErrors Store TokenVotes Proposals.

Definition OPT_BPS : Z := 10000.

Module OptErr.
Inductive t :=
  | InvalidConfiguration
  | ProposalNotFound
  | NotInChallengeWindow
  | ChallengeWindowNotElapsed
  | ChallengeWindowElapsed
  | AlreadyObjected
  | NoVotingPower
  | ProposalAlreadyFinalized
  | Unauthorized
  | ProposalNotPassed
  | ProposalNotCancellable.
Definition num (c : t) : Z :=
  match c with
  | InvalidConfiguration => 3
  | ProposalNotFound => 5
  | NotInChallengeWindow => 6
  | ChallengeWindowNotElapsed => 7
  | ChallengeWindowElapsed => 8
  | AlreadyObjected => 9
  | NoVotingPower => 10
  | ProposalAlreadyFinalized => 13
  | Unauthorized => 14
  | ProposalNotPassed => 12
  | ProposalNotCancellable => 16
  end.
End OptErr.

Definition optimistic_error (c : OptErr.t) (message : string) : JsError :=
  MockContractError (OptErr.num c) message.

Definition on_optimistic (f : OptimisticGovernorState → OptimisticGovernorState)
    (s : MockLedgerStore) : MockLedgerStore :=
  s <| st_optimisticGovernor ::= f |>.

Definition update_optimistic (id : Z) (f : OptimisticProposalRecord → OptimisticProposalRecord) :
    MockLedgerStore → MockLedgerStore :=
  on_optimistic (λ g, g <| og_proposals ::= alter f id |>).

Definition objection_key (id : Z) (objector : string) : string := decimal id +:+ ":" +:+ objector.

(** What [get_config] returns. *)
Record OptimisticConfig := mkOptimisticConfig {
  oc_votesToken : string;
  oc_challengeWindowLedgers : Z;
  oc_objectionThresholdBps : Z;
  oc_proposerBondAmount : Z;
  oc_proposerBondToken : string;
}.

Module OptimisticGovernorExecutor.

Definition mustGetProposal (id : Z) : M MockLedgerStore OptimisticProposalRecord :=
  store ← get;
  unwrap (og_proposals (st_optimisticGovernor store) !! id)
    (optimistic_error OptErr.ProposalNotFound ("proposal " +:+ decimal id +:+ " not found")).

Definition propose (clock : LedgerClock) (proposer target fnName : string)
    (calldata descriptionHash : bytes) : M MockLedgerStore Z :=
  store ← get;
  let config := st_optimisticGovernor store in
  throw_if (negb (og_proposerBondAmount config =? 0))
    (optimistic_error OptErr.InvalidConfiguration
       "mock optimistic governor only supports proposerBondAmount = 0");;
  let id := og_proposalCount config + 1 in
  modify (on_optimistic (λ g, g <| og_proposalCount := id |>));;
  let createdLedger := sequence clock in
  let proposal :=
    mkOptimistic id proposer target fnName calldata descriptionHash createdLedger
      (createdLedger + og_challengeWindowLedgers config) 0 ChallengeWindow in
  modify (on_optimistic (λ g, g <| og_proposals ::= <[id := proposal]> |>));;
  mret id.

Definition object (clock : LedgerClock) (objector : string) (id : Z) : M MockLedgerStore unit :=
  store ← get;
  let config := st_optimisticGovernor store in
  proposal ← mustGetProposal id;
  throw_if (negb (bool_decide (o_state proposal = ChallengeWindow)))
    (optimistic_error OptErr.NotInChallengeWindow "proposal is not in the challenge window");;
  throw_if (o_challengeEndLedger proposal <=? sequence clock)
    (optimistic_error OptErr.ChallengeWindowElapsed "challenge window has elapsed");;
  let votedKey := objection_key id objector in
  throw_if (bool_decide (votedKey ∈ og_objectorVoted config))
    (optimistic_error OptErr.AlreadyObjected "address already objected");;
  weight ← on_votes (get_past_votes clock objector (o_createdLedger proposal));
  throw_if (weight <=? 0)
    (optimistic_error OptErr.NoVotingPower "objector has no voting power");;
  modify (on_optimistic (λ g, g <| og_objectorVoted ::= λ X, {[votedKey]} ∪ X |>));;
  modify (update_optimistic id (λ p, p <| o_objectionVotes ::= λ v, v + weight |>));;
  totalSupply ← on_votes (get_past_total_supply clock (o_createdLedger proposal));
  let crossed := (0 <? totalSupply) &&
    (og_objectionThresholdBps config <=?
       (o_objectionVotes proposal + weight) * OPT_BPS ÷ᵇ totalSupply) in
  if crossed then modify (update_optimistic id (λ p, p <| o_state := Objected |>)) else mret tt.

Definition finalize (clock : LedgerClock) (id : Z) : M MockLedgerStore unit :=
  proposal ← mustGetProposal id;
  throw_if (negb (bool_decide (o_state proposal = ChallengeWindow)))
    (optimistic_error OptErr.ProposalAlreadyFinalized "proposal already finalized or objected");;
  throw_if (sequence clock <? o_challengeEndLedger proposal)
    (optimistic_error OptErr.ChallengeWindowNotElapsed "challenge window has not elapsed yet");;
  modify (update_optimistic id (λ p, p <| o_state := Passed |>)).

Definition execute (id : Z) : M MockLedgerStore unit :=
  proposal ← mustGetProposal id;
  throw_if (negb (bool_decide (o_state proposal = Passed)))
    (optimistic_error OptErr.ProposalNotPassed "proposal has not passed");;
  modify (update_optimistic id (λ p, p <| o_state := OptExecuted |>)).

Definition cancel (caller : string) (id : Z) : M MockLedgerStore unit :=
  proposal ← mustGetProposal id;
  throw_if (negb (String.eqb caller (o_proposer proposal)))
    (optimistic_error OptErr.Unauthorized "only the proposer may cancel");;
  throw_if (negb (bool_decide (o_state proposal = ChallengeWindow)) &&
            negb (bool_decide (o_state proposal = Objected)))
    (optimistic_error OptErr.ProposalNotCancellable "proposal is not cancellable");;
  modify (update_optimistic id (λ p, p <| o_state := OptCancelled |>)).

Definition get_proposal (id : Z) : M MockLedgerStore OptimisticProposalRecord := mustGetProposal id.

Definition get_config : M MockLedgerStore OptimisticConfig :=
  gets (λ s, let config := st_optimisticGovernor s in
    mkOptimisticConfig (og_votesToken config) (og_challengeWindowLedgers config)
      (og_objectionThresholdBps config) (og_proposerBondAmount config)
      (og_proposerBondToken config)).

Definition update_config (admin : string) (challengeWindowLedgers objectionThresholdBps : Z) :
    M MockLedgerStore unit :=
  store ← get;
  throw_if (negb (String.eqb admin (og_admin (st_optimisticGovernor store))))
    (optimistic_error OptErr.Unauthorized "caller is not the admin");;
  throw_if ((challengeWindowLedgers =? 0) || (objectionThresholdBps =? 0) ||
            (OPT_BPS <? objectionThresholdBps))
    (optimistic_error OptErr.InvalidConfiguration "invalid configuration");;
  modify (on_optimistic (λ g, g <| og_challengeWindowLedgers := challengeWindowLedgers |>));;
  modify (on_optimistic (λ g, g <| og_objectionThresholdBps := objectionThresholdBps |>)).
End OptimisticGovernorExecutor.
Import OptimisticGovernorExecutor.

(** ** What the calls do *)
Definition proposal_at (s : MockLedgerStore) (id : Z) : option OptimisticProposalRecord :=
  og_proposals (st_optimisticGovernor s) !! id.

(** An objection of [weight], which crosses the threshold or does not. *)
Definition objected_to (weight : Z) (crossed : bool) (p : OptimisticProposalRecord) :
    OptimisticProposalRecord :=
  let p := p <| o_objectionVotes ::= λ v, v + weight |> in
  if crossed then p <| o_state := Objected |> else p.

Definition crosses (threshold supply votes : Z) : bool :=
  (0 <? supply) && (threshold <=? votes * OPT_BPS ÷ᵇ supply).

Definition record_objection (id : Z) (objector : string) (weight : Z) (crossed : bool)
    (s : MockLedgerStore) : MockLedgerStore :=
  update_optimistic id (objected_to weight crossed)
    (on_optimistic (λ g, g <| og_objectorVoted ::= λ X, {[objection_key id objector]} ∪ X |>) s).

Lemma update_optimistic_compose id f g s :
  update_optimistic id f (update_optimistic id g s) = update_optimistic id (λ p, f (g p)) s.
Proof. unfold update_optimistic, on_optimistic. cbn. do 2 f_equal. apply alter_compose. Qed.

(** When [object] is admitted. *)
Record may_object (c : LedgerClock) (s : MockLedgerStore) (objector : string) (id : Z)
    (p : OptimisticProposalRecord) : Prop := {
  mo_window : o_state p = ChallengeWindow;
  mo_open : sequence c < o_challengeEndLedger p;
  mo_first : objection_key id objector ∉ og_objectorVoted (st_optimisticGovernor s);
  mo_power : 0 < votes_at (st_votes s) (o_createdLedger p) objector;
}.

Lemma object_run clock objector id p s :
  proposal_at s id = Some p → o_createdLedger p ≤ sequence clock →
  (may_object clock s objector id p ∧
   let weight := votes_at (st_votes s) (o_createdLedger p) objector in
   object clock objector id s =
     (Ok tt, record_objection id objector weight
       (crosses (og_objectionThresholdBps (st_optimisticGovernor s))
          (supply_at (st_votes s) (o_createdLedger p)) (o_objectionVotes p + weight)) s)) ∨
  (¬ may_object clock s objector id p ∧ ∃ e, object clock objector id s = (Throw e, s)).
Proof.
  intros Hp Hl. unfold object, mustGetProposal. unfold proposal_at in Hp. m_run. rewrite Hp.
  cbn -[on_votes objection_key]. case_bool_decide as Hst; cbn -[on_votes objection_key];
    [|right; split; [by intros []|by eexists]].
  destruct (Z.leb_spec (o_challengeEndLedger p) (sequence clock)); cbn -[on_votes objection_key];
    [right; split; [intros []; lia|by eexists]|].
  case_bool_decide as Hin; cbn -[on_votes objection_key]; [right; split; [by intros []|by eexists]|].
  erewrite on_votes_read by (by apply get_past_votes_run).
  set (weight := votes_at _ _ _). cbn -[on_votes objection_key].
  destruct (Z.leb_spec weight 0); cbn -[on_votes objection_key];
    [right; split; [intros []; lia|by eexists]|].
  left. split; [by split|]. erewrite on_votes_read by (by apply get_past_total_supply_run).
  unfold record_objection, crosses. cbn -[objection_key].
  destruct (_ && _); [|done]. by rewrite update_optimistic_compose.
Qed.

(** ** Life cycle *)
Inductive opt_edge : OptimisticProposalLifecycle → OptimisticProposalLifecycle → Prop :=
  | edge_objected : opt_edge ChallengeWindow Objected
  | edge_passed : opt_edge ChallengeWindow Passed
  | edge_executed : opt_edge Passed OptExecuted
  | edge_withdrawn : opt_edge ChallengeWindow OptCancelled
  | edge_dropped : opt_edge Objected OptCancelled.

(** What a proposal is about, fixed when it is made. *)
Definition terms (p : OptimisticProposalRecord) :=
  (o_id p, o_proposer p, o_target p, o_fnName p, o_calldata p, o_descriptionHash p,
   o_createdLedger p, o_challengeEndLedger p).

Definition settled_well (now : Z) (p : OptimisticProposalRecord) : Prop :=
  o_state p = Passed ∨ o_state p = OptExecuted → o_challengeEndLedger p ≤ now.

(** [p'] is what [p] may have become by ledger [now]. *)
Record evolves (now : Z) (p p' : OptimisticProposalRecord) : Prop := {
  ev_terms : terms p' = terms p;
  ev_state : rtc opt_edge (o_state p) (o_state p');
  ev_votes : o_objectionVotes p ≤ o_objectionVotes p';
  ev_final : o_state p ≠ ChallengeWindow → o_objectionVotes p' = o_objectionVotes p;
}.

Inductive opt_effect (clock : LedgerClock) (s : MockLedgerStore) : MockLedgerStore → Prop :=
  | oe_same : opt_effect clock s s
  | oe_proposed p :
    o_id p = og_proposalCount (st_optimisticGovernor s) + 1 → o_createdLedger p = sequence clock →
    o_objectionVotes p = 0 → o_state p = ChallengeWindow →
    opt_effect clock s
      (on_optimistic (λ g, g <| og_proposals ::= <[o_id p := p]> |>)
        (on_optimistic (λ g, g <| og_proposalCount := o_id p |>) s))
  | oe_objected id p objector crossed :
    proposal_at s id = Some p → may_object clock s objector id p →
    opt_effect clock s
      (record_objection id objector (votes_at (st_votes s) (o_createdLedger p) objector) crossed s)
  | oe_moved id p st :
    proposal_at s id = Some p → opt_edge (o_state p) st → st ≠ Objected →
    (st = Passed → o_challengeEndLedger p ≤ sequence clock) →
    opt_effect clock s (update_optimistic id (λ p, p <| o_state := st |>) s)
  | oe_config f :
    (∀ g, og_proposals (f g) = og_proposals g) → (∀ g, og_proposalCount (f g) = og_proposalCount g) →
    (∀ g, og_objectorVoted (f g) = og_objectorVoted g) → opt_effect clock s (on_optimistic f s).

Inductive optimistic_call :=
  | OpPropose (proposer target fnName : string) (calldata descriptionHash : bytes)
  | OpObject (objector : string) (id : Z)
  | OpFinalize (id : Z)
  | OpExecute (id : Z)
  | OpCancel (caller : string) (id : Z)
  | OpConfig (admin : string) (challengeWindowLedgers objectionThresholdBps : Z).

Definition optimistic_run (clock : LedgerClock) (c : optimistic_call) : M MockLedgerStore unit :=
  match c with
  | OpPropose p t f d h => propose clock p t f d h;; mret tt
  | OpObject a id => object clock a id
  | OpFinalize id => finalize clock id
  | OpExecute id => execute id
  | OpCancel caller id => cancel caller id
  | OpConfig admin w t => update_config admin w t
  end.

(** [optimistic_step keeps]: a call, the clock, or a change elsewhere in the
    store that [keeps] allows. *)
Inductive optimistic_step (keeps : MockLedgerStore → MockLedgerStore → Prop) :
    LedgerClock * MockLedgerStore → LedgerClock * MockLedgerStore → Prop :=
  | os_call clock c s : optimistic_step keeps (clock, s) (clock, (optimistic_run clock c s).2)
  | os_time clock clock' s :
    sequence clock ≤ sequence clock' → optimistic_step keeps (clock, s) (clock', s)
  | os_other clock s s' :
    st_optimisticGovernor s' = st_optimisticGovernor s → keeps s s' →
    optimistic_step keeps (clock, s) (clock, s').

(** Anything may happen elsewhere. *)
Definition anything (s s' : MockLedgerStore) : Prop := True.

(** The votes a proposal takes its weights from stay as they are: no checkpoint
    is written in a ledger in which a proposal was made. *)
Definition snapshots_kept (s s' : MockLedgerStore) : Prop :=
  ∀ id p, proposal_at s id = Some p → ∀ a,
    votes_at (st_votes s') (o_createdLedger p) a = votes_at (st_votes s) (o_createdLedger p) a.

Record opt_ok (now : Z) (s : MockLedgerStore) : Prop := {
  ok_count : 0 ≤ og_proposalCount (st_optimisticGovernor s);
  ok_ids : ∀ id, is_Some (proposal_at s id) ↔ 0 < id ≤ og_proposalCount (st_optimisticGovernor s);
  ok_each : ∀ id p, proposal_at s id = Some p →
    o_id p = id ∧ o_createdLedger p ≤ now ∧ settled_well now p;
  ok_keys : ∀ k, k ∈ og_objectorVoted (st_optimisticGovernor s) →
    ∃ id a, k = objection_key id a ∧ is_Some (proposal_at s id);
}.

(** Running a call that guards and then updates one proposal. *)
Lemma guarded_run id (s : MockLedgerStore) (k : OptimisticProposalRecord → M MockLedgerStore unit) :
  (mustGetProposal id ≫= k) s =
  match proposal_at s id with
  | Some p => k p s
  | None => (Throw (optimistic_error OptErr.ProposalNotFound
               ("proposal " +:+ decimal id +:+ " not found")), s)
  end.
Proof. unfold mustGetProposal, proposal_at. m_run. by destruct (_ !! id). Qed.

Lemma optimistic_run_effect clock c s :
  opt_ok (sequence clock) s → opt_effect clock s (optimistic_run clock c s).2.
Proof.
  intros Hok. destruct c as [p t f d h|a id|id|id|caller id|admin w t]; cbn [optimistic_run].
  - unfold propose. m_run. destruct (negb _); [constructor|]. cbn.
    set (p0 := mkOptimistic _ _ _ _ _ _ _ _ _ _). by apply (oe_proposed clock s p0).
  - destruct (proposal_at s id) as [p|] eqn:Hp.
    + destruct (ok_each _ _ Hok _ _ Hp) as (_ & Hl & _).
      destruct (object_run clock a id p s Hp Hl) as [[Hm ->]|[_ [e ->]]]; [|constructor].
      by apply oe_objected.
    + unfold object. rewrite (bind_run _ _ _ s s) by done. rewrite guarded_run, Hp. constructor.
  - unfold finalize. rewrite guarded_run. destruct (proposal_at s id) as [p|] eqn:Hp; [|constructor].
    m_run. case_bool_decide as Hst; [|constructor]. cbn.
    destruct (Z.ltb_spec (sequence clock) (o_challengeEndLedger p)); [constructor|].
    apply (oe_moved _ _ _ _ _ Hp); [rewrite Hst; constructor|done|done].
  - unfold execute. rewrite guarded_run. destruct (proposal_at s id) as [p|] eqn:Hp; [|constructor].
    m_run. case_bool_decide as Hst; [|constructor]. cbn.
    apply (oe_moved _ _ _ _ _ Hp); [rewrite Hst; constructor|done|done].
  - unfold cancel. rewrite guarded_run. destruct (proposal_at s id) as [p|] eqn:Hp; [|constructor].
    m_run. destruct (negb (String.eqb _ _)); [constructor|]. cbn.
    repeat case_bool_decide; cbn; try apply oe_same;
      (apply (oe_moved _ _ _ _ _ Hp); [|done|done]); destruct (o_state p); constructor || done.
  - unfold update_config. m_run. destruct (negb _); [constructor|]. cbn.
    destruct (_ || _); [constructor|]. cbn.
    refine (oe_config clock s (λ g, g <| og_challengeWindowLedgers := w |>
      <| og_objectionThresholdBps := t |>) _ _ _); done.
Qed.

Lemma evolves_refl now p : evolves now p p.
Proof. by split. Qed.
Lemma evolves_trans n1 n2 p q r : evolves n1 p q → evolves n2 q r → evolves n2 p r.
Proof.
  intros [T1 S1 V1 F1] [T2 S2 V2 F2]. split; [congruence|by etrans|lia|].
  intros Hne. rewrite F2; [by apply F1|]. intros Heq. rewrite Heq in S1.
  apply rtc_inv_r in S1 as [?|(x & _ & He)]; [done|inversion He].
Qed.

(** The only way from one proposal record to the next, one case per update. *)
Lemma opt_effect_evolves clock s s' id p :
  opt_effect clock s s' → opt_ok (sequence clock) s → proposal_at s id = Some p →
  ∃ p', proposal_at s' id = Some p' ∧ evolves (sequence clock) p p' ∧
    (settled_well (sequence clock) p → settled_well (sequence clock) p').
Proof.
  intros He Hok Hp.
  assert (proposal_at s' id = Some p → ∃ p', proposal_at s' id = Some p' ∧
    evolves (sequence clock) p p' ∧
    (settled_well (sequence clock) p → settled_well (sequence clock) p')) as Hsame.
  { intros. exists p. split_and!; [done|apply evolves_refl|done]. }
  destruct He as [|q Hid _ _ _|id' q a crossed Hq Hm|id' q st Hq Hedge Hst Hpass|f Hf _ _].
  - by apply Hsame.
  - apply Hsame. unfold proposal_at. cbn. rewrite lookup_insert_ne; [exact Hp|].
    destruct (proj1 (ok_ids _ _ Hok id) (mk_is_Some _ _ Hp)). lia.
  - destruct (decide (id' = id)) as [->|Hne];
      [|apply Hsame; unfold proposal_at; cbn; by rewrite lookup_alter_ne].
    rewrite Hp in Hq. injection Hq as <-. destruct Hm as [Hw _ _ Hpow].
    eexists. split; [unfold proposal_at in *; cbn; by rewrite lookup_alter_eq, Hp|].
    unfold objected_to, settled_well. destruct crossed; (split; [split|]); cbn; try done; try lia.
    + apply rtc_once. rewrite Hw. constructor.
    + intros _ [?|?]; done.
  - destruct (decide (id' = id)) as [->|Hne];
      [|apply Hsame; unfold proposal_at; cbn; by rewrite lookup_alter_ne].
    rewrite Hp in Hq. injection Hq as <-.
    eexists. split; [unfold proposal_at in *; cbn; by rewrite lookup_alter_eq, Hp|].
    split; [split|]; cbn; try done; [by apply rtc_once|].
    unfold settled_well. cbn. intros Hw [->| ->]; [by apply Hpass|].
    apply Hw. left. by inversion Hedge.
  - apply Hsame. unfold proposal_at. cbn. by rewrite Hf.
Qed.

Lemma opt_effect_ok clock s s' :
  opt_effect clock s s' → opt_ok (sequence clock) s → opt_ok (sequence clock) s'.
Proof.
  intros He Hok. pose proof Hok as [Hc Hids Heach Hkeys].
  destruct He as [|q Hid Hcr Hv Hst|id' q a crossed Hq Hm|id' q st Hq Hedge Hst Hpass|f Hf1 Hf2 Hf3].
  - done.
  - split; unfold proposal_at in *; cbn.
    + lia.
    + intros i. rewrite lookup_insert_is_Some, Hids. lia.
    + intros i p. rewrite lookup_insert_Some. intros [[<- <-]|[_ Hp]]; [|by apply Heach].
      split_and!; [done|lia|]. unfold settled_well. rewrite Hst. intros [?|?]; done.
    + intros k (i & b & -> & Hb)%Hkeys. exists i, b. split; [done|].
      apply lookup_insert_is_Some. destruct (decide (o_id q = i)); auto.
  - assert (∀ i p, proposal_at (record_objection id' a (votes_at (st_votes s) (o_createdLedger q) a) crossed s) i = Some p →
      ∃ p0, proposal_at s i = Some p0 ∧ o_id p = o_id p0 ∧ o_createdLedger p = o_createdLedger p0) as Hback.
    { intros i p. unfold proposal_at. cbn. rewrite lookup_alter_Some.
      intros [(<- & x & Hx & ->)|[_ Hx]]; [|eauto]. exists x. split; [done|].
      unfold objected_to. by destruct crossed. }
    split; [done| | |].
    + intros i. unfold proposal_at. cbn. rewrite lookup_alter_is_Some. apply Hids.
    + intros i p Hp. destruct (Hback _ _ Hp) as (p0 & Hp0 & -> & ->).
      destruct (Heach _ _ Hp0) as (? & ? & ?). split_and!; [done|done|].
      destruct (opt_effect_evolves _ _ _ _ _ (oe_objected clock s id' q a crossed Hq Hm) Hok Hp0)
        as (p' & Hp' & _ & Hset).
      rewrite Hp in Hp'. injection Hp' as <-. auto.
    + intros k. cbn. rewrite elem_of_union, elem_of_singleton. intros [->|Hk].
      * exists id', a. split; [done|]. unfold proposal_at. cbn. rewrite lookup_alter_is_Some. by eexists.
      * destruct (Hkeys _ Hk) as (i & b & -> & Hb). exists i, b. split; [done|].
        unfold proposal_at. cbn. by rewrite lookup_alter_is_Some.
  - split; [done| | |].
    + intros i. unfold proposal_at. cbn. rewrite lookup_alter_is_Some. apply Hids.
    + intros i p Hp. destruct (proj1 (lookup_alter_Some _ _ _ _ _) Hp) as [(-> & x & Hx & ->)|[_ Hx]];
        [|by apply Heach].
      destruct (Heach _ _ Hx) as (? & ? & ?). split_and!; [done|done|].
      destruct (opt_effect_evolves _ _ _ _ _ (oe_moved clock s i q st Hq Hedge Hst Hpass) Hok Hx)
        as (p' & Hp' & _ & Hset).
      rewrite Hp in Hp'. injection Hp' as <-. auto.
    + intros k (i & b & -> & Hb)%Hkeys. exists i, b. split; [done|].
      unfold proposal_at. cbn. by rewrite lookup_alter_is_Some.
  - split; unfold proposal_at in *; cbn; rewrite ?Hf1, ?Hf2, ?Hf3; done.
Qed.

Lemma opt_ok_later now now' s s' :
  opt_ok now s → now ≤ now' → st_optimisticGovernor s' = st_optimisticGovernor s → opt_ok now' s'.
Proof.
  intros [H1 H2 H3 H4] Hle Heq. split; unfold proposal_at in *; rewrite Heq; try done.
  intros i p Hp. destruct (H3 _ _ Hp) as (? & ? & Hw). split_and!; [done|lia|].
  intros Hst. specialize (Hw Hst). lia.
Qed.

Lemma opt_step_ok keeps w w' :
  optimistic_step keeps w w' → opt_ok (sequence w.1) w.2 → opt_ok (sequence w'.1) w'.2.
Proof.
  intros [clock c s|clock clock' s Hle|clock s s' Heq _] Hok; cbn in *.
  - eapply opt_effect_ok; [by apply optimistic_run_effect|done].
  - by eapply opt_ok_later.
  - by eapply opt_ok_later.
Qed.

Lemma opt_step_evolves keeps w w' id p :
  optimistic_step keeps w w' → opt_ok (sequence w.1) w.2 → proposal_at w.2 id = Some p →
  ∃ p', proposal_at w'.2 id = Some p' ∧ evolves (sequence w'.1) p p'.
Proof.
  intros [clock c s|clock clock' s Hle|clock s s' Heq _] Hok Hp; cbn in *.
  - destruct (opt_effect_evolves _ _ _ _ _ (optimistic_run_effect clock c s Hok) Hok Hp)
      as (p' & ? & ? & _). eauto.
  - exists p. split; [done|apply evolves_refl].
  - exists p. unfold proposal_at in *. rewrite Heq. split; [done|apply evolves_refl].
Qed.

Lemma opt_history keeps w w' :
  rtc (optimistic_step keeps) w w' → opt_ok (sequence w.1) w.2 →
  opt_ok (sequence w'.1) w'.2 ∧
  ∀ id p, proposal_at w.2 id = Some p →
    ∃ p', proposal_at w'.2 id = Some p' ∧ evolves (sequence w'.1) p p'.
Proof.
  induction 1 as [|w1 w2 w3 Hstep _ IH]; intros Hok.
  { split; [done|]. intros id p Hp. exists p. split; [done|apply evolves_refl]. }
  pose proof (opt_step_ok _ _ _ Hstep Hok) as Hok2. destruct (IH Hok2) as [Hok3 Hev].
  split; [done|]. intros id p Hp.
  destruct (opt_step_evolves _ _ _ _ _ Hstep Hok Hp) as (q & Hq & E1).
  destruct (Hev _ _ Hq) as (r & Hr & E2). exists r. split; [done|by eapply evolves_trans].
Qed.

Definition optimistic_boot (s : MockLedgerStore) : Prop :=
  let g := st_optimisticGovernor s in
  og_proposalCount g = 0 ∧ og_proposals g = ∅ ∧ og_objectorVoted g = ∅.

Lemma optimistic_boot_ok s now : optimistic_boot s → opt_ok now s.
Proof.
  intros (H1 & H2 & H3). split; unfold proposal_at; rewrite ?H1, ?H2, ?H3; try done.
  - intros id. rewrite lookup_empty. split; [by intros []|lia].
Qed.

(** ** Objections *)

(** The objections of a proposal come from a set of accounts, each weighed once. *)
Definition objections_ok (s : MockLedgerStore) : Prop :=
  ∀ id p, proposal_at s id = Some p → ∃ X : gset string,
    (∀ a, a ∈ X ↔ objection_key id a ∈ og_objectorVoted (st_optimisticGovernor s)) ∧
    (∀ a, a ∈ X → 0 < votes_at (st_votes s) (o_createdLedger p) a) ∧
    o_objectionVotes p =
      map_sum (λ a _, votes_at (st_votes s) (o_createdLedger p) a) (gset_to_gmap tt X).

Lemma snapshots_same s s' : st_votes s' = st_votes s → snapshots_kept s s'.
Proof. intros Heq id p _ a. by rewrite Heq. Qed.

Lemma objections_ok_frame s s' :
  (∀ id p', proposal_at s' id = Some p' → ∃ p, proposal_at s id = Some p ∧
     o_createdLedger p' = o_createdLedger p ∧ o_objectionVotes p' = o_objectionVotes p) →
  og_objectorVoted (st_optimisticGovernor s') = og_objectorVoted (st_optimisticGovernor s) →
  snapshots_kept s s' → objections_ok s → objections_ok s'.
Proof.
  intros Hback Hvoted Hkept Hok id p' Hp'. destruct (Hback _ _ Hp') as (p & Hp & -> & ->).
  destruct (Hok _ _ Hp) as (X & H1 & H2 & H3). exists X. rewrite Hvoted. split_and!; [done| |].
  - intros a Ha. rewrite (Hkept _ _ Hp). auto.
  - rewrite H3. apply map_sum_ext. intros a x _. by rewrite (Hkept _ _ Hp).
Qed.

Lemma objections_ok_object clock s id q a crossed :
  opt_ok (sequence clock) s → objections_ok s → proposal_at s id = Some q →
  may_object clock s a id q →
  objections_ok (record_objection id a (votes_at (st_votes s) (o_createdLedger q) a) crossed s).
Proof.
  intros Hok Hobj Hq [_ _ Hfirst Hpow] i p. unfold proposal_at. cbn. rewrite lookup_alter_Some.
  intros [(<- & x & Hx & ->)|[Hne Hp]].
  - unfold proposal_at in Hq. rewrite Hq in Hx. injection Hx as <-.
    destruct (Hobj _ _ Hq) as (X & H1 & H2 & H3). exists ({[a]} ∪ X).
    assert (o_createdLedger (objected_to (votes_at (st_votes s) (o_createdLedger q) a) crossed q)
      = o_createdLedger q) as -> by (unfold objected_to; by destruct crossed).
    split_and!.
    + intros b. rewrite !elem_of_union, !elem_of_singleton, H1. split.
      * intros [->|?]; [by left|by right].
      * intros [Heq|?]; [|by right]. left. by apply numbered_key_inj in Heq as [_ ->].
    + intros b [->%elem_of_singleton|Hb]%elem_of_union; [done|auto].
    + rewrite gset_to_gmap_union_singleton, map_sum_insert_new.
      * rewrite <- H3. unfold objected_to. destruct crossed; cbn; lia.
      * apply lookup_gset_to_gmap_None. by rewrite H1.
  - destruct (Hobj _ _ Hp) as (X & H1 & H2 & H3). exists X. split_and!; [|done|done].
    intros b. rewrite H1, elem_of_union, elem_of_singleton. split; [by right|].
    intros [Heq|?]; [|done]. by apply numbered_key_inj in Heq as [-> _].
Qed.

Lemma objections_effect clock s s' :
  opt_effect clock s s' → opt_ok (sequence clock) s → objections_ok s → objections_ok s'.
Proof.
  intros He Hok Hobj.
  destruct He as [|q Hid Hcr Hv Hst|id q a crossed Hq Hm|id q st Hq Hedge Hst Hpass|f Hf1 Hf2 Hf3].
  - done.
  - intros i p. unfold proposal_at. cbn. rewrite lookup_insert_Some.
    intros [[<- <-]|[_ Hp]]; [|by apply (Hobj i)]. exists ∅. split_and!.
    + intros a. split; [by intros ?%elem_of_empty|]. intros Hk.
      destruct (ok_keys _ _ Hok _ Hk) as (i & b & Heq & Hi). apply numbered_key_inj in Heq as [<- _].
      apply (ok_ids _ _ Hok) in Hi. lia.
    + by intros a ?%elem_of_empty.
    + by rewrite Hv, gset_to_gmap_empty.
  - by apply (objections_ok_object clock).
  - apply (objections_ok_frame s); [|done|by apply snapshots_same|done]. intros i p. unfold proposal_at. cbn.
    rewrite lookup_alter_Some. intros [(<- & x & Hx & ->)|[_ Hx]]; eauto.
  - apply (objections_ok_frame s); [| |by apply snapshots_same|done].
    + intros i p. unfold proposal_at. cbn. rewrite Hf1. eauto.
    + cbn. by rewrite Hf3.
Qed.

Lemma objections_history w w' :
  rtc (optimistic_step snapshots_kept) w w' → opt_ok (sequence w.1) w.2 → objections_ok w.2 →
  objections_ok w'.2.
Proof.
  induction 1 as [|w1 w2 w3 Hstep _ IH]; intros Hok Hobj; [done|].
  apply IH; [by eapply opt_step_ok|].
  destruct Hstep as [clock c s|clock clock' s Hle|clock s s' Heq Hkept]; cbn in *.
  - eapply objections_effect; [by apply optimistic_run_effect|done..].
  - done.
  - apply (objections_ok_frame s); [|by rewrite Heq|done|done].
    intros i p. unfold proposal_at. rewrite Heq. eauto.
Qed.

(** Two voters, one of whom objects. *)
Module Examples.
Import StoreExamples.
Definition voting : MockLedgerStore :=
  store <| st_votes ::= λ v, v
      <| tv_checkpoints := {["alice" := [mkCheckpoint 1 60]; "bob" := [mkCheckpoint 1 40]]} |>
      <| tv_totalSupplyCheckpoints := [mkCheckpoint 1 100] |> |>
    <| st_optimisticGovernor ::= λ g, g <| og_objectionThresholdBps := 5000 |> |>.
Definition run (n : Z) (c : optimistic_call) (s : MockLedgerStore) : MockLedgerStore :=
  (optimistic_run (clk n) c s).2.
Definition proposed := run 5 (OpPropose "carol" "pool" "set_fee" [] []) voting.
Definition bob_objects := run 6 (OpObject "bob" 1) proposed.
Definition alice_objects := run 7 (OpObject "alice" 1) bob_objects.
Definition record (s : MockLedgerStore) : OptimisticProposalRecord :=
  default (mkOptimistic 0 "" "" "" [] [] 0 0 0 OptCancelled) (proposal_at s 1).
Definition w0 : LedgerClock * MockLedgerStore := (clk 5, voting).
Definition w1 : LedgerClock * MockLedgerStore := (clk 6, bob_objects).
Definition w2 : LedgerClock * MockLedgerStore := (clk 7, alice_objects).

Lemma op_boot : optimistic_boot w0.2.
Proof. by split_and!. Qed.
Lemma op_history1 keeps : rtc (optimistic_step keeps) w0 w1.
Proof.
  apply (rtc_l _ _ (clk 5, proposed)); [apply (os_call keeps (clk 5) (OpPropose "carol" "pool" "set_fee" [] []))|].
  apply (rtc_l _ _ (clk 6, proposed)); [apply os_time; vm_compute; discriminate|].
  apply rtc_once, (os_call keeps (clk 6) (OpObject "bob" 1)).
Qed.
Lemma op_history2 keeps : rtc (optimistic_step keeps) w1 w2.
Proof.
  apply (rtc_l _ _ (clk 7, bob_objects)); [apply os_time; vm_compute; discriminate|].
  apply rtc_once, (os_call keeps (clk 7) (OpObject "alice" 1)).
Qed.
Lemma op_history keeps : rtc (optimistic_step keeps) w0 w2.
Proof. etransitivity; [apply op_history1|apply op_history2]. Qed.
End Examples.

(** ** Properties *)

(** The life of an optimistic proposal.  In every history, whatever happens
    to the rest of the store, a proposal keeps its terms, moves only along
    ChallengeWindow to Objected, Passed or Cancelled, Objected to Cancelled and
    Passed to Executed, never loses objections and gains none after its
    challenge window state; one that passed or executed has its challenge
    window behind it, and one that was objected to can only be cancelled. *)
Theorem optimistic_lifecycle keeps w0 w w' id p :
  optimistic_boot w0.2 → rtc (optimistic_step keeps) w0 w → rtc (optimistic_step keeps) w w' →
  proposal_at w.2 id = Some p →
  ∃ p', proposal_at w'.2 id = Some p' ∧ terms p' = terms p ∧
    rtc opt_edge (o_state p) (o_state p') ∧ o_objectionVotes p ≤ o_objectionVotes p' ∧
    (o_state p ≠ ChallengeWindow → o_objectionVotes p' = o_objectionVotes p) ∧
    (o_state p' = Passed ∨ o_state p' = OptExecuted → o_challengeEndLedger p ≤ sequence w'.1) ∧
    (o_state p = Objected → o_state p' = Objected ∨ o_state p' = OptCancelled).
Proof.
  intros Hboot Hpre Hsteps Hp.
  destruct (opt_history _ _ _ Hpre (optimistic_boot_ok _ _ Hboot)) as [Hok _].
  destruct (opt_history _ _ _ Hsteps Hok) as [Hok' Hev].
  destruct (Hev _ _ Hp) as (p' & Hp' & [Ht Hs Hv Hf]). exists p'. split_and!; try done.
  - destruct (ok_each _ _ Hok' _ _ Hp') as (_ & _ & Hw). injection Ht as _ _ _ _ _ _ _ <-. exact Hw.
  - intros Ho. rewrite Ho in Hs. apply rtc_inv in Hs as [?|(x & He & Hs)]; [by left|right].
    inversion He; subst. apply rtc_inv in Hs as [?|(y & He' & _)]; [done|inversion He'].
Qed.

Lemma optimistic_lifecycle_witness :
  ∃ p', proposal_at Examples.w2.2 1 = Some p' ∧ o_objectionVotes (Examples.record Examples.w1.2) ≤ o_objectionVotes p'.
Proof.
  destruct (optimistic_lifecycle anything Examples.w0 Examples.w1 Examples.w2 1
    (Examples.record Examples.w1.2) Examples.op_boot (Examples.op_history1 _) (Examples.op_history2 _))
    as (p' & H1 & _ & _ & H2 & _); [vm_compute; reflexivity|]. exists p'. split; [exact H1|exact H2].
Defined.

(** Every objection counts once.  In every history in which no checkpoint
    is written in a ledger in which a proposal was made, the objection votes of
    a proposal are the snapshot weights of a set of accounts, those recorded as
    having objected, each with votes of its own and each taken once; when no
    account has negative votes and the snapshot adds up, they are at most the
    total supply at the snapshot. *)
Theorem objections_counted_once w0 w id p :
  optimistic_boot w0.2 → rtc (optimistic_step snapshots_kept) w0 w →
  proposal_at w.2 id = Some p →
  let weight := votes_at (st_votes w.2) (o_createdLedger p) in
  ∃ X : gset string,
    (∀ a, a ∈ X ↔ objection_key id a ∈ og_objectorVoted (st_optimisticGovernor w.2)) ∧
    (∀ a, a ∈ X → 0 < weight a) ∧
    o_objectionVotes p = map_sum (λ a _, weight a) (gset_to_gmap tt X) ∧
    (votes_wf (sequence w.1) (st_votes w.2) → (∀ a, 0 ≤ weight a) →
     o_objectionVotes p ≤ supply_at (st_votes w.2) (o_createdLedger p)).
Proof.
  intros Hboot Hsteps Hp weight.
  assert (objections_ok w0.2) as H0.
  { intros i q. destruct Hboot as (_ & Hpr & _). unfold proposal_at. by rewrite Hpr, lookup_empty. }
  destruct (objections_history _ _ Hsteps (optimistic_boot_ok _ _ Hboot) H0 _ _ Hp)
    as (X & H1 & H2 & H3).
  exists X. split_and!; [done|done|done|]. intros Hwf Hnn. rewrite H3.
  unfold supply_at. rewrite <- (wf_conserved _ _ Hwf). unfold checkpoints_at.
  etrans; [apply (map_sum_sub weight _ (tv_checkpoints (st_votes w.2)))|].
  - done.
  - intros a Ha. unfold weight, votes_at. by rewrite Ha.
  - apply map_sum_le. intros a l Ha. unfold weight, votes_at. by rewrite Ha.
Qed.

Lemma objections_counted_once_witness :
  ∃ X : gset string, "alice" ∈ X ∧ "bob" ∈ X ∧
    100 = map_sum (λ a _, votes_at (st_votes Examples.w2.2) 5 a) (gset_to_gmap tt X).
Proof.
  destruct (objections_counted_once Examples.w0 Examples.w2 1 (Examples.record Examples.w2.2)
    Examples.op_boot (Examples.op_history _)) as (X & H1 & _ & H2 & _); [vm_compute; reflexivity|].
  exists X. split; [apply H1; vm_compute; reflexivity|]. split; [apply H1; vm_compute; reflexivity|].
  exact H2.
Defined.

(** What an objection does.  In every history, [object] on a known proposal
    succeeds exactly when the proposal is in its challenge window, the account
    has not objected before and had votes when the proposal was made; it then
    adds those votes, marks the account, and turns the proposal to Objected
    exactly when the objections reach the threshold share of the supply at
    that time.  Otherwise it throws and changes nothing. *)
Theorem object_correct keeps w0 w id p objector :
  optimistic_boot w0.2 → rtc (optimistic_step keeps) w0 w → proposal_at w.2 id = Some p →
  let s := w.2 in let g := st_optimisticGovernor s in
  let weight := votes_at (st_votes s) (o_createdLedger p) objector in
  let supply := supply_at (st_votes s) (o_createdLedger p) in
  let '(r, s') := object w.1 objector id s in
  (r = Ok tt ↔ may_object w.1 s objector id p) ∧
  match r with
  | Ok _ =>
    objection_key id objector ∈ og_objectorVoted (st_optimisticGovernor s') ∧
    ∃ p', proposal_at s' id = Some p' ∧ terms p' = terms p ∧
      o_objectionVotes p' = o_objectionVotes p + weight ∧
      (o_state p' = Objected ↔
        0 < supply ∧ og_objectionThresholdBps g ≤ o_objectionVotes p' * OPT_BPS ÷ᵇ supply) ∧
      (o_state p' = Objected ∨ o_state p' = ChallengeWindow)
  | Throw _ => s' = s
  end.
Proof.
  intros Hboot Hsteps Hp. cbv zeta.
  destruct (opt_history _ _ _ Hsteps (optimistic_boot_ok _ _ Hboot)) as [Hok _].
  destruct (ok_each _ _ Hok _ _ Hp) as (_ & Hl & _).
  destruct (object_run w.1 objector id p w.2 Hp Hl) as [[Hm ->]|[Hno [e ->]]].
  2:{ split; [|done]. split; [done|by intros ?]. }
  split; [done|]. split; [cbn; set_solver|].
  eexists. split; [unfold proposal_at in *; cbn; by rewrite lookup_alter_eq, Hp|].
  destruct Hm as [Hw _ _ _]. unfold objected_to, crosses.
  destruct (Z.ltb_spec 0 (supply_at (st_votes w.2) (o_createdLedger p))); cbn [andb];
    [destruct (Z.leb_spec (og_objectionThresholdBps (st_optimisticGovernor w.2))
       ((o_objectionVotes p + votes_at (st_votes w.2) (o_createdLedger p) objector) * OPT_BPS ÷ᵇ
        supply_at (st_votes w.2) (o_createdLedger p)))|];
    cbn [o_objectionVotes o_state terms upd]; split_and!; try done; try (rewrite Hw); try (by left);
    try (by right); (split; [done|]); intros [? ?]; lia.
Qed.

Lemma object_correct_witness :
  may_object Examples.w1.1 Examples.w1.2 "alice" 1 (Examples.record Examples.w1.2).
Proof.
  pose proof (object_correct anything Examples.w0 Examples.w1 1 (Examples.record Examples.w1.2) "alice"
    Examples.op_boot (Examples.op_history1 _) ltac:(vm_compute; reflexivity)) as H. cbv zeta in H.
  assert ((object Examples.w1.1 "alice" 1 Examples.w1.2).1 = Ok tt) as E by (vm_compute; reflexivity).
  destruct (object Examples.w1.1 "alice" 1 Examples.w1.2) as [r s']. apply H, E.
Defined.
