(* ===== verification/Harness.v ===== *)
(** * The simulation harness

    [tools/simulation/src/harness.ts]: how a store is made from a
    configuration, and how snapshots of it are taken and restored.  The SDK
    clients the harness builds and the RPC plumbing around them are I/O and
    are left out. *)

From S2P Require Import Prelude SdkErrors Store TokenVotes Timelock Proposals ProposalBonds.
From S2P Require Import Governor GovernorSafety Treasury CoSponsorship Conviction Optimistic.

(** ** Configuration

    A field marked optional in the source is an [option]; [tokenBalances] and
    [delegations] are the entries of the source's objects, in the order
    [Object.entries] lists them. *)
Record GovernorSimulationSettings := mkSimSettings {
  ss_votingDelay : Z;
  ss_votingPeriod : Z;
  ss_quorumNumerator : Z;
  ss_proposalThreshold : Z;
  ss_timelockDelay : Z;
  ss_executionWindow : option Z;
  ss_voteType : VoteType;
  ss_guardian : option string;
  ss_proposalGracePeriod : option Z;
  ss_useDynamicQuorum : option bool;
  ss_reflectorOracle : option string;
  ss_minQuorumUsd : option Z;
  ss_proposalCooldown : option Z;
  ss_maxProposalsPerPeriod : option Z;
  ss_proposalPeriodDuration : option Z;
  ss_maxCalldataSize : option Z;
  ss_pauser : option string;
  ss_optimisticChallengeWindowLedgers : option Z;
  ss_optimisticObjectionThresholdBps : option Z;
  ss_optimisticProposerBondAmount : option Z;
  ss_optimisticProposerBondToken : option string;
  ss_proposalBondAmount : option Z;
  ss_proposalBondToken : option string;
  ss_proposalRefundGraceLedgers : option Z;
  ss_proposalMaxLockLedgers : option Z;
}.

(** [Partial<ConvictionSimulationSettings>] *)
Record ConvictionOverrides := mkConvictionOverrides {
  co_decayBps : option Z;
  co_maxRatioBps : option Z;
  co_minThresholdConviction : option Z;
  co_weightBps : option Z;
}.

Inductive SimulationMode := Mock | Testnet.
#[export] Instance SimulationMode_eq_dec : EqDecision SimulationMode.
Proof. solve_decision. Defined.

Record SimulationConfig := mkConfig {
  cfg_mode : SimulationMode;
  cfg_settings : GovernorSimulationSettings;
  cfg_tokenBalances : list (string * Z);
  cfg_delegations : list (string * string);
  cfg_initialLedger : option Z;
  cfg_treasuryGovernor : option string;
  cfg_treasuryBalance : option Z;
  cfg_conviction : option ConvictionOverrides;
  cfg_rpcUrl : option string;
}.

Record ContractStateSnapshot := mkSnapshot {
  cs_store : MockLedgerStore;
  cs_clock : ClockSnapshot;
}.

Definition DEFAULT_EXECUTION_WINDOW : Z := 1209600.
Definition DEFAULT_GRACE_PERIOD : Z := 120960.
Definition DEFAULT_COOLDOWN : Z := 100.
Definition DEFAULT_MAX_PER_PERIOD : Z := 5.
Definition DEFAULT_PERIOD_DURATION : Z := 10000.
Definition DEFAULT_MAX_CALLDATA_SIZE : Z := 10000.
Definition DEFAULT_OPTIMISTIC_CHALLENGE_WINDOW : Z := 17280.
Definition DEFAULT_OPTIMISTIC_OBJECTION_THRESHOLD_BPS : Z := 1000.
Definition DEFAULT_CONVICTION_DECAY_BPS : Z := 9000.
Definition DEFAULT_CONVICTION_MAX_RATIO_BPS : Z := 2000.
Definition DEFAULT_CONVICTION_MIN_THRESHOLD : Z := 100.
Definition DEFAULT_CONVICTION_WEIGHT_BPS : Z := 10000.
Definition DEFAULT_PROPOSAL_BOND_AMOUNT : Z := 10000.
Definition DEFAULT_PROPOSAL_REFUND_GRACE_LEDGERS : Z := 2000.
Definition DEFAULT_PROPOSAL_MAX_LOCK_LEDGERS : Z := 1000000.

(** The harness's own fields; the mock server holds the same store object, so
    there is one store. *)
Record SimulationHarness := mkHarness {
  h_config : SimulationConfig;
  h_clock : LedgerClock;
  h_addresses : option ContractAddresses;
  h_store : option MockLedgerStore;
  h_serverActive : bool;
}.
#[export] Instance eta_SimulationHarness : Eta SimulationHarness := λ r,
  mkHarness (h_config r) (h_clock r) (h_addresses r) (h_store r) (h_serverActive r).

(** [DEFAULT_GUARDIAN] is the key of a seed and [contractAddress] an address
    encoding, both computed by the Stellar library. *)
Section harness.
Context (DEFAULT_GUARDIAN : string) (contractAddress : Z → string).

(** [new SimulationHarness(config)]; [now] is [Math.floor(Date.now() / 1000)]. *)
Definition make_harness (now : Z) (config : SimulationConfig) : outcome SimulationHarness :=
  if bool_decide (cfg_mode config = Testnet) &&
     (match cfg_rpcUrl config with Some url => String.eqb url "" | None => true end)
  then Throw (PlainError "SimulationConfig.rpcUrl is required when mode is 'testnet'")
  else Ok (mkHarness config (mkClock (default 1000 (cfg_initialLedger config)) now) None None false).

Definition buildSettingsState (config : SimulationConfig) : GovernorSettingsState :=
  let s := cfg_settings config in
  let guardian := default DEFAULT_GUARDIAN (ss_guardian s) in
  mkSettings (ss_votingDelay s) (ss_votingPeriod s) (ss_quorumNumerator s)
    (ss_proposalThreshold s) guardian (ss_voteType s)
    (default DEFAULT_GRACE_PERIOD (ss_proposalGracePeriod s))
    (default false (ss_useDynamicQuorum s)) (ss_reflectorOracle s)
    (default 0 (ss_minQuorumUsd s)) (default DEFAULT_COOLDOWN (ss_proposalCooldown s))
    (default DEFAULT_MAX_PER_PERIOD (ss_maxProposalsPerPeriod s))
    (default DEFAULT_PERIOD_DURATION (ss_proposalPeriodDuration s))
    (default DEFAULT_MAX_CALLDATA_SIZE (ss_maxCalldataSize s)) false
    (default guardian (ss_pauser s)).

Definition conviction_override (config : SimulationConfig) (f : ConvictionOverrides → option Z)
    (d : Z) : Z :=
  default d (cfg_conviction config ≫= f).

(** The store before balances and delegations are seeded. *)
Definition emptyStore (config : SimulationConfig) (addresses : ContractAddresses) :
    MockLedgerStore :=
  let s := cfg_settings config in
  let guardian := default DEFAULT_GUARDIAN (ss_guardian s) in
  mkStore addresses
    (mkGovernor (buildSettingsState config) ∅ 0 ∅ ∅ ∅)
    (mkTimelock (ss_timelockDelay s) (default DEFAULT_EXECUTION_WINDOW (ss_executionWindow s)) ∅ ∅)
    (mkVotes ∅ ∅ ∅ [])
    (mkCoSponsorship ∅ 0)
    (mkOptimisticGovernor guardian (a_votes addresses)
       (default DEFAULT_OPTIMISTIC_CHALLENGE_WINDOW (ss_optimisticChallengeWindowLedgers s))
       (default DEFAULT_OPTIMISTIC_OBJECTION_THRESHOLD_BPS (ss_optimisticObjectionThresholdBps s))
       (default 0 (ss_optimisticProposerBondAmount s))
       (default (a_votes addresses) (ss_optimisticProposerBondToken s)) ∅ 0 ∅)
    (mkTreasury (default (a_governor addresses) (cfg_treasuryGovernor config)) ∅ 0 ∅ [] ∅ ∅)
    (mkConvictionVoting guardian (a_votes addresses)
       (conviction_override config co_decayBps DEFAULT_CONVICTION_DECAY_BPS)
       (conviction_override config co_maxRatioBps DEFAULT_CONVICTION_MAX_RATIO_BPS)
       (conviction_override config co_minThresholdConviction DEFAULT_CONVICTION_MIN_THRESHOLD)
       (conviction_override config co_weightBps DEFAULT_CONVICTION_WEIGHT_BPS) 1 ∅ ∅ ∅ ∅ [])
    (mkBonds guardian (default (a_votes addresses) (ss_proposalBondToken s))
       (default DEFAULT_PROPOSAL_BOND_AMOUNT (ss_proposalBondAmount s)) (a_governor addresses)
       (default DEFAULT_PROPOSAL_REFUND_GRACE_LEDGERS (ss_proposalRefundGraceLedgers s))
       (default DEFAULT_PROPOSAL_MAX_LOCK_LEDGERS (ss_proposalMaxLockLedgers s)) ∅).

(** The delegations of the configuration, applied one after the other. *)
Definition seedDelegations (clock : LedgerClock) (delegations : list (string * string))
    (v : TokenVotesState) : TokenVotesState :=
  foldl (λ v '(delegator, delegatee), applyDelegation clock delegator delegatee v) v delegations.

Definition buildStore (config : SimulationConfig) (addresses : ContractAddresses)
    (clock : LedgerClock) : MockLedgerStore :=
  (emptyStore config addresses)
    <| st_votes ::= seedBalances (cfg_tokenBalances config) |>
    <| st_votes ::= λ v, v <| tv_balances ::=
         <[a_treasury addresses := default 0 (cfg_treasuryBalance config)]> |> |>
    <| st_votes ::= seedDelegations clock (cfg_delegations config) |>.

Definition boot : M SimulationHarness ContractAddresses :=
  h ← get;
  let addresses :=
    mkAddresses (contractAddress 1) (contractAddress 2) (contractAddress 3) (contractAddress 4)
      (contractAddress 5) (contractAddress 6) (contractAddress 7) (contractAddress 8) in
  modify (λ h, h <| h_addresses := Some addresses |>);;
  modify (λ h, h <| h_store := Some (buildStore (h_config h) addresses (h_clock h)) |>);;
  (if decide (cfg_mode (h_config h) = Mock) then modify (λ h, h <| h_serverActive := true |>)
   else mret tt);;
  mret addresses.

Definition on_clock {A} (m : M LedgerClock A) : M SimulationHarness A :=
  zoom h_clock (λ c h, h <| h_clock := c |>) m.

Definition advanceLedgers (n : Z) : M SimulationHarness unit := on_clock (advance n).

Definition only_mock (what : string) : M SimulationHarness unit :=
  h ← get;
  throw_if (bool_decide (cfg_mode (h_config h) ≠ Mock))
    (PlainError (what +:+ " is only supported in mock mode")).

(** [this.store] before [boot] is [undefined], which [structuredClone] copies. *)
Definition snapshot : M SimulationHarness (option ContractStateSnapshot) :=
  only_mock "snapshot()";;
  gets (λ h, store ← h_store h; Some (mkSnapshot store (clock_snapshot (h_clock h)))).

Definition restore (snap : ContractStateSnapshot) : M SimulationHarness unit :=
  only_mock "restore()";;
  modify (λ h, h <| h_store := Some (cs_store snap) |>);;
  on_clock (clock_restore (cs_clock snap)).

Definition getConvictionExecutions : M SimulationHarness (option (list ConvictionExecutionRecord)) :=
  only_mock "getConvictionExecutions()";;
  gets (λ h, store ← h_store h; Some (cv_executions (st_convictionVoting store))).

Definition teardown : M SimulationHarness unit :=
  modify (λ h, h <| h_serverActive := false |>).

(** ** What boot establishes *)
Lemma seedBalances_fields bs v :
  tv_checkpoints (seedBalances bs v) = tv_checkpoints v ∧
  tv_delegates (seedBalances bs v) = tv_delegates v ∧
  tv_totalSupplyCheckpoints (seedBalances bs v) = tv_totalSupplyCheckpoints v ∧
  (Forall (λ '(_, x), 0 ≤ x) bs → map_Forall (λ _ x, 0 ≤ x) (tv_balances v) →
   map_Forall (λ _ x, 0 ≤ x) (tv_balances (seedBalances bs v))).
Proof.
  revert v. induction bs as [|[a x] bs IH]; intros v; [done|].
  change (seedBalances ((a, x) :: bs) v) with (seedBalances bs (v <| tv_balances ::= <[a := x]> |>)).
  destruct (IH (v <| tv_balances ::= <[a := x]> |>)) as (E1 & E2 & E3 & E4).
  rewrite E1, E2, E3. split_and!; [done..|]. intros [Hx Hbs]%Forall_cons Hv.
  apply E4; [done|]. by apply map_Forall_insert_2.
Qed.

Lemma seedDelegations_steps clock ds v :
  rtc votes_step (clock, v) (clock, seedDelegations clock ds v).
Proof.
  revert v. induction ds as [|[a b] ds IH]; intros v; [done|].
  eapply rtc_l; [apply (votes_step_boot clock a b)|apply IH].
Qed.

Lemma seedDelegations_balances clock ds v :
  tv_balances (seedDelegations clock ds v) = tv_balances v.
Proof.
  revert v. induction ds as [|[a b] ds IH]; intros v; [done|].
  change (seedDelegations clock ((a, b) :: ds) v) with
    (seedDelegations clock ds (applyDelegation clock a b v)).
  rewrite IH. apply applyDelegation_balances.
Qed.

Lemma buildStore_votes config addresses clock :
  Forall (λ '(_, x), 0 ≤ x) (cfg_tokenBalances config) → 0 ≤ default 0 (cfg_treasuryBalance config) →
  ∃ b, map_Forall (λ _ x, 0 ≤ x) b ∧ b !! a_treasury addresses = Some (default 0 (cfg_treasuryBalance config)) ∧
    st_votes (buildStore config addresses clock) =
      seedDelegations clock (cfg_delegations config) (votes_init b).
Proof.
  intros Hbal Htr.
  destruct (seedBalances_fields (cfg_tokenBalances config) (votes_init ∅)) as (E1 & E2 & E3 & E4).
  set (v := seedBalances (cfg_tokenBalances config) (votes_init ∅)) in *.
  exists (<[a_treasury addresses := default 0 (cfg_treasuryBalance config)]> (tv_balances v)).
  split_and!.
  - apply map_Forall_insert_2; [done|]. by apply E4.
  - apply lookup_insert_eq.
  - unfold buildStore. cbn. fold (votes_init ∅). fold v. unfold votes_init.
    destruct v. cbn in *. by subst.
Qed.

(** A configuration whose numbers make sense: balances, the timelock delay and
    the voting period are not negative, and times fit a double. *)
Record sound_config (now : Z) (config : SimulationConfig) : Prop := {
  sc_balances : Forall (λ '(_, x), 0 ≤ x) (cfg_tokenBalances config);
  sc_treasury : 0 ≤ default 0 (cfg_treasuryBalance config);
  sc_period : 0 ≤ ss_votingPeriod (cfg_settings config);
  sc_delay : 0 ≤ ss_timelockDelay (cfg_settings config);
  sc_start : 0 ≤ now + 5 * default 1000 (cfg_initialLedger config);
  sc_range : now + 5 * default 1000 (cfg_initialLedger config) +
    ss_timelockDelay (cfg_settings config) ≤ 2 ^ 53;
}.

Lemma boot_run h :
  ∃ addresses, boot h = (Ok addresses,
    h <| h_addresses := Some addresses |>
      <| h_store := Some (buildStore (h_config h) addresses (h_clock h)) |>
      <| h_serverActive := if decide (cfg_mode (h_config h) = Mock) then true else h_serverActive h |>).
Proof.
  eexists. unfold boot. m_run. cbn -[buildStore].
  destruct h as [config clock a s active]. cbn -[buildStore]. by case_decide.
Qed.
End harness.

(** ** Histories of a harness *)
Inductive harness_step (DG : string) (ca : Z → string) (h : SimulationHarness) :
    SimulationHarness → Prop :=
  | hs_boot : harness_step DG ca h (boot DG ca h).2
  | hs_advance n : harness_step DG ca h (advanceLedgers n h).2
  | hs_restore snap : harness_step DG ca h (restore snap h).2
  | hs_teardown : harness_step DG ca h (teardown h).2
  | hs_call s : harness_step DG ca h (h <| h_store := Some s |>).

Lemma harness_step_keeps DG ca h h' :
  harness_step DG ca h h' →
  h_config h' = h_config h ∧
  clk_genesisTimestamp (h_clock h') = clk_genesisTimestamp (h_clock h).
Proof.
  intros [|n|snap| |s]; try done.
  - destruct (boot_run DG ca h) as [addresses ->]. done.
  - unfold advanceLedgers, on_clock, advance. m_run. by destruct (n <? 0).
  - unfold restore, only_mock. m_run. by case_bool_decide.
Qed.

Lemma harness_history_keeps DG ca h h' :
  rtc (harness_step DG ca) h h' →
  h_config h' = h_config h ∧
  clk_genesisTimestamp (h_clock h') = clk_genesisTimestamp (h_clock h).
Proof.
  induction 1 as [|h1 h2 h3 Hstep _ [IH1 IH2]]; [done|].
  destruct (harness_step_keeps _ _ _ _ Hstep) as [H1 H2]. split; congruence.
Qed.

Lemma restore_run snap h :
  cfg_mode (h_config h) = Mock →
  restore snap h = (Ok tt, h <| h_store := Some (cs_store snap) |>
    <| h_clock ::= λ c, c <| clk_current := snap_current (cs_clock snap) |> |>).
Proof.
  intros Hm. unfold restore, only_mock. m_run. rewrite bool_decide_false by (by intros ?). done.
Qed.

(** A configuration with three holders, two of whom delegate. *)
Module Examples.
Definition sim_settings : GovernorSimulationSettings :=
  mkSimSettings 10 100 4 5 3600 None Simple None None None None None None None None None None
    None None None None None None None None.
Definition config : SimulationConfig :=
  mkConfig Mock sim_settings [("alice", 60); ("bob", 40); ("carol", 10)]
    [("alice", "alice"); ("bob", "alice")] None None (Some 500) None None.
Definition address (n : Z) : string := "C" +:+ decimal n.
Definition fresh : SimulationHarness := mkHarness config (mkClock 1000 1700000000) None None false.
Definition booted : SimulationHarness := (boot "G" address fresh).2.
Definition later : SimulationHarness := (advanceLedgers 7 booted).2.

Lemma made : make_harness 1700000000 config = Ok fresh.
Proof. reflexivity. Qed.
Lemma sound : sound_config 1700000000 config.
Proof. split; cbn; try lia. repeat constructor; lia. Qed.
Lemma sim_history : rtc (harness_step "G" address) booted later.
Proof. apply rtc_once, hs_advance. Qed.
End Examples.

(** ** Properties *)

(** Booting establishes every starting point.  From a sound configuration
    the harness boots to a store in which each contract is in the state its
    theorems start from: no proposals, operations, drafts, streams, stakes or
    bonds; token votes that a history of delegations from non-negative
    balances leads to; and a treasury holding the configured balance. *)
Theorem boot_establishes_invariants DG ca now config h :
  make_harness now config = Ok h → sound_config now config →
  ∃ addresses h' s, boot DG ca h = (Ok addresses, h') ∧ h_store h' = Some s ∧
    st_addresses s = addresses ∧
    world_boot (h_clock h', s) ∧ votes_reachable (h_clock h', st_votes s) ∧
    pbs_bonds (st_proposalBonds s) = ∅ ∧ 0 ≤ balance_of s (a_proposalBonds addresses) ∧
    balance_of s (a_treasury addresses) = default 0 (cfg_treasuryBalance config) ∧
    treasury_boot s ∧ no_drafts s ∧ conviction_boot s ∧ optimistic_boot s.
Proof.
  intros Hmake [Hbal Htr Hper Hdel Hstart Hrange]. unfold make_harness in Hmake.
  destruct (_ && _); [done|]. injection Hmake as <-. set (h := mkHarness _ _ _ _ _).
  destruct (boot_run DG ca h) as [addresses Hrun]. rewrite Hrun. do 3 eexists.
  split; [done|]. split; [reflexivity|].
  destruct (buildStore_votes DG config addresses (h_clock h) Hbal Htr) as (b & Hb & Hbt & Hv).
  set (s := buildStore DG config addresses (h_clock h)) in *.
  assert (votes_reachable (h_clock h, st_votes s)) as Hreach.
  { exists (h_clock h), b. split; [done|]. rewrite Hv. apply seedDelegations_steps. }
  assert (tv_balances (st_votes s) = b) as Hbs by (by rewrite Hv, seedDelegations_balances).
  assert (∀ a, 0 ≤ balance_of s a) as Hpos.
  { intros a. unfold balance_of. rewrite Hbs. destruct (b !! a) eqn:Ha; [by apply (Hb a)|done]. }
  assert (world_boot (h_clock h, s)) as Hw.
  { split; try done; cbn.
    - unfold in_range. cbn [fst snd]. rewrite timestamp_eq. cbn. lia.
    - apply (votes_reachable_wf _ Hreach). }
  assert (balance_of s (a_treasury addresses) = default 0 (cfg_treasuryBalance config)) as Hbal2
    by (unfold balance_of; by rewrite Hbs, Hbt).
  split_and!; (done || apply Hpos).
Qed.

Lemma boot_establishes_invariants_witness :
  ∃ addresses h' s, boot "G" Examples.address Examples.fresh = (Ok addresses, h') ∧
    h_store h' = Some s ∧ balance_of s (a_treasury addresses) = 500.
Proof.
  destruct (boot_establishes_invariants "G" Examples.address _ _ _ Examples.made Examples.sound)
    as (addresses & h' & s & H1 & H2 & _ & _ & _ & _ & _ & H3 & _).
  exists addresses, h', s. split; [exact H1|]. split; [exact H2|exact H3].
Defined.

(** A snapshot replays.  In mock mode, restoring a snapshot after any later
    history of the same harness brings back the store and the clock exactly.
    Restored into another harness it brings back the store and the ledger
    number, but not the time: [LedgerClock.restore] ignores the genesis
    timestamp the snapshot carries. *)
Theorem snapshot_restores DG ca h s :
  cfg_mode (h_config h) = Mock → h_store h = Some s →
  ∃ snap, snapshot h = (Ok (Some snap), h) ∧
    (∀ h', rtc (harness_step DG ca) h h' →
      ∃ h2, restore snap h' = (Ok tt, h2) ∧ h_store h2 = Some s ∧ h_clock h2 = h_clock h) ∧
    (∀ h', cfg_mode (h_config h') = Mock →
      ∃ h2, restore snap h' = (Ok tt, h2) ∧ h_store h2 = Some s ∧
        sequence (h_clock h2) = sequence (h_clock h) ∧
        timestamp (h_clock h2) - timestamp (h_clock h) =
          clk_genesisTimestamp (h_clock h') - clk_genesisTimestamp (h_clock h)).
Proof.
  intros Hm Hs. exists (mkSnapshot s (clock_snapshot (h_clock h))). split_and!.
  - unfold snapshot, only_mock. m_run. rewrite bool_decide_false by (by intros ?). cbn. by rewrite Hs.
  - intros h' Hsteps. destruct (harness_history_keeps _ _ _ _ Hsteps) as [Hcfg Hgen].
    rewrite restore_run by (by rewrite Hcfg). eexists. split_and!; [done|done|].
    cbn. rewrite Hgen. by destruct (h_clock h).
  - intros h' Hm'. rewrite restore_run by done. eexists. split_and!; [done|done|done|].
    rewrite !timestamp_eq. cbn. lia.
Qed.

Lemma snapshot_restores_witness :
  ∃ snap h2, snapshot Examples.booted = (Ok (Some snap), Examples.booted) ∧
    restore snap Examples.later = (Ok tt, h2) ∧ h_clock h2 = h_clock Examples.booted.
Proof.
  destruct (snapshot_restores "G" Examples.address Examples.booted
    (default StoreExamples.store (h_store Examples.booted)))
    as (snap & H1 & H2 & _); [reflexivity|vm_compute; reflexivity|].
  destruct (H2 _ Examples.sim_history) as (h2 & H3 & _ & H4).
  exists snap, h2. split; [exact H1|]. split; [exact H3|exact H4].
Defined.
