(* ===== verification/AddressOrder.v ===== *)
(** * Sorting by address

    [.sort((a, b) => (a.address < b.address ? -1 : a.address > b.address ? 1 : 0))],
    which the reward allocations and the Merkle tree use.  The sort is stable,
    which fixes its result; addresses are ASCII, for which JavaScript's order
    of strings is that of their bytes. *)

From stdpp Require Import sorting.
From Stdlib Require Import OrdersEx.
From S2P Require Import Prelude.
Open Scope Z_scope.

Section key.
Context {A : Type} (key : A → string).

Definition before_by (a b : A) : bool :=
  match String_as_OT.compare (key a) (key b) with Lt => true | _ => false end.
Fixpoint insert_by (e : A) (l : list A) : list A :=
  match l with
  | [] => [e]
  | x :: l' => if before_by x e then x :: insert_by e l' else e :: l
  end.
Definition sort_by (l : list A) : list A := foldr insert_by [] l.

Definition sorted_before (a b : A) : Prop := before_by a b = true ∨ a = b.

Lemma before_by_lt a b : before_by a b = true ↔ String_as_OT.lt (key a) (key b).
Proof. unfold before_by, String_as_OT.lt. by destruct (String_as_OT.compare _ _). Qed.

#[export] Instance sorted_before_trans : Transitive sorted_before.
Proof.
  intros a b c [Hab| ->] [Hbc| <-]; try (by left); try (by right). left.
  rewrite before_by_lt in *. by etransitivity.
Qed.
#[export] Instance sorted_before_antisym : AntiSymm (=) sorted_before.
Proof.
  intros a b [Hab|Hab] [Hba|Hba]; try done. rewrite before_by_lt in *.
  destruct (StrictOrder_Irreflexive (key a)). by etransitivity.
Qed.

Lemma insert_by_perm e l : insert_by e l ≡ₚ e :: l.
Proof.
  induction l as [|x l IH]; cbn; [done|]. destruct (before_by x e); [|done]. rewrite IH. constructor.
Qed.
Lemma sort_by_perm l : sort_by l ≡ₚ l.
Proof. induction l as [|e l IH]; cbn; [done|]. by rewrite insert_by_perm, IH. Qed.

Lemma before_by_total a b : key a ≠ key b → before_by a b = false → before_by b a = true.
Proof.
  intros Hne Hb. apply before_by_lt. unfold before_by in Hb.
  destruct (String_as_OT.compare_spec (key a) (key b)); try done.
Qed.

Lemma insert_by_sorted e l :
  key e ∉ (key <$> l) → Sorted sorted_before l → Sorted sorted_before (insert_by e l).
Proof.
  induction l as [|x l IH]; intros Hn Hs; cbn; [repeat constructor|].
  rewrite fmap_cons, not_elem_of_cons in Hn. destruct Hn as [Hne Hn].
  apply Sorted_inv in Hs as [Hs Hhd]. destruct (before_by x e) eqn:Hb.
  - constructor; [by apply IH|]. destruct l as [|y l]; cbn; [constructor; by left|].
    apply HdRel_inv in Hhd. destruct (before_by y e); constructor; [done|by left].
  - constructor; [by constructor|]. constructor. left. by apply before_by_total.
Qed.
Lemma sort_by_sorted l :
  NoDup (key <$> l) → Sorted sorted_before (sort_by l).
Proof.
  induction l as [|e l IH]; cbn; [constructor|]. intros [Hn Hl]%NoDup_cons.
  apply insert_by_sorted; [|by apply IH]. by rewrite sort_by_perm.
Qed.

Lemma sort_by_canonical l1 l2 :
  NoDup (key <$> l1) → l1 ≡ₚ l2 → sort_by l1 = sort_by l2.
Proof.
  intros Hn Hp. apply (Sorted_unique sorted_before).
  - by apply sort_by_sorted.
  - apply sort_by_sorted. by rewrite <- Hp.
  - by rewrite !sort_by_perm.
Qed.
End key.
