(* ===== verification/SdkTypes.v ===== *)
(** * Types of the SDK

    What the jobs of the backend share of [sdk/src/types/index.ts], and how they
    read their environment. *)

From S2P Require Import Prelude Doubles.

Inductive ProposalState := Pending | Active | Defeated | Succeeded | Queued | Executed | Cancelled | Expired.

(** A variable of the environment counts when it is neither missing nor empty. *)
Definition is_set (v : option string) : bool := match v with None | Some EmptyString => false | Some _ => true end.
(** The parts of a description, one to a line, are joined with it. *)
Definition newline : string := String (Ascii.ascii_of_N 10) "".

(** [[A-Z2-7]], and a text of such characters *)
Definition base32_char (c : Ascii.ascii) : bool :=
  let n := Ascii.N_of_ascii c in ((65 <=? n) && (n <=? 90) || (50 <=? n) && (n <=? 55))%N.
Fixpoint all_chars (p : Ascii.ascii → bool) (s : string) : bool :=
  match s with EmptyString => true | String c s' => p c && all_chars p s' end.

Inductive VoteType := Simple | Extended | Quadratic.
Record GovernorSettings := mkGovernorSettings {
  gs_votingDelay : Z; gs_votingPeriod : Z; gs_quorumNumerator : number; gs_proposalThreshold : Z; gs_guardian : string;
  gs_voteType : VoteType; gs_proposalGracePeriod : Z; gs_useDynamicQuorum : option bool; gs_reflectorOracle : option string;
  gs_minQuorumUsd : option Z; gs_maxCalldataSize : option Z; gs_proposalCooldown : option Z;
  gs_maxProposalsPerPeriod : option Z; gs_proposalPeriodDuration : option Z; gs_useCommitReveal : option bool;
  gs_commitPhaseFraction : option Z }.
#[export] Instance GovernorSettings_eta : Eta GovernorSettings := λ g, mkGovernorSettings (gs_votingDelay g)
  (gs_votingPeriod g) (gs_quorumNumerator g) (gs_proposalThreshold g) (gs_guardian g) (gs_voteType g)
  (gs_proposalGracePeriod g) (gs_useDynamicQuorum g) (gs_reflectorOracle g) (gs_minQuorumUsd g) (gs_maxCalldataSize g)
  (gs_proposalCooldown g) (gs_maxProposalsPerPeriod g) (gs_proposalPeriodDuration g) (gs_useCommitReveal g)
  (gs_commitPhaseFraction g).
