(* ===== verification/Rewards.v ===== *)
(** * Reward shares

    [backend/src/voting-rewards/eligibility.ts]: the votes of an epoch, read
    from the table the indexer writes, and the proportional split of the
    epoch's budget over the accounts that voted. *)

From stdpp Require Import sorting.
From S2P Require Import Prelude.
From S2P Require Import JsValues Cache IndexerDb.
From S2P Require Import AddressOrder.
Open Scope Z_scope.

Record EpochVoteRow := mkEpochVote { ev_voter : string; ev_weight : Z }.
Record RewardAllocation := mkAllocation { ra_address : string; ra_weight : Z; ra_amount : Z }.
Record EpochEligibility := mkEligibility {
  allocations : list RewardAllocation; totalRewardAmount : Z; totalWeight : Z; uniqueVoters : Z }.

(** One round of the loop over the votes. *)
Definition add_weight (weightByVoter : list (string * Z)) (vote : EpochVoteRow) : list (string * Z) :=
  if ev_weight vote <=? 0 then weightByVoter
  else jm_set (ev_voter vote) (default 0 (jm_get (ev_voter vote) weightByVoter) + ev_weight vote) weightByVoter.

(** The share of an account, if it is not nothing. *)
Definition allocate (budget total : Z) (entry : string * Z) : option RewardAllocation :=
  let amount := budget * entry.2 ÷ᵇ total in
  if 0 <? amount then Some (mkAllocation entry.1 entry.2 amount) else None.

Definition computeProportionalRewards (votes : list EpochVoteRow) (budget : Z) : EpochEligibility :=
  let weightByVoter := foldl add_weight [] votes in
  let total := foldl Z.add 0 weightByVoter.*2 in
  let unique := Z.of_nat (length weightByVoter) in
  if (total =? 0) || (budget <=? 0) then mkEligibility [] 0 total unique
  else
    let allocations := sort_by ra_address (omap (allocate budget total) weightByVoter) in
    mkEligibility allocations (foldl Z.add 0 (ra_amount <$> allocations)) total unique.

(** [WHERE ledger >= $1 AND ledger < $2] *)
Definition fetchEpochVotes (startLedger endLedger : Z) (d : Db) : list EpochVoteRow :=
  (λ kv, mkEpochVote kv.1.2 (vt_weight kv.2)) <$>
    base.filter (λ kv, startLedger ≤ vt_ledger kv.2 < endLedger) (votes d).
Definition getIndexedLedgerHeight (d : Db) : Z := last_ledger d.
Definition computeEpochEligibility (startLedger endLedger budget : Z) (d : Db) : EpochEligibility :=
  computeProportionalRewards (fetchEpochVotes startLedger endLedger d) budget.

(** ** The weights *)

(** The power an account brought: the sum of its positive votes. *)
Definition cast_weight (votes : list EpochVoteRow) (a : string) : Z :=
  sum_list_Z ((λ v, if String.eqb (ev_voter v) a then Z.max 0 (ev_weight v) else 0) <$> votes).
Definition all_weight (votes : list EpochVoteRow) : Z := sum_list_Z ((λ v, Z.max 0 (ev_weight v)) <$> votes).

Lemma weights_spec votes m :
  NoDup m.*1 → Forall (λ kv, 0 < kv.2) m →
  let m' := foldl add_weight m votes in
  NoDup m'.*1 ∧ Forall (λ kv, 0 < kv.2) m' ∧
  (∀ a, default 0 (jm_get a m') = default 0 (jm_get a m) + cast_weight votes a) ∧
  jm_total m' = jm_total m + all_weight votes.
Proof.
  revert m. induction votes as [|v votes IH]; intros m Hnd Hpos; cbn zeta.
  { cbn [foldl]. split; [done|]. split; [done|]. split; [intros a; cbn; lia|cbn; lia]. }
  cbn [foldl]. unfold cast_weight, all_weight. setoid_rewrite fmap_cons. cbn [sum_list_Z].
  assert (NoDup (add_weight m v).*1 ∧ Forall (λ kv, 0 < kv.2) (add_weight m v) ∧
    (∀ a, default 0 (jm_get a (add_weight m v)) =
      default 0 (jm_get a m) + (if String.eqb (ev_voter v) a then Z.max 0 (ev_weight v) else 0)) ∧
    jm_total (add_weight m v) = jm_total m + Z.max 0 (ev_weight v)) as (H1 & H2 & H3 & H4).
  { unfold add_weight. destruct (Z.leb_spec (ev_weight v) 0) as [Hle|Hgt].
    - rewrite Z.max_l by lia. split; [done|]. split; [done|]. split; [|lia]. intros a. destruct (String.eqb _ _); lia.
    - rewrite Z.max_r by lia.
      assert (0 ≤ default 0 (jm_get (ev_voter v) m)) as Hold.
      { destruct (jm_get (ev_voter v) m) as [x|] eqn:Hx; cbn; [|done].
        apply jm_get_Some in Hx; [|done]. rewrite Forall_forall in Hpos. specialize (Hpos _ Hx). cbn in Hpos. lia. }
      split; [by apply jm_set_nodup|]. split; [apply (jm_set_Forall (λ x, 0 < x)); [lia|done]|]. split.
      + intros a. rewrite jm_get_set. case_decide as Ha.
        * subst a. rewrite String.eqb_refl. cbn. lia.
        * destruct (String.eqb_spec (ev_voter v) a); [done|lia].
      + rewrite jm_total_set. lia. }
  destruct (IH _ H1 H2) as (H5 & H6 & H7 & H8). split; [done|]. split; [done|]. split.
  - intros a. rewrite H7, H3. unfold cast_weight. lia.
  - rewrite H8, H4. unfold all_weight. lia.
Qed.

Lemma cast_weight_perm votes votes' a : votes ≡ₚ votes' → cast_weight votes a = cast_weight votes' a.
Proof. intros Hp. unfold cast_weight. apply sum_list_Z_perm. by rewrite Hp. Qed.
Lemma all_weight_perm votes votes' : votes ≡ₚ votes' → all_weight votes = all_weight votes'.
Proof. intros Hp. unfold all_weight. apply sum_list_Z_perm. by rewrite Hp. Qed.

(** The map of the loop: who is in it, and with what. *)
Lemma weights_of_votes votes :
  let m := foldl add_weight [] votes in
  NoDup m.*1 ∧ Forall (λ kv, 0 < kv.2) m ∧ jm_total m = all_weight votes ∧
  (∀ a w, (a, w) ∈ m ↔ w = cast_weight votes a ∧ 0 < w) ∧ (∀ a, a ∈ m.*1 ↔ 0 < cast_weight votes a).
Proof.
  intros m. destruct (weights_spec votes [] (NoDup_nil_2) (Forall_nil_2 _)) as (Hnd & Hpos & Hget & Htot).
  fold m in Hnd, Hpos, Hget, Htot. split; [done|]. split; [done|]. split; [by rewrite Htot|].
  assert (∀ a w, (a, w) ∈ m ↔ w = cast_weight votes a ∧ 0 < w) as Helem.
  { intros a w. rewrite <- jm_get_Some by done. specialize (Hget a). cbn in Hget. split.
    - intros Hw. rewrite Hw in Hget. cbn in Hget. split; [lia|].
      apply jm_get_Some in Hw; [|done]. rewrite Forall_forall in Hpos. exact (Hpos _ Hw).
    - intros [-> Hw]. destruct (jm_get a m) as [x|]; cbn in Hget; [f_equal; lia|lia]. }
  split; [done|]. intros a. rewrite list_elem_of_fmap. split.
  - intros ([a' w] & -> & Hin). apply Helem in Hin as [-> Hw]. exact Hw.
  - intros Hw. exists (a, cast_weight votes a). split; [done|]. by apply Helem.
Qed.

(** ** The shares *)
Lemma floor_sum b W (m : list (string * Z)) :
  0 ≤ b → 0 < W → Forall (λ kv, 0 < kv.2) m →
  let S := sum_list_Z ((λ kv, b * kv.2 / W) <$> m) in
  0 ≤ S ∧ W * S ≤ b * jm_total m ∧ b * jm_total m ≤ W * S + (W - 1) * Z.of_nat (length m).
Proof.
  intros Hb HW. unfold jm_total. induction 1 as [|[a w] m Hw Hm IH]; cbn zeta in *; [cbn; lia|].
  rewrite !fmap_cons. cbn [sum_list_Z length snd] in *.
  pose proof (Z.div_mod (b * w) W ltac:(lia)). pose proof (Z.mod_pos_bound (b * w) W HW).
  assert (0 ≤ b * w / W) by (apply Z.div_pos; [apply Z.mul_nonneg_nonneg|]; lia). nia.
Qed.
Lemma allocate_sum b W (m : list (string * Z)) :
  0 ≤ b → 0 < W → Forall (λ kv, 0 < kv.2) m →
  sum_list_Z (ra_amount <$> omap (allocate b W) m) = sum_list_Z ((λ kv, b * kv.2 / W) <$> m).
Proof.
  intros Hb HW. induction 1 as [|[a w] m Hw Hm IH]; [done|]. cbn [omap list_omap]. unfold allocate at 1.
  cbn [snd fst] in *. rewrite quot_div_nonneg by nia. rewrite fmap_cons. cbn [sum_list_Z snd].
  assert (0 ≤ b * w / W) by (apply Z.div_pos; nia).
  destruct (Z.ltb_spec 0 (b * w / W)); [rewrite fmap_cons; cbn [sum_list_Z ra_amount]|]; lia.
Qed.
Lemma allocate_addresses b W (m : list (string * Z)) : NoDup m.*1 → NoDup (ra_address <$> omap (allocate b W) m).
Proof.
  induction m as [|[a w] m IH]; [constructor|]. rewrite fmap_cons. intros [Hn Hnd]%NoDup_cons.
  cbn [omap list_omap]. unfold allocate at 1. destruct (0 <? _); [|by apply IH].
  rewrite fmap_cons. apply NoDup_cons. split; [|by apply IH]. cbn [ra_address fst] in *. intros Hin. apply Hn.
  apply list_elem_of_fmap in Hin as (x & -> & Hx). apply list_elem_of_omap in Hx as ([a' w'] & Hin & Hx).
  unfold allocate in Hx. destruct (0 <? _); [|done]. injection Hx as <-. cbn. by apply (list_elem_of_fmap_2 fst) in Hin.
Qed.

(** What an allocation says, in terms of the votes. *)
Definition earned (votes : list EpochVoteRow) (budget : Z) (x : RewardAllocation) : Prop :=
  0 < budget ∧ ra_weight x = cast_weight votes (ra_address x) ∧
  ra_amount x = budget * cast_weight votes (ra_address x) / all_weight votes ∧ 0 < ra_amount x.

Lemma allocations_spec votes budget :
  let r := computeProportionalRewards votes budget in
  NoDup (ra_address <$> allocations r) ∧ Sorted (sorted_before ra_address) (allocations r) ∧
  (∀ x, x ∈ allocations r ↔ earned votes budget x).
Proof.
  unfold computeProportionalRewards. destruct (weights_of_votes votes) as (Hnd & Hpos & Htot & Helem & Hkeys).
  set (m := foldl add_weight [] votes) in *. rewrite foldl_add_sum, Z.add_0_l. fold (jm_total m). rewrite Htot.
  assert (0 ≤ all_weight votes) as HW.
  { rewrite <- Htot. apply sum_list_Z_nonneg, Forall_fmap. eapply Forall_impl; [exact Hpos|]. intros kv Hkv. unfold compose; cbn in *; lia. }
  destruct ((all_weight votes =? 0) || (budget <=? 0)) eqn:Hempty; cbn [allocations].
  { split; [constructor|]. split; [constructor|]. intros x. split; [by intros ?%elem_of_nil|].
    intros (Hb & _ & Ha & Hp). apply orb_true_iff in Hempty as [H0|H0]; [|lia].
    apply Z.eqb_eq in H0. rewrite H0, Zdiv_0_r in Ha. lia. }
  apply orb_false_iff in Hempty as [H0 Hb].
  pose proof (allocate_addresses budget (all_weight votes) m Hnd) as Haddr.
  split; [by rewrite sort_by_perm|]. split; [by apply sort_by_sorted|].
  intros x. rewrite sort_by_perm, list_elem_of_omap. unfold allocate, earned. split.
  - intros ([a w] & Hin & Hx). cbn [fst snd] in Hx. apply Helem in Hin as [-> Hw].
    rewrite quot_div_nonneg in Hx by nia. destruct (Z.ltb_spec 0 (budget * cast_weight votes a / all_weight votes)); [|done].
    injection Hx as <-. cbn. split; [lia|]. done.
  - intros (_ & Hweight & Hamount & Hp). exists (ra_address x, cast_weight votes (ra_address x)).
    assert (0 < cast_weight votes (ra_address x)) as Hcast.
    { destruct (Z.le_gt_cases (cast_weight votes (ra_address x)) 0) as [Hle|]; [|lia]. exfalso.
      assert (budget * cast_weight votes (ra_address x) / all_weight votes ≤ 0); [|lia].
      apply Z.div_le_upper_bound; nia. }
    split; [by apply Helem|]. cbn [fst snd]. rewrite quot_div_nonneg by nia. rewrite <- Hamount.
    destruct (Z.ltb_spec 0 (ra_amount x)); [|lia]. destruct x; cbn in *. by subst.
Qed.

Lemma totals_spec votes budget :
  let r := computeProportionalRewards votes budget in
  totalWeight r = all_weight votes ∧ totalRewardAmount r = sum_list_Z (ra_amount <$> allocations r) ∧
  0 ≤ totalRewardAmount r ≤ Z.max 0 budget ∧
  (0 < budget ∧ 0 < all_weight votes → budget - totalRewardAmount r < uniqueVoters r).
Proof.
  unfold computeProportionalRewards. destruct (weights_of_votes votes) as (Hnd & Hpos & Htot & Helem & _).
  set (m := foldl add_weight [] votes) in *. rewrite foldl_add_sum, Z.add_0_l. fold (jm_total m). rewrite Htot.
  assert (0 ≤ all_weight votes) as HW.
  { rewrite <- Htot. apply sum_list_Z_nonneg, Forall_fmap. eapply Forall_impl; [exact Hpos|].
    intros kv Hkv. unfold compose; cbn in *; lia. }
  destruct ((all_weight votes =? 0) || (budget <=? 0)) eqn:Hempty;
    cbn [allocations totalWeight totalRewardAmount uniqueVoters].
  { split; [done|]. split; [done|]. split; [lia|]. lia. }
  apply orb_false_iff in Hempty as [H0 Hb].
  assert (sum_list_Z (ra_amount <$> sort_by ra_address (omap (allocate budget (all_weight votes)) m)) =
    sum_list_Z ((λ kv, budget * kv.2 / all_weight votes) <$> m)) as Hsum.
  { rewrite <- allocate_sum by (done || lia). apply sum_list_Z_perm. by rewrite sort_by_perm. }
  rewrite foldl_add_sum, Z.add_0_l. split; [done|]. split; [done|]. rewrite Hsum.
  destruct (floor_sum budget (all_weight votes) m ltac:(lia) ltac:(lia) Hpos) as (Hs0 & Hs1 & Hs2).
  rewrite Htot in Hs1, Hs2. split; [|intros _].
  - split; [done|]. nia.
  - assert (0 < length m)%nat as Hlen.
    { destruct m as [|kv m'] eqn:Hm; [|cbn; lia]. cbn in Htot. lia. }
    nia.
Qed.

Lemma order_irrelevant votes votes' budget :
  votes ≡ₚ votes' → computeProportionalRewards votes budget = computeProportionalRewards votes' budget.
Proof.
  intros Hp.
  destruct (allocations_spec votes budget) as (Hnd & Hs & He), (allocations_spec votes' budget) as (Hnd' & Hs' & He').
  destruct (totals_spec votes budget) as (Hw & Ht & _), (totals_spec votes' budget) as (Hw' & Ht' & _).
  assert (allocations (computeProportionalRewards votes budget) = allocations (computeProportionalRewards votes' budget)) as Ha.
  { apply (Sorted_unique (sorted_before ra_address)); [done|done|].
    apply NoDup_Permutation; [by apply NoDup_fmap_1 in Hnd|by apply NoDup_fmap_1 in Hnd'|].
    intros x. rewrite He, He'. unfold earned. by rewrite (cast_weight_perm _ _ _ Hp), (all_weight_perm _ _ Hp). }
  assert (uniqueVoters (computeProportionalRewards votes budget) = uniqueVoters (computeProportionalRewards votes' budget)) as Hu.
  { destruct (weights_of_votes votes) as (Hm & _ & _ & _ & Hk), (weights_of_votes votes') as (Hm' & _ & _ & _ & Hk').
    assert (length (foldl add_weight [] votes) = length (foldl add_weight [] votes')) as Hl.
    { rewrite <- (length_fmap fst), <- (length_fmap fst (foldl add_weight [] votes')). apply Permutation_length.
      apply NoDup_Permutation; [done|done|]. intros a. by rewrite Hk, Hk', (cast_weight_perm _ _ _ Hp). }
    unfold computeProportionalRewards. cbv zeta. rewrite Hl. by do 2 destruct (_ || _). }
  rewrite Ha, (all_weight_perm _ _ Hp) in *.
  destruct (computeProportionalRewards votes budget), (computeProportionalRewards votes' budget).
  cbn in *. congruence.
Qed.

(** C16: Rewards are proportional.  An account is allocated exactly the floor of
    its share, the budget times the power it voted with over the power of all
    votes, if that is positive; the list is sorted by distinct addresses; its
    sum is what the epoch is published for, never above the budget and short of
    it by less than one unit per voter; and the order in which the votes are
    read does not matter. *)
Theorem rewards_are_proportional (votes : list EpochVoteRow) (budget : Z) :
  let r := computeProportionalRewards votes budget in
  (∀ x, x ∈ allocations r ↔ earned votes budget x) ∧
  NoDup (ra_address <$> allocations r) ∧ Sorted (sorted_before ra_address) (allocations r) ∧
  totalWeight r = all_weight votes ∧
  totalRewardAmount r = sum_list_Z (ra_amount <$> allocations r) ∧
  0 ≤ totalRewardAmount r ≤ Z.max 0 budget ∧
  (0 < budget ∧ 0 < all_weight votes → budget - totalRewardAmount r < uniqueVoters r) ∧
  (∀ votes', votes ≡ₚ votes' → computeProportionalRewards votes' budget = r).
Proof.
  intros r. destruct (allocations_spec votes budget) as (Hnd & Hs & He).
  destruct (totals_spec votes budget) as (Hw & Ht & Hb & Hd).
  split; [exact He|]. split; [exact Hnd|]. split; [exact Hs|]. split; [exact Hw|]. split; [exact Ht|].
  split; [exact Hb|]. split; [exact Hd|]. intros votes' Hp. symmetry. by apply order_irrelevant.
Qed.

(** Contiguous epochs share out the votes: each is in one of them. *)
Lemma fetch_contiguous a b c d :
  a ≤ b → b ≤ c → fetchEpochVotes a c d ≡ₚ fetchEpochVotes a b d ++ fetchEpochVotes b c d.
Proof.
  intros Hab Hbc. unfold fetchEpochVotes. rewrite <- fmap_app. apply fmap_Permutation.
  induction (votes d) as [|[k v] l IH]; [done|]. rewrite !filter_cons. cbn [snd].
  destruct (decide (a ≤ vt_ledger v < b)), (decide (b ≤ vt_ledger v < c));
    [lia|rewrite decide_True by lia|rewrite decide_True by lia|rewrite decide_False by lia]; rewrite IH; [done|solve_Permutation|done].
Qed.
