(* ===== verification/Merkle.v ===== *)
(** * The reward tree

    [backend/src/voting-rewards/merkle.ts]: the Merkle tree over the rewards
    of an epoch, the proofs served from it and the check the contract makes
    of them. *)

From stdpp Require Import sorting.
From Stdlib Require Import OrdersEx.
From S2P Require Import Prelude.
From S2P Require Import AddressOrder.
Open Scope Z_scope.

(** ** Encodings *)
Definition byte_of (z : Z) : byte := default Byte.x00 (Byte.of_N (Z.to_N (z mod 256))).

(** The [n] low bytes of [z], little-endian. *)
Fixpoint le_bytes (n : nat) (z : Z) : bytes :=
  match n with
  | O => []
  | S n' => byte_of z :: le_bytes n' (z / 256)
  end.

(** [BigInt.asUintN(bits, value)] *)
Definition asUintN (bits value : Z) : Z := value mod 2 ^ bits.

Definition u64le (value : Z) : bytes := le_bytes 8 (asUintN 64 value).

Definition i128le (value : Z) : bytes :=
  let unsigned := asUintN 128 value in
  le_bytes 8 (Z.land unsigned (Z.ones 64)) ++ le_bytes 8 (Z.shiftr unsigned 64).

(** [Buffer.compare(a, b)] *)
Fixpoint buffer_compare (a b : bytes) : comparison :=
  match a, b with
  | [], [] => Eq
  | [], _ => Lt
  | _, [] => Gt
  | x :: a', y :: b' =>
    match N.compare (Byte.to_N x) (Byte.to_N y) with
    | Eq => buffer_compare a' b'
    | c => c
    end
  end.

(** ** Sorting by address

    [Array.prototype.sort] is stable, which fixes its result; addresses are
    ASCII, for which JavaScript's order of strings is that of their bytes. *)
Record RewardEntry := mkEntry { re_address : string; re_amount : Z }.
#[export] Instance RewardEntry_eq_dec : EqDecision RewardEntry.
Proof. solve_decision. Defined.

Definition sort_entries : list RewardEntry → list RewardEntry := sort_by re_address.

(** ** The tree *)
Fixpoint map_outcome {A B} (f : A → outcome B) (l : list A) : outcome (list B) :=
  match l with
  | [] => Ok []
  | x :: l' =>
    match f x with
    | Throw e => Throw e
    | Ok y => match map_outcome f l' with Ok ys => Ok (y :: ys) | Throw e => Throw e end
    end
  end.

Record MerkleTree := mkTree {
  mt_root : option string;
  mt_entries : list RewardEntry;
  mt_leaves : list string;
  mt_levels : list (list bytes);
}.

(** [sha256] is Node's hash; [address_xdr] is the XDR of the [ScVal] of an
    address, which throws on text that is no address. *)
Section merkle.
Context (sha256 : bytes → bytes) (address_xdr : string → outcome bytes).

Definition computeLeaf (address : string) (epochId amount : Z) : outcome bytes :=
  match address_xdr address with
  | Ok claimant => Ok (sha256 (claimant ++ u64le epochId ++ i128le amount))
  | Throw e => Throw e
  end.

Definition hashPair (a b : bytes) : bytes :=
  match buffer_compare a b with
  | Gt => sha256 (b ++ a)
  | _ => sha256 (a ++ b)
  end.

Fixpoint nextLevel (level : list bytes) : list bytes :=
  match level with
  | [] => []
  | [x] => [x]
  | x :: y :: level' => hashPair x y :: nextLevel level'
  end.

(** The [while] loop of [buildMerkleTree]; each round halves the level, so its
    first length is fuel enough. *)
Fixpoint build_levels (fuel : nat) (level : list bytes) : list (list bytes) :=
  match fuel with
  | O => [level]
  | S fuel' =>
    if (1 <? length level)%nat then level :: build_levels fuel' (nextLevel level) else [level]
  end.

Definition levels_of (leaves : list bytes) : list (list bytes) :=
  if (0 <? length leaves)%nat then build_levels (length leaves) leaves else [].

Definition buildMerkleTree (entries : list RewardEntry) (epochId : Z) : outcome MerkleTree :=
  let sorted := sort_entries entries in
  match map_outcome (λ e, computeLeaf (re_address e) epochId (re_amount e)) sorted with
  | Throw e => Throw e
  | Ok leaves =>
    let levels := levels_of leaves in
    Ok (mkTree
      (match last levels with Some (node :: _) => Some (to_hex node) | _ => None end)
      sorted (to_hex <$> leaves) levels)
  end.

(** The loop of [proofFor], over all levels but the last. *)
Fixpoint proof_loop (levels : list (list bytes)) (idx : nat) : list string :=
  match levels with
  | [] | [_] => []
  | level :: levels' =>
    let sibling := if Nat.even idx then S idx else pred idx in
    match level !! sibling with Some node => [to_hex node] | None => [] end ++
    proof_loop levels' (Nat.div2 idx)
  end.

Definition proofFor (t : MerkleTree) (index : Z) : outcome (list string) :=
  if (index <? 0) || (Z.of_nat (length (mt_entries t)) <=? index)
  then Throw (PlainError ("leaf index " +:+ decimal index +:+ " out of range (" +:+
    decimal (Z.of_nat (length (mt_entries t))) +:+ " leaves)"))
  else Ok (proof_loop (mt_levels t) (Z.to_nat index)).

Fixpoint find_address (address : string) (l : list RewardEntry) : option nat :=
  match l with
  | [] => None
  | e :: l' => if String.eqb (re_address e) address then Some O else S <$> find_address address l'
  end.

(** [None] is the [null] of an address without a leaf. *)
Definition proofForAddress (t : MerkleTree) (address : string) : outcome (option (list string)) :=
  match find_address address (mt_entries t) with
  | None => Ok None
  | Some index =>
    match proofFor t (Z.of_nat index) with Ok proof => Ok (Some proof) | Throw e => Throw e end
  end.

Definition verifyProof (leaf : bytes) (proof : list string) (root : string) : bool :=
  String.eqb (to_hex (foldl (λ acc sibling, hashPair acc (of_hex sibling)) leaf proof)) root.

(** ** Comparing and pairing *)
Lemma buffer_compare_sym a b : buffer_compare b a = CompOpp (buffer_compare a b).
Proof.
  revert b. induction a as [|x a IH]; intros [|y b]; cbn; try done.
  rewrite N.compare_antisym. by destruct (Byte.to_N x ?= Byte.to_N y)%N; cbn.
Qed.
Lemma buffer_compare_eq a b : buffer_compare a b = Eq → a = b.
Proof.
  revert b. induction a as [|x a IH]; intros [|y b]; cbn; try done.
  destruct (Byte.to_N x ?= Byte.to_N y)%N eqn:Hc; try done. apply N.compare_eq in Hc.
  intros H. rewrite (IH _ H). f_equal.
  assert (Some x = Some y) as [= ->]; [|done]. rewrite <- (Byte.of_to_N x), <- (Byte.of_to_N y).
  by rewrite Hc.
Qed.
Lemma hashPair_comm a b : hashPair a b = hashPair b a.
Proof.
  unfold hashPair. rewrite (buffer_compare_sym a b).
  destruct (buffer_compare a b) eqn:Hc; cbn; try done. apply buffer_compare_eq in Hc. by subst.
Qed.

(** ** Levels *)
Lemma nextLevel_ind (P : list bytes → Prop) :
  P [] → (∀ x, P [x]) → (∀ x y l, P l → P (x :: y :: l)) → ∀ l, P l.
Proof.
  intros H0 H1 H2. fix IH 1. intros [|x [|y l]]; [done|done|]. apply H2, IH.
Qed.

Lemma nextLevel_length l : length (nextLevel l) = Nat.div2 (S (length l)).
Proof. induction l as [|x|x y l IH] using nextLevel_ind; cbn in *; auto. Qed.

(** What the pair at [Nat.div2 i] of the next level is made of. *)
Lemma nextLevel_lookup l i x :
  l !! i = Some x →
  nextLevel l !! Nat.div2 i = Some
    (match l !! (if Nat.even i then S i else pred i) with Some y => hashPair x y | None => x end).
Proof.
  revert i. induction l as [|a|a b l IH] using nextLevel_ind; intros i; [done| |].
  - destruct i; [|done]. by intros [= ->].
  - destruct i as [|[|i]].
    + by intros [= ->].
    + intros [= ->]. cbn. by rewrite hashPair_comm.
    + cbn [nextLevel Nat.div2]. intros Hx. change (l !! i = Some x) in Hx.
      change (nextLevel l !! Nat.div2 i = Some
        (match (a :: b :: l) !! (if Nat.even i then S (S (S i)) else S i) with
         | Some y => hashPair x y | None => x end)).
      rewrite (IH _ Hx).
      destruct (Nat.even i) eqn:He; [done|]. by destruct i.
Qed.

Lemma fold_step leaf node (rest : list string) :
  foldl (λ acc sibling, hashPair acc (of_hex sibling)) leaf (to_hex node :: rest) =
  foldl (λ acc sibling, hashPair acc (of_hex sibling)) (hashPair leaf node) rest.
Proof. cbn. by rewrite of_hex_to_hex. Qed.

(** A node of any level, folded up its path, gives the node of the last level. *)
Lemma build_levels_path fuel level i x :
  (length level ≤ S fuel)%nat → level !! i = Some x →
  ∃ root, last (build_levels fuel level) = Some [root] ∧
    foldl (λ acc sibling, hashPair acc (of_hex sibling)) x
      (proof_loop (build_levels fuel level) i) = root.
Proof.
  revert level i x. induction fuel as [|fuel IH]; intros level i x Hlen Hx; cbn [build_levels].
  - destruct level as [|y [|z level]]; [done| |cbn in Hlen; lia].
    destruct i; [|done]. injection Hx as <-. by exists y.
  - destruct (Nat.ltb_spec 1 (length level)) as [Hl|Hl].
    2:{ destruct level as [|y [|z level]]; [done| |cbn in Hl; lia].
        destruct i; [|done]. injection Hx as <-. by exists y. }
    edestruct (IH (nextLevel level) (Nat.div2 i)) as (root & Hlast & Hfold);
      [|by apply nextLevel_lookup|].
    { rewrite nextLevel_length, Nat.div2_div.
      pose proof (Nat.div_mod_eq (S (length level)) 2).
      pose proof (Nat.mod_upper_bound (S (length level)) 2). lia. }
    exists root. assert (∃ l ls, build_levels fuel (nextLevel level) = l :: ls) as (l & ls & Hb).
    { destruct fuel; cbn [build_levels]; [eauto|].
      destruct (1 <? length (nextLevel level))%nat; eauto. }
    rewrite Hb in *. split; [exact Hlast|]. cbn [proof_loop].
    destruct (level !! (if Nat.even i then S i else pred i)) as [node|]; [|exact Hfold].
    cbn [app]. rewrite fold_step. exact Hfold.
Qed.
End merkle.

(** ** Building *)
Lemma sort_entries_perm l : sort_entries l ≡ₚ l.
Proof. apply sort_by_perm. Qed.
Lemma map_outcome_lookup {A B} (f : A → outcome B) l ys i x :
  map_outcome f l = Ok ys → l !! i = Some x → ∃ y, f x = Ok y ∧ ys !! i = Some y.
Proof.
  revert ys i. induction l as [|a l IH]; intros ys i; [done|]. cbn.
  destruct (f a) as [b|] eqn:Hf; [|done]. destruct (map_outcome f l) as [bs|] eqn:Hm; [|done].
  intros [= <-]. destruct i as [|i]; [intros [= <-]; by exists b|]. intros Hi.
  by apply (IH bs i).
Qed.
Lemma map_outcome_length {A B} (f : A → outcome B) l ys :
  map_outcome f l = Ok ys → length ys = length l.
Proof.
  revert ys. induction l as [|a l IH]; intros ys; cbn; [by intros [= <-]|].
  destruct (f a); [|done]. destruct (map_outcome f l); [|done].
  intros [= <-]. cbn. by rewrite (IH _ eq_refl).
Qed.

Lemma find_address_some a l n :
  find_address a l = Some n → ∃ e, l !! n = Some e ∧ re_address e = a.
Proof.
  revert n. induction l as [|e l IH]; intros n; [done|]. cbn.
  destruct (String.eqb_spec (re_address e) a) as [Ha|].
  - intros [= <-]. by exists e.
  - destruct (find_address a l) as [k|]; [|done]. intros [= <-]. by apply IH.
Qed.
Lemma find_address_none a l : find_address a l = None ↔ a ∉ (re_address <$> l).
Proof.
  induction l as [|e l IH]; [split; [intros _; apply not_elem_of_nil|done]|].
  rewrite fmap_cons, not_elem_of_cons. cbn.
  destruct (String.eqb_spec (re_address e) a) as [->|Hne]; [naive_solver|].
  rewrite <- IH. destruct (find_address a l); naive_solver.
Qed.

(** A hash to run the tree on: it keeps the sum and the length of its input. *)
Module Examples.
Definition toy_hash (b : bytes) : bytes :=
  let n := foldr (λ x acc, (Z.of_N (Byte.to_N x) + 31 * acc) mod 65521) 7 b in le_bytes 4 n.
Definition toy_xdr (a : string) : outcome bytes := Ok (utf8 a).
Definition entries : list RewardEntry := [mkEntry "GC" 30; mkEntry "GA" 10; mkEntry "GB" 20].
Definition tree : MerkleTree :=
  match buildMerkleTree toy_hash toy_xdr entries 1 with
  | Ok t => t
  | Throw _ => mkTree None [] [] []
  end.
Lemma built : buildMerkleTree toy_hash toy_xdr entries 1 = Ok tree.
Proof. reflexivity. Qed.
End Examples.

(** ** Properties *)

(** C12: every proof served verifies.  For any hash, when a tree is built from
    entries, each entry of the tree has a proof, and folding that entry's leaf
    up the proof gives exactly the published root; an address is answered
    with such a proof when it has an entry and with null when it has none. *)
Theorem merkle_proofs_verify sha256 address_xdr entries epochId t :
  buildMerkleTree sha256 address_xdr entries epochId = Ok t →
  mt_entries t ≡ₚ entries ∧
  (∀ i e, mt_entries t !! i = Some e → ∃ leaf proof root,
     computeLeaf sha256 address_xdr (re_address e) epochId (re_amount e) = Ok leaf ∧
     proofFor t (Z.of_nat i) = Ok proof ∧ mt_root t = Some root ∧
     verifyProof sha256 leaf proof root = true) ∧
  (∀ a, a ∈ (re_address <$> entries) → ∃ e leaf proof root, e ∈ entries ∧ re_address e = a ∧
     computeLeaf sha256 address_xdr a epochId (re_amount e) = Ok leaf ∧
     proofForAddress t a = Ok (Some proof) ∧ mt_root t = Some root ∧
     verifyProof sha256 leaf proof root = true) ∧
  (∀ a, a ∉ (re_address <$> entries) → proofForAddress t a = Ok None).
Proof.
  unfold buildMerkleTree. destruct (map_outcome _ _) as [leaves|] eqn:Hm; [|done]. intros [= <-].
  cbn [mt_entries mt_root].
  assert (∀ i e, sort_entries entries !! i = Some e → ∃ leaf proof root,
    computeLeaf sha256 address_xdr (re_address e) epochId (re_amount e) = Ok leaf ∧
    proofFor (mkTree
      (match last (levels_of sha256 leaves) with Some (node :: _) => Some (to_hex node) | _ => None end)
      (sort_entries entries) (to_hex <$> leaves) (levels_of sha256 leaves)) (Z.of_nat i) = Ok proof ∧
    match last (levels_of sha256 leaves) with Some (node :: _) => Some (to_hex node) | _ => None end
      = Some root ∧
    verifyProof sha256 leaf proof root = true) as Hproof.
  { intros i e He. destruct (map_outcome_lookup _ _ _ _ _ Hm He) as (leaf & Hleaf & Hi).
    pose proof (lookup_lt_Some _ _ _ He) as Hlt. pose proof (lookup_lt_Some _ _ _ Hi) as Hlt'.
    assert (levels_of sha256 leaves = build_levels sha256 (length leaves) leaves) as Hlv.
    { unfold levels_of. by rewrite (proj2 (Nat.ltb_lt _ _)) by lia. }
    destruct (build_levels_path sha256 (length leaves) leaves i leaf) as (root & Hlast & Hfold);
      [lia|done|].
    exists leaf, (proof_loop (levels_of sha256 leaves) i), (to_hex root).
    rewrite Hlv, Hlast. split_and!; [done| |done|].
    - unfold proofFor. cbn [mt_entries mt_levels]. rewrite Nat2Z.id.
      by rewrite (proj2 (Z.ltb_ge _ _)), (proj2 (Z.leb_gt _ _)) by lia.
    - unfold verifyProof. rewrite Hfold. apply String.eqb_refl. }
  split_and!; [apply sort_entries_perm|exact Hproof| |].
  - intros a Ha. destruct (find_address a (sort_entries entries)) as [n|] eqn:Hf.
    2:{ apply find_address_none in Hf. by rewrite sort_entries_perm in Hf. }
    destruct (find_address_some _ _ _ Hf) as (e & He & <-).
    destruct (Hproof _ _ He) as (leaf & proof & root & H1 & H2 & H3 & H4).
    exists e, leaf, proof, root. split_and!; try done.
    + rewrite <- (sort_entries_perm entries). by eapply list_elem_of_lookup_2.
    + unfold proofForAddress. cbn [mt_entries]. by rewrite Hf, H2.
  - intros a Ha. unfold proofForAddress. cbn [mt_entries].
    by rewrite (proj2 (find_address_none _ _)) by (by rewrite sort_entries_perm).
Qed.

Lemma merkle_proofs_verify_witness :
  ∃ proof, proofForAddress Examples.tree "GB" = Ok (Some proof) ∧
    proofForAddress Examples.tree "GZ" = Ok None.
Proof.
  destruct (merkle_proofs_verify Examples.toy_hash Examples.toy_xdr Examples.entries 1 Examples.tree
    Examples.built) as (_ & _ & H1 & H2).
  destruct (H1 "GB") as (e & leaf & proof & root & _ & _ & _ & H & _);
    [apply (bool_decide_unpack _); vm_compute; exact I|].
  exists proof. split; [exact H|]. apply H2. apply (bool_decide_unpack _); vm_compute; exact I.
Defined.

(** The tree is a function of the set of rewards.  When no address occurs
    twice, the order in which the entries come does not matter: the whole tree
    and its root are the same.  An empty epoch has no root. *)
Theorem merkle_order_independent sha256 address_xdr entries entries' epochId :
  NoDup (re_address <$> entries) → entries ≡ₚ entries' →
  buildMerkleTree sha256 address_xdr entries epochId =
    buildMerkleTree sha256 address_xdr entries' epochId ∧
  (entries = [] → ∃ t, buildMerkleTree sha256 address_xdr entries epochId = Ok t ∧ mt_root t = None).
Proof.
  intros Hn Hp. split; [|intros ->; by eexists].
  unfold buildMerkleTree, sort_entries. by rewrite (sort_by_canonical re_address _ _ Hn Hp).
Qed.

Lemma merkle_order_independent_witness :
  buildMerkleTree Examples.toy_hash Examples.toy_xdr (rev Examples.entries) 1 = Ok Examples.tree.
Proof.
  destruct (merkle_order_independent Examples.toy_hash Examples.toy_xdr Examples.entries
    (rev Examples.entries) 1) as [H _].
  - apply (bool_decide_unpack _); vm_compute; exact I.
  - cbn. solve_Permutation.
  - rewrite <- H. exact Examples.built.
Defined.
