(* ===== verification/RewardEpochs.v ===== *)
(** * Reward epochs

    [backend/src/voting-rewards/store.ts] and [publisher.ts], and the cycle of
    [backend/src/jobs/voting-rewards-epoch.ts]: which epochs are computed, what
    is stored for them, and what is sent to the chain.  The rewards contract and
    the governor, reached through the SDK's clients, are the class
    [RewardsClient] over a state of the chain. *)

From stdpp Require Import sorting.
From S2P Require Import Prelude.
From S2P Require Import SdkTypes.
From S2P Require Import JsValues Cache IndexerDb.
From S2P Require Import AddressOrder.
From S2P Require Import Merkle.
From S2P Require Import Rewards.
Open Scope Z_scope.

(** ** The tables *)
Record StoredEpoch := mkStoredEpoch {
  se_epochId : Z; se_startLedger : Z; se_endLedger : Z; se_merkleRoot : option string;
  se_totalRewardAmount : Z; se_published : bool; se_publishProposalId : option Z }.
#[export] Instance StoredEpoch_eta : Eta StoredEpoch := λ e, mkStoredEpoch (se_epochId e) (se_startLedger e)
  (se_endLedger e) (se_merkleRoot e) (se_totalRewardAmount e) (se_published e) (se_publishProposalId e).
Record StoredClaim := mkStoredClaim { sc_amount : Z; sc_merkleProof : list string; sc_claimed : bool }.

Record RewardDb := mkRewardDb {
  voting_reward_epochs : gmap Z StoredEpoch;
  voting_reward_claims : gmap (Z * string) StoredClaim }.
#[export] Instance RewardDb_eta : Eta RewardDb := λ d, mkRewardDb (voting_reward_epochs d) (voting_reward_claims d).

(** ** The chain *)
Definition is_terminal_state (s : ProposalState) : bool :=
  match s with Executed | Defeated | Cancelled | Expired => true | _ => false end.

Record VotingRewardsEpoch := mkOnchainEpoch {
  oe_id : Z; oe_startLedger : Z; oe_endLedger : Z; oe_merkleRoot : option string; oe_totalRewardAmount : Z;
  oe_claimedAmount : Z; oe_finalized : bool }.

(** A call of [publish_epoch_root]. *)
Record PublishCall := mkPublishCall { pc_epochId : Z; pc_merkleRoot : string; pc_totalRewardAmount : Z }.

(** What the backend asks of the chain.  Reading does not change it. *)
Class RewardsClient (Chain : Type) := {
  getCurrentEpochId : Chain → outcome Z;
  getOnchainEpoch : Z → Chain → outcome (option VotingRewardsEpoch);
  getAvailablePool : Chain → outcome Z;
  getAdmin : Chain → outcome string;
  getProposalState : Z → Chain → outcome ProposalState;
  submitPublish : PublishCall → M Chain string;
  submitProposal : string → PublishCall → M Chain Z;
  submitStartNextEpoch : M Chain string;
}.

(** What is sent to it. *)
Inductive Sent := SentPublish (call : PublishCall) | SentProposal (call : PublishCall) | SentRoll.

(** The variables of the environment; [env_relayer] is the public key of the
    secret in [RELAYER_SECRET_KEY], when it is one. *)
Record RewardsEnv := mkRewardsEnv {
  env_votingRewards : option string;
  env_governor : option string;
  env_votes : option string;
  env_timelock : option string;
  env_budget : option string;
  env_relayer : option string;
  env_autoRoll : option string }.
(** [buildVotingRewardsClient() !== null], [buildGovernorClient() !== null] *)
Definition buildVotingRewardsClient (env : RewardsEnv) : bool :=
  is_set (env_votingRewards env) && is_set (env_governor env) && is_set (env_votes env) && is_set (env_timelock env).
Definition buildGovernorClient (env : RewardsEnv) : bool :=
  is_set (env_governor env) && is_set (env_votes env) && is_set (env_timelock env).

Record State (Chain : Type) := mkState { st_indexed : Db; st_store : RewardDb; st_chain : Chain; st_sent : list Sent }.
Arguments mkState {Chain} _ _ _ _.
Arguments st_indexed {Chain} _.
Arguments st_store {Chain} _.
Arguments st_chain {Chain} _.
Arguments st_sent {Chain} _.
#[export] Instance State_eta {Chain} : Eta (State Chain) := λ s,
  mkState (st_indexed s) (st_store s) (st_chain s) (st_sent s).

Definition EMPTY_EPOCH_ROOT : string := "0000000000000000000000000000000000000000000000000000000000000000".

(** The parts of the description, one to a line. *)
Definition publish_description (epoch : StoredEpoch) (root : string) : string :=
  String.concat newline
    ["Publish voting rewards Merkle root for epoch " +:+ decimal (se_epochId epoch) +:+ " (automated)"; "";
     "ledgers: " +:+ decimal (se_startLedger epoch) +:+ " – " +:+ decimal (se_endLedger epoch);
     "merkle_root: " +:+ root; "total_reward_amount: " +:+ decimal (se_totalRewardAmount epoch)].

(** [getEpochBudget] *)
Definition getEpochBudget (raw : option string) : option Z :=
  match raw with
  | None | Some EmptyString => None
  | Some text => budget ← text_integer text; if 0 <? budget then Some budget else None
  end.

(** The client answers for the epoch it is asked for. *)
Class RewardsClientLaws (Chain : Type) `{!RewardsClient Chain} : Prop :=
  getOnchainEpoch_id : ∀ id c e, getOnchainEpoch id c = Ok (Some e) → oe_id e = id.

Section epochs.
Context `{Runtime} {Chain : Type} `{!RewardsClient Chain}.
Context (sha256 : bytes → bytes) (address_xdr : string → outcome bytes).
Implicit Types (env : RewardsEnv) (s : State Chain).

(** Reading the chain, and sending to it. *)
Definition ask {A} (f : Chain → outcome A) : M (State Chain) A := λ s, (f (st_chain s), s).
Definition send {A} (sent : Sent) (m : M Chain A) : M (State Chain) A := λ s,
  let '(o, c) := m (st_chain s) in (o, s <| st_chain := c |> <| st_sent ::= (λ l, l ++ [sent]) |>).

(** [try { await m } catch {}] *)
Definition attempt {A} (m : M (State Chain) A) : M (State Chain) unit := λ s, (Ok tt, (m s).2).

(** A statement, or a transaction, on the tables: refused as a whole, it
    changes nothing. *)
Definition store_query (f : RewardDb → option RewardDb) : M (State Chain) unit :=
  s ← get;
  match f (st_store s) with
  | Some d => modify (λ s, s <| st_store := d |>)
  | None => throw (PlainError "the database refuses the statement")
  end.

(** ** store.ts *)
Definition upsert_epoch (id start end_ total : JsValue) (root : JsValue) (d : RewardDb) : option RewardDb :=
  id ← BIGINT id; start ← INTEGER start; end_ ← INTEGER end_; root ← nullable (VARCHAR 64) root;
  total ← NUMERIC 38 total;
  Some (d <| voting_reward_epochs ::= (λ m, <[id :=
    match m !! id with
    | Some old => old <| se_startLedger := start |> <| se_endLedger := end_ |> <| se_merkleRoot := root |>
                      <| se_totalRewardAmount := total |>
    | None => mkStoredEpoch id start end_ root total false None
    end]> m) |>).
Definition delete_claims (id : Z) (d : RewardDb) : option RewardDb :=
  Some (d <| voting_reward_claims ::= (base.filter (λ kv, kv.1.1 ≠ id)) |>).
Definition insert_claim (claim : Z * string * Z * list string) (d : RewardDb) : option RewardDb :=
  let '(id, address, amount, proof) := claim in
  id ← BIGINT (VStr (decimal id)); address ← VARCHAR 56 (VStr address); amount ← NUMERIC 38 (VStr (decimal amount));
  match voting_reward_claims d !! (id, address) with
  | Some _ => None
  | None => Some (d <| voting_reward_claims ::= <[(id, address) := mkStoredClaim amount proof false]> |>)
  end.
Fixpoint insert_claims (claims : list (Z * string * Z * list string)) (d : RewardDb) : option RewardDb :=
  match claims with
  | [] => Some d
  | claim :: rest => insert_claim claim d ≫= insert_claims rest
  end.
Definition saveComputedEpoch (epoch : StoredEpoch) (claims : list (Z * string * Z * list string)) : M (State Chain) unit :=
  store_query (λ d,
    d ← upsert_epoch (VStr (decimal (se_epochId epoch))) (VNum (se_startLedger epoch)) (VNum (se_endLedger epoch))
      (VStr (decimal (se_totalRewardAmount epoch)))
      (match se_merkleRoot epoch with Some root => VStr root | None => VNull end) d;
    d ← delete_claims (se_epochId epoch) d;
    insert_claims claims d).

Definition update_epoch (f : StoredEpoch → StoredEpoch) (id : Z) : M (State Chain) unit :=
  store_query (λ d, id ← BIGINT (VStr (decimal id)); Some (d <| voting_reward_epochs ::= (alter f id) |>)).
Definition recordPublishProposal (epochId proposalId : Z) : M (State Chain) unit :=
  match BIGINT (VStr (decimal proposalId)) with
  | Some proposalId => update_epoch (λ e, e <| se_publishProposalId := Some proposalId |>) epochId
  | None => throw (PlainError "the database refuses the statement")
  end.
Definition markEpochPublished (epochId : Z) : M (State Chain) unit :=
  update_epoch (λ e, e <| se_published := true |>) epochId.
Definition getEpoch (epochId : Z) : M (State Chain) (option StoredEpoch) :=
  match BIGINT (VStr (decimal epochId)) with
  | Some id => gets (λ s, voting_reward_epochs (st_store s) !! id)
  | None => throw (PlainError "the database refuses the statement")
  end.
Definition highest_published (m : gmap Z StoredEpoch) : option Z :=
  foldr (λ kv acc, if se_published kv.2 then Some (match acc with Some k => Z.max kv.1 k | None => kv.1 end) else acc)
    None (map_to_list m).
Definition getHighestPublishedEpochId : M (State Chain) (option Z) :=
  gets (λ s, highest_published (voting_reward_epochs (st_store s))).
Definition markClaimed (epochId : Z) (claimant : string) : M (State Chain) unit :=
  store_query (λ d, id ← BIGINT (VStr (decimal epochId)); Some (d <| voting_reward_claims ::=
    (alter (λ c, mkStoredClaim (sc_amount c) (sc_merkleProof c) true) (id, claimant)) |>)).

(** ** publisher.ts *)
Inductive PublishOutcome := Published (hash : string) | Proposed (proposalId : Z) | Skipped (reason : string).

(** A state that cannot be read counts as unresolved. *)
Definition findUnresolvedPublishProposal (epoch : StoredEpoch) : M (State Chain) (option Z) :=
  match se_publishProposalId epoch with
  | None => mret None
  | Some proposalId => λ s,
    match getProposalState proposalId (st_chain s) with
    | Ok state => (Ok (if is_terminal_state state then None else Some proposalId), s)
    | Throw _ => (Ok (Some proposalId), s)
    end
  end.

Definition publishEpochRoot env (epoch : StoredEpoch) : M (State Chain) PublishOutcome :=
  let root := default EMPTY_EPOCH_ROOT (se_merkleRoot epoch) in
  let call := mkPublishCall (se_epochId epoch) root (se_totalRewardAmount epoch) in
  admin ← ask getAdmin;
  if bool_decide (env_relayer env = Some admin) then
    hash ← send (SentPublish call) (submitPublish call);
    markEpochPublished (se_epochId epoch);;
    mret (Published hash)
  else if bool_decide (env_governor env ≠ Some admin) then
    mret (Skipped "the voting-rewards admin is neither this backend's relayer key nor the configured governor — publish the root manually")
  else match env_relayer env with
  | None => mret (Skipped "RELAYER_SECRET_KEY is not configured, so no proposal can be submitted")
  | Some _ =>
    if negb (buildGovernorClient env) then mret (Skipped "governor contract addresses are not fully configured")
    else
      pending ← findUnresolvedPublishProposal epoch;
      match pending with
      | Some p => mret (Skipped ("publish proposal " +:+ decimal p +:+ " for this epoch has not resolved yet"))
      | None =>
        proposalId ← send (SentProposal call) (submitProposal (publish_description epoch root) call);
        recordPublishProposal (se_epochId epoch) proposalId;;
        mret (Proposed proposalId)
      end
  end.

(** ** voting-rewards-epoch.ts *)

(** The rows of the claims, each with its proof. *)
Definition claims_of_tree (id : Z) (tree : MerkleTree) : outcome (list (Z * string * Z * list string)) :=
  map_outcome (λ entry,
    match proofFor tree (Z.of_nat entry.1) with
    | Ok proof => Ok (id, re_address entry.2, re_amount entry.2, proof)
    | Throw e => Throw e
    end) (imap pair (mt_entries tree)).

Definition computeEpoch (onchain : VotingRewardsEpoch) (budget : Z) : M (State Chain) StoredEpoch :=
  available ← ask getAvailablePool;
  let effectiveBudget := if budget <? available then budget else available in
  eligibility ← gets (λ s,
    computeEpochEligibility (oe_startLedger onchain) (oe_endLedger onchain) effectiveBudget (st_indexed s));
  tree ← ask (λ _, buildMerkleTree sha256 address_xdr
    ((λ a, mkEntry (ra_address a) (ra_amount a)) <$> allocations eligibility) (oe_id onchain));
  claims ← ask (λ _, claims_of_tree (oe_id onchain) tree);
  saveComputedEpoch (mkStoredEpoch (oe_id onchain) (oe_startLedger onchain) (oe_endLedger onchain) (mt_root tree)
    (totalRewardAmount eligibility) false None) claims;;
  stored ← getEpoch (oe_id onchain);
  unwrap stored (PlainError ("voting-rewards: epoch " +:+ decimal (oe_id onchain) +:+ " vanished right after being saved")).

(** One round of the loop; [false] is [break]. *)
Definition cycle_round env (budget indexedHeight epochId : Z) : M (State Chain) bool :=
  found ← ask (getOnchainEpoch epochId);
  match found with
  | None => mret false
  | Some onchain =>
    if indexedHeight <? oe_endLedger onchain then mret false
    else
      known ← getEpoch epochId;
      stored ← match known with Some e => mret e | None => computeEpoch onchain budget end;
      if oe_finalized onchain then markEpochPublished epochId;; mret true
      else
        outcome ← publishEpochRoot env stored;
        mret (match outcome with Skipped _ => false | _ => true end)
  end.
(** [n] rounds from [epochId]. *)
Fixpoint cycle_from env (budget indexedHeight : Z) (n : nat) (epochId : Z) : M (State Chain) unit :=
  match n with
  | O => mret tt
  | S n =>
    continue ← cycle_round env budget indexedHeight epochId;
    if (continue : bool) then cycle_from env budget indexedHeight n (epochId + 1) else mret tt
  end.

Definition maybeRollEpoch env (currentEpochId indexedHeight : Z) : M (State Chain) unit :=
  if negb (bool_decide (env_autoRoll env = Some "true")) then mret tt
  else match env_relayer env with
  | None => mret tt
  | Some _ =>
    current ← ask (getOnchainEpoch currentEpochId);
    match current with
    | None => mret tt
    | Some current =>
      if indexedHeight <? oe_endLedger current then mret tt
      else attempt (send SentRoll submitStartNextEpoch)
    end
  end.

Definition runCycle env : M (State Chain) unit :=
  match getEpochBudget (env_budget env) with
  | Some budget =>
    if buildVotingRewardsClient env then
      currentEpochId ← ask getCurrentEpochId;
      indexedHeight ← gets (λ s, getIndexedLedgerHeight (st_indexed s));
      highestPublished ← getHighestPublishedEpochId;
      let epochId := match highestPublished with None => 0 | Some id => id + 1 end in
      cycle_from env budget indexedHeight (Z.to_nat (currentEpochId + 1 - epochId)) epochId;;
      maybeRollEpoch env currentEpochId indexedHeight
    else mret tt
  | None => mret tt
  end.
End epochs.
