(* ===== verification/RewardHistory.v ===== *)
(** * Histories of reward epochs

    What holds in every history of reward cycles: stored claims can be made
    and stay as they are, every epoch has one root, and when a publication is
    proposed again.  The invariant is carried through a cycle by [steps], the
    weakest precondition of a run that only makes allowed changes. *)

From stdpp Require Import sorting.
From S2P Require Import Prelude.
From S2P Require Import SdkTypes.
From S2P Require Import JsValues Cache IndexerDb.
From S2P Require Import AddressOrder.
From S2P Require Import Merkle.
From S2P Require Import Rewards.
From S2P Require Import RewardEpochs.
From S2P Require Indexer.
Open Scope Z_scope.

(** ** The tables after a transaction *)
Definition claims_total (id : Z) (d : RewardDb) : Z :=
  sum_list_Z ((λ kv, if decide (kv.1.1 = id) then sc_amount kv.2 else 0) <$> map_to_list (voting_reward_claims d)).

Section tables.
Context `{Runtime}.

Lemma upsert_epoch_fresh e d d' :
  voting_reward_epochs d !! se_epochId e = None →
  upsert_epoch (VStr (decimal (se_epochId e))) (VNum (se_startLedger e)) (VNum (se_endLedger e))
    (VStr (decimal (se_totalRewardAmount e)))
    (match se_merkleRoot e with Some root => VStr root | None => VNull end) d = Some d' →
  voting_reward_claims d' = voting_reward_claims d ∧
  voting_reward_epochs d' = <[se_epochId e := mkStoredEpoch (se_epochId e) (se_startLedger e) (se_endLedger e)
    (se_merkleRoot e) (se_totalRewardAmount e) false None]> (voting_reward_epochs d).
Proof.
  intros Hnew. unfold upsert_epoch.
  intros (id & ->%BIGINT_decimal & (st & ->%INTEGER_num & (en & ->%INTEGER_num & (root & Hroot &
    (total & ->%NUMERIC_decimal & [= <-])%bind_Some)%bind_Some)%bind_Some)%bind_Some)%bind_Some.
  cbn. rewrite Hnew. split; [done|].
  assert (root = se_merkleRoot e) as ->; [|done].
  destruct (se_merkleRoot e) as [t|]; cbn in Hroot; [|congruence].
  apply fmap_Some in Hroot as (t' & Ht & ->). cbn in Ht. apply VARCHAR_text in Ht. congruence.
Qed.

Definition claim_row (claim : Z * string * Z * list string) : (Z * string) * StoredClaim :=
  let '(id, address, amount, proof) := claim in ((id, address), mkStoredClaim amount proof false).
Lemma insert_claims_rows claims d d' :
  insert_claims claims d = Some d' →
  voting_reward_epochs d' = voting_reward_epochs d ∧
  map_to_list (voting_reward_claims d') ≡ₚ (claim_row <$> claims) ++ map_to_list (voting_reward_claims d).
Proof.
  revert d. induction claims as [|[[[id a] amount] proof] claims IH]; intros d; cbn [insert_claims].
  { intros [= <-]. done. }
  intros (d1 & H1 & [He Hp]%IH)%bind_Some. unfold insert_claim in H1.
  apply bind_Some in H1 as (id' & ->%BIGINT_decimal & H1).
  apply bind_Some in H1 as (a' & ->%VARCHAR_text & H1).
  apply bind_Some in H1 as (amount' & ->%NUMERIC_decimal & H1).
  destruct (voting_reward_claims d !! (id, a)) eqn:Hk; [done|]. injection H1 as <-. split; [done|].
  rewrite Hp. cbn. rewrite map_to_list_insert by done. solve_Permutation.
Qed.

Lemma delete_claims_rows id d d' :
  delete_claims id d = Some d' →
  voting_reward_epochs d' = voting_reward_epochs d ∧
  (∀ k c, voting_reward_claims d' !! k = Some c ↔ voting_reward_claims d !! k = Some c ∧ k.1 ≠ id).
Proof.
  intros [= <-]. split; [done|]. intros k c. cbn. by rewrite map_lookup_filter_Some.
Qed.
End tables.

(** ** What a cycle keeps *)
Section cycle.
Context `{Runtime} {Chain : Type} `{!RewardsClient Chain} `{!RewardsClientLaws Chain}.
Context (sha256 : bytes → bytes) (address_xdr : string → outcome bytes).
Implicit Types (s : State Chain).

(** A stored claim can be made: its proof leads from its leaf to the root that
    is stored for its epoch. *)
Definition provable (e : StoredEpoch) (id : Z) (a : string) (c : StoredClaim) : Prop :=
  0 < sc_amount c ∧ ∃ leaf root, computeLeaf sha256 address_xdr a id (sc_amount c) = Ok leaf ∧
    se_merkleRoot e = Some root ∧ verifyProof sha256 leaf (sc_merkleProof c) root = true.
Record consistent (height : Z) (d : RewardDb) : Prop := mkConsistent {
  epoch_rows : ∀ id e, voting_reward_epochs d !! id = Some e →
    se_epochId e = id ∧ se_endLedger e ≤ height ∧ claims_total id d = se_totalRewardAmount e;
  claim_rows : ∀ id a c, voting_reward_claims d !! (id, a) = Some c →
    ∃ e, voting_reward_epochs d !! id = Some e ∧ provable e id a c }.
Definition Inv s : Prop := consistent (last_ledger (st_indexed s)) (st_store s).

(** What is stored of an epoch, apart from how far its publication is. *)
Definition same_epoch (e e' : StoredEpoch) : Prop :=
  se_startLedger e' = se_startLedger e ∧ se_endLedger e' = se_endLedger e ∧
  se_merkleRoot e' = se_merkleRoot e ∧ se_totalRewardAmount e' = se_totalRewardAmount e.
(** What a claim promises; whether it was taken is not part of it. *)
Definition promised (c : StoredClaim) : Z * list string := (sc_amount c, sc_merkleProof c).
Definition kept (d d' : RewardDb) : Prop := ∀ id e, voting_reward_epochs d !! id = Some e →
  (∃ e', voting_reward_epochs d' !! id = Some e' ∧ same_epoch e e' ∧ (se_published e → se_published e')) ∧
  (∀ a, promised <$> voting_reward_claims d' !! (id, a) = promised <$> voting_reward_claims d !! (id, a)).

(** A message carries what is stored for its epoch. *)
Definition backed (d : RewardDb) (message : Sent) : Prop :=
  match message with
  | SentPublish call | SentProposal call => ∃ e, voting_reward_epochs d !! pc_epochId call = Some e ∧
      pc_merkleRoot call = default EMPTY_EPOCH_ROOT (se_merkleRoot e) ∧
      pc_totalRewardAmount call = se_totalRewardAmount e
  | SentRoll => True
  end.

Record step s s' : Prop := mkStep {
  step_indexed : st_indexed s' = st_indexed s;
  step_inv : Inv s';
  step_kept : kept (st_store s) (st_store s');
  step_sent : ∃ new, st_sent s' = st_sent s ++ new ∧ Forall (backed (st_store s')) new }.

Lemma kept_refl d : kept d d.
Proof. intros id e He. split; [|done]. exists e. by repeat split. Qed.
Lemma kept_trans d1 d2 d3 : kept d1 d2 → kept d2 d3 → kept d1 d3.
Proof.
  intros H1 H2 id e He. destruct (H1 id e He) as ((e2 & He2 & Hs2 & Hp2) & Hc2).
  destruct (H2 id e2 He2) as ((e3 & He3 & Hs3 & Hp3) & Hc3). split; [|intros a; by rewrite Hc3].
  destruct Hs2 as (? & ? & ? & ?), Hs3 as (? & ? & ? & ?). exists e3. split; [done|].
  split; [|auto]. repeat split; congruence.
Qed.
Lemma backed_kept d d' message : kept d d' → backed d message → backed d' message.
Proof.
  intros Hk. destruct message as [call|call|]; cbn; [..|done]; intros (e & He & Hr & Ht);
    destruct (Hk _ _ He) as ((e' & He' & (_ & _ & Hroot & Htotal) & _) & _); exists e'; split; try done;
    by rewrite Hroot, Htotal.
Qed.
Lemma step_refl s : Inv s → step s s.
Proof. intros HI. split; [done|done|apply kept_refl|]. exists []. by rewrite app_nil_r. Qed.
Lemma step_trans s1 s2 s3 : step s1 s2 → step s2 s3 → step s1 s3.
Proof.
  intros [Hi1 _ Hk1 (n1 & Hs1 & Hb1)] [Hi2 HI2 Hk2 (n2 & Hs2 & Hb2)].
  split; [congruence|done|by eapply kept_trans|]. exists (n1 ++ n2). rewrite Hs2, Hs1. split; [by rewrite <- app_assoc|].
  apply Forall_app. split; [|done]. eapply Forall_impl; [exact Hb1|]. intros m. by apply backed_kept.
Qed.

(** A run of steps, with what it returns. *)
Definition steps {A} (m : M (State Chain) A) (Q : A → State Chain → Prop) s : Prop :=
  wp m (λ a s', step s s' ∧ Q a s') (λ _, step s) s.
Lemma steps_bind {A B} (m : M (State Chain) A) (k : A → M (State Chain) B) P Q s :
  steps m P s → (∀ a s1, step s s1 → P a s1 → steps (k a) Q s1) → steps (m ≫= k) Q s.
Proof.
  unfold steps. intros Hm Hk. apply wp_bind. eapply wp_mono; [exact Hm| |done]. intros a s1 [Hs HP].
  eapply wp_mono; [exact (Hk a s1 Hs HP)| |]; cbn.
  - intros b s2 [Hs2 HQ]. split; [by eapply step_trans|done].
  - intros e s2 Hs2. by eapply step_trans.
Qed.
Lemma steps_mono {A} (m : M (State Chain) A) P Q s :
  steps m P s → (∀ a s', P a s' → Q a s') → steps m Q s.
Proof. unfold steps. intros Hm HPQ. eapply wp_mono; [exact Hm| |done]. naive_solver. Qed.
Lemma steps_ret {A} (a : A) (Q : A → State Chain → Prop) s : Inv s → Q a s → steps (mret a) Q s.
Proof. intros HI HQ. split; [by apply step_refl|done]. Qed.
Lemma steps_throw {A} e (Q : A → State Chain → Prop) s : Inv s → steps (throw e) Q s.
Proof. intros HI. by apply step_refl. Qed.
Lemma steps_ask {A} (f : Chain → outcome A) s : Inv s → steps (ask f) (λ a s', s' = s ∧ f (st_chain s) = Ok a) s.
Proof. intros HI. unfold steps, wp, ask. destruct (f (st_chain s)); [split; [by apply step_refl|done]|by apply step_refl]. Qed.
Lemma steps_gets {A} (f : State Chain → A) s : Inv s → steps (gets f) (λ a s', s' = s ∧ a = f s) s.
Proof. intros HI. split; [by apply step_refl|done]. Qed.
Lemma steps_send {A} (m : M Chain A) message s :
  Inv s → backed (st_store s) message →
  steps (send message m) (λ _ s', st_store s' = st_store s ∧ st_indexed s' = st_indexed s) s.
Proof.
  intros HI Hb. unfold steps, wp, send. destruct (m (st_chain s)) as [o c].
  assert (step s (s <| st_chain := c |> <| st_sent ::= (λ l, l ++ [message]) |>)) as Hstep.
  { split; cbn; [done|exact HI|apply kept_refl|]. exists [message]. split; [done|]. by constructor. }
  destruct o; [|exact Hstep]. by split.
Qed.
Lemma steps_getEpoch id s :
  Inv s → steps (getEpoch id) (λ o s', s' = s ∧ o = voting_reward_epochs (st_store s) !! id) s.
Proof.
  intros HI. unfold getEpoch. destruct (BIGINT _) as [id'|] eqn:Hid; [|by apply steps_throw].
  apply BIGINT_decimal in Hid as ->. exact (steps_gets (λ s, voting_reward_epochs (st_store s) !! id) s HI).
Qed.

(** A statement that changes only how far a publication is. *)
Lemma steps_update f id s :
  Inv s → (∀ e, same_epoch e (f e) ∧ se_epochId (f e) = se_epochId e ∧ (se_published e → se_published (f e))) →
  steps (update_epoch f id) (λ _ s', st_store s' =
    (st_store s) <| voting_reward_epochs ::= (alter f id) |>) s.
Proof.
  intros HI Hf. unfold steps, update_epoch, store_query. wp_step. wp_step.
  destruct (BIGINT _) as [id'|] eqn:Hid; cbn [mbind option_bind]; [|by apply step_refl].
  apply BIGINT_decimal in Hid as ->. wp_step.
  assert (∀ i e, alter f id (voting_reward_epochs (st_store s)) !! i = Some e → ∃ e0,
    voting_reward_epochs (st_store s) !! i = Some e0 ∧ same_epoch e0 e ∧ se_epochId e = se_epochId e0) as Hrow.
  { intros i e. rewrite lookup_alter_Some. intros [(-> & e0 & He0 & ->)|[_ He]].
    - exists e0. destruct (Hf e0) as (? & ? & _). done.
    - exists e. repeat split; done. }
  assert (∀ i e, voting_reward_epochs (st_store s) !! i = Some e → ∃ e', alter f id (voting_reward_epochs (st_store s)) !! i
    = Some e' ∧ same_epoch e e' ∧ (se_published e → se_published e')) as Hback.
  { intros i e He. destruct (decide (i = id)) as [->|Hne].
    - exists (f e). rewrite lookup_alter_eq, He. destruct (Hf e) as (? & ? & ?). done.
    - exists e. rewrite lookup_alter_ne by done. repeat split; done. }
  split; [|done]. split; cbn; [done| | |exists []; by rewrite app_nil_r].
  - split; cbn.
    + intros i e (e0 & He0 & (_ & Hend & _ & Htotal) & Heid)%Hrow. destruct (epoch_rows _ _ HI _ _ He0) as (? & ? & ?).
      rewrite Hend, Htotal, Heid. done.
    + intros i a c Hc. destruct (claim_rows _ _ HI _ _ _ Hc) as (e & He & Hpos & leaf & root & Hl & Hr & Hv).
      destruct (Hback _ _ He) as (e' & He' & (_ & _ & Hroot & _) & _). exists e'. split; [done|]. split; [done|].
      exists leaf, root. by rewrite Hroot.
  - intros i e He. split; [by apply Hback|done].
Qed.

(** ** Computing an epoch *)
Lemma claims_total_rows id d l :
  map_to_list (voting_reward_claims d) ≡ₚ l →
  claims_total id d = sum_list_Z ((λ kv, if decide (kv.1.1 = id) then sc_amount kv.2 else 0) <$> l).
Proof. intros Hp. unfold claims_total. apply sum_list_Z_perm. by rewrite Hp. Qed.

Lemma sum_of_others id (l : list ((Z * string) * StoredClaim)) :
  (∀ kv, kv ∈ l → kv.1.1 ≠ id) → sum_list_Z ((λ kv, if decide (kv.1.1 = id) then sc_amount kv.2 else 0) <$> l) = 0.
Proof.
  induction l as [|kv l IH]; intros Hl; [done|]. rewrite fmap_cons. cbn [sum_list_Z].
  rewrite decide_False by (apply Hl; by left). rewrite IH; [done|]. intros kv' Hkv. apply Hl. by right.
Qed.
Lemma sum_of_own id (l : list ((Z * string) * StoredClaim)) :
  (∀ kv, kv ∈ l → kv.1.1 = id) →
  sum_list_Z ((λ kv, if decide (kv.1.1 = id) then sc_amount kv.2 else 0) <$> l) = sum_list_Z ((λ kv, sc_amount kv.2) <$> l).
Proof.
  induction l as [|kv l IH]; intros Hl; [done|]. rewrite !fmap_cons. cbn [sum_list_Z].
  rewrite decide_True by (apply Hl; by left). rewrite IH; [done|]. intros kv' Hkv. apply Hl. by right.
Qed.

(** Saving an epoch that is not there, with claims that are its own. *)
Lemma steps_save e claims s :
  Inv s → voting_reward_epochs (st_store s) !! se_epochId e = None →
  se_endLedger e ≤ last_ledger (st_indexed s) → se_published e = false → se_publishProposalId e = None →
  sum_list_Z ((λ kv, sc_amount kv.2) <$> (claim_row <$> claims)) = se_totalRewardAmount e →
  (∀ k c, (k, c) ∈ claim_row <$> claims → k.1 = se_epochId e ∧ provable e (se_epochId e) k.2 c) →
  steps (saveComputedEpoch e claims) (λ _ s', voting_reward_epochs (st_store s') !! se_epochId e = Some e) s.
Proof.
  intros HI Hnew Hend Hpub Hprop Hsum Hclaims. unfold steps, saveComputedEpoch, store_query. wp_step. wp_step.
  match goal with |- wp (match ?o with _ => _ end) _ _ _ => destruct o as [d3|] eqn:Hd end; [|by apply step_refl].
  apply bind_Some in Hd as (d1 & [Hc1 He1]%(upsert_epoch_fresh e) & Hd); [|done].
  apply bind_Some in Hd as (d2 & [He2 Hc2]%delete_claims_rows & [He3 Hc3]%insert_claims_rows).
  assert (voting_reward_epochs d3 = <[se_epochId e := e]> (voting_reward_epochs (st_store s))) as Hrows.
  { rewrite He3, He2, He1. f_equal. destruct e; cbn in *. by subst. }
  (* no claim of the epoch was there *)
  assert (voting_reward_claims d2 = voting_reward_claims (st_store s)) as Hold.
  { apply map_eq. intros k. apply option_eq. intros c. rewrite Hc2, Hc1. split; [by intros []|]. intros Hc. split; [done|].
    intros Hk. destruct k as [id a]. destruct (claim_rows _ _ HI _ _ _ Hc) as (e' & He' & _). cbn in Hk. subst. congruence. }
  rewrite Hold in Hc3.
  assert (∀ k c, voting_reward_claims d3 !! k = Some c ↔
    (k, c) ∈ claim_row <$> claims ∨ voting_reward_claims (st_store s) !! k = Some c) as Hlook.
  { intros k c. by rewrite <- !elem_of_map_to_list, Hc3, elem_of_app. }
  wp_step. cbn. split; [|by rewrite Hrows, lookup_insert_eq].
  split; cbn; [done| | |exists []; by rewrite app_nil_r].
  - split; cbn.
    + intros id e'. rewrite Hrows, lookup_insert_Some. rewrite (claims_total_rows id d3 _ Hc3), fmap_app, sum_list_Z_app.
      intros [[<- <-]|[Hne He']].
      * split; [done|]. split; [done|]. rewrite <- Hsum, sum_of_own, sum_of_others; [lia| |].
        -- intros [[i a] c] Hin%elem_of_map_to_list Hk. cbn in Hk.
           destruct (claim_rows _ _ HI _ _ _ Hin) as (e' & He' & _). congruence.
        -- intros [k c] Hin. by apply Hclaims in Hin as [? _].
      * destruct (epoch_rows _ _ HI _ _ He') as (? & ? & Ht). split; [done|]. split; [done|]. rewrite <- Ht.
        rewrite sum_of_others; [done|]. intros [k c] Hin Hk. apply Hclaims in Hin as [Hk' _]. cbn in Hk. congruence.
    + intros id a c. rewrite Hlook. intros [Hin|Hin].
      * apply Hclaims in Hin as [Hk Hp]. cbn in Hk, Hp. subst id. exists e. by rewrite Hrows, lookup_insert_eq.
      * destruct (claim_rows _ _ HI _ _ _ Hin) as (e' & He' & Hp). exists e'. split; [|done].
        rewrite Hrows, lookup_insert_ne; [done|]. intros <-. congruence.
  - intros id e' He'. assert (id ≠ se_epochId e) as Hne by (intros ->; congruence). split.
    + exists e'. rewrite Hrows, lookup_insert_ne by done. repeat split; done.
    + intros a. f_equal. apply option_eq. intros c. rewrite Hlook. split; [|by right]. intros [Hin|]; [|done].
      apply Hclaims in Hin as [Hk _]. done.
Qed.

Lemma map_outcome_fmap {A B C} (f : A → outcome B) (g : B → C) (h : A → C) l ys :
  map_outcome f l = Ok ys → (∀ x y, f x = Ok y → g y = h x) → g <$> ys = h <$> l.
Proof.
  intros Hm Hf. revert ys Hm. induction l as [|x l IH]; intros ys; cbn; [by intros [= <-]|].
  destruct (f x) as [y|] eqn:Hy; [|done]. destruct (map_outcome f l) as [ys'|]; [|done]. intros [= <-].
  rewrite !fmap_cons, (Hf _ _ Hy). f_equal. by apply IH.
Qed.
Lemma claims_of_tree_rows id t claims :
  claims_of_tree id t = Ok claims →
  (λ kv, sc_amount kv.2) <$> (claim_row <$> claims) = re_amount <$> mt_entries t ∧
  (∀ k c, (k, c) ∈ claim_row <$> claims → ∃ i entry proof, mt_entries t !! i = Some entry ∧
    proofFor t (Z.of_nat i) = Ok proof ∧ k = (id, re_address entry) ∧ c = mkStoredClaim (re_amount entry) proof false).
Proof.
  intros Hm. split.
  - rewrite <- list_fmap_compose. unfold claims_of_tree in Hm.
    rewrite (map_outcome_fmap _ _ (λ p, re_amount p.2) _ _ Hm).
    + rewrite fmap_imap. apply list_eq. intros i. rewrite list_lookup_imap, list_lookup_fmap. done.
    + intros [i entry] y. cbn. destruct (proofFor _ _); [|done]. by intros [= <-].
  - intros k c ([[[id' a] amount] proof] & Hk & Hin)%list_elem_of_fmap. cbn in Hk. injection Hk as -> ->.
    apply list_elem_of_lookup in Hin as (i & Hi). pose proof (lookup_lt_Some _ _ _ Hi) as Hlt.
    rewrite (map_outcome_length _ _ _ Hm), length_imap in Hlt. apply lookup_lt_is_Some in Hlt as (entry & He).
    destruct (map_outcome_lookup _ _ _ i (i, entry) Hm) as (y & Hy & Hyi).
    { by rewrite list_lookup_imap, He. }
    rewrite Hi in Hyi. injection Hyi as <-. cbn in Hy. destruct (proofFor _ _) as [p|] eqn:Hp; [|done].
    injection Hy as <- <- <- <-. by exists i, entry, p.
Qed.

Lemma steps_computeEpoch onchain budget s :
  Inv s → voting_reward_epochs (st_store s) !! oe_id onchain = None →
  oe_endLedger onchain ≤ last_ledger (st_indexed s) →
  steps (computeEpoch sha256 address_xdr onchain budget) (λ e s',
    voting_reward_epochs (st_store s') !! oe_id onchain = Some e ∧ se_epochId e = oe_id onchain) s.
Proof.
  intros HI Hnew Hend. unfold computeEpoch.
  eapply steps_bind; [by apply steps_ask|]. intros available s1 _ [-> _]. cbv zeta.
  eapply steps_bind; [by apply steps_gets|]. intros el s1 _ [-> Hel].
  eapply steps_bind; [by apply steps_ask|]. intros tree s1 _ [-> Htree].
  eapply steps_bind; [by apply steps_ask|]. intros claims s1 _ [-> Hclaims].
  destruct (merkle_proofs_verify _ _ _ _ _ Htree) as (Hperm & Hproof & _ & _).
  destruct (claims_of_tree_rows _ _ _ Hclaims) as [Hamounts Hrows].
  eapply steps_bind.
  { apply steps_save; cbn; [done..| |].
    - rewrite Hamounts. transitivity (sum_list_Z (ra_amount <$> allocations el)).
      + apply sum_list_Z_perm. rewrite Hperm, <- list_fmap_compose. done.
      + subst el. symmetry. apply totals_spec.
    - intros k c Hin. destruct (Hrows _ _ Hin) as (i & entry & proof & Hi & Hp & -> & ->). split; [done|].
      destruct (Hproof _ _ Hi) as (leaf & proof' & root & Hleaf & Hp' & Hroot & Hv). rewrite Hp in Hp'. injection Hp' as <-.
      split; [|by exists leaf, root]. cbn. apply list_elem_of_lookup_2 in Hi. rewrite Hperm in Hi.
      apply list_elem_of_fmap in Hi as (x & -> & Hx). subst el. apply allocations_spec in Hx as (_ & _ & _ & Hx). done. }
  intros [] s1 Hs1 Hsaved. cbn in Hsaved. eapply steps_bind; [apply steps_getEpoch, Hs1|]. intros o s2 _ [-> ->].
  rewrite Hsaved. apply steps_ret; [apply Hs1|]. done.
Qed.

(** ** Publishing *)
Definition publish_call (e : StoredEpoch) : PublishCall :=
  mkPublishCall (se_epochId e) (default EMPTY_EPOCH_ROOT (se_merkleRoot e)) (se_totalRewardAmount e).
Lemma steps_mark id s : Inv s → steps (markEpochPublished id) (λ _ _, True) s.
Proof. intros HI. eapply steps_mono; [apply steps_update; [done|]|done]. intros e. repeat split; done. Qed.
Lemma steps_record id p s : Inv s → steps (recordPublishProposal id p) (λ _ _, True) s.
Proof.
  intros HI. unfold recordPublishProposal. destruct (BIGINT _) as [q|]; [|by apply steps_throw].
  eapply steps_mono; [apply steps_update; [done|]|done]. intros e. repeat split; done.
Qed.
Lemma steps_find e s : Inv s → steps (findUnresolvedPublishProposal e) (λ _ s', s' = s) s.
Proof.
  intros HI. unfold findUnresolvedPublishProposal. destruct (se_publishProposalId e) as [p|]; [|by apply steps_ret].
  unfold steps, wp. destruct (getProposalState p (st_chain s)); (split; [by apply step_refl|done]).
Qed.

Lemma steps_publish env e s :
  Inv s → voting_reward_epochs (st_store s) !! se_epochId e = Some e →
  steps (publishEpochRoot env e) (λ _ _, True) s.
Proof.
  intros HI He.
  assert (∀ w : PublishCall → Sent, (∀ c, w c = SentPublish c) ∨ (∀ c, w c = SentProposal c) →
    backed (st_store s) (w (publish_call e))) as Hbacked.
  { intros w [Hw|Hw]; rewrite Hw; cbn; by exists e. }
  unfold publishEpochRoot. cbv zeta.
  eapply steps_bind; [by apply steps_ask|]. intros admin s1 _ [-> _].
  case_bool_decide.
  { eapply steps_bind; [apply steps_send; [done|apply (Hbacked SentPublish); by left]|].
    intros hash s1 Hs1 _. eapply steps_bind; [apply steps_mark, Hs1|]. intros [] s2 Hs2 _. apply steps_ret; [apply Hs2|done]. }
  case_bool_decide; [by apply steps_ret|].
  destruct (env_relayer env); [|by apply steps_ret].
  destruct (negb _); [by apply steps_ret|].
  eapply steps_bind; [by apply steps_find|]. intros pending s1 _ ->.
  destruct pending; [by apply steps_ret|].
  eapply steps_bind; [apply steps_send; [done|apply (Hbacked SentProposal); by right]|].
  intros proposalId s1 Hs1 _. eapply steps_bind; [apply steps_record, Hs1|].
  intros [] s2 Hs2 _. apply steps_ret; [apply Hs2|done].
Qed.

(** ** The cycle *)
Lemma steps_round env budget height id s :
  Inv s → height = last_ledger (st_indexed s) →
  steps (cycle_round sha256 address_xdr env budget height id) (λ _ _, True) s.
Proof.
  intros HI ->. unfold cycle_round.
  eapply steps_bind; [by apply steps_ask|]. intros [onchain|] s1 _ [-> Hon]; [|by apply steps_ret].
  apply getOnchainEpoch_id in Hon. subst id.
  destruct (Z.ltb_spec (last_ledger (st_indexed s)) (oe_endLedger onchain)); [by apply steps_ret|].
  eapply steps_bind; [by apply steps_getEpoch|]. intros known s1 _ [-> ->].
  eapply (steps_bind _ _ (λ e s', voting_reward_epochs (st_store s') !! se_epochId e = Some e)).
  { destruct (voting_reward_epochs (st_store s) !! oe_id onchain) as [e|] eqn:He.
    - apply steps_ret; [done|]. destruct (epoch_rows _ _ HI _ _ He) as [Hid _]. by rewrite Hid.
    - eapply steps_mono; [by apply steps_computeEpoch|]. intros e s' [He' Hid]. by rewrite Hid. }
  intros e s1 Hs1 He. destruct (oe_finalized onchain).
  - eapply steps_bind; [apply steps_mark, Hs1|]. intros [] s2 Hs2 _. apply steps_ret; [apply Hs2|done].
  - eapply steps_bind; [apply steps_publish; [apply Hs1|done]|]. intros o s2 Hs2 _. apply steps_ret; [apply Hs2|done].
Qed.
Lemma steps_cycle_from env budget height n id s :
  Inv s → height = last_ledger (st_indexed s) →
  steps (cycle_from sha256 address_xdr env budget height n id) (λ _ _, True) s.
Proof.
  revert id s. induction n as [|n IH]; intros id s HI Hh; cbn [cycle_from]; [by apply steps_ret|].
  eapply steps_bind; [by apply steps_round|]. intros continue s1 Hs1 _.
  destruct continue; [|apply steps_ret; [apply Hs1|done]].
  apply IH; [apply Hs1|]. by rewrite (step_indexed _ _ Hs1).
Qed.
Lemma steps_roll env current height s :
  Inv s → steps (maybeRollEpoch env current height) (λ _ _, True) s.
Proof.
  intros HI. unfold maybeRollEpoch. destruct (negb _); [by apply steps_ret|].
  destruct (env_relayer env); [|by apply steps_ret].
  eapply steps_bind; [by apply steps_ask|]. intros [e|] s1 _ [-> _]; [|by apply steps_ret].
  destruct (_ <? _); [by apply steps_ret|].
  pose proof (steps_send submitStartNextEpoch SentRoll s HI Logic.I) as Hs.
  unfold steps, wp, attempt in *. destruct (send _ _ s) as [[h|er] s']; cbn; [split; [apply Hs|done]|by split].
Qed.
Lemma steps_runCycle env s : Inv s → steps (runCycle sha256 address_xdr env) (λ _ _, True) s.
Proof.
  intros HI. unfold runCycle. destruct (getEpochBudget _) as [budget|]; [|by apply steps_ret].
  destruct (buildVotingRewardsClient env); [|by apply steps_ret].
  eapply steps_bind; [by apply steps_ask|]. intros current s1 _ [-> _].
  eapply steps_bind; [by apply steps_gets|]. intros height s1 _ [-> ->].
  eapply steps_bind; [by apply steps_gets|]. intros highest s1 _ [-> _]. cbv zeta.
  eapply steps_bind; [by apply steps_cycle_from|]. intros [] s1 Hs1 _. apply steps_roll, Hs1.
Qed.

(** ** Histories *)

(** A cycle, a claim seen on the chain, and everything else: the indexer
    goes on, and the chain does what it likes. *)
Inductive reward_step env : State Chain → State Chain → Prop :=
  | step_cycle s o s' : runCycle sha256 address_xdr env s = (o, s') → reward_step env s s'
  | step_claimed s id a o s' : markClaimed id a s = (o, s') → reward_step env s s'
  | step_world s d c : last_ledger (st_indexed s) ≤ last_ledger d →
      reward_step env s (s <| st_indexed := d |> <| st_chain := c |>).

(** The indexed height only grows. *)
Record progress s s' : Prop := mkProgress {
  progress_inv : Inv s';
  progress_kept : kept (st_store s) (st_store s');
  progress_sent : ∃ new, st_sent s' = st_sent s ++ new ∧ Forall (backed (st_store s')) new }.
Lemma progress_trans s1 s2 s3 : progress s1 s2 → progress s2 s3 → progress s1 s3.
Proof.
  intros [_ Hk1 (n1 & Hs1 & Hb1)] [HI2 Hk2 (n2 & Hs2 & Hb2)].
  split; [done|by eapply kept_trans|]. exists (n1 ++ n2). rewrite Hs2, Hs1. split; [by rewrite <- app_assoc|].
  apply Forall_app. split; [|done]. eapply Forall_impl; [exact Hb1|]. intros m. by apply backed_kept.
Qed.

Lemma claims_total_promised id d d' :
  (∀ k, promised <$> voting_reward_claims d' !! k = promised <$> voting_reward_claims d !! k) →
  claims_total id d' = claims_total id d.
Proof.
  intros Hsame.
  assert (∀ x, claims_total id x = sum_list_Z ((λ kv, if decide (kv.1.1 = id) then kv.2.1 else 0) <$>
    map_to_list (promised <$> voting_reward_claims x))) as Ht.
  { intros x. rewrite map_to_list_fmap, <- list_fmap_compose. done. }
  rewrite !Ht. replace (promised <$> voting_reward_claims d') with (promised <$> voting_reward_claims d); [done|].
  apply map_eq. intros k. by rewrite !lookup_fmap, Hsame.
Qed.
Lemma markClaimed_progress id a s o s' : Inv s → markClaimed id a s = (o, s') → progress s s'.
Proof.
  intros HI. unfold markClaimed, store_query. m_run. destruct (BIGINT _) as [id'|]; cbn [option_bind].
  2:{ intros [= _ <-]. split; [done|apply kept_refl|]. exists []. by rewrite app_nil_r. }
  intros [= _ <-].
  set (f := λ c, mkStoredClaim (sc_amount c) (sc_merkleProof c) true).
  assert (∀ k, promised <$> alter f (id', a) (voting_reward_claims (st_store s)) !! k =
    promised <$> voting_reward_claims (st_store s) !! k) as Hsame.
  { intros k. destruct (decide (k = (id', a))) as [->|]; [rewrite lookup_alter_eq|by rewrite lookup_alter_ne].
    by destruct (voting_reward_claims (st_store s) !! _). }
  split; cbn; [|split; [by exists e|intros a0; apply Hsame]|exists []; by rewrite app_nil_r].
  split; cbn.
  - intros i e He. destruct (epoch_rows _ _ HI _ _ He) as (? & ? & Ht). split; [done|]. split; [done|].
    rewrite <- Ht. by apply claims_total_promised.
  - intros i b c Hc. pose proof (Hsame (i, b)) as Hp. fold f in Hc. rewrite Hc in Hp. cbn in Hp. symmetry in Hp.
    apply fmap_Some in Hp as (c0 & Hc0 & [= Ha Hpr]). destruct (claim_rows _ _ HI _ _ _ Hc0) as (e & He & Hpos & Hrest).
    exists e. split; [done|]. unfold provable. rewrite Ha, Hpr. done.
Qed.

Lemma reward_step_progress env s s' : Inv s → reward_step env s s' → progress s s'.
Proof.
  intros HI. destruct 1 as [s o s' Hrun|s id a o s' Hrun|s d c Hle].
  - pose proof (steps_runCycle env s HI) as Hs. unfold steps in Hs. apply (wp_run _ _ _ _ _ _ Hrun) in Hs.
    assert (step s s') as [_ ? ? ?] by (destruct o; [exact (proj1 Hs)|exact Hs]). done.
  - by eapply markClaimed_progress.
  - split; cbn; [|apply kept_refl|exists []; by rewrite app_nil_r]. split; [|exact (claim_rows _ _ HI)].
    intros id e He. destruct (epoch_rows _ _ HI _ _ He) as (? & ? & ?). cbn. repeat split; [done|lia|done].
Qed.
Lemma reward_history_progress env s s' : Inv s → rtc (reward_step env) s s' → progress s s'.
Proof.
  intros HI. induction 1 as [s|s s1 s' Hstep Hrest IH].
  - split; [done|apply kept_refl|]. exists []. by rewrite app_nil_r.
  - pose proof (reward_step_progress env s s1 HI Hstep) as Hp. eapply progress_trans; [exact Hp|]. apply IH, Hp.
Qed.

(** The tables start empty. *)
Definition initial s : Prop := st_store s = mkRewardDb ∅ ∅ ∧ st_sent s = [].
Lemma initial_inv s : initial s → Inv s.
Proof. intros [Hs _]. unfold Inv. rewrite Hs. split; cbn; intros *; rewrite lookup_empty; done. Qed.

(** C17: Stored rewards stay claimable.  In every history of cycles, whatever
    the chain and the indexer do and whether or not a cycle throws, each stored
    epoch is over for the indexer and has the sum of its claims as its total;
    each stored claim is positive, and its proof leads to the root stored for
    its epoch, by the check the contract makes; and what is stored of an epoch,
    its ledgers, root, total, amounts and proofs, never changes again. *)
Theorem stored_rewards_stay_claimable env s0 s s' :
  initial s0 → rtc (reward_step env) s0 s → rtc (reward_step env) s s' →
  (∀ id e, voting_reward_epochs (st_store s) !! id = Some e →
    se_endLedger e ≤ last_ledger (st_indexed s) ∧ claims_total id (st_store s) = se_totalRewardAmount e ∧
    ∃ e', voting_reward_epochs (st_store s') !! id = Some e' ∧ same_epoch e e' ∧ (se_published e → se_published e') ∧
    ∀ a, promised <$> voting_reward_claims (st_store s') !! (id, a) = promised <$> voting_reward_claims (st_store s) !! (id, a)) ∧
  (∀ id a c, voting_reward_claims (st_store s) !! (id, a) = Some c →
    ∃ e leaf root, voting_reward_epochs (st_store s) !! id = Some e ∧ 0 < sc_amount c ∧
      computeLeaf sha256 address_xdr a id (sc_amount c) = Ok leaf ∧ se_merkleRoot e = Some root ∧
      verifyProof sha256 leaf (sc_merkleProof c) root = true).
Proof.
  intros H0 Hs Hs'. pose proof (reward_history_progress env s0 s (initial_inv s0 H0) Hs) as [HI _ _].
  pose proof (reward_history_progress env s s' HI Hs') as [_ Hk _]. split.
  - intros id e He. destruct (epoch_rows _ _ HI _ _ He) as (_ & Hend & Htotal). split; [done|]. split; [done|].
    destruct (Hk _ _ He) as ((e' & He' & Hsame & Hp) & Hc). by exists e'.
  - intros id a c Hc. destruct (claim_rows _ _ HI _ _ _ Hc) as (e & He & Hpos & leaf & root & Hl & Hr & Hv).
    by exists e, leaf, root.
Qed.

(** C18: One root per epoch.  In every history, every call the backend sends for
    an epoch, directly or as a proposal, carries the root and the total that
    are stored for it; so no two calls for one epoch ever disagree. *)
Theorem one_root_per_epoch env s0 s :
  initial s0 → rtc (reward_step env) s0 s →
  (∀ message, message ∈ st_sent s → backed (st_store s) message) ∧
  (∀ w1 w2 c1 c2, w1 = SentPublish ∨ w1 = SentProposal → w2 = SentPublish ∨ w2 = SentProposal →
    w1 c1 ∈ st_sent s → w2 c2 ∈ st_sent s → pc_epochId c1 = pc_epochId c2 → c1 = c2).
Proof.
  intros H0 Hs. destruct (reward_history_progress env s0 s (initial_inv s0 H0) Hs) as [_ _ (new & Hnew & Hb)].
  destruct H0 as [_ H0]. rewrite H0 in Hnew. cbn in Hnew. subst new. rewrite Forall_forall in Hb. split; [exact Hb|].
  assert (∀ w c, w = SentPublish ∨ w = SentProposal → w c ∈ st_sent s → backed (st_store s) (SentPublish c)) as Hc.
  { intros w c [->| ->] Hin; exact (Hb _ Hin). }
  intros w1 w2 c1 c2 Hw1 Hw2 Hin1 Hin2 Hid.
  destruct (Hc _ _ Hw1 Hin1) as (e1 & He1 & Hr1 & Ht1), (Hc _ _ Hw2 Hin2) as (e2 & He2 & Hr2 & Ht2).
  rewrite Hid, He2 in He1. injection He1 as <-. destruct c1, c2; cbn in *. congruence.
Qed.

(** ** Proposing an epoch again *)
(** [message] is the first thing sent since [s0]. *)
Definition sent_from (s0 : State Chain) (message : Sent) s : Prop :=
  Inv s ∧ st_indexed s = st_indexed s0 ∧ ∃ rest, st_sent s = st_sent s0 ++ message :: rest.
Lemma steps_sent_from {A} (m : M (State Chain) A) Q s0 message s :
  steps m Q s → sent_from s0 message s → wp m (λ _, sent_from s0 message) (λ _, sent_from s0 message) s.
Proof.
  intros Hm (_ & Hindexed & rest & Hrest).
  assert (∀ s', step s s' → sent_from s0 message s') as Hstep.
  { intros s' [Hi HI _ (new & Hnew & _)]. split; [done|]. split; [congruence|].
    exists (rest ++ new). rewrite Hnew, Hrest, <- app_assoc. done. }
  eapply wp_mono; [exact Hm| |]; cbn; naive_solver.
Qed.
Lemma ask_run {A} (f : Chain → outcome A) a s : f (st_chain s) = Ok a → ask f s = (Ok a, s).
Proof. unfold ask. by intros ->. Qed.
Lemma send_sent {A} message (m : M Chain A) s o s1 :
  send message m s = (o, s1) → (Inv s → Inv s1) ∧ st_indexed s1 = st_indexed s ∧ st_sent s1 = st_sent s ++ [message].
Proof. unfold send. destruct (m (st_chain s)) as [o' c]. by intros [= _ <-]. Qed.
Lemma getEpoch_run id s :
  - 2 ^ 63 ≤ id < 2 ^ 63 → getEpoch id s = (Ok (voting_reward_epochs (st_store s) !! id), s).
Proof. intros Hid. unfold getEpoch, BIGINT. by rewrite int_column_decimal by lia. Qed.

(** What a cycle finds: [id] is the first epoch that is not published, over,
    stored, open on the chain, and its last proposal is in [state]. *)
Record proposed_before env (id : Z) (e : StoredEpoch) (state : ProposalState) s : Prop := mkProposedBefore {
  pb_budget : is_Some (getEpochBudget (env_budget env));
  pb_client : buildVotingRewardsClient env = true;
  pb_current : ∃ current, getCurrentEpochId (st_chain s) = Ok current ∧ id ≤ current;
  pb_first : id = match highest_published (voting_reward_epochs (st_store s)) with None => 0 | Some k => k + 1 end;
  pb_range : - 2 ^ 63 ≤ id < 2 ^ 63;
  pb_onchain : ∃ onchain, getOnchainEpoch id (st_chain s) = Ok (Some onchain) ∧
    oe_finalized onchain = false ∧ oe_endLedger onchain ≤ last_ledger (st_indexed s);
  pb_stored : voting_reward_epochs (st_store s) !! id = Some e;
  pb_proposal : ∃ p, se_publishProposalId e = Some p ∧ getProposalState p (st_chain s) = Ok state;
  pb_admin : ∃ admin relayer, getAdmin (st_chain s) = Ok admin ∧ env_governor env = Some admin ∧
    env_relayer env = Some relayer ∧ relayer ≠ admin }.

Lemma publish_again env id e state s :
  Inv s → proposed_before env id e state s →
  wp (publishEpochRoot env e)
    (λ o s', if is_terminal_state state then sent_from s (SentProposal (publish_call e)) s'
             else s' = s ∧ ∃ reason, o = Skipped reason)
    (λ _ s', is_terminal_state state = true ∧ sent_from s (SentProposal (publish_call e)) s') s.
Proof.
  intros HI [_ Hclient _ _ _ _ He (p & Hp & Hstate) (admin & relayer & Hadmin & Hgov & Hrelayer & Hne)].
  unfold publishEpochRoot. cbv zeta. wp_step. eapply wp_read; [by apply ask_run|].
  rewrite Hrelayer, Hgov. rewrite !bool_decide_eq_false_2 by (try congruence; intros []; done).
  replace (buildGovernorClient env) with true.
  2:{ unfold buildVotingRewardsClient, buildGovernorClient in *. destruct (is_set (env_votingRewards env)), (is_set (env_governor env)); done. }
  cbn [negb]. wp_step. unfold findUnresolvedPublishProposal. rewrite Hp. unfold wp at 1. rewrite Hstate. cbn.
  destruct (is_terminal_state state); [|by split; [|eexists]].
  assert (se_epochId e = id) as Hid by (by destruct (epoch_rows _ _ HI _ _ He)).
  assert (backed (st_store s) (SentProposal (publish_call e))) as Hb by (exists e; cbn; by rewrite Hid).
  wp_step. apply wp_intro. intros o s1 (Hs1 & Hindexed & Hsent)%send_sent.
  assert (sent_from s (SentProposal (publish_call e)) s1) as Hfrom.
  { split; [by apply Hs1|]. split; [done|]. by exists []. }
  destruct o as [q|]; [|by split].
  wp_step. eapply wp_mono; [eapply steps_sent_from; [by apply steps_record, Hs1|exact Hfrom]| |]; cbn.
  - done.
  - done.
Qed.

Lemma round_again env budget id e state s :
  Inv s → proposed_before env id e state s →
  wp (cycle_round sha256 address_xdr env budget (last_ledger (st_indexed s)) id)
    (λ continue s', if is_terminal_state state then sent_from s (SentProposal (publish_call e)) s'
                    else s' = s ∧ continue = false)
    (λ _ s', is_terminal_state state = true ∧ sent_from s (SentProposal (publish_call e)) s') s.
Proof.
  intros HI Hpb. pose proof (publish_again _ _ _ _ _ HI Hpb) as Hpublish.
  destruct Hpb as [_ _ _ _ Hrange (onchain & Hon & Hopen & Hend) He _ _].
  unfold cycle_round. wp_step. eapply wp_read; [by apply ask_run|].
  cbv beta iota. rewrite (proj2 (Z.ltb_ge _ _)) by done. wp_step. eapply wp_read; [by apply getEpoch_run|].
  rewrite He. do 2 wp_step. rewrite Hopen. wp_step. eapply wp_mono; [exact Hpublish| |]; cbn.
  - intros o s1. destruct (is_terminal_state state); [done|]. intros [-> [reason ->]]. done.
  - done.
Qed.
Lemma wp_state {A} (m : M (State Chain) A) (R : State Chain → Prop) s : wp m (λ _, R) (λ _, R) s → R (m s).2.
Proof. unfold wp. by destruct (m s) as [[a|er] s']. Qed.
Lemma roll_sends env current height s :
  st_sent (maybeRollEpoch env current height s).2 = st_sent s ∨
  st_sent (maybeRollEpoch env current height s).2 = st_sent s ++ [SentRoll].
Proof.
  unfold maybeRollEpoch. destruct (negb _); [by left|]. destruct (env_relayer env); [|by left].
  unfold mbind, M_bind, ask. destruct (getOnchainEpoch _ _) as [[x|]|]; [|by left|by left].
  destruct (_ <? _); [by left|]. right. unfold attempt, send. by destruct (submitStartNextEpoch _) as [o c].
Qed.

Lemma runCycle_again env id e state s :
  Inv s → proposed_before env id e state s →
  let s' := (runCycle sha256 address_xdr env s).2 in
  if is_terminal_state state
  then ∃ rest, st_sent s' = st_sent s ++ SentProposal (publish_call e) :: rest
  else st_sent s' = st_sent s ∨ st_sent s' = st_sent s ++ [SentRoll].
Proof.
  intros HI Hpb.  intros s'. subst s'. apply (wp_state _ (λ s', if is_terminal_state state
    then ∃ rest, st_sent s' = st_sent s ++ SentProposal (publish_call e) :: rest
    else st_sent s' = st_sent s ∨ st_sent s' = st_sent s ++ [SentRoll])).
  pose proof (λ budget, round_again env budget id e state s HI Hpb) as Hround.
  destruct Hpb as [[budget Hbudget] Hclient (current & Hcurrent & Hle) Hfirst _ _ _ _ _].
  unfold runCycle. rewrite Hbudget, Hclient. wp_step. eapply wp_read; [by apply ask_run|].
  do 2 wp_step. unfold getHighestPublishedEpochId. do 2 wp_step. cbv zeta. rewrite <- Hfirst.
  replace (Z.to_nat (current + 1 - id)) with (S (Z.to_nat (current - id))) by lia. cbn [cycle_from].
  do 2 wp_step. eapply wp_mono; [exact (Hround budget)| |]; cbn.
  - intros continue s1 Hs1. destruct (is_terminal_state state) eqn:Ht.
    + assert (∀ s2, sent_from s (SentProposal (publish_call e)) s2 →
        ∃ rest, st_sent s2 = st_sent s ++ SentProposal (publish_call e) :: rest) as Hdone by (by intros s2 (_ & _ & ?)).
      eapply wp_mono; [apply (steps_sent_from _ (λ _ _, True) s (SentProposal (publish_call e))); [|exact Hs1]| |]; cbn.
      * destruct continue; [|by apply steps_ret; [apply Hs1|]].
        destruct Hs1 as (HI1 & Hi1 & _). apply steps_cycle_from; [done|]. by rewrite Hi1.
      * intros [] s2 Hs2. eapply wp_mono; [eapply steps_sent_from; [apply steps_roll, Hs2|exact Hs2]| |]; cbn; auto.
      * auto.
    + destruct Hs1 as [-> ->]. wp_step. unfold wp. pose proof (roll_sends env current (last_ledger (st_indexed s)) s) as Hr.
      unfold getIndexedLedgerHeight. by destruct (maybeRollEpoch _ _ _ s) as [[]].
  - intros er s1 [-> (_ & _ & Hrest)]. exact Hrest.
Qed.

(** An ended proposal is submitted again.  When the first epoch that is not
    published has a proposal, the cycle submits the same call again exactly
    when that proposal has ended, executed ones included, as long as the chain
    does not call the epoch finalized.  While it has not ended, the cycle sends
    nothing for any epoch. *)
Theorem ended_proposal_is_resubmitted env id e state s :
  Inv s → proposed_before env id e state s →
  let s' := (runCycle sha256 address_xdr env s).2 in
  match state with
  | Executed | Defeated | Cancelled | Expired =>
    ∃ rest, st_sent s' = st_sent s ++ SentProposal (publish_call e) :: rest
  | Pending | Active | Succeeded | Queued => st_sent s' = st_sent s ∨ st_sent s' = st_sent s ++ [SentRoll]
  end.
Proof. intros HI Hpb. pose proof (runCycle_again env id e state s HI Hpb) as Hrun. destruct state; exact Hrun. Qed.
End cycle.

(** ** An example chain

    The contract as [publish_epoch_root] leaves it: the root is recorded, the
    allocation comes out of the pool, and the epoch is finalized if the total
    is positive.  A proposal does its call when it is executed. *)
Module Example.
Record Chain := mkChain {
  ch_current : Z; ch_epochs : list VotingRewardsEpoch; ch_pool : Z; ch_proposals : list (PublishCall * ProposalState) }.
Definition publish (call : PublishCall) (c : Chain) : option Chain :=
  if ch_pool c <? pc_totalRewardAmount call then None
  else Some (mkChain (ch_current c)
    ((λ e, if oe_id e =? pc_epochId call
           then mkOnchainEpoch (oe_id e) (oe_startLedger e) (oe_endLedger e) (Some (pc_merkleRoot call))
                  (pc_totalRewardAmount call) (oe_claimedAmount e) (0 <? pc_totalRewardAmount call)
           else e) <$> ch_epochs c)
    (ch_pool c - pc_totalRewardAmount call) (ch_proposals c)).
#[local] Instance client : RewardsClient Chain := {
  getCurrentEpochId c := Ok (ch_current c);
  getOnchainEpoch id c := Ok (List.find (λ e, oe_id e =? id) (ch_epochs c));
  getAvailablePool c := Ok (ch_pool c);
  getAdmin _ := Ok "governor";
  getProposalState id c := match ch_proposals c !! Z.to_nat id with
                           | Some (_, state) => Ok state | None => Throw (PlainError "no proposal") end;
  submitPublish call := λ c, match publish call c with
                             | Some c => (Ok "hash", c) | None => (Throw (PlainError "pool"), c) end;
  submitProposal _ call := λ c, (Ok (Z.of_nat (length (ch_proposals c))),
    mkChain (ch_current c) (ch_epochs c) (ch_pool c) (ch_proposals c ++ [(call, Active)]));
  submitStartNextEpoch := λ c, (Ok "hash", c);
}.
#[local] Instance client_laws : RewardsClientLaws Chain.
Proof. intros id c e [= Hf]. apply List.find_some in Hf as [_ Hid]. cbn in Hid. by apply Z.eqb_eq. Qed.

(** The proposals in progress are executed, if the pool lets them. *)
Definition execute_all (c : Chain) : Chain :=
  foldl (λ c '(i, (call, state)), match state, publish call c with
    | Active, Some c' => mkChain (ch_current c') (ch_epochs c') (ch_pool c')
        (<[i := (call, Executed)]> (ch_proposals c'))
    | _, _ => c end) c (imap pair (ch_proposals c)).

Definition env : RewardsEnv :=
  mkRewardsEnv (Some "rewards") (Some "governor") (Some "votes") (Some "timelock") (Some "100") (Some "relayer") None.
Definition epoch (id start end_ : Z) : VotingRewardsEpoch := mkOnchainEpoch id start end_ None 0 0 false.
Definition chain : Chain := mkChain 2 [epoch 0 0 10; epoch 1 10 20; epoch 2 20 30] 100 [].
Definition vote (ledger : Z) (weight : Z) : VoteRow := mkVoteRow 1 weight None ledger.
Definition db : Db :=
  empty_db <| votes := [((1, "GA"), vote 3 3); ((1, "GB"), vote 4 1); ((2, "GA"), vote 12 5)] |> <| last_ledger := 30 |>.
Definition start (c : Chain) : State Chain := mkState db (mkRewardDb ∅ ∅) c [].

#[local] Existing Instance Indexer.ex_runtime.
Definition cycle (s : State Chain) : State Chain := (runCycle Examples.toy_hash Examples.toy_xdr env s).2.
Definition executed (s : State Chain) : State Chain := s <| st_chain ::= execute_all |>.
Definition history : State Chain → State Chain → Prop := rtc (reward_step Examples.toy_hash Examples.toy_xdr env).
Lemma ex_history_cycle s : history s (cycle s).
Proof.
  apply rtc_once. unfold cycle. destruct (runCycle _ _ env s) as [o s'] eqn:Hrun. by eapply step_cycle.
Qed.
Lemma ex_history_executed s : history s (executed s).
Proof.
  destruct s as [d st c l]. apply rtc_once.
  exact (step_world _ _ env (mkState d st c l) d (execute_all c) (Z.le_refl _)).
Qed.

Lemma ex_history_inv c s : history (start c) s → Inv Examples.toy_hash Examples.toy_xdr s.
Proof. intros Hs. exact (progress_inv _ _ _ _ (reward_history_progress _ _ env (start c) s (initial_inv _ _ (start c) (conj eq_refl eq_refl)) Hs)). Qed.

(** Three epochs are over: GA and GB vote in the first, GA in the second, no
    one in the third. *)
Definition once : State Chain := cycle (start chain).
End Example.

Lemma stored_rewards_stay_claimable_witness :
  ∃ e leaf root c, voting_reward_epochs (st_store Example.once) !! 0 = Some e ∧ se_totalRewardAmount e = 100 ∧
    voting_reward_claims (st_store Example.once) !! (0, "GB") = Some c ∧ sc_amount c = 25 ∧
    computeLeaf Examples.toy_hash Examples.toy_xdr "GB" 0 25 = Ok leaf ∧ se_merkleRoot e = Some root ∧
    verifyProof Examples.toy_hash leaf (sc_merkleProof c) root = true.
Proof.
  destruct (@stored_rewards_stay_claimable Indexer.ex_runtime _ Example.client Example.client_laws Examples.toy_hash Examples.toy_xdr
    Example.env (Example.start Example.chain) Example.once (Example.cycle Example.once)) as [_ Hclaims].
  - done.
  - apply Example.ex_history_cycle.
  - apply Example.ex_history_cycle.
  - destruct (voting_reward_claims (st_store Example.once) !! (0, "GB")) as [c|] eqn:Hc; [|vm_compute in Hc; discriminate].
    destruct (Hclaims _ _ _ Hc) as (e & leaf & root & He & _ & Hleaf & Hroot & Hv).
    assert (sc_amount c = 25) as Hamount.
    { vm_compute in Hc. injection Hc as <-. reflexivity. }
    rewrite Hamount in Hleaf. exists e, leaf, root, c. split; [exact He|]. split.
    { vm_compute in He. injection He as <-. reflexivity. }
    split; [reflexivity|]. auto.
Defined.

Lemma one_root_per_epoch_witness :
  ∃ call1 call2, st_sent Example.once !! 0%nat = Some (SentProposal call1) ∧
    st_sent Example.once !! 1%nat = Some (SentProposal call2) ∧
    backed (st_store Example.once) (SentProposal call1) ∧ pc_totalRewardAmount call1 = 100 ∧
    (pc_epochId call1 = pc_epochId call2 → call1 = call2).
Proof.
  destruct (@one_root_per_epoch Indexer.ex_runtime _ Example.client Example.client_laws Examples.toy_hash
    Examples.toy_xdr Example.env (Example.start Example.chain) Example.once) as [Hbacked Hone];
    [done|apply Example.ex_history_cycle|].
  destruct (st_sent Example.once) as [|[c1|c1|] [|[c2|c2|] l]] eqn:Hsent; try (vm_compute in Hsent; discriminate).
  exists c1, c2. split; [reflexivity|]. split; [reflexivity|]. split; [apply Hbacked; by left|]. split.
  - vm_compute in Hsent. injection Hsent as <- _ _. reflexivity.
  - apply (Hone SentProposal SentProposal); [by right|by right|by left|right; by left].
Defined.

(** An epoch no one voted in, its proposal executed by the contract. *)
Module EmptyEpoch.
Import Example.
#[local] Existing Instance Indexer.ex_runtime.
#[local] Existing Instance Example.client.
Definition chain : Chain := mkChain 0 [epoch 0 20 30] 100 [].
Definition once : State Chain := executed (cycle (start chain)).
Definition call : PublishCall := mkPublishCall 0 EMPTY_EPOCH_ROOT 0.
Definition stored : StoredEpoch := mkStoredEpoch 0 20 30 None 0 false (Some 0).
(** Each round of a cycle and an execution sends the same call again. *)
Lemma thrice : st_sent (cycle (executed (cycle once))) = [SentProposal call; SentProposal call; SentProposal call].
Proof. vm_compute. reflexivity. Qed.
End EmptyEpoch.

Lemma ended_proposal_is_resubmitted_witness :
  st_sent EmptyEpoch.once = [SentProposal EmptyEpoch.call] ∧
  ∃ rest, st_sent (Example.cycle EmptyEpoch.once) = [SentProposal EmptyEpoch.call] ++ SentProposal EmptyEpoch.call :: rest.
Proof.
  split; [vm_compute; reflexivity|].
  apply (@ended_proposal_is_resubmitted Indexer.ex_runtime _ Example.client Example.client_laws Examples.toy_hash
    Examples.toy_xdr Example.env 0 EmptyEpoch.stored Executed EmptyEpoch.once).
  - apply (Example.ex_history_inv EmptyEpoch.chain). etransitivity; [apply Example.ex_history_cycle|apply Example.ex_history_executed].
  - split; [by exists 100|reflexivity| |reflexivity|done| |reflexivity| |].
    + exists 0. split; [reflexivity|lia].
    + eexists. split; [vm_compute; reflexivity|]. split; [reflexivity|vm_compute; discriminate].
    + exists 0. split; reflexivity.
    + exists "governor", "relayer". split; [reflexivity|]. split; [reflexivity|]. split; [reflexivity|done].
Defined.

(** Epochs that wait for their proposals share one pool.  Two epochs are
    computed in one cycle against an available pool of 100 and proposed with a
    total of 100 each; once the first is executed, the contract cannot take
    the second, and the root stored for it is never computed again. *)
Lemma waiting_epochs_share_the_pool :
  (pc_totalRewardAmount <$> omap (λ w, match w with SentProposal c => Some c | _ => None end) (st_sent Example.once))
    = [100; 100; 0] ∧
  Example.ch_pool (st_chain (Example.executed Example.once)) = 0 ∧
  snd <$> Example.ch_proposals (st_chain (Example.executed Example.once)) = [Executed; Active; Executed].
Proof. vm_compute. done. Qed.
