(* ===== verification/Notifications.v ===== *)
(** * Notification rules

    [backend/src/notifications/rules.ts] and [templates.ts], and the matching
    of [engine.ts]: which events a rule is about, and the text that is sent.  An
    event comes from the indexer's log; its payload is JSON, so a contract's
    integers arrive as text. *)

From S2P Require Import Prelude JsValues IndexerWorld.

(** ** Rules *)
Inductive TriggerType :=
  | proposal_created | proposal_state_changed | proposal_vote_threshold | proposal_ending_soon | vote_cast
  | guardian_veto | treasury_stream_spend | config_updated | contract_paused | contract_upgraded
  | delegation_received | delegation_lost | quorum_reached.
#[export] Instance TriggerType_eq_dec : EqDecision TriggerType.
Proof. solve_decision. Defined.
Definition TRIGGER_TYPES : list (string * TriggerType) :=
  [("proposal_created", proposal_created); ("proposal_state_changed", proposal_state_changed);
   ("proposal_vote_threshold", proposal_vote_threshold); ("proposal_ending_soon", proposal_ending_soon);
   ("vote_cast", vote_cast); ("guardian_veto", guardian_veto); ("treasury_stream_spend", treasury_stream_spend);
   ("config_updated", config_updated); ("contract_paused", contract_paused); ("contract_upgraded", contract_upgraded);
   ("delegation_received", delegation_received); ("delegation_lost", delegation_lost); ("quorum_reached", quorum_reached)].

Record TriggerConfig := mkTriggerConfig {
  cfg_proposer : option string;
  cfg_to_state : option string;
  cfg_threshold_bps : option Z;
  cfg_ledgers_remaining : option Z;
  cfg_proposal_id : option Z;
  cfg_voter : option string;
  cfg_stream_id : option string;
  cfg_min_amount : option string;
  cfg_delegatee : option string }.

(** A channel as it is stored; a webhook has the secret made for it. *)
Inductive StoredNotificationChannel :=
  | InAppChannel
  | EmailChannel (address : string)
  | WebhookChannel (url secret : string)
  | TelegramChannel (chat_id : string).
Definition channel_type (c : StoredNotificationChannel) : string :=
  match c with
  | InAppChannel => "in_app" | EmailChannel _ => "email" | WebhookChannel _ _ => "webhook" | TelegramChannel _ => "telegram"
  end.

(** The time of the last trigger is in milliseconds. *)
Record NotificationRule := mkRule {
  r_id : Z; r_user_id : Z; r_trigger_type : TriggerType; r_trigger_config : TriggerConfig;
  r_channels : list StoredNotificationChannel; r_enabled : bool; r_cooldown_seconds : Z;
  r_last_triggered_at : option Z; r_trigger_count : Z }.
#[export] Instance NotificationRule_eta : Eta NotificationRule := λ r, mkRule (r_id r) (r_user_id r) (r_trigger_type r)
  (r_trigger_config r) (r_channels r) (r_enabled r) (r_cooldown_seconds r) (r_last_triggered_at r) (r_trigger_count r).

(** [payload] has the topics, if any, and the value, [VUndefined] if none. *)
Record IndexerEvent := mkIndexerEvent {
  ie_event_type : string; ie_topics : option (list JsValue); ie_value : JsValue }.

(** What JSON keeps of a value, as [JSON.parse] returns it. *)
Fixpoint from_json (v : JsValue) : JsValue :=
  match v with
  | VUndefined | VNull | VNaN => VNull
  | VBig n => VStr (decimal n)
  | VBytes bs => VObj [("type", VStr "Buffer"); ("data", VArr ((λ b, VNum (Z.of_N (Byte.to_N b))) <$> bs))]
  | VArr l => VArr (List.map from_json l)
  | VObj fields => VObj (List.flat_map (λ '(k, x), match x with VUndefined => [] | _ => [(k, from_json x)] end) fields)
  | VMap _ => VObj []
  | VBool _ | VNum _ | VStr _ => v
  end.
(** The event the indexer logs, as the processor reads it back. *)
Definition logged_event (event_type : string) (topics : list JsValue) (event : EventResponse) : IndexerEvent :=
  mkIndexerEvent event_type (Some (List.map from_json topics))
    (if is_undefined (ev_value event) then VUndefined else from_json (ev_value event)).

(** ** Which rules an event may be for *)
Definition EVENT_TYPE_TO_TRIGGER : list (string * list TriggerType) :=
  [("ProposalCreated", [proposal_created]); ("VoteCast", [vote_cast]); ("VoteCastWithReason", [vote_cast]);
   ("ConfigUpdated", [config_updated]); ("GovernorUpgraded", [contract_upgraded]);
   ("DelegationRegistered", [delegation_received]); ("DelegationRevoked", [delegation_lost]);
   ("stream_spend", [treasury_stream_spend]); ("stream_batch", [treasury_stream_spend])].
Definition STATE_CHANGE_EVENTS : list (string * string) :=
  [("ProposalQueued", "Queued"); ("ProposalExecuted", "Executed"); ("ProposalCancelled", "Cancelled")].

Definition resolveTriggerTypes (event : IndexerEvent) : list TriggerType :=
  match jm_get (ie_event_type event) STATE_CHANGE_EVENTS with
  | Some _ => [proposal_state_changed]
  | None =>
    match jm_get (ie_event_type event) TRIGGER_TYPES with
    | Some t => [t]
    | None => default [] (jm_get (ie_event_type event) EVENT_TYPE_TO_TRIGGER)
    end
  end.

(** ** What an event says *)
Definition topic_text (event : IndexerEvent) : option string :=
  match default [] (ie_topics event) !! 1%nat with
  | Some VUndefined | None => None
  | Some v => Some (js_String v)
  end.
(** [value && typeof value === "object" && k in value] *)
Definition own_field (k : string) (v : JsValue) : option JsValue :=
  match v with VObj fields => jm_get k fields | _ => None end.

Definition eventProposalId (event : IndexerEvent) : option string :=
  match own_field "proposal_id" (ie_value event) with
  | Some v => Some (js_String v)
  | None => match ie_value event with VArr (v :: _) => Some (js_String v) | _ => topic_text event end
  end.
Definition eventVoter (event : IndexerEvent) : option string := topic_text event.
Definition eventProposer (event : IndexerEvent) : option string :=
  match own_field "proposer" (ie_value event) with Some v => Some (js_String v) | None => topic_text event end.
Definition eventDelegatee (event : IndexerEvent) : option string :=
  match ie_value event with VArr (v :: _) => Some (js_String v) | _ => None end.

(** [cfg.k && cfg.k !== x], for a text, fails the match. *)
Definition text_filter (cfg x : option string) : bool :=
  match cfg with
  | None | Some EmptyString => true
  | Some t => bool_decide (x = Some t)
  end.
(** [cfg.k !== undefined && String(cfg.k) !== x], for a number. *)
Definition number_filter (cfg : option Z) (x : option string) : bool :=
  match cfg with None => true | Some n => bool_decide (x = Some (decimal n)) end.
(** [x <= y] and [x >= y] on numbers. *)
Definition num_le (x : JsValue) (y : Z) : bool := match x with VNum n => n <=? y | _ => false end.
Definition num_ge (x : JsValue) (y : Z) : bool := match x with VNum n => y <=? n | _ => false end.

Definition stream_matches (cfg : TriggerConfig) (event : IndexerEvent) : bool :=
  match ie_value event with
  | VArr value =>
    let amountValue := nth_value value (if String.eqb (ie_event_type event) "stream_batch" then 1 else 2)%nat in
    match text_integer (js_String amountValue) with
    | None => false
    | Some amount =>
      match cfg_stream_id cfg with None => true | Some id => String.eqb id (js_String (nth_value value 0)) end &&
      match cfg_min_amount cfg with None => true | Some min => default 0 (text_integer min) <=? amount end
    end
  | _ => false
  end.

(** Reading a field of a value that is null or absent throws. *)
Definition ruleMatchesEvent {S} (rule : NotificationRule) (event : IndexerEvent) : M S bool :=
  let cfg := r_trigger_config rule in
  match r_trigger_type rule with
  | proposal_state_changed => mret (text_filter (cfg_to_state cfg) (jm_get (ie_event_type event) STATE_CHANGE_EVENTS))
  | proposal_created => mret (text_filter (cfg_proposer cfg) (eventProposer event))
  | vote_cast =>
    mret (number_filter (cfg_proposal_id cfg) (eventProposalId event) && text_filter (cfg_voter cfg) (eventVoter event))
  | delegation_received | delegation_lost => mret (text_filter (cfg_delegatee cfg) (eventDelegatee event))
  | treasury_stream_spend => mret (stream_matches cfg event)
  | proposal_ending_soon =>
    remaining ← prop (ie_value event) "remaining_ledgers"; id ← prop (ie_value event) "proposal_id";
    mret (number_filter (cfg_proposal_id cfg) (Some (js_String id)) &&
          num_le (js_Number remaining) (default 500 (cfg_ledgers_remaining cfg)))
  | proposal_vote_threshold =>
    current ← prop (ie_value event) "current_bps"; id ← prop (ie_value event) "proposal_id";
    mret (number_filter (cfg_proposal_id cfg) (Some (js_String id)) &&
          num_ge (js_Number current) (default 8000 (cfg_threshold_bps cfg)))
  | quorum_reached =>
    match cfg_proposal_id cfg with
    | None => mret true
    | Some _ => id ← prop (ie_value event) "proposal_id"; mret (number_filter (cfg_proposal_id cfg) (Some (js_String id)))
    end
  | guardian_veto | config_updated | contract_paused | contract_upgraded => mret true
  end.

Definition isInCooldown (now : Z) (rule : NotificationRule) : bool :=
  match r_last_triggered_at rule with
  | None => false
  | Some last => now - last <? r_cooldown_seconds rule * 1000
  end.

(** ** The text *)
Record NotificationMessage := mkMessage {
  nm_subject : string; nm_body : string; nm_short : string; nm_actionUrl : option string }.

Definition proposalUrl (proposalId : JsValue) : option string :=
  if nullish proposalId then None else Some ("/proposal/" +:+ js_String proposalId).
Definition extractProposalId (event : IndexerEvent) : JsValue :=
  match own_field "proposal_id" (ie_value event) with
  | Some v => v
  | None => match ie_value event with VArr l => nth_value l 0 | _ => nth_value (default [] (ie_topics event)) 1 end
  end.
Definition extractDelegateeAddress (event : IndexerEvent) : string :=
  match ie_value event with VArr l => js_String (nth_value l 0) | _ => "someone" end.
Definition topic_or (event : IndexerEvent) (text : string) : string :=
  js_String (nth_value (default [] (ie_topics event)) 1 ?? VStr text).

Definition renderNotification (t : TriggerType) (event : IndexerEvent) : NotificationMessage :=
  let proposalId := extractProposalId event in
  let id := js_String proposalId in
  let plain subject body short := mkMessage subject body short None in
  let proposal subject body short := mkMessage subject body short (proposalUrl proposalId) in
  match t with
  | proposal_created => proposal ("New proposal #" +:+ id)
      ("A new governance proposal (#" +:+ id +:+ ") has been created and is now visible on the dashboard.")
      ("New proposal #" +:+ id +:+ " created")
  | proposal_state_changed => proposal ("Proposal #" +:+ id +:+ " update") ("Proposal #" +:+ id +:+ " changed state.")
      ("Proposal #" +:+ id +:+ " state changed")
  | proposal_vote_threshold => proposal ("Proposal #" +:+ id +:+ " nearing quorum")
      ("Proposal #" +:+ id +:+ " has reached your configured vote threshold.") ("Proposal #" +:+ id +:+ " hit vote threshold")
  | proposal_ending_soon => proposal ("Voting closing soon: proposal #" +:+ id)
      ("Voting on proposal #" +:+ id +:+ " is ending soon. Cast your vote before it closes.")
      ("Proposal #" +:+ id +:+ " voting ends soon")
  | vote_cast => proposal ("New vote on proposal #" +:+ id) ("A vote was cast on proposal #" +:+ id +:+ ".")
      ("Vote cast on #" +:+ id)
  | guardian_veto => plain "Guardian veto issued" "A guardian veto was issued on a proposal you're watching."
      "Guardian veto issued"
  | treasury_stream_spend =>
    let value := match ie_value event with VArr l => l | _ => [] end in
    let streamId := js_String (nth_value value 0 ?? VStr "unknown") in
    let amount := js_String
      (nth_value value (if String.eqb (ie_event_type event) "stream_batch" then 1 else 2)%nat ?? VStr "0") in
    mkMessage ("Treasury stream #" +:+ streamId +:+ " spend")
      ("A spend of " +:+ amount +:+ " was made from treasury stream #" +:+ streamId +:+ ".")
      ("Treasury stream #" +:+ streamId +:+ " spent " +:+ amount) (Some ("/treasury/streams/" +:+ streamId))
  | config_updated => plain "Governor configuration updated" "The governor's configuration parameters were updated."
      "Governor config updated"
  | contract_paused => plain "Contract paused" "A governance contract was paused." "Contract paused"
  | contract_upgraded => plain "Governor upgraded" "The governor contract was upgraded to a new implementation."
      "Governor upgraded"
  | delegation_received => plain "New delegation received"
      (topic_or event "someone" +:+ " delegated their voting power to " +:+ extractDelegateeAddress event +:+ ".")
      "New delegation received"
  | delegation_lost => plain "Delegation revoked"
      (topic_or event "A delegator" +:+ " revoked their delegation to " +:+ extractDelegateeAddress event +:+ ".")
      "Delegation revoked"
  | quorum_reached => proposal ("Proposal #" +:+ id +:+ " reached quorum") ("Proposal #" +:+ id +:+ " has reached quorum.")
      ("Proposal #" +:+ id +:+ " reached quorum")
  end.

(** ** Filters *)
Definition no_filters (rule : NotificationRule) : NotificationRule :=
  rule <| r_trigger_config := mkTriggerConfig None None None None None None None None None |>.
(** The two triggers whose unset filter stands for a number. *)
Definition has_default (t : TriggerType) : bool :=
  match t with proposal_ending_soon | proposal_vote_threshold => true | _ => false end.

(** A rule's filters narrow what it matches.  Without them it matches every
    event it did, unless an unset filter stands for a number: for these the
    closing clause has a filter that widens. *)
Theorem filters_narrow {S} (rule : NotificationRule) (event : IndexerEvent) (s s' : S) :
  has_default (r_trigger_type rule) = false →
  ruleMatchesEvent rule event s = (Ok true, s') → ruleMatchesEvent (no_filters rule) event s = (Ok true, s').
Proof.
  unfold ruleMatchesEvent, no_filters. cbn. destruct (r_trigger_type rule); cbn; try done; intros _ Hrun;
    try (injection Hrun; intros; subst; done).
  - injection Hrun as H <-. unfold stream_matches in *. cbn. destruct (ie_value event); try done.
    by destruct (text_integer _).
  - destruct (cfg_proposal_id (r_trigger_config rule)); [|done]. revert Hrun. unfold mbind, M_bind.
    destruct (prop (ie_value event) "proposal_id" s) as [[id|e] s1] eqn:Hp; [|done]. intros [= _ <-].
    unfold prop in Hp. destruct (ie_value event); try done; injection Hp as <- <-; done.
Qed.
(** 1000 ledgers before the end: an unset filter says 500. *)
Example ending_soon_filter_widens :
  let rule n := mkRule 1 1 proposal_ending_soon (mkTriggerConfig None None None n None None None None None) [] true 0 None 0 in
  let event := mkIndexerEvent "proposal_ending_soon" None (VObj [("proposal_id", VStr "7"); ("remaining_ledgers", VNum 1000)]) in
  ruleMatchesEvent (rule None) event tt = (Ok false, tt) ∧ ruleMatchesEvent (rule (Some 1000)) event tt = (Ok true, tt).
Proof. done. Qed.

(** A rule about votes sees the vote the indexer logged: the proposal in its
    value, now text, and the voter in its topics. *)
Lemma logged_vote_matches {S} (rule : NotificationRule) (event : EventResponse) name voter id rest (s : S) :
  r_trigger_type rule = vote_cast → ev_value event = VArr (VBig id :: rest) →
  ruleMatchesEvent rule (logged_event "VoteCast" [name; VStr voter] event) s =
    (Ok (number_filter (cfg_proposal_id (r_trigger_config rule)) (Some (decimal id)) &&
         text_filter (cfg_voter (r_trigger_config rule)) (Some voter)), s).
Proof. intros Ht Hv. unfold ruleMatchesEvent, logged_event. rewrite Ht, Hv. done. Qed.
