(* ===== verification/NotificationEngine.v ===== *)
(** * The notification engine

    [backend/src/notifications/engine.ts] and the jobs that drive it,
    [backend/src/jobs/notification-processor.ts] and [delivery-retry.ts], with
    the forced retry of [backend/src/routes/notifications.ts].  What happens
    outside is the class [Network]: a clock and the answers to requests. *)

From stdpp Require Import sorting.
From S2P Require Import Prelude JsValues IndexerDb IndexerWorld Effects.
From S2P Require Import Notifications.
Open Scope Z_scope.

Definition MAX_RETRIES : Z := 5.
Definition BASE_RETRY_DELAY_MS : Z := 30000.
Definition EVENT_BATCH_SIZE : nat := 200.
Definition RETRY_BATCH_SIZE : nat := 50.

(** ** Tables *)
Inductive DeliveryStatus := StPending | StDelivered | StFailed | StRetrying.
#[export] Instance DeliveryStatus_eq_dec : EqDecision DeliveryStatus.
Proof. solve_decision. Defined.
Record Delivery := mkDelivery {
  dl_rule_id : Z; dl_user_id : Z; dl_event : IndexerEvent; dl_channel_type : string;
  dl_status : DeliveryStatus; dl_attempts : Z; dl_last_attempt_at : option Z; dl_next_retry_at : option Z;
  dl_delivered_at : option Z; dl_error_message : option string }.
#[export] Instance Delivery_eta : Eta Delivery := λ d, mkDelivery (dl_rule_id d) (dl_user_id d) (dl_event d)
  (dl_channel_type d) (dl_status d) (dl_attempts d) (dl_last_attempt_at d) (dl_next_retry_at d) (dl_delivered_at d)
  (dl_error_message d).
Record InAppNotification := mkInApp {
  ia_user_id : Z; ia_rule_id : Z; ia_title : string; ia_body : string; ia_action_url : option string }.
(** A row of [event_log], with its serial number. *)
Record LoggedEvent := mkLogged { lg_id : Z; lg_event : IndexerEvent }.

(** ** Outside *)
Inductive Request :=
  | EmailRequest (apiUrl apiKey from to subject text : string)
  | WebhookRequest (url signature event_type body : string)
  | TelegramRequest (botToken chat_id text : string).
(** [post] is a [fetch] with its time limit: the status of the answer, or a
    throw. *)
Class Network (Net : Type) := {
  clock : Net → Z;
  post : Request → M Net Z;
}.
Record NotifyEnv := mkNotifyEnv {
  EMAIL_PROVIDER_API_URL : option string; EMAIL_PROVIDER_API_KEY : option string;
  EMAIL_FROM_ADDRESS : option string; TELEGRAM_BOT_TOKEN : option string }.

(** The rules of all users, the deliveries by id, the log in the order of its
    ids, and the cursor, which is text: the driver returns a BIGINT so. *)
Record NState (Net : Type) := mkNState {
  n_rules : gmap Z NotificationRule;
  n_deliveries : gmap Z Delivery;
  n_next_delivery : Z;
  n_in_app : list InAppNotification;
  n_log : list LoggedEvent;
  n_cursor : Z;
  n_indexed : Db;
  n_net : Net;
  n_requests : list Request }.
Arguments mkNState {Net} _ _ _ _ _ _ _ _ _.
Arguments n_rules {Net} _.
Arguments n_deliveries {Net} _.
Arguments n_next_delivery {Net} _.
Arguments n_in_app {Net} _.
Arguments n_log {Net} _.
Arguments n_cursor {Net} _.
Arguments n_indexed {Net} _.
Arguments n_net {Net} _.
Arguments n_requests {Net} _.
#[export] Instance NState_eta {Net} : Eta (NState Net) := λ s, mkNState (n_rules s) (n_deliveries s) (n_next_delivery s)
  (n_in_app s) (n_log s) (n_cursor s) (n_indexed s) (n_net s) (n_requests s).

Definition error_text (e : JsError) : string := match e with MockContractError _ t | SdkError _ _ t | PlainError t => t end.
Section engine.
Context {Net : Type} `{!Network Net}.
Context (computeHmac : string → string → string) (toISOString : Z → string) (env : NotifyEnv).
Implicit Types (s : NState Net) (rule : NotificationRule) (event : IndexerEvent) (message : NotificationMessage).

Definition now : M (NState Net) Z := gets (λ s, clock (n_net s)).
Definition refused {A} : M (NState Net) A := throw (PlainError "the database refuses the statement").
Definition fetch (r : Request) : M (NState Net) Z := λ s,
  let '(o, net) := post r (n_net s) in (o, s <| n_net := net |> <| n_requests ::= (λ l, l ++ [r]) |>).
Definition response_ok (status : Z) : bool := (200 <=? status) && (status <? 300).

(** ** Deliveries *)
Definition recordDelivery rule event (channelType : string) : M (NState Net) Z :=
  s ← get;
  if bool_decide (is_Some (n_rules s !! r_id rule)) && (char_length (ie_event_type event) <=? 64) then
    let id := n_next_delivery s in
    modify (λ s, s <| n_next_delivery := id + 1 |>
      <| n_deliveries ::= <[id := mkDelivery (r_id rule) (r_user_id rule) event channelType StPending 0 None None None None]> |>);;
    mret id
  else modify (λ s, s <| n_next_delivery ::= (Z.add 1) |>);; refused.

Definition update_delivery (id : Z) (f : Delivery → Delivery) : M (NState Net) unit :=
  modify (λ s, s <| n_deliveries ::= (alter f id) |>).
Definition delivered_at (t : Z) (d : Delivery) : Delivery :=
  d <| dl_status := StDelivered |> <| dl_delivered_at := Some t |> <| dl_attempts ::= (Z.add 1) |>
    <| dl_last_attempt_at := Some t |>.
(** The right sides read the row before the statement. *)
Definition failed_at (t : Z) (errorMessage : string) (d : Delivery) : Delivery :=
  let last := MAX_RETRIES <=? dl_attempts d + 1 in
  d <| dl_attempts := dl_attempts d + 1 |> <| dl_last_attempt_at := Some t |> <| dl_error_message := Some errorMessage |>
    <| dl_status := if last then StFailed else StRetrying |>
    <| dl_next_retry_at := if last then None else Some (t + BASE_RETRY_DELAY_MS * 2 ^ dl_attempts d) |>.
Definition enqueueRetry (deliveryId : Z) (errorMessage : string) : M (NState Net) unit :=
  t ← now; update_delivery deliveryId (failed_at t errorMessage).

(** ** Channels *)
Definition deliverInApp rule message : M (NState Net) unit :=
  s ← get;
  if bool_decide (is_Some (n_rules s !! r_id rule)) && (char_length (nm_subject message) <=? 256) then
    modify (λ s, s <| n_in_app ::= (λ l, l ++ [mkInApp (r_user_id rule) (r_id rule) (nm_subject message) (nm_body message)
      (nm_actionUrl message)]) |>)
  else refused.

Definition set_text (v : option string) : option string :=
  match v with Some EmptyString => None | _ => v end.
Definition deliverEmail (address : string) message : M (NState Net) unit :=
  match set_text (EMAIL_PROVIDER_API_URL env), set_text (EMAIL_PROVIDER_API_KEY env) with
  | Some apiUrl, Some apiKey =>
    status ← fetch (EmailRequest apiUrl apiKey (default "notifications@nebgov.dev" (EMAIL_FROM_ADDRESS env)) address
      (nm_subject message) (nm_body message));
    throw_if (negb (response_ok status)) (PlainError ("Email provider returned HTTP " +:+ decimal status))
  | _, _ => throw (PlainError "Email provider not configured (EMAIL_PROVIDER_API_URL / EMAIL_PROVIDER_API_KEY)")
  end.

Definition message_json message : JsValue :=
  VObj [("subject", VStr (nm_subject message)); ("body", VStr (nm_body message)); ("short", VStr (nm_short message));
        ("actionUrl", opt_undefined (nm_actionUrl message))].
Definition deliverWebhook (url secret : string) event message : M (NState Net) unit :=
  t ← now;
  let body := stringifyJson
    (VObj [("event", VStr (ie_event_type event)); ("message", message_json message); ("timestamp", VStr (toISOString t))]) in
  status ← fetch (WebhookRequest url (computeHmac body secret) (ie_event_type event) body);
  throw_if (negb (response_ok status)) (PlainError ("Webhook endpoint returned HTTP " +:+ decimal status)).

Definition deliverTelegram (chat_id : string) message : M (NState Net) unit :=
  match set_text (TELEGRAM_BOT_TOKEN env) with
  | None => throw (PlainError "Telegram bot not configured (TELEGRAM_BOT_TOKEN)")
  | Some botToken =>
    status ← fetch (TelegramRequest botToken chat_id (nm_short message));
    throw_if (negb (response_ok status)) (PlainError ("Telegram API returned HTTP " +:+ decimal status))
  end.

Definition deliver_to rule event (channel : StoredNotificationChannel) message : M (NState Net) unit :=
  match channel with
  | InAppChannel => deliverInApp rule message
  | EmailChannel address => deliverEmail address message
  | WebhookChannel url secret => deliverWebhook url secret event message
  | TelegramChannel chat_id => deliverTelegram chat_id message
  end.

Record DeliveryResult := mkDeliveryResult {
  res_ruleId : Z; res_channelType : string; res_delivered : bool; res_error : option string }.

Definition attemptDelivery (deliveryId : Z) rule event channel message : M (NState Net) DeliveryResult :=
  try_catch
    (deliver_to rule event channel message;;
     t ← now; update_delivery deliveryId (delivered_at t);;
     mret (mkDeliveryResult (r_id rule) (channel_type channel) true None))
    (λ err, enqueueRetry deliveryId (error_text err);;
            mret (mkDeliveryResult (r_id rule) (channel_type channel) false (Some (error_text err)))).
Definition deliverNotification rule event channel message : M (NState Net) DeliveryResult :=
  deliveryId ← recordDelivery rule event (channel_type channel);
  attemptDelivery deliveryId rule event channel message.

(** ** Events *)
Definition matchRules event : M (NState Net) (list NotificationRule) :=
  match resolveTriggerTypes event with
  | [] => mret []
  | triggerTypes =>
    rows ← gets (λ s, (map_to_list (base.filter (λ kv, r_enabled kv.2 = true ∧ r_trigger_type kv.2 ∈ triggerTypes) (n_rules s))).*2);
    filter_m (λ rule, ruleMatchesEvent rule event) rows
  end.

Definition triggered_at (t : Z) rule : NotificationRule :=
  rule <| r_last_triggered_at := Some t |> <| r_trigger_count ::= (Z.add 1) |>.
Definition trigger_rule event rule : M (NState Net) unit :=
  t ← now;
  if isInCooldown t rule then mret tt
  else
    let message := renderNotification (r_trigger_type rule) event in
    for_each (λ channel, deliverNotification rule event channel message;; mret tt) (r_channels rule);;
    t ← now;
    modify (λ s, s <| n_rules ::= (alter (triggered_at t) (r_id rule)) |>).
Definition evaluateEvent event : M (NState Net) unit :=
  rules ← matchRules event; for_each (trigger_rule event) rules.

(** ** The processor *)

(** The rows after the cursor. *)
Definition next_batch s : list LoggedEvent :=
  take EVENT_BATCH_SIZE (base.filter (λ row, n_cursor s < lg_id row) (n_log s)).
(** One round: the event, and the larger of two texts. *)
Definition process_row (maxId : Z) (row : LoggedEvent) : M (NState Net) Z :=
  try_catch (evaluateEvent (lg_event row)) (λ _, mret tt);;
  mret (if text_gt (decimal (lg_id row)) (decimal maxId) then lg_id row else maxId).
Fixpoint process_rows (maxId : Z) (rows : list LoggedEvent) : M (NState Net) Z :=
  match rows with
  | [] => mret maxId
  | row :: rows => maxId ← process_row maxId row; process_rows maxId rows
  end.
Definition processNewEvents : M (NState Net) unit :=
  cursor ← gets n_cursor;
  rows ← gets next_batch;
  match rows with
  | [] => mret tt
  | _ => maxId ← process_rows cursor rows; modify (λ s, s <| n_cursor := maxId |>)
  end.

Definition evaluateSynthetic (eventType : string) (proposalId : Z) (value : list (string * JsValue)) : M (NState Net) unit :=
  evaluateEvent (mkIndexerEvent eventType (Some [VStr "synthetic"; VStr (decimal proposalId)]) (VObj value)).
Definition open_proposals (currentLedger : Z) (d : Db) : list (Z * ProposalRow) :=
  map_to_list (base.filter (λ kv, pr_executed kv.2 = false ∧ pr_cancelled kv.2 = false ∧ currentLedger < pr_end_ledger kv.2)
    (proposals d)).
Definition checkProposalTimers : M (NState Net) unit :=
  subscribers ← gets (λ s, base.filter (λ kv, r_enabled kv.2 = true ∧ r_trigger_type kv.2 = proposal_ending_soon) (n_rules s));
  if bool_decide (subscribers = ∅) then mret tt
  else
    currentLedger ← gets (λ s, last_ledger (n_indexed s));
    if currentLedger =? 0 then mret tt
    else
      rows ← gets (λ s, open_proposals currentLedger (n_indexed s));
      for_each (λ row, evaluateSynthetic "proposal_ending_soon" row.1
        [("proposal_id", VStr (decimal row.1)); ("remaining_ledgers", VNum (pr_end_ledger row.2 - currentLedger))]) rows.
(** The body of [tick]; a thrown error is logged. *)
Definition tick : M (NState Net) unit :=
  try_catch (processNewEvents;; checkProposalTimers) (λ _, mret tt).

(** ** Retries *)
Definition due (t : Z) (d : Delivery) : bool :=
  bool_decide (dl_status d = StRetrying) && match dl_next_retry_at d with Some r => r <=? t | None => false end.
Definition retry_before (a b : Z * Delivery) : Prop :=
  default 0 (dl_next_retry_at a.2) ≤ default 0 (dl_next_retry_at b.2).
#[local] Instance retry_before_dec a b : Decision (retry_before a b).
Proof. unfold retry_before. apply _. Defined.
(** The rows joined with their rules. *)
Definition due_retries (t : Z) s : list (Z * Delivery * NotificationRule) :=
  take RETRY_BATCH_SIZE (omap (λ kd, rule ← n_rules s !! dl_rule_id kd.2; Some (kd, rule))
    (merge_sort retry_before (base.filter (λ kd, due t kd.2 = true) (map_to_list (n_deliveries s))))).

(** [channels.find((c) => c.type === row.channel_type)] *)
Definition find_channel (type : string) (channels : list StoredNotificationChannel) : option StoredNotificationChannel :=
  List.find (λ c, String.eqb (channel_type c) type) channels.
Definition retry_row (row : Z * Delivery * NotificationRule) : M (NState Net) unit :=
  let '(id, delivery, rule) := row in
  match find_channel (dl_channel_type delivery) (r_channels rule) with
  | None => update_delivery id (λ d, d <| dl_status := StFailed |> <| dl_next_retry_at := None |>)
  | Some channel =>
    attemptDelivery id rule (dl_event delivery) channel (renderNotification (r_trigger_type rule) (dl_event delivery));;
    mret tt
  end.
Definition processDueRetries : M (NState Net) unit :=
  t ← now;
  rows ← gets (due_retries t);
  for_each retry_row rows.

(** [GET /notifications/deliveries/:id/retry] *)
Inductive RetryAnswer := NotFound | NotRetryable | ChannelGone | Retried (result : DeliveryResult).
Definition retryDelivery (userId id : Z) : M (NState Net) RetryAnswer :=
  s ← get;
  match n_deliveries s !! id with
  | Some delivery =>
    match n_rules s !! dl_rule_id delivery with
    | Some rule =>
      if negb (dl_user_id delivery =? userId) then mret NotFound
      else if bool_decide (dl_status delivery ≠ StFailed ∧ dl_status delivery ≠ StRetrying) then mret NotRetryable
      else match find_channel (dl_channel_type delivery) (r_channels rule) with
      | None => mret ChannelGone
      | Some channel =>
        result ← attemptDelivery id rule (dl_event delivery) channel
          (renderNotification (r_trigger_type rule) (dl_event delivery));
        mret (Retried result)
      end
    | None => mret NotFound
    end
  | None => mret NotFound
  end.
End engine.
