(* ===== verification/NotificationHistory.v ===== *)
(** * Histories of notifications

    What holds however the two jobs of the notification engine alternate with
    everything else: how often a delivery is attempted, that settled ones stay
    settled, how far triggers of a rule are apart, and where the processor's
    cursor goes. *)

From stdpp Require Import sorting.
From S2P Require Import Prelude JsValues IndexerDb IndexerWorld Effects.
From S2P Require Import Notifications NotificationEngine.
Open Scope Z_scope.

(** ** Steps of the jobs *)
#[export] Instance matches_reads {S} rule event : Reads (S := S) (ruleMatchesEvent rule event).
Proof. unfold ruleMatchesEvent. destruct (r_trigger_type rule); [apply _..|]. destruct (cfg_proposal_id _); apply _. Qed.

(** Time does not go back. *)
Class NetworkLaws (Net : Type) `{!Network Net} : Prop :=
  post_clock : ∀ r c, clock c ≤ clock (post r c).2.

Section history.
Context {Net : Type} `{!Network Net} `{!NetworkLaws Net}.
Context (computeHmac : string → string → string) (toISOString : Z → string) (env : NotifyEnv).
Implicit Types (s : NState Net) (rule : NotificationRule) (event : IndexerEvent) (message : NotificationMessage).

(** ** One attempt *)

(** A channel sends at most one request, and touches no table but the in-app
    notifications. *)
Record sends s s' : Prop := mkSends {
  sd_rules : n_rules s' = n_rules s;
  sd_deliveries : n_deliveries s' = n_deliveries s;
  sd_next : n_next_delivery s' = n_next_delivery s;
  sd_log : n_log s' = n_log s;
  sd_cursor : n_cursor s' = n_cursor s;
  sd_clock : clock (n_net s) ≤ clock (n_net s');
  sd_requests : ∃ new, n_requests s' = n_requests s ++ new ∧ (length new ≤ 1)%nat }.
Lemma sends_refl s : sends s s.
Proof. split; try done. exists []. rewrite app_nil_r. split; [done|cbn; lia]. Qed.

Lemma fetch_sends r s : wp (fetch r) (λ _, sends s) (λ _, sends s) s.
Proof.
  unfold wp, fetch. pose proof (post_clock r (n_net s)) as Hc. destruct (post r (n_net s)) as [o net].
  assert (sends s (s <| n_net := net |> <| n_requests ::= (λ l, l ++ [r]) |>)) as Hs.
  { split; cbn; try done. exists [r]. split; [done|cbn; lia]. }
  by destruct o.
Qed.
Lemma fetch_checked r (f : Z → bool) e s :
  wp (status ← fetch r; throw_if (f status) (e status)) (λ _, sends s) (λ _, sends s) s.
Proof.
  apply wp_bind. eapply wp_mono; [apply fetch_sends| |done]. cbn. intros status s1 Hs1. by wp_step.
Qed.
Lemma deliver_sends rule event channel message s :
  wp (deliver_to computeHmac toISOString env rule event channel message) (λ _, sends s) (λ _, sends s) s.
Proof.
  destruct channel; cbn [deliver_to].
  - unfold deliverInApp, refused. wp_go; [|apply sends_refl]. split; try done. exists []. rewrite app_nil_r. split; [done|cbn; lia].
  - unfold deliverEmail. destruct (set_text _); [|apply sends_refl]. destruct (set_text _); [|apply sends_refl].
    apply (fetch_checked _ _ (λ status, PlainError _)).
  - unfold deliverWebhook, now. wp_step. wp_step. apply (fetch_checked _ _ (λ status, PlainError _)).
  - unfold deliverTelegram. destruct (set_text _); [|apply sends_refl].
    apply (fetch_checked _ _ (λ status, PlainError _)).
Qed.

(** An attempt changes the row of its delivery only, as a success or as a
    failure at the time it ends; it never throws. *)
Definition outcome_row (t : Z) (f : Delivery → Delivery) : Prop := f = delivered_at t ∨ ∃ e, f = failed_at t e.
Record attempted (id : Z) s s' : Prop := mkAttempted {
  at_rules : n_rules s' = n_rules s;
  at_next : n_next_delivery s' = n_next_delivery s;
  at_log : n_log s' = n_log s;
  at_cursor : n_cursor s' = n_cursor s;
  at_clock : clock (n_net s) ≤ clock (n_net s');
  at_requests : ∃ new, n_requests s' = n_requests s ++ new ∧ (length new ≤ 1)%nat;
  at_row : ∃ f, outcome_row (clock (n_net s')) f ∧ n_deliveries s' = alter f id (n_deliveries s) }.
Lemma sends_attempted id s s1 f :
  sends s s1 → outcome_row (clock (n_net s1)) f → attempted id s (s1 <| n_deliveries ::= (alter f id) |>).
Proof. intros [Hr Hd Hn Hl Hc Ht Hq] Hf. split; try done. exists f. cbn. by rewrite Hd. Qed.
Lemma attempt_runs id rule event channel message s :
  wp (attemptDelivery computeHmac toISOString env id rule event channel message)
    (λ _ s', attempted id s s') (λ _ _, False) s.
Proof.
  pose proof (deliver_sends rule event channel message s) as Hsends.
  unfold attemptDelivery, try_catch, enqueueRetry, update_delivery, now. unfold wp in *.
  unfold mbind, M_bind, gets, modify, mret, M_ret in *. destruct (deliver_to _ _ _ _ _ _ _ s) as [[u|e] s1]; cbn.
  - apply (sends_attempted id s s1 _ Hsends). by left.
  - apply (sends_attempted id s s1 _ Hsends). right. by eexists.
Qed.

(** ** Deliveries *)
Definition settled (d : Delivery) : Prop := dl_status d = StDelivered ∨ dl_status d = StFailed.
(** How far a delivery is whose retry has been forced [k] times. *)
Definition delivery_ok (k : nat) (d : Delivery) : Prop :=
  0 ≤ dl_attempts d ≤ MAX_RETRIES + Z.of_nat k ∧
  match dl_status d with
  | StPending => dl_attempts d = 0
  | StRetrying => 0 < dl_attempts d < MAX_RETRIES ∧ ∃ t, dl_last_attempt_at d = Some t ∧
      dl_next_retry_at d = Some (t + BASE_RETRY_DELAY_MS * 2 ^ (dl_attempts d - 1))
  | StDelivered => 0 < dl_attempts d ∧ dl_delivered_at d = dl_last_attempt_at d
  | StFailed => dl_next_retry_at d = None
  end.
Definition total_attempts s : Z := map_sum (λ _, dl_attempts) (n_deliveries s).
Record Deliveries_ok (k : Z → nat) s : Prop := mkDeliveriesOk {
  do_rows : map_Forall (λ id, delivery_ok (k id)) (n_deliveries s);
  do_fresh : ∀ id, is_Some (n_deliveries s !! id) → id < n_next_delivery s;
  do_requests : Z.of_nat (length (n_requests s)) ≤ total_attempts s }.

(** An attempt, of an open delivery or of one whose retry is forced. *)
Lemma attempted_ok k t f d :
  outcome_row t f → delivery_ok k d → dl_status d ≠ StDelivered →
  let k' := if decide (settled d) then S k else k in delivery_ok k' (f d) ∧ dl_attempts (f d) = dl_attempts d + 1.
Proof.
  intros Hf [Hbound Hd] Hopen.
  assert (0 ≤ dl_attempts d < MAX_RETRIES + Z.of_nat (if decide (settled d) then S k else k)) as Hlt.
  { case_decide as Hset; [lia|]. unfold settled in Hset.
    destruct (dl_status d); unfold MAX_RETRIES in *; [lia|exfalso; auto|exfalso; auto|lia]. }
  revert Hlt. generalize (if decide (settled d) then S k else k). intros k' Hlt.
  destruct Hf as [->|[e ->]].
  - unfold delivered_at, delivery_ok. cbn. unfold MAX_RETRIES in *. split; [|lia]. split; [lia|]. split; [lia|done].
  - unfold failed_at, delivery_ok. cbn. split; [|done]. unfold MAX_RETRIES in *. split; [lia|].
    destruct (Z.leb_spec 5 (dl_attempts d + 1)); [done|]. split; [lia|]. exists t. split; [done|]. f_equal. f_equal. f_equal. f_equal. lia.
Qed.
(** So the deliveries stay in order when the count of the one attempted allows it. *)
Lemma attempted_deliveries k k' id s s' d :
  attempted id s s' → n_deliveries s !! id = Some d → dl_status d ≠ StDelivered →
  (∀ i, i ≠ id → k' i = k i) → k' id = (if decide (settled d) then S (k id) else k id) →
  Deliveries_ok k s → Deliveries_ok k' s' ∧ ∀ i, i ≠ id → n_deliveries s' !! i = n_deliveries s !! i.
Proof.
  intros [_ Hnext _ _ _ (new & Hnew & Hlen) (f & Hf & Hrows)] Hd Hopen Hk Hid [Hok Hfresh Hreq].
  destruct (attempted_ok _ _ _ _ Hf (Hok _ _ Hd) Hopen) as [Hfd Hatt]. rewrite <- Hid in Hfd.
  split; [split|].
  - intros i x. rewrite Hrows, lookup_alter_Some. intros [(-> & y & Hy & ->)|[Hi Hx]]; [|rewrite Hk by done; by eapply Hok].
    rewrite Hd in Hy. by injection Hy as <-.
  - intros i. rewrite Hrows, Hnext. rewrite lookup_alter_is_Some. apply Hfresh.
  - unfold total_attempts in *. rewrite Hrows, (map_sum_alter _ _ _ _ _ Hd), Hatt, Hnew, length_app. lia.
  - intros i Hi. by rewrite Hrows, lookup_alter_ne.
Qed.

(** The kind of step the jobs make on the deliveries. *)
Section jobs.
Context (k : Z → nat).
Record delivers s s' : Prop := mkDelivers {
  dv_ok : Deliveries_ok k s';
  dv_settled : ∀ id d, n_deliveries s !! id = Some d → settled d → n_deliveries s' !! id = Some d }.
Definition on_deliveries s s' : Prop := Deliveries_ok k s → delivers s s'.
#[local] Instance on_deliveries_preorder : PreOrder on_deliveries.
Proof.
  split.
  - intros s Hs. split; [done|auto].
  - intros s1 s2 s3 H12 H23 H1. destruct (H12 H1) as [H2 Hk]. destruct (H23 H2) as [H3 Hk']. split; [done|auto].
Qed.

Lemma attempted_delivers id s s' d :
  attempted id s s' → n_deliveries s !! id = Some d → ¬ settled d → on_deliveries s s'.
Proof.
  intros Hat Hd Hopen Hs.
  destruct (attempted_deliveries k k id s s' d Hat Hd) as [Hs' Hrest]; [|done|by rewrite decide_False|done|].
  { intros Hst. apply Hopen. by left. }
  split; [done|]. intros i x Hx Hset. rewrite Hrest; [done|]. intros ->. rewrite Hd in Hx. by injection Hx as <-.
Qed.

#[local] Instance deliver_ev rule event channel message :
  Evolves on_deliveries (deliverNotification computeHmac toISOString env rule event channel message).
Proof.
  intros s. unfold deliverNotification, recordDelivery, refused. rewrite wp_bind. wp_go.
  - set (id := n_next_delivery s). set (d := mkDelivery _ _ _ _ _ _ _ _ _ _).
    set (s1 := upd _ _ _). eapply wp_mono; [apply (attempt_runs id)| |done]. cbn. intros _ s' Hat Hs.
    assert (n_deliveries s !! id = None) as Hnone.
    { apply eq_None_not_Some. intros Hid%(do_fresh _ _ Hs). subst id. lia. }
    assert (n_deliveries s1 !! id = Some d) as Hd1 by apply lookup_insert_eq.
    assert (delivers s s1) as H1.
    { destruct Hs as [Hok Hfresh Hreq]. split; [split|]; cbn.
      - apply map_Forall_insert_2; [|done]. split; [cbn; unfold MAX_RETRIES; lia|done].
      - intros i. rewrite lookup_insert_is_Some. intros [<-|[_ Hi%Hfresh]]; subst id; lia.
      - unfold total_attempts in *. cbn. rewrite map_sum_insert_new by done. cbn. lia.
      - intros i x Hx _. rewrite lookup_insert_ne; [done|]. intros <-. congruence. }
    assert (on_deliveries s s') as Hgo; [|by apply Hgo].
    etransitivity; [by intros _|]. eapply attempted_delivers; [exact Hat|exact Hd1|]. by intros [?|?].
  - intros Hs. destruct Hs as [Hok Hfresh Hreq]. split; [split|]; cbn; [done| |done|auto]. intros i Hi%Hfresh. lia.
Qed.
#[export] Instance matchRules_evolves (R : NState Net → NState Net → Prop) `{!PreOrder R} event : Evolves R (matchRules event).
Proof. unfold matchRules. destruct (resolveTriggerTypes event); apply _. Qed.
(** An event, given what its deliveries and its rules are worth. *)
Lemma evaluate_evolves (R : NState Net → NState Net → Prop) `{!PreOrder R} event :
  (∀ rule channel message, Evolves R (deliverNotification computeHmac toISOString env rule event channel message)) →
  (∀ s f, R s (s <| n_rules ::= f |>)) → Evolves R (evaluateEvent computeHmac toISOString env event).
Proof.
  intros Hdeliver Hrules. assert (∀ f, Evolves R (modify (λ s, s <| n_rules ::= f |>))) as Hmodify.
  { intros f s. wp_step. apply Hrules. }
  unfold evaluateEvent, trigger_rule, now. apply _.
Qed.
(** A tick, given what its events are worth. *)
Lemma tick_evolves (R : NState Net → NState Net → Prop) `{!PreOrder R} :
  (∀ event, Evolves R (evaluateEvent computeHmac toISOString env event)) →
  (∀ s cursor, R s (s <| n_cursor := cursor |>)) → Evolves R (tick computeHmac toISOString env).
Proof.
  intros Hevent Hcursor. assert (∀ cursor, Evolves R (modify (λ s, s <| n_cursor := cursor |>))) as Hmodify.
  { intros cursor s. wp_step. apply Hcursor. }
  assert (∀ rows maxId, Evolves R (process_rows computeHmac toISOString env maxId rows)) as Hrows.
  { intros rows. induction rows as [|row rows IH]; intros maxId; cbn [process_rows]; [apply _|]. unfold process_row. apply _. }
  unfold tick, processNewEvents, checkProposalTimers, evaluateSynthetic.
  apply ev_catch; [apply _|apply ev_bind; [apply _| |apply _]|apply _].
  apply ev_bind; [apply _..|]. intros cursor. apply ev_bind; [apply _..|]. intros [|row rows]; apply _.
Qed.

(** A change that concerns no delivery. *)
Lemma on_deliveries_frame s s' :
  n_deliveries s' = n_deliveries s → n_next_delivery s' = n_next_delivery s → n_requests s' = n_requests s →
  on_deliveries s s'.
Proof.
  intros Hd Hn Hr [Hok Hfresh Hreq]. split; [split|]; rewrite ?Hd, ?Hn, ?Hr; try done.
  unfold total_attempts in *. by rewrite Hd.
Qed.

#[local] Instance tick_ev : Evolves on_deliveries (tick computeHmac toISOString env).
Proof.
  apply tick_evolves; [apply _| |intros; by apply on_deliveries_frame].
  intros event. apply evaluate_evolves; [apply _|apply _|]. intros. by apply on_deliveries_frame.
Qed.

(** The rows of a batch of retries are as they were read until their turn. *)
Definition as_read s (rows : list (Z * Delivery * NotificationRule)) : Prop :=
  NoDup rows.*1.*1 ∧ ∀ id d r, (id, d, r) ∈ rows → n_deliveries s !! id = Some d ∧ dl_status d = StRetrying.
Lemma retry_row_ev id d rule rows s :
  as_read s ((id, d, rule) :: rows) →
  wp (retry_row computeHmac toISOString env (id, d, rule)) (λ _ s', on_deliveries s s' ∧ as_read s' rows) (λ _ _, False) s.
Proof.
  intros [Hnd Hread]. rewrite !fmap_cons in Hnd. apply NoDup_cons in Hnd as [Hnew Hnd].
  destruct (Hread id d rule) as [Hd Hst]; [by left|].
  assert (¬ settled d) as Hopen by (unfold settled; rewrite Hst; by intros [|]).
  assert (∀ s' f, n_deliveries s' = alter f id (n_deliveries s) → as_read s' rows) as Hrest.
  { intros s' f Hrows. split; [done|]. intros i x r Hin. rewrite Hrows, lookup_alter_ne.
    - apply (Hread i x r). by right.
    - intros <-. apply Hnew. apply list_elem_of_fmap. exists (id, x). split; [done|].
      apply list_elem_of_fmap. by exists (id, x, r). }
  unfold retry_row. destruct (find_channel _ _) as [channel|].
  - wp_step. eapply wp_mono; [apply (attempt_runs id)| |done]. cbn. intros _ s' Hat.
    split; [by eapply attempted_delivers|]. destruct Hat as [_ _ _ _ _ _ (f & _ & Hrows)]. by eapply Hrest.
  - unfold update_delivery. wp_step. split; [|by eapply Hrest].
    intros [Hok Hfresh Hreq]. split; [split|]; cbn.
    + intros i x. rewrite lookup_alter_Some. intros [(-> & y & Hy & ->)|[_ Hx]]; [|by eapply Hok].
      destruct (Hok _ _ Hy) as [Hb _]. split; [exact Hb|]. done.
    + intros i. rewrite lookup_alter_is_Some. apply Hfresh.
    + unfold total_attempts in *. cbn. rewrite (map_sum_alter _ _ _ _ _ Hd). cbn. lia.
    + intros i x Hx Hset. rewrite lookup_alter_ne; [done|]. intros <-. rewrite Hd in Hx. injection Hx as <-. done.
Qed.
Lemma due_retries_read t s : as_read s (due_retries t s).
Proof.
  unfold due_retries.
  set (l := merge_sort _ _).
  assert (∀ id d, (id, d) ∈ l → n_deliveries s !! id = Some d ∧ dl_status d = StRetrying) as Hl.
  { intros id d Hin. subst l. rewrite merge_sort_Permutation in Hin. apply list_elem_of_filter in Hin as [Hdue Hin].
    split; [by apply elem_of_map_to_list|]. unfold due in Hdue. apply andb_true_iff in Hdue as [Hdue _].
    by apply bool_decide_eq_true in Hdue. }
  assert (NoDup l.*1) as Hnd.
  { subst l. rewrite merge_sort_Permutation. eapply sublist_NoDup; [apply (NoDup_fst_map_to_list (n_deliveries s))|].
    apply fmap_sublist, sublist_filter. }
  set (f := λ kd : Z * Delivery, _).
  assert ((omap f l).*1 `sublist_of` l) as Hsub.
  { clear Hl Hnd. induction l as [|kd l IH]; cbn; [constructor|].
    destruct (f kd) as [[kd' r]|] eqn:Hf; cbn; [|by apply sublist_cons].
    subst f. cbn in Hf. destruct (n_rules s !! dl_rule_id kd.2); [|done]. injection Hf as <- _. by apply sublist_skip. }
  split.
  - eapply sublist_NoDup; [exact Hnd|]. apply fmap_sublist. etransitivity; [|exact Hsub].
    apply fmap_sublist. apply sublist_take.
  - intros id d r Hin. apply Hl. apply elem_of_take in Hin as (i & Hi & _). apply list_elem_of_lookup_2 in Hi.
    apply list_elem_of_omap in Hi as (kd & Hkd & Hf). subst f. cbn in Hf. destruct (n_rules s !! _); [|done].
    cbn in Hf. injection Hf as -> _. done.
Qed.
#[local] Instance retries_ev : Evolves on_deliveries (processDueRetries computeHmac toISOString env).
Proof.
  intros s. unfold processDueRetries, now. do 4 wp_step. generalize (due_retries_read (clock (n_net s)) s).
  generalize (due_retries (clock (n_net s)) s). intros rows.
  assert (∀ s1, as_read s1 rows → wp (for_each (retry_row computeHmac toISOString env) rows) (λ _, on_deliveries s1)
    (λ _, on_deliveries s1) s1) as Hall; [|by apply Hall].
  induction rows as [|[[id d] rule] rows IH]; intros s1 Hread; cbn [for_each]; [apply wp_ret; reflexivity|].
  apply ev_bind_at; [apply _|]. eapply wp_mono; [by apply retry_row_ev| |done]. cbn. intros [] s2 [Hs2 Hread2]. split; [done|].
  by apply IH.
Qed.
End jobs.
#[local] Existing Instances on_deliveries_preorder tick_ev retries_ev.

(** ** Histories *)

(** The two jobs; and the indexer, time and the network. *)
Inductive job_step : NState Net → NState Net → Prop :=
  | step_tick s o s' : tick computeHmac toISOString env s = (o, s') → job_step s s'
  | step_retries s o s' : processDueRetries computeHmac toISOString env s = (o, s') → job_step s s'
  | step_outside s new d net : clock (n_net s) ≤ clock net →
      job_step s (s <| n_log ::= (λ l, l ++ new) |> <| n_indexed := d |> <| n_net := net |>).
(** And users, who edit rules and force retries; the label is the delivery whose
    retry is asked for. *)
Inductive notify_step : option Z → NState Net → NState Net → Prop :=
  | step_job s s' : job_step s s' → notify_step None s s'
  | step_edit s rules : dom (n_rules s) ⊆ dom rules → notify_step None s (s <| n_rules := rules |>)
  | step_forced s userId id o s' :
      retryDelivery computeHmac toISOString env userId id s = (o, s') → notify_step (Some id) s s'.
(** Steps one after the other, with the retries asked for. *)
Inductive history : list Z → NState Net → NState Net → Prop :=
  | history_refl s : history [] s s
  | history_step label ids s1 s2 s3 :
      notify_step label s1 s2 → history ids s2 s3 → history (option_list label ++ ids) s1 s3.

(** How often the retry of a delivery is asked for. *)
Definition times (ids : list Z) (id : Z) : nat := length (base.filter (λ i, i = id) ids).
Lemma times_app l l' id : times (l ++ l') id = (times l id + times l' id)%nat.
Proof. unfold times. by rewrite filter_app, length_app. Qed.
Lemma times_one i id : times [i] id = if decide (i = id) then 1%nat else 0%nat.
Proof. unfold times. rewrite filter_cons. by case_decide. Qed.
Lemma times_absent ids id : id ∉ ids → times ids id = 0%nat.
Proof.
  unfold times. induction ids as [|i ids IH]; [done|]. rewrite not_elem_of_cons, filter_cons. intros [Hi Hids].
  rewrite decide_False by congruence. by apply IH.
Qed.

Lemma Deliveries_ok_mono k k' s : (∀ id, (k id ≤ k' id)%nat) → Deliveries_ok k s → Deliveries_ok k' s.
Proof.
  intros Hk [Hok Hfresh Hreq]. split; try done. intros id d Hd. destruct (Hok id d Hd) as [Hb Hst]. split; [|done].
  specialize (Hk id). lia.
Qed.
(** Forcing a retry attempts that delivery, unless it is pending or delivered. *)
Lemma forced_runs userId id s o s' :
  retryDelivery computeHmac toISOString env userId id s = (o, s') →
  s' = s ∨ attempted id s s' ∧ ∃ d, n_deliveries s !! id = Some d ∧ dl_status d ≠ StDelivered.
Proof.
  unfold retryDelivery, mbind, M_bind, get. cbv beta iota. destruct (n_deliveries s !! id) as [d|] eqn:Hd; [|intros [= _ <-]; by left].
  destruct (n_rules s !! dl_rule_id d) as [rule|]; [|intros [= _ <-]; by left].
  destruct (negb _); [intros [= _ <-]; by left|]. case_bool_decide as Hst; [intros [= _ <-]; by left|].
  destruct (find_channel _ _) as [channel|]; [|intros [= _ <-]; by left]. intros Hrun. right.
  pose proof (attempt_runs id rule (dl_event d) channel (renderNotification (r_trigger_type rule) (dl_event d)) s) as Hat.
  unfold wp in Hat.
  destruct (attemptDelivery _ _ _ _ _ _ _ _ s) as [[res|e] s1]; [|done]. injection Hrun as _ <-.
  split; [done|]. exists d. split; [done|]. intros Hdone. apply Hst. rewrite Hdone. done.
Qed.

(** A step of a history, with the deliveries it leaves alone. *)
Lemma notify_step_deliveries label k s s' :
  notify_step label s s' → Deliveries_ok k s →
  Deliveries_ok (λ id, k id + times (option_list label) id)%nat s' ∧
  ∀ id d, n_deliveries s !! id = Some d → settled d → dl_status d = StDelivered ∨ id ∉ option_list label →
    n_deliveries s' !! id = Some d.
Proof.
  intros Hstep Hs.
  assert (on_deliveries k s s' → Deliveries_ok (λ id, k id + times [] id)%nat s' ∧
    ∀ id d, n_deliveries s !! id = Some d → settled d → dl_status d = StDelivered ∨ id ∉ [] → n_deliveries s' !! id = Some d) as Hjob.
  { intros Hgo. destruct (Hgo Hs) as [Hs' Hset]. split; [|intros; by apply Hset].
    eapply Deliveries_ok_mono, Hs'. intros id. lia. }
  destruct Hstep as [s s' Hstep|s rules _|s userId id o s' Hrun]; cbn [option_list].
  - apply Hjob. destruct Hstep as [s0 o s1 Hrun|s0 o s1 Hrun|s0 new d net _]; [..|by apply on_deliveries_frame];
      exact (evolves_run (on_deliveries k) _ _ _ _ Hrun).
  - apply Hjob. by apply on_deliveries_frame.
  - apply forced_runs in Hrun as [->|(Hat & d & Hd & Hopen)].
    { split; [|done]. eapply Deliveries_ok_mono, Hs. intros i. lia. }
    set (k1 := λ i, (if decide (i = id) then (if decide (settled d) then S (k id) else k id) else k i)).
    destruct (attempted_deliveries k k1 id s s' d Hat Hd Hopen) as [Hs' Hrest]; subst k1; cbv beta;
      [intros i Hi; by rewrite decide_False|by rewrite decide_True|done|].
    split.
    + eapply Deliveries_ok_mono, Hs'. intros i. cbv beta. change (option_list (Some id)) with [id]. rewrite times_one. repeat case_decide; subst; try lia; congruence.
    + intros i x Hx _ [Hst|Hi]; (rewrite Hrest; [done|]); intros ->; [congruence|]. apply Hi. by left.
Qed.
Lemma history_deliveries ids s s' : history ids s s' → ∀ k, Deliveries_ok k s →
  Deliveries_ok (λ id, k id + times ids id)%nat s' ∧
  ∀ id d, n_deliveries s !! id = Some d → settled d → dl_status d = StDelivered ∨ id ∉ ids → n_deliveries s' !! id = Some d.
Proof.
  induction 1 as [s|label ids s1 s2 s3 Hstep _ IH]; intros k Hs.
  - split; [|done]. eapply Deliveries_ok_mono, Hs. intros id. lia.
  - destruct (notify_step_deliveries _ k _ _ Hstep Hs) as [H2 Hk]. destruct (IH _ H2) as [H3 Hk']. split.
    + eapply Deliveries_ok_mono, H3. intros id. cbv beta. rewrite times_app. lia.
    + intros id d Hd Hset Hid. apply Hk'; [apply Hk|..]; try done; set_solver.
Qed.

(** The counts of the deliveries add up to no more than the retries asked for. *)
Lemma times_total ids (m : gmap Z Delivery) :
  map_sum (λ id _, MAX_RETRIES + Z.of_nat (times ids id)) m ≤ MAX_RETRIES * Z.of_nat (size m) + Z.of_nat (length ids).
Proof.
  induction ids as [|x ids IH].
  - induction m as [|id d m Hnone IH] using map_ind; [by rewrite map_sum_empty, map_size_empty|].
    rewrite map_sum_insert_new, map_size_insert_None by done. unfold times in *. cbn in *. lia.
  - etransitivity; [|cbn [length]; apply (Zplus_le_compat_r _ _ 1) in IH; rewrite Nat2Z.inj_succ; unfold Z.succ; rewrite Z.add_assoc; exact IH].
    rewrite (map_sum_delete _ m x), (map_sum_delete (λ id _, MAX_RETRIES + Z.of_nat (times ids id)) m x).
    assert (map_sum (λ id _, MAX_RETRIES + Z.of_nat (times (x :: ids) id)) (delete x m) =
      map_sum (λ id _, MAX_RETRIES + Z.of_nat (times ids id)) (delete x m)) as ->.
    { apply map_sum_ext. intros id d Hid. apply lookup_delete_Some in Hid as [Hne _].
      rewrite (times_app [x] ids), times_one, decide_False by done. done. }
    unfold at_key. destruct (m !! x); [|lia]. rewrite (times_app [x] ids), times_one, decide_True by done. lia.
Qed.

(** C19: Deliveries are attempted at most five times, and once more for each
    retry a user forces.  In every history of the two jobs, users who edit rules or
    ask for the retry of a delivery, and anything outside, each step run to its
    end before the next: each delivery has a status that fits its attempts, and at
    most five attempts and one for each time its retry was forced; a retry of the
    job waits thirty seconds, doubled with each further attempt; a delivered one
    never changes again, nor does a failed one unless its retry is forced; and the
    requests sent are at most the attempts counted, so at most five for each
    delivery and one for each retry forced. *)
Theorem deliveries_bounded s0 s s' forced forced' :
  n_deliveries s0 = ∅ → n_requests s0 = [] → history forced s0 s → history forced' s s' →
  map_Forall (λ id, delivery_ok (times forced id)) (n_deliveries s) ∧
  Z.of_nat (length (n_requests s)) ≤ total_attempts s ≤
    MAX_RETRIES * Z.of_nat (size (n_deliveries s)) + Z.of_nat (length forced) ∧
  (∀ id d, n_deliveries s !! id = Some d → settled d → dl_status d = StDelivered ∨ id ∉ forced' →
    n_deliveries s' !! id = Some d).
Proof.
  intros Hd0 Hr0 Hs Hs'.
  assert (Deliveries_ok (λ _, 0%nat) s0) as H0.
  { split; unfold total_attempts; rewrite ?Hd0; [apply map_Forall_empty|intros id; rewrite lookup_empty; by intros []|].
    rewrite Hr0, map_sum_empty. done. }
  destruct (history_deliveries _ _ _ Hs _ H0) as [Hok _]. cbn in Hok.
  split; [apply Hok|]. split; [|by apply (history_deliveries _ _ _ Hs' _ Hok)].
  split; [apply Hok|]. etransitivity; [|apply times_total].
  apply map_sum_le. intros id d Hd. by apply (do_rows _ _ Hok id d Hd).
Qed.

(** ** Which channel a retry goes to *)
Lemma email_request address message s apiUrl apiKey :
  set_text (EMAIL_PROVIDER_API_URL env) = Some apiUrl → set_text (EMAIL_PROVIDER_API_KEY env) = Some apiKey →
  n_requests (deliverEmail env address message s).2 = n_requests s ++
    [EmailRequest apiUrl apiKey (default "notifications@nebgov.dev" (EMAIL_FROM_ADDRESS env)) address
      (nm_subject message) (nm_body message)].
Proof.
  intros Hu Hk. unfold deliverEmail. rewrite Hu, Hk. unfold mbind, M_bind, fetch.
  destruct (post _ _) as [[status|e] net]; [|done]. unfold throw_if. by destruct (negb _).
Qed.
Lemma attempt_request id rule event channel message s :
  n_requests (attemptDelivery computeHmac toISOString env id rule event channel message s).2 =
  n_requests (deliver_to computeHmac toISOString env rule event channel message s).2.
Proof.
  unfold attemptDelivery, try_catch, enqueueRetry, update_delivery, now, mbind, M_bind, gets, modify, mret, M_ret.
  by destruct (deliver_to _ _ _ _ _ _ _ s) as [[u|e] s1].
Qed.

Lemma find_first_email before a rest :
  Forall (λ c, channel_type c ≠ "email") before →
  find_channel "email" (before ++ EmailChannel a :: rest) = Some (EmailChannel a).
Proof.
  unfold find_channel. induction 1 as [|c l Hc _ IH]; [done|]. cbn [app List.find].
  destruct (String.eqb_spec (channel_type c) "email"); done.
Qed.

(** A retry goes to the first channel of its type.  A delivery records the
    type of its channel and not which channel it was: of two mail addresses of
    a rule, the first attempt for the second one is sent to it, and every retry
    of that delivery to the first one. *)
Theorem retry_goes_to_first_channel s rule event message before a between b after apiUrl apiKey :
  set_text (EMAIL_PROVIDER_API_URL env) = Some apiUrl → set_text (EMAIL_PROVIDER_API_KEY env) = Some apiKey →
  n_rules s !! r_id rule = Some rule → char_length (ie_event_type event) ≤ 64 →
  r_channels rule = before ++ EmailChannel a :: between ++ EmailChannel b :: after →
  Forall (λ c, channel_type c ≠ "email") before →
  let to address message := EmailRequest apiUrl apiKey (default "notifications@nebgov.dev" (EMAIL_FROM_ADDRESS env)) address
    (nm_subject message) (nm_body message) in
  let s1 := (deliverNotification computeHmac toISOString env rule event (EmailChannel b) message s).2 in
  n_requests s1 = n_requests s ++ [to b message] ∧
  ∃ d, n_deliveries s1 !! n_next_delivery s = Some d ∧
    ∀ s2, n_requests (retry_row computeHmac toISOString env (n_next_delivery s, d, rule) s2).2 =
      n_requests s2 ++ [to a (renderNotification (r_trigger_type rule) event)].
Proof.
  intros Hu Hk Hrule Hlen Hchannels Hbefore to s1. subst s1. unfold deliverNotification.
  pose proof (find_first_email before a (between ++ EmailChannel b :: after) Hbefore) as Hfind. rewrite <- Hchannels in Hfind.
  set (d0 := mkDelivery (r_id rule) (r_user_id rule) event "email" StPending 0 None None None None).
  set (s0 := s <| n_next_delivery := n_next_delivery s + 1 |> <| n_deliveries ::= <[n_next_delivery s := d0]> |>).
  assert (recordDelivery rule event (channel_type (EmailChannel b)) s = (Ok (n_next_delivery s), s0)) as Hrecord.
  { unfold recordDelivery. m_run. rewrite Hrule, (bool_decide_eq_true_2 (is_Some _)) by done.
    by rewrite (proj2 (Z.leb_le _ _)) by done. }
  rewrite (bind_run _ _ _ _ _ Hrecord). split.
  - rewrite attempt_request. cbn [deliver_to]. by rewrite (email_request b message s0 apiUrl apiKey).
  - pose proof (attempt_runs (n_next_delivery s) rule event (EmailChannel b) message s0) as Hat. unfold wp in Hat.
    destruct (attemptDelivery _ _ _ _ _ _ _ _ s0) as [[res|e] s1]; [|done].
    destruct (at_row _ _ _ Hat) as (f & Hf & Hrows). exists (f d0). split.
    { cbn. rewrite Hrows, lookup_alter_eq. unfold s0. cbn. by rewrite lookup_insert_eq. }
    intros s2. assert (dl_channel_type (f d0) = "email" ∧ dl_event (f d0) = event) as [Hc He].
    { by destruct Hf as [->|[e ->]]. }
    unfold retry_row. rewrite Hc, He, Hfind.
    destruct (attemptDelivery computeHmac toISOString env (n_next_delivery s) rule event (EmailChannel a)
      (renderNotification (r_trigger_type rule) event) s2) as [[res2|e2] s3] eqn:Hrun.
    + rewrite (bind_run _ _ _ _ _ Hrun). cbn. change s3 with ((@Ok DeliveryResult res2, s3).2). rewrite <- Hrun, attempt_request.
      cbn [deliver_to]. by apply email_request.
    + rewrite (bind_throw _ _ _ _ _ Hrun). cbn. change s3 with ((@Throw DeliveryResult e2, s3).2). rewrite <- Hrun, attempt_request.
      cbn [deliver_to]. by apply email_request.
Qed.
End history.

(** ** An example *)
Module NotifyExample.
(** A clock, and the status every request is answered with. *)
#[local] Instance ex_network : Network (Z * Z) := { clock := fst; post _ := λ n, (Ok n.2, n) }.
#[local] Instance ex_network_laws : NetworkLaws (Z * Z).
Proof. intros r c. reflexivity. Qed.
Definition hmac (body secret : string) : string := secret.
Definition env : NotifyEnv := mkNotifyEnv (Some "https://mail") (Some "key") None None.
(** Any vote is mailed to two addresses. *)
Definition rule : NotificationRule := mkRule 1 7 vote_cast (mkTriggerConfig None None None None None None None None None)
  [EmailChannel "ann@x"; EmailChannel "bob@x"] true 300 None 0.
Definition vote : IndexerEvent := mkIndexerEvent "VoteCast" (Some [VStr "vote"; VStr "GA"]) (VArr [VStr "3"; VNum 1; VStr "5"]).
Definition start (log : list LoggedEvent) : NState (Z * Z) :=
  mkNState {[1 := rule]} ∅ 0 [] log 0 empty_db (1000, 500) [].
Definition ticked (s : NState (Z * Z)) : NState (Z * Z) := (tick hmac decimal env s).2.
Definition retried (s : NState (Z * Z)) : NState (Z * Z) := (processDueRetries hmac decimal env s).2.
Lemma ticked_step s : job_step hmac decimal env s (ticked s).
Proof. unfold ticked. destruct (tick _ _ _ s) as [o s'] eqn:Hrun. by eapply step_tick. Qed.
Lemma retried_step s : job_step hmac decimal env s (retried s).
Proof. unfold retried. destruct (processDueRetries _ _ _ s) as [o s'] eqn:Hrun. by eapply step_retries. Qed.
Definition once : NState (Z * Z) := ticked (start [mkLogged 1 vote]).
(** Both mails fail, and are retried half a minute later. *)
Definition waited : NState (Z * Z) :=
  once <| n_log ::= (λ l, l ++ []) |> <| n_indexed := empty_db |> <| n_net := (31000, 500) |>.
Definition twice : NState (Z * Z) := retried waited.
(** The user forces a retry of the first. *)
Definition thrice : NState (Z * Z) := (retryDelivery hmac decimal env 7 0 twice).2.
Lemma once_thrice : history hmac decimal env [0] once thrice.
Proof.
  eapply (history_step _ _ _ None); [apply step_job, (step_outside hmac decimal env once [] empty_db (31000, 500)); vm_compute; discriminate|].
  eapply (history_step _ _ _ None); [apply step_job; exact (retried_step waited)|].
  eapply (history_step _ _ _ (Some 0) []); [|apply history_refl]. unfold thrice.
  destruct (retryDelivery _ _ _ 7 0 twice) as [o s'] eqn:Hrun. by eapply step_forced.
Qed.
End NotifyExample.
#[local] Existing Instance NotifyExample.ex_network.
#[local] Existing Instance NotifyExample.ex_network_laws.

Lemma deliveries_bounded_witness :
  Z.of_nat (length (n_requests NotifyExample.thrice)) = 5 ∧
  5 ≤ total_attempts NotifyExample.thrice ≤ MAX_RETRIES * 2 + 1.
Proof.
  destruct (@deliveries_bounded _ _ NotifyExample.ex_network_laws NotifyExample.hmac decimal NotifyExample.env
    (NotifyExample.start [mkLogged 1 NotifyExample.vote]) NotifyExample.thrice NotifyExample.thrice [0] []) as (_ & Hb & _).
  - reflexivity.
  - reflexivity.
  - eapply (history_step _ _ _ None); [apply step_job, NotifyExample.ticked_step|exact NotifyExample.once_thrice].
  - apply history_refl.
  - split; [vm_compute; reflexivity|exact Hb].
Defined.

Lemma retry_goes_to_first_channel_witness :
  (λ r, match r with EmailRequest _ _ _ to _ _ => to | _ => "" end) <$> n_requests NotifyExample.twice =
    ["ann@x"; "bob@x"; "ann@x"; "ann@x"] ∧
  ∃ d, ∀ s2 : NState (Z * Z), ∃ r, n_requests (retry_row NotifyExample.hmac decimal NotifyExample.env (0, d, NotifyExample.rule) s2).2 =
    n_requests s2 ++ [EmailRequest "https://mail" "key" "notifications@nebgov.dev" "ann@x" r.1 r.2].
Proof.
  split; [vm_compute; reflexivity|].
  destruct (@retry_goes_to_first_channel _ _ NotifyExample.ex_network_laws NotifyExample.hmac decimal NotifyExample.env
    (NotifyExample.start []) NotifyExample.rule NotifyExample.vote (mkMessage "s" "b" "t" None) [] "ann@x" [] "bob@x" []
    "https://mail" "key") as (_ & d & _ & Hd); try reflexivity.
  - vm_compute. discriminate.
  - constructor.
  - exists d. intros s2. exists ("New vote on proposal #3", "A vote was cast on proposal #3."). exact (Hd s2).
Defined.
