(* ===== verification/NotificationTiming.v ===== *)
(** * When notifications are sent

    How far the triggers of a rule are apart, and which events the processor
    evaluates: its cursor goes to the largest id as text, so it stops where
    the ids gain a digit. *)

From S2P Require Import Prelude JsValues IndexerDb IndexerWorld Effects.
From S2P Require Import Notifications NotificationEngine NotificationHistory.
Open Scope Z_scope.

Section timing.
Context {Net : Type} `{!Network Net} `{!NetworkLaws Net}.
Context (computeHmac : string → string → string) (toISOString : Z → string) (env : NotifyEnv).
Implicit Types (s : NState Net) (rule : NotificationRule) (event : IndexerEvent) (message : NotificationMessage).

(** ** What a delivery leaves alone *)
Record undisturbed s s' : Prop := mkUndisturbed {
  un_rules : n_rules s' = n_rules s; un_log : n_log s' = n_log s; un_cursor : n_cursor s' = n_cursor s;
  un_clock : clock (n_net s) ≤ clock (n_net s') }.
#[local] Instance undisturbed_preorder : PreOrder undisturbed.
Proof. split; [intros s; by split|]. intros s1 s2 s3 [] []. split; [congruence..|lia]. Qed.
#[local] Instance deliver_undisturbed rule event channel message :
  Evolves undisturbed (deliverNotification computeHmac toISOString env rule event channel message).
Proof.
  intros s. unfold deliverNotification, recordDelivery, refused. rewrite wp_bind. wp_go; [|by split].
  eapply wp_mono; [apply attempt_runs| |done]. cbn. intros _ s' [Hr _ Hl Hc Ht _ _]. by split.
Qed.
#[local] Instance retry_undisturbed row : Evolves undisturbed (retry_row computeHmac toISOString env row).
Proof.
  destruct row as [[id d] rule]. intros s. unfold retry_row. destruct (find_channel _ _) as [channel|].
  - wp_step. eapply wp_mono; [apply (attempt_runs)| |done]. cbn. intros _ s' [Hr _ Hl Hc Ht _ _]. by split.
  - unfold update_delivery. wp_step. by split.
Qed.
#[local] Instance retries_undisturbed : Evolves undisturbed (processDueRetries computeHmac toISOString env).
Proof. unfold processDueRetries, now. apply _. Qed.

(** ** Cooldown *)

(** The last trigger; a rule that never had one is free to start. *)
Definition since (t : Z) rule : Z := default (t - r_cooldown_seconds rule * 1000) (r_last_triggered_at rule).
(** [rule'] is [rule] some triggers later. *)
Record triggered (t t' : Z) rule rule' : Prop := mkTriggered {
  tr_id : r_id rule' = r_id rule;
  tr_cooldown : r_cooldown_seconds rule' = r_cooldown_seconds rule;
  tr_time : rule' = rule ∨ r_trigger_count rule < r_trigger_count rule' ∧ ∃ last, r_last_triggered_at rule' = Some last ∧
    last ≤ t' ∧ since t rule + (r_trigger_count rule' - r_trigger_count rule) * (r_cooldown_seconds rule * 1000) ≤ last }.
Definition keyed s : Prop := map_Forall (λ id r, r_id r = id) (n_rules s).
Record spaced s s' : Prop := mkSpaced {
  sp_keyed : keyed s → keyed s';
  sp_clock : clock (n_net s) ≤ clock (n_net s');
  sp_rules : keyed s → ∀ id r, n_rules s !! id = Some r →
    ∃ r', n_rules s' !! id = Some r' ∧ triggered (clock (n_net s)) (clock (n_net s')) r r' }.
Lemma triggered_trans t1 t2 t3 r1 r2 r3 :
  t1 ≤ t2 → t2 ≤ t3 → triggered t1 t2 r1 r2 → triggered t2 t3 r2 r3 → triggered t1 t3 r1 r3.
Proof.
  intros H12 H23 [Hi1 Hc1 Ht1] [Hi2 Hc2 Ht2]. split; [congruence|congruence|].
  destruct Ht1 as [->|(Hn1 & l1 & Hl1 & Hle1 & Hs1)], Ht2 as [->|(Hn2 & l2 & Hl2 & Hle2 & Hs2)].
  - by left.
  - right. split; [done|]. exists l2. split; [done|]. split; [done|].
    unfold since in *. destruct (r_last_triggered_at r1); cbn in *; lia.
  - right. split; [done|]. exists l1. split; [done|]. split; [lia|done].
  - right. split; [lia|]. exists l2. split; [done|]. split; [done|]. unfold since in Hs2. rewrite Hl1 in Hs2. cbn in Hs2.
    rewrite Hc1 in Hs2. lia.
Qed.
#[local] Instance spaced_preorder : PreOrder spaced.
Proof.
  split.
  - intros s. split; [done|lia|]. intros _ id r Hr. exists r. split; [done|]. split; [done|done|by left].
  - intros s1 s2 s3 [Hk1 Ht1 Hr1] [Hk2 Ht2 Hr2]. split; [auto|lia|].
    intros Hk id r1 H1. destruct (Hr1 Hk _ _ H1) as (r2 & H2 & Htr1). destruct (Hr2 (Hk1 Hk) _ _ H2) as (r3 & H3 & Htr2).
    exists r3. split; [done|]. by eapply triggered_trans.
Qed.
Lemma undisturbed_spaced s s' : undisturbed s s' → spaced s s'.
Proof.
  intros [Hr Hl _ Ht]. split; unfold keyed; rewrite ?Hr; [done|done|]. intros _ id r H. exists r. split; [done|].
  split; [done|done|by left].
Qed.
Lemma ev_undisturbed {A} (m : M (NState Net) A) : Evolves undisturbed m → Evolves spaced m.
Proof. intros Hm s. eapply wp_mono; [apply Hm| |]; cbn; intros; by apply undisturbed_spaced. Qed.

(** The rules that are left are as they were read. *)
Definition current s (rules : list NotificationRule) : Prop :=
  NoDup (r_id <$> rules) ∧ ∀ r, r ∈ rules → n_rules s !! r_id r = Some r.
Lemma trigger_spaced event rule rules s :
  current s (rule :: rules) →
  wp (trigger_rule computeHmac toISOString env event rule) (λ _ s', spaced s s' ∧ current s' rules) (λ _, spaced s) s.
Proof.
  intros [Hnd Hcur]. rewrite fmap_cons in Hnd. apply NoDup_cons in Hnd as [Hnew Hnd].
  assert (n_rules s !! r_id rule = Some rule) as Hrule by (apply Hcur; by left).
  assert (∀ r, r ∈ rules → n_rules s !! r_id r = Some r) as Hrest by (intros r Hr; apply Hcur; by right).
  unfold trigger_rule, now. do 2 wp_step. destruct (isInCooldown _ rule) eqn:Hcool.
  { wp_step. split; [reflexivity|]. by split. }
  wp_step. eapply wp_mono; [apply (evolves (R := undisturbed))| |intros e s1; apply undisturbed_spaced].
  cbn. intros [] s1 Hs1. do 3 wp_step. pose proof Hs1 as [Hr Hl _ Ht]. split.
  - etransitivity; [by apply undisturbed_spaced|]. split; cbn; [|lia|].
    + intros Hk. unfold keyed. cbn. intros i x. rewrite lookup_alter_Some. intros [(<- & y & Hy & ->)|[_ Hx]]; [|by eapply Hk].
      exact (Hk _ _ Hy).
    + intros Hk i x Hx. destruct (decide (i = r_id rule)) as [->|Hne].
      * rewrite lookup_alter_eq, Hx. exists (triggered_at (clock (n_net s1)) x). split; [done|]. split; [done|done|].
        right. cbn. split; [lia|]. exists (clock (n_net s1)). split; [done|]. split; [lia|].
        rewrite Hr, Hrule in Hx. injection Hx as <-. unfold isInCooldown in Hcool. unfold since.
        destruct (r_last_triggered_at rule) as [last|]; cbn; lia.
      * rewrite lookup_alter_ne by done. exists x. split; [done|]. split; [done|done|by left].
  - split; [done|]. cbn. intros r Hin. rewrite Hr, lookup_alter_ne; [by apply Hrest|].
    intros Heq. apply Hnew. rewrite Heq. by apply list_elem_of_fmap_2.
Qed.
Lemma filter_m_sublist {S A} (f : A → M S bool) l (s : S) :
  (∀ x, Reads (f x)) → wp (filter_m f l) (λ l' (s1 : S), s1 = s ∧ l' `sublist_of` l) (λ _ (s1 : S), s1 = s) s.
Proof.
  intros Hf. induction l as [|x l IH]; cbn [filter_m]; [wp_step; split; [done|constructor]|].
  wp_step. apply wp_reads; [apply Hf|intros b; cbn|done]. wp_step. eapply wp_mono; [exact IH| |done]. cbn.
  intros l' s' [-> Hl']. split; [done|]. destruct b; [by apply sublist_skip|by apply sublist_cons].
Qed.
Lemma matchRules_current event s :
  keyed s → wp (matchRules event) (λ rules s', s' = s ∧ current s rules) (λ _ s', s' = s) s.
Proof.
  intros Hk. unfold matchRules. destruct (resolveTriggerTypes event) as [|t ts].
  { wp_step. split; [done|]. split; [constructor|by intros r ?%elem_of_nil]. }
  do 2 wp_step. set (rows := (map_to_list _).*2). eapply wp_mono; [apply filter_m_sublist; intros; apply _| |done]. cbn.
  intros rules s' [-> Hsub]. split; [done|].
  assert (current s rows) as [Hnd Hcur].
  { assert (∀ kv, kv ∈ map_to_list (base.filter (λ kv, r_enabled kv.2 = true ∧ r_trigger_type kv.2 ∈ t :: ts) (n_rules s)) →
      n_rules s !! kv.1 = Some kv.2 ∧ r_id kv.2 = kv.1) as Hrow.
    { intros [k v] Hin%elem_of_map_to_list. apply map_lookup_filter_Some in Hin as [Hin _]. split; [done|by apply Hk]. }
    split.
    - subst rows. rewrite <- list_fmap_compose. rewrite (Forall_fmap_ext_1 _ fst); [apply NoDup_fst_map_to_list|].
      apply Forall_forall. intros kv Hkv. by apply Hrow.
    - intros r (kv & -> & Hin)%list_elem_of_fmap. destruct (Hrow _ Hin) as [Hl ->]. done. }
  split; [eapply sublist_NoDup; [exact Hnd|by apply fmap_sublist]|]. intros r Hr. apply Hcur.
  by eapply sublist_subseteq.
Qed.
Definition paced s s' : Prop := keyed s → spaced s s'.
#[local] Instance paced_preorder : PreOrder paced.
Proof.
  split; [intros s _; reflexivity|]. intros s1 s2 s3 H12 H23 Hk. pose proof (H12 Hk) as H1.
  etransitivity; [exact H1|]. apply H23, H1, Hk.
Qed.
#[local] Instance evaluate_paced event : Evolves paced (evaluateEvent computeHmac toISOString env event).
Proof.
  intros s. destruct (decide (keyed s)) as [Hk|Hk].
  2:{ apply wp_intro. intros [] s' _ Hk'; by destruct Hk. }
  unfold evaluateEvent. wp_step. eapply wp_mono; [by apply matchRules_current| |intros e s' -> _; reflexivity]. cbn.
  intros rules s' [-> Hcur].
  assert (wp (for_each (trigger_rule computeHmac toISOString env event) rules) (λ _, spaced s) (λ _, spaced s) s) as Hall.
  { clear Hk. revert s Hcur. induction rules as [|rule rules IH]; intros s Hcur; cbn [for_each]; [wp_step; reflexivity|].
    apply ev_bind_at; [apply _|]. eapply wp_mono; [by apply trigger_spaced| |done]. cbn. intros [] s1 [Hs1 Hcur1]. split; [done|].
    by apply IH. }
  eapply wp_mono; [exact Hall| |]; unfold paced; cbn; auto.
Qed.
Lemma job_step_paced s s' : job_step computeHmac toISOString env s s' → paced s s'.
Proof.
  destruct 1 as [s o s' Hrun|s o s' Hrun|s new d net Hle].
  - eapply (evolves_run paced); [|exact Hrun]. apply tick_evolves; [apply _..|]. intros s0 cursor _. split; cbn; [done|lia|].
    intros _ id r Hr. exists r. split; [done|]. split; [done|done|by left].
  - intros _. apply undisturbed_spaced. exact (evolves_run undisturbed _ _ _ _ Hrun).
  - intros _. split; cbn; [done|done|]. intros _ id r Hr. exists r. split; [done|]. split; [done|done|by left].
Qed.

(** A rule rests between its triggers.  In every history of the jobs in
    which its settings are not edited, a rule that was triggered [n] more times
    was last triggered at least [n] cooldowns after the trigger before them; so
    it is triggered at most once in any cooldown, whatever the events and the
    failures of its deliveries. *)
Theorem cooldown_respected s s' id rule :
  keyed s → rtc (job_step computeHmac toISOString env) s s' → n_rules s !! id = Some rule →
  ∃ rule', n_rules s' !! id = Some rule' ∧ r_cooldown_seconds rule' = r_cooldown_seconds rule ∧
    (rule' = rule ∨ r_trigger_count rule < r_trigger_count rule' ∧ ∃ last, r_last_triggered_at rule' = Some last ∧
      last ≤ clock (n_net s') ∧
      since (clock (n_net s)) rule + (r_trigger_count rule' - r_trigger_count rule) * (r_cooldown_seconds rule * 1000) ≤ last).
Proof.
  intros Hk Hs Hrule. assert (paced s s') as Hp.
  { clear Hk Hrule. induction Hs as [s|s s1 s' Hstep _ IH]; [reflexivity|]. etransitivity; [by apply job_step_paced|exact IH]. }
  destruct (sp_rules _ _ (Hp Hk) Hk _ _ Hrule) as (rule' & Hrule' & [_ Hcool Htime]). by exists rule'.
Qed.

(** ** The cursor *)
Definition text_max (a b : Z) : Z := if text_gt (decimal b) (decimal a) then b else a.
Record same_log s s' : Prop := mkSameLog { sl_log : n_log s' = n_log s; sl_cursor : n_cursor s' = n_cursor s }.
#[local] Instance same_log_preorder : PreOrder same_log.
Proof. split; [done|]. intros s1 s2 s3 [] []. split; congruence. Qed.
#[local] Instance evaluate_same_log event : Evolves same_log (evaluateEvent computeHmac toISOString env event).
Proof.
  assert (∀ rule channel message, Evolves same_log (deliverNotification computeHmac toISOString env rule event channel message))
    as Hdeliver.
  { intros rule channel message s. eapply wp_mono; [apply (evolves (R := undisturbed))| |]; cbn; by intros ? ? []. }
  apply evaluate_evolves; [apply _|apply _|]. done.
Qed.
Lemma process_rows_cursor rows maxId s :
  wp (process_rows computeHmac toISOString env maxId rows)
    (λ m s', m = foldl text_max maxId (lg_id <$> rows) ∧ same_log s s') (λ _ _, False) s.
Proof.
  revert maxId s. induction rows as [|row rows IH]; intros maxId s; cbn [process_rows]; [by wp_step|].
  unfold process_row. do 2 wp_step. unfold try_catch.
  pose proof (evolves (R := same_log) (m := evaluateEvent computeHmac toISOString env (lg_event row)) s) as Hev.
  unfold wp in Hev |- * at 1.
  assert (∀ s1, same_log s s1 → wp (process_rows computeHmac toISOString env (text_max maxId (lg_id row)) rows)
    (λ m s', m = foldl text_max maxId (lg_id <$> row :: rows) ∧ same_log s s') (λ _ _, False) s1) as Hrest.
  { intros s1 Hs1. eapply wp_mono; [apply IH| |done]. cbn. intros m s' [-> Hs']. split; [done|]. by etransitivity. }
  destruct (evaluateEvent _ _ _ _ s) as [[u|e] s1]; cbn; by apply Hrest.
Qed.
Lemma tick_cursor s o s' :
  tick computeHmac toISOString env s = (o, s') →
  n_log s' = n_log s ∧ n_cursor s' = foldl text_max (n_cursor s) (lg_id <$> next_batch s).
Proof.
  intros Hrun.
  assert (wp (processNewEvents computeHmac toISOString env) (λ _ s1, n_log s1 = n_log s ∧
    n_cursor s1 = foldl text_max (n_cursor s) (lg_id <$> next_batch s)) (λ _ _, False) s) as Hnew.
  { unfold processNewEvents. do 4 wp_step. destruct (next_batch s) as [|row rows] eqn:Hb; [by wp_step|]. rewrite <- Hb.
    wp_step. eapply wp_mono; [apply process_rows_cursor| |done]. cbn. intros m s1 [-> [Hl _]]. done. }
  assert (Evolves same_log (checkProposalTimers computeHmac toISOString env)) as Htimers.
  { unfold checkProposalTimers, evaluateSynthetic. apply ev_bind; [apply _..|]. intros subscribers.
    destruct (bool_decide _); [apply _|]. apply ev_bind; [apply _..|]. intros ledger. destruct (ledger =? 0); apply _. }
  unfold tick, try_catch in Hrun. unfold mbind, M_bind, wp in *.
  destruct (processNewEvents _ _ _ s) as [[u|e] s1]; [|done].
  specialize (Htimers s1). unfold wp in Htimers. destruct (checkProposalTimers _ _ _ s1) as [[v|e] s2];
    injection Hrun as _ <-; destruct Htimers as [Hl Hc]; by rewrite Hl, Hc.
Qed.

Lemma batch_ids s : lg_id <$> next_batch s = take EVENT_BATCH_SIZE (base.filter (λ i, n_cursor s < i) (lg_id <$> n_log s)).
Proof.
  unfold next_batch. rewrite fmap_take. f_equal. induction (n_log s) as [|row l IH]; [done|].
  rewrite fmap_cons, !filter_cons. by destruct (decide (n_cursor s < lg_id row)); cbn; rewrite IH.
Qed.
Lemma seqZ_split k n : 0 ≤ k ≤ n → seqZ 1 n = seqZ 1 k ++ seqZ (1 + k) (n - k).
Proof. intros Hk. rewrite <- seqZ_app by lia. f_equal. lia. Qed.

(** The processor stops at event 299.  The driver returns ids as text and
    the code compares them so: the cursor goes to the largest text.  With a log
    of the ids 1, 2, 3 and so on of at least 299 events, the first tick leaves the
    cursor at 99, and in every history from there, however the log grows, the
    cursor stays and each tick takes the events 100 to 299 again: they are
    evaluated for ever, and later ones never. *)
Theorem cursor_sticks s0 o s s' n forced :
  299 ≤ n → lg_id <$> n_log s0 = seqZ 1 n → n_cursor s0 = 0 →
  tick computeHmac toISOString env s0 = (o, s) → history computeHmac toISOString env forced s s' →
  n_cursor s' = 99 ∧ lg_id <$> next_batch s' = seqZ 100 200.
Proof.
  intros Hn Hids Hc0 Htick Hs'.
  assert (∀ (x : NState Net) rest, lg_id <$> n_log x = seqZ 1 n ++ rest → n_cursor x = 99 → lg_id <$> next_batch x = seqZ 100 200) as Hbatch.
  { intros x rest Hx Hc. rewrite batch_ids, Hx, Hc, (seqZ_split 299) by lia. rewrite <- app_assoc, filter_app.
    replace (base.filter (λ i, 99 < i) (seqZ 1 299)) with (seqZ 100 200) by (vm_compute; reflexivity).
    by rewrite take_app_length' by done. }
  assert (n_cursor s = 99 ∧ ∃ rest, lg_id <$> n_log s = seqZ 1 n ++ rest) as H0.
  { apply tick_cursor in Htick as [Hl ->]. split; [|exists []; by rewrite app_nil_r, Hl].
    rewrite batch_ids, Hids, Hc0, (seqZ_split 299) by lia. rewrite filter_app.
    replace (base.filter (λ i, 0 < i) (seqZ 1 299)) with (seqZ 1 299) by (vm_compute; reflexivity).
    rewrite take_app_le by (vm_compute; lia). vm_compute. reflexivity. }
  assert (n_cursor s' = 99 ∧ ∃ rest, lg_id <$> n_log s' = seqZ 1 n ++ rest) as [Hc [rest Hlog]]; [|by eauto].
  clear Htick. induction Hs' as [s|label ids s s1 s' Hstep _ IH]; [done|]. apply IH. destruct H0 as [Hc [rest Hlog]].
  clear IH Hids. revert Hc Hlog.
  destruct Hstep as [x y [x1 o1 y1 Hrun|x1 o1 y1 Hrun|x1 new d net _]|x1 rules _|x1 userId id o1 y1 Hrun]; cbn; intros Hc Hlog.
  - apply tick_cursor in Hrun as [Hl ->]. rewrite Hl. split; [|by exists rest].
    rewrite (Hbatch _ _ Hlog Hc), Hc. vm_compute. reflexivity.
  - destruct (evolves_run undisturbed _ _ _ _ Hrun) as [_ Hl Hcur _]. rewrite Hl, Hcur. split; [done|by exists rest].
  - split; [done|]. exists (rest ++ (lg_id <$> new)). by rewrite fmap_app, Hlog, app_assoc.
  - split; [done|by exists rest].
  - apply forced_runs in Hrun as [->|[Hat _]]; [split; [done|by exists rest]|].
    rewrite (at_log _ _ _ Hat), (at_cursor _ _ _ Hat). split; [done|by exists rest].
Qed.
End timing.

#[local] Existing Instance NotifyExample.ex_network.
#[local] Existing Instance NotifyExample.ex_network_laws.

Lemma cooldown_respected_witness :
  ∃ rule', n_rules NotifyExample.once !! 1 = Some rule' ∧ r_trigger_count rule' = 1 ∧
    r_last_triggered_at rule' = Some 1000 ∧ r_cooldown_seconds rule' = 300.
Proof.
  destruct (@cooldown_respected _ _ NotifyExample.ex_network_laws NotifyExample.hmac decimal NotifyExample.env
    (NotifyExample.start [mkLogged 1 NotifyExample.vote]) NotifyExample.once 1 NotifyExample.rule)
    as (rule' & Hrule' & Hcool & _).
  - by apply map_Forall_singleton.
  - apply rtc_once, NotifyExample.ticked_step.
  - reflexivity.
  - exists rule'. split; [exact Hrule'|]. pose proof Hrule' as Hrow. vm_compute in Hrow. injection Hrow as <-.
    split; [reflexivity|]. split; [reflexivity|exact Hcool].
Defined.

(** Three hundred votes. *)
Definition many_votes : NState (Z * Z) := NotifyExample.start ((λ id, mkLogged id NotifyExample.vote) <$> seqZ 1 300).
Lemma cursor_sticks_witness :
  n_cursor (NotifyExample.ticked (NotifyExample.ticked many_votes)) = 99 ∧
  lg_id <$> next_batch (NotifyExample.ticked (NotifyExample.ticked many_votes)) = seqZ 100 200.
Proof.
  apply (@cursor_sticks _ _ NotifyExample.ex_network_laws NotifyExample.hmac decimal NotifyExample.env many_votes
    (Ok tt) (NotifyExample.ticked many_votes) _ 300 []).
  - lia.
  - vm_compute. reflexivity.
  - reflexivity.
  - vm_compute. reflexivity.
  - eapply (history_step _ _ _ None []); [apply step_job, NotifyExample.ticked_step|apply history_refl].
Defined.
