(* ===== verification/Signaling.v ===== *)
(** * Signaling polls

    [backend/src/signaling/tally.ts] and [signature.ts], the poll routes of
    [backend/src/routes/signaling.ts] and the finalizer of
    [backend/src/jobs/signal-anchor.ts]: votes that cost nothing, weighed by
    the voting power of a past ledger, and a result that is fixed by its hash.
    The chain is the class [SignalNet], keys and hashes are [SignalCrypto];
    hashes fit their columns. *)

From S2P Require Import Prelude JsValues Cache IndexerDb IndexerWorld Effects SdkTypes.
Open Scope Z_scope.

Definition MAX_ANCHOR_ATTEMPTS : Z := 5.

(** ** Outside *)
Class SignalCrypto := {
  sha256 : bytes → bytes;
  (** [Buffer.from(text, "base64")] *)
  from_base64 : string → bytes;
  (** [Keypair.fromPublicKey(address).verify(digest, signature)] *)
  keypair_verify : string → bytes → bytes → outcome bool;
}.
(** Simulated calls and transactions; each may fail, now and not the next time. *)
Class SignalNet (Net : Type) := {
  sig_clock : Net → Z;
  getVotingPowerAtLedger : string → Z → M Net Z;
  getCurrentVotingPower : string → M Net Z;
  getProposalThreshold : M Net Z;
  getLatestLedgerSequence : M Net Z;
  anchorOnChain : Z → string → M Net string;
}.

(** ** Signatures *)
Record SignalVotePayload := mkPayload { pl_pollId : Z; pl_choiceIndex : Z; pl_voterAddress : string; pl_nonce : string }.
(** The text that is hashed. *)
Definition signal_message (p : SignalVotePayload) : string :=
  String.concat "|" ["nebgov-signal"; decimal (pl_pollId p); decimal (pl_choiceIndex p); pl_voterAddress p; pl_nonce p].
Definition SEP53_PREFIX : string := "Stellar Signed Message:" +:+ String (Ascii.ascii_of_N 10) "".

Section signature.
Context `{!SignalCrypto}.
Definition canonicalSignalPayload (p : SignalVotePayload) : string := to_hex (sha256 (utf8 (signal_message p))).
Definition sep53Digest (message : string) : bytes := sha256 (utf8 SEP53_PREFIX ++ utf8 message).
Definition verifySignalVote (p : SignalVotePayload) (signatureBase64 : string) : bool :=
  match keypair_verify (pl_voterAddress p) (sep53Digest (canonicalSignalPayload p)) (from_base64 signatureBase64) with
  | Ok b => b
  | Throw _ => false
  end.
End signature.

(** [/^G[A-Z2-7]{55}$/] *)
Definition STELLAR_ACCOUNT_RE (s : string) : bool :=
  match s with
  | String c rest => Ascii.eqb c (Ascii.ascii_of_N 71) && (String.length rest =? 55)%nat && all_chars base32_char rest
  | EmptyString => false
  end.

(** ** Tables *)
Record Poll := mkPoll {
  po_creator : string; po_choices : list string; po_snapshot_ledger : Z; po_start_time : Z; po_end_time : Z;
  po_finalized : bool; po_result_hash : option string; po_anchored_tx_hash : option string;
  po_anchor_attempts : Z; po_next_anchor_at : option Z }.
#[export] Instance Poll_eta : Eta Poll := λ p, mkPoll (po_creator p) (po_choices p) (po_snapshot_ledger p)
  (po_start_time p) (po_end_time p) (po_finalized p) (po_result_hash p) (po_anchored_tx_hash p) (po_anchor_attempts p)
  (po_next_anchor_at p).
Record SignalVote := mkSignalVote {
  sv_id : Z; sv_poll_id : Z; sv_voter : string; sv_choice : Z; sv_nonce : string; sv_signature : string;
  sv_power : option Z }.
#[export] Instance SignalVote_eta : Eta SignalVote := λ v, mkSignalVote (sv_id v) (sv_poll_id v) (sv_voter v)
  (sv_choice v) (sv_nonce v) (sv_signature v) (sv_power v).

Record PollResults := mkPollResults { res_choices : list string; res_totals : list Z; res_totalVotes : Z; res_totalWeight : Z }.
(** What [GET /polls/:id/results] answers; [None] in the cache is [null]. *)
Record ResultBody := mkResultBody {
  rb_finalized : bool; rb_resultHash : option string; rb_anchoredTxHash : option string; rb_results : PollResults }.

Record SState (Net : Type) := mkSState {
  s_polls : gmap Z Poll;
  s_votes : list SignalVote;
  s_next_poll : Z;
  s_next_vote : Z;
  s_results : CacheState (option ResultBody);
  s_net : Net }.
Arguments mkSState {Net} _ _ _ _ _ _.
Arguments s_polls {Net} _.
Arguments s_votes {Net} _.
Arguments s_next_poll {Net} _.
Arguments s_next_vote {Net} _.
Arguments s_results {Net} _.
Arguments s_net {Net} _.
#[export] Instance SState_eta {Net} : Eta (SState Net) := λ s,
  mkSState (s_polls s) (s_votes s) (s_next_poll s) (s_next_vote s) (s_results s) (s_net s).

Definition resultsCacheKey (pollId : Z) : string := "signaling:results:" +:+ decimal pollId.

Section signaling.
Context {Net : Type} `{!SignalNet Net} `{!SignalCrypto}.
Context (RESULTS_CACHE_TTL_MS : Z) (anchorEnabled : bool).
Implicit Types (s : SState Net).

Definition on_net {A} (m : M Net A) : M (SState Net) A := zoom s_net (λ n s, s <| s_net := n |>) m.
Definition time : M (SState Net) Z := gets (λ s, sig_clock (s_net s)).
Definition invalidate_results (pollId : Z) : M (SState Net) unit :=
  modify (λ s, s <| s_results ::= (invalidate [resultsCacheKey pollId]) |>).
Definition poll_votes (pollId : Z) s : list SignalVote := base.filter (λ v, sv_poll_id v = pollId) (s_votes s).

(** ** The tally *)

(** The power of each voter that could be read. *)
Fixpoint resolve_powers (snapshotLedger : Z) (votes : list SignalVote) (powerByVoter : list (string * Z)) :
    M (SState Net) (list (string * Z)) :=
  match votes with
  | [] => mret powerByVoter
  | vote :: votes =>
    match jm_get (sv_voter vote) powerByVoter with
    | Some _ => resolve_powers snapshotLedger votes powerByVoter
    | None =>
      powerByVoter ← try_catch
        (power ← on_net (getVotingPowerAtLedger (sv_voter vote) snapshotLedger); mret (jm_set (sv_voter vote) power powerByVoter))
        (λ _, mret powerByVoter);
      resolve_powers snapshotLedger votes powerByVoter
    end
  end.

(** [if (i >= 0 && i < totals.length) totals[i] += power] *)
Definition add_total (i power : Z) (totals : list Z) : list Z :=
  if (0 <=? i) && (i <? Z.of_nat (length totals)) then alter (Z.add power) (Z.to_nat i) totals else totals.
Definition add_vote (powerByVoter : list (string * Z)) (acc : list Z * list (Z * Z)) (vote : SignalVote) :
    list Z * list (Z * Z) :=
  match jm_get (sv_voter vote) powerByVoter with
  | None => acc
  | Some power => (add_total (sv_choice vote) power acc.1, acc.2 ++ [(sv_id vote, power)])
  end.
Definition fits_numeric38 (n : Z) : bool := (1 - 10 ^ 38 <=? n) && (n <=? 10 ^ 38 - 1).
(** [UPDATE ... FROM UNNEST(ids, powers)] *)
Definition store_powers (powers : list (Z * Z)) : M (SState Net) unit :=
  if forallb (λ p, fits_numeric38 p.2) powers then
    modify (λ s, s <| s_votes ::= fmap (λ v, match jm_get (sv_id v) powers with Some p => v <| sv_power := Some p |> | None => v end) |>)
  else throw (PlainError "the database refuses the statement").

Definition computeWeightedTally (pollId snapshotLedger : Z) (choices : list string) : M (SState Net) PollResults :=
  votes ← gets (poll_votes pollId);
  powerByVoter ← resolve_powers snapshotLedger votes [];
  let '(totals, powers) := foldl (add_vote powerByVoter) (replicate (length choices) 0, []) votes in
  (if (0 <? length powers)%nat then store_powers powers else mret tt);;
  mret (mkPollResults choices totals (Z.of_nat (length votes)) (foldl Z.add 0 totals)).

Definition computeResultHash (pollId : Z) (results : PollResults) : string :=
  to_hex (sha256 (utf8 (stringifyJson (VObj [("pollId", VNum pollId); ("choices", VArr (VStr <$> res_choices results));
    ("totals", VArr (VStr ∘ decimal <$> res_totals results))])))).

(** ** Routes *)
Inductive Answer := Created (pollId : Z) | Voted | BadRequest (error : string) | Forbidden | PollMissing | AlreadyVoted
  | ServerError.

(** [catch] of a route. *)
Definition route (m : M (SState Net) Answer) : M (SState Net) Answer := try_catch m (λ _, mret ServerError).

(** The body was validated: its end is after its start. *)
Record CreatePoll := mkCreatePoll {
  cp_creator : string; cp_choices : list string; cp_snapshotLedger : Z; cp_startTime : Z; cp_endTime : Z }.
Definition createPoll (body : CreatePoll) : M (SState Net) Answer := route (
  power ← on_net (getCurrentVotingPower (cp_creator body));
  threshold ← on_net getProposalThreshold;
  currentLedger ← on_net getLatestLedgerSequence;
  if power <? threshold then mret Forbidden
  else if currentLedger <? cp_snapshotLedger body then mret (BadRequest "snapshotLedger cannot be in the future")
  else
    s ← get;
    let id := s_next_poll s in
    modify (λ s, s <| s_next_poll := id + 1 |>
      <| s_polls ::= <[id := mkPoll (cp_creator body) (cp_choices body) (cp_snapshotLedger body) (cp_startTime body)
        (cp_endTime body) false None None 0 None]> |>);;
    mret (Created id)).

(** The choice was validated to be no less than zero. *)
Definition castVote (id choiceIndex : Z) (nonce signature : string) (voterAddress : option string) : M (SState Net) Answer :=
  match voterAddress with
  | None => mret (BadRequest "Missing or invalid X-Voter-Address header")
  | Some voter =>
    if negb (STELLAR_ACCOUNT_RE voter) then mret (BadRequest "Missing or invalid X-Voter-Address header")
    else route (
      found ← gets (λ s, s_polls s !! id);
      match found with
      | None => mret PollMissing
      | Some poll =>
        now ← time;
        if (now <? po_start_time poll) || (po_end_time poll <? now) then mret (BadRequest "Poll is not currently open for voting")
        else if Z.of_nat (length (po_choices poll)) <=? choiceIndex then
          mret (BadRequest "choiceIndex is out of range for this poll's choices")
        else if negb (verifySignalVote (mkPayload id choiceIndex voter nonce) signature) then mret (BadRequest "Invalid signature")
        else
          s ← get;
          if existsb (λ v, (sv_poll_id v =? id) && String.eqb (sv_voter v) voter) (s_votes s) then mret AlreadyVoted
          else
            modify (λ s, s <| s_next_vote := s_next_vote s + 1 |>
              <| s_votes := s_votes s ++ [mkSignalVote (s_next_vote s) id voter choiceIndex nonce signature None] |>);;
            invalidate_results id;;
            mret Voted
      end)
  end.

(** The totals of a poll that is final, from the stored powers. *)
Definition final_totals (choices : nat) (votes : list SignalVote) : list Z :=
  foldl (λ totals v, add_total (sv_choice v) (default 0 (sv_power v)) totals) (replicate choices 0) votes.
Definition read_results (id : Z) : M (SState Net) (option ResultBody) :=
  found ← gets (λ s, s_polls s !! id);
  match found with
  | None => mret None
  | Some poll =>
    if po_finalized poll then
      votes ← gets (poll_votes id);
      let totals := final_totals (length (po_choices poll)) votes in
      mret (Some (mkResultBody true (po_result_hash poll) (po_anchored_tx_hash poll)
        (mkPollResults (po_choices poll) totals (Z.of_nat (length votes)) (foldl Z.add 0 totals))))
    else
      results ← computeWeightedTally id (po_snapshot_ledger poll) (po_choices poll);
      mret (Some (mkResultBody false None None results))
  end.
(** [cached(key, ttl, fn)] on the results. *)
Definition getResults (id : Z) : M (SState Net) (option ResultBody) :=
  now ← time;
  hit ← zoom s_results (λ c s, s <| s_results := c |>) (cached_begin (resultsCacheKey id) now);
  match hit with
  | Some body => mret body
  | None =>
    body ← read_results id;
    later ← time;
    zoom s_results (λ c s, s <| s_results := c |>) (cached_finish (resultsCacheKey id) RESULTS_CACHE_TTL_MS later body)
  end.

(** ** The finalizer *)
Definition update_poll (id : Z) (f : Poll → Poll) : M (SState Net) unit := modify (λ s, s <| s_polls ::= (alter f id) |>).
Definition ended_polls (now : Z) s : list (Z * Poll) :=
  map_to_list (base.filter (λ kv, po_finalized kv.2 = false ∧ po_end_time kv.2 ≤ now ∧
    match po_next_anchor_at kv.2 with None => true | Some t => t <=? now end = true) (s_polls s)).

Definition finalized_with (resultHash : string) (anchoredTxHash : option string) (p : Poll) : Poll :=
  p <| po_finalized := true |> <| po_result_hash := Some resultHash |> <| po_anchored_tx_hash := anchoredTxHash |>.
Definition finish_poll (id : Z) (resultHash : string) (anchoredTxHash : option string) : M (SState Net) unit :=
  update_poll id (finalized_with resultHash anchoredTxHash);; invalidate_results id.
(** The [catch] of the anchoring: a retry later, or giving up. *)
Definition anchor_failed (id : Z) (poll : Poll) (resultHash : string) : M (SState Net) unit :=
  let attempts := po_anchor_attempts poll + 1 in
  let backoffMs := Z.min (attempts * 30000) 300000 in
  if MAX_ANCHOR_ATTEMPTS <=? attempts then finish_poll id resultHash None
  else
    now ← time;
    update_poll id (λ p, p <| po_result_hash := Some resultHash |> <| po_anchor_attempts := attempts |>
      <| po_next_anchor_at := Some (now + backoffMs) |>);;
    invalidate_results id.
Definition finalize_poll (row : Z * Poll) : M (SState Net) unit :=
  let '(id, poll) := row in
  results ← computeWeightedTally id (po_snapshot_ledger poll) (po_choices poll);
  let resultHash := computeResultHash id results in
  if anchorEnabled then
    anchored ← try_catch (hash ← on_net (anchorOnChain id resultHash); mret (Some hash)) (λ _, mret None);
    match anchored with
    | Some hash => finish_poll id resultHash (Some hash)
    | None => anchor_failed id poll resultHash
    end
  else finish_poll id resultHash None.
Definition finalizeEndedPolls : M (SState Net) unit :=
  now ← time;
  polls ← gets (ended_polls now);
  for_each (λ row, try_catch (finalize_poll row) (λ _, mret tt)) polls.
End signaling.
