(* ===== verification/SignalingSafety.v ===== *)
(** * Signaling polls: what is counted and what is published

    The tally is the sum of the voters' powers at the snapshot; a vote is in
    the table only with a signature over exactly that vote; and the totals
    served for a final poll are those that were hashed, as long as every power
    could be read when it was finalized. *)

From S2P Require Import Prelude JsValues Cache IndexerDb IndexerWorld Effects.
From S2P Require Import Signaling.
Open Scope Z_scope.

(** ** Totals *)

(** What the votes for a choice weigh. *)
Definition weight_of (power : SignalVote → Z) (votes : list SignalVote) (choice : nat) : Z :=
  sum_list_Z ((λ v, if sv_choice v =? Z.of_nat choice then power v else 0) <$> votes).

Lemma add_total_lookup i power totals c x :
  totals !! c = Some x → add_total i power totals !! c = Some (x + (if i =? Z.of_nat c then power else 0)).
Proof.
  intros Hx. unfold add_total. pose proof (lookup_lt_Some _ _ _ Hx) as Hlt.
  destruct ((0 <=? i) && (i <? Z.of_nat (length totals))) eqn:Hi.
  - destruct (Z.eqb_spec i (Z.of_nat c)) as [->|Hne].
    + rewrite Nat2Z.id, list_lookup_alter_eq, Hx. cbn. f_equal. lia.
    + rewrite list_lookup_alter_ne by lia. rewrite Hx. f_equal. lia.
  - destruct (Z.eqb_spec i (Z.of_nat c)) as [->|Hne]; [lia|]. rewrite Hx. f_equal. lia.
Qed.
Lemma add_total_length i power totals : length (add_total i power totals) = length totals.
Proof. unfold add_total. destruct (_ && _); [apply length_alter|done]. Qed.

(** Adding votes with a power each. *)
Definition add_all (power : SignalVote → Z) (totals : list Z) (votes : list SignalVote) : list Z :=
  foldl (λ totals v, add_total (sv_choice v) (power v) totals) totals votes.
Lemma add_all_lookup power votes totals c x :
  totals !! c = Some x → add_all power totals votes !! c = Some (x + weight_of power votes c).
Proof.
  revert totals x. induction votes as [|v votes IH]; intros totals x Hx; cbn.
  - rewrite Hx. f_equal. unfold weight_of. cbn. lia.
  - unfold add_all in IH. erewrite IH by (by apply add_total_lookup). f_equal. unfold weight_of. cbn. lia.
Qed.
Lemma add_all_length power votes totals : length (add_all power totals votes) = length totals.
Proof. revert totals. induction votes as [|v votes IH]; intros totals; cbn; [done|]. unfold add_all in IH. by rewrite IH, add_total_length. Qed.
(** The totals are determined by the weights. *)
Lemma add_all_zero power votes n :
  add_all power (replicate n 0) votes = weight_of power votes <$> seq 0 n.
Proof.
  apply list_eq. intros c. destruct (decide (c < n)%nat) as [Hc|Hc].
  - rewrite (add_all_lookup _ _ _ _ 0) by (by apply lookup_replicate_2).
    rewrite list_lookup_fmap, lookup_seq_lt by done. cbn. f_equal. 
  - rewrite !lookup_ge_None_2; [done| |]; rewrite ?length_fmap, ?length_seq, ?add_all_length, ?length_replicate; lia.
Qed.
Lemma weight_of_ext p q votes c : (∀ v, v ∈ votes → p v = q v) → weight_of p votes c = weight_of q votes c.
Proof.
  intros Hpq. unfold weight_of. f_equal. apply Forall_fmap_ext_1, Forall_forall. intros v Hv.
  destruct (_ =? _); [by apply Hpq|done].
Qed.
Lemma weight_of_fmap p f votes c :
  (∀ v, v ∈ votes → sv_choice (f v) = sv_choice v) → weight_of p (f <$> votes) c = weight_of (p ∘ f) votes c.
Proof.
  intros Hf. unfold weight_of. rewrite <- list_fmap_compose. f_equal. apply Forall_fmap_ext_1, Forall_forall.
  intros v Hv. cbn. by rewrite Hf.
Qed.
Lemma weight_of_app p votes votes' c : weight_of p (votes ++ votes') c = weight_of p votes c + weight_of p votes' c.
Proof. unfold weight_of. by rewrite fmap_app, sum_list_Z_app. Qed.

(** What the loop of the tally collects. *)
Definition known_power (m : list (string * Z)) (v : SignalVote) : Z := default 0 (jm_get (sv_voter v) m).
Definition known_powers (m : list (string * Z)) (votes : list SignalVote) : list (Z * Z) :=
  omap (λ v, p ← jm_get (sv_voter v) m; Some (sv_id v, p)) votes.
Lemma add_total_zero i totals : add_total i 0 totals = totals.
Proof.
  unfold add_total. destruct (_ && _); [|done]. apply list_eq. intros c. destruct (decide (c = Z.to_nat i)) as [->|].
  - rewrite list_lookup_alter_eq. by destruct (totals !! _).
  - by rewrite list_lookup_alter_ne.
Qed.
Lemma add_votes m votes totals powers :
  foldl (add_vote m) (totals, powers) votes = (add_all (known_power m) totals votes, powers ++ known_powers m votes).
Proof.
  revert totals powers. induction votes as [|v votes IH]; intros totals powers; cbn; [by rewrite app_nil_r|].
  unfold add_vote at 2, known_powers, known_power. cbn. destruct (jm_get (sv_voter v) m) as [p|]; cbn.
  - rewrite IH. unfold known_powers. by rewrite <- app_assoc.
  - rewrite IH, add_total_zero. done.
Qed.

Section safety.
Context {Net : Type} `{!SignalNet Net} `{!SignalCrypto}.
Context (RESULTS_CACHE_TTL_MS : Z) (anchorEnabled : bool).
Implicit Types (s : SState Net).

(** ** The tally *)
Definition net_only s s' : Prop := ∃ n, s' = s <| s_net := n |>.
Lemma net_only_refl s : net_only s s.
Proof. exists (s_net s). by destruct s. Qed.
Lemma net_only_trans s1 s2 s3 : net_only s1 s2 → net_only s2 s3 → net_only s1 s3.
Proof. intros [n ->] [n' ->]. by exists n'. Qed.
Lemma on_net_only {A} (m : M Net A) s :
  wp (on_net m) (λ a s', net_only s s' ∧ ∃ n n', m n = (Ok a, n')) (λ e s', net_only s s' ∧ ∃ n n', m n = (Throw e, n')) s.
Proof.
  unfold on_net, zoom, wp. destruct (m (s_net s)) as [[a|e] n'] eqn:Hm; (split; [by exists n'|by exists (s_net s), n']).
Qed.

(** [power] is an answer for the voter; a voter whose answer never fails. *)
Definition answered (ledger : Z) (voter : string) (power : Z) : Prop :=
  ∃ n n', getVotingPowerAtLedger voter ledger n = (Ok power, n').
Definition readable (ledger : Z) (voter : string) : Prop :=
  ∀ n, ∃ power n', getVotingPowerAtLedger voter ledger n = (Ok power, n').

Lemma resolve_spec ledger votes m s :
  wp (resolve_powers ledger votes m) (λ m' s', net_only s s' ∧
    (∀ voter p, jm_get voter m = Some p → jm_get voter m' = Some p) ∧
    (∀ voter p, jm_get voter m' = Some p → jm_get voter m = Some p ∨ answered ledger voter p) ∧
    (∀ v, v ∈ votes → readable ledger (sv_voter v) → is_Some (jm_get (sv_voter v) m'))) (λ _ _, False) s.
Proof.
  revert m s. induction votes as [|vote votes IH]; intros m s; cbn [resolve_powers].
  { wp_step. split; [apply net_only_refl|]. split; [done|]. split; [auto|]. by intros v ?%elem_of_nil. }
  destruct (jm_get (sv_voter vote) m) as [p0|] eqn:Hm.
  { eapply wp_mono; [apply IH| |done]. cbn. intros m' s' (Hn & Hold & Hnew & Hall). split; [done|]. split; [done|]. split; [done|].
    intros v [->|Hv]%elem_of_cons Hr; [|by apply Hall]. apply Hold in Hm. by eexists. }
  wp_step. unfold try_catch. pose proof (on_net_only (getVotingPowerAtLedger (sv_voter vote) ledger) s) as Hread.
  unfold wp in Hread |- * at 1. unfold mbind, M_bind, mret, M_ret.
  destruct (on_net _ s) as [[p|e] s1]; destruct Hread as (Hnet & n & n' & Hn).
  - eapply wp_mono; [apply IH| |done]. cbn. intros m' s' (Hs' & Hold & Hnew & Hall). split; [by eapply net_only_trans|].
    split; [|split].
    + intros voter q Hq. apply Hold. rewrite jm_get_set. case_decide; [subst; congruence|done].
    + intros voter q Hq. destruct (Hnew _ _ Hq) as [Hq'|]; [|by right]. rewrite jm_get_set in Hq'. case_decide; [|by left].
      subst. right. injection Hq' as <-. by exists n, n'.
    + intros v [->|Hv]%elem_of_cons Hr; [|by apply Hall]. exists p. apply Hold. rewrite jm_get_set. by case_decide.
  - eapply wp_mono; [apply IH| |done]. cbn. intros m' s' (Hs' & Hold & Hnew & Hall). split; [by eapply net_only_trans|].
    split; [done|]. split; [done|]. intros v [->|Hv]%elem_of_cons Hr; [|by apply Hall].
    destruct (Hr n) as (p & n2 & Hp). congruence.
Qed.

(** The powers that are stored with the votes. *)
Definition with_powers (powers : list (Z * Z)) (v : SignalVote) : SignalVote :=
  match jm_get (sv_id v) powers with Some p => v <| sv_power := Some p |> | None => v end.
Lemma computeWeightedTally_spec id ledger choices s :
  let votes := poll_votes id s in
  wp (computeWeightedTally id ledger choices) (λ r s', ∃ m n,
    (∀ voter p, jm_get voter m = Some p → answered ledger voter p) ∧
    (∀ v, v ∈ votes → readable ledger (sv_voter v) → is_Some (jm_get (sv_voter v) m)) ∧
    s' = s <| s_net := n |> <| s_votes ::= fmap (with_powers (known_powers m votes)) |> ∧
    r = mkPollResults choices (weight_of (known_power m) votes <$> seq 0 (length choices)) (Z.of_nat (length votes))
          (sum_list_Z (weight_of (known_power m) votes <$> seq 0 (length choices))))
    (λ _ s', net_only s s') s.
Proof.
  intros votes. unfold computeWeightedTally. do 2 wp_step. fold votes. wp_step.
  eapply wp_mono; [apply resolve_spec| |done]. cbn. intros m s1 ([n ->] & _ & Hnew & Hall).
  rewrite add_votes, add_all_zero. cbn [app].
  set (r := mkPollResults _ _ _ _).
  assert (r = mkPollResults choices (weight_of (known_power m) votes <$> seq 0 (length choices)) (Z.of_nat (length votes))
    (sum_list_Z (weight_of (known_power m) votes <$> seq 0 (length choices)))) as Hr.
  { subst r. by rewrite foldl_add_sum, Z.add_0_l. }
  assert (∀ voter p, jm_get voter m = Some p → answered ledger voter p) as Hanswered.
  { intros voter p Hp. by destruct (Hnew _ _ Hp) as [|]. }
  wp_step. destruct (known_powers m votes) as [|kp kps] eqn:Hps; cbn [length Nat.ltb Nat.leb].
  - do 2 wp_step. exists m, n. split; [done|]. split; [done|]. rewrite Hps. split; [|exact Hr].
    destruct s as [p v np nv c net]. cbn. f_equal. symmetry. by apply list_fmap_id.
  - unfold store_powers. wp_step; [|wp_step; by exists n]. do 2 wp_step. exists m, n. split; [done|]. split; [done|].
    rewrite Hps. split; [done|exact Hr].
Qed.

(** ** The table of votes *)
Record S_ok s : Prop := mkSOk {
  ok_ids : NoDup (sv_id <$> s_votes s);
  ok_next : ∀ v, v ∈ s_votes s → sv_id v < s_next_vote s;
  ok_polls : ∀ id, is_Some (s_polls s !! id) → id < s_next_poll s }.

Lemma known_powers_other m votes i : (∀ v, v ∈ votes → sv_id v ≠ i) → jm_get i (known_powers m votes) = None.
Proof.
  unfold known_powers. induction votes as [|v votes IH]; intros Hi; [done|]. cbn.
  assert (jm_get i (omap (λ v, p ← jm_get (sv_voter v) m; Some (sv_id v, p)) votes) = None) as Hrest.
  { apply IH. intros v' Hv'. apply Hi. by right. }
  destruct (jm_get (sv_voter v) m); cbn; [|done]. case_decide; [|done]. exfalso. apply (Hi v); [by left|done].
Qed.
Lemma known_powers_get m votes v :
  NoDup (sv_id <$> votes) → v ∈ votes → jm_get (sv_id v) (known_powers m votes) = jm_get (sv_voter v) m.
Proof.
  induction votes as [|x votes IH]; intros Hnd Hv; [by apply elem_of_nil in Hv|].
  rewrite fmap_cons in Hnd. apply NoDup_cons in Hnd as [Hx Hnd].
  assert (∀ v', v' ∈ votes → sv_id v' ≠ sv_id x) as Hother.
  { intros v' Hv' Heq. apply Hx. rewrite <- Heq. by apply list_elem_of_fmap_2. }
  unfold known_powers in *. cbn. apply elem_of_cons in Hv as [->|Hv].
  - destruct (jm_get (sv_voter x) m) as [p|]; cbn; [by rewrite decide_True|]. by apply (known_powers_other m votes).
  - destruct (jm_get (sv_voter x) m) as [p|]; cbn; [|by apply IH]. rewrite decide_False; [by apply IH|].
    intros Heq. by apply (Hother v).
Qed.
Lemma filter_votes_fmap (f : SignalVote → SignalVote) id (votes : list SignalVote) :
  (∀ v, sv_poll_id (f v) = sv_poll_id v) →
  base.filter (λ v, sv_poll_id v = id) (f <$> votes) = f <$> base.filter (λ v, sv_poll_id v = id) votes.
Proof.
  intros Hf. induction votes as [|v votes IH]; [done|]. rewrite fmap_cons, !filter_cons, Hf.
  case_decide; [by rewrite fmap_cons, IH|exact IH].
Qed.
Lemma with_powers_same powers v :
  sv_id (with_powers powers v) = sv_id v ∧ sv_poll_id (with_powers powers v) = sv_poll_id v ∧
  sv_voter (with_powers powers v) = sv_voter v ∧ sv_choice (with_powers powers v) = sv_choice v.
Proof. unfold with_powers. by destruct (jm_get _ _). Qed.

(** The power that is stored with a vote. *)
Definition stored_power (v : SignalVote) : Z := default 0 (sv_power v).
Definition stored_weight s (id : Z) (choice : nat) : Z := weight_of stored_power (poll_votes id s) choice.
Lemma final_totals_weights n votes : final_totals n votes = weight_of stored_power votes <$> seq 0 n.
Proof. exact (add_all_zero stored_power votes n). Qed.

(** A tally leaves the table as it is, but for the powers of its poll. *)
Definition powers_stored s (m : list (string * Z)) id : SState Net :=
  s <| s_votes ::= fmap (with_powers (known_powers m (poll_votes id s))) |>.
Lemma poll_ids id s : S_ok s → NoDup (sv_id <$> poll_votes id s).
Proof. intros [Hnd _ _]. eapply sublist_NoDup; [exact Hnd|]. apply fmap_sublist, sublist_filter. Qed.
Lemma powers_stored_ok s m id n : S_ok s → S_ok ((powers_stored s m id) <| s_net := n |>).
Proof.
  intros [Hnd Hnext Hpolls]. split; cbn; [|intros v (v' & -> & Hv)%list_elem_of_fmap|done].
  - rewrite <- list_fmap_compose. rewrite (Forall_fmap_ext_1 _ sv_id); [done|].
    apply Forall_forall. intros v _. apply with_powers_same.
  - rewrite (proj1 (with_powers_same _ _)). by apply Hnext.
Qed.
Lemma powers_stored_votes s m id id' :
  poll_votes id' (powers_stored s m id) = with_powers (known_powers m (poll_votes id s)) <$> poll_votes id' s.
Proof. apply filter_votes_fmap. intros v. apply with_powers_same. Qed.
Lemma powers_stored_own s m id v :
  S_ok s → v ∈ poll_votes id s → sv_power (with_powers (known_powers m (poll_votes id s)) v) =
    match jm_get (sv_voter v) m with Some p => Some p | None => sv_power v end.
Proof.
  intros Hok Hv. unfold with_powers. rewrite known_powers_get; [|by apply poll_ids|done]. by destruct (jm_get _ _).
Qed.
Lemma unique_votes s v v' : S_ok s → v ∈ s_votes s → v' ∈ s_votes s → sv_id v = sv_id v' → v = v'.
Proof. intros [Hnd _ _]. by apply (NoDup_key sv_id). Qed.
Lemma powers_stored_other s m id id' c :
  S_ok s → id' ≠ id → stored_weight (powers_stored s m id) id' c = stored_weight s id' c.
Proof.
  intros Hok Hne. unfold stored_weight. rewrite powers_stored_votes.
  rewrite weight_of_fmap by (intros; apply with_powers_same). apply weight_of_ext. intros v Hv. cbn. unfold stored_power, with_powers.
  rewrite known_powers_other; [done|]. intros v' Hv' Hid. apply Hne.
  apply list_elem_of_filter in Hv as [Hp Hv], Hv' as [Hp' Hv']. rewrite <- Hp, <- Hp'. f_equal. by apply (unique_votes s).
Qed.

(** A tally weighs votes at the snapshot.  A tally that returns has, for each
    choice, the sum of the powers its voters have at the snapshot ledger, over
    exactly the voters whose power could be read; a voter whose reads never
    fail is among them; every vote is counted; and the powers read are stored
    with the votes, whose other fields, and those of other polls, stay. *)
Theorem tally_is_weighted_sum id ledger choices s r s' :
  S_ok s → computeWeightedTally id ledger choices s = (Ok r, s') →
  ∃ power : string → option Z,
    (∀ voter p, power voter = Some p → answered ledger voter p) ∧
    (∀ v, v ∈ poll_votes id s → readable ledger (sv_voter v) → is_Some (power (sv_voter v))) ∧
    res_totals r = weight_of (λ v, default 0 (power (sv_voter v))) (poll_votes id s) <$> seq 0 (length choices) ∧
    res_totalWeight r = sum_list_Z (res_totals r) ∧ res_totalVotes r = Z.of_nat (length (poll_votes id s)) ∧
    (∀ v, v ∈ s_votes s → ∃ v', v' ∈ s_votes s' ∧
      v' = if sv_poll_id v =? id then v <| sv_power := match power (sv_voter v) with Some p => Some p | None => sv_power v end |> else v).
Proof.
  intros Hok Hrun. pose proof (wp_ok_inv _ _ _ _ _ _ Hrun (computeWeightedTally_spec id ledger choices s))
    as (m & n & Hans & Hall & -> & ->). cbn.
  exists (λ voter, jm_get voter m). split; [exact Hans|]. split; [exact Hall|]. split; [done|]. split; [done|]. split; [done|].
  intros v Hv. exists (with_powers (known_powers m (poll_votes id s)) v). split; [by apply list_elem_of_fmap_2|].
  destruct (Z.eqb_spec (sv_poll_id v) id) as [Hp|Hp].
  - pose proof (powers_stored_own s m id v Hok) as Hown.
    assert (v ∈ poll_votes id s) as Hin by (by apply list_elem_of_filter). specialize (Hown Hin).
    unfold with_powers in *. destruct (jm_get (sv_id v) _); cbn in *; rewrite <- Hown; by destruct v.
  - unfold with_powers. rewrite known_powers_other; [done|]. intros v' [Hp' Hv']%list_elem_of_filter Hid. apply Hp.
    rewrite <- Hp'. f_equal. symmetry. by apply (unique_votes s).
Qed.

(** ** What a final poll keeps *)

(** The poll [id], once final, keeps its row and what its votes weigh. *)
Record keeps_final (id : Z) s s' : Prop := mkKeepsFinal {
  kf_ok : S_ok s';
  kf_poll : ∀ poll, s_polls s !! id = Some poll → po_finalized poll = true →
    s_polls s' !! id = Some poll ∧ ∀ c, stored_weight s' id c = stored_weight s id c }.
Definition final_kept (id : Z) s s' : Prop := S_ok s → keeps_final id s s'.
#[local] Instance final_kept_preorder id : PreOrder (final_kept id).
Proof.
  split; [intros s Hs; by split|]. intros s1 s2 s3 H12 H23 H1. destruct (H12 H1) as [H2 Hp2]. destruct (H23 H2) as [H3 Hp3].
  split; [done|]. intros poll Hpoll Hf. destruct (Hp2 _ Hpoll Hf) as [Hpoll2 Hw2]. destruct (Hp3 _ Hpoll2 Hf) as [Hpoll3 Hw3].
  split; [done|]. intros c. by rewrite Hw3.
Qed.
(** Other parts of the state may change. *)
Lemma final_kept_frame id s s' :
  s_polls s' = s_polls s → s_votes s' = s_votes s → s_next_poll s' = s_next_poll s → s_next_vote s' = s_next_vote s →
  final_kept id s s'.
Proof.
  intros Hp Hv Hnp Hnv [Hnd Hnext Hpolls]. split.
  - split; by rewrite ?Hv, ?Hnv, ?Hp, ?Hnp.
  - intros poll Hpoll _. rewrite Hp. split; [done|]. intros c. unfold stored_weight, poll_votes. by rewrite Hv.
Qed.
#[local] Instance on_net_final {A} id (m : M Net A) : Evolves (final_kept id) (on_net m).
Proof.
  intros s. eapply wp_mono; [apply on_net_only| |]; cbn; intros a s' [[n ->] _]; by apply final_kept_frame.
Qed.
#[local] Instance invalidate_final id pollId : Evolves (final_kept id) (invalidate_results pollId).
Proof. intros s. unfold invalidate_results. wp_step. by apply final_kept_frame. Qed.
#[local] Instance zoom_final {A} id (m : M (CacheState (option ResultBody)) A) :
  Evolves (final_kept id) (zoom s_results (λ c s, s <| s_results := c |>) m).
Proof.
  intros s. unfold wp, zoom. destruct (m (s_results s)) as [[a|e] c]; by apply final_kept_frame.
Qed.

(** The poll of a tally or an update is not final yet. *)
Definition open_poll s (id : Z) : Prop := ∀ poll, s_polls s !! id = Some poll → po_finalized poll = false.
Lemma tally_final id id' ledger choices s :
  open_poll s id' →
  wp (computeWeightedTally id' ledger choices) (λ _ s', final_kept id s s' ∧ s_polls s' = s_polls s)
    (λ _ s', final_kept id s s' ∧ s_polls s' = s_polls s) s.
Proof.
  intros Hopen. eapply wp_mono; [apply computeWeightedTally_spec| |]; cbn.
  - intros r s' (m & n & _ & _ & -> & _). split; [|done]. intros Hok. split.
    + exact (powers_stored_ok s m id' n Hok).
    + intros poll Hpoll Hf. split; [exact Hpoll|]. intros c. apply (powers_stored_other s m id' id c Hok).
      intros ->. specialize (Hopen _ Hpoll). congruence.
  - intros e s' [n ->]. split; [by apply final_kept_frame|done].
Qed.
Lemma update_poll_final id id' f s :
  open_poll s id' → final_kept id s (s <| s_polls ::= (alter f id') |>).
Proof.
  intros Hopen [Hnd Hnext Hpolls]. split; [split; [done|done|]|].
  - intros i. cbn. rewrite lookup_alter_is_Some. apply Hpolls.
  - intros poll Hpoll Hf. cbn. rewrite lookup_alter_ne; [done|]. intros ->. specialize (Hopen _ Hpoll). congruence.
Qed.

(** Rows are added with new ids. *)
Lemma create_ok s poll :
  S_ok s → S_ok (s <| s_next_poll := s_next_poll s + 1 |> <| s_polls ::= <[s_next_poll s := poll]> |>).
Proof.
  intros [Hnd Hnext Hpolls]. split; cbn; [done|done|].
  intros i. rewrite lookup_insert_is_Some. intros [<-|[_ Hi%Hpolls]]; lia.
Qed.
Lemma cast_ok s v :
  sv_id v = s_next_vote s → S_ok s → S_ok (s <| s_next_vote := s_next_vote s + 1 |> <| s_votes := s_votes s ++ [v] |>).
Proof.
  intros Hid [Hnd Hnext Hpolls]. split; cbn; [| |done].
  - rewrite fmap_app. apply NoDup_app. split; [done|]. split; [|apply NoDup_singleton].
    intros i (v' & -> & Hv)%list_elem_of_fmap Hi%list_elem_of_singleton. specialize (Hnext _ Hv). lia.
  - intros v' [Hv%Hnext|Hv%list_elem_of_singleton]%elem_of_app; [lia|]. subst v'. lia.
Qed.
#[local] Instance create_final id body : Evolves (final_kept id) (createPoll body).
Proof.
  unfold createPoll, route.
  apply ev_catch; [apply _| |intros; apply _]. apply ev_bind; [apply _..|]. intros power. apply ev_bind; [apply _..|].
  intros threshold. apply ev_bind; [apply _..|]. intros ledger. destruct (power <? threshold); [apply _|].
  destruct (ledger <? _); [apply _|]. intros s. wp_go. intros Hok. split; [by apply create_ok|].
  intros poll Hpoll _. cbn. rewrite lookup_insert_ne; [done|]. intros <-.
  assert (s_next_poll s < s_next_poll s); [|lia]. apply Hok. by eexists.
Qed.
#[local] Instance cast_final id pollId choice nonce signature voter :
  Evolves (final_kept id) (castVote pollId choice nonce signature voter).
Proof.
  unfold castVote, route, time. destruct voter as [voter|]; [|apply _]. destruct (negb _); [apply _|].
  apply ev_catch; [apply _| |intros; apply _]. apply ev_bind; [apply _..|]. intros [poll|]; [|apply _].
  apply ev_bind; [apply _..|]. intros now. destruct (_ || _); [apply _|]. destruct (_ <=? _); [apply _|].
  destruct (negb _); [apply _|]. intros s. apply ev_bind_at; [apply _|]. wp_step. split; [reflexivity|].
  destruct (existsb _ _); [apply (evolves (R := final_kept id))|].
  apply ev_bind_at; [apply _|]. wp_step. split; [|apply (evolves (R := final_kept id))].
  intros Hok. split; [by apply cast_ok|].
  intros p Hp Hf. split; [exact Hp|]. intros c. unfold stored_weight, poll_votes. cbn [s_votes upd].
  rewrite filter_app, weight_of_app, filter_cons, filter_nil. case_decide; unfold weight_of; cbn; [destruct (_ =? _); cbn; lia|lia].
Qed.
#[local] Instance read_results_final id pollId : Evolves (final_kept id) (read_results pollId).
Proof.
  intros s. unfold read_results. apply ev_bind_at; [apply _|]. wp_step. split; [reflexivity|].
  destruct (s_polls s !! pollId) as [poll|] eqn:Hpoll; [|apply (evolves (R := final_kept id))].
  destruct (po_finalized poll) eqn:Hf; [apply (evolves (R := final_kept id))|].
  apply ev_bind_at; [apply _|]. eapply wp_mono; [apply (tally_final id pollId)| |by intros e s' []].
  - intros p Hp. congruence.
  - intros r s1 [Hs1 _]. split; [exact Hs1|]. apply (evolves (R := final_kept id)).
Qed.
#[local] Instance results_final id pollId : Evolves (final_kept id) (getResults RESULTS_CACHE_TTL_MS pollId).
Proof.
  unfold getResults, time. apply ev_bind; [apply _..|]. intros now. apply ev_bind; [apply _..|]. intros [body|]; apply _.
Qed.

Lemma finish_final id id' h tx s :
  open_poll s id' →
  wp (finish_poll id' h tx) (λ _, final_kept id s) (λ _, final_kept id s) s.
Proof.
  intros Hopen. unfold finish_poll, update_poll, invalidate_results. wp_go.
  etransitivity; [by apply (update_poll_final id id')|]. by apply final_kept_frame.
Qed.
Lemma finalize_final id row s :
  open_poll s row.1 →
  wp (finalize_poll anchorEnabled row) (λ _, final_kept id s) (λ _, final_kept id s) s.
Proof.
  destruct row as [id' poll]. cbn. intros Hopen. unfold finalize_poll.
  apply ev_bind_at; [apply _|]. eapply wp_mono; [by apply (tally_final id id')| |by intros e s' []].
  cbn. intros r s1 [Hs1 Hpolls]. split; [exact Hs1|].
  assert (open_poll s1 id') as Hopen1 by (unfold open_poll; by rewrite Hpolls).
  destruct anchorEnabled; [|by apply finish_final].
  apply ev_bind_at; [apply _|].
  assert (wp (try_catch (hash ← on_net (anchorOnChain id' (computeResultHash id' r)); mret (Some hash)) (λ _, mret None))
    (λ _ s2, net_only s1 s2) (λ _ s2, net_only s1 s2) s1) as Hanchor.
  { unfold try_catch, wp, mbind, M_bind. pose proof (on_net_only (anchorOnChain id' (computeResultHash id' r)) s1) as Hnet.
    unfold wp in Hnet. destruct (on_net _ s1) as [[a|e] s2]; by destruct Hnet as [? _]. }
  eapply wp_mono; [exact Hanchor| |].
  2:{ intros e s2 [n ->]. by apply final_kept_frame. }
  cbn. intros anchored s2 [n ->]. split; [by apply final_kept_frame|].
  destruct anchored as [hash|]; [by apply finish_final|]. unfold anchor_failed.
  destruct (_ <=? _); [by apply finish_final|]. unfold time, update_poll, invalidate_results. wp_go.
  etransitivity; [by apply (update_poll_final id id')|]. by apply final_kept_frame.
Qed.

(** A final poll is never finalized again. *)
Definition touches (id : Z) s s' : Prop := ∀ i, i ≠ id → s_polls s' !! i = s_polls s !! i.
Lemma finalize_touches row s :
  wp (finalize_poll anchorEnabled row) (λ _, touches row.1 s) (λ _, touches row.1 s) s.
Proof.
  destruct row as [id poll]. unfold finalize_poll. wp_step. eapply wp_mono; [apply computeWeightedTally_spec| |].
  2:{ cbn. intros e s' [n ->]. done. }
  cbn. intros r s1 (m & n & _ & _ & -> & _).
  assert (∀ h tx s1, s_polls s1 = s_polls s → wp (finish_poll id h tx) (λ _, touches id s) (λ _, touches id s) s1) as Hfinish.
  { intros h tx s1 Hs1. unfold finish_poll, update_poll, invalidate_results. wp_go. intros i Hi. cbn. by rewrite Hs1, lookup_alter_ne. }
  destruct anchorEnabled; [|by apply Hfinish].
  wp_step. unfold try_catch. pose proof (on_net_only (anchorOnChain id (computeResultHash id r))
    (s <| s_net := n |> <| s_votes ::= fmap (with_powers (known_powers m (poll_votes id s))) |>)) as Hnet.
  unfold wp in Hnet |- * at 1. unfold mbind, M_bind at 1. destruct (on_net _ _) as [[a|e] s2]; destruct Hnet as [[n' ->] _].
  - by apply Hfinish.
  - unfold anchor_failed. destruct (_ <=? _); [by apply Hfinish|]. unfold time, update_poll, invalidate_results. wp_go.
    intros i Hi. cbn. by rewrite lookup_alter_ne.
Qed.
#[local] Instance finalizer_final id : Evolves (final_kept id) (finalizeEndedPolls anchorEnabled).
Proof.
  intros s. unfold finalizeEndedPolls, time. do 4 wp_step.
  assert (NoDup (ended_polls (sig_clock (s_net s)) s).*1 ∧
    ∀ row, row ∈ ended_polls (sig_clock (s_net s)) s → open_poll s row.1) as [Hnd Hopen].
  { unfold ended_polls. split; [apply NoDup_fst_map_to_list|]. intros [i p] Hin%elem_of_map_to_list.
    apply map_lookup_filter_Some in Hin as [Hi [Hf _]]. intros q Hq. cbn in *. congruence. }
  revert Hnd Hopen. generalize (ended_polls (sig_clock (s_net s)) s) as rows. intros rows. revert s.
  induction rows as [|row rows IH]; intros s Hnd Hopen; cbn [for_each]; [wp_step; reflexivity|].
  rewrite fmap_cons in Hnd. apply NoDup_cons in Hnd as [Hrow Hnd].
  apply ev_bind_at; [apply _|]. pose proof (finalize_final id row s (Hopen row ltac:(by left))) as Hfinal.
  pose proof (finalize_touches row s) as Htouch. unfold wp, try_catch in *.
  assert (∀ s1, final_kept id s s1 → touches row.1 s s1 → final_kept id s s1 ∧
    wp (for_each (λ row, try_catch (finalize_poll anchorEnabled row) (λ _, mret tt)) rows) (λ _, final_kept id s1) (λ _, final_kept id s1) s1)
    as Hrest.
  { intros s1 Hs1 Ht. split; [done|]. apply IH; [done|]. intros row' Hin p. rewrite Ht.
    - apply Hopen. by right.
    - intros Heq. apply Hrow. rewrite <- Heq. by apply list_elem_of_fmap_2. }
  destruct (finalize_poll anchorEnabled row s) as [[u|e] s1]; by apply Hrest.
Qed.

(** ** Histories *)

(** What happens to the tables, in any order; the chain may move at any time. *)
Inductive signal_step : relation (SState Net) :=
  | step_create s body : signal_step s (createPoll body s).2
  | step_cast s id choice nonce signature voter : signal_step s (castVote id choice nonce signature voter s).2
  | step_results s id : signal_step s (getResults RESULTS_CACHE_TTL_MS id s).2
  | step_finalize s : signal_step s (finalizeEndedPolls anchorEnabled s).2
  | step_chain s net : signal_step s (s <| s_net := net |>).
Definition S_init (net : Net) : SState Net := mkSState ∅ [] 1 1 empty_cache net.
Definition reachable_signaling s : Prop := ∃ net, rtc signal_step (S_init net) s.

Lemma step_final_kept id s s' : signal_step s s' → final_kept id s s'.
Proof.
  destruct 1 as [s body|s pollId choice nonce signature voter|s pollId|s|s net].
  - exact (evolves_state (final_kept id) _ s).
  - exact (evolves_state (final_kept id) _ s).
  - exact (evolves_state (final_kept id) _ s).
  - exact (evolves_state (final_kept id) _ s).
  - by apply final_kept_frame.
Qed.
Lemma history_final_kept id s s' : rtc signal_step s s' → final_kept id s s'.
Proof. induction 1 as [s|s s1 s' Hs _ IH]; [reflexivity|]. etransitivity; [by apply step_final_kept|exact IH]. Qed.
Lemma reachable_ok s : reachable_signaling s → S_ok s.
Proof.
  intros [net Hs]. refine (kf_ok _ _ _ (history_final_kept 0 _ _ Hs _)).
  split; cbn; [constructor|by intros v ?%elem_of_nil|intros id; rewrite lookup_empty; by intros []].
Qed.

(** The hash of a poll that is being finalized is that of its stored totals. *)
Definition hash_of_weights s (id : Z) (poll : Poll) : string :=
  let totals := stored_weight s id <$> seq 0 (length (po_choices poll)) in
  computeResultHash id (mkPollResults (po_choices poll) totals (Z.of_nat (length totals)) (sum_list_Z totals)).
Definition hash_fixed id poll s : Prop := ∀ poll', s_polls s !! id = Some poll' →
  po_choices poll' = po_choices poll ∧ (po_finalized poll' = true → po_result_hash poll' = Some (hash_of_weights s id poll)).

Lemma stored_after_tally s id ledger m n c :
  S_ok s → (∀ v, v ∈ poll_votes id s → readable ledger (sv_voter v)) →
  (∀ v, v ∈ poll_votes id s → readable ledger (sv_voter v) → is_Some (jm_get (sv_voter v) m)) →
  stored_weight ((powers_stored s m id) <| s_net := n |>) id c = weight_of (known_power m) (poll_votes id s) c.
Proof.
  intros Hok Hread Hall. unfold stored_weight.
  change (poll_votes id ((powers_stored s m id) <| s_net := n |>)) with (poll_votes id (powers_stored s m id)).
  rewrite powers_stored_votes. rewrite weight_of_fmap by (intros; apply with_powers_same).
  apply weight_of_ext. intros v Hv. cbn. unfold stored_power, known_power. rewrite powers_stored_own by done.
  by destruct (Hall v Hv (Hread v Hv)) as [p ->].
Qed.
Lemma finish_fixes_hash id poll tx s h :
  (∀ p, s_polls s !! id = Some p → po_choices p = po_choices poll) → h = hash_of_weights s id poll →
  wp (finish_poll id h tx) (λ _, hash_fixed id poll) (λ _, hash_fixed id poll) s.
Proof.
  intros Hp ->. unfold finish_poll, update_poll, invalidate_results. wp_go.
  intros p. cbn. rewrite lookup_alter_eq. destruct (s_polls s !! id) as [p0|]; [|done]. cbn. intros [= <-].
  split; [exact (Hp _ eq_refl)|done].
Qed.
Lemma finalize_fixes_hash id poll s :
  S_ok s → s_polls s !! id = Some poll → po_finalized poll = false →
  (∀ v, v ∈ poll_votes id s → readable (po_snapshot_ledger poll) (sv_voter v)) →
  wp (finalize_poll anchorEnabled (id, poll)) (λ _, hash_fixed id poll) (λ _, hash_fixed id poll) s.
Proof.
  intros Hok Hpoll Hopen Hread. unfold finalize_poll. wp_step. eapply wp_mono; [apply computeWeightedTally_spec| |].
  2:{ cbn. intros e s' [n ->] p Hp. cbn in Hp. rewrite Hpoll in Hp. injection Hp as <-. split; [done|congruence]. }
  intros r s1 (m & n & _ & Hall & Hs1 & ->).
  assert (∀ c, stored_weight s1 id c = weight_of (known_power m) (poll_votes id s) c) as Hw.
  { intros c. rewrite Hs1. by apply (stored_after_tally s id (po_snapshot_ledger poll)). }
  assert (∀ s2, net_only s1 s2 → (∀ p, s_polls s2 !! id = Some p → p = poll) ∧ ∀ a b, computeResultHash id (mkPollResults (po_choices poll)
    (weight_of (known_power m) (poll_votes id s) <$> seq 0 (length (po_choices poll))) a b) = hash_of_weights s2 id poll) as Hs2.
  { intros s2 [n' ->]. split; [intros p; rewrite Hs1; cbn; congruence|]. intros a b.
    unfold hash_of_weights, computeResultHash. cbn [res_choices res_totals].
    erewrite (list_fmap_ext (weight_of _ _)); [reflexivity|]. intros i c _. symmetry. exact (Hw c). }
  assert (∀ s2 tx, net_only s1 s2 → wp (finish_poll id (computeResultHash id (mkPollResults (po_choices poll)
    (weight_of (known_power m) (poll_votes id s) <$> seq 0 (length (po_choices poll))) (Z.of_nat (length (poll_votes id s)))
    (sum_list_Z (weight_of (known_power m) (poll_votes id s) <$> seq 0 (length (po_choices poll)))))) tx)
    (λ _, hash_fixed id poll) (λ _, hash_fixed id poll) s2) as Hfinish.
  { intros s2 tx [Hp Hh]%Hs2. apply finish_fixes_hash; [|by apply Hh]. by intros p ->%Hp. }
  clear Hw. destruct anchorEnabled; [|by apply Hfinish, net_only_refl].
  wp_step. unfold try_catch. match goal with |- context [on_net ?a] => pose proof (on_net_only a s1) as Hnet end.
  unfold wp in Hnet |- * at 1. unfold mbind, M_bind at 1. destruct (on_net _ _) as [[a|e] s2]; destruct Hnet as [Hnet _].
  - by apply Hfinish.
  - unfold anchor_failed. destruct (_ <=? _); [by apply Hfinish|]. unfold time, update_poll, invalidate_results. wp_go.
    intros p. cbn. rewrite lookup_alter_eq. destruct (Hs2 _ Hnet) as [Hp _]. destruct (s_polls s2 !! id) as [p0|]; [|done].
    cbn. intros [= <-]. specialize (Hp _ eq_refl) as ->. split; [done|]. cbn. congruence.
Qed.

(** C21: Published results are the hashed ones.  When a poll of a reachable
    state is finalized, with the powers of all its voters readable at its
    snapshot, then after any further history the results served from the table
    are final and their published hash is that of the choices and totals
    served with it. *)
Theorem final_results_match_hash id poll s o s1 poll1 s2 :
  reachable_signaling s → s_polls s !! id = Some poll → po_finalized poll = false →
  (∀ v, v ∈ poll_votes id s → readable (po_snapshot_ledger poll) (sv_voter v)) →
  finalize_poll anchorEnabled (id, poll) s = (o, s1) →
  s_polls s1 !! id = Some poll1 → po_finalized poll1 = true → rtc signal_step s1 s2 →
  ∃ body, read_results id s2 = (Ok (Some body), s2) ∧ rb_finalized body = true ∧
    res_choices (rb_results body) = po_choices poll ∧ rb_resultHash body = Some (computeResultHash id (rb_results body)).
Proof.
  intros Hok%reachable_ok Hpoll Hopen Hread Hrun Hpoll1 Hfinal Hhist.
  pose proof (wp_run _ _ _ _ _ _ Hrun (finalize_fixes_hash id poll s Hok Hpoll Hopen Hread)) as Hfixed.
  assert (S_ok s1) as Hok1.
  { pose proof (wp_run _ _ _ _ _ _ Hrun (finalize_final id (id, poll) s ltac:(intros p Hp; cbn in *; congruence))) as Hk.
    destruct o; exact (kf_ok _ _ _ (Hk Hok)). }
  assert (hash_fixed id poll s1) as Hh by (by destruct o).
  destruct (Hh _ Hpoll1) as [Hch Hhash]. specialize (Hhash Hfinal).
  destruct (kf_poll _ _ _ (history_final_kept id _ _ Hhist Hok1) _ Hpoll1 Hfinal) as [Hpoll2 Hw].
  eexists. unfold read_results, gets, mbind, M_bind. cbn -[final_totals]. rewrite Hpoll2, Hfinal. cbn -[final_totals].
  split; [reflexivity|]. split; [done|]. split; [done|]. cbn -[final_totals computeResultHash]. rewrite Hhash. f_equal.
  unfold hash_of_weights, computeResultHash. cbn [res_choices res_totals]. rewrite Hch, final_totals_weights.
  erewrite (list_fmap_ext (stored_weight s1 id)); [reflexivity|]. intros i c _. symmetry. exact (Hw c).
Qed.
End safety.

(** ** An example *)

(** A clock, and whether carol's power cannot be read; the others' always can.
    Every power is ten.  The hash is the text itself, and whoever knows the
    text can sign it. *)
Module SignalExample.
Definition Chain : Type := Z * bool.
#[export] Instance ex_crypto : SignalCrypto := {|
  sha256 := λ b, b; from_base64 := utf8; keypair_verify := λ _ digest signature, Ok (bool_decide (digest = signature)) |}.
Definition account (c : Ascii.ascii) : string :=
  "G" +:+ String.concat "" (replicate 54 "A") +:+ String c "".
Definition alice : string := account (Ascii.ascii_of_N 65).
Definition bob : string := account (Ascii.ascii_of_N 66).
Definition carol : string := account (Ascii.ascii_of_N 67).
#[export] Instance ex_net : SignalNet Chain := {|
  sig_clock := fst;
  getVotingPowerAtLedger := λ voter _ n, (if n.2 && String.eqb voter carol then Throw (PlainError "no answer") else Ok 10, n);
  getCurrentVotingPower := λ _ n, (Ok 10, n);
  getProposalThreshold := λ n, (Ok 10, n);
  getLatestLedgerSequence := λ n, (Ok 100, n);
  anchorOnChain := λ _ _ n, (Ok "tx", n) |}.
Definition ttl : Z := 15000.
Definition signed (id choice : Z) (voter : string) : string :=
  SEP53_PREFIX +:+ canonicalSignalPayload (mkPayload id choice voter "n").
Definition vote_for (id choice : Z) (voter : string) (s : SState Chain) : SState Chain :=
  (castVote id choice "n" (signed id choice voter) (Some voter) s).2.
Definition opened : SState Chain :=
  (createPoll (mkCreatePoll "alice" ["yes"; "no"] 90 0 1000) (S_init (10, false))).2.
Definition the_poll : Poll := mkPoll "alice" ["yes"; "no"] 90 0 1000 false None None 0 None.
(** Bob votes for the second choice, and [voter] for the first. *)
Definition voted (voter : string) : SState Chain := vote_for 1 1 bob (vote_for 1 0 voter opened).
(** The results are read before the end, when all powers are readable. *)
Definition looked_at (voter : string) : SState Chain := (getResults ttl 1 (voted voter)).2.
(** The poll ends, and no power of carol's can be read. *)
Definition ended (s : SState Chain) : SState Chain := s <| s_net := (2000, true) |>.
Definition finalized (s : SState Chain) : SState Chain := (finalizeEndedPolls false s).2.

Lemma voted_reachable voter : reachable_signaling ttl false (voted voter).
Proof.
  exists (10, false). eapply rtc_l; [apply step_create|]. eapply rtc_l; [apply step_cast|]. apply rtc_once, step_cast.
Qed.
Lemma ended_reachable s : reachable_signaling ttl false s → reachable_signaling ttl false (ended s).
Proof. intros [n0 Hn]. exists n0. eapply rtc_r; [exact Hn|apply step_chain]. Qed.
Lemma looked_at_reachable voter : reachable_signaling ttl false (looked_at voter).
Proof. destruct (voted_reachable voter) as [n Hn]. exists n. eapply rtc_r; [exact Hn|apply step_results]. Qed.
Lemma ended_voters (v : SignalVote) : v ∈ poll_votes 1 (ended (voted alice)) → sv_voter v = alice ∨ sv_voter v = bob.
Proof.
  intros Hv%(list_elem_of_fmap_2 sv_voter).
  assert (sv_voter <$> poll_votes 1 (ended (voted alice)) = [alice; bob]) as Hvoters by (vm_compute; reflexivity).
  rewrite Hvoters in Hv. apply elem_of_cons in Hv as [|Hv%list_elem_of_singleton]; auto.
Qed.
Lemma others_readable voter : String.eqb voter carol = false → readable 90 voter.
Proof. intros Hne [clock down]. exists 10, (clock, down). cbn. by rewrite Hne, andb_false_r. Qed.

(** A poll that is finalized while a power cannot be read: the hash leaves
    that vote out, the results that are served count it with the power that an
    earlier look at the results stored. *)
Lemma unread_power_breaks_hash :
  reachable_signaling ttl false (finalized (ended (looked_at carol))) ∧
  (let body := (read_results 1 (finalized (ended (looked_at carol)))).1 in
   match body with
   | Ok (Some body) => rb_finalized body = true ∧ res_totals (rb_results body) = [10; 10] ∧
       rb_resultHash body = Some (computeResultHash 1 (mkPollResults ["yes"; "no"] [0; 10] 2 10)) ∧
       rb_resultHash body ≠ Some (computeResultHash 1 (rb_results body))
   | _ => False
   end).
Proof.
  split.
  - destruct (ended_reachable _ (looked_at_reachable carol)) as [n Hn]. exists n. eapply rtc_r; [exact Hn|apply step_finalize].
  - vm_compute. split; [reflexivity|]. split; [reflexivity|]. split; [reflexivity|]. discriminate.
Qed.
End SignalExample.
#[local] Existing Instance SignalExample.ex_crypto.
#[local] Existing Instance SignalExample.ex_net.
Import SignalExample.

Lemma tally_is_weighted_sum_witness : ∃ r s',
  computeWeightedTally 1 90 ["yes"; "no"] (ended (voted carol)) = (Ok r, s') ∧ res_totals r = [0; 10] ∧
  res_totalWeight r = sum_list_Z (res_totals r).
Proof.
  destruct (computeWeightedTally 1 90 ["yes"; "no"] (ended (voted carol))) as [o s'] eqn:Hrun.
  pose proof Hrun as Ho. vm_compute in Ho. injection Ho as <- _. eexists _, s'. split; [reflexivity|]. split; [reflexivity|].
  destruct (tally_is_weighted_sum 1 90 ["yes"; "no"] (ended (voted carol)) _ _
    (reachable_ok ttl false _ (ended_reachable _ (voted_reachable carol))) Hrun) as (power & _ & _ & _ & Hw & _). exact Hw.
Defined.
Lemma final_results_match_hash_witness : ∃ body s1, finalize_poll false (1, the_poll) (ended (voted alice)) = (Ok tt, s1) ∧
  read_results 1 s1 = (Ok (Some body), s1) ∧ rb_resultHash body = Some (computeResultHash 1 (rb_results body)).
Proof.
  destruct (finalize_poll false (1, the_poll) (ended (voted alice))) as [o s1] eqn:Hrun.
  assert (o = Ok tt ∧ ∃ poll1, s_polls s1 !! 1 = Some poll1 ∧ po_finalized poll1 = true) as (-> & poll1 & Hpoll1 & Hfin).
  { pose proof Hrun as Ho. vm_compute in Ho. injection Ho as <- <-. split; [reflexivity|]. eexists. split; vm_compute; reflexivity. }
  destruct (final_results_match_hash ttl false 1 the_poll (ended (voted alice)) (Ok tt) s1 poll1 s1
    (ended_reachable _ (voted_reachable alice))) as (body & Hread & _ & _ & Hhash);
    [vm_compute; reflexivity|reflexivity| |exact Hrun|exact Hpoll1|exact Hfin|apply rtc_refl|].
  - intros v [-> | ->]%ended_voters; apply others_readable; reflexivity.
  - exists body, s1. split; [reflexivity|]. split; [exact Hread|exact Hhash].
Defined.
