(* ===== verification/SignalingVotes.v ===== *)
(** * Signaling polls: who voted

    Every vote in the table carries a signature of its voter over exactly that
    vote, one vote for each voter and poll, cast while the poll was open for a
    choice it has. *)

From S2P Require Import Prelude JsValues Cache IndexerDb IndexerWorld Effects SdkTypes.
From S2P Require Import Signaling SignalingSafety.
Open Scope Z_scope.


(** ** The table *)
Definition payload_of (v : SignalVote) : SignalVotePayload :=
  mkPayload (sv_poll_id v) (sv_choice v) (sv_voter v) (sv_nonce v).
Definition ballot (v : SignalVote) : Z * string := (sv_poll_id v, sv_voter v).

Section votes.
Context {Net : Type} `{!SignalNet Net} `{!SignalCrypto}.
Context (RESULTS_CACHE_TTL_MS : Z) (anchorEnabled : bool).
Implicit Types (s : SState Net).

(** What was checked when the vote came in. *)
Definition genuine s (v : SignalVote) : Prop :=
  STELLAR_ACCOUNT_RE (sv_voter v) = true ∧ verifySignalVote (payload_of v) (sv_signature v) = true ∧
  ∃ poll, s_polls s !! sv_poll_id v = Some poll ∧ sv_choice v < Z.of_nat (length (po_choices poll)).
Record votes_ok s : Prop := mkVotesOk {
  vo_genuine : ∀ v, v ∈ s_votes s → genuine s v;
  vo_once : NoDup (ballot <$> s_votes s) }.

(** Powers and rows of polls change, but for the choices. *)
Definition powers_only (f : SignalVote → SignalVote) : Prop := ∀ v, f v = v <| sv_power := sv_power (f v) |>.
Record rows_kept s s' : Prop := mkRowsKept {
  rk_votes : ∃ f, powers_only f ∧ s_votes s' = f <$> s_votes s;
  rk_choices : ∀ id poll, s_polls s !! id = Some poll →
    ∃ poll', s_polls s' !! id = Some poll' ∧ po_choices poll' = po_choices poll }.
#[local] Instance rows_kept_preorder : PreOrder rows_kept.
Proof.
  split.
  - intros s. split; [|by eauto]. exists id. split; [by intros []|]. by rewrite list_fmap_id.
  - intros s1 s2 s3 [(f & Hf & H2) Hc2] [(g & Hg & H3) Hc3]. split.
    + exists (g ∘ f). split; [|by rewrite H3, H2, list_fmap_compose]. intros v. cbn.
      rewrite (Hg (f v)) at 1. generalize (sv_power (g (f v))). intros q. rewrite (Hf v). by destruct v.
    + intros i poll (poll2 & Hp2 & <-)%Hc2. by apply Hc3.
Qed.
Lemma rows_kept_frame s s' : s_votes s' = s_votes s → s_polls s' = s_polls s → rows_kept s s'.
Proof.
  intros Hv Hp. split; [|rewrite Hp; by eauto]. exists id. split; [by intros []|]. by rewrite Hv, list_fmap_id.
Qed.
Lemma rows_kept_ok s s' : rows_kept s s' → votes_ok s → votes_ok s'.
Proof.
  intros [(f & Hf & Hv) Hc] [Hg Hnd]. split; rewrite Hv.
  - intros v' (v & -> & Hin)%list_elem_of_fmap. destruct (Hg _ Hin) as (Hre & Hsig & poll & (poll' & Hp' & Hch)%Hc & Hlt).
    rewrite (Hf v). split; [done|]. split; [done|]. exists poll'. split; [done|]. by rewrite Hch.
  - rewrite <- list_fmap_compose. rewrite (Forall_fmap_ext_1 _ ballot); [done|].
    apply Forall_forall. intros v _. cbn. by rewrite (Hf v).
Qed.

#[local] Instance on_net_rows {A} (m : M Net A) : Evolves rows_kept (on_net m).
Proof. intros s. eapply wp_mono; [apply on_net_only| |]; cbn; intros a s' [[n ->] _]; by apply rows_kept_frame. Qed.
#[local] Instance invalidate_rows pollId : Evolves rows_kept (invalidate_results pollId).
Proof. intros s. unfold invalidate_results. wp_step. by apply rows_kept_frame. Qed.
#[local] Instance zoom_rows {A} (m : M (CacheState (option ResultBody)) A) :
  Evolves rows_kept (zoom s_results (λ c s, s <| s_results := c |>) m).
Proof. intros s. unfold wp, zoom. destruct (m (s_results s)) as [[a|e] c]; by apply rows_kept_frame. Qed.
#[local] Instance tally_rows id ledger choices : Evolves rows_kept (computeWeightedTally id ledger choices).
Proof.
  intros s. eapply wp_mono; [apply computeWeightedTally_spec| |]; cbn.
  - intros r s' (m & n & _ & _ & -> & _). split; [|by eauto]. eexists. split; [|reflexivity].
    intros v. unfold with_powers. destruct (jm_get _ _); by destruct v.
  - intros e s' [n ->]. by apply rows_kept_frame.
Qed.
Definition keeps_choices (f : Poll → Poll) : Prop := ∀ p, po_choices (f p) = po_choices p.
Lemma update_rows id f : keeps_choices f → Evolves rows_kept (update_poll id f).
Proof.
  intros Hf s. unfold update_poll. wp_step. split; [exists (λ v, v); split; [by intros []|by rewrite list_fmap_id]|].
  intros i poll Hpoll. cbn. destruct (decide (i = id)) as [->|Hne].
  - rewrite lookup_alter_eq, Hpoll. cbn. eexists. split; [done|]. apply Hf.
  - rewrite lookup_alter_ne by done. by eauto.
Qed.
#[local] Instance finish_rows id h tx : Evolves rows_kept (finish_poll id h tx).
Proof. unfold finish_poll. apply ev_bind; [apply _|by apply update_rows|intros; apply _]. Qed.
#[local] Instance finalize_rows row : Evolves rows_kept (finalize_poll anchorEnabled row).
Proof.
  destruct row as [id poll]. unfold finalize_poll. apply ev_bind; [apply _..|]. intros r.
  destruct anchorEnabled; [|apply _]. apply ev_bind; [apply _|apply ev_catch; intros; apply _|]. intros [h|]; [apply _|].
  unfold anchor_failed, time. destruct (_ <=? _); [apply _|]. apply ev_bind; [apply _..|]. intros now.
  apply ev_bind; [apply _|by apply update_rows|intros; apply _].
Qed.
#[local] Instance finalizer_rows : Evolves rows_kept (finalizeEndedPolls anchorEnabled).
Proof.
  unfold finalizeEndedPolls, time. apply ev_bind; [apply _..|]. intros now. apply ev_bind; [apply _..|]. intros polls.
  apply ev_for_each; [apply _|]. intros row. apply ev_catch; intros; apply _.
Qed.
#[local] Instance results_rows id : Evolves rows_kept (getResults RESULTS_CACHE_TTL_MS id).
Proof.
  assert (Evolves rows_kept (read_results id)) as Hread.
  { unfold read_results. apply ev_bind; [apply _..|]. intros [poll|]; [|apply _]. destruct (po_finalized poll); apply _. }
  unfold getResults, time. apply ev_bind; [apply _..|]. intros now. apply ev_bind; [apply _..|]. intros [body|]; apply _.
Qed.

(** ** The operations that add rows *)
Definition votes_kept s s' : Prop := S_ok s → votes_ok s → S_ok s' ∧ votes_ok s'.
#[local] Instance votes_kept_preorder : PreOrder votes_kept.
Proof. split; [by intros s|]. intros s1 s2 s3 H12 H23 H1 Hv1. destruct (H12 H1 Hv1). by apply H23. Qed.
Lemma votes_kept_frame s s' :
  s_polls s' = s_polls s → s_votes s' = s_votes s → s_next_poll s' = s_next_poll s → s_next_vote s' = s_next_vote s →
  votes_kept s s'.
Proof.
  intros Hp Hv Hnp Hnv Hok Hvotes. split; [by apply (final_kept_frame 0 s)|]. by eapply rows_kept_ok; [apply rows_kept_frame|].
Qed.
#[local] Instance on_net_votes {A} (m : M Net A) : Evolves votes_kept (on_net m).
Proof. intros s. eapply wp_mono; [apply on_net_only| |]; cbn; intros a s' [[n ->] _]; by apply votes_kept_frame. Qed.
#[local] Instance invalidate_votes pollId : Evolves votes_kept (invalidate_results pollId).
Proof. intros s. unfold invalidate_results. wp_step. by apply votes_kept_frame. Qed.

#[local] Instance create_votes body : Evolves votes_kept (createPoll body).
Proof.
  unfold createPoll, route. apply ev_catch; [apply _| |intros; apply _]. apply ev_bind; [apply _..|]. intros power.
  apply ev_bind; [apply _..|]. intros threshold. apply ev_bind; [apply _..|]. intros ledger.
  destruct (power <? threshold); [apply _|]. destruct (ledger <? _); [apply _|]. intros s. wp_go. intros Hok [Hg Hnd].
  split; [by apply create_ok|]. split; [|done]. intros v (Hre & Hsig & poll & Hp & Hlt)%Hg.
  split; [done|]. split; [done|]. exists poll. split; [|done]. cbn. rewrite lookup_insert_ne; [done|].
  intros Heq. assert (sv_poll_id v < s_next_poll s); [|lia]. apply Hok. by eexists.
Qed.

(** A vote that is accepted. *)
Definition acceptable s (v : SignalVote) : Prop :=
  genuine s v ∧ ballot v ∉ ballot <$> s_votes s.
Lemma not_voted s id voter :
  existsb (λ v, (sv_poll_id v =? id) && String.eqb (sv_voter v) voter) (s_votes s) = false →
  (id, voter) ∉ ballot <$> s_votes s.
Proof.
  intros Hno (v & Heq & Hin)%list_elem_of_fmap. apply not_true_iff_false in Hno. apply Hno, existsb_exists. exists v.
  split; [by apply list_elem_of_In|]. injection Heq as -> ->. by rewrite Z.eqb_refl, String.eqb_refl.
Qed.
Lemma vote_added_ok s v :
  sv_id v = s_next_vote s → acceptable s v → votes_kept s (s <| s_next_vote := s_next_vote s + 1 |> <| s_votes := s_votes s ++ [v] |>).
Proof.
  intros Hid [Hv Hnew] Hok [Hg Hnd]. split; [by apply cast_ok|]. split.
  - intros v' [Hin|Hin%list_elem_of_singleton]%elem_of_app; [by apply Hg|by subst v'].
  - cbn. rewrite fmap_app. apply NoDup_app. split; [done|]. split; [|apply NoDup_singleton].
    intros b Hb Hin%list_elem_of_singleton. by subst b.
Qed.
#[local] Instance cast_votes id choice nonce signature voter : Evolves votes_kept (castVote id choice nonce signature voter).
Proof.
  unfold castVote, route, time. destruct voter as [voter|]; [|apply _].
  destruct (STELLAR_ACCOUNT_RE voter) eqn:Hre; cbn [negb]; [|apply _].
  apply ev_catch; [apply _| |intros; apply _]. intros s. apply ev_bind_at; [apply _|]. wp_step. split; [reflexivity|].
  destruct (s_polls s !! id) as [poll|] eqn:Hpoll; [|apply (evolves (R := votes_kept))].
  apply ev_bind_at; [apply _|]. wp_step. split; [reflexivity|].
  destruct (_ || _); [apply (evolves (R := votes_kept))|]. destruct (Z.leb_spec (Z.of_nat (length (po_choices poll))) choice) as [|Hlt];
    [apply (evolves (R := votes_kept))|].
  destruct (verifySignalVote _ _) eqn:Hsig; cbn [negb]; [|apply (evolves (R := votes_kept))].
  apply ev_bind_at; [apply _|]. wp_step. split; [reflexivity|].
  destruct (existsb _ _) eqn:Hex; [apply (evolves (R := votes_kept))|].
  apply ev_bind_at; [apply _|]. wp_step. split; [|apply (evolves (R := votes_kept))].
  apply vote_added_ok; [done|]. split; [|by apply not_voted]. split; [done|]. split; [done|]. by exists poll.
Qed.


End votes.

(** ** An example *)
#[local] Existing Instance SignalExample.ex_crypto.
#[local] Existing Instance SignalExample.ex_net.
Import SignalExample.
