(* ===== verification/Tuning.v ===== *)
(** * Governance tuning: the recommendation

    [backend/src/governance-tuning/analyzer.ts]: what is read from the indexer,
    and the formula that recommends a quorum and a proposal threshold. *)

From Stdlib Require Import SpecFloat.
From S2P Require Import Prelude JsValues Effects Doubles.
Open Scope Z_scope.

(** A row of [governance_tuning_config]; [updatedAt] is milliseconds. *)
Record GovernanceTuningConfig := mkTuningConfig {
  minQuorumNumerator : Z; maxQuorumNumerator : Z; maxQuorumDeltaBps : Z;
  minProposalThreshold : Z; maxProposalThreshold : option Z; maxThresholdDeltaBps : Z;
  trailingWindow : Z; intervalMs : Z; autoPropose : bool; updatedAt : Z }.
#[export] Instance GovernanceTuningConfig_eta : Eta GovernanceTuningConfig := λ c, mkTuningConfig
  (minQuorumNumerator c) (maxQuorumNumerator c) (maxQuorumDeltaBps c) (minProposalThreshold c) (maxProposalThreshold c)
  (maxThresholdDeltaBps c) (trailingWindow c) (intervalMs c) (autoPropose c) (updatedAt c).

Record AnalyzerInputs := mkAnalyzerInputs {
  currentQuorumNumerator : number;
  currentProposalThreshold : Z;
  quorumHitCount : Z;
  quorumMissCount : Z;
  (** oldest first *)
  snapshotVotesCast : list Z }.

(** ** Reading the indexer *)

(** [fetchJson(path)]; it throws unless the answer is OK. *)
Class TuningIndexer (Net : Type) := fetchJson : string → M Net JsValue.

Definition as_number (v : JsValue) : number :=
  match js_Number v with VNum n => Int n | _ => NaN end.
Fixpoint bigints {S} (l : list JsValue) (key : string) : M S (list Z) :=
  match l with
  | [] => mret []
  | v :: l => x ← prop v key; n ← js_BigInt x; rest ← bigints l key; mret (n :: rest)
  end.
Definition gatherAnalyzerInputs `{!TuningIndexer Net} (trailingWindow : Z) : M Net (option AnalyzerInputs) :=
  allTimeStats ← fetchJson "/analytics/all-time-stats";
  snapshots ← fetchJson ("/analytics/snapshots?limit=" +:+ decimal (trailingWindow * 2));
  configHistory ← fetchJson "/config-history?limit=1";
  data ← prop configHistory "data";
  latestConfig ← item data 0;
  if negb (truthy latestConfig) then mret None
  else
    settings ← prop latestConfig "new_settings";
    quorum ← prop settings "quorum_numerator";
    threshold ← prop settings "proposal_threshold";
    threshold ← js_BigInt threshold;
    hit ← prop allTimeStats "quorum_hit_count";
    hit ← js_BigInt hit;
    miss ← prop allTimeStats "quorum_miss_count";
    miss ← js_BigInt miss;
    rows ← prop snapshots "data";
    rows ← match rows with VArr l => mret l | _ => throw (TypeError "slice is not a function") end;
    votes ← bigints (rev rows) "total_votes_cast";
    mret (Some (mkAnalyzerInputs (as_number quorum) threshold hit miss votes)).

(** ** The formula *)
Inductive Direction := Up | Down | Unchanged.
#[export] Instance Direction_eq_dec : EqDecision Direction.
Proof. solve_decision. Defined.
Definition direction_text (d : Direction) : string := match d with Up => "up" | Down => "down" | Unchanged => "unchanged" end.
Record FieldRationale := mkFieldRationale { direction : Direction; reason : string }.
Record TuningRecommendationRationale := mkRationale {
  rt_quorumNumerator : FieldRationale; rt_proposalThreshold : FieldRationale; rt_votingPeriod : FieldRationale;
  rt_inputs : AnalyzerInputs }.
Record RecommendationResult := mkResult {
  recommendedQuorumNumerator : number; recommendedProposalThreshold : Z; rationale : TuningRecommendationRationale }.

Definition clamp (value : number) (min max : Z) : number := num_min (num_max value min) max.
Definition clampBigint (value min : Z) (max : option Z) : Z :=
  if value <? min then min
  else match max with Some max => if max <? value then max else value | None => value end.

(** 0.05 *)
Definition TREND_EPSILON : double := S754_finite false 7205759403792794 (-57).

Fixpoint deltas_of (votes : list Z) : list double :=
  match votes with
  | a :: (b :: _) as rest => of_int (b - a) :: deltas_of rest
  | _ => []
  end.
Definition avg (xs : list double) : double := d_div (foldl d_add (of_int 0) xs) (of_int (Z.of_nat (length xs))).
Definition relative_change (deltas : list double) : double :=
  let recentCount := ((length deltas + 1) / 2)%nat in
  let recentAvg := avg (drop (length deltas - recentCount) deltas) in
  let baselineAvg := avg (take (length deltas - recentCount) deltas) in
  if SFeqb baselineAvg (of_int 0) then (if SFltb (of_int 0) recentAvg then of_int 1 else of_int 0)
  else d_div (d_sub recentAvg baselineAvg) baselineAvg.

Definition unchanged_quorum (inputs : AnalyzerInputs) (reason : string) : number * FieldRationale :=
  (currentQuorumNumerator inputs, mkFieldRationale Unchanged reason).
(** [current + (direction === "up" ? deltaBps : -deltaBps)] *)
Definition num_add2 (a b : number) : number :=
  match a, b with
  | Int n, _ => num_plus n b
  | _, Int m => num_plus m a
  | Infinite s, Infinite s' => if Bool.eqb s s' then a else NaN
  | _, _ => NaN
  end.
Definition recommendQuorumNumerator (inputs : AnalyzerInputs) (config : GovernanceTuningConfig) : number * FieldRationale :=
  let deltas := deltas_of (snapshotVotesCast inputs) in
  if (length deltas <? 2)%nat then
    unchanged_quorum inputs "insufficient snapshot history for a trend comparison (need at least 3 snapshots)"
  else
    let relativeChange := relative_change deltas in
    if SFltb (SFabs relativeChange) TREND_EPSILON then
      unchanged_quorum inputs ("trailing participation trend (" +:+ toFixed1 (d_mul relativeChange (of_int 100)) +:+
        "%) is within the 5% no-op band")
    else
      let direction := if SFltb (of_int 0) relativeChange then Up else Down in
      let deltaBps := num_min (Math_round (d_mul (SFabs relativeChange) (of_int 10000))) (maxQuorumDeltaBps config) in
      let unclamped := num_add2 (currentQuorumNumerator inputs) (match direction with Up => deltaBps | _ => num_opp deltaBps end) in
      let value := clamp unclamped (minQuorumNumerator config) (maxQuorumNumerator config) in
      (value, mkFieldRationale direction
        ("trailing participation is " +:+ direction_text direction +:+ " " +:+
         toFixed1 (d_mul (SFabs relativeChange) (of_int 100)) +:+ "% vs. the prior baseline window, nudging quorum " +:+
         direction_text direction +:+ " by " +:+ num_text (num_abs (num_add2 value (num_opp (currentQuorumNumerator inputs)))) +:+
         " bps (capped at " +:+ decimal (maxQuorumDeltaBps config) +:+ " bps/cycle)")).

Definition LOW_HIT_RATE_BPS : Z := 3000.
Definition HIGH_HIT_RATE_BPS : Z := 8000.
(** [Math.round(a / b)] of integers *)
Definition round_div (a b : Z) : number := Math_round (d_div (of_int a) (of_int b)).
(** The direction and [deltaBps] for a rate. *)
Definition threshold_step (hitRateBps : Z) (config : GovernanceTuningConfig) : Direction * number :=
  if HIGH_HIT_RATE_BPS <=? hitRateBps then
    (Down, num_min (round_div (to_number ((hitRateBps - HIGH_HIT_RATE_BPS) * maxThresholdDeltaBps config)) (10000 - HIGH_HIT_RATE_BPS))
             (maxThresholdDeltaBps config))
  else if hitRateBps <=? LOW_HIT_RATE_BPS then
    (Up, num_min (round_div (to_number ((LOW_HIT_RATE_BPS - hitRateBps) * maxThresholdDeltaBps config)) LOW_HIT_RATE_BPS)
           (maxThresholdDeltaBps config))
  else (Unchanged, Int 0).
Definition unchanged_threshold (inputs : AnalyzerInputs) (reason : string) : outcome (Z * FieldRationale) :=
  Ok (currentProposalThreshold inputs, mkFieldRationale Unchanged reason).
(** [BigInt(direction === "up" ? deltaBps : -deltaBps)] throws for what is no integer. *)
Definition recommendProposalThreshold (inputs : AnalyzerInputs) (config : GovernanceTuningConfig) : outcome (Z * FieldRationale) :=
  let totalSamples := quorumHitCount inputs + quorumMissCount inputs in
  if totalSamples =? 0 then
    unchanged_threshold inputs ("insufficient data: indexer's quorum_hit_count/quorum_miss_count are not yet populated " +:+
      "(documented scope boundary on /analytics/all-time-stats)")
  else
    let hitRateBps := to_number ((quorumHitCount inputs * 10000) ÷ᵇ totalSamples) in
    let '(direction, deltaBps) := threshold_step hitRateBps config in
    if bool_decide (direction = Unchanged ∨ deltaBps = Int 0) then
      unchanged_threshold inputs ("trailing quorum-hit rate (" +:+ toFixed1 (d_div (of_int hitRateBps) (of_int 100)) +:+
        "%) is within the healthy 30%–80% band")
    else
      match deltaBps with
      | Int delta =>
        let signedDeltaBps := match direction with Up => delta | _ => - delta end in
        let unclamped := currentProposalThreshold inputs + (currentProposalThreshold inputs * signedDeltaBps) ÷ᵇ 10000 in
        Ok (clampBigint unclamped (minProposalThreshold config) (maxProposalThreshold config),
          mkFieldRationale direction
            ("trailing quorum-hit rate is " +:+ toFixed1 (d_div (of_int hitRateBps) (of_int 100)) +:+
             "%, nudging proposal_threshold " +:+ direction_text direction +:+ " by " +:+ decimal delta +:+
             " bps (capped at " +:+ decimal (maxThresholdDeltaBps config) +:+ " bps/cycle)"))
      | _ => Throw (PlainError "RangeError: The number cannot be converted to a BigInt")
      end.

Definition computeRecommendation (inputs : AnalyzerInputs) (config : GovernanceTuningConfig) : outcome RecommendationResult :=
  let quorum := recommendQuorumNumerator inputs config in
  match recommendProposalThreshold inputs config with
  | Throw e => Throw e
  | Ok threshold =>
    Ok (mkResult quorum.1 threshold.1 (mkRationale quorum.2 threshold.2
      (mkFieldRationale Unchanged ("voting_period auto-tuning is out of scope by default (timing changes interact with " +:+
        "active proposals) — hook reserved for a future opt-in config flag"))
      inputs))
  end.
