(* ===== verification/TuningBounds.v ===== *)
(** * Governance tuning: what is recommended

    A recommendation stays within the configured bands and caps, moves in the
    direction its rationale names, and is the current value otherwise. *)

From Stdlib Require Import SpecFloat.
From S2P Require Import Prelude JsValues Effects Doubles Tuning.
Open Scope Z_scope.

(** ** Signs of doubles *)
Definition nonneg (x : double) : bool :=
  match x with S754_finite s _ _ | S754_infinity s | S754_zero s => negb s | S754_nan => true end.
Definition num_nonneg (x : number) : Prop := match x with Int n => 0 ≤ n | Infinite s => s = false | NaN => True end.

Lemma round_aux_sign m e l : nonneg (binary_round_aux 53 1024 false m e l) = true.
Proof.
  unfold binary_round_aux. destruct (shr_fexp 53 1024 m e l) as [r1 e1].
  destruct (shr_fexp 53 1024 _ e1 loc_Exact) as [r2 e2]. destruct (shr_m r2); [done|by destruct (_ <=? _)|done].
Qed.
Lemma of_int_nonneg n : 0 ≤ n → nonneg (of_int n) = true.
Proof.
  intros Hn. destruct n as [|p|p]; [done| |lia]. unfold of_int, binary_normalize, binary_round.
  destruct (shl_align p 0 _). apply round_aux_sign.
Qed.
Lemma d_mul_nonneg x y : nonneg x = true → nonneg y = true → nonneg (d_mul x y) = true.
Proof.
  unfold d_mul, SFmul.
  destruct x as [s|s| |s m e], y as [s'|s'| |s' m' e']; cbn [nonneg]; intros Hx Hy; try done;
    apply negb_true_iff in Hx; try (apply negb_true_iff in Hy); subst; try done. apply round_aux_sign.
Qed.
Lemma d_div_nonneg x y : nonneg x = true → nonneg y = true → nonneg (d_div x y) = true.
Proof.
  unfold d_div, SFdiv.
  destruct x as [s|s| |s m e], y as [s'|s'| |s' m' e']; cbn [nonneg]; intros Hx Hy; try done;
    apply negb_true_iff in Hx; try (apply negb_true_iff in Hy); subst; try done.
  destruct (SFdiv_core_binary 53 1024 _ _ _ _) as [[q f] l]. apply round_aux_sign.
Qed.
Lemma abs_nonneg x : nonneg (SFabs x) = true.
Proof. by destruct x. Qed.
Lemma round_nonneg x : nonneg x = true → num_nonneg (Math_round x).
Proof.
  destruct x as [s|s| |s m e]; cbn; intros Hx; try done; [by apply negb_true_iff in Hx|].
  apply negb_true_iff in Hx. subst s. cbn. destruct (Z.leb_spec 0 e).
  - apply Z.mul_nonneg_nonneg; [lia|apply Z.pow_nonneg; lia].
  - apply Z.div_pos; [|apply Z.pow_pos_nonneg; lia]. pose proof (Z.pow_pos_nonneg 2 (- e)). lia.
Qed.
Lemma num_min_capped x n : num_nonneg x → 0 ≤ n → match num_min x n with Int m => 0 ≤ m ≤ n | Infinite _ => False | NaN => True end.
Proof. destruct x as [m|[]|]; cbn; intros; try done; lia. Qed.

(** ** The quorum *)

(** [value] is [current] moved by at most [cap] in a direction, and put into the band. *)
Definition moved (d : Direction) (current value cap lo hi : Z) : Prop :=
  lo ≤ value ≤ hi ∧
  (lo ≤ current ≤ hi → Z.abs (value - current) ≤ cap ∧
    match d with Up => current ≤ value | Down => value ≤ current | Unchanged => value = current end).
Lemma clamp_moved d current delta cap lo hi :
  lo ≤ hi → 0 ≤ delta ≤ cap → d ≠ Unchanged →
  ∃ v, clamp (Int (match d with Up => current + delta | _ => current - delta end)) lo hi = Int v ∧ moved d current v cap lo hi.
Proof.
  intros Hband Hd Hne. eexists. split; [reflexivity|]. unfold moved. destruct d; [..|done]; repeat split; lia.
Qed.
(** The way the quorum goes: nowhere with fewer than three snapshots or with a trend
    of less than five percent. *)
Definition trend (votes : list Z) : Direction :=
  let deltas := deltas_of votes in
  if (length deltas <? 2)%nat || SFltb (SFabs (relative_change deltas)) TREND_EPSILON then Unchanged
  else if SFltb (of_int 0) (relative_change deltas) then Up else Down.
Lemma round_nan x : Math_round x = NaN → is_nan x = true.
Proof. by destruct x. Qed.
Lemma num_min_nan x n : num_min x n = NaN → x = NaN.
Proof. by destruct x as [m|[]|]. Qed.
(** Ten thousand times a number is a number. *)
Lemma bps_number x : is_nan (d_mul (SFabs x) (of_int 10000)) = is_nan x.
Proof.
  replace (of_int 10000) with (S754_finite false 5497558138880000 (-39)) by by vm_compute.
  destruct x as [s|s| |s m e]; [done..|]. cbn [SFabs d_mul SFmul is_nan]. unfold d_mul, SFmul. by apply round_aux_number.
Qed.
(** What the quorum part recommends. *)
Lemma quorum_moved inputs config q :
  currentQuorumNumerator inputs = Int q → minQuorumNumerator config ≤ maxQuorumNumerator config →
  0 ≤ maxQuorumDeltaBps config →
  let '(value, why) := recommendQuorumNumerator inputs config in
  direction why = trend (snapshotVotesCast inputs) ∧
  ((direction why = Unchanged ∧ value = Int q) ∨
   (direction why ≠ Unchanged ∧ relative_change (deltas_of (snapshotVotesCast inputs)) = S754_nan ∧ value = NaN) ∨
   (∃ v, value = Int v ∧ direction why ≠ Unchanged ∧
     moved (direction why) q v (maxQuorumDeltaBps config) (minQuorumNumerator config) (maxQuorumNumerator config))).
Proof.
  intros Hq Hband Hcap. unfold recommendQuorumNumerator, trend. cbv zeta. unfold unchanged_quorum. rewrite Hq.
  destruct (_ <? _)%nat; [split; [done|by left]|]. destruct (SFltb (SFabs _) _); [split; [done|by left]|]. split; [done|]. right.
  set (change := relative_change _). set (dir := if SFltb (of_int 0) change then Up else Down).
  assert (dir ≠ Unchanged) as Hdir by (subst dir; by destruct (SFltb _ _)). clearbody dir.
  pose proof (num_min_capped (Math_round (d_mul (SFabs change) (of_int 10000))) (maxQuorumDeltaBps config)) as Hmin.
  assert (num_nonneg (Math_round (d_mul (SFabs change) (of_int 10000)))) as Hround.
  { apply round_nonneg, d_mul_nonneg; [apply abs_nonneg|by apply of_int_nonneg]. }
  specialize (Hmin Hround Hcap).
  destruct (num_min (Math_round _) _) as [delta|s|] eqn:Hdelta; [|done|].
  2: { left. apply num_min_nan, round_nan in Hdelta. rewrite bps_number in Hdelta. by destruct change, dir. }
  right. destruct (clamp_moved dir q delta (maxQuorumDeltaBps config) _ _ Hband Hmin Hdir) as (v & Hv & Hm).
  exists v. split; [|by split]. rewrite <- Hv. cbn [direction]. destruct dir; cbn [num_add2 num_plus num_opp]; f_equal.
Qed.

(** ** The threshold *)
Definition in_band (lo : Z) (hi : option Z) (t : Z) : Prop := lo ≤ t ∧ match hi with Some hi => t ≤ hi | None => True end.
Lemma clampBigint_band v lo hi :
  match hi with Some h => lo ≤ h | None => True end →
  in_band lo hi (clampBigint v lo hi) ∧ (in_band lo hi v → clampBigint v lo hi = v) ∧
  (∀ c, in_band lo hi c → Z.abs (clampBigint v lo hi - c) ≤ Z.abs (v - c) ∧
    (c ≤ v → c ≤ clampBigint v lo hi) ∧ (v ≤ c → clampBigint v lo hi ≤ c)).
Proof.
  unfold clampBigint, in_band. destruct hi as [h|]; intros Hband; destruct (Z.ltb_spec v lo);
    try (destruct (Z.ltb_spec h v)); (split; [lia|]); (split; [lia|]); intros c Hc; lia.
Qed.
(** [(t * d) / 10000] is at most [cap] hundredths of a percent of [t]. *)
Lemma share_of_threshold t delta cap :
  0 ≤ t → 0 ≤ delta ≤ cap → 0 ≤ (t * delta) ÷ᵇ 10000 ≤ (t * cap) ÷ᵇ 10000.
Proof.
  intros Ht Hd. rewrite !quot_div_nonneg by nia. split; [apply Z.div_pos; nia|]. apply Z.div_le_mono; nia.
Qed.
Definition threshold_moved (d : Direction) (current value : Z) (config : GovernanceTuningConfig) : Prop :=
  let lo := minProposalThreshold config in let hi := maxProposalThreshold config in
  in_band lo hi value ∧
  (in_band lo hi current → Z.abs (value - current) ≤ (current * maxThresholdDeltaBps config) ÷ᵇ 10000 ∧
    match d with Up => current ≤ value | Down => value ≤ current | Unchanged => value = current end).
Lemma to_number_nonneg n : 0 ≤ n → 0 ≤ to_number n.
Proof.
  intros Hn. unfold to_number. rewrite (Z.abs_eq n) by done. destruct (Z.leb_spec n (2 ^ 53)); [done|].
  assert (53 ≤ Z.log2 n) as Hlog by (apply Z.log2_le_pow2; lia).
  assert (0 < 2 ^ (Z.log2 n - 52)) as Hpow by (apply Z.pow_pos_nonneg; lia).
  pose proof (Z.div_pos n _ Hn Hpow) as Hq.
  apply Z.mul_nonneg_nonneg; [lia|]. apply Z.mul_nonneg_nonneg; [|lia].
  destruct (_ <? _); [done|]. destruct (_ <? _); [lia|]. destruct (Z.even _); lia.
Qed.
Lemma round_div_nonneg a b : 0 ≤ a → 0 ≤ b → num_nonneg (round_div (to_number a) b).
Proof. intros Ha Hb. apply round_nonneg, d_div_nonneg; apply of_int_nonneg; [by apply to_number_nonneg|done]. Qed.
Lemma threshold_step_capped rate config d delta :
  0 ≤ maxThresholdDeltaBps config → threshold_step rate config = (d, delta) →
  match delta with Int n => 0 ≤ n ≤ maxThresholdDeltaBps config | _ => True end.
Proof.
  intros Hcap. unfold threshold_step, HIGH_HIT_RATE_BPS, LOW_HIT_RATE_BPS.
  destruct (Z.leb_spec 8000 rate); [|destruct (Z.leb_spec rate 3000)]; intros [= <- <-]; [| |lia].
  - pose proof (num_min_capped _ _ (round_div_nonneg ((rate - 8000) * maxThresholdDeltaBps config) 2000
      ltac:(nia) ltac:(done)) Hcap) as Hm. change (10000 - 8000) with 2000. by destruct (num_min _ _).
  - pose proof (num_min_capped _ _ (round_div_nonneg ((3000 - rate) * maxThresholdDeltaBps config) 3000
      ltac:(nia) ltac:(done)) Hcap) as Hm. by destruct (num_min _ _).
Qed.
Lemma threshold_moves inputs config t why :
  0 ≤ currentProposalThreshold inputs →
  match maxProposalThreshold config with Some h => minProposalThreshold config ≤ h | None => True end →
  0 ≤ maxThresholdDeltaBps config →
  recommendProposalThreshold inputs config = Ok (t, why) →
  (direction why = Unchanged ∧ t = currentProposalThreshold inputs) ∨
  (direction why ≠ Unchanged ∧ threshold_moved (direction why) (currentProposalThreshold inputs) t config).
Proof.
  intros Hcur Hband Hcap. unfold recommendProposalThreshold, unchanged_threshold. cbv zeta.
  destruct (_ =? 0); [intros [= <- <-]; by left|].
  destruct (threshold_step _ config) as [d delta] eqn:Hstep. apply threshold_step_capped in Hstep as Hdelta; [|done].
  case_bool_decide as Hun; [intros [= <- <-]; by left|]. destruct delta as [delta| |]; [|done..]. intros [= <- <-]. right.
  cbn [direction]. assert (d ≠ Unchanged) as Hd by tauto. split; [done|].
  pose proof (share_of_threshold (currentProposalThreshold inputs) delta _ Hcur Hdelta) as Hshare.
  destruct (clampBigint_band (currentProposalThreshold inputs +
    (currentProposalThreshold inputs * match d with Up => delta | _ => - delta end) ÷ᵇ 10000) _ _ Hband) as (Hin & _ & Hnear).
  split; [exact Hin|]. intros Hc. specialize (Hnear _ Hc) as (Habs & Hup & Hdown).
  destruct d; [| |done].
  - split; [lia|apply Hup; lia].
  - replace (currentProposalThreshold inputs * - delta) with (- (currentProposalThreshold inputs * delta)) in * by ring.
    rewrite Z.quot_opp_l in * by lia. split; [lia|apply Hdown; lia].
Qed.

(** The share of the counted proposals that reached the quorum, in basis points. *)
Definition hit_rate (inputs : AnalyzerInputs) : Z :=
  to_number ((quorumHitCount inputs * 10000) ÷ᵇ (quorumHitCount inputs + quorumMissCount inputs)).
Lemma threshold_direction inputs config t why :
  recommendProposalThreshold inputs config = Ok (t, why) →
  match direction why with
  | Up => hit_rate inputs ≤ LOW_HIT_RATE_BPS
  | Down => HIGH_HIT_RATE_BPS ≤ hit_rate inputs
  | Unchanged => True
  end.
Proof.
  unfold recommendProposalThreshold, unchanged_threshold, threshold_step. cbv zeta. fold (hit_rate inputs).
  destruct (_ =? 0); [by intros [= <- <-]|].
  destruct (Z.leb_spec HIGH_HIT_RATE_BPS (hit_rate inputs)); [|destruct (Z.leb_spec (hit_rate inputs) LOW_HIT_RATE_BPS)];
    (case_bool_decide; [by intros [= <- <-]|]); try (destruct (num_min _ _); [|done..]); by intros [= <- <-].
Qed.

(** C22: Recommendations stay within their bands.  Let the configuration be
    consistent (no minimum above its maximum, no negative cap), the current
    quorum an integer and the current threshold not negative.  The quorum's
    direction is the trend of the snapshots: "unchanged" with fewer than three
    of them or a change of less than five percent, and then the current value is
    recommended; up or down with the sign of the change otherwise, and then an
    integer inside the configured band, which differs from a current value inside
    the band by no more than the configured cap and in that direction.  It is no
    number only when a direction is named and the change itself is no number,
    which takes sums that overflow a double.  The threshold recommended is the
    current one with the direction "unchanged", or inside the band, and moved by no
    more than its cap and in its direction from a current value inside the band;
    up only when at most 30 percent of the counted proposals reached the quorum,
    down only when at least 80 percent did. *)
Theorem recommendation_within_bounds inputs config q r :
  currentQuorumNumerator inputs = Int q → 0 ≤ currentProposalThreshold inputs →
  minQuorumNumerator config ≤ maxQuorumNumerator config → 0 ≤ maxQuorumDeltaBps config →
  match maxProposalThreshold config with Some h => minProposalThreshold config ≤ h | None => True end →
  0 ≤ maxThresholdDeltaBps config →
  computeRecommendation inputs config = Ok r →
  (let d := direction (rt_quorumNumerator (rationale r)) in let v := recommendedQuorumNumerator r in
   d = trend (snapshotVotesCast inputs) ∧
   ((d = Unchanged ∧ v = Int q) ∨
    (d ≠ Unchanged ∧ relative_change (deltas_of (snapshotVotesCast inputs)) = S754_nan ∧ v = NaN) ∨
    (∃ n, v = Int n ∧ d ≠ Unchanged ∧
      moved d q n (maxQuorumDeltaBps config) (minQuorumNumerator config) (maxQuorumNumerator config)))) ∧
  (let d := direction (rt_proposalThreshold (rationale r)) in let t := recommendedProposalThreshold r in
   (d = Unchanged ∧ t = currentProposalThreshold inputs) ∨
   (d ≠ Unchanged ∧ threshold_moved d (currentProposalThreshold inputs) t config)) ∧
  match direction (rt_proposalThreshold (rationale r)) with
  | Up => hit_rate inputs ≤ LOW_HIT_RATE_BPS
  | Down => HIGH_HIT_RATE_BPS ≤ hit_rate inputs
  | Unchanged => True
  end.
Proof.
  intros Hq Hcur Hbq Hcq Hbt Hct. unfold computeRecommendation.
  pose proof (quorum_moved inputs config q Hq Hbq Hcq) as Hquorum.
  destruct (recommendQuorumNumerator inputs config) as [v why].
  destruct (recommendProposalThreshold inputs config) as [[t why']|e] eqn:Ht; [|done]. intros [= <-]. cbn [rationale rt_quorumNumerator
    rt_proposalThreshold recommendedQuorumNumerator recommendedProposalThreshold fst snd]. split; [exact Hquorum|].
  split; [by eapply threshold_moves|by eapply threshold_direction].
Qed.

(** Outside the band a recommendation may move against its direction, and by
    more than the cap its reason names. *)
Module TuningExample.
Definition config : GovernanceTuningConfig := mkTuningConfig 100 5000 200 0 None 1000 10 3600000 true 0.
(** Participation drops by 15 percent, nine of ten quorums are reached. *)
Definition inputs (q : Z) : AnalyzerInputs := mkAnalyzerInputs (Int q) 5000 9 1 [0; 10; 20; 29; 37].
End TuningExample.
Lemma recommendation_within_bounds_witness : ∃ r,
  computeRecommendation (TuningExample.inputs 1000) TuningExample.config = Ok r ∧ recommendedQuorumNumerator r = Int 800 ∧
  recommendedProposalThreshold r = 4750 ∧
  threshold_moved (direction (rt_proposalThreshold (rationale r))) 5000 (recommendedProposalThreshold r) TuningExample.config.
Proof.
  destruct (computeRecommendation (TuningExample.inputs 1000) TuningExample.config) as [r|e] eqn:Hr; [|vm_compute in Hr; discriminate].
  exists r. split; [reflexivity|].
  destruct (recommendation_within_bounds (TuningExample.inputs 1000) TuningExample.config 1000 r) as (_ & Ht & _);
    [reflexivity|cbn; lia..|exact I|cbn; lia|exact Hr|].
  vm_compute in Hr. injection Hr as <-. split; [reflexivity|]. split; [reflexivity|].
  destruct Ht as [[Hd _]|[_ Ht]]; [discriminate Hd|exact Ht].
Defined.
Lemma outside_the_band_cap_is_exceeded : ∃ r,
  computeRecommendation (TuningExample.inputs 9000) TuningExample.config = Ok r ∧ recommendedQuorumNumerator r = Int 5000 ∧
  maxQuorumDeltaBps TuningExample.config = 200.
Proof. eexists. split; [vm_compute; reflexivity|]. split; reflexivity. Qed.
