(* ===== verification/TuningCycle.v ===== *)
(** * Governance tuning: the cycle

    [backend/src/governance-tuning/config-store.ts], [recommendation-store.ts] and
    [auto-propose.ts], the job [backend/src/jobs/governance-tuning-analyzer.ts] and
    the configuration route of [backend/src/routes/governance-tuning.ts].  The
    indexer, the governor's client and the clock are the classes [TuningIndexer]
    and [TuningNet]. *)

From S2P Require Import Prelude JsValues Effects Doubles SdkTypes IndexerDb Tuning.
Open Scope Z_scope.

(** A governor's client: calls may fail, now and not the next time. *)
Class TuningNet (Net : Type) := {
  tn_clock : Net → Z;
  getSettings : string → M Net GovernorSettings;
  getProposalState : Z → M Net ProposalState;
  (** [buildUpdateConfigProposal] and [propose] *)
  proposeUpdateConfig : GovernorSettings → string → M Net Z }.

(** The variables of the environment; [te_relayer] is the relayer's secret. *)
Record TuningEnv := mkTuningEnv {
  te_relayer : option string; te_governor : option string; te_votes : option string; te_timelock : option string }.
Definition buildGovernorClient (env : TuningEnv) : bool :=
  is_set (te_governor env) && is_set (te_votes env) && is_set (te_timelock env).

(** ** The tables *)
Record TuningRecommendation := mkRecommendation {
  rec_id : Z; rec_computedAt : Z;
  rec_currentQuorumNumerator : Z; rec_recommendedQuorumNumerator : Z;
  rec_currentProposalThreshold : Z; rec_recommendedProposalThreshold : Z;
  rec_rationale : TuningRecommendationRationale; rec_autoProposed : bool; rec_proposalId : option Z }.
#[export] Instance TuningRecommendation_eta : Eta TuningRecommendation := λ r, mkRecommendation (rec_id r)
  (rec_computedAt r) (rec_currentQuorumNumerator r) (rec_recommendedQuorumNumerator r) (rec_currentProposalThreshold r)
  (rec_recommendedProposalThreshold r) (rec_rationale r) (rec_autoProposed r) (rec_proposalId r).

(** [t_proposed] lists what was proposed, the newest last. *)
Record TState (Net : Type) := mkTState {
  t_config : option GovernanceTuningConfig;
  t_recs : list TuningRecommendation;
  t_next_rec : Z;
  t_proposed : list Z;
  t_net : Net }.
Arguments mkTState {Net} _ _ _ _ _.
Arguments t_config {Net} _.
Arguments t_recs {Net} _.
Arguments t_next_rec {Net} _.
Arguments t_proposed {Net} _.
Arguments t_net {Net} _.
#[export] Instance TState_eta {Net} : Eta (TState Net) := λ s,
  mkTState (t_config s) (t_recs s) (t_next_rec s) (t_proposed s) (t_net s).

Definition refused : JsError := PlainError "the database refuses the statement".

(** ** The configuration *)
Record GovernanceTuningConfigPatch := mkPatch {
  p_minQuorumNumerator : option Z; p_maxQuorumNumerator : option Z; p_maxQuorumDeltaBps : option Z;
  p_minProposalThreshold : option Z; p_maxProposalThreshold : option (option Z); p_maxThresholdDeltaBps : option Z;
  p_trailingWindow : option Z; p_intervalMs : option Z; p_autoPropose : option bool }.
(** [keys.length === 0] *)
Definition patch_empty (p : GovernanceTuningConfigPatch) : bool :=
  match p with mkPatch None None None None None None None None None => true | _ => false end.

Definition ValidationError (text : string) : JsError := PlainError ("GovernanceTuningConfigValidationError: " +:+ text).
Definition check_positive (value : Z) (field : string) : outcome unit :=
  if value <=? 0 then Throw (ValidationError (field +:+ " (" +:+ decimal value +:+ ") must be a positive number")) else Ok tt.
Definition and_then (a b : outcome unit) : outcome unit := match a with Ok _ => b | Throw e => Throw e end.
(** The checks on the values after the patch. *)
Definition check_patch (patch : GovernanceTuningConfigPatch) (current : GovernanceTuningConfig) : outcome unit :=
  let minQ := default (minQuorumNumerator current) (p_minQuorumNumerator patch) in
  let maxQ := default (maxQuorumNumerator current) (p_maxQuorumNumerator patch) in
  let minT := default (minProposalThreshold current) (p_minProposalThreshold patch) in
  let maxT := default (maxProposalThreshold current) (p_maxProposalThreshold patch) in
  if maxQ <? minQ then
    Throw (ValidationError ("min_quorum_numerator (" +:+ decimal minQ +:+ ") must be <= max_quorum_numerator (" +:+ decimal maxQ +:+ ")"))
  else if match maxT with Some max => max <? minT | None => false end then
    Throw (ValidationError ("min_proposal_threshold (" +:+ decimal minT +:+ ") must be <= max_proposal_threshold (" +:+
      match maxT with Some max => decimal max | None => "null" end +:+ ")"))
  else
    and_then (check_positive (default (maxQuorumDeltaBps current) (p_maxQuorumDeltaBps patch)) "max_quorum_delta_bps")
    (and_then (check_positive (default (maxThresholdDeltaBps current) (p_maxThresholdDeltaBps patch)) "max_threshold_delta_bps")
    (and_then (check_positive (default (intervalMs current) (p_intervalMs patch)) "interval_ms")
      (check_positive (default (trailingWindow current) (p_trailingWindow patch)) "trailing_window"))).

Section cycle.
Context `{!Runtime} {Net : Type} `{!TuningIndexer Net} `{!TuningNet Net} (env : TuningEnv).
Implicit Types (s : TState Net).

Definition on_net {A} (m : M Net A) : M (TState Net) A := zoom t_net (λ n s, s <| t_net := n |>) m.
Definition now : M (TState Net) Z := gets (λ s, tn_clock (t_net s)).

Definition getGovernanceTuningConfig : M (TState Net) GovernanceTuningConfig :=
  found ← gets t_config;
  unwrap found (PlainError "governance_tuning_config row is missing — migration 009 did not seed it").

(** A column that the patch sets, within its type. *)
Definition set_column {A B} (column : A → option B) (old : B) (value : option A) : option B :=
  match value with Some v => column v | None => Some old end.
Definition integer (n : Z) : option Z := INTEGER (VNum n).
Definition numeric38 (n : Z) : option Z := NUMERIC 38 (VStr (decimal n)).
Definition apply_patch (patch : GovernanceTuningConfigPatch) (updated : Z) (c : GovernanceTuningConfig) :
    option GovernanceTuningConfig :=
  minQ ← set_column integer (minQuorumNumerator c) (p_minQuorumNumerator patch);
  maxQ ← set_column integer (maxQuorumNumerator c) (p_maxQuorumNumerator patch);
  deltaQ ← set_column integer (maxQuorumDeltaBps c) (p_maxQuorumDeltaBps patch);
  minT ← set_column numeric38 (minProposalThreshold c) (p_minProposalThreshold patch);
  maxT ← set_column (λ v, match v with Some n => Some <$> numeric38 n | None => Some None end) (maxProposalThreshold c)
    (p_maxProposalThreshold patch);
  deltaT ← set_column integer (maxThresholdDeltaBps c) (p_maxThresholdDeltaBps patch);
  window ← set_column integer (trailingWindow c) (p_trailingWindow patch);
  interval ← set_column integer (intervalMs c) (p_intervalMs patch);
  auto ← set_column Some (autoPropose c) (p_autoPropose patch);
  Some (mkTuningConfig minQ maxQ deltaQ minT maxT deltaT window interval auto updated).
(** [UPDATE governance_tuning_config SET ... WHERE id = 1 RETURNING *] *)
Definition write_config (patch : GovernanceTuningConfigPatch) : M (TState Net) GovernanceTuningConfig :=
  t ← now;
  found ← gets t_config;
  match found with
  | None => throw (TypeError "Cannot read properties of undefined")
  | Some c =>
    match apply_patch patch t c with
    | None => throw refused
    | Some c' => modify (λ s, s <| t_config := Some c' |>);; mret c'
    end
  end.
(** What happens before the statement, with the row that was read. *)
Definition read_and_check (patch : GovernanceTuningConfigPatch) : M (TState Net) unit :=
  current ← getGovernanceTuningConfig; from_outcome (check_patch patch current).
Definition updateGovernanceTuningConfig (patch : GovernanceTuningConfigPatch) : M (TState Net) GovernanceTuningConfig :=
  if patch_empty patch then getGovernanceTuningConfig
  else read_and_check patch;; write_config patch.

(** ** The recommendations *)
Record NewTuningRecommendation := mkNew {
  new_currentQuorumNumerator : number; new_recommendedQuorumNumerator : number;
  new_currentProposalThreshold : Z; new_recommendedProposalThreshold : Z;
  new_rationale : TuningRecommendationRationale; new_autoProposed : bool; new_proposalId : option Z }.
(** A number as the driver sends it. *)
Definition as_value (x : number) : JsValue :=
  match x with Int n => VNum n | _ => VStr (num_text x) end.
Definition new_row (id t : Z) (r : NewTuningRecommendation) : option TuningRecommendation :=
  curQ ← INTEGER (as_value (new_currentQuorumNumerator r));
  recQ ← INTEGER (as_value (new_recommendedQuorumNumerator r));
  curT ← numeric38 (new_currentProposalThreshold r);
  recT ← numeric38 (new_recommendedProposalThreshold r);
  proposal ← match new_proposalId r with Some p => Some <$> BIGINT (VStr (decimal p)) | None => Some None end;
  Some (mkRecommendation id t curQ recQ curT recT (new_rationale r) (new_autoProposed r) proposal).
(** A serial number is used up by a statement that is refused. *)
Definition insertRecommendation (r : NewTuningRecommendation) : M (TState Net) TuningRecommendation :=
  t ← now;
  id ← gets t_next_rec;
  modify (λ s, s <| t_next_rec := id + 1 |>);;
  match new_row id t r with
  | None => throw refused
  | Some row => modify (λ s, s <| t_recs ::= (λ l, l ++ [row]) |>);; mret row
  end.

(** [ORDER BY computed_at DESC, id DESC LIMIT 1] *)
Definition newer (a b : TuningRecommendation) : bool :=
  (rec_computedAt a <? rec_computedAt b) || (rec_computedAt a =? rec_computedAt b) && (rec_id a <? rec_id b).
Definition latest_of (l : list TuningRecommendation) : option TuningRecommendation :=
  foldl (λ acc r, match acc with Some a => if newer a r then Some r else Some a | None => Some r end) None l.
Definition getLatestRecommendation : M (TState Net) (option TuningRecommendation) := gets (λ s, latest_of (t_recs s)).
Definition touchLatestRecommendation (id : Z) : M (TState Net) unit :=
  t ← now;
  modify (λ s, s <| t_recs ::= fmap (λ r, if rec_id r =? id then r <| rec_computedAt := t |> else r) |>).

Definition day_ms : Z := 86400000.
(** The rows that [pruneUnchangedRecommendations] deletes. *)
Definition stale (t : Z) (r : TuningRecommendation) : bool :=
  negb (rec_autoProposed r) && bool_decide (rec_proposalId r = None) &&
  (rec_currentQuorumNumerator r =? rec_recommendedQuorumNumerator r) &&
  (rec_currentProposalThreshold r =? rec_recommendedProposalThreshold r) && (rec_computedAt r <? t - 30 * day_ms).
Definition pruneUnchangedRecommendations : M (TState Net) unit :=
  t ← now; modify (λ s, s <| t_recs ::= base.filter (λ r, stale t r = false) |>).

(** ** Proposing *)
Definition is_terminal (st : ProposalState) : bool :=
  match st with Executed | Defeated | Cancelled | Expired => true | _ => false end.
Definition findUnresolvedAutoProposal : M (TState Net) (option Z) :=
  latest ← getLatestRecommendation;
  match latest with
  | None => mret None
  | Some latest =>
    match (if rec_autoProposed latest then rec_proposalId latest else None) with
    | None => mret None
    | Some proposalId =>
      if negb (buildGovernorClient env) then mret (Some proposalId)
      else try_catch
        (state ← on_net (getProposalState proposalId); mret (if is_terminal state then None else Some proposalId))
        (λ _, mret (Some proposalId))
    end
  end.

Definition proposal_text (inputs : AnalyzerInputs) (result : RecommendationResult) : string :=
  String.concat newline
    ["Governance tuning recommendation (automated)"; "";
     "quorum_numerator: " +:+ num_text (currentQuorumNumerator inputs) +:+ " -> " +:+ num_text (recommendedQuorumNumerator result);
     "proposal_threshold: " +:+ decimal (currentProposalThreshold inputs) +:+ " -> " +:+ decimal (recommendedProposalThreshold result);
     ""; reason (rt_quorumNumerator (rationale result)); reason (rt_proposalThreshold (rationale result))].
Definition maybeAutoPropose (inputs : AnalyzerInputs) (result : RecommendationResult) : M (TState Net) (option Z) :=
  match te_governor env with
  | Some governorAddress =>
    if is_set (te_relayer env) && buildGovernorClient env then
      currentSettings ← on_net (getSettings governorAddress);
      let newSettings := currentSettings <| gs_quorumNumerator := recommendedQuorumNumerator result |>
                                         <| gs_proposalThreshold := recommendedProposalThreshold result |> in
      proposalId ← on_net (proposeUpdateConfig newSettings (proposal_text inputs result));
      modify (λ s, s <| t_proposed ::= (λ l, l ++ [proposalId]) |>);;
      mret (Some proposalId)
    else mret None
  | None => mret None
  end.

(** ** The job *)
Definition unchanged_result (inputs : AnalyzerInputs) (result : RecommendationResult) : bool :=
  match currentQuorumNumerator inputs with NaN => false | q => bool_decide (recommendedQuorumNumerator result = q) end &&
  (recommendedProposalThreshold result =? currentProposalThreshold inputs).
(** The proposal of this cycle, if any. *)
Definition propose_if_safe (config : GovernanceTuningConfig) (inputs : AnalyzerInputs) (result : RecommendationResult) :
    M (TState Net) (option Z) :=
  if negb (unchanged_result inputs result) && autoPropose config then
    pending ← findUnresolvedAutoProposal;
    match pending with
    | Some _ => mret None
    | None => try_catch (maybeAutoPropose inputs result) (λ _, mret None)
    end
  else mret None.
Definition same_recommendation (r : TuningRecommendation) (result : RecommendationResult) : bool :=
  bool_decide (Int (rec_recommendedQuorumNumerator r) = recommendedQuorumNumerator result) &&
  (rec_recommendedProposalThreshold r =? recommendedProposalThreshold result).
Definition record_cycle (inputs : AnalyzerInputs) (result : RecommendationResult) (proposalId : option Z) :
    M (TState Net) unit :=
  let insert :=
    insertRecommendation (mkNew (currentQuorumNumerator inputs) (recommendedQuorumNumerator result)
      (currentProposalThreshold inputs) (recommendedProposalThreshold result) (rationale result)
      (bool_decide (proposalId ≠ None)) proposalId);;
    try_catch pruneUnchangedRecommendations (λ _, mret tt) in
  latest ← getLatestRecommendation;
  match latest with
  | Some latest =>
    if unchanged_result inputs result && same_recommendation latest result && negb (rec_autoProposed latest) then
      touchLatestRecommendation (rec_id latest);;
      try_catch pruneUnchangedRecommendations (λ _, mret tt)
    else insert
  | None => insert
  end.
Definition runCycle : M (TState Net) unit :=
  config ← getGovernanceTuningConfig;
  inputs ← on_net (gatherAnalyzerInputs (trailingWindow config));
  match inputs with
  | None => mret tt
  | Some inputs =>
    result ← from_outcome (computeRecommendation inputs config);
    proposalId ← propose_if_safe config inputs result;
    record_cycle inputs result proposalId
  end.
End cycle.
