(* ===== verification/TuningSafety.v ===== *)
(** * Governance tuning: histories

    What the configuration keeps, what the table of recommendations grows by,
    and what the guard against duplicate proposals sees. *)

From S2P Require Import Prelude JsValues Effects Doubles SdkTypes IndexerDb Tuning TuningBounds TuningCycle.
From S2P Require Indexer.
Open Scope Z_scope.

(** Calls take time; the clock does not go back. *)
Class TuningNetLaws (Net : Type) `{!TuningIndexer Net} `{!TuningNet Net} : Prop := {
  fetch_forward path (n : Net) : tn_clock n ≤ tn_clock (fetchJson path n).2;
  settings_forward a (n : Net) : tn_clock n ≤ tn_clock (getSettings a n).2;
  state_forward p (n : Net) : tn_clock n ≤ tn_clock (getProposalState p n).2;
  propose_forward g d (n : Net) : tn_clock n ≤ tn_clock (proposeUpdateConfig g d n).2 }.

Section safety.
Context `{!Runtime} {Net : Type} `{!TuningIndexer Net} `{!TuningNet Net} `{!TuningNetLaws Net} (env : TuningEnv).
Implicit Types (s : TState Net).

(** ** Computations of the network *)
Definition forward (n n' : Net) : Prop := tn_clock n ≤ tn_clock n'.
#[local] Instance forward_preorder : PreOrder forward.
Proof. split; [intros n; unfold forward; lia|intros a b c; unfold forward; lia]. Qed.
#[local] Instance fetch_ev path : Evolves forward (fetchJson path).
Proof. intros n. unfold wp. pose proof (fetch_forward path n). by destruct (fetchJson path n) as [[]]. Qed.
#[local] Instance bigints_ev l key : Evolves forward (bigints (S := Net) l key).
Proof. induction l as [|v l IH]; cbn [bigints]; apply _. Qed.
#[local] Instance gather_ev window : Evolves forward (gatherAnalyzerInputs window).
Proof.
  unfold gatherAnalyzerInputs. repeat (apply ev_bind; [apply _..|]; intros ?). case_match; [apply _|].
  repeat (apply ev_bind; [apply _..|]; intros ?). apply ev_bind; [apply _|case_match; apply _|]. intros ?. apply _.
Qed.
#[local] Instance settings_ev a : Evolves forward (getSettings a).
Proof. intros n. unfold wp. pose proof (settings_forward a n). by destruct (getSettings a n) as [[]]. Qed.
#[local] Instance state_ev p : Evolves forward (getProposalState p).
Proof. intros n. unfold wp. pose proof (state_forward p n). by destruct (getProposalState p n) as [[]]. Qed.
#[local] Instance propose_ev g d : Evolves forward (proposeUpdateConfig g d).
Proof. intros n. unfold wp. pose proof (propose_forward g d n). by destruct (proposeUpdateConfig g d n) as [[]]. Qed.

(** Only the network changes. *)
Definition net_step s s' : Prop := ∃ n, s' = s <| t_net := n |> ∧ forward (t_net s) n.
#[local] Instance net_step_preorder : PreOrder net_step.
Proof.
  split; [intros s; exists (t_net s); split; [by destruct s|reflexivity]|].
  intros a b c (n & -> & Hn) (n' & -> & Hn'). exists n'. split; [done|]. exact (transitivity Hn Hn').
Qed.
#[local] Instance on_net_step {A} (m : M Net A) : Evolves forward m → Evolves net_step (on_net m).
Proof.
  intros Hm s. unfold wp, on_net, zoom. pose proof (evolves_state forward m (t_net s)) as Hf.
  destruct (m (t_net s)) as [[a|e] n]; by exists n.
Qed.
#[local] Instance outcome_step {A} (o : outcome A) : Evolves net_step (from_outcome (S := TState Net) o).
Proof. intros s. destruct o; exact (reflexivity s). Qed.
#[local] Instance find_step : Evolves net_step (findUnresolvedAutoProposal env).
Proof.
  unfold findUnresolvedAutoProposal, getLatestRecommendation. apply ev_bind; [apply _..|]. intros [latest|]; [|apply _].
  destruct (if rec_autoProposed latest then _ else _) as [p|]; [|apply _]. destruct (negb _); [apply _|].
  apply ev_catch; [apply _..|]. intros; apply _.
Qed.

(** Only the network and what was proposed change. *)
Record later s s' : Prop := mkLater {
  lt_config : t_config s' = t_config s;
  lt_recs : t_recs s' = t_recs s;
  lt_next : t_next_rec s' = t_next_rec s;
  lt_clock : tn_clock (t_net s) ≤ tn_clock (t_net s') }.
#[local] Instance later_preorder : PreOrder later.
Proof.
  split; [intros s; split; [done..|lia]|]. intros a b c [] []. split; [congruence..|lia].
Qed.
Lemma net_step_later s s' : net_step s s' → later s s'.
Proof. by intros (n & -> & Hn). Qed.
#[local] Instance ev_later {A} (m : M (TState Net) A) : Evolves net_step m → Evolves later m.
Proof. intros Hm s. eapply wp_mono; [apply Hm|intros a s'; apply net_step_later..]. Qed.
#[local] Instance auto_propose_later inputs result : Evolves later (maybeAutoPropose env inputs result).
Proof.
  unfold maybeAutoPropose. destruct (te_governor env) as [g|]; [|apply _]. destruct (_ && _); [|apply _].
  apply ev_bind; [apply _..|]. intros settings. apply ev_bind; [apply _..|]. intros p. intros s. wp_go. by split.
Qed.
#[local] Instance propose_later config inputs result : Evolves later (propose_if_safe env config inputs result).
Proof.
  unfold propose_if_safe. destruct (_ && _); [|apply _]. apply ev_bind; [apply _..|]. intros [p|]; [apply _|].
  apply ev_catch; intros; apply _.
Qed.

(** ** The table *)

(** Serial numbers are used once, and no row is from the future. *)
Record recs_ok s : Prop := mkRecsOk {
  ro_ids : NoDup (rec_id <$> t_recs s);
  ro_next : ∀ r, r ∈ t_recs s → rec_id r < t_next_rec s;
  ro_clock : ∀ r, r ∈ t_recs s → rec_computedAt r ≤ tn_clock (t_net s) }.
Lemma later_ok s s' : later s s' → recs_ok s → recs_ok s'.
Proof.
  intros [_ Hr Hn Hc] [Hids Hnext Hclock]. split; rewrite ?Hr, ?Hn; [done|done|]. intros r Hin. specialize (Hclock r Hin). lia.
Qed.

(** [r] is the newest row. *)
Definition newest (l : list TuningRecommendation) (r : TuningRecommendation) : Prop :=
  r ∈ l ∧ ∀ r', r' ∈ l → newer r r' = false.
Lemma newer_irrefl r : newer r r = false.
Proof. unfold newer. lia. Qed.
Lemma newer_trans_false a b c : newer a b = true → newer a c = false → newer b c = false.
Proof. unfold newer. lia. Qed.
Lemma newer_after a b c : newer a b = false → newer b c = false → newer a c = false.
Proof. unfold newer. lia. Qed.
Lemma newer_total a b : newer a b = false → newer b a = false → rec_id a = rec_id b.
Proof. unfold newer. lia. Qed.
Lemma latest_fold (l : list TuningRecommendation) a :
  ∃ r, foldl (λ acc r, match acc with Some a => if newer a r then Some r else Some a | None => Some r end) (Some a) l = Some r ∧
    (r = a ∨ r ∈ l) ∧ newer r a = false ∧ ∀ r', r' ∈ l → newer r r' = false.
Proof.
  revert a. induction l as [|x l IH]; intros a; cbn [foldl].
  { exists a. split; [done|]. split; [by left|]. split; [apply newer_irrefl|]. by intros r' ?%elem_of_nil. }
  destruct (newer a x) eqn:Hx.
  - destruct (IH x) as (r & Hr & Hin & Hrx & Hall). exists r. split; [done|]. split; [right; rewrite elem_of_cons; tauto|].
    assert (newer r a = false) as Hra by (unfold newer in *; lia). split; [done|].
    intros r' [->|Hr']%elem_of_cons; [done|by apply Hall].
  - destruct (IH a) as (r & Hr & Hin & Hra & Hall). exists r. split; [done|]. split; [rewrite elem_of_cons; tauto|]. split; [done|].
    intros r' [->|Hr']%elem_of_cons; [by eapply newer_after|by apply Hall].
Qed.
Lemma latest_newest l r : latest_of l = Some r → newest l r.
Proof.
  destruct l as [|x l]; [done|]. unfold latest_of. cbn [foldl]. destruct (latest_fold l x) as (r' & -> & Hin & Hx & Hall).
  intros [= <-]. split; [rewrite elem_of_cons; tauto|]. intros y [->|Hy]%elem_of_cons; [done|by apply Hall].
Qed.
Lemma newest_latest l r : NoDup (rec_id <$> l) → newest l r → latest_of l = Some r.
Proof.
  intros Hnd [Hin Hall]. destruct (latest_of l) as [r'|] eqn:Hl.
  - apply latest_newest in Hl as [Hin' Hall']. f_equal. apply (NoDup_key rec_id l); [done..|].
    apply newer_total; [by apply Hall'|by apply Hall].
  - destruct l as [|x l]; [by apply elem_of_nil in Hin|]. unfold latest_of in Hl. cbn [foldl] in Hl.
    destruct (latest_fold l x) as (r' & Hr' & _). congruence.
Qed.

(** ** What a cycle writes *)
Lemma insert_spec new s :
  wp (insertRecommendation new)
    (λ row s', new_row (t_next_rec s) (tn_clock (t_net s)) new = Some row ∧
      s' = s <| t_next_rec := t_next_rec s + 1 |> <| t_recs ::= (λ l, l ++ [row]) |>)
    (λ _ _, True) s.
Proof.
  unfold insertRecommendation, now. do 6 wp_step. destruct (new_row _ _ new) as [row|]; [|by wp_step]. by wp_go.
Qed.
Definition pruned s : TState Net := s <| t_recs ::= base.filter (λ r, stale (tn_clock (t_net s)) r = false) |>.
Lemma prune_run s : try_catch pruneUnchangedRecommendations (λ _, mret tt) s = (Ok tt, pruned s).
Proof. reflexivity. Qed.
Lemma fresh_row_kept t r : rec_computedAt r = t → stale t r = false.
Proof. intros <-. unfold stale, day_ms. lia. Qed.

(** The row that is the newest stays so when old rows go. *)
Lemma newest_pruned s r :
  recs_ok s → newest (t_recs s) r → rec_computedAt r = tn_clock (t_net s) →
  recs_ok (pruned s) ∧ latest_of (t_recs (pruned s)) = Some r ∧ (length (t_recs (pruned s)) ≤ length (t_recs s))%nat.
Proof.
  intros [Hids Hnext Hclock] [Hin Hall] Ht.
  assert (recs_ok (pruned s)) as Hok.
  { split; cbn.
    - eapply sublist_NoDup; [exact Hids|]. apply fmap_sublist, sublist_filter.
    - intros r' [_ Hr']%list_elem_of_filter. by apply Hnext.
    - intros r' [_ Hr']%list_elem_of_filter. by apply Hclock. }
  split; [exact Hok|]. split; [|apply length_filter].
  apply newest_latest; [apply Hok|]. split.
  - apply list_elem_of_filter. split; [by apply fresh_row_kept|done].
  - intros r' [_ Hr']%list_elem_of_filter. by apply Hall.
Qed.
Lemma appended_newest s row :
  recs_ok s → rec_id row = t_next_rec s → rec_computedAt row = tn_clock (t_net s) →
  let s' := s <| t_next_rec := t_next_rec s + 1 |> <| t_recs ::= (λ l, l ++ [row]) |> in
  recs_ok s' ∧ newest (t_recs s') row.
Proof.
  intros [Hids Hnext Hclock] Hid Ht s'. split; [split|split]; cbn.
  - rewrite fmap_app. apply NoDup_app. split; [done|]. split; [|apply NoDup_singleton].
    intros i (r & -> & Hr)%list_elem_of_fmap Hi%list_elem_of_singleton. specialize (Hnext r Hr). lia.
  - intros r [Hr%Hnext|Hr%list_elem_of_singleton]%elem_of_app; [lia|]. subst r. lia.
  - intros r [Hr%Hclock|Hr%list_elem_of_singleton]%elem_of_app; [lia|]. subst r. lia.
  - apply elem_of_app. right. by apply list_elem_of_singleton.
  - intros r [Hr|Hr%list_elem_of_singleton]%elem_of_app; [|subst r; apply newer_irrefl].
    specialize (Hnext r Hr). specialize (Hclock r Hr). unfold newer. lia.
Qed.

(** A recommendation that changes something gets a row of its own. *)
Definition row_of (result : RecommendationResult) (proposalId : option Z) (r : TuningRecommendation) : Prop :=
  Int (rec_recommendedQuorumNumerator r) = recommendedQuorumNumerator result ∧
  rec_recommendedProposalThreshold r = recommendedProposalThreshold result ∧
  rec_autoProposed r = bool_decide (proposalId ≠ None) ∧ rec_proposalId r = proposalId.
Lemma new_row_inv id t new r :
  new_row id t new = Some r →
  rec_id r = id ∧ rec_computedAt r = t ∧ Int (rec_recommendedQuorumNumerator r) = new_recommendedQuorumNumerator new ∧
  rec_recommendedProposalThreshold r = new_recommendedProposalThreshold new ∧ rec_autoProposed r = new_autoProposed new ∧
  rec_proposalId r = new_proposalId new.
Proof.
  unfold new_row. intros (cq & _ & (rq & Hrq & (ct & _ & (rt & Hrt & (p & Hp & [= <-])%bind_Some)%bind_Some)%bind_Some)%bind_Some)%bind_Some.
  cbn. split; [done|]. split; [done|]. split; [|split; [|split; [done|]]].
  - destruct (new_recommendedQuorumNumerator new) as [n|[]|]; [|by vm_compute in Hrq..].
    f_equal. by apply INTEGER_num in Hrq.
  - by apply NUMERIC_decimal in Hrt.
  - destruct (new_proposalId new) as [q|]; [|congruence]. apply fmap_Some in Hp as (q' & Hq & ->). by apply BIGINT_decimal in Hq as ->.
Qed.

Lemma insert_records inputs result p s :
  recs_ok s →
  wp (insertRecommendation (mkNew (currentQuorumNumerator inputs) (recommendedQuorumNumerator result)
        (currentProposalThreshold inputs) (recommendedProposalThreshold result) (rationale result)
        (bool_decide (p ≠ None)) p);;
      try_catch pruneUnchangedRecommendations (λ _, mret tt))
    (λ _ s', recs_ok s' ∧ (∃ r, latest_of (t_recs s') = Some r ∧ row_of result p r) ∧ t_proposed s' = t_proposed s ∧
      (length (t_recs s') ≤ S (length (t_recs s)))%nat) (λ _ _, True) s.
Proof.
  intros Hok. wp_step. eapply wp_mono; [apply insert_spec| |done]. intros row s1 [Hrow ->].
  apply new_row_inv in Hrow as (Hid & Ht & Hq & Hth & Ha & Hp).
  destruct (appended_newest s row Hok Hid Ht) as [Hok1 Hnew].
  destruct (newest_pruned _ row Hok1 Hnew Ht) as (Hok2 & Hlatest & Hlen).
  unfold wp. rewrite prune_run. split; [exact Hok2|]. split; [by exists row|]. split; [done|].
  etransitivity; [exact Hlen|]. cbn. rewrite length_app. cbn. lia.
Qed.
(** A row that is looked at again, and becomes the newest by date too. *)
Definition touched s (r : TuningRecommendation) : TState Net :=
  s <| t_recs ::= fmap (λ x, if rec_id x =? rec_id r then x <| rec_computedAt := tn_clock (t_net s) |> else x) |>.
Lemma touched_newest s r :
  recs_ok s → newest (t_recs s) r →
  recs_ok (touched s r) ∧ newest (t_recs (touched s r)) (r <| rec_computedAt := tn_clock (t_net s) |>).
Proof.
  intros Hok [Hin Hall]. destruct Hok as [Hids Hnext Hclock]. split; [split|split]; cbn.
  - rewrite <- list_fmap_compose. rewrite (Forall_fmap_ext_1 _ rec_id); [done|]. apply Forall_forall. intros x _. cbn.
    by destruct (_ =? _).
  - intros x (y & -> & Hy)%list_elem_of_fmap. specialize (Hnext y Hy). by destruct (_ =? _).
  - intros x (y & -> & Hy)%list_elem_of_fmap. specialize (Hclock y Hy). destruct (_ =? _); cbn; lia.
  - apply list_elem_of_fmap. exists r. split; [|done]. by rewrite Z.eqb_refl.
  - intros x (y & -> & Hy)%list_elem_of_fmap. pose proof (Hclock y Hy). pose proof (Hclock r Hin). pose proof (Hall y Hy) as Hr.
    destruct (Z.eqb_spec (rec_id y) (rec_id r)) as [Heq|]; unfold newer in *; cbn; lia.
Qed.

(** What a row recommends. *)
Definition recommends (q t : Z) (r : TuningRecommendation) : Prop :=
  rec_recommendedQuorumNumerator r = q ∧ rec_recommendedProposalThreshold r = t ∧ rec_autoProposed r = false.
Lemma same_recommends q t r result :
  recommendedQuorumNumerator result = Int q → recommendedProposalThreshold result = t → rec_autoProposed r = false →
  same_recommendation r result = true ↔ recommends q t r.
Proof.
  intros Hq <- Ha. unfold same_recommendation, recommends. rewrite Hq, andb_true_iff, bool_decide_eq_true, Z.eqb_eq.
  split; [intros [[=] ?]|intros (-> & ? & _)]; done.
Qed.
(** A cycle that recommends what is there already. *)
Lemma quiet_records inputs result q s :
  recs_ok s → unchanged_result inputs result = true → recommendedQuorumNumerator result = Int q →
  wp (record_cycle inputs result None)
    (λ _ s', recs_ok s' ∧ (∃ r, latest_of (t_recs s') = Some r ∧ recommends q (recommendedProposalThreshold result) r) ∧
      (length (t_recs s') ≤ S (length (t_recs s)) ∧
       ∀ r, latest_of (t_recs s) = Some r → recommends q (recommendedProposalThreshold result) r →
         length (t_recs s') ≤ length (t_recs s))%nat) (λ _ _, True) s.
Proof.
  intros Hok Hun Hq. unfold record_cycle, getLatestRecommendation. do 2 wp_step. rewrite Hun.
  assert (∀ r, row_of result None r → recommends q (recommendedProposalThreshold result) r) as Hrow.
  { intros r (Hr & Ht & Ha & _). rewrite Hq in Hr. injection Hr as Hr. by rewrite bool_decide_eq_false_2 in Ha by auto. }
  destruct (latest_of (t_recs s)) as [latest|] eqn:Hl.
  2:{ eapply wp_mono; [by apply insert_records| |done]. cbn. intros _ s' (Hok' & (r & Hr & Hof) & _ & Hlen).
      split; [done|]. split; [eauto|]. by split. }
  destruct (rec_autoProposed latest) eqn:Ha; [rewrite andb_false_r|rewrite andb_true_r];
    [|destruct (same_recommendation latest result) eqn:Hsame]; cbn [andb negb].
  - eapply wp_mono; [by apply insert_records| |done]. cbn. intros _ s' (Hok' & (r & Hr & Hof) & _ & Hlen).
    split; [done|]. split; [eauto|]. split; [done|]. intros r' [= <-] (_ & _ & Ha'). congruence.
  - apply (same_recommends q (recommendedProposalThreshold result)) in Hsame; [|done..].
    destruct (touched_newest s latest Hok (latest_newest _ _ Hl)) as [Hok1 Hnew].
    destruct (newest_pruned _ _ Hok1 Hnew eq_refl) as (Hok2 & Hlatest & Hlen).
    unfold touchLatestRecommendation, now. do 4 wp_step. unfold wp. rewrite prune_run. split; [exact Hok2|].
    assert (length (t_recs (touched s latest)) = length (t_recs s)) as Hsize by apply length_fmap.
    split; [by exists (latest <| rec_computedAt := tn_clock (t_net s) |>)|].
    change (length (t_recs (pruned (touched s latest))) ≤ S (length (t_recs s)) ∧
      ∀ r, Some latest = Some r → recommends q (recommendedProposalThreshold result) r →
        length (t_recs (pruned (touched s latest))) ≤ length (t_recs s))%nat.
    split; [lia|]. intros; lia.
  - eapply wp_mono; [by apply insert_records| |done]. cbn. intros _ s' (Hok' & (r & Hr & Hof) & _ & Hlen).
    split; [done|]. split; [eauto|]. split; [done|]. intros r' [= <-] Hrec.
    apply (same_recommends q (recommendedProposalThreshold result) latest result) in Hrec; congruence.
Qed.

(** ** Cycles *)

(** What a cycle finds: its configuration, its inputs and its result. *)
Record cycle_finds s (config : GovernanceTuningConfig) (inputs : AnalyzerInputs) (result : RecommendationResult) s' : Prop :=
  mkFinds {
  cf_config : t_config s = Some config;
  cf_inputs : on_net (gatherAnalyzerInputs (trailingWindow config)) s = (Ok (Some inputs), s');
  cf_result : computeRecommendation inputs config = Ok result }.
Lemma runCycle_finds s config inputs result s1 :
  cycle_finds s config inputs result s1 →
  runCycle env s = (p ← propose_if_safe env config inputs result; record_cycle inputs result p) s1.
Proof.
  intros [Hc Hin Hres]. unfold runCycle, getGovernanceTuningConfig.
  erewrite bind_run; [|unfold gets, mbind, M_bind; rewrite Hc; reflexivity].
  erewrite bind_run by exact Hin. cbn beta iota.
  rewrite (bind_run (from_outcome (computeRecommendation inputs config)) _ s1 result s1); [done|].
  unfold from_outcome. by rewrite Hres.
Qed.
Lemma finds_step s config inputs result s1 : cycle_finds s config inputs result s1 → net_step s s1.
Proof. intros [_ Hin _]. exact (evolves_run net_step _ s _ _ Hin). Qed.
Lemma net_step_ok s s' : net_step s s' → recs_ok s → recs_ok s'.
Proof. intros Hs. apply later_ok. by apply net_step_later. Qed.

(** One more cycle that recommends [q] and [t], which are the current values. *)
Inductive quiet_cycle (q t : Z) : relation (TState Net) :=
  | quiet s n config inputs result s1 s' :
      forward (t_net s) n → cycle_finds (s <| t_net := n |>) config inputs result s1 →
      unchanged_result inputs result = true → recommendedQuorumNumerator result = Int q →
      recommendedProposalThreshold result = t →
      runCycle env (s <| t_net := n |>) = (Ok tt, s') → quiet_cycle q t s s'.
Lemma quiet_cycle_rows q t s s' :
  quiet_cycle q t s s' → recs_ok s →
  recs_ok s' ∧ (∃ r, latest_of (t_recs s') = Some r ∧ recommends q t r) ∧
  (length (t_recs s') ≤ S (length (t_recs s)) ∧
   ∀ r, latest_of (t_recs s) = Some r → recommends q t r → length (t_recs s') ≤ length (t_recs s))%nat.
Proof.
  intros [s0 n config inputs result s1 s2 Hn Hfinds Hun Hq <- Hrun] Hok.
  assert (net_step s0 s1) as Hstep.
  { transitivity (s0 <| t_net := n |>); [by exists n|]. exact (finds_step _ _ _ _ _ Hfinds). }
  rewrite (runCycle_finds _ _ _ _ _ Hfinds) in Hrun. unfold propose_if_safe in Hrun. rewrite Hun in Hrun. cbn [negb andb] in Hrun.
  erewrite bind_run in Hrun by reflexivity.
  pose proof (wp_ok_inv _ _ _ _ _ _ Hrun (quiet_records inputs result q s1 (net_step_ok _ _ Hstep Hok) Hun Hq)) as Hs2.
  destruct Hstep as (n1 & -> & _). exact Hs2.
Qed.

(** Unchanged recommendations do not pile up.  However many cycles in a row
    recommend the same values, which are the current ones, the table grows by
    at most one row; its newest row then recommends these values. *)
Theorem quiet_cycles_add_one_row q t s s' :
  recs_ok s → tc (quiet_cycle q t) s s' →
  recs_ok s' ∧ (length (t_recs s') ≤ S (length (t_recs s)))%nat ∧
  ∃ r, latest_of (t_recs s') = Some r ∧ recommends q t r.
Proof.
  intros Hok Hsteps. apply tc_first in Hsteps as (s1 & Hfirst & Hrest).
  destruct (quiet_cycle_rows _ _ _ _ Hfirst Hok) as (Hok1 & Hnew1 & Hlen1 & _). clear Hfirst Hok.
  revert Hok1 Hnew1 Hlen1. generalize (S (length (t_recs s))) as bound. intros bound.
  induction Hrest as [s1|s1 s2 s' Hstep _ IH]; intros Hok1 (r & Hr & Hrec) Hlen1; [by eauto|].
  destruct (quiet_cycle_rows _ _ _ _ Hstep Hok1) as (Hok2 & Hnew2 & _ & Hsame). apply IH; [done|done|].
  specialize (Hsame r Hr Hrec). lia.
Qed.

Lemma changed_records inputs result p s :
  recs_ok s → unchanged_result inputs result = false →
  wp (record_cycle inputs result p)
    (λ _ s', recs_ok s' ∧ (∃ r, latest_of (t_recs s') = Some r ∧ row_of result p r) ∧ t_proposed s' = t_proposed s)
    (λ _ _, True) s.
Proof.
  intros Hok Hun. unfold record_cycle, getLatestRecommendation. do 2 wp_step. rewrite Hun. cbn [andb].
  destruct (latest_of (t_recs s)); (eapply wp_mono; [by apply insert_records| |done]); cbn; tauto.
Qed.

(** The guard against duplicate proposals lasts one cycle.  A cycle that
    recommends a change while the last automatic proposal is unresolved proposes
    nothing, and records its recommendation as one that was not proposed.  That
    row is then the newest, and the guard looks no further: whatever the state
    of the chain, the next cycle that recommends a change proposes it, the
    earlier proposal being as unresolved as before. *)
Theorem guard_lasts_one_cycle s config inputs result s0 pending s0' s1 :
  recs_ok s → cycle_finds s config inputs result s0 → unchanged_result inputs result = false → autoPropose config = true →
  findUnresolvedAutoProposal env s0 = (Ok (Some pending), s0') →
  runCycle env s = (Ok tt, s1) →
  t_proposed s1 = t_proposed s ∧
  ∀ n, findUnresolvedAutoProposal env (s1 <| t_net := n |>) = (Ok None, s1 <| t_net := n |>) ∧
    ∀ config' inputs' result', autoPropose config' = true → unchanged_result inputs' result' = false →
      propose_if_safe env config' inputs' result' (s1 <| t_net := n |>) =
        try_catch (maybeAutoPropose env inputs' result') (λ _, mret None) (s1 <| t_net := n |>).
Proof.
  intros Hok Hfinds Hun Hauto Hpending Hrun. pose proof (finds_step _ _ _ _ _ Hfinds) as Hstep.
  rewrite (runCycle_finds _ _ _ _ _ Hfinds) in Hrun.
  assert (propose_if_safe env config inputs result s0 = (Ok None, s0')) as Hskip.
  { unfold propose_if_safe. rewrite Hun, Hauto. cbn [negb andb]. erewrite bind_run by exact Hpending. done. }
  erewrite bind_run in Hrun by exact Hskip.
  pose proof (transitivity Hstep (evolves_run net_step _ _ _ _ Hpending)) as Hstep'.
  pose proof (wp_ok_inv _ _ _ _ _ _ Hrun (changed_records inputs result None s0' (net_step_ok _ _ Hstep' Hok) Hun))
    as (Hok1 & (r & Hr & _ & _ & Ha & _) & Hprop).
  split; [destruct Hstep' as (n & -> & _); exact Hprop|]. intros n.
  assert (findUnresolvedAutoProposal env (s1 <| t_net := n |>) = (Ok None, s1 <| t_net := n |>)) as Hnone.
  { unfold findUnresolvedAutoProposal, getLatestRecommendation. unfold gets, mbind, M_bind. cbn [t_recs upd]. rewrite Hr, Ha.
    reflexivity. }
  split; [exact Hnone|]. intros config' inputs' result' Hauto' Hun'. unfold propose_if_safe. rewrite Hauto', Hun'. cbn [negb andb].
  by erewrite bind_run by exact Hnone.
Qed.

(** ** The configuration *)
Record config_ok (c : GovernanceTuningConfig) : Prop := mkConfigOk {
  co_quorum : minQuorumNumerator c ≤ maxQuorumNumerator c;
  co_threshold : match maxProposalThreshold c with Some h => minProposalThreshold c ≤ h | None => True end;
  co_quorumDelta : 0 < maxQuorumDeltaBps c;
  co_thresholdDelta : 0 < maxThresholdDeltaBps c;
  co_interval : 0 < intervalMs c;
  co_window : 0 < trailingWindow c }.
(** A patch sets the fields it names. *)
Definition patched (patch : GovernanceTuningConfigPatch) (t : Z) (c : GovernanceTuningConfig) : GovernanceTuningConfig :=
  mkTuningConfig (default (minQuorumNumerator c) (p_minQuorumNumerator patch))
    (default (maxQuorumNumerator c) (p_maxQuorumNumerator patch)) (default (maxQuorumDeltaBps c) (p_maxQuorumDeltaBps patch))
    (default (minProposalThreshold c) (p_minProposalThreshold patch))
    (default (maxProposalThreshold c) (p_maxProposalThreshold patch))
    (default (maxThresholdDeltaBps c) (p_maxThresholdDeltaBps patch)) (default (trailingWindow c) (p_trailingWindow patch))
    (default (intervalMs c) (p_intervalMs patch)) (default (autoPropose c) (p_autoPropose patch)) t.
Lemma set_column_value {A} (column : A → option A) old value v :
  (∀ x y, column x = Some y → y = x) → set_column column old value = Some v → v = default old value.
Proof. intros Hcol. destruct value as [x|]; cbn; [apply Hcol|congruence]. Qed.
Lemma apply_patch_patched patch t c c' : apply_patch patch t c = Some c' → c' = patched patch t c.
Proof.
  unfold apply_patch. intros (minQ & HminQ & (maxQ & HmaxQ & (dq & Hdq & (minT & HminT & (maxT & HmaxT & (dt & Hdt &
    (w & Hw & (i & Hi & (a & Ha & [= <-])%bind_Some)%bind_Some)%bind_Some)%bind_Some)%bind_Some)%bind_Some)%bind_Some)%bind_Some)%bind_Some.
  assert (∀ x y, integer x = Some y → y = x) as Hint by (intros x y; apply INTEGER_num).
  assert (∀ x y, numeric38 x = Some y → y = x) as Hnum by (intros x y; apply NUMERIC_decimal).
  apply set_column_value in HminQ, HmaxQ, Hdq, Hdt, Hw, Hi; try done. apply set_column_value in HminT; [|done].
  apply set_column_value in Ha; [|congruence]. apply set_column_value in HmaxT.
  2:{ intros [x|] y; [intros (n & ->%Hnum & ->)%fmap_Some|]; congruence. }
  unfold patched. by subst.
Qed.
Lemma check_positive_ok v f : check_positive v f = Ok tt → 0 < v.
Proof. unfold check_positive. destruct (Z.leb_spec v 0); [done|lia]. Qed.
Lemma and_then_ok a b : and_then a b = Ok tt → a = Ok tt ∧ b = Ok tt.
Proof. by destruct a as [[]|]. Qed.
Lemma check_patch_ok patch c t : check_patch patch c = Ok tt → config_ok (patched patch t c).
Proof.
  unfold check_patch. cbv zeta. destruct (Z.ltb_spec (default (maxQuorumNumerator c) (p_maxQuorumNumerator patch))
    (default (minQuorumNumerator c) (p_minQuorumNumerator patch))) as [|Hq]; [done|].
  destruct (match default _ _ with Some _ => _ | None => _ end) eqn:Hth; [done|].
  intros [Hdq [Hdt [Hi Hw]%and_then_ok]%and_then_ok]%and_then_ok.
  apply check_positive_ok in Hdq, Hdt, Hi, Hw. split; cbn; try done.
  destruct (default (maxProposalThreshold c) (p_maxProposalThreshold patch)); [lia|done].
Qed.
Lemma update_config_spec patch c s :
  t_config s = Some c → config_ok c →
  wp (updateGovernanceTuningConfig patch)
    (λ c' s', config_ok c' ∧ s' = s <| t_config := Some c' |> ∧
      c' = if patch_empty patch then c else patched patch (tn_clock (t_net s)) c)
    (λ _ s', s' = s) s.
Proof.
  intros Hc Hok. unfold updateGovernanceTuningConfig, read_and_check, getGovernanceTuningConfig.
  destruct (patch_empty patch).
  - do 2 wp_step. rewrite Hc. wp_step; [done|]. simplify_eq. split; [done|]. split; [|done]. by destruct s; cbn in *; subst.
  - do 4 wp_step. rewrite Hc. wp_step; [done|]. simplify_eq. unfold from_outcome, wp at 1.
    destruct (check_patch patch _) as [[]|e] eqn:Hcheck; [|done]. unfold write_config, now. do 4 wp_step. rewrite Hc.
    destruct (apply_patch _ _ _) as [c'|] eqn:Happly; [|by wp_step]. apply apply_patch_patched in Happly as ->. do 3 wp_step.
    split; [by apply check_patch_ok|done].
Qed.

(** Requests and cycles one after another. *)
Inductive tuning_step : relation (TState Net) :=
  | step_update s patch : tuning_step s (updateGovernanceTuningConfig patch s).2
  | step_cycle s : tuning_step s (runCycle env s).2
  | step_chain s n : forward (t_net s) n → tuning_step s (s <| t_net := n |>).

Definition config_kept s s' : Prop := t_config s' = t_config s.
#[local] Instance config_kept_preorder : PreOrder config_kept.
Proof. split; [done|]. intros a b c Hab Hbc. unfold config_kept in *. congruence. Qed.
#[local] Instance ev_config {A} (m : M (TState Net) A) : Evolves later m → Evolves config_kept m.
Proof. intros Hm s. eapply wp_mono; [apply Hm|intros ? ? []; done..]. Qed.
#[local] Instance prune_config : Evolves config_kept pruneUnchangedRecommendations.
Proof. intros s. unfold pruneUnchangedRecommendations, now. by wp_go. Qed.
#[local] Instance insert_config new : Evolves config_kept (insertRecommendation new).
Proof.
  intros s. unfold insertRecommendation, now. do 6 wp_step. destruct (new_row _ _ new); by wp_go.
Qed.
#[local] Instance touch_config id : Evolves config_kept (touchLatestRecommendation id).
Proof. intros s. unfold touchLatestRecommendation, now. by wp_go. Qed.
#[local] Instance cycle_config : Evolves config_kept (runCycle env).
Proof.
  unfold runCycle, getGovernanceTuningConfig. apply ev_bind; [apply _..|]. intros config. apply ev_bind; [apply _..|].
  intros [inputs|]; [|apply _]. apply ev_bind; [apply _..|]. intros result. apply ev_bind; [apply _..|]. intros p.
  unfold record_cycle, getLatestRecommendation. apply ev_bind; [apply _..|].
  intros [latest|]; [destruct (_ && _)|]; (apply ev_bind; [apply _..|]; intros; apply ev_catch; intros; apply _).
Qed.

(** The configuration stays consistent.  Requests that arrive one after
    another, in any order with cycles of the analyzer, leave a configuration whose
    bands are not empty and whose caps, interval and window are positive; a
    request that is refused changes nothing. *)
Theorem config_stays_consistent s s' c :
  t_config s = Some c → config_ok c → rtc tuning_step s s' →
  (∃ c', t_config s' = Some c' ∧ config_ok c') ∧
  ∀ patch e s'', updateGovernanceTuningConfig patch s' = (Throw e, s'') → s'' = s'.
Proof.
  intros Hc Hok Hsteps.
  assert (∃ c', t_config s' = Some c' ∧ config_ok c') as (c' & Hc' & Hok').
  { revert c Hc Hok. induction Hsteps as [s|s s1 s' Hstep _ IH]; intros c Hc Hok; [by eauto|].
    assert (∃ c1, t_config s1 = Some c1 ∧ config_ok c1) as (c1 & Hc1 & Hok1); [|by apply (IH c1)].
    destruct Hstep as [s patch|s|s n _].
    - pose proof (update_config_spec patch c s Hc Hok) as Hwp. unfold wp in Hwp.
      destruct (updateGovernanceTuningConfig patch s) as [[c1|e] s1]; [destruct Hwp as (Hok1 & -> & _)|subst]; eauto.
    - exists c. split; [|done]. rewrite <- Hc. exact (evolves_state config_kept _ s).
    - by exists c. }
  split; [by eauto|]. intros patch e s'' Hrun.
  exact (wp_throw_inv _ _ _ _ _ _ Hrun (update_config_spec patch c' s' Hc' Hok')).
Qed.
End safety.

(** ** An example *)

(** Proposals stay pending for ever, and are numbered by the clock. *)
Module TuningHistory.
Import Indexer.
Definition votes (n : Z) : JsValue := VObj [("total_votes_cast", VStr (decimal n))].
#[export] Instance ex_indexer : TuningIndexer Z := λ path n,
  (Ok (if String.eqb path "/analytics/all-time-stats" then
         VObj [("quorum_hit_count", VStr "9"); ("quorum_miss_count", VStr "1")]
       else if String.eqb path "/config-history?limit=1" then
         VObj [("data", VArr [VObj [("new_settings",
           VObj [("quorum_numerator", VNum 1000); ("proposal_threshold", VStr "5000")])]])]
       else VObj [("data", VArr (votes <$> [37; 29; 20; 10; 0]))]), n).
Definition ex_settings : GovernorSettings :=
  mkGovernorSettings 1 100 (Int 1000) 5000 "guardian" Simple 10 None None None None None None None None None.
#[export] Instance ex_net : TuningNet Z := {|
  tn_clock := λ n, n;
  getSettings := λ _ n, (Ok ex_settings, n);
  getProposalState := λ _ n, (Ok Pending, n);
  proposeUpdateConfig := λ _ _ n, (Ok n, n + 1) |}.
#[export] Instance ex_laws : TuningNetLaws Z.
Proof. split; intros; cbn; lia. Qed.
Definition env : TuningEnv := mkTuningEnv (Some "S") (Some "G") (Some "V") (Some "T").
Definition config : GovernanceTuningConfig := mkTuningConfig 100 5000 200 0 None 1000 10 3600000 true 0.
Definition start : TState Z := mkTState (Some config) [] 1 [] 0.
Definition cycle (s : TState Z) : TState Z := (runCycle (H := ex_runtime) env s).2.
Definition s1 : TState Z := cycle start.
Definition s2 : TState Z := cycle s1.
Definition s3 : TState Z := cycle s2.
(** Three cycles, and two proposals of the same change are pending. *)
Example proposed_twice : t_proposed s3 = [0; 1] ∧ length (t_recs s3) = 3%nat.
Proof. by vm_compute. Qed.

(** Two requests that are each checked before either is written. *)
Definition patch_min (n : Z) : GovernanceTuningConfigPatch := mkPatch (Some n) None None None None None None None None.
Definition patch_max (n : Z) : GovernanceTuningConfigPatch := mkPatch None (Some n) None None None None None None None.
Lemma concurrent_updates_break_config :
  let s := start in
  read_and_check (patch_min 4000) s = (Ok tt, s) ∧ read_and_check (patch_max 2000) s = (Ok tt, s) ∧
  ∃ c, t_config (write_config (H := ex_runtime) (patch_max 2000) (write_config (H := ex_runtime) (patch_min 4000) s).2).2 = Some c ∧
    maxQuorumNumerator c < minQuorumNumerator c.
Proof. split; [reflexivity|]. split; [reflexivity|]. eexists. split; [vm_compute; reflexivity|]. cbn. lia. Qed.
End TuningHistory.
#[local] Existing Instance TuningHistory.ex_indexer.
#[local] Existing Instance TuningHistory.ex_net.
#[local] Existing Instance TuningHistory.ex_laws.
Import TuningHistory.

Definition found_inputs : AnalyzerInputs := mkAnalyzerInputs (Int 1000) 5000 9 1 [0; 10; 20; 29; 37].
Definition found_result : RecommendationResult :=
  match computeRecommendation found_inputs config with Ok r => r | Throw _ => mkResult NaN 0 (mkRationale
    (mkFieldRationale Unchanged "") (mkFieldRationale Unchanged "") (mkFieldRationale Unchanged "") found_inputs) end.
Lemma single_row_ok (s : TState Z) r :
  t_recs s = [r] → rec_id r < t_next_rec s → rec_computedAt r ≤ t_net s → recs_ok s.
Proof.
  intros Hr Hid Ht. split; rewrite Hr; [apply NoDup_singleton|intros x ->%list_elem_of_singleton; done..].
Qed.
Lemma guard_lasts_one_cycle_witness :
  t_proposed s1 = [0] ∧ t_proposed s2 = [0] ∧
  findUnresolvedAutoProposal TuningHistory.env (s2 <| t_net := 1000 |>) = (Ok None, s2 <| t_net := 1000 |>).
Proof.
  assert (recs_ok s1) as Hok.
  { eapply single_row_ok; [vm_compute; reflexivity|vm_compute; reflexivity|vm_compute; discriminate]. }
  destruct (guard_lasts_one_cycle (H := Indexer.ex_runtime) TuningHistory.env s1 config found_inputs found_result s1 0 s1 s2 Hok)
    as [Hprop Hforget].
  - split; vm_compute; reflexivity.
  - vm_compute. reflexivity.
  - reflexivity.
  - vm_compute. reflexivity.
  - vm_compute. reflexivity.
  - split; [vm_compute; reflexivity|]. split; [rewrite Hprop; vm_compute; reflexivity|]. exact (proj1 (Hforget 1000)).
Defined.

(** Bands of one value each: the recommendation is always the current one. *)
Definition narrow : GovernanceTuningConfig := mkTuningConfig 1000 1000 200 5000 (Some 5000) 1000 10 3600000 true 0.
Definition quiet0 : TState Z := mkTState (Some narrow) [] 1 [] 0.
Definition quiet1 : TState Z := cycle quiet0.
Definition quiet2 : TState Z := cycle (quiet1 <| t_net := 60000 |>).
Definition narrow_result : RecommendationResult :=
  match computeRecommendation found_inputs narrow with Ok r => r | Throw _ => found_result end.
Lemma quiet_cycles_add_one_row_witness :
  length (t_recs quiet2) = 1%nat ∧ ∃ r, latest_of (t_recs quiet2) = Some r ∧ recommends 1000 5000 r.
Proof.
  destruct (quiet_cycles_add_one_row (H := Indexer.ex_runtime) TuningHistory.env 1000 5000 quiet0 quiet2) as (_ & _ & Hr).
  - split; cbn; [constructor|by intros r ?%elem_of_nil..].
  - apply tc_l with quiet1; [|apply tc_once].
    + apply (quiet _ _ _ quiet0 0 narrow found_inputs narrow_result quiet0); [by unfold forward|split; vm_compute; reflexivity|..];
        vm_compute; reflexivity.
    + apply (quiet _ _ _ quiet1 60000 narrow found_inputs narrow_result (quiet1 <| t_net := 60000 |>));
        [unfold forward; vm_compute; discriminate|split; vm_compute; reflexivity|..]; vm_compute; reflexivity.
  - split; [vm_compute; reflexivity|exact Hr].
Defined.
Lemma config_stays_consistent_witness :
  ∃ c', t_config (updateGovernanceTuningConfig (H := Indexer.ex_runtime) (patch_min 4000) start).2 = Some c' ∧ config_ok c' ∧
    minQuorumNumerator c' = 4000.
Proof.
  destruct (config_stays_consistent (H := Indexer.ex_runtime) TuningHistory.env start
    (updateGovernanceTuningConfig (H := Indexer.ex_runtime) (patch_min 4000) start).2 config) as [(c' & Hc' & Hok) _].
  - reflexivity.
  - by split.
  - apply rtc_once, step_update.
  - exists c'. split; [exact Hc'|]. split; [exact Hok|]. vm_compute in Hc'. by injection Hc' as <-.
Defined.
