(* ===== verification/Relayer.v ===== *)
(** * The relayer

    [backend/src/routes/relayer.ts] and [migrations/007_add_relayer_permit_log.sql]:
    a request is a database transaction that takes a lock for each delegator,
    counts what was relayed for it, submits the permits and logs them.  Requests
    run side by side: [advance] takes one of them from one statement to the next.
    The Stellar SDK is the class [RelayerNet]; the base of the lock numbers is
    the parameter [hashtextextended]. *)

From S2P Require Import Prelude SdkErrors JsValues Effects Doubles AddressOrder SdkTypes.
Open Scope Z_scope.

(** ** The body of a request *)

(** [/^[GC][A-Z2-7]{55}$/] *)
Definition STELLAR_ADDRESS_RE (s : string) : bool :=
  match s with
  | String c rest => (Ascii.eqb c (Ascii.ascii_of_N 71) || Ascii.eqb c (Ascii.ascii_of_N 67)) && (String.length rest =? 55)%nat && all_chars base32_char rest
  | EmptyString => false
  end.
Record PermitInput := mkPermit {
  pm_delegator : string; pm_delegatee : string; pm_nonce : Z; pm_expiryLedger : Z; pm_chainId : string; pm_contractId : string }.

(** What a field's schema makes of a value. *)
Definition z_string (ok : string → bool) (v : JsValue) : option string :=
  match v with VStr s => if ok s then Some s else None | _ => None end.
(** [z.coerce.bigint().nonnegative()] *)
Definition z_nonce (v : JsValue) : option Z :=
  match (js_BigInt v : M unit Z) tt with (Ok n, _) => if 0 <=? n then Some n else None | _ => None end.
(** [z.coerce.number().int().positive()] *)
Definition z_expiry (v : JsValue) : option Z :=
  match js_Number v with VNum n => if 0 <? n then Some n else None | _ => None end.
Definition nonempty (s : string) : bool := negb (String.eqb s "").
Definition permitSchema (v : JsValue) : option PermitInput :=
  match v with
  | VObj fields =>
    delegator ← z_string STELLAR_ADDRESS_RE (field "delegator" fields);
    delegatee ← z_string STELLAR_ADDRESS_RE (field "delegatee" fields);
    nonce ← z_nonce (field "nonce" fields);
    expiryLedger ← z_expiry (field "expiryLedger" fields);
    chainId ← z_string nonempty (field "chainId" fields);
    contractId ← z_string STELLAR_ADDRESS_RE (field "contractId" fields);
    Some (mkPermit delegator delegatee nonce expiryLedger chainId contractId)
  | _ => None
  end.
Definition delegateSchema (v : JsValue) : option (PermitInput * string) :=
  match v with
  | VObj fields =>
    permit ← permitSchema (field "permit" fields);
    signature ← z_string nonempty (field "signature" fields);
    Some (permit, signature)
  | _ => None
  end.
(** [z.array(s).min(1).max(20)] *)
Definition z_array {A} (item : JsValue → option A) (v : JsValue) : option (list A) :=
  match v with
  | VArr l => if (0 <? length l)%nat && (length l <=? 20)%nat then mapM item l else None
  | _ => None
  end.
Definition batchDelegateSchema (v : JsValue) : option (list PermitInput * list string) :=
  match v with
  | VObj fields =>
    permits ← z_array permitSchema (field "permits" fields);
    signatures ← z_array (z_string nonempty) (field "signatures" fields);
    Some (permits, signatures)
  | _ => None
  end.

(** ** Contract errors *)
Definition CONTRACT_ERROR_MESSAGES (code : Z) : option string :=
  match code with
  | 10 => Some "Invalid or missing delegation signature"
  | 11 => Some "Permit nonce has already been used or invalidated"
  | 12 => Some "Delegation permit has expired"
  | 13 => Some "Delegation permit is malformed or out of order"
  | 14 => Some "Relayer is not whitelisted to submit signed permits"
  | 15 => Some "Permit was signed for a different network"
  | 16 => Some "Permit was signed for a different contract"
  | _ => None
  end.
(** [err.message] *)
Definition error_message (e : JsError) : string :=
  match e with MockContractError _ text | SdkError _ _ text | PlainError text => text end.
(** The alternatives of the pattern at one place of the text. *)
Definition either_pattern (s : string) : option Z :=
  match hash_pattern s with Some n => Some n | None => contract_error_pattern s end.
Definition extractContractErrorMessage (e : JsError) : option string :=
  code ← find_match either_pattern (error_message e);
  Some (default ("Contract error #" +:+ num_text (Int code)) (CONTRACT_ERROR_MESSAGES code)).

(** ** Building the invocation *)

(** [Buffer.from(s, "base64")]: characters outside the alphabet are skipped. *)
Definition base64_value (c : Ascii.ascii) : option N :=
  let n := Ascii.N_of_ascii c in
  (if (65 <=? n) && (n <=? 90) then Some (n - 65)
   else if (97 <=? n) && (n <=? 122) then Some (n - 71)
   else if (48 <=? n) && (n <=? 57) then Some (n + 4)
   else if (n =? 43) || (n =? 45) then Some 62
   else if (n =? 47) || (n =? 95) then Some 63
   else None)%N.
Definition byte_of_N (n : N) : byte := default x00 (Byte.of_N (n mod 256)%N).
Fixpoint of_sextets (l : list N) : bytes :=
  match l with
  | a :: b :: c :: d :: l =>
    byte_of_N (a * 4 + b / 16) :: byte_of_N (b * 16 + c / 4) :: byte_of_N (c * 64 + d) :: of_sextets l
  | [a; b; c] => [byte_of_N (a * 4 + b / 16); byte_of_N (b * 16 + c / 4)]
  | [a; b] => [byte_of_N (a * 4 + b / 16)]
  | _ => []
  end%N.
Definition from_base64 (s : string) : bytes := of_sextets (omap base64_value (String.list_ascii_of_string s)).

(** A field of a struct: its name, its type and its value. *)
Inductive FieldValue := FBytes (bs : bytes) | FAddress (s : string) | FU32 (n : Z) | FU64 (n : Z).
Record AuthEntry := mkAuthEntry { ae_credentials : string; ae_address : string; ae_xdr : string }.
Record Transaction (ScVal : Type) := mkTransaction {
  tx_source : string; tx_sequence : Z; tx_passphrase : string; tx_contract : string; tx_function : string;
  tx_args : list ScVal; tx_auth : list AuthEntry; tx_timeout : Z }.
Arguments mkTransaction {ScVal} _ _ _ _ _ _ _ _.
Arguments tx_sequence {ScVal} _.
(** [sr_error] is [JSON.stringify(result.errorResult ?? result)]. *)
Record SendResult := mkSendResult { sr_status : string; sr_hash : string; sr_error : string }.

Class RelayerNet (Net ScVal : Type) := {
  PUBLIC : string; TESTNET : string; FUTURENET : string;
  (** [nativeToScVal] of an address, of an object with typed fields, of an array *)
  sc_address : string → outcome ScVal;
  sc_struct : list (string * FieldValue) → outcome ScVal;
  sc_vec : list ScVal → outcome ScVal;
  (** [SorobanAuthorizationEntry.fromXDR(s, "base64")] *)
  authFromXDR : string → option AuthEntry;
  (** [Keypair.fromSecret(secret).publicKey()] *)
  fromSecret : string → outcome string;
  (** [new rpc.Server(url, { allowHttp: false })] *)
  connect : string → outcome unit;
  (** [getAccount(key).sequenceNumber()] *)
  getAccount : string → M Net Z;
  prepareTransaction : Transaction ScVal → M Net (Transaction ScVal);
  (** [prepared.sign(relayer); server.sendTransaction(prepared)] *)
  signAndSend : string → Transaction ScVal → M Net SendResult }.

Record RelayerEnv := mkRelayerEnv {
  re_secret : option string; re_network : option string; re_rpcUrl : option string; re_votes : option string;
  RELAYER_DAILY_PERMIT_LIMIT : number }.

Section submit.
Context `{!RelayerNet Net ScVal} (env : RelayerEnv).

Fixpoint lower (s : string) : string :=
  match s with EmptyString => EmptyString | String c s => String (ascii_lower c) (lower s) end.
Definition NETWORK_PASSPHRASES (key : string) : option string :=
  if String.eqb key "mainnet" || String.eqb key "public" then Some PUBLIC
  else if String.eqb key "testnet" then Some TESTNET
  else if String.eqb key "futurenet" then Some FUTURENET else None.
Definition networkPassphrase : string :=
  default TESTNET (NETWORK_PASSPHRASES (lower (default "testnet" (re_network env)))).
Definition rpcServer : M Net unit := from_outcome (connect (default "https://soroban-testnet.stellar.org" (re_rpcUrl env))).
Definition votesContract : M Net string :=
  match re_votes env with
  | None | Some EmptyString => throw (PlainError "TOKEN_VOTES_CONTRACT_ID is not configured")
  | Some a => mret a
  end.
(** The secret and the public key. *)
Definition getRelayerKeypair : M Net (string * string) :=
  match re_secret env with
  | None | Some EmptyString => throw (PlainError "RELAYER_SECRET_KEY is not configured")
  | Some secret => key ← from_outcome (fromSecret secret); mret (secret, key)
  end.

Definition permitToScVal (permit : PermitInput) : M Net ScVal :=
  from_outcome (sc_struct
    [("chain_id", FBytes (from_base64 (pm_chainId permit))); ("contract_id", FAddress (pm_contractId permit));
     ("delegatee", FAddress (pm_delegatee permit)); ("delegator", FAddress (pm_delegator permit));
     ("expiry_ledger", FU32 (pm_expiryLedger permit)); ("nonce", FU64 (pm_nonce permit))]).

Definition isWellFormedAuthEntry (base64Xdr delegator : string) : bool :=
  match authFromXDR base64Xdr with
  | None => false
  | Some entry => String.eqb (ae_credentials entry) "sorobanCredentialsAddress" && String.eqb (ae_address entry) delegator
  end.
Definition parse_auth (signature : string) : M Net AuthEntry :=
  unwrap (authFromXDR signature) (PlainError "XDR Read Error").

Definition submitInvocation (fnName : string) (args : list ScVal) (auth : list AuthEntry) : M Net string :=
  '(secret, key) ← getRelayerKeypair;
  rpcServer;;
  contract ← votesContract;
  let passphrase := networkPassphrase in
  sequence ← getAccount key;
  prepared ← prepareTransaction (mkTransaction key (sequence + 1) passphrase contract fnName args auth 30);
  result ← signAndSend secret prepared;
  throw_if (String.eqb (sr_status result) "ERROR") (PlainError ("Transaction failed: " +:+ sr_error result));;
  mret (sr_hash result).

Definition SINGLE_FN : string := "delegate_by_sig".
Definition BATCH_FN : string := "delegate_batch_by_sig".
(** From the keypair to the hash, in the two routes. *)
Definition submit_single (permit : PermitInput) (signature : string) : M Net string :=
  '(_, key) ← getRelayerKeypair;
  entry ← parse_auth signature;
  address ← from_outcome (sc_address key);
  arg ← permitToScVal permit;
  submitInvocation SINGLE_FN [address; arg] [entry].
Definition submit_batch (permits : list PermitInput) (signatures : list string) : M Net string :=
  '(_, key) ← getRelayerKeypair;
  entries ← map_m parse_auth signatures;
  items ← map_m permitToScVal permits;
  permitsScVal ← from_outcome (sc_vec items);
  address ← from_outcome (sc_address key);
  submitInvocation BATCH_FN [address; permitsScVal] entries.
End submit.

(** ** Requests *)
Record LogRow := mkLogRow { lr_delegator : string; lr_delegatee : string; lr_nonce : Z; lr_tx_hash : string; lr_created_at : Z }.

Inductive Answer :=
  | Invalid
  | BadRequest (text : string)
  | TooMany (text : string)
  | Relayed (txHash : string) (nonce : Z)
  | RelayedBatch (txHash : string) (nonces : list Z)
  | ServerError (text : string).

(** Where a transaction is: [await]ing a lock, a count, the submission or an
    INSERT; [todo] is what is left of the loop it is in, [buffer] the rows it has
    inserted. *)
Inductive Phase :=
  | Locking (todo : list string)
  | Counting (todo : list PermitInput) (pendingCounts : gmap string Z)
  | Submitting
  | Logging (txHash : string) (todo : list PermitInput) (buffer : list LogRow)
  | Done (answer : Answer).
(** [rq_start] is the [NOW()] of its transaction. *)
Record Request := mkRequest {
  rq_batch : bool; rq_permits : list PermitInput; rq_signatures : list string; rq_start : Z; rq_phase : Phase }.
#[export] Instance Request_eta : Eta Request := λ r,
  mkRequest (rq_batch r) (rq_permits r) (rq_signatures r) (rq_start r) (rq_phase r).

(** [rl_locks] are the advisory locks and who holds them; [rl_sent] lists what
    the network took, with the hash. *)
Record RelayerState (Net : Type) := mkRelayer {
  rl_log : list LogRow; rl_locks : gmap Z nat; rl_requests : gmap nat Request; rl_clock : Z;
  rl_sent : list (list PermitInput * string); rl_net : Net }.
Arguments mkRelayer {Net} _ _ _ _ _ _.
Arguments rl_log {Net} _.
Arguments rl_locks {Net} _.
Arguments rl_requests {Net} _.
Arguments rl_clock {Net} _.
Arguments rl_sent {Net} _.
Arguments rl_net {Net} _.
#[export] Instance RelayerState_eta {Net} : Eta (RelayerState Net) := λ s,
  mkRelayer (rl_log s) (rl_locks s) (rl_requests s) (rl_clock s) (rl_sent s) (rl_net s).

(** [new Set(l)], by first occurrence *)
Definition js_set (l : list string) : list string :=
  foldl (λ acc x, if bool_decide (x ∈ acc) then acc else acc ++ [x]) [] l.
Definition uniqueDelegators (permits : list PermitInput) : list string :=
  sort_by id (js_set (pm_delegator <$> permits)).
Arguments uniqueDelegators _ : simpl never.

(** ** Statements *)
Definition day_ms : Z := 86400000.
Definition relayedPermitCountToday (delegator : string) (now : Z) (log : list LogRow) : Z :=
  Z.of_nat (length (base.filter (λ r, lr_delegator r = delegator ∧ now - day_ms < lr_created_at r) log)).
(** [count >= RELAYER_DAILY_PERMIT_LIMIT]; a limit that is no number never holds. *)
Definition limit_reached (limit : number) (count : Z) : bool :=
  match limit with Int n => n <=? count | Infinite negative => negative | NaN => false end.
(** [ON CONFLICT (delegator, nonce) DO NOTHING], against the table and what the
    transaction itself has inserted. *)
Definition has_row (permit : PermitInput) (rows : list LogRow) : bool :=
  existsb (λ r, String.eqb (lr_delegator r) (pm_delegator permit) && (lr_nonce r =? pm_nonce permit)) rows.
Definition logRelayedPermit (permit : PermitInput) (txHash : string) (now : Z) (log buffer : list LogRow) : list LogRow :=
  if has_row permit log || has_row permit buffer then buffer
  else buffer ++ [mkLogRow (pm_delegator permit) (pm_delegatee permit) (pm_nonce permit) txHash now].

(** [Number(permit.nonce) + 1] *)
Definition next_nonce (permit : PermitInput) : Z := num_add (to_number (pm_nonce permit)) 1.

Section relayer.
Context `{!RelayerNet Net ScVal} (hashtextextended : string → Z) (env : RelayerEnv).
Implicit Types (s : RelayerState Net) (r : Request).

(** *** Arrival *)
Definition delegate_request (body : JsValue) (now : Z) : Answer + Request :=
  match delegateSchema body with
  | None => inl Invalid
  | Some (permit, signature) =>
    if negb (isWellFormedAuthEntry signature (pm_delegator permit)) then
      inl (BadRequest "Malformed authorization signature or delegator mismatch")
    else inr (mkRequest false [permit] [signature] now (Locking [pm_delegator permit]))
  end.
Definition batch_request (body : JsValue) (now : Z) : Answer + Request :=
  match batchDelegateSchema body with
  | None => inl Invalid
  | Some (permits, signatures) =>
    if negb (length permits =? length signatures)%nat then
      inl (BadRequest "permits and signatures must have the same length")
    else if negb (forallb (λ '(signature, permit), isWellFormedAuthEntry signature (pm_delegator permit)) (zip signatures permits)) then
      inl (BadRequest "Malformed authorization signature or delegator mismatch")
    else inr (mkRequest true permits signatures now (Locking (uniqueDelegators permits)))
  end.

(** *** One statement of a transaction *)
Definition set_request (i : nat) (r : Request) s : RelayerState Net := s <| rl_requests ::= <[i := r]> |>.
Definition set_phase (i : nat) (r : Request) (p : Phase) s : RelayerState Net := set_request i (r <| rq_phase := p |>) s.
(** COMMIT and ROLLBACK release the locks. *)
Definition release (i : nat) s : RelayerState Net := s <| rl_locks ::= base.filter (λ kv, kv.2 ≠ i) |>.
Definition rollback (i : nat) (r : Request) (answer : Answer) s : RelayerState Net := release i (set_phase i r (Done answer) s).
Definition commit (i : nat) (r : Request) (buffer : list LogRow) (answer : Answer) s : RelayerState Net :=
  (rollback i r answer s) <| rl_log ::= (λ l, l ++ buffer) |>.

(** [pg_advisory_xact_lock]: [None] waits.  A transaction that holds the lock
    gets it again. *)
Definition lockDelegator (i : nat) (delegator : string) s : option (RelayerState Net) :=
  let key := hashtextextended delegator in
  match rl_locks s !! key with
  | Some j => if (j =? i)%nat then Some s else None
  | None => Some (s <| rl_locks ::= <[key := i]> |>)
  end.

Definition submit (r : Request) : M Net string :=
  match rq_batch r, rq_permits r, rq_signatures r with
  | false, [permit], [signature] => submit_single env permit signature
  | _, permits, signatures => submit_batch env permits signatures
  end.
Definition limit_answer (r : Request) (permit : PermitInput) : Answer :=
  TooMany (if rq_batch r then "Relayer daily permit limit reached for " +:+ pm_delegator permit
           else "Relayer daily permit limit reached for this address").
Definition error_answer (r : Request) (e : JsError) : Answer :=
  match extractContractErrorMessage e with
  | Some text => BadRequest text
  | None => ServerError (if rq_batch r then "Failed to submit batch delegation" else "Failed to submit delegation")
  end.
Definition sent_answer (r : Request) (txHash : string) : Answer :=
  match rq_batch r, rq_permits r with
  | false, [permit] => Relayed txHash (next_nonce permit)
  | _, permits => RelayedBatch txHash (next_nonce <$> permits)
  end.

Definition count_permit (i : nat) (r : Request) (permit : PermitInput) (todo : list PermitInput) (pendingCounts : gmap string Z) s :
    RelayerState Net :=
  let count := match pendingCounts !! pm_delegator permit with
               | Some count => count
               | None => relayedPermitCountToday (pm_delegator permit) (rq_start r) (rl_log s)
               end in
  if limit_reached (RELAYER_DAILY_PERMIT_LIMIT env) count then rollback i r (limit_answer r permit) s
  else set_phase i r (Counting todo (<[pm_delegator permit := count + 1]> pendingCounts)) s.
Definition submit_permits (i : nat) (r : Request) s : RelayerState Net :=
  match submit r (rl_net s) with
  | (Ok txHash, n) =>
    (set_phase i r (Logging txHash (rq_permits r) []) s) <| rl_sent ::= (λ l, l ++ [(rq_permits r, txHash)]) |> <| rl_net := n |>
  | (Throw e, n) => (rollback i r (error_answer r e) s) <| rl_net := n |>
  end.
Definition advance_request (i : nat) (r : Request) s : option (RelayerState Net) :=
  match rq_phase r with
  | Locking (delegator :: todo) => s ← lockDelegator i delegator s; Some (set_phase i r (Locking todo) s)
  | Locking [] => Some (set_phase i r (Counting (rq_permits r) ∅) s)
  | Counting (permit :: todo) pendingCounts => Some (count_permit i r permit todo pendingCounts s)
  | Counting [] _ => Some (set_phase i r Submitting s)
  | Submitting => Some (submit_permits i r s)
  | Logging txHash (permit :: todo) buffer =>
    Some (set_phase i r (Logging txHash todo (logRelayedPermit permit txHash (rq_start r) (rl_log s) buffer)) s)
  | Logging txHash [] buffer => Some (commit i r buffer (sent_answer r txHash) s)
  | Done _ => None
  end.
Definition advance (i : nat) s : option (RelayerState Net) :=
  r ← rl_requests s !! i; advance_request i r s.

(** *** Histories *)
Definition running (p : Phase) : bool := match p with Done _ => false | _ => true end.
(** A request may also lose its connection; the chain moves on its own. *)
Inductive step : RelayerState Net → RelayerState Net → Prop :=
  | delegate_step i body r s : rl_requests s !! i = None → delegate_request body (rl_clock s) = inr r → step s (set_request i r s)
  | batch_step i body r s : rl_requests s !! i = None → batch_request body (rl_clock s) = inr r → step s (set_request i r s)
  | advance_step i s s' : advance i s = Some s' → step s s'
  | lost_step i r e s : rl_requests s !! i = Some r → running (rq_phase r) → step s (rollback i r (error_answer r e) s)
  | clock_step t s : rl_clock s ≤ t → step s (s <| rl_clock := t |>)
  | net_step n s : step s (s <| rl_net := n |>).
Definition relayer_init (n : Net) : RelayerState Net := mkRelayer [] ∅ ∅ 0 [] n.
End relayer.

(** ** A relayer for the examples

    A network that takes every transaction, two accounts and their requests. *)
Module RelayerExample.
(** The network's state is the sequence number of the relayer; a signature is
    the address that signs. *)
#[export] Instance net : RelayerNet Z string := {|
  PUBLIC := "public"; TESTNET := "testnet"; FUTURENET := "futurenet";
  sc_address := Ok; sc_struct := λ fields, Ok (String.concat "," fields.*1); sc_vec := λ l, Ok (String.concat ";" l);
  authFromXDR := λ s, Some (mkAuthEntry "sorobanCredentialsAddress" s s);
  fromSecret := Ok; connect := λ _, Ok tt;
  getAccount := λ _ n, (Ok n, n); prepareTransaction := mret;
  signAndSend := λ _ tx n, (Ok (mkSendResult "PENDING" ("tx" +:+ decimal (tx_sequence tx)) ""), tx_sequence tx) |}.
Definition env : RelayerEnv := mkRelayerEnv (Some "relayer") None None (Some "votes") (Int 1).
Fixpoint repeat_char (c : Ascii.ascii) (n : nat) : string := match n with O => EmptyString | S n => String c (repeat_char c n) end.
Definition account (c : Ascii.ascii) : string := String (Ascii.ascii_of_N 71) (repeat_char c 55).
Definition alice : string := Eval vm_compute in account (Ascii.ascii_of_N 65).
Definition bob : string := Eval vm_compute in account (Ascii.ascii_of_N 66).
(** A lock number for each text. *)
Fixpoint text_number (s : string) : Z :=
  match s with EmptyString => 0 | String c s => 1 + Z.of_N (Ascii.N_of_ascii c) + 257 * text_number s end.

Definition permit_body (delegator delegatee : string) (nonce : Z) : JsValue :=
  VObj [("delegator", VStr delegator); ("delegatee", VStr delegatee); ("nonce", VStr (decimal nonce));
        ("expiryLedger", VNum 1000); ("chainId", VStr "AAAA"); ("contractId", VStr bob)].
Definition single_body (delegator delegatee : string) (nonce : Z) : JsValue :=
  VObj [("permit", permit_body delegator delegatee nonce); ("signature", VStr delegator)].
Definition batch_body (delegators : list string) : JsValue :=
  VObj [("permits", VArr ((λ d, permit_body d alice 0) <$> delegators)); ("signatures", VArr (VStr <$> delegators))].

(** Several statements of a request. *)
Fixpoint run (n : nat) (i : nat) (s : RelayerState Z) : option (RelayerState Z) :=
  match n with O => Some s | S n => s ← advance text_number env i s; run n i s end.
Lemma run_steps n i s s' : run n i s = Some s' → rtc (step text_number env) s s'.
Proof.
  revert s. induction n as [|n IH]; intros s; cbn; [by intros [= ->]|].
  destruct (advance text_number env i s) as [s1|] eqn:Ha; cbn; [|done]. intros Hrun.
  eapply rtc_l; [by eapply advance_step|]. by apply IH.
Qed.
Definition arrive (i : nat) (made : Answer + Request) (s : RelayerState Z) : RelayerState Z :=
  match made with inr r => set_request i r s | inl _ => s end.
(** Alice's permit, one statement short of its answer *)
Definition alice_waits : RelayerState Z := arrive 1 (delegate_request (single_body alice bob 0) 0) (relayer_init 0).
(** and a batch for both, locking. *)
Definition two_requests : RelayerState Z := arrive 2 (batch_request (batch_body [bob; alice]) 0) alice_waits.
Definition alice_done : RelayerState Z := default alice_waits (run 7 1 two_requests).

Lemma two_requests_reachable : rtc (step text_number env) (relayer_init 0) two_requests.
Proof.
  apply rtc_l with alice_waits; [eapply (delegate_step _ _ 1 (single_body alice bob 0)); [done|by vm_compute]|].
  apply rtc_once. eapply (batch_step _ _ 2 (batch_body [bob; alice])); [done|by vm_compute].
Qed.
Lemma alice_done_reachable : rtc (step text_number env) (relayer_init 0) alice_done.
Proof. transitivity two_requests; [exact two_requests_reachable|]. apply (run_steps 7 1). by vm_compute. Qed.
Lemma alice_is_logged : rl_log alice_done = [mkLogRow alice bob 0 "tx1" 0].
Proof. by vm_compute. Qed.
(** Alice has used up her day; the batch is refused for her. *)
Lemma batch_refused :
  match run 5 2 alice_done with Some s => rq_phase <$> rl_requests s !! 2%nat | None => None end =
  Some (Done (TooMany ("Relayer daily permit limit reached for " +:+ alice))).
Proof. by vm_compute. Qed.
End RelayerExample.
