(* ===== verification/RelayerSafety.v ===== *)
(** * The relayer: safety

    Theorems about [Relayer]: however requests are interleaved, what is logged
    for a delegator in a day stays within the limit. *)

From stdpp Require Import sorting.
From S2P Require Import Prelude JsValues Doubles AddressOrder SdkTypes Relayer.
Open Scope Z_scope.

(** ** Counting rows *)
Lemma length_filter_le {A} (P Q : A → Prop) `{!∀ x, Decision (P x)} `{!∀ x, Decision (Q x)} (l : list A) :
  (∀ x, x ∈ l → P x → Q x) → (length (base.filter P l) ≤ length (base.filter Q l))%nat.
Proof.
  induction l as [|x l IH]; intros HPQ; [done|]. rewrite !filter_cons.
  assert (length (base.filter P l) ≤ length (base.filter Q l))%nat by (apply IH; intros y Hy; apply HPQ; by right).
  pose proof (HPQ x ltac:(left)). destruct (decide (P x)), (decide (Q x)); cbn; [lia|tauto|lia|lia].
Qed.
Lemma length_filter_none {A} (P : A → Prop) `{!∀ x, Decision (P x)} (l : list A) :
  (∀ x, x ∈ l → ¬ P x) → length (base.filter P l) = 0%nat.
Proof.
  induction l as [|x l IH]; intros HP; [done|]. rewrite filter_cons_False by (apply HP; left).
  apply IH. intros y Hy. apply HP. by right.
Qed.

Definition window_rows (d : string) (w : Z) (log : list LogRow) : Z :=
  Z.of_nat (length (base.filter (λ r, lr_delegator r = d ∧ w < lr_created_at r ≤ w + day_ms) log)).
Definition permits_of (d : string) (permits : list PermitInput) : Z :=
  Z.of_nat (length (base.filter (λ p, pm_delegator p = d) permits)).
Definition rows_of (d : string) (rows : list LogRow) : Z :=
  Z.of_nat (length (base.filter (λ r, lr_delegator r = d) rows)).
Definition delegators (permits : list PermitInput) : list string := pm_delegator <$> permits.
#[local] Abbreviation count := relayedPermitCountToday.

Lemma permits_of_app d l1 l2 : permits_of d (l1 ++ l2) = permits_of d l1 + permits_of d l2.
Proof. unfold permits_of. rewrite filter_app, length_app. lia. Qed.
Lemma permits_of_one d p : permits_of d [p] = if decide (pm_delegator p = d) then 1 else 0.
Proof. unfold permits_of. rewrite filter_cons, filter_nil. by destruct (decide _). Qed.
Lemma permits_of_none d permits : d ∉ delegators permits → permits_of d permits = 0.
Proof.
  intros Hd. unfold permits_of. rewrite length_filter_none; [done|]. intros p Hp <-. apply Hd. by apply list_elem_of_fmap_2.
Qed.
Lemma rows_of_app d l1 l2 : rows_of d (l1 ++ l2) = rows_of d l1 + rows_of d l2.
Proof. unfold rows_of. rewrite filter_app, length_app. lia. Qed.
Lemma count_app d t l1 l2 : rows_of d l2 = 0 → count d t (l1 ++ l2) = count d t l1.
Proof.
  intros Hd. unfold relayedPermitCountToday, rows_of in *. rewrite filter_app, length_app.
  enough (length (base.filter (λ r, lr_delegator r = d ∧ t - day_ms < lr_created_at r) l2) = 0%nat) by lia.
  pose proof (length_filter_le (λ r, lr_delegator r = d ∧ t - day_ms < lr_created_at r) (λ r, lr_delegator r = d) l2
    ltac:(by intros ? _ [])). lia.
Qed.
(** A window that contains [t] holds no more than was counted at [t]. *)
Lemma window_counted d w t log : w < t ≤ w + day_ms → window_rows d w log ≤ count d t log.
Proof.
  intros Ht. unfold window_rows, relayedPermitCountToday.
  apply Nat2Z.inj_le, length_filter_le. intros r _ [Hr Hw]. split; [done|lia].
Qed.
Lemma window_app d w l1 l2 : window_rows d w (l1 ++ l2) = window_rows d w l1 + window_rows d w l2.
Proof. unfold window_rows. rewrite filter_app, length_app. lia. Qed.
Lemma window_at d w t rows : Forall (λ r, lr_created_at r = t) rows →
  window_rows d w rows = if decide (w < t ≤ w + day_ms) then rows_of d rows else 0.
Proof.
  intros Hrows. rewrite Forall_forall in Hrows. unfold window_rows, rows_of. destruct (decide _) as [Ht|Ht].
  - f_equal. apply Nat.le_antisymm; apply length_filter_le; intros r Hr; [tauto|]. by rewrite (Hrows r Hr).
  - rewrite length_filter_none; [done|]. intros r Hr [_ Hw]. by rewrite (Hrows r Hr) in Hw.
Qed.

(** ** The set of delegators *)
Lemma js_set_from (l acc : list string) x : x ∈ foldl (λ acc x, if bool_decide (x ∈ acc) then acc else acc ++ [x]) acc l ↔ x ∈ acc ∨ x ∈ l.
Proof.
  revert acc. induction l as [|y l IH]; intros acc; cbn [foldl]; [set_solver|]. rewrite IH.
  case_bool_decide; set_solver.
Qed.
Lemma js_set_nodup l : NoDup (js_set l).
Proof.
  unfold js_set. assert (∀ acc : list string, NoDup acc → NoDup (foldl (λ acc x, if bool_decide (x ∈ acc) then acc else acc ++ [x]) acc l)) as H.
  { induction l as [|y l IH]; intros acc Hacc; cbn [foldl]; [done|]. apply IH. case_bool_decide; [done|].
    apply NoDup_app. split_and!; [done|set_solver|apply NoDup_singleton]. }
  apply H. constructor.
Qed.
Lemma unique_elem d permits : d ∈ uniqueDelegators permits ↔ d ∈ delegators permits.
Proof. unfold uniqueDelegators, js_set. rewrite (sort_by_perm id), js_set_from. set_solver. Qed.
Lemma unique_sorted permits : Sorted (sorted_before id) (uniqueDelegators permits).
Proof. apply sort_by_sorted. rewrite list_fmap_id. apply js_set_nodup. Qed.
Lemma unique_nodup permits : NoDup (uniqueDelegators permits).
Proof. unfold uniqueDelegators. rewrite (sort_by_perm id). apply js_set_nodup. Qed.

(** ** The invariant *)
Section safety.
Context `{!RelayerNet Net ScVal} (key : string → Z) (env : RelayerEnv) (L : Z).
Hypothesis limit_is : RELAYER_DAILY_PERMIT_LIMIT env = Int L.
Implicit Types (s : RelayerState Net) (r : Request).

(** The delegators a request has locked. *)
Definition owns (r : Request) (d : string) : Prop :=
  match rq_phase r with
  | Locking todo => d ∈ uniqueDelegators (rq_permits r) ∧ d ∉ todo
  | Done _ => False
  | _ => d ∈ delegators (rq_permits r)
  end.
Definition row_key (r : LogRow) : string * Z := (lr_delegator r, lr_nonce r).
Definition row_of_permit (p : PermitInput) (r : LogRow) : Prop :=
  lr_delegator r = pm_delegator p ∧ lr_delegatee r = pm_delegatee p ∧ lr_nonce r = pm_nonce p.
Definition within (log : list LogRow) (r : Request) : Prop :=
  ∀ d, d ∈ delegators (rq_permits r) → count d (rq_start r) log + permits_of d (rq_permits r) ≤ L.
Record buffer_ok (log : list LogRow) (r : Request) (txHash : string) (logged : list PermitInput) (buffer : list LogRow) : Prop := {
  bo_rows : Forall (λ x, lr_created_at x = rq_start r ∧ lr_tx_hash x = txHash ∧
                         ∃ p, p ∈ rq_permits r ∧ row_of_permit p x) buffer;
  bo_counts d : rows_of d buffer ≤ permits_of d logged;
  bo_keys : NoDup (row_key <$> log ++ buffer) }.
Definition phase_ok (log : list LogRow) (sent : list (list PermitInput * string)) (r : Request) : Prop :=
  match rq_phase r with
  | Locking todo => ∃ held, uniqueDelegators (rq_permits r) = held ++ todo
  | Counting todo pendingCounts => ∃ counted, rq_permits r = counted ++ todo ∧ ∀ d,
      if decide (d ∈ delegators counted) then
        pendingCounts !! d = Some (count d (rq_start r) log + permits_of d counted) ∧
        count d (rq_start r) log + permits_of d counted ≤ L
      else pendingCounts !! d = None
  | Submitting => within log r
  | Logging txHash todo buffer => within log r ∧ (rq_permits r, txHash) ∈ sent ∧
      ∃ logged, rq_permits r = logged ++ todo ∧ buffer_ok log r txHash logged buffer
  | Done _ => True
  end.
Record request_ok s (i : nat) (r : Request) : Prop := {
  ro_locks d : owns r d → rl_locks s !! key d = Some i;
  ro_phase : phase_ok (rl_log s) (rl_sent s) r }.
Record log_ok (log : list LogRow) (sent : list (list PermitInput * string)) : Prop := {
  lo_window d w : window_rows d w log ≤ Z.max 0 L;
  lo_keys : NoDup (row_key <$> log);
  lo_sent : Forall (λ x, ∃ permits p, (permits, lr_tx_hash x) ∈ sent ∧ p ∈ permits ∧ row_of_permit p x) log }.
Record relayer_ok s : Prop := {
  rk_requests i r : rl_requests s !! i = Some r → request_ok s i r;
  rk_locks k i : rl_locks s !! k = Some i → ∃ r d, rl_requests s !! i = Some r ∧ owns r d ∧ key d = k;
  rk_log : log_ok (rl_log s) (rl_sent s) }.

Lemma rows_of_none d rows (x : LogRow) : rows_of d rows = 0 → x ∈ rows → lr_delegator x ≠ d.
Proof.
  unfold rows_of. intros Hnone Hx <-. assert (x ∈ base.filter (λ y : LogRow, lr_delegator y = lr_delegator x) rows) as Hin
    by by apply list_elem_of_filter. by destruct (base.filter _ rows); [apply elem_of_nil in Hin|].
Qed.
(** A request keeps its invariant when rows of other delegators are added. *)
Lemma request_frame s s' i r extra :
  request_ok s i r →
  (∀ d, owns r d → rl_locks s' !! key d = Some i) →
  rl_log s' = rl_log s ++ extra → NoDup (row_key <$> rl_log s') → (∀ d, owns r d → rows_of d extra = 0) →
  rl_sent s ⊆ rl_sent s' →
  request_ok s' i r.
Proof.
  intros [Hlocks Hphase] Hlocks' Hlog Hnd Hextra Hsent. constructor; [done|]. rewrite Hlog in *.
  unfold phase_ok, owns, within in *. destruct (rq_phase r) as [todo|todo pending| |h todo buffer|a]; [done| | | |done].
  - destruct Hphase as (counted & Hcounted & Hpending). exists counted. split; [done|]. intros d. specialize (Hpending d).
    destruct (decide _) as [Hd|]; [|done]. rewrite count_app; [done|]. apply Hextra. rewrite Hcounted.
    unfold delegators in *. rewrite fmap_app. set_solver.
  - intros d Hd. rewrite count_app by auto. auto.
  - destruct Hphase as (Hw & Hs & logged & Hlogged & [Hrows Hcounts Hkeys]). split_and!; [|set_solver|].
    + intros d Hd. rewrite count_app by auto. auto.
    + exists logged. split; [done|]. constructor; [done|done|].
      rewrite fmap_app in Hkeys |- *. apply NoDup_app in Hkeys as (_ & Hold & Hbuf).
      apply NoDup_app. split_and!; [done| |done]. intros k. rewrite fmap_app. intros [Hk|Hk]%elem_of_app; [by apply Hold|].
      intros (x & -> & Hx)%list_elem_of_fmap. apply list_elem_of_fmap in Hk as (y & Hxy & Hy).
      rewrite Forall_forall in Hrows. destruct (Hrows x Hx) as (_ & _ & p & Hp & Hrow & _).
      apply (rows_of_none (lr_delegator x) extra y); [|done|unfold row_key in Hxy; congruence].
      apply Hextra. rewrite Hrow. by apply list_elem_of_fmap_2.
Qed.
(** One request changes; the others keep what they have. *)
Lemma step_frame s s' i r' extra :
  relayer_ok s → rl_requests s' = <[i := r']> (rl_requests s) →
  rl_log s' = rl_log s ++ extra →
  (∀ x, x ∈ extra → ∃ r, rl_requests s !! i = Some r ∧ owns r (lr_delegator x)) →
  rl_sent s ⊆ rl_sent s' →
  (∀ k j, j ≠ i → rl_locks s' !! k = Some j ↔ rl_locks s !! k = Some j) →
  (∀ k, rl_locks s' !! k = Some i → ∃ d, owns r' d ∧ key d = k) →
  request_ok s' i r' → log_ok (rl_log s') (rl_sent s') →
  relayer_ok s'.
Proof.
  intros [Hreq Hlocks Hlog] Hr' Hl' Hextra Hsent Hother Hmine Hok Hlog'. constructor; [| |done].
  - intros j r. rewrite Hr'. destruct (decide (i = j)) as [<-|Hj]; [rewrite lookup_insert_eq; congruence|].
    rewrite lookup_insert_ne by done. intros Hr. pose proof (Hreq j r Hr) as Hjok.
    apply (request_frame s s' j r extra); [done| |done|by destruct Hlog'| |done].
    + intros d Hd. apply Hother; [done|]. by apply (ro_locks _ _ _ Hjok).
    + intros d Hd. unfold rows_of. rewrite length_filter_none; [done|]. intros x Hx <-.
      destruct (Hextra x Hx) as (r0 & Hr0 & Howns).
      pose proof (ro_locks _ _ _ (Hreq i r0 Hr0) _ Howns). pose proof (ro_locks _ _ _ Hjok _ Hd). congruence.
  - intros k j Hk. rewrite Hr'. destruct (decide (i = j)) as [<-|Hj].
    + rewrite lookup_insert_eq. destruct (Hmine k Hk) as (d & Hd & Hkey). eauto.
    + rewrite lookup_insert_ne by done. apply Hlocks, Hother; [congruence|done].
Qed.
(** A request moves on in its own transaction and keeps its locks. *)
Lemma phase_step s i r p :
  relayer_ok s → rl_requests s !! i = Some r → (∀ d, owns (r <| rq_phase := p |>) d ↔ owns r d) →
  phase_ok (rl_log s) (rl_sent s) (r <| rq_phase := p |>) → relayer_ok (set_phase i r p s).
Proof.
  intros Hok Hr Howns Hp. pose proof (rk_requests _ Hok i r Hr) as Hri.
  apply (step_frame s _ i (r <| rq_phase := p |>) []); try done.
  - cbn. by rewrite app_nil_r.
  - intros x Hx. by apply elem_of_nil in Hx.
  - intros k Hk. destruct (rk_locks _ Hok k i Hk) as (r0 & d & Hr0 & Hd & <-). simplify_eq.
    exists d. split; [by apply Howns|done].
  - constructor; [|done]. intros d Hd. apply (ro_locks _ _ _ Hri). by apply Howns.
  - apply Hok.
Qed.
(** A transaction ends, and adds the rows it has inserted. *)
Lemma end_ok s s' i r a extra :
  relayer_ok s → rl_requests s !! i = Some r →
  rl_requests s' = <[i := r <| rq_phase := Done a |>]> (rl_requests s) →
  rl_locks s' = base.filter (λ kv, kv.2 ≠ i) (rl_locks s) → rl_sent s' = rl_sent s →
  rl_log s' = rl_log s ++ extra → (∀ x, x ∈ extra → owns r (lr_delegator x)) →
  log_ok (rl_log s') (rl_sent s') → relayer_ok s'.
Proof.
  intros Hok Hr Hr' Hl' Hs' Hlog' Hextra Hlog.
  apply (step_frame s s' i (r <| rq_phase := Done a |>) extra); try done.
  - eauto.
  - by rewrite Hs'.
  - intros k j Hj. rewrite Hl', map_lookup_filter_Some. naive_solver.
  - intros k. rewrite Hl', map_lookup_filter_Some. naive_solver.
Qed.
Lemma rollback_ok s i r a n :
  relayer_ok s → rl_requests s !! i = Some r → relayer_ok ((rollback i r a s) <| rl_net := n |>).
Proof.
  intros Hok Hr. apply (end_ok s _ i r a []); try done.
  - cbn. by rewrite app_nil_r.
  - intros x Hx. by apply elem_of_nil in Hx.
  - apply Hok.
Qed.
(** *** Each statement *)
Lemma lock_ok s i r d todo s1 :
  relayer_ok s → rl_requests s !! i = Some r → rq_phase r = Locking (d :: todo) → lockDelegator key i d s = Some s1 →
  relayer_ok (set_phase i r (Locking todo) s1).
Proof.
  intros Hok Hr Hp Hlock. pose proof (rk_requests _ Hok i r Hr) as [Hheld Hph]. unfold phase_ok in Hph. rewrite Hp in Hph.
  destruct Hph as (held & Hun). assert (NoDup (held ++ d :: todo)) as Hnd by (rewrite <- Hun; apply unique_nodup).
  apply NoDup_app in Hnd as (_ & Hdisj & Hnd). apply NoDup_cons in Hnd as [Hd _].
  assert (∀ x, owns (r <| rq_phase := Locking todo |>) x ↔ owns r x ∨ x = d) as Howns.
  { intros x. unfold owns. cbn. rewrite Hp, Hun, elem_of_app, elem_of_cons.
    destruct (decide (x = d)) as [->|]; naive_solver. }
  assert (rl_log s1 = rl_log s ∧ rl_sent s1 = rl_sent s ∧ rl_requests s1 = rl_requests s ∧
    rl_locks s1 = <[key d := i]> (rl_locks s) ∧ (rl_locks s !! key d = None ∨ rl_locks s !! key d = Some i)) as (Hlog & Hsent & Hreq & Hl & Hfree).
  { unfold lockDelegator in Hlock. destruct (rl_locks s !! key d) as [j|] eqn:Hj; [|injection Hlock as <-; split_and!; by auto].
    destruct (Nat.eqb_spec j i) as [->|]; [|done]. injection Hlock as <-. split_and!; [done..| |by auto]. by rewrite insert_id. }
  apply (step_frame s _ i (r <| rq_phase := Locking todo |>) []); cbn; rewrite ?Hlog, ?Hsent, ?Hreq, ?app_nil_r; try done.
  - intros x Hx. by apply elem_of_nil in Hx.
  - intros k j Hj. rewrite Hl. destruct (decide (key d = k)) as [<-|Hk]; [|by rewrite lookup_insert_ne].
    rewrite lookup_insert_eq. naive_solver.
  - intros k. rewrite Hl. destruct (decide (key d = k)) as [<-|Hk]; [exists d; split; [apply Howns; by right|done]|].
    rewrite lookup_insert_ne by done. intros Hk'. destruct (rk_locks _ Hok k i Hk') as (r0 & x & Hr0 & Hx & <-).
    simplify_eq. exists x. split; [apply Howns; by left|done].
  - constructor; cbn; [|unfold phase_ok; cbn; exists (held ++ [d]); by rewrite <- app_assoc].
    intros x [Hx| ->]%Howns; rewrite Hl; [|by rewrite lookup_insert_eq].
    destruct (decide (key d = key x)) as [->|]; [by rewrite lookup_insert_eq|]. rewrite lookup_insert_ne by done. auto.
  - apply Hok.
Qed.

Lemma count_permit_ok s i r p todo pending :
  relayer_ok s → rl_requests s !! i = Some r → rq_phase r = Counting (p :: todo) pending →
  relayer_ok (count_permit env i r p todo pending s).
Proof.
  intros Hok Hr Hp. pose proof (rk_requests _ Hok i r Hr) as [_ Hph]. unfold phase_ok in Hph. rewrite Hp in Hph.
  destruct Hph as (counted & Hcounted & Hpending). unfold count_permit.
  set (c := match pending !! pm_delegator p with Some c => c | None => _ end).
  assert (c = count (pm_delegator p) (rq_start r) (rl_log s) + permits_of (pm_delegator p) counted) as Hc.
  { unfold c. specialize (Hpending (pm_delegator p)). destruct (decide _) as [Hd|Hd].
    - by destruct Hpending as [-> _].
    - rewrite Hpending. rewrite (permits_of_none _ counted) by done. lia. }
  clearbody c. rewrite limit_is. cbn [limit_reached].
  destruct (L <=? c) eqn:Hle; [exact (rollback_ok s i r _ (rl_net s) Hok Hr)|]. apply Z.leb_gt in Hle.
  apply phase_step; [done|done|unfold owns; cbn; by rewrite Hp|]. unfold phase_ok. cbn. exists (counted ++ [p]).
  split; [by rewrite <- app_assoc|]. intros d. specialize (Hpending d). rewrite permits_of_app, permits_of_one.
  unfold delegators in *. rewrite fmap_app. cbn [fmap list_fmap].
  destruct (decide (pm_delegator p = d)) as [<-|Hd].
  - rewrite decide_True by set_solver. rewrite lookup_insert_eq. split; [f_equal|]; lia.
  - rewrite lookup_insert_ne, Z.add_0_r by done. destruct (decide (d ∈ pm_delegator <$> counted)).
    + by rewrite decide_True by set_solver.
    + by rewrite decide_False by set_solver.
Qed.
Lemma counted_within s i r pending :
  relayer_ok s → rl_requests s !! i = Some r → rq_phase r = Counting [] pending → within (rl_log s) r.
Proof.
  intros Hok Hr Hp. pose proof (rk_requests _ Hok i r Hr) as [_ Hph]. unfold phase_ok in Hph. rewrite Hp in Hph.
  destruct Hph as (counted & Hcounted & Hpending). rewrite app_nil_r in Hcounted. subst counted.
  intros d Hd. specialize (Hpending d). rewrite decide_True in Hpending by done. tauto.
Qed.
Lemma log_ok_sent log sent sent' : log_ok log sent → sent ⊆ sent' → log_ok log sent'.
Proof.
  intros [Hw Hk Hs] Hsub. constructor; [done|done|]. eapply Forall_impl; [exact Hs|]. cbn. intros x (ps & p & Hps & Hx).
  exists ps, p. split; [by apply Hsub|done].
Qed.
Lemma submit_permits_ok s i r :
  relayer_ok s → rl_requests s !! i = Some r → rq_phase r = Submitting → relayer_ok (submit_permits env i r s).
Proof.
  intros Hok Hr Hp. pose proof (rk_requests _ Hok i r Hr) as [Hheld Hph]. unfold phase_ok in Hph. rewrite Hp in Hph.
  unfold submit_permits. destruct (submit env r (rl_net s)) as [[txHash|e] n]; [|by apply rollback_ok].
  assert (rl_sent s ⊆ rl_sent s ++ [(rq_permits r, txHash)]) as Hsub by set_solver.
  assert (∀ d, owns (r <| rq_phase := Logging txHash (rq_permits r) [] |>) d ↔ owns r d) as Howns by (unfold owns; cbn; by rewrite Hp).
  apply (step_frame s _ i (r <| rq_phase := Logging txHash (rq_permits r) [] |>) []); try done; cbn.
  - by rewrite app_nil_r.
  - intros x Hx. by apply elem_of_nil in Hx.
  - intros k Hk. destruct (rk_locks _ Hok k i Hk) as (r0 & d & Hr0 & Hd & <-). simplify_eq.
    exists d. split; [by apply Howns|done].
  - constructor; cbn; [intros d Hd; apply Hheld; by apply Howns|]. unfold phase_ok. cbn. split_and!; [done|set_solver|].
    exists []. split; [done|]. constructor; [constructor|done|]. rewrite app_nil_r. apply Hok.
  - apply (log_ok_sent _ (rl_sent s)); [apply Hok|done].
Qed.

Lemma has_row_spec p rows : has_row p rows = false → (pm_delegator p, pm_nonce p) ∉ row_key <$> rows.
Proof.
  intros Hno (x & Hx & Hin)%list_elem_of_fmap. unfold has_row in Hno. apply not_true_iff_false in Hno. apply Hno.
  apply existsb_exists. exists x. split; [by apply list_elem_of_In|]. injection Hx as -> ->.
  by rewrite String.eqb_refl, Z.eqb_refl.
Qed.
Lemma log_permit_ok s i r p todo txHash buffer :
  relayer_ok s → rl_requests s !! i = Some r → rq_phase r = Logging txHash (p :: todo) buffer →
  relayer_ok (set_phase i r (Logging txHash todo (logRelayedPermit p txHash (rq_start r) (rl_log s) buffer)) s).
Proof.
  intros Hok Hr Hp. pose proof (rk_requests _ Hok i r Hr) as [Hheld Hph]. unfold phase_ok in Hph. rewrite Hp in Hph.
  destruct Hph as (Hw & Hs & logged & Hlogged & [Hrows Hcounts Hkeys]).
  apply phase_step; [done|done|unfold owns; cbn; by rewrite Hp|]. unfold phase_ok. cbn. split_and!; [done..|].
  exists (logged ++ [p]). split; [by rewrite <- app_assoc|]. unfold logRelayedPermit.
  destruct (has_row p (rl_log s) || has_row p buffer) eqn:Hhas.
  - constructor; [done| |done]. intros d. rewrite permits_of_app, permits_of_one. specialize (Hcounts d). destruct (decide _); lia.
  - apply orb_false_iff in Hhas as [Hlog Hbuf]. apply has_row_spec in Hlog, Hbuf. constructor.
    + apply Forall_app. split; [done|]. apply Forall_singleton. cbn. split_and!; [done..|]. exists p.
      split; [rewrite Hlogged; set_solver|done].
    + intros d. rewrite rows_of_app, permits_of_app, permits_of_one. specialize (Hcounts d).
      unfold rows_of at 2. rewrite filter_cons, filter_nil. cbn [lr_delegator]. destruct (decide _); cbn [length]; lia.
    + rewrite app_assoc, fmap_app. apply NoDup_app. split_and!; [done| |apply NoDup_singleton].
      intros k Hk. cbn [fmap list_fmap]. rewrite list_elem_of_singleton. unfold row_key at 1. cbn. intros ->.
      rewrite fmap_app in Hk. apply elem_of_app in Hk as [Hk|Hk]; contradiction.
Qed.

Lemma commit_ok s i r txHash buffer a :
  relayer_ok s → rl_requests s !! i = Some r → rq_phase r = Logging txHash [] buffer → relayer_ok (commit i r buffer a s).
Proof.
  intros Hok Hr Hp. pose proof (rk_requests _ Hok i r Hr) as [Hheld Hph]. unfold phase_ok in Hph. rewrite Hp in Hph.
  destruct Hph as (Hw & Hs & logged & Hlogged & [Hrows Hcounts Hkeys]). rewrite app_nil_r in Hlogged. subst logged.
  assert (∀ x, x ∈ buffer → lr_delegator x ∈ delegators (rq_permits r)) as Hbuf.
  { rewrite Forall_forall in Hrows. intros x Hx. destruct (Hrows x Hx) as (_ & _ & p & Hpx & -> & _).
    by apply list_elem_of_fmap_2. }
  assert (Forall (λ x, lr_created_at x = rq_start r) buffer) as Hstart by (apply (Forall_impl _ _ _ Hrows); by intros ? []).
  apply (end_ok s _ i r a buffer); try done.
  { intros x Hx. unfold owns. rewrite Hp. auto. }
  destruct (rk_log _ Hok) as [Hwin Hk Hsent]. constructor; cbn; [|done|].
  - intros d w. specialize (Hwin d w). rewrite window_app, (window_at d w (rq_start r) buffer) by done.
    destruct (decide _) as [Ht|]; [|lia]. specialize (Hcounts d). pose proof (window_counted d w _ (rl_log s) Ht).
    destruct (decide (d ∈ delegators (rq_permits r))) as [Hd|Hd]; [specialize (Hw d Hd); lia|].
    rewrite (permits_of_none d) in Hcounts by done. lia.
  - apply Forall_app. split; [done|]. apply (Forall_impl _ _ _ Hrows). cbn. intros x (_ & -> & p & Hpx & Hrow). eauto.
Qed.

Lemma arrival_ok s i r :
  relayer_ok s → rl_requests s !! i = None → rq_phase r = Locking (uniqueDelegators (rq_permits r)) →
  relayer_ok (set_request i r s).
Proof.
  intros Hok Hi Hp. apply (step_frame s _ i r []); try done; cbn.
  - by rewrite app_nil_r.
  - intros x Hx. by apply elem_of_nil in Hx.
  - intros k Hk. destruct (rk_locks _ Hok k i Hk) as (r0 & d & Hr0 & _). congruence.
  - constructor; [unfold owns; rewrite Hp; tauto|]. unfold phase_ok. rewrite Hp. by exists [].
  - apply Hok.
Qed.
Lemma delegate_request_starts body now r : delegate_request body now = inr r → rq_phase r = Locking (uniqueDelegators (rq_permits r)).
Proof.
  unfold delegate_request. destruct (delegateSchema body) as [[permit signature]|]; [|done].
  destruct (negb _); [done|]. by intros [= <-].
Qed.
Lemma batch_request_starts body now r : batch_request body now = inr r → rq_phase r = Locking (uniqueDelegators (rq_permits r)).
Proof.
  unfold batch_request. destruct (batchDelegateSchema body) as [[permits signatures]|]; [|done].
  destruct (negb _); [done|]. destruct (negb _); [done|]. by intros [= <-].
Qed.
Lemma advance_ok s i s' : relayer_ok s → advance key env i s = Some s' → relayer_ok s'.
Proof.
  intros Hok. unfold advance. destruct (rl_requests s !! i) as [r|] eqn:Hr; [|done]. cbn.
  pose proof (rk_requests _ Hok i r Hr) as Hri. unfold advance_request.
  destruct (rq_phase r) as [[|d todo]|[|p todo] pending| |txHash [|p todo] buffer|a] eqn:Hp; [| | | | | | |done];
    try (intros [= <-]).
  - apply phase_step; [done|done| |].
    + intros d. unfold owns. cbn. rewrite Hp, unique_elem. set_solver.
    + unfold phase_ok. cbn. exists []. split; [done|]. intros d. by rewrite decide_False by set_solver.
  - destruct (lockDelegator key i d s) as [s1|] eqn:Hlock; [|done]. intros [= <-]. by eapply lock_ok.
  - apply phase_step; [done|done|unfold owns; cbn; by rewrite Hp|]. exact (counted_within s i r pending Hok Hr Hp).
  - by apply count_permit_ok.
  - by apply submit_permits_ok.
  - by eapply commit_ok.
  - by apply log_permit_ok.
Qed.
Lemma step_ok s s' : step key env s s' → relayer_ok s → relayer_ok s'.
Proof.
  intros Hstep Hok. destruct Hstep as [i body r s Hi Hr|i body r s Hi Hr|i s s' Ha|i r e s Hr Hrun|t s _|n s].
  - apply arrival_ok; [done|done|]. by eapply delegate_request_starts.
  - apply arrival_ok; [done|done|]. by eapply batch_request_starts.
  - by eapply advance_ok.
  - exact (rollback_ok s i r _ (rl_net s) Hok Hr).
  - destruct Hok as [Hreq Hl Hlog]. constructor; [|done|done]. intros i r Hr. by destruct (Hreq i r Hr).
  - destruct Hok as [Hreq Hl Hlog]. constructor; [|done|done]. intros i r Hr. by destruct (Hreq i r Hr).
Qed.
Lemma init_ok n : relayer_ok (relayer_init n).
Proof.
  constructor; [done|done|]. constructor; [|constructor|constructor]. intros d w. change (0 ≤ Z.max 0 L). lia.
Qed.
Lemma reachable_relayer_ok n s : rtc (step key env) (relayer_init n) s → relayer_ok s.
Proof.
  intros Hs. pose proof (init_ok n) as Hok. revert Hok. induction Hs as [s|s s1 s' Hstep _ IH]; intros Hok; [done|].
  apply IH. by apply (step_ok s).
Qed.

(** C23: The daily limit holds.  However requests for any delegators are
    interleaved, of the rows logged for a delegator in any 24 hours there are at
    most as many as the limit; no nonce of a delegator is logged twice, and each
    row is for a permit of a submission the network took, under its hash. *)
Theorem daily_limit_holds n s :
  rtc (step key env) (relayer_init n) s →
  (∀ d w, window_rows d w (rl_log s) ≤ Z.max 0 L) ∧ NoDup (row_key <$> rl_log s) ∧
  Forall (λ x, ∃ permits p, (permits, lr_tx_hash x) ∈ rl_sent s ∧ p ∈ permits ∧ row_of_permit p x) (rl_log s).
Proof. intros [_ _ [Hw Hk Hs]]%reachable_relayer_ok. done. Qed.
End safety.

(** ** A permit that is sent again *)
Section again.
Context `{!RelayerNet Net ScVal} (key : string → Z) (env : RelayerEnv) (permit : PermitInput) (signature : string).
Implicit Types (s : RelayerState Net).

(** Nobody holds a lock, the permit is logged, and its delegator is below the
    limit. *)
Record may_resend s : Prop := {
  mr_locks : rl_locks s = ∅;
  mr_row : has_row permit (rl_log s) = true;
  mr_below : limit_reached (RELAYER_DAILY_PERMIT_LIMIT env) (count (pm_delegator permit) (rl_clock s) (rl_log s)) = false }.

Lemma resend_once body s txHash n i :
  delegateSchema body = Some (permit, signature) → isWellFormedAuthEntry signature (pm_delegator permit) = true →
  may_resend s → submit_single env permit signature (rl_net s) = (Ok txHash, n) → rl_requests s !! i = None →
  ∃ s', rtc (step key env) s s' ∧ may_resend s' ∧ rl_log s' = rl_log s ∧ rl_net s' = n ∧
    rl_sent s' = rl_sent s ++ [([permit], txHash)] ∧
    rq_phase <$> rl_requests s' !! i = Some (Done (Relayed txHash (next_nonce permit))).
Proof.
  intros Hbody Hsig [Hlocks Hrow Hbelow] Hsend Hi.
  set (d := pm_delegator permit). set (r p := mkRequest false [permit] [signature] (rl_clock s) p).
  set (at_phase p net sent locks :=
    mkRelayer (rl_log s) locks (<[i := r p]> (rl_requests s)) (rl_clock s) sent net : RelayerState Net).
  assert (∀ p net sent locks s', advance_request key env i (r p) (at_phase p net sent locks) = Some s' →
    rtc (step key env) (at_phase p net sent locks) s') as Hstep.
  { intros p net sent locks s' Ha. apply rtc_once, (advance_step _ _ i). unfold advance. cbn.
    by rewrite lookup_insert_eq. }
  assert (∀ q p net sent locks, at_phase p net sent locks = set_phase i (r q) p (at_phase q net sent locks)) as Hset.
  { intros. unfold set_phase, set_request, at_phase. cbn. by rewrite insert_insert_eq. }
  exists (at_phase (Done (Relayed txHash (next_nonce permit))) n (rl_sent s ++ [([permit], txHash)]) ∅).
  split; [|split_and!; cbn; try done; by rewrite lookup_insert_eq].
  transitivity (at_phase (Locking [d]) (rl_net s) (rl_sent s) ∅).
  { apply rtc_once. replace (at_phase _ _ _ _) with (set_request i (r (Locking [d])) s);
      [|unfold at_phase; rewrite <- Hlocks; by destruct s].
    eapply (delegate_step _ _ i body); [done|]. unfold delegate_request. by rewrite Hbody, Hsig. }
  transitivity (at_phase (Locking []) (rl_net s) (rl_sent s) {[key d := i]}).
  { apply Hstep. cbn. unfold lockDelegator. cbn. rewrite lookup_empty. cbn. f_equal. unfold set_phase, set_request, at_phase. cbn.
    by rewrite insert_insert_eq. }
  transitivity (at_phase (Counting [permit] ∅) (rl_net s) (rl_sent s) {[key d := i]}).
  { apply Hstep. by rewrite (Hset (Locking []) (Counting _ _)). }
  transitivity (at_phase (Counting [] (<[d := count d (rl_clock s) (rl_log s) + 1]> ∅)) (rl_net s) (rl_sent s) {[key d := i]}).
  { apply Hstep. cbn. unfold count_permit. rewrite lookup_empty. cbn. fold d. unfold d. rewrite Hbelow.
    by rewrite (Hset (Counting [permit] ∅) (Counting [] _)). }
  transitivity (at_phase Submitting (rl_net s) (rl_sent s) {[key d := i]}).
  { apply Hstep. cbn. by erewrite (Hset (Counting [] _) Submitting). }
  transitivity (at_phase (Logging txHash [permit] []) n (rl_sent s ++ [([permit], txHash)]) {[key d := i]}).
  { apply Hstep. cbn. unfold submit_permits, submit. cbn. rewrite Hsend. unfold set_phase, set_request, at_phase. cbn.
    by rewrite insert_insert_eq. }
  transitivity (at_phase (Logging txHash [] []) n (rl_sent s ++ [([permit], txHash)]) {[key d := i]}).
  { apply Hstep. cbn. rewrite (Hset (Logging txHash [permit] []) (Logging txHash [] [])). unfold logRelayedPermit. by rewrite Hrow. }
  apply Hstep. cbn. unfold commit, rollback, release, set_phase, set_request, at_phase. cbn.
  rewrite app_nil_r, insert_insert_eq. do 2 f_equal.
  apply map_eq. intros k. rewrite lookup_empty. apply eq_None_not_Some. intros [j [Hk Hj]%map_lookup_filter_Some].
  apply lookup_singleton_Some in Hk as [_ <-]. done.
Qed.

(** Sending a permit again does not count.  While the network takes a permit
    that has been relayed, each further request with it is submitted and paid for
    again and answered with success, but the log, whose rows the limit counts,
    stays as it is: the limit never applies. *)
Theorem resent_permit_is_not_counted (taken : Net → Prop) body s m :
  (∀ n, taken n → ∃ txHash n', submit_single env permit signature n = (Ok txHash, n') ∧ taken n') → taken (rl_net s) →
  delegateSchema body = Some (permit, signature) → isWellFormedAuthEntry signature (pm_delegator permit) = true →
  may_resend s →
  ∃ s' hashes, rtc (step key env) s s' ∧ length hashes = m ∧ rl_log s' = rl_log s ∧ may_resend s' ∧
    rl_sent s' = rl_sent s ++ ((λ h, ([permit], h)) <$> hashes).
Proof.
  intros Htaken Hnet Hbody Hsig. revert s Hnet. induction m as [|m IH]; intros s Hnet Hs.
  { exists s, []. cbn. by rewrite app_nil_r. }
  destruct (Htaken _ Hnet) as (h & n' & Hsend & Hn').
  destruct (resend_once body s h n' (fresh (dom (rl_requests s))) Hbody Hsig Hs Hsend) as (s1 & Hstep & Hs1 & Hlog & Hnet1 & Hsent & _).
  { apply not_elem_of_dom, is_fresh. }
  rewrite <- Hnet1 in Hn'. destruct (IH s1 Hn' Hs1) as (s' & hs & Hrtc & Hm & Hlog' & Hs' & Hsent').
  exists s', (h :: hs). split_and!; [by transitivity s1|cbn; by rewrite Hm|by rewrite Hlog'|done|].
  rewrite Hsent', Hsent. cbn. by rewrite <- app_assoc.
Qed.
End again.

(** ** The theorems at the example *)
Import RelayerExample.
#[local] Existing Instance RelayerExample.net.

Lemma daily_limit_holds_witness : window_rows alice (-1) (rl_log alice_done) ≤ 1.
Proof.
  exact (proj1 (daily_limit_holds text_number env 1 eq_refl 0 alice_done alice_done_reachable) alice (-1)).
Defined.
(** The same relayer with a limit of five. *)
Definition env5 : RelayerEnv := mkRelayerEnv (Some "relayer") None None (Some "votes") (Int 5).
Definition alice_permit : PermitInput := mkPermit alice bob 0 1000 "AAAA" bob.
Lemma resent_permit_is_not_counted_witness :
  ∃ s' hashes, rtc (step text_number env5) alice_done s' ∧ length hashes = 10%nat ∧ rl_log s' = rl_log alice_done ∧
    may_resend env5 alice_permit s' ∧ rl_sent s' = rl_sent alice_done ++ ((λ h, ([alice_permit], h)) <$> hashes).
Proof.
  apply (resent_permit_is_not_counted text_number env5 alice_permit alice (λ _, True) (single_body alice bob 0)).
  - intros n _. exists ("tx" +:+ decimal (n + 1)), (n + 1). by split.
  - done.
  - by vm_compute.
  - by vm_compute.
  - constructor; by vm_compute.
Defined.
