(* ===== verification/RelayerLiveness.v ===== *)
(** * The relayer: every request is answered

    Theorems about [Relayer]: delegators are locked in one order, so the requests
    never wait for each other in a circle, and each ends after a bounded number of
    statements. *)

From stdpp Require Import sorting.
From Stdlib Require Import OrdersEx.
From S2P Require Import Prelude JsValues Doubles AddressOrder SdkTypes Relayer RelayerSafety.
Open Scope Z_scope.

(** A list that is not empty has an element before no other. *)
Lemma last_exists (l : list string) :
  l ≠ [] → ∃ m, m ∈ l ∧ ∀ x, x ∈ l → before_by id m x = false.
Proof.
  induction l as [|x l IH]; [done|]. intros _. destruct (decide (l = [])) as [->|Hl].
  - exists x. split; [by left|]. intros y ->%list_elem_of_singleton. apply not_true_iff_false. rewrite before_by_lt.
    apply StrictOrder_Irreflexive.
  - destruct (IH Hl) as (m & Hm & Hmax). destruct (before_by id m x) eqn:Hx.
    + exists x. split; [by left|]. intros y [->|Hy]%elem_of_cons; apply not_true_iff_false; rewrite before_by_lt;
        [apply StrictOrder_Irreflexive|]. intros Hxy. apply before_by_lt in Hx.
      specialize (Hmax y Hy). apply not_true_iff_false in Hmax. apply Hmax, before_by_lt. by etransitivity.
    + exists m. split; [by right|]. intros y [->|Hy]%elem_of_cons; auto.
Qed.
Lemma locked_before permits held d todo x :
  uniqueDelegators permits = held ++ d :: todo → x ∈ held → before_by id x d = true.
Proof.
  intros Hu Hx. pose proof (unique_sorted permits) as Hs. pose proof (unique_nodup permits) as Hn. rewrite Hu in Hs, Hn.
  apply Sorted_StronglySorted, StronglySorted_app in Hs as [Hs _]; [|apply _]. specialize (Hs x d Hx ltac:(by left)).
  apply NoDup_app in Hn as (_ & Hn & _). destruct Hs as [Hs| ->]; [done|]. destruct (Hn d Hx). by left.
Qed.

Section liveness.
Context `{!RelayerNet Net ScVal} (key : string → Z) (env : RelayerEnv) (L : Z).
Hypothesis limit_is : RELAYER_DAILY_PERMIT_LIMIT env = Int L.
Implicit Types (s : RelayerState Net) (r : Request).

Definition advances s s' : Prop := ∃ i, advance key env i s = Some s'.

(** Statements a request has before it. *)
Definition work_of (r : Request) : Z :=
  let n := Z.of_nat (length (rq_permits r)) in
  match rq_phase r with
  | Locking todo => 2 * n + 4 + Z.of_nat (length todo)
  | Counting todo _ => n + 3 + Z.of_nat (length todo)
  | Submitting => n + 2
  | Logging _ todo _ => 1 + Z.of_nat (length todo)
  | Done _ => 0
  end.
Definition work s : Z := map_sum (λ _ r, work_of r) (rl_requests s).
Lemma work_of_nonneg r : 0 ≤ work_of r.
Proof. unfold work_of. destruct (rq_phase r); lia. Qed.
Lemma work_nonneg s : 0 ≤ work s.
Proof. apply map_sum_nonneg. intros. apply work_of_nonneg. Qed.

Lemma advance_requests s i s' :
  advance key env i s = Some s' →
  ∃ r p, rl_requests s !! i = Some r ∧ rl_requests s' = <[i := r <| rq_phase := p |>]> (rl_requests s) ∧
    work_of (r <| rq_phase := p |>) + 1 ≤ work_of r.
Proof.
  unfold advance. destruct (rl_requests s !! i) as [r|] eqn:Hr; [|done]. cbn. unfold advance_request.
  destruct (rq_phase r) as [[|d todo]|[|p todo] pending| |txHash [|p todo] buffer|a] eqn:Hp; [| | | | | | |done];
    try (intros [= <-]).
  - exists r, (Counting (rq_permits r) ∅). split_and!; [done..|unfold work_of; rewrite Hp; cbn -[Z.mul Z.add]; lia].
  - unfold lockDelegator. destruct (rl_locks s !! key d) as [j|]; [destruct (j =? i)%nat; [|done]|];
      intros [= <-]; exists r, (Locking todo); split_and!; (done || unfold work_of; rewrite Hp; cbn -[Z.mul Z.add]; lia).
  - exists r, Submitting. split_and!; [done..|unfold work_of; rewrite Hp; cbn -[Z.mul Z.add]; lia].
  - unfold count_permit. set (c := match pending !! pm_delegator p with Some c => c | None => _ end).
    destruct (limit_reached _ c).
    + exists r, (Done (limit_answer r p)). split_and!; [done..|unfold work_of; rewrite Hp; cbn -[Z.mul Z.add]; lia].
    + exists r, (Counting todo (<[pm_delegator p := c + 1]> pending)). split_and!; [done..|unfold work_of; rewrite Hp; cbn -[Z.mul Z.add]; lia].
  - unfold submit_permits. destruct (submit env r (rl_net s)) as [[h|e] n].
    + exists r, (Logging h (rq_permits r) []). split_and!; [done..|unfold work_of; rewrite Hp; cbn -[Z.mul Z.add]; lia].
    + exists r, (Done (error_answer r e)). split_and!; [done..|unfold work_of; rewrite Hp; cbn -[Z.mul Z.add]; lia].
  - exists r, (Done (sent_answer r txHash)). split_and!; [done..|unfold work_of; rewrite Hp; cbn -[Z.mul Z.add]; lia].
  - eexists r, (Logging txHash todo _). split_and!; [done..|unfold work_of; rewrite Hp; cbn -[Z.mul Z.add]; lia].
Qed.
Lemma advances_work s s' : advances s s' → work s' + 1 ≤ work s.
Proof.
  intros (i & Ha). destruct (advance_requests _ _ _ Ha) as (r & p & Hr & Hr' & Hw). unfold work. rewrite Hr'.
  rewrite map_sum_insert. unfold at_key. rewrite Hr. lia.
Qed.

(** Different delegators of the requests have different locks. *)
Definition distinct_locks s : Prop :=
  ∀ i j ri rj d e, rl_requests s !! i = Some ri → rl_requests s !! j = Some rj →
    d ∈ delegators (rq_permits ri) → e ∈ delegators (rq_permits rj) → key d = key e → d = e.
Lemma advances_distinct s s' : advances s s' → distinct_locks s → distinct_locks s'.
Proof.
  intros (k & Ha) Hd. destruct (advance_requests _ _ _ Ha) as (r & p & Hr & Hr' & _).
  assert (∀ i ri, rl_requests s' !! i = Some ri → ∃ r0, rl_requests s !! i = Some r0 ∧ rq_permits ri = rq_permits r0) as Hsame.
  { intros i ri. rewrite Hr'. destruct (decide (k = i)) as [<-|Hk]; [rewrite lookup_insert_eq|rewrite lookup_insert_ne by done; eauto].
    intros [= <-]. by exists r. }
  intros i j ri rj d e Hi Hj. destruct (Hsame i ri Hi) as (r1 & H1 & ->), (Hsame j rj Hj) as (r2 & H2 & ->).
  by apply (Hd i j).
Qed.

(** What a request waits for. *)
Definition waits_for (r : Request) : option string :=
  match rq_phase r with Locking (d :: _) => Some d | _ => None end.
Lemma stuck_waits s i r :
  advance key env i s = None → rl_requests s !! i = Some r → running (rq_phase r) →
  ∃ d j, waits_for r = Some d ∧ rl_locks s !! key d = Some j ∧ j ≠ i.
Proof.
  unfold advance. intros Ha Hr Hrun. rewrite Hr in Ha. cbn in Ha. unfold advance_request, waits_for in *.
  destruct (rq_phase r) as [[|d todo]|[|p todo] pending| |txHash [|p todo] buffer|a]; try done.
  unfold lockDelegator in Ha. destruct (rl_locks s !! key d) as [j|] eqn:Hj; [|done].
  destruct (Nat.eqb_spec j i); [done|]. by exists d, j.
Qed.
Lemma no_deadlock s :
  relayer_ok key L s → distinct_locks s → (∀ i, advance key env i s = None) →
  ∀ i r, rl_requests s !! i = Some r → running (rq_phase r) = false.
Proof.
  intros Hok Hdist Hstuck.
  set (waited := omap (λ kv, if running (rq_phase kv.2) then waits_for kv.2 else None) (map_to_list (rl_requests s))).
  assert (∀ i r d, rl_requests s !! i = Some r → running (rq_phase r) → waits_for r = Some d → d ∈ waited) as Hin.
  { intros i r d Hr Hrun Hd. apply list_elem_of_omap. exists (i, r). split; [by apply elem_of_map_to_list|].
    cbn. by destruct (running _). }
  intros i r Hr. destruct (running (rq_phase r)) eqn:Hrun; [exfalso|done].
  destruct (stuck_waits s i r (Hstuck i) Hr) as (d & j & Hd & _); [by rewrite Hrun|].
  destruct (last_exists waited) as (m & Hm & Hmax).
  { intros Hnil. specialize (Hin i r d Hr ltac:(by rewrite Hrun) Hd). rewrite Hnil in Hin. by apply elem_of_nil in Hin. }
  apply list_elem_of_omap in Hm as ([i1 r1] & Hr1 & Hm). apply elem_of_map_to_list in Hr1. cbn in Hm.
  destruct (running (rq_phase r1)) eqn:Hrun1; [|done].
  destruct (stuck_waits s i1 r1 (Hstuck i1) Hr1) as (m' & j1 & Hm' & Hj1 & Hne); [by rewrite Hrun1|].
  rewrite Hm in Hm'. injection Hm' as <-.
  destruct (rk_locks _ _ _ Hok _ _ Hj1) as (r2 & x & Hr2 & Howns & Hkey).
  pose proof (rk_requests _ _ _ Hok _ _ Hr1) as [_ Hph1]. pose proof (rk_requests _ _ _ Hok _ _ Hr2) as [_ Hph2].
  assert (running (rq_phase r2)) as Hrun2 by (unfold owns in Howns; by destruct (rq_phase r2)).
  destruct (stuck_waits s j1 r2 (Hstuck j1) Hr2 Hrun2) as (e & j2 & He & _).
  unfold waits_for in Hm, He. unfold phase_ok, owns in *.
  destruct (rq_phase r1) as [[|d1 todo1]| | | |]; try done. injection Hm as ->.
  destruct (rq_phase r2) as [[|d2 todo2]| | | |] eqn:Hp2; try done. injection He as ->.
  destruct Hph1 as (held1 & Hu1), Hph2 as (held2 & Hu2), Howns as [Hx1 Hx2].
  assert (x = m) as ->.
  { apply (Hdist j1 i1 r2 r1); [done|done|by apply unique_elem| |done]. apply unique_elem. rewrite Hu1. set_solver. }
  assert (m ∈ held2) as Hheld by (rewrite Hu2 in Hx1; set_solver).
  pose proof (locked_before _ _ _ _ _ Hu2 Hheld) as Hbefore.
  rewrite (Hmax e) in Hbefore; [done|]. apply (Hin j1 r2 e Hr2); unfold waits_for; by rewrite Hp2.
Qed.

Lemma advances_ok s s' : advances s s' → relayer_ok key L s → relayer_ok key L s'.
Proof. intros (i & Ha) Hok. by eapply advance_ok. Qed.

(** C24: Every request is answered.  Whatever requests are under way, if their
    delegators have different locks, they cannot wait for each other: however
    the statements are interleaved, after at most [work] of them every request
    has its answer. *)
Theorem requests_are_answered n s :
  rtc (step key env) (relayer_init n) s → distinct_locks s →
  ∀ k s', nsteps advances k s s' →
    Z.of_nat k ≤ work s ∧
    ((∃ s'', advances s' s'') ∨ ∀ i r, rl_requests s' !! i = Some r → running (rq_phase r) = false).
Proof.
  intros Hreach Hdist k s' Hsteps. pose proof (reachable_relayer_ok key env L limit_is n s Hreach) as Hok.
  assert (work s' + Z.of_nat k ≤ work s ∧ relayer_ok key L s' ∧ distinct_locks s') as (Hw & Hok' & Hdist').
  { clear Hreach. induction Hsteps as [s|k s s1 s' Hstep _ IH]; [split_and!; [lia|done..]|].
    destruct IH as (Hw & Hok' & Hdist'); [by eapply advances_distinct|by eapply advances_ok|].
    pose proof (advances_work _ _ Hstep). split_and!; [lia|done..]. }
  split; [pose proof (work_nonneg s'); lia|].
  destruct (decide (Exists (λ kv, is_Some (advance key env kv.1 s')) (map_to_list (rl_requests s')))) as [Hex|Hno].
  - left. apply Exists_exists in Hex as ([i r] & _ & [s'' Ha]). exists s''. by exists i.
  - right. apply no_deadlock; [done..|]. intros i. apply eq_None_not_Some. intros Ha. apply Hno, Exists_exists.
    destruct (rl_requests s' !! i) as [r|] eqn:Hr; [|unfold advance in Ha; rewrite Hr in Ha; by destruct Ha].
    exists (i, r). split; [by apply elem_of_map_to_list|done].
Qed.
End liveness.

(** ** The theorem at the example *)
Import RelayerExample.
#[local] Existing Instance RelayerExample.net.

Lemma two_requests_distinct : distinct_locks text_number two_requests.
Proof.
  assert (map_Forall (λ _ r, Forall (λ d, d = alice ∨ d = bob) (delegators (rq_permits r))) (rl_requests two_requests)) as Hall
    by (apply (bool_decide_unpack _); by vm_compute).
  assert (text_number alice ≠ text_number bob) as Hne by (by vm_compute).
  intros i j ri rj d e Hi Hj Hd He Hkey. pose proof (Hall i ri Hi) as Hi'. pose proof (Hall j rj Hj) as Hj'. cbn in Hi', Hj'.
  rewrite Forall_forall in Hi', Hj'. destruct (Hi' d Hd) as [->| ->], (Hj' e He) as [->| ->]; congruence.
Qed.
Lemma requests_are_answered_witness :
  Z.of_nat 1 ≤ work two_requests ∧
  ∃ s', advances text_number env two_requests s' ∧
    ((∃ s'', advances text_number env s' s'') ∨ ∀ i r, rl_requests s' !! i = Some r → running (rq_phase r) = false).
Proof.
  assert (∃ s', advances text_number env two_requests s') as (s' & Hs') by (eexists; exists 1%nat; by vm_compute).
  destruct (requests_are_answered text_number env 1 eq_refl 0 two_requests two_requests_reachable two_requests_distinct 1 s'
    (nsteps_once _ _ Hs')) as [Hw Hnext].
  split; [exact Hw|]. by exists s'.
Defined.
