(* ===== verification/Server.v ===== *)
(** * The mock RPC server

    [tools/simulation/src/mock/server.ts], [codec.ts] and [registry.ts]: how a
    transaction reaches the executor of its contract, how what the executor returns
    is encoded, and what the server remembers.  [nativeToScVal] of the Stellar
    library is the class [Codec]; the arguments arrive decoded. *)

From S2P Require Import Prelude SdkErrors Effects AddressOrder Store TokenVotes Timelock Proposals ProposalBonds.
From S2P Require Import Governor Treasury CoSponsorship Conviction Optimistic.
Import TreasuryExecutor.
Open Scope Z_scope.

(** ** Contract values *)
Inductive Encodable := EText (s : string) | EInt (n : Z) | EBool (b : bool) | EBytes (bs : bytes).
(** [scvNative] is what [nativeToScVal] makes of a value for a type. *)
Inductive ScVal :=
  | scvVoid
  | scvSymbol (s : string)
  | scvBool (b : bool)
  | scvVec (items : list ScVal)
  | scvMap (entries : list (string * ScVal))
  | scvNative (type : string) (value : Encodable).
Class Codec := nativeToScVal : Encodable → string → outcome ScVal.

Definition o_map {A B} (f : A → B) (o : outcome A) : outcome B := match o with Ok a => Ok (f a) | Throw e => Throw e end.
(** [l.map(f)] where [f] may throw, from the left *)
Fixpoint o_list {A B} (f : A → outcome B) (l : list A) : outcome (list B) :=
  match l with
  | [] => Ok []
  | x :: l => match f x with Throw e => Throw e | Ok y => o_map (cons y) (o_list f l) end
  end.

Section codec.
Context `{!Codec}.
Definition encAddress (addr : string) : outcome ScVal := nativeToScVal (EText addr) "address".
Definition encU32 (n : Z) : outcome ScVal := nativeToScVal (EInt n) "u32".
Definition encU64 (n : Z) : outcome ScVal := nativeToScVal (EInt n) "u64".
Definition encI128 (n : Z) : outcome ScVal := nativeToScVal (EInt n) "i128".
Definition encBool (b : bool) : outcome ScVal := nativeToScVal (EBool b) "boolean".
Definition encString (s : string) : outcome ScVal := nativeToScVal (EText s) "string".
Definition encBytes (b : bytes) : outcome ScVal := nativeToScVal (EBytes b) "bytes".
Definition encSymbol (s : string) : outcome ScVal := Ok (scvSymbol s).
Definition encEnum (variant : string) : outcome ScVal := Ok (scvVec [scvSymbol variant]).
Definition encVoid : outcome ScVal := Ok scvVoid.
(** [encVec(items.map(enc))] *)
Definition encVec {A} (enc : A → outcome ScVal) (items : list A) : outcome ScVal := o_map scvVec (o_list enc items).
(** The fields are encoded in their order and listed by their names. *)
Definition encMap (fields : list (string * outcome ScVal)) : outcome ScVal :=
  o_map (λ l, scvMap (sort_by fst l)) (o_list (λ '(key, val), o_map (pair key) val) fields).

Definition encodeGovernorSettings (settings : GovernorSettingsState) : outcome ScVal :=
  encMap [("voting_delay", encU32 (gs_votingDelay settings)); ("voting_period", encU32 (gs_votingPeriod settings));
    ("quorum_numerator", encU32 (gs_quorumNumerator settings)); ("proposal_threshold", encI128 (gs_proposalThreshold settings));
    ("guardian", encAddress (gs_guardian settings));
    ("vote_type", encEnum (match gs_voteType settings with Simple => "Simple" | Extended => "Extended" | Quadratic => "Quadratic" end));
    ("proposal_grace_period", encU32 (gs_proposalGracePeriod settings)); ("use_dynamic_quorum", encBool (gs_useDynamicQuorum settings));
    ("reflector_oracle", match gs_reflectorOracle settings with Some EmptyString | None => encVoid | Some a => encAddress a end);
    ("min_quorum_usd", encI128 (gs_minQuorumUsd settings)); ("max_calldata_size", encU32 (gs_maxCalldataSize settings));
    ("proposal_cooldown", encU32 (gs_proposalCooldown settings));
    ("max_proposals_per_period", encU32 (gs_maxProposalsPerPeriod settings));
    ("proposal_period_duration", encU32 (gs_proposalPeriodDuration settings))].

Definition encodeProposal (proposal : ProposalRecord) : outcome ScVal :=
  encMap [("id", encU64 (p_id proposal)); ("proposer", encAddress (p_proposer proposal));
    ("description", encString (p_description proposal)); ("description_hash", encBytes (of_hex (p_descriptionHash proposal)));
    ("metadata_uri", encString (p_metadataUri proposal)); ("targets", encVec encAddress (p_targets proposal));
    ("fn_names", encVec encSymbol (p_fnNames proposal)); ("calldatas", encVec encBytes (p_calldatas proposal));
    ("start_ledger", encU32 (p_startLedger proposal)); ("end_ledger", encU32 (p_endLedger proposal));
    ("votes_for", encI128 (p_votesFor proposal)); ("votes_against", encI128 (p_votesAgainst proposal));
    ("votes_abstain", encI128 (p_votesAbstain proposal)); ("executed", encBool (p_executed proposal));
    ("cancelled", encBool (p_cancelled proposal)); ("queued", encBool (p_queued proposal));
    ("op_ids", encVec (λ id, encBytes (of_hex id)) (p_opIds proposal))].

Definition encodeCoSponsorshipDraft (draft : CoSponsorshipDraftRecord) : outcome ScVal :=
  encMap [("id", encU64 (d_id draft)); ("creator", encAddress (d_creator draft)); ("description", encString (d_description draft));
    ("description_hash", encBytes (d_descriptionHash draft)); ("metadata_uri", encString (d_metadataUri draft));
    ("targets", encVec encAddress (d_targets draft)); ("fn_names", encVec encSymbol (d_fnNames draft));
    ("calldatas", encVec encBytes (d_calldatas draft)); ("created_ledger", encU32 (d_createdLedger draft));
    ("expiry_ledger", encU32 (d_expiryLedger draft)); ("co_sponsors", encVec encAddress (d_coSponsors draft));
    ("co_sponsor_power", encVec encI128 (d_coSponsorPower draft)); ("total_power", encI128 (d_totalPower draft));
    ("finalized", encBool (d_finalized draft)); ("cancelled", encBool (d_cancelled draft))].

Definition optimistic_name (st : OptimisticProposalLifecycle) : string :=
  match st with
  | ChallengeWindow => "ChallengeWindow" | Objected => "Objected" | Passed => "Passed"
  | OptExecuted => "Executed" | OptCancelled => "Cancelled"
  end.
Definition encodeOptimisticProposal (proposal : OptimisticProposalRecord) : outcome ScVal :=
  encMap [("id", encU64 (o_id proposal)); ("proposer", encAddress (o_proposer proposal)); ("target", encAddress (o_target proposal));
    ("fn_name", encSymbol (o_fnName proposal)); ("calldata", encBytes (o_calldata proposal));
    ("description_hash", encBytes (o_descriptionHash proposal)); ("created_ledger", encU32 (o_createdLedger proposal));
    ("challenge_end_ledger", encU32 (o_challengeEndLedger proposal)); ("objection_votes", encI128 (o_objectionVotes proposal));
    ("state", encEnum (optimistic_name (o_state proposal)))].

Definition encodeConvictionProposal (proposal : ConvictionProposalRecord) : outcome ScVal :=
  encMap [("id", encU64 (cvp_id proposal)); ("proposer", encAddress (cvp_proposer proposal));
    ("target", encAddress (cvp_target proposal)); ("fn_name", encSymbol (cvp_fnName proposal));
    ("calldata", encBytes (cvp_calldata proposal)); ("requested_amount", encI128 (cvp_requestedAmount proposal));
    ("created_ledger", encU32 (cvp_createdLedger proposal)); ("conviction", encI128 (cvp_conviction proposal));
    ("last_updated_ledger", encU32 (cvp_lastUpdatedLedger proposal)); ("executed", encBool (cvp_executed proposal));
    ("cancelled", encBool (cvp_cancelled proposal))].
Definition encodeConvictionStake (stake : ConvictionStakeRecord) : outcome ScVal :=
  encMap [("staker", encAddress (cvs_staker stake)); ("proposal_id", encU64 (cvs_proposalId stake));
    ("amount", encI128 (cvs_amount stake))].

Definition bond_state_name (st : ProposalBondLifecycle) : string :=
  match st with Locked => "Locked" | Refunded => "Refunded" | Slashed => "Slashed" end.
Definition encodeProposalBond (bond : ProposalBondRecord) : outcome ScVal :=
  encMap [("proposer", encAddress (pb_proposer bond)); ("description_hash", encBytes (of_hex (pb_descriptionHash bond)));
    ("amount", encI128 (pb_amount bond)); ("locked_ledger", encU32 (pb_lockedLedger bond));
    ("state", encEnum (bond_state_name (pb_state bond)))].

Definition encodeBudgetStream (stream : BudgetStreamRecord) : outcome ScVal :=
  encMap [("id", encU64 (bs_id stream)); ("name", encSymbol (bs_name stream)); ("owner", encAddress (bs_owner stream));
    ("token", encAddress (bs_token stream)); ("total_allocated", encI128 (bs_totalAllocated stream));
    ("total_spent", encI128 (bs_totalSpent stream)); ("start_ledger", encU32 (bs_startLedger stream));
    ("end_ledger", encU32 (bs_endLedger stream)); ("is_active", encBool (bs_isActive stream));
    ("is_revoked", encBool (bs_isRevoked stream));
    ("revoked_at_ledger", match bs_revokedAtLedger stream with Some l => encU32 l | None => encVoid end);
    ("max_single_spend", encI128 (bs_maxSingleSpend stream)); ("cooldown_ledgers", encU32 (bs_cooldownLedgers stream));
    ("last_spend_ledger", encU32 (bs_lastSpendLedger stream)); ("spend_count", encU32 (bs_spendCount stream));
    ("created_by_proposal_id", encU64 (bs_createdByProposalId stream))].
Definition encodeStreamSpend (spend : StreamSpendRecord) : outcome ScVal :=
  encMap [("stream_id", encU64 (ss_streamId spend)); ("spend_index", encU32 (ss_spendIndex spend));
    ("recipient", encAddress (ss_recipient spend)); ("amount", encI128 (ss_amount spend)); ("memo", encString (ss_memo spend));
    ("executed_at_ledger", encU32 (ss_executedAtLedger spend)); ("executed_by", encAddress (ss_executedBy spend))].
Definition encodeStreamBudgetReport (report : StreamBudgetReportRecord) : outcome ScVal :=
  encMap [("stream_id", encU64 (sr_streamId report)); ("name", encSymbol (sr_name report));
    ("total_allocated", encI128 (sr_totalAllocated report)); ("total_spent", encI128 (sr_totalSpent report));
    ("remaining", encI128 (sr_remaining report)); ("utilization_bps", encU32 (sr_utilizationBps report));
    ("is_active", encBool (sr_isActive report)); ("days_remaining", encU32 (sr_daysRemaining report));
    ("spend_count", encU32 (sr_spendCount report)); ("avg_spend", encI128 (sr_avgSpend report))].
Definition encodeTokenAmounts (pairs : list (string * Z)) : outcome ScVal :=
  encVec (λ '(token, amount), encVec id [encAddress token; encI128 amount]) pairs.
Definition encodeTreasuryBudgetSummary (summary : TreasuryBudgetSummaryRecord) : outcome ScVal :=
  encMap [("total_streams", encU32 (ts_totalStreams summary)); ("active_streams", encU32 (ts_activeStreams summary));
    ("total_allocated_by_token", encodeTokenAmounts (ts_totalAllocatedByToken summary));
    ("total_spent_by_token", encodeTokenAmounts (ts_totalSpentByToken summary));
    ("total_remaining_by_token", encodeTokenAmounts (ts_totalRemainingByToken summary))].
End codec.

(** ** What the executors return *)
Inductive Value :=
  | RNull
  | RInt (n : Z)
  | RBool (b : bool)
  | RText (s : string)
  | RMaybe (s : option string)
  | RTally (t : Z * Z * Z)
  | RSettings (s : GovernorSettingsState)
  | RProposal (p : ProposalRecord)
  | RDraft (d : CoSponsorshipDraftRecord)
  | ROptimistic (p : OptimisticProposalRecord)
  | RConfig (c : OptimisticConfig)
  | RConviction (p : ConvictionProposalRecord)
  | RStakes (l : list ConvictionStakeRecord)
  | RBond (b : option ProposalBondRecord)
  | RBondSettings (s : string * Z * string * Z * Z)
  | RStream (s : BudgetStreamRecord)
  | RStreams (l : list BudgetStreamRecord)
  | RSpends (l : list StreamSpendRecord)
  | RReport (r : StreamBudgetReportRecord)
  | RSummary (s : TreasuryBudgetSummaryRecord).

Inductive ContractName := CGovernor | CTimelock | CVotes | CCoSponsorship | COptimisticGovernor | CTreasury | CConvictionVoting | CProposalBonds.
#[export] Instance ContractName_eq_dec : EqDecision ContractName.
Proof. solve_decision. Defined.
Definition contract_text (c : ContractName) : string :=
  match c with
  | CGovernor => "governor" | CTimelock => "timelock" | CVotes => "votes" | CCoSponsorship => "coSponsorship"
  | COptimisticGovernor => "optimisticGovernor" | CTreasury => "treasury" | CConvictionVoting => "convictionVoting"
  | CProposalBonds => "proposalBonds"
  end.
Definition no_encoder (contract : ContractName) (fnName : string) : outcome ScVal :=
  Throw (PlainError ("MockSorobanServer: no encoder for " +:+ contract_text contract +:+ "." +:+ fnName)).

Section encode.
Context `{!Codec}.
(** One of [names], [value] being what the cast expects. *)
Definition among (names : list string) (fnName : string) : bool := existsb (String.eqb fnName) names.
(** The tables of [encodeReturn], contract by contract; a value of another type
    than its cast does not occur. *)
Definition encode_convictionVoting (fnName : string) (value : Value) : outcome ScVal :=
  let none := no_encoder CConvictionVoting fnName in
  if among ["create_proposal"] fnName then match value with RInt n => encU64 n | _ => none end
  else if among ["stake"; "withdraw_stake"] fnName then encVoid
  else if among ["checkpoint_conviction"; "get_required_threshold"] fnName then match value with RInt n => encI128 n | _ => none end
  else if among ["get_proposal"] fnName then match value with RConviction p => encodeConvictionProposal p | _ => none end
  else if among ["get_stakes"] fnName then match value with RStakes l => encVec encodeConvictionStake l | _ => none end
  else none.
Definition encode_proposalBonds (fnName : string) (value : Value) : outcome ScVal :=
  let none := no_encoder CProposalBonds fnName in
  if among ["lock_bond"; "refund_bond"; "slash"] fnName then encVoid
  else if among ["get_bond"] fnName then
    match value with RBond (Some bond) => encodeProposalBond bond | RBond None => encVoid | _ => none end
  else if among ["get_settings"] fnName then
    match value with
    | RBondSettings (bondToken, bondAmount, governor, refundGraceLedgers, maxLockLedgers) =>
      encMap [("bond_token", encAddress bondToken); ("bond_amount", encI128 bondAmount); ("governor", encAddress governor);
        ("refund_grace_ledgers", encU32 refundGraceLedgers); ("max_lock_ledgers", encU32 maxLockLedgers)]
    | _ => none
    end
  else none.
Definition encode_treasury (fnName : string) (value : Value) : outcome ScVal :=
  let none := no_encoder CTreasury fnName in
  if among ["create_stream"] fnName then match value with RInt n => encU64 n | _ => none end
  else if among ["stream_spend"; "top_up_stream"] fnName then encVoid
  else if among ["get_stream"] fnName then match value with RStream s => encodeBudgetStream s | _ => none end
  else if among ["get_streams"] fnName then match value with RStreams l => encVec encodeBudgetStream l | _ => none end
  else if among ["get_stream_spends"] fnName then match value with RSpends l => encVec encodeStreamSpend l | _ => none end
  else if among ["get_stream_report"] fnName then match value with RReport r => encodeStreamBudgetReport r | _ => none end
  else if among ["get_stream_remaining"] fnName then match value with RInt n => encI128 n | _ => none end
  else if among ["get_budget_summary"] fnName then match value with RSummary s => encodeTreasuryBudgetSummary s | _ => none end
  else none.
Definition encode_optimisticGovernor (fnName : string) (value : Value) : outcome ScVal :=
  let none := no_encoder COptimisticGovernor fnName in
  if among ["propose"] fnName then match value with RInt n => encU64 n | _ => none end
  else if among ["object"; "finalize"; "execute"; "cancel"; "update_config"] fnName then encVoid
  else if among ["get_proposal"] fnName then match value with ROptimistic p => encodeOptimisticProposal p | _ => none end
  else if among ["get_config"] fnName then
    match value with
    | RConfig c => encMap [("votes_token", encAddress (oc_votesToken c));
        ("challenge_window_ledgers", encU32 (oc_challengeWindowLedgers c));
        ("objection_threshold_bps", encU32 (oc_objectionThresholdBps c));
        ("proposer_bond_amount", encI128 (oc_proposerBondAmount c)); ("proposer_bond_token", encAddress (oc_proposerBondToken c))]
    | _ => none
    end
  else none.
Definition encode_coSponsorship (fnName : string) (value : Value) : outcome ScVal :=
  let none := no_encoder CCoSponsorship fnName in
  if among ["create_draft"; "finalize_draft"] fnName then match value with RInt n => encU64 n | _ => none end
  else if among ["co_sponsor"] fnName then encVoid
  else if among ["get_draft"] fnName then match value with RDraft d => encodeCoSponsorshipDraft d | _ => none end
  else none.
Definition encode_governor (fnName : string) (value : Value) : outcome ScVal :=
  let none := no_encoder CGovernor fnName in
  if among ["propose"; "proposal_count"] fnName then match value with RInt n => encU64 n | _ => none end
  else if among ["cast_vote"; "queue"; "execute"; "cancel"; "cancel_queued"; "update_config"; "set_guardian";
      "set_voting_strategy"; "migrate"; "pause"; "unpause"] fnName then encVoid
  else if among ["state"] fnName then match value with RText s => encEnum s | _ => none end
  else if among ["get_settings"] fnName then match value with RSettings s => encodeGovernorSettings s | _ => none end
  else if among ["get_quorum"; "proposal_threshold"] fnName then match value with RInt n => encI128 n | _ => none end
  else if among ["is_quorum_reached"] fnName then match value with RBool b => encBool b | _ => none end
  else if among ["proposal_votes"] fnName then
    match value with RTally (a, b, c) => encVec encI128 [a; b; c] | _ => none end
  else if among ["has_voted"] fnName then match value with RBool b => encBool b | _ => none end
  else if among ["get_proposal"] fnName then match value with RProposal p => encodeProposal p | _ => none end
  else if among ["proposals_count_by_state"] fnName then encVoid
  else none.
(** [value ? encAddress(value as string) : encVoid()] *)
Definition enc_optional_address (v : option string) : outcome ScVal :=
  match v with Some EmptyString | None => encVoid | Some a => encAddress a end.
Definition encode_timelock (fnName : string) (value : Value) : outcome ScVal :=
  let none := no_encoder CTimelock fnName in
  if among ["is_ready"; "is_pending"] fnName then match value with RBool b => encBool b | _ => none end
  else if among ["min_delay"; "execution_window"] fnName then match value with RInt n => encU64 n | _ => none end
  else if among ["schedule_with_deps"] fnName then match value with RText s => enc_optional_address (Some s) | _ => none end
  else if among ["validate_dependency_dag"; "execute_batch_partial"; "retry_failed_operation"; "skip_failed_operation"] fnName then encVoid
  else none.
Definition encode_votes (fnName : string) (value : Value) : outcome ScVal :=
  let none := no_encoder CVotes fnName in
  if among ["delegate"] fnName then encVoid
  else if among ["get_votes"; "get_base_votes"; "get_past_votes"; "get_past_total_supply"] fnName then
    match value with RInt n => encI128 n | _ => none end
  else if among ["delegates"] fnName then match value with RMaybe a => enc_optional_address a | _ => none end
  else none.
Definition encodeReturn (contract : ContractName) (fnName : string) (value : Value) : outcome ScVal :=
  match contract with
  | CConvictionVoting => encode_convictionVoting fnName value
  | CProposalBonds => encode_proposalBonds fnName value
  | CTreasury => encode_treasury fnName value
  | COptimisticGovernor => encode_optimisticGovernor fnName value
  | CCoSponsorship => encode_coSponsorship fnName value
  | CGovernor => encode_governor fnName value
  | CTimelock => encode_timelock fnName value
  | CVotes => encode_votes fnName value
  end.
End encode.

(** ** The executors as objects

    A decoded argument: [ABig] is a bigint, [ANum] a number.  The handlers cast
    their arguments, [args as [...]], which checks nothing at run time.  What a
    handler does with arguments of other types than its cast names, or with too few,
    is not modelled: such a call is not [well_typed], and an exception stands for it. *)
Inductive Arg := AText (s : string) | ABytes (b : bytes) | ABig (n : Z) | ANum (n : Z) | AList (l : list Arg) | AOther.
Definition texts : list Arg → option (list string) := mapM (λ a, match a with AText s => Some s | _ => None end).
Definition all_bytes : list Arg → option (list bytes) := mapM (λ a, match a with ABytes b => Some b | _ => None end).
Definition decodeEnumVariant {S} (native : list Arg) : M S string :=
  match native with AText s :: _ => mret s | _ => throw (PlainError "Expected an enum variant (Vec<Symbol>)") end.

(** [None] is for arguments that are not of the types their cast names. *)
Definition Handler : Type := LedgerClock → string → list Arg → option (M MockLedgerStore Value).
Definition void (m : M MockLedgerStore unit) : M MockLedgerStore Value := (λ _, RNull) <$> m.
Definition cast (m : option (M MockLedgerStore Value)) : M MockLedgerStore Value :=
  match m with Some m => m | None => throw type_error end.

Section executors.
Context (sha256 : bytes → bytes) (scValToNative : bytes → outcome (list native)).

Definition governorExecutor : list (string * Handler) := [
  ("propose", λ clock caller args,
    match args with
    | AText proposer :: AText description :: ABytes descriptionHash :: AText metadataUri :: AList targets :: AList fnNames ::
      AList calldatas :: _ =>
      targets ← texts targets; fnNames ← texts fnNames; calldatas ← all_bytes calldatas;
      Some (RInt <$> GovernorExecutor.propose clock caller proposer description descriptionHash metadataUri targets fnNames calldatas)
    | _ => None
    end);
  ("propose_via_registry", λ clock caller args,
    match args with
    | AText registry :: AText proposer :: AText description :: ABytes descriptionHash :: AText metadataUri :: AList targets ::
      AList fnNames :: AList calldatas :: _ =>
      targets ← texts targets; fnNames ← texts fnNames; calldatas ← all_bytes calldatas;
      Some (RInt <$> GovernorExecutor.propose_via_registry clock caller registry proposer description descriptionHash metadataUri
        targets fnNames calldatas)
    | _ => None
    end);
  ("cast_vote", λ clock caller args,
    match args with
    | AText voter :: ABig proposalId :: AList supportVariant :: _ =>
      Some (support ← decodeEnumVariant supportVariant; void (GovernorExecutor.cast_vote clock caller voter proposalId support))
    | _ => None
    end);
  ("queue", λ clock _ args,
    match args with ABig id :: _ => Some (void (GovernorExecutor.queue sha256 clock id)) | _ => None end);
  ("execute", λ clock _ args,
    match args with ABig id :: _ => Some (void (GovernorExecutor.execute scValToNative clock id)) | _ => None end);
  ("cancel", λ clock caller args,
    match args with
    | AText cancelCaller :: ABig id :: _ => Some (void (GovernorExecutor.cancel clock caller cancelCaller id))
    | _ => None
    end);
  ("cancel_queued", λ clock caller args,
    match args with
    | AText cancelCaller :: ABig id :: _ => Some (void (GovernorExecutor.cancel_queued clock caller cancelCaller id))
    | _ => None
    end);
  ("state", λ clock _ args,
    match args with ABig id :: _ => Some ((RText ∘ state_name) <$> GovernorExecutor.state clock id) | _ => None end);
  ("get_settings", λ _ _ _, Some (RSettings <$> GovernorExecutor.get_settings));
  ("get_proposal", λ _ _ args,
    match args with ABig id :: _ => Some (RProposal <$> GovernorExecutor.get_proposal id) | _ => None end);
  ("get_quorum", λ clock _ args,
    match args with ABig id :: _ => Some (RInt <$> GovernorExecutor.get_quorum clock id) | _ => None end);
  ("is_quorum_reached", λ clock _ args,
    match args with ABig id :: _ => Some (RBool <$> GovernorExecutor.is_quorum_reached clock id) | _ => None end);
  ("proposal_threshold", λ _ _ _, Some (RInt <$> GovernorExecutor.proposal_threshold));
  ("proposal_votes", λ _ _ args,
    match args with ABig id :: _ => Some (RTally <$> GovernorExecutor.proposal_votes id) | _ => None end);
  ("has_voted", λ _ _ args,
    match args with ABig id :: AText voter :: _ => Some (RBool <$> GovernorExecutor.has_voted id voter) | _ => None end);
  ("proposal_count", λ _ _ _, Some (RInt <$> GovernorExecutor.proposal_count));
  ("pause", λ _ caller _, Some (void (GovernorExecutor.pause caller)));
  ("unpause", λ _ caller _, Some (void (GovernorExecutor.unpause caller)))].

Definition timelockExecutor : list (string * Handler) := [
  ("is_ready", λ clock _ args,
    match args with ABytes id :: _ => Some (RBool <$> on_timelock (is_ready clock id)) | _ => None end);
  ("is_pending", λ clock _ args,
    match args with ABytes id :: _ => Some (RBool <$> on_timelock (is_pending clock id)) | _ => None end);
  ("min_delay", λ _ _ _, Some (RInt <$> on_timelock min_delay));
  ("execution_window", λ _ _ _, Some (RInt <$> on_timelock execution_window));
  ("schedule_with_deps", λ clock _ args,
    match args with
    | AText target :: ABytes data :: AText fnName :: ABig delay :: AList predecessorIds :: _ =>
      predecessorIds ← all_bytes predecessorIds;
      Some (RText <$> on_timelock (schedule_with_deps sha256 clock target data fnName delay predecessorIds))
    | _ => None
    end);
  ("validate_dependency_dag", λ _ _ args,
    match args with
    | AList opIds :: _ => opIds ← all_bytes opIds; Some (void (on_timelock (validate_dependency_dag opIds)))
    | _ => None
    end);
  ("execute_batch_partial", λ _ _ _, Some (void (on_timelock execute_batch_partial)));
  ("retry_failed_operation", λ _ _ _, Some (void (on_timelock retry_failed_operation)));
  ("skip_failed_operation", λ _ _ _, Some (void (on_timelock skip_failed_operation)))].

Definition tokenVotesExecutor : list (string * Handler) := [
  ("delegate", λ clock caller args,
    match args with
    | AText delegator :: AText delegatee :: _ => Some (void (on_votes (TokenVotes.delegate clock caller delegator delegatee)))
    | _ => None
    end);
  ("get_votes", λ _ _ args,
    match args with AText account :: _ => Some (RInt <$> on_votes (get_votes account)) | _ => None end);
  ("get_base_votes", λ _ _ args,
    match args with AText account :: _ => Some (RInt <$> on_votes (get_base_votes account)) | _ => None end);
  ("get_past_votes", λ clock _ args,
    match args with AText account :: ANum ledger :: _ => Some (RInt <$> on_votes (get_past_votes clock account ledger)) | _ => None end);
  ("get_past_total_supply", λ clock _ args,
    match args with ANum ledger :: _ => Some (RInt <$> on_votes (get_past_total_supply clock ledger)) | _ => None end);
  ("delegates", λ _ _ args,
    match args with AText account :: _ => Some (RMaybe <$> on_votes (delegates account)) | _ => None end)].

Definition coSponsorshipExecutor : list (string * Handler) := [
  ("create_draft", λ clock caller args,
    match args with
    | AText creator :: AText description :: ABytes descriptionHash :: AText metadataUri :: AList targets :: AList fnNames ::
      AList calldatas :: _ =>
      targets ← texts targets; fnNames ← texts fnNames; calldatas ← all_bytes calldatas;
      Some (RInt <$> CoSponsorshipExecutor.create_draft clock caller creator description descriptionHash metadataUri targets fnNames calldatas)
    | _ => None
    end);
  ("co_sponsor", λ clock caller args,
    match args with
    | AText sponsor :: ABig draftId :: _ => Some (void (CoSponsorshipExecutor.co_sponsor clock caller sponsor draftId))
    | _ => None
    end);
  ("finalize_draft", λ clock caller args,
    match args with
    | AText creator :: ABig draftId :: _ => Some (RInt <$> CoSponsorshipExecutor.finalize_draft clock caller creator draftId)
    | _ => None
    end);
  ("get_draft", λ _ _ args,
    match args with ABig draftId :: _ => Some (RDraft <$> CoSponsorshipExecutor.get_draft draftId) | _ => None end)].

Definition optimisticGovernorExecutor : list (string * Handler) := [
  ("propose", λ clock _ args,
    match args with
    | AText proposer :: AText target :: AText fnName :: ABytes calldata :: ABytes descriptionHash :: _ =>
      Some (RInt <$> OptimisticGovernorExecutor.propose clock proposer target fnName calldata descriptionHash)
    | _ => None
    end);
  ("object", λ clock _ args,
    match args with AText objector :: ABig id :: _ => Some (void (OptimisticGovernorExecutor.object clock objector id)) | _ => None end);
  ("finalize", λ clock _ args,
    match args with ABig id :: _ => Some (void (OptimisticGovernorExecutor.finalize clock id)) | _ => None end);
  ("execute", λ _ _ args,
    match args with ABig id :: _ => Some (void (OptimisticGovernorExecutor.execute id)) | _ => None end);
  ("cancel", λ _ _ args,
    match args with AText caller :: ABig id :: _ => Some (void (OptimisticGovernorExecutor.cancel caller id)) | _ => None end);
  ("get_proposal", λ _ _ args,
    match args with ABig id :: _ => Some (ROptimistic <$> OptimisticGovernorExecutor.get_proposal id) | _ => None end);
  ("get_config", λ _ _ _, Some (RConfig <$> OptimisticGovernorExecutor.get_config));
  ("update_config", λ _ _ args,
    match args with
    | AText admin :: ANum challengeWindowLedgers :: ANum objectionThresholdBps :: _ =>
      Some (void (OptimisticGovernorExecutor.update_config admin challengeWindowLedgers objectionThresholdBps))
    | _ => None
    end)].

Definition treasuryExecutor : list (string * Handler) := [
  ("create_stream", λ clock caller args,
    match args with
    | AText signer :: AText name :: AText owner :: AText token :: ABig totalAllocated :: ANum startLedger :: ANum endLedger ::
      ABig maxSingleSpend :: ANum cooldownLedgers :: ABig proposalId :: _ =>
      Some (RInt <$> TreasuryExecutor.create_stream clock caller signer name owner token totalAllocated startLedger endLedger
        maxSingleSpend cooldownLedgers proposalId)
    | _ => None
    end);
  ("stream_spend", λ clock caller args,
    match args with
    | AText owner :: ABig streamId :: AText recipient :: ABig amount :: AText memo :: _ =>
      Some (void (TreasuryExecutor.stream_spend clock caller owner streamId recipient amount memo))
    | _ => None
    end);
  ("top_up_stream", λ clock caller args,
    match args with
    | AText signer :: ABig streamId :: ABig additionalAmount :: _ =>
      Some (void (TreasuryExecutor.top_up_stream clock caller signer streamId additionalAmount))
    | _ => None
    end);
  ("get_stream", λ _ _ args,
    match args with ABig streamId :: _ => Some (RStream <$> TreasuryExecutor.get_stream streamId) | _ => None end);
  ("get_streams", λ _ _ args,
    match args with ABig offset :: ABig limit :: _ => Some (RStreams <$> TreasuryExecutor.get_streams offset limit) | _ => None end);
  ("get_stream_spends", λ _ _ args,
    match args with
    | ABig streamId :: ANum offset :: ANum limit :: _ => Some (RSpends <$> TreasuryExecutor.get_stream_spends streamId offset limit)
    | _ => None
    end);
  ("get_stream_remaining", λ _ _ args,
    match args with ABig streamId :: _ => Some (RInt <$> TreasuryExecutor.get_stream_remaining streamId) | _ => None end);
  ("get_stream_report", λ clock _ args,
    match args with ABig streamId :: _ => Some (RReport <$> TreasuryExecutor.get_stream_report clock streamId) | _ => None end);
  ("get_budget_summary", λ clock _ _, Some (RSummary <$> TreasuryExecutor.get_budget_summary clock))].

Definition convictionVotingExecutor : list (string * Handler) := [
  ("create_proposal", λ clock caller args,
    match args with
    | AText proposer :: AText target :: AText fnName :: ABytes calldata :: ABig requestedAmount :: _ =>
      Some (RInt <$> ConvictionVotingExecutor.create_proposal clock caller proposer target fnName calldata requestedAmount)
    | _ => None
    end);
  ("stake", λ clock caller args,
    match args with
    | AText staker :: ABig proposalId :: ABig amount :: _ => Some (void (ConvictionVotingExecutor.stake clock caller staker proposalId amount))
    | _ => None
    end);
  ("withdraw_stake", λ clock caller args,
    match args with AText staker :: _ => Some (void (ConvictionVotingExecutor.withdraw_stake clock caller staker)) | _ => None end);
  ("checkpoint_conviction", λ clock _ args,
    match args with ABig id :: _ => Some (RInt <$> ConvictionVotingExecutor.checkpoint_conviction clock id) | _ => None end);
  ("get_proposal", λ _ _ args,
    match args with ABig id :: _ => Some (RConviction <$> ConvictionVotingExecutor.get_proposal id) | _ => None end);
  ("get_stakes", λ _ _ args,
    match args with
    | ABig id :: ABig offset :: ABig limit :: _ => Some (RStakes <$> ConvictionVotingExecutor.get_stakes id offset limit)
    | _ => None
    end);
  ("get_required_threshold", λ clock _ args,
    match args with ABig amount :: _ => Some (RInt <$> ConvictionVotingExecutor.get_required_threshold clock amount) | _ => None end)].

Definition proposalBondsExecutor : list (string * Handler) := [
  ("lock_bond", λ clock caller args,
    match args with AText proposer :: ABytes h :: _ => Some (void (lock_bond clock caller proposer (HashBytes h))) | _ => None end);
  ("refund_bond", λ clock caller args,
    match args with
    | AText refundCaller :: ABytes h :: ABig id :: _ => Some (void (refund_bond clock caller refundCaller (HashBytes h) id))
    | _ => None
    end);
  ("slash", λ _ caller args,
    match args with
    | AText slashCaller :: ABytes h :: AText recipient :: _ => Some (void (slash caller slashCaller (HashBytes h) recipient))
    | _ => None
    end);
  ("get_bond", λ _ _ args,
    match args with ABytes h :: _ => Some (RBond <$> get_bond (HashBytes h)) | _ => None end);
  ("get_settings", λ _ _ _, Some (RBondSettings <$> bonds_get_settings))].

Definition executor_of (contract : ContractName) : list (string * Handler) :=
  match contract with
  | CGovernor => governorExecutor | CTimelock => timelockExecutor | CVotes => tokenVotesExecutor
  | CCoSponsorship => coSponsorshipExecutor | COptimisticGovernor => optimisticGovernorExecutor | CTreasury => treasuryExecutor
  | CConvictionVoting => convictionVotingExecutor | CProposalBonds => proposalBondsExecutor
  end.
(** The name the error of an unknown function has for a contract. *)
Definition executor_text (contract : ContractName) : string :=
  match contract with
  | CCoSponsorship => "co-sponsorship" | COptimisticGovernor => "optimistic-governor" | CConvictionVoting => "conviction-voting"
  | CProposalBonds => "proposal-bonds" | c => contract_text c
  end.
End executors.

(** ** The server *)
Record DecodedInvocation := mkInvocation {
  iv_contractAddress : string; iv_functionName : string; iv_args : list Arg; iv_caller : string }.
(** A transaction: its operations, of which the first is decoded ([None] when it
    is no [invokeHostFunction]), and its hash. *)
Record Transaction := mkTransaction { tx_operation : option DecodedInvocation; tx_hash : string }.
Inductive StoredTxResult := Success (returnValue : ScVal) | Failed (error : string).
Record MockSorobanServer := mkServer {
  sv_store : MockLedgerStore; sv_clock : LedgerClock; sv_results : gmap string StoredTxResult }.
#[export] Instance MockSorobanServer_eta : Eta MockSorobanServer := λ s, mkServer (sv_store s) (sv_clock s) (sv_results s).

(** What [simulateTransaction], [sendTransaction] and [getTransaction] answer,
    with the latest ledger or its closing time. *)
Inductive Simulated := SimulatedValue (latestLedger : Z) (retval : ScVal) | SimulatedError (latestLedger : Z) (error : string).
Inductive Sent := SentPending (hash : string) (closeTime : Z) | SentError (hash error : string).
Inductive Found := NotFound | FoundFailed | FoundSuccess (returnValue : ScVal) (latestLedger : Z).

Definition decodeInvocation {S} (tx : Transaction) : M S DecodedInvocation :=
  unwrap (tx_operation tx) (PlainError "MockSorobanServer only supports a single invokeHostFunction operation").
(** [e instanceof MockContractError ? e.toSorobanErrorString() : e.message] *)
Definition error_text (e : JsError) : string :=
  match e with MockContractError code _ => toSorobanErrorString code | SdkError _ _ message | PlainError message => message end.

Definition resolve (addresses : ContractAddresses) (address : string) : option ContractName :=
  if String.eqb address (a_governor addresses) then Some CGovernor
  else if String.eqb address (a_timelock addresses) then Some CTimelock
  else if String.eqb address (a_votes addresses) then Some CVotes
  else if String.eqb address (a_coSponsorship addresses) then Some CCoSponsorship
  else if String.eqb address (a_optimisticGovernor addresses) then Some COptimisticGovernor
  else if String.eqb address (a_treasury addresses) then Some CTreasury
  else if String.eqb address (a_convictionVoting addresses) then Some CConvictionVoting
  else if String.eqb address (a_proposalBonds addresses) then Some CProposalBonds
  else None.
Definition unknown_contract (address : string) : JsError := PlainError ("MockSorobanServer: unknown contract address " +:+ address).

Section server.
Context `{!Codec} (sha256 : bytes → bytes) (scValToNative : bytes → outcome (list native)).

(** [this.resolveContract(address)] against the server's own store *)
Definition resolveContract (address : string) : M MockSorobanServer ContractName :=
  s ← get; unwrap (resolve (st_addresses (sv_store s)) address) (unknown_contract address).

(** [dispatch] on [store], the server's or a copy of it.  Names that only
    [Object.prototype] has are left out. *)
Definition dispatch (clock : LedgerClock) (contract : ContractName) (iv : DecodedInvocation) : M MockLedgerStore Value :=
  match jm_get (iv_functionName iv) (executor_of sha256 scValToNative contract) with
  | None => throw (PlainError ("MockSorobanServer: unknown " +:+ executor_text contract +:+ " function " +:+ iv_functionName iv))
  | Some handler => cast (handler clock (iv_caller iv) (iv_args iv))
  end.
(** The arguments are of the types that the function's cast names. *)
Definition well_typed (clock : LedgerClock) (contract : ContractName) (iv : DecodedInvocation) : Prop :=
  match jm_get (iv_functionName iv) (executor_of sha256 scValToNative contract) with
  | None => True
  | Some handler => is_Some (handler clock (iv_caller iv) (iv_args iv))
  end.
(** The handler and the encoding of its result. *)
Definition invoke (clock : LedgerClock) (contract : ContractName) (iv : DecodedInvocation) : M MockLedgerStore ScVal :=
  value ← dispatch clock contract iv; from_outcome (encodeReturn contract (iv_functionName iv) value).

Definition setStore (store : MockLedgerStore) : M MockSorobanServer unit :=
  modify (λ s, s <| sv_store := store |> <| sv_results := ∅ |>).
(** The copy the handler runs on is dropped. *)
Definition simulateTransaction (tx : Transaction) : M MockSorobanServer Simulated :=
  invocation ← decodeInvocation tx;
  contract ← resolveContract (iv_contractAddress invocation);
  s ← get;
  match invoke (sv_clock s) contract invocation (sv_store s) with
  | (Ok retval, _) => mret (SimulatedValue (sequence (sv_clock s)) retval)
  | (Throw e, _) => mret (SimulatedError (sequence (sv_clock s)) (error_text e))
  end.
Definition sendTransaction (tx : Transaction) : M MockSorobanServer Sent :=
  invocation ← decodeInvocation tx;
  contract ← resolveContract (iv_contractAddress invocation);
  s ← get;
  match invoke (sv_clock s) contract invocation (sv_store s) with
  | (Ok returnValue, store) =>
    modify (λ s, s <| sv_store := store |> <| sv_results ::= <[tx_hash tx := Success returnValue]> |>);;
    mret (SentPending (tx_hash tx) (timestamp (sv_clock s)))
  | (Throw e, store) =>
    modify (λ s, s <| sv_store := store |> <| sv_results ::= <[tx_hash tx := Failed (error_text e)]> |>);;
    mret (SentError (tx_hash tx) (error_text e))
  end.
Definition getTransaction (hash : string) : M MockSorobanServer Found :=
  gets (λ s, match sv_results s !! hash with
             | None => NotFound
             | Some (Failed _) => FoundFailed
             | Some (Success returnValue) => FoundSuccess returnValue (sequence (sv_clock s))
             end).
Definition getLatestLedger : M MockSorobanServer Z := gets (λ s, sequence (sv_clock s)).
(** [getAccount] gives every account the sequence number zero. *)
Definition getAccount (accountId : string) : M MockSorobanServer (string * Z) := mret (accountId, 0).
Definition prepareTransaction (tx : Transaction) : M MockSorobanServer Transaction := mret tx.
End server.

(** ** The active server *)
Definition setActiveMockServer (server : option MockSorobanServer) : M (option MockSorobanServer) unit := modify (λ _, server).
Definition getActiveMockServer : M (option MockSorobanServer) MockSorobanServer :=
  active ← get;
  unwrap active (PlainError "No active MockSorobanServer — call SimulationHarness.boot({ mode: 'mock' }) first").
