(* ===== verification/ServerFrames.v ===== *)
(** * The mock RPC server: what a call touches

    Whatever function of whatever contract a transaction names, the store it
    leaves is the one a modelled call of that contract leaves ([dispatch_served]);
    and for each contract, the part of the store that its calls keep, whether
    they return or throw. *)

From S2P Require Import Prelude SdkErrors JsValues Effects AddressOrder Store TokenVotes Timelock Proposals ProposalBonds.
From S2P Require Import Governor Treasury CoSponsorship Conviction Optimistic Server.
Open Scope Z_scope.

(** The votes without the balances. *)
Definition vote_books (s : MockLedgerStore) :=
  (tv_delegates (st_votes s), tv_checkpoints (st_votes s), tv_totalSupplyCheckpoints (st_votes s)).
(** What each contract's handlers keep. *)
Definition beside_governor (s : MockLedgerStore) :=
  (st_coSponsorship s, st_optimisticGovernor s, st_treasury s, st_convictionVoting s, st_addresses s, vote_books s).
Definition beside_timelock (s : MockLedgerStore) :=
  (st_governor s, st_votes s, st_coSponsorship s, st_optimisticGovernor s, st_treasury s, st_convictionVoting s,
   st_proposalBonds s, st_addresses s).
Definition beside_votes (s : MockLedgerStore) :=
  (st_governor s, st_timelock s, st_coSponsorship s, st_optimisticGovernor s, st_treasury s, st_convictionVoting s,
   st_proposalBonds s, st_addresses s, tv_balances (st_votes s)).
Definition beside_coSponsorship (s : MockLedgerStore) :=
  (st_timelock s, st_votes s, st_optimisticGovernor s, st_treasury s, st_convictionVoting s, st_proposalBonds s, st_addresses s).
Definition beside_optimistic (s : MockLedgerStore) :=
  (st_governor s, st_timelock s, st_votes s, st_coSponsorship s, st_treasury s, st_convictionVoting s, st_proposalBonds s,
   st_addresses s).
Definition beside_treasury (s : MockLedgerStore) :=
  (st_governor s, st_timelock s, vote_books s, st_coSponsorship s, st_optimisticGovernor s, st_convictionVoting s,
   st_proposalBonds s, st_addresses s).
Definition beside_conviction (s : MockLedgerStore) :=
  (st_governor s, st_timelock s, st_votes s, st_coSponsorship s, st_optimisticGovernor s, st_treasury s, st_proposalBonds s,
   st_addresses s).
Definition beside_bonds (s : MockLedgerStore) :=
  (st_governor s, st_timelock s, vote_books s, st_coSponsorship s, st_optimisticGovernor s, st_treasury s,
   st_convictionVoting s, st_addresses s).

(** ** Reading *)
Abbreviation Looks m := (Evolves (keeps id) m).
#[export] Instance looks_get_votes a : Looks (get_votes a).
Proof. unfold get_votes. ev_go. Qed.
#[export] Instance looks_base_votes a : Looks (get_base_votes a).
Proof. unfold get_base_votes. ev_go. Qed.
#[export] Instance looks_past_votes c a l : Looks (get_past_votes c a l).
Proof. unfold get_past_votes. ev_go. Qed.
#[export] Instance looks_past_supply c l : Looks (get_past_total_supply c l).
Proof. unfold get_past_total_supply. ev_go. Qed.
#[export] Instance looks_delegates a : Looks (delegates a).
Proof. unfold delegates. ev_go. Qed.
#[export] Instance looks_on_votes {A B} (f : MockLedgerStore → B) (m : M TokenVotesState A) : Looks m → Evolves (keeps f) (on_votes m).
Proof. intros Hm. apply ev_zoom_read; [by intros []|done]. Qed.
#[export] Instance looks_on_timelock {A B} (f : MockLedgerStore → B) (m : M TimelockState A) : Looks m → Evolves (keeps f) (on_timelock m).
Proof. intros Hm. apply ev_zoom_read; [by intros []|done]. Qed.
#[export] Instance looks_on_conviction {A B} (f : MockLedgerStore → B) (m : M ConvictionVotingState A) :
  Looks m → Evolves (keeps f) (on_conviction m).
Proof. intros Hm. apply ev_zoom_read; [by intros []|done]. Qed.
#[export] Instance looks_quorum {B} (f : MockLedgerStore → B) c p : Evolves (keeps f) (computeQuorum c p).
Proof. unfold computeQuorum. ev_go. Qed.
#[export] Instance looks_state {B} (f : MockLedgerStore → B) c p : Evolves (keeps f) (computeProposalState c p).
Proof. unfold computeProposalState. ev_go. Qed.

(** ** Writing *)
Lemma keeps_transfer {B} (f : MockLedgerStore → B) from to x :
  (∀ a y s, f (set_balance a y s) = f s) → Evolves (keeps f) (transfer from to x).
Proof. intros Hf. unfold transfer. ev_go; try (apply ev_modify_keeps; intros; by rewrite ?Hf). Qed.
#[export] Hint Extern 1 (Evolves (keeps _) (transfer _ _ _)) => apply keeps_transfer; reflexivity : typeclass_instances.
#[export] Hint Extern 1 (Evolves (keeps _) (on_timelock _)) => apply ev_zoom_keeps; reflexivity : typeclass_instances.
#[export] Hint Extern 1 (Evolves (keeps _) (on_conviction _)) => apply ev_zoom_keeps; reflexivity : typeclass_instances.

#[export] Instance keeps_create_proposal clock proposer d h u ts fs ds b :
  Evolves (keeps beside_governor) (createProposal clock proposer d h u ts fs ds b).
Proof. unfold createProposal. ev_go. Qed.
#[export] Instance keeps_must_get {B} (f : MockLedgerStore → B) id : Evolves (keeps f) (mustGetProposal id).
Proof. unfold mustGetProposal. ev_go. Qed.
#[export] Instance bond_run_keeps clock c : Evolves (keeps beside_bonds) (bond_run clock c).
Proof.
  destruct c; unfold bond_run, lock_bond, refund_bond, slash, requireSigner, mustGetBond, refund_allowed; ev_go.
Qed.
#[export] Instance dispatch_action_keeps dec clock p : Evolves (keeps beside_governor) (dispatchProposalBondsAction dec clock p).
Proof.
  unfold dispatchProposalBondsAction. ev_go; unfold bonds_handler in *; repeat (case_match; simplify_eq); cbn; ev_go;
    unfold lock_bond, refund_bond, slash, get_bond, bonds_get_settings, requireSigner, mustGetBond, refund_allowed; ev_go.
Qed.
#[export] Instance gov_run_keeps sha256 dec clock c : Evolves (keeps beside_governor) (gov_run sha256 dec clock c).
Proof.
  destruct c; unfold gov_run, GovernorExecutor.propose, GovernorExecutor.propose_via_registry, GovernorExecutor.cast_vote,
    GovernorExecutor.queue, GovernorExecutor.execute, GovernorExecutor.cancel, GovernorExecutor.cancel_queued,
    GovernorExecutor.pause, GovernorExecutor.unpause; ev_go.
Qed.
#[export] Instance looks_stream {B} (f : MockLedgerStore → B) id : Evolves (keeps f) (TreasuryExecutor.loadStream id).
Proof. unfold TreasuryExecutor.loadStream. ev_go. Qed.
#[export] Instance looks_spend {B} (f : MockLedgerStore → B) clock b owner amount :
  Evolves (keeps f) (TreasuryExecutor.validateSpend clock b owner amount).
Proof. unfold TreasuryExecutor.validateSpend. ev_go. Qed.
#[export] Instance treasury_run_keeps clock c : Evolves (keeps beside_treasury) (treasury_run clock c).
Proof.
  destruct c; unfold treasury_run, TreasuryExecutor.create_stream, TreasuryExecutor.stream_spend, TreasuryExecutor.top_up_stream,
    TreasuryExecutor.requireSigner, TreasuryExecutor.requireGovernor, TreasuryExecutor.transferFromTreasury; ev_go.
Qed.
#[export] Instance looks_draft {B} (f : MockLedgerStore → B) id : Evolves (keeps f) (CoSponsorshipExecutor.getDraft id).
Proof. unfold CoSponsorshipExecutor.getDraft. ev_go. Qed.
#[export] Instance cosponsor_run_keeps clock c : Evolves (keeps beside_coSponsorship) (cosponsor_run clock c).
Proof.
  destruct c; unfold cosponsor_run, CoSponsorshipExecutor.create_draft, CoSponsorshipExecutor.co_sponsor,
    CoSponsorshipExecutor.finalize_draft, GovernorExecutor.propose_via_registry, createProposal; ev_go.
Qed.
#[export] Instance conviction_run_keeps clock c : Evolves (keeps beside_conviction) (conviction_run clock c).
Proof.
  destruct c; unfold conviction_run, ConvictionVotingExecutor.create_proposal, ConvictionVotingExecutor.stake,
    ConvictionVotingExecutor.withdraw_stake, ConvictionVotingExecutor.checkpoint_conviction, ConvictionVotingExecutor.get_stakes,
    ConvictionVotingExecutor.get_required_threshold, ConvictionVotingExecutor.requiredThreshold; ev_go.
Qed.
#[export] Instance optimistic_run_keeps clock c : Evolves (keeps beside_optimistic) (optimistic_run clock c).
Proof.
  destruct c; unfold optimistic_run, OptimisticGovernorExecutor.propose, OptimisticGovernorExecutor.object,
    OptimisticGovernorExecutor.finalize, OptimisticGovernorExecutor.execute, OptimisticGovernorExecutor.cancel,
    OptimisticGovernorExecutor.update_config, OptimisticGovernorExecutor.mustGetProposal; ev_go.
Qed.
#[export] Instance delegate_keeps clock caller a b : Evolves (keeps beside_votes) (on_votes (TokenVotes.delegate clock caller a b)).
Proof.
  intros st. unfold on_votes. rewrite wp_zoom. unfold TokenVotes.delegate, keeps. wp_go; try done.
  unfold beside_votes. cbn. by rewrite applyDelegation_balances.
Qed.

(** ** A transaction is a call *)
Lemma fmap_state {S A B} (f : A → B) (m : M S A) s : ((f <$> m) s).2 = (m s).2.
Proof. unfold fmap, M_fmap. by destruct (m s) as [[] ?]. Qed.
(** Whether a call threw. *)
Definition threw {S A} (r : outcome A * S) : bool := match r.1 with Throw _ => true | Ok _ => false end.
Lemma fmap_threw {S A B} (f : A → B) (m : M S A) s : threw ((f <$> m) s) = threw (m s).
Proof. unfold fmap, M_fmap, threw. by destruct (m s) as [[] ?]. Qed.
Lemma ignore_threw {A} (m : M MockLedgerStore A) s : threw ((m;; mret tt) s) = threw (m s).
Proof. unfold mbind, M_bind, threw. by destruct (m s) as [[] ?]. Qed.
Lemma looks_same {A} (m : M MockLedgerStore A) s : Looks m → (m s).2 = s.
Proof. intros Hm. exact (evolves_state (keeps id) m s). Qed.

Section served.
Context (sha256 : bytes → bytes) (dec : bytes → outcome (list native)).
(** What a request of [caller] leaves of the store, and whether it threw.
    [scheduling] allows the one call of the timelock that anyone may make, and
    [interruptible] the two calls of the governor that write before they throw. *)
Definition interrupted (c : gov_call) : Prop :=
  match c with GExecute _ | GCancelQueued _ _ _ => True | _ => False end.
Inductive served (scheduling interruptible : Prop) (clock : LedgerClock) (caller : string) (s : MockLedgerStore) :
    bool → MockLedgerStore → Prop :=
  | sv_looked t : served scheduling interruptible clock caller s t s
  | sv_governor c : (interrupted c → interruptible) →
    served scheduling interruptible clock caller s (threw (gov_run sha256 dec clock c s)) (gov_run sha256 dec clock c s).2
  | sv_bonds c : (∀ x p h, c = BLock x p h → x = caller) →
    served scheduling interruptible clock caller s (threw (bond_run clock c s)) (bond_run clock c s).2
  | sv_treasury c : served scheduling interruptible clock caller s (threw (treasury_run clock c s)) (treasury_run clock c s).2
  | sv_drafts c : served scheduling interruptible clock caller s (threw (cosponsor_run clock c s)) (cosponsor_run clock c s).2
  | sv_conviction c : served scheduling interruptible clock caller s (threw (conviction_run clock c s)) (conviction_run clock c s).2
  | sv_optimistic c : served scheduling interruptible clock caller s (threw (optimistic_run clock c s)) (optimistic_run clock c s).2
  | sv_delegate a b :
    served scheduling interruptible clock caller s (threw (on_votes (TokenVotes.delegate clock caller a b) s))
      (on_votes (TokenVotes.delegate clock caller a b) s).2
  | sv_schedule target data fn delay ids : scheduling →
    served scheduling interruptible clock caller s
      (threw (on_timelock (schedule_with_deps sha256 clock target data fn delay ids) s))
      (on_timelock (schedule_with_deps sha256 clock target data fn delay ids) s).2.

Definition schedules (contract : ContractName) (fnName : string) : Prop := contract = CTimelock ∧ fnName = "schedule_with_deps".
Definition interrupts (contract : ContractName) (fnName : string) : Prop :=
  contract = CGovernor ∧ (fnName = "execute" ∨ fnName = "cancel_queued").
Definition serves (contract : ContractName) (h : string * Handler) : Prop :=
  ∀ clock caller args s,
    served (schedules contract h.1) (interrupts contract h.1) clock caller s
      (threw (cast (h.2 clock caller args) s)) (cast (h.2 clock caller args) s).2.
Abbreviation serves_run P Q clock caller m s := (served P Q clock caller s (threw (m s)) (m s).2).
Lemma sv_cast P Q clock caller s o : (∀ m, o = Some m → serves_run P Q clock caller m s) → serves_run P Q clock caller (cast o) s.
Proof. intros Ho. destruct o as [m|]; [by apply Ho|apply sv_looked]. Qed.
Lemma sv_looks P Q clock caller s {A} (m : M MockLedgerStore A) : Looks m → serves_run P Q clock caller m s.
Proof. intros Hm. rewrite (looks_same m s Hm). apply sv_looked. Qed.
Lemma sv_variant {A} P Q clock caller s l (k : string → M MockLedgerStore A) :
  (∀ x, serves_run P Q clock caller (k x) s) → serves_run P Q clock caller (decodeEnumVariant l ≫= k) s.
Proof. intros Hk. destruct l as [|[] l]; try apply sv_looked. apply Hk. Qed.
(** The handlers of a table, one by one, behind their casts. *)
Ltac by_handler :=
  repeat apply Forall_cons_2; try apply Forall_nil_2; intros clock caller args s; cbn [fst snd];
  try (apply sv_cast; intros m Hm; repeat (case_match; try discriminate);
    repeat (apply bind_Some in Hm as (? & _ & Hm)); injection Hm as <-);
  unfold void; rewrite ?fmap_threw, ?fmap_state.

(** A handler that only reads. *)
Ltac by_looking := first [apply sv_looked | lazymatch goal with |- served _ _ _ _ _ _ (snd (?m _)) => apply (sv_looks _ _ _ _ _ m); ev_go end].

Lemma bonds_serve : Forall (serves CProposalBonds) proposalBondsExecutor.
Proof.
  by_handler.
  - apply (sv_bonds _ _ _ _ _ (BLock _ _ _)). by intros ? ? ? [= <-].
  - by apply (sv_bonds _ _ _ _ _ (BRefund _ _ _ _)).
  - by apply (sv_bonds _ _ _ _ _ (BSlash _ _ _ _)).
  - unfold get_bond. by_looking.
  - unfold bonds_get_settings. by_looking.
Qed.
Lemma governor_serve : Forall (serves CGovernor) (governorExecutor sha256 dec).
Proof.
  by_handler.
  - rewrite <- ignore_threw, <- ignore_result. by apply (sv_governor _ _ _ _ _ (GPropose _ _ _ _ _ _ _ _)).
  - rewrite <- ignore_threw, <- ignore_result. by apply (sv_governor _ _ _ _ _ (GRegistry _ _ _ _ _ _ _ _ _)).
  - apply sv_variant. intros support. rewrite fmap_threw, fmap_state. by apply (sv_governor _ _ _ _ _ (GVote _ _ _ _)).
  - by apply (sv_governor _ _ _ _ _ (GQueue _)).
  - apply (sv_governor _ _ _ _ _ (GExecute _)). intros _. split; [done|]. cbn. tauto.
  - by apply (sv_governor _ _ _ _ _ (GCancel _ _ _)).
  - apply (sv_governor _ _ _ _ _ (GCancelQueued _ _ _)). intros _. split; [done|]. cbn. tauto.
  - unfold GovernorExecutor.state. by_looking.
  - unfold GovernorExecutor.get_settings. by_looking.
  - unfold GovernorExecutor.get_proposal. by_looking.
  - unfold GovernorExecutor.get_quorum. by_looking.
  - unfold GovernorExecutor.is_quorum_reached. by_looking.
  - unfold GovernorExecutor.proposal_threshold. by_looking.
  - unfold GovernorExecutor.proposal_votes. by_looking.
  - unfold GovernorExecutor.has_voted. by_looking.
  - unfold GovernorExecutor.proposal_count. by_looking.
  - by apply (sv_governor _ _ _ _ _ (GPause _)).
  - by apply (sv_governor _ _ _ _ _ (GUnpause _)).
Qed.
Lemma timelock_serve : Forall (serves CTimelock) (timelockExecutor sha256).
Proof.
  by_handler; cycle 4; [by apply sv_schedule|by_looking..].
Qed.
Lemma votes_serve : Forall (serves CVotes) tokenVotesExecutor.
Proof. by_handler; [apply sv_delegate|by_looking..]. Qed.
Lemma drafts_serve : Forall (serves CCoSponsorship) coSponsorshipExecutor.
Proof.
  by_handler.
  - rewrite <- ignore_threw, <- ignore_result. apply (sv_drafts _ _ _ _ _ (CsCreate _ _ _ _ _ _ _ _)).
  - apply (sv_drafts _ _ _ _ _ (CsSponsor _ _ _)).
  - rewrite <- ignore_threw, <- ignore_result. apply (sv_drafts _ _ _ _ _ (CsFinalize _ _ _)).
  - unfold CoSponsorshipExecutor.get_draft. by_looking.
Qed.
Lemma optimistic_serve : Forall (serves COptimisticGovernor) optimisticGovernorExecutor.
Proof.
  by_handler.
  - rewrite <- ignore_threw, <- ignore_result. apply (sv_optimistic _ _ _ _ _ (OpPropose _ _ _ _ _)).
  - apply (sv_optimistic _ _ _ _ _ (OpObject _ _)).
  - apply (sv_optimistic _ _ _ _ _ (OpFinalize _)).
  - apply (sv_optimistic _ _ _ _ _ (OpExecute _)).
  - apply (sv_optimistic _ _ _ _ _ (OpCancel _ _)).
  - unfold OptimisticGovernorExecutor.get_proposal, OptimisticGovernorExecutor.mustGetProposal. by_looking.
  - unfold OptimisticGovernorExecutor.get_config. by_looking.
  - apply (sv_optimistic _ _ _ _ _ (OpConfig _ _ _)).
Qed.
Lemma treasury_serve : Forall (serves CTreasury) treasuryExecutor.
Proof.
  by_handler.
  - rewrite <- ignore_threw, <- ignore_result. apply (sv_treasury _ _ _ _ _ (TrCreate _ _ _ _ _ _ _ _ _ _ _)).
  - apply (sv_treasury _ _ _ _ _ (TrSpend _ _ _ _ _ _)).
  - apply (sv_treasury _ _ _ _ _ (TrTopUp _ _ _ _)).
  - unfold TreasuryExecutor.get_stream. by_looking.
  - unfold TreasuryExecutor.get_streams. by_looking.
  - unfold TreasuryExecutor.get_stream_spends. by_looking.
  - unfold TreasuryExecutor.get_stream_remaining. by_looking.
  - unfold TreasuryExecutor.get_stream_report. by_looking.
  - unfold TreasuryExecutor.get_budget_summary. by_looking.
Qed.
Lemma conviction_serve : Forall (serves CConvictionVoting) convictionVotingExecutor.
Proof.
  by_handler.
  - rewrite <- ignore_threw, <- ignore_result. apply (sv_conviction _ _ _ _ _ (CvCreate _ _ _ _ _ _)).
  - apply (sv_conviction _ _ _ _ _ (CvStake _ _ _ _)).
  - apply (sv_conviction _ _ _ _ _ (CvWithdraw _ _)).
  - rewrite <- ignore_threw, <- ignore_result. apply (sv_conviction _ _ _ _ _ (CvCheckpoint _)).
  - unfold ConvictionVotingExecutor.get_proposal. apply sv_looks, looks_on_conviction.
    unfold ConvictionVotingExecutor.mustGetProposal. ev_go.
  - rewrite <- ignore_threw, <- ignore_result. apply (sv_conviction _ _ _ _ _ (CvStakes _ _ _)).
  - unfold ConvictionVotingExecutor.get_required_threshold, ConvictionVotingExecutor.requiredThreshold. by_looking.
Qed.

(** What the store is after [dispatch], returned or thrown. *)
Lemma dispatch_served clock contract iv s :
  served (schedules contract (iv_functionName iv)) (interrupts contract (iv_functionName iv)) clock (iv_caller iv) s
    (threw (dispatch sha256 dec clock contract iv s)) (dispatch sha256 dec clock contract iv s).2.
Proof.
  assert (Forall (serves contract) (executor_of sha256 dec contract)) as Hall.
  { destruct contract; [apply governor_serve|apply timelock_serve|apply votes_serve|apply drafts_serve|apply optimistic_serve|
      apply treasury_serve|apply conviction_serve|apply bonds_serve]. }
  unfold dispatch. destruct (jm_get _ _) as [h|] eqn:Hh; [|apply sv_looked]. apply jm_get_elem in Hh.
  rewrite Forall_forall in Hall. exact (Hall _ Hh clock (iv_caller iv) (iv_args iv) s).
Qed.
(** The encoding does not touch the store. *)
Lemma invoke_state `{!Codec} clock contract iv s :
  (invoke sha256 dec clock contract iv s).2 = (dispatch sha256 dec clock contract iv s).2.
Proof. unfold invoke, mbind, M_bind. by destruct (dispatch _ _ _ _ _ _) as [[] ?]. Qed.
End served.
