(* ===== verification/ServerHistories.v ===== *)
(** * The mock RPC server: its histories

    A server is driven by transactions and by its clock.  Whatever it is sent,
    each contract moves by the steps of its own model, so that what is proved of
    the contracts one by one holds of the store behind the server. *)

From S2P Require Import Prelude SdkErrors JsValues Effects AddressOrder Store TokenVotes Timelock Proposals ProposalBonds.
From S2P Require Import Governor GovernorSafety Treasury CoSponsorship Conviction Optimistic Server ServerFrames.
Open Scope Z_scope.

(** No balance and no bond is negative. *)
Record funded (s : MockLedgerStore) : Prop := {
  fu_balances : map_Forall (λ _ x, 0 ≤ x) (tv_balances (st_votes s));
  fu_bonds : map_Forall (λ _ b, 0 ≤ pb_amount b) (pbs_bonds (st_proposalBonds s)) }.
(** The bonds contract is another than the caller and than the contracts that pay. *)
Record apart (a : ContractAddresses) : Prop := {
  ap_governor : a_governor a ≠ a_proposalBonds a; ap_treasury : a_treasury a ≠ a_proposalBonds a }.

Lemma ev_weaken {S A} (R R' : S → S → Prop) (m : M S A) : (∀ s s', R s s' → R' s s') → Evolves R m → Evolves R' m.
Proof. intros HR Hm s. eapply wp_mono; [apply Hm|cbn; eauto..]. Qed.
Lemma funded_balance s a : funded s → 0 ≤ balance_of s a.
Proof. intros [Hs _]. unfold balance_of. destruct (_ !! a) as [x|] eqn:Hx; [exact (Hs _ _ Hx)|done]. Qed.
Lemma funded_move s from to x : funded s → 0 ≤ x ≤ balance_of s from → funded (with_balances (move from to x) s).
Proof.
  intros Hs Hx. split; [|apply Hs]. intros a y Hy. pose proof (balance_move s from to x a) as Hb. unfold balance_of at 1 in Hb.
  rewrite Hy in Hb. cbn in Hb. rewrite Hb. pose proof (funded_balance s a Hs). repeat case_decide; subst; lia.
Qed.

(** ** What reaches the bonds through the governor *)
Section through.
Context (sha256 : bytes → bytes) (dec : bytes → outcome (list native)) (clock : LedgerClock).
Context (R : MockLedgerStore → MockLedgerStore → Prop) `{!PreOrder R}.
Definition bonds_and_votes (s : MockLedgerStore) := (st_proposalBonds s, st_votes s, st_addresses s).
Context (Hkeep : ∀ s s', keeps bonds_and_votes s s' → R s s').
Context (Hbond : ∀ c s, (∀ x p h, c = BLock x p h → x = a_governor (st_addresses s)) → R s (bond_run clock c s).2).

Lemma run_state {A} (m : M MockLedgerStore A) s : R s (m s).2 → wp m (λ _, R s) (λ _, R s) s.
Proof. unfold wp. by destruct (m s) as [[] ?]. Qed.
Lemma dispatch_through p : Evolves R (dispatchProposalBondsAction dec clock p).
Proof.
  intros s. apply run_state. unfold dispatchProposalBondsAction. m_run.
  destruct (match p_opIds p with | EmptyString :: _ | [] => None | _ :: _ => _ end) as [op|]; [|done].
  destruct (negb _); [done|]. destruct (bonds_handler (op_fnName op)) eqn:Hh; [|done].
  destruct (dec (op_data op)); [|done]. cbn. unfold bonds_handler in Hh. repeat (case_match; simplify_eq); try done.
  - apply (Hbond (BLock _ _ _)). by intros ? ? ? [= <-].
  - by apply (Hbond (BRefund _ _ _ _)).
  - by apply (Hbond (BSlash _ _ _ _)).
Qed.
Lemma gov_run_through c : Evolves R (gov_run sha256 dec clock c).
Proof.
  destruct c; try (apply (ev_weaken (keeps bonds_and_votes)); [exact Hkeep|]; unfold gov_run, GovernorExecutor.propose,
    GovernorExecutor.propose_via_registry, GovernorExecutor.cast_vote, GovernorExecutor.queue, GovernorExecutor.cancel,
    GovernorExecutor.cancel_queued, GovernorExecutor.pause, GovernorExecutor.unpause, createProposal; ev_go; fail).
  cbn [gov_run]. unfold GovernorExecutor.execute.
  do 6 (apply ev_bind; [apply _|apply (ev_weaken (keeps bonds_and_votes)); [exact Hkeep|ev_go]|intros ?]).
  apply ev_bind; [apply _|apply dispatch_through|intros ?]. apply (ev_weaken (keeps bonds_and_votes)); [exact Hkeep|ev_go].
Qed.
End through.

(** ** A request, seen by each contract *)
Section requests.
Context (sha256 : bytes → bytes) (dec : bytes → outcome (list native)) (P Q : Prop) (clock : LedgerClock) (caller : string).
Abbreviation request s s' := (∃ t, served sha256 dec P Q clock caller s t s').

Lemma governor_frame c s : keeps beside_governor s (gov_run sha256 dec clock c s).2.
Proof. apply evolves_state, _. Qed.
Lemma bonds_frames c s : keeps beside_bonds s (bond_run clock c s).2.
Proof. apply evolves_state, _. Qed.
Lemma treasury_frame c s : keeps beside_treasury s (treasury_run clock c s).2.
Proof. apply evolves_state, _. Qed.
Lemma drafts_frame c s : keeps beside_coSponsorship s (cosponsor_run clock c s).2.
Proof. apply evolves_state, _. Qed.
Lemma conviction_frame c s : keeps beside_conviction s (conviction_run clock c s).2.
Proof. apply evolves_state, _. Qed.
Lemma optimistic_frame c s : keeps beside_optimistic s (optimistic_run clock c s).2.
Proof. apply evolves_state, _. Qed.
Lemma delegate_frame a b s : keeps beside_votes s (on_votes (TokenVotes.delegate clock caller a b) s).2.
Proof. apply evolves_state, _. Qed.
Lemma schedule_frame t d f n ids s : keeps beside_timelock s (on_timelock (schedule_with_deps sha256 clock t d f n ids) s).2.
Proof. exact (evolves_state (keeps beside_timelock) _ s). Qed.
(** What a call leaves of the part in question. *)
Ltac by_frame :=
  try match goal with
  | |- context [gov_run sha256 dec clock ?c ?s] => pose proof (governor_frame c s) 
  | |- context [bond_run clock ?c ?s] => pose proof (bonds_frames c s) 
  | |- context [treasury_run clock ?c ?s] => pose proof (treasury_frame c s) 
  | |- context [cosponsor_run clock ?c ?s] => pose proof (drafts_frame c s) 
  | |- context [conviction_run clock ?c ?s] => pose proof (conviction_frame c s) 
  | |- context [optimistic_run clock ?c ?s] => pose proof (optimistic_frame c s) 
  | |- context [TokenVotes.delegate clock caller ?a ?b] => match goal with |- context [on_votes _ ?s] => pose proof (delegate_frame a b s)  end
  | |- context [schedule_with_deps sha256 clock ?t ?d ?f ?n ?ids] =>
    match goal with |- context [on_timelock _ ?s] => pose proof (schedule_frame t d f n ids s)  end
  end;
  unfold keeps, beside_governor, beside_bonds, beside_treasury, beside_coSponsorship, beside_conviction, beside_optimistic,
    beside_votes, beside_timelock, vote_books in *;
  simplify_eq; try done; try congruence.

Lemma request_treasury s s' : request s s' → treasury_step s s'.
Proof. intros [t Hreq]; destruct Hreq; try (apply tr_env; by_frame; fail). by eapply tr_call. Qed.
Lemma request_drafts s s' : request s s' → draft_step (clock, s) (clock, s').
Proof. intros [t Hreq]; destruct Hreq; try (apply ds_other; by_frame; fail). apply ds_call. Qed.
Lemma request_conviction s s' : request s s' → conviction_step (clock, s) (clock, s').
Proof. intros [t Hreq]; destruct Hreq; try (apply cs_other; by_frame; fail). apply cs_call. Qed.
Lemma request_optimistic s s' : request s s' → optimistic_step anything (clock, s) (clock, s').
Proof. intros [t Hreq]; destruct Hreq; try (apply os_other; [by_frame|done]; fail). apply os_call. Qed.

(** *** The bonds *)
Definition bond_history (s s' : MockLedgerStore) : Prop :=
  apart (st_addresses s) → st_addresses s' = st_addresses s ∧ rtc bond_step s s'.
#[local] Instance bond_history_preorder : PreOrder bond_history.
Proof.
  split; [done|]. intros s1 s2 s3 H1 H2 Ha. destruct (H1 Ha) as [E1 R1]. destruct H2 as [E2 R2]; [by rewrite E1|].
  split; [congruence|by etrans].
Qed.
Lemma env_history s s' : pbs_bonds (st_proposalBonds s') = pbs_bonds (st_proposalBonds s) → st_addresses s' = st_addresses s →
  balance_of s (a_proposalBonds (st_addresses s)) ≤ balance_of s' (a_proposalBonds (st_addresses s)) → bond_history s s'.
Proof. intros Hb Ha Hle _. split; [done|]. apply rtc_once, step_env; done. Qed.
Lemma env_same s s' : st_proposalBonds s' = st_proposalBonds s → st_addresses s' = st_addresses s →
  tv_balances (st_votes s') = tv_balances (st_votes s) → bond_history s s'.
Proof. intros H1 H2 H3. apply env_history; unfold balance_of; by rewrite ?H1, ?H2, ?H3. Qed.
Lemma bond_call_history c s : (∀ x p h, c = BLock x p h → x ≠ a_proposalBonds (st_addresses s)) → bond_history s (bond_run clock c s).2.
Proof.
  intros Hc _. pose proof (bonds_frames c s) as Hframe. unfold keeps, beside_bonds in Hframe. split; [congruence|]. clear Hframe.
  destruct c as [x p h|x r h id|x y h r]; [|by apply rtc_once, (step_call _ _ clock (BRefund x r h id))|
    by apply rtc_once, (step_call _ _ clock (BSlash x y h r))].
  destruct (String.eqb_spec x p) as [->|Hne].
  - apply rtc_once, (step_call _ _ clock (BLock p p h)); [|done]. intros ? ? ? [= <- <- <-]. by eapply Hc.
  - replace (bond_run clock (BLock x p h) s).2 with s; [done|]. unfold bond_run, lock_bond, requireSigner. m_run.
    by rewrite (proj2 (String.eqb_neq _ _) Hne).
Qed.
Lemma gov_bond_history c s : bond_history s (gov_run sha256 dec clock c s).2.
Proof.
  refine (evolves_state bond_history _ s). apply gov_run_through; [apply _| |].
  - intros s1 s2 [= H1 H2 H3]. apply env_same; congruence.
  - intros b s1 Hb Ha. apply bond_call_history; [|done]. intros x p h ->. rewrite (Hb x p h eq_refl). apply Ha.
Qed.
(** A treasury call pays from the treasury or leaves the token alone. *)
Lemma treasury_pays c s :
  st_votes (treasury_run clock c s).2 = st_votes s ∨
  ∃ recipient amount, 0 < amount ≤ balance_of s (a_treasury (st_addresses s)) ∧
    st_votes (treasury_run clock c s).2 = st_votes (with_balances (move (a_treasury (st_addresses s)) recipient amount) s).
Proof.
  destruct c as [x y n o t a st e m cd p|x o id r a memo|x y id a].
  - left. refine (evolves_state (keeps st_votes) _ s). unfold treasury_run, TreasuryExecutor.create_stream,
      TreasuryExecutor.requireSigner, TreasuryExecutor.requireGovernor. ev_go.
  - cbn [treasury_run]. destruct (stream_spend_run clock x o id r a memo s) as [(b & _ & _ & [] & Hle & ->)|[_ [e ->]]]; [|by left].
    right. exists r, a. split; [lia|done].
  - left. refine (evolves_state (keeps st_votes) _ s). unfold treasury_run, TreasuryExecutor.top_up_stream,
      TreasuryExecutor.requireSigner, TreasuryExecutor.requireGovernor. ev_go.
Qed.
Lemma treasury_bond_history c s : bond_history s (treasury_run clock c s).2.
Proof.
  intros Ha. pose proof (treasury_frame c s) as Hframe. unfold keeps, beside_treasury in Hframe.
  apply env_history; [congruence..| |done].
  destruct (treasury_pays c s) as [E|(r & x & Hx & E)]; [unfold balance_of; by rewrite E|].
  unfold balance_of at 2. rewrite E. fold (balance_of (with_balances (move (a_treasury (st_addresses s)) r x) s)
    (a_proposalBonds (st_addresses s))). rewrite balance_move. destruct Ha. repeat case_decide; try lia; congruence.
Qed.
Lemma request_bonds s s' : caller ≠ a_proposalBonds (st_addresses s) → request s s' → bond_history s s'.
Proof.
  intros Hc [t Hreq]. destruct Hreq; try (apply env_same; by_frame; fail).
  - apply gov_bond_history.
  - apply bond_call_history. intros x p h ->. by rewrite (H x p h eq_refl).
  - apply treasury_bond_history.
Qed.

(** *** The votes *)
Definition votes_now (v v' : TokenVotesState) : Prop := votes_step (clock, v) (clock, v').
Definition votes_history (s s' : MockLedgerStore) : Prop := funded s → funded s' ∧ rtc votes_now (st_votes s) (st_votes s').
#[local] Instance votes_history_preorder : PreOrder votes_history.
Proof.
  split; [done|]. intros s1 s2 s3 H1 H2 Hf. destruct (H1 Hf) as [F1 R1]. destruct (H2 F1) as [F2 R2]. split; [done|by etrans].
Qed.
Lemma same_votes_history s s' : st_votes s' = st_votes s → st_proposalBonds s' = st_proposalBonds s → votes_history s s'.
Proof. intros E1 E2 [H1 H2]. rewrite E1. split; [|done]. split; by rewrite ?E1, ?E2. Qed.
Lemma paid_history s s' : vote_books s' = vote_books s → (funded s → funded s') → votes_history s s'.
Proof.
  intros Hb Hf Hs. split; [by apply Hf|]. apply rtc_once. unfold votes_now, vote_books in *.
  replace (st_votes s') with ((st_votes s) <| tv_balances := tv_balances (st_votes s') |>).
  - apply votes_step_balances, fu_balances, Hf, Hs.
  - destruct (st_votes s), (st_votes s'). cbn in *. congruence.
Qed.
Lemma bond_call_votes c s : votes_history s (bond_run clock c s).2.
Proof.
  pose proof (bonds_frames c s) as Hframe. unfold keeps, beside_bonds in Hframe. apply paid_history; [congruence|]. clear Hframe.
  intros Hs. destruct (bond_run_effect (λ _, True) clock c s ltac:(done)) as [|clock' p key _ _ Hp|key b r st Hkey _ _ Hb]; [done| |].
  - destruct (funded_move s p (a_proposalBonds (st_addresses s)) (pbs_bondAmount (st_proposalBonds s)) Hs) as [H1 H2]; [lia|].
    split; [exact H1|]. cbn. apply map_Forall_insert_2; [cbn; lia|exact H2].
  - destruct (funded_move s (a_proposalBonds (st_addresses s)) r (pb_amount b) Hs) as [H1 H2].
    { split; [exact (fu_bonds _ Hs _ _ Hkey)|done]. }
    split; [exact H1|]. intros k b' Hk. rewrite set_bond_state_bonds in Hk.
    apply lookup_alter_Some in Hk as [(-> & x & Hx & ->)|[_ Hx]]; exact (H2 _ _ Hx).
Qed.
Lemma gov_votes_history c s : votes_history s (gov_run sha256 dec clock c s).2.
Proof.
  refine (evolves_state votes_history _ s). apply gov_run_through; [apply _| |].
  - intros s1 s2 [= H1 H2 H3]. by apply same_votes_history.
  - intros b s1 _. apply bond_call_votes.
Qed.
Lemma treasury_votes_history c s : votes_history s (treasury_run clock c s).2.
Proof.
  pose proof (treasury_frame c s) as Hframe. unfold keeps, beside_treasury in Hframe. apply paid_history; [congruence|].
  intros Hs. destruct (treasury_pays c s) as [E|(r & x & Hx & E)].
  - split; [rewrite E|replace (st_proposalBonds _) with (st_proposalBonds s) by congruence]; apply Hs.
  - destruct (funded_move s (a_treasury (st_addresses s)) r x Hs) as [H1 H2]; [lia|].
    split; [rewrite E; exact H1|]. replace (st_proposalBonds _) with (st_proposalBonds s) by congruence. apply Hs.
Qed.
Lemma delegate_votes_history a b s : votes_history s (on_votes (TokenVotes.delegate clock caller a b) s).2.
Proof.
  intros Hs. pose proof (delegate_frame a b s) as Hframe. unfold keeps, beside_votes in Hframe. split.
  { split; [replace (tv_balances _) with (tv_balances (st_votes s)) by congruence|
      replace (st_proposalBonds _) with (st_proposalBonds s) by congruence]; apply Hs. }
  apply rtc_once. unfold votes_now, on_votes, zoom. destruct (TokenVotes.delegate clock caller a b (st_votes s)) as [o v] eqn:E. cbn.
  by eapply votes_step_delegate.
Qed.
Lemma request_votes s s' : request s s' → votes_history s s'.
Proof.
  intros [t Hreq]. destruct Hreq; try (apply same_votes_history; by_frame; fail).
  - apply gov_votes_history.
  - apply bond_call_votes.
  - apply treasury_votes_history.
  - apply delegate_votes_history.
Qed.

(** *** The governor *)
Lemma votes_world s s' :
  in_range (clock, s) → rtc votes_now (st_votes s) (st_votes s') → st_governor s' = st_governor s → st_timelock s' = st_timelock s →
  rtc (world_step sha256 dec) (clock, s) (clock, s').
Proof.
  intros Hr Hv Hg Ht. etrans.
  - apply (rtc_congruence (λ v, (clock, s <| st_votes := v |>)) (R := votes_now) (world_step sha256 dec)) in Hv.
    + replace s with (s <| st_votes := st_votes s |>) at 1 by (by destruct s). exact Hv.
    + intros v v' Hstep. exact (ws_votes sha256 dec clock clock (s <| st_votes := v |>) v' Hstep Hr).
  - by apply rtc_once, ws_other.
Qed.
Definition governing (s : MockLedgerStore) := (st_governor s, st_timelock s, st_votes s).
Lemma same_world s s' : keeps governing s s' → rtc (world_step sha256 dec) (clock, s) (clock, s').
Proof. intros [= H1 H2 H3]. by apply rtc_once, ws_other. Qed.
(** A draft that is finalized makes a proposal the way [propose_via_registry] does. *)
Lemma finalized_world id d s : finalizable clock s (d_creator d) d →
  (gov_run sha256 dec clock (GRegistry (a_coSponsorship (st_addresses s)) (a_coSponsorship (st_addresses s)) (d_creator d)
    (d_description d) (d_descriptionHash d) (d_metadataUri d) (d_targets d) (d_fnNames d) (d_calldatas d)) s).2 =
  add_proposal clock (draft_proposal clock s d) s ∧
  keeps governing (add_proposal clock (draft_proposal clock s d) s)
    (update_draft id (finalized (powers_of s d)) (add_proposal clock (draft_proposal clock s d) s)).
Proof.
  intros [_ _ _ Hadm]. split; [|done]. cbn [gov_run]. rewrite ignore_result. unfold GovernorExecutor.propose_via_registry. m_run.
  rewrite !String.eqb_refl. cbn -[createProposal].
  destruct (createProposal_run clock (d_creator d) (d_description d) (d_descriptionHash d) (d_metadataUri d) (d_targets d)
    (d_fnNames d) (d_calldatas d) s) as [[_ ->]|[Hno _]]; done.
Qed.
Lemma drafts_world c s : rtc (world_step sha256 dec) (clock, s) (clock, (cosponsor_run clock c s).2).
Proof.
  destruct c as [x cr d h u ts fs ds|x sp id|x cr id].
  1-2: apply same_world; refine (evolves_state (keeps governing) _ s);
    unfold cosponsor_run, CoSponsorshipExecutor.create_draft, CoSponsorshipExecutor.co_sponsor; ev_go.
  cbn [cosponsor_run]. rewrite ignore_result.
  destruct (finalize_draft_run clock x cr id s) as [(d & _ & Hd & Hfin & ->)|[_ [e ->]]]; [|done].
  destruct Hfin as [<- H2 H3 H4]. destruct (finalized_world id d s ltac:(by split)) as [Hrun Hkeep]. cbn [snd]. etrans.
  - apply rtc_once, ws_call.
  - rewrite Hrun. by apply same_world.
Qed.
Lemma request_world s s' : (P → ops_kept clock (st_timelock s) (st_timelock s')) → in_range (clock, s) → funded s → request s s' → rtc (world_step sha256 dec) (clock, s) (clock, s').
Proof.
  intros HP Hr Hf [t Hreq]. destruct Hreq; try (apply same_world; unfold governing; by_frame; fail).
  - apply rtc_once, ws_call.
  - apply votes_world; [done|by apply bond_call_votes|by_frame..].
  - apply votes_world; [done|by apply treasury_votes_history|by_frame..].
  - apply drafts_world.
  - apply votes_world; [done|by apply delegate_votes_history|by_frame..].
  - unfold on_timelock, zoom in *. destruct (schedule_with_deps sha256 clock target data fn delay ids (st_timelock s)) as [o tl] eqn:Hrun.
    pose proof (ws_schedule sha256 dec clock s target data fn delay ids) as Hstep. rewrite Hrun in Hstep.
    assert (P) as HPs by done. specialize (HP HPs).
    destruct o; apply rtc_once; by apply Hstep.
Qed.
(** Nothing changes the delay of the timelock. *)
Lemma gov_delay c s : tl_minDelay (st_timelock (gov_run sha256 dec clock c s).2) = tl_minDelay (st_timelock s).
Proof.
  destruct (gov_run_effect sha256 dec clock c s) as [| | | | |id p opId op t s2 ok _ _ _ _ _ [Hd _ _] [Hg Ht]|
    |id p q t _ _ _ _ _ [Hd _ _]]; try done.
  replace (st_timelock (if ok then _ else _)) with (st_timelock s2) by (by destruct ok). by rewrite Ht.
Qed.
Lemma request_delay s s' : request s s' → tl_minDelay (st_timelock s') = tl_minDelay (st_timelock s).
Proof.
  intros [t Hreq]; destruct Hreq; try (by_frame; fail); [apply gov_delay|].
  unfold on_timelock, zoom, schedule_with_deps. m_run. destruct (existsb _ _); done.
Qed.
End requests.

(** ** Histories of the server *)
Section servers.
Context {codec : Codec} (sha256 : bytes → bytes) (dec : bytes → outcome (list native)).

(** What [sendTransaction] does to the server. *)
Lemma sendTransaction_run tx s :
  (∃ e, sendTransaction sha256 dec tx s = (Throw e, s) ∧
    (tx_operation tx = None ∨ ∃ iv, tx_operation tx = Some iv ∧ resolve (st_addresses (sv_store s)) (iv_contractAddress iv) = None)) ∨
  ∃ iv contract, tx_operation tx = Some iv ∧ resolve (st_addresses (sv_store s)) (iv_contractAddress iv) = Some contract ∧
    let '(o, store) := invoke sha256 dec (sv_clock s) contract iv (sv_store s) in
    sendTransaction sha256 dec tx s =
      (Ok match o with Ok _ => SentPending (tx_hash tx) (timestamp (sv_clock s)) | Throw e => SentError (tx_hash tx) (error_text e) end,
       s <| sv_store := store |>
         <| sv_results ::= <[tx_hash tx := match o with Ok v => Success v | Throw e => Failed (error_text e) end]> |>).
Proof.
  unfold sendTransaction, decodeInvocation, resolveContract. destruct (tx_operation tx) as [iv|] eqn:Htx; [|left; eauto].
  unfold mbind, M_bind, get, unwrap. cbn -[invoke resolve].
  destruct (resolve (st_addresses (sv_store s)) (iv_contractAddress iv)) as [contract|] eqn:Hc; [|left; eauto 10].
  right. exists iv, contract. split_and!; [done..|]. cbn -[invoke].
  by destruct (invoke _ _ _ _ _ _) as [[] store].
Qed.

(** A transaction, signed by an account, with arguments of the types that the
    function's cast names, or the clock; [allowed] restricts the transactions. *)
Inductive server_step (allowed : DecodedInvocation → Prop) : MockSorobanServer → MockSorobanServer → Prop :=
  | srv_send tx o s s' :
    sendTransaction sha256 dec tx s = (o, s') →
    (∀ iv, tx_operation tx = Some iv → iv_caller iv ≠ a_proposalBonds (st_addresses (sv_store s)) ∧ allowed iv ∧
      ∀ contract, resolve (st_addresses (sv_store s)) (iv_contractAddress iv) = Some contract →
        well_typed sha256 dec (sv_clock s) contract iv) →
    server_step allowed s s'
  | srv_advance n o c s : advance n (sv_clock s) = (o, c) → server_step allowed s (s <| sv_clock := c |>)
  | srv_advanceTo n o c s : advanceTo n (sv_clock s) = (o, c) → server_step allowed s (s <| sv_clock := c |>).

(** A transaction is one request of its caller, or nothing. *)
Lemma send_request tx o s s' : sendTransaction sha256 dec tx s = (o, s') →
  sv_clock s' = sv_clock s ∧
  (sv_store s' = sv_store s ∨ ∃ iv contract, tx_operation tx = Some iv ∧
    resolve (st_addresses (sv_store s)) (iv_contractAddress iv) = Some contract ∧
    ∃ t, served sha256 dec (schedules contract (iv_functionName iv)) (interrupts contract (iv_functionName iv)) (sv_clock s) (iv_caller iv) (sv_store s) t (sv_store s')).
Proof.
  intros Hsend. destruct (sendTransaction_run tx s) as [(e & Hrun & _)|(iv & contract & Htx & Hc & Hrun)].
  - rewrite Hrun in Hsend. injection Hsend as <- <-. by split; [|left].
  - pose proof (dispatch_served sha256 dec (sv_clock s) contract iv (sv_store s)) as Hserved.
    rewrite <- (invoke_state sha256 dec (sv_clock s) contract iv (sv_store s)) in Hserved. destruct (invoke _ _ _ _ _ _) as [r store].
    rewrite Hrun in Hsend. injection Hsend as <- <-. split; [done|]. right. eauto 10.
Qed.
(** The clock only moves forward. *)
Lemma clock_forward n o c c' : advance n c = (o, c') ∨ advanceTo n c = (o, c') → sequence c ≤ sequence c'.
Proof.
  intros [H|H]; [pose proof (wp_run _ _ _ _ _ _ H (advance_monotone n c)) as Hle|
    pose proof (wp_run _ _ _ _ _ _ H (advanceTo_monotone n c)) as Hle]; destruct o; [done|by subst|done|by subst].
Qed.

Definition world_of (s : MockSorobanServer) : LedgerClock * MockLedgerStore := (sv_clock s, sv_store s).
Definition votes_of (s : MockSorobanServer) : LedgerClock * TokenVotesState := (sv_clock s, st_votes (sv_store s)).
Record contracts_move (s s' : MockSorobanServer) : Prop := {
  cm_addresses : st_addresses (sv_store s') = st_addresses (sv_store s);
  cm_funded : funded (sv_store s');
  cm_bonds : rtc bond_step (sv_store s) (sv_store s');
  cm_treasury : rtc treasury_step (sv_store s) (sv_store s');
  cm_drafts : rtc draft_step (world_of s) (world_of s');
  cm_conviction : rtc conviction_step (world_of s) (world_of s');
  cm_optimistic : rtc (optimistic_step anything) (world_of s) (world_of s');
  cm_votes : rtc votes_step (votes_of s) (votes_of s') }.

Lemma contracts_move_refl s : funded (sv_store s) → contracts_move s s.
Proof. by split. Qed.
Lemma contracts_move_trans s1 s2 s3 : contracts_move s1 s2 → contracts_move s2 s3 → contracts_move s1 s3.
Proof. intros [] []. split; try congruence; by etrans. Qed.
Lemma clock_moves c s : votes_step (votes_of s) (c, st_votes (sv_store s)) → sequence (sv_clock s) ≤ sequence c →
  funded (sv_store s) → contracts_move s (s <| sv_clock := c |>).
Proof.
  intros Hv Hle Hf. split; try done; apply rtc_once; [by apply ds_time|by apply cs_time|by apply os_time|done].
Qed.
Lemma step_moves allowed s s' : server_step allowed s s' → apart (st_addresses (sv_store s)) → funded (sv_store s) → contracts_move s s'.
Proof.
  intros [tx o s1 s2 Hsend Hok|n o c s1 Hadv|n o c s1 Hadv] Ha Hf.
  - destruct (send_request _ _ _ _ Hsend) as [Hclk [Hst|(iv & contract & Htx & _ & Hreq)]].
    + split; unfold world_of, votes_of; rewrite ?Hclk, ?Hst; done.
    + destruct (Hok iv Htx) as [Hcaller _]. destruct (request_bonds _ _ _ _ _ _ _ _ Hcaller Hreq Ha) as [Haddr Hbonds].
      destruct (request_votes _ _ _ _ _ _ _ _ Hreq Hf) as [Hf' Hvotes].
      split; unfold world_of, votes_of; rewrite ?Hclk; try done.
      * by eapply rtc_once, request_treasury.
      * by eapply rtc_once, request_drafts.
      * by eapply rtc_once, request_conviction.
      * by eapply rtc_once, request_optimistic.
      * by apply (rtc_congruence (pair (sv_clock s1)) (R := votes_now (sv_clock s1)) votes_step).
  - apply clock_moves; [by eapply votes_step_advance|by eapply clock_forward; left|done].
  - apply clock_moves; [by eapply votes_step_advanceTo|by eapply clock_forward; right|done].
Qed.
Lemma history_moves allowed s s' : rtc (server_step allowed) s s' → apart (st_addresses (sv_store s)) → funded (sv_store s) →
  contracts_move s s'.
Proof.
  induction 1 as [s|s s1 s' Hstep _ IH]; intros Ha Hf; [by apply contracts_move_refl|].
  pose proof (step_moves _ _ _ Hstep Ha Hf) as Hm. eapply contracts_move_trans; [exact Hm|].
  apply IH; [by rewrite (cm_addresses _ _ Hm)|apply Hm].
Qed.

(** A dependent operation that is scheduled replaces none by one that is due sooner
    and in less than the minimum delay, and the times stay exact. *)
Definition keeps_delays (s s' : MockSorobanServer) (iv : DecodedInvocation) : Prop :=
  iv_functionName iv = "schedule_with_deps" → ops_kept (sv_clock s) (st_timelock (sv_store s)) (st_timelock (sv_store s')).
Definition timed_step (s s' : MockSorobanServer) : Prop := server_step (keeps_delays s s') s s' ∧ in_range (world_of s').
Lemma clock_world s c : votes_step (votes_of s) (c, st_votes (sv_store s)) → in_range (c, sv_store s) →
  rtc (world_step sha256 dec) (world_of s) (c, sv_store s).
Proof.
  intros Hv Hr. apply rtc_once. replace (c, sv_store s) with (c, (sv_store s) <| st_votes := st_votes (sv_store s) |>)
    by (by destruct (sv_store s)). by apply ws_votes.
Qed.
Lemma step_world s s' : timed_step s s' → in_range (world_of s) → funded (sv_store s) →
  rtc (world_step sha256 dec) (world_of s) (world_of s').
Proof.
  intros [Hstep Hr'] Hr Hf.
  assert (∃ allowed, (∀ iv, allowed iv → keeps_delays s s' iv) ∧ server_step allowed s s') as (allowed & Hkeep & Hs) by eauto.
  clear Hstep. destruct Hs as [tx o s1 s2 Hsend Hok|n o c s1 Hadv|n o c s1 Hadv].
  - destruct (send_request _ _ _ _ Hsend) as [Hclk [Hst|(iv & contract & Htx & _ & Hreq)]].
    + unfold world_of. by rewrite Hclk, Hst.
    + unfold world_of. rewrite Hclk. eapply request_world; [|exact Hr|exact Hf|exact Hreq].
      intros [_ Hfn]. destruct (Hok iv Htx) as (_ & Hiv & _). by apply (Hkeep iv Hiv).
  - refine (clock_world s1 c _ Hr'). by eapply votes_step_advance.
  - refine (clock_world s1 c _ Hr'). by eapply votes_step_advanceTo.
Qed.
Lemma timed_world s s' : rtc timed_step s s' → apart (st_addresses (sv_store s)) → in_range (world_of s) → funded (sv_store s) →
  rtc (world_step sha256 dec) (world_of s) (world_of s').
Proof.
  induction 1 as [s|s s1 s' Hstep _ IH]; intros Ha Hr Hf; [done|]. etrans; [by apply step_world|].
  pose proof (step_moves _ _ _ (proj1 Hstep) Ha Hf) as Hm. apply IH; [by rewrite (cm_addresses _ _ Hm)|apply Hstep|apply Hm].
Qed.
End servers.

(** * What the server answers

    A simulation predicts the transaction it is made of; a transaction that
    fails leaves the store as it was, but for two calls of the governor and for
    results that have no encoding. *)
(** ** Calls that write only when they return *)
Class Atomic {S A} (m : M S A) : Prop := atomic : ∀ s, wp m (λ _ _, True) (λ _ s', s' = s) s.
Class Sure {S A} (m : M S A) : Prop := sure : ∀ s, wp m (λ _ _, True) (λ _ _, False) s.

Section atomic.
Context {S : Type}.
Implicit Type s : S.
Lemma at_looks {A} (m : M S A) : Looks m → Atomic m.
Proof. intros Hm s. eapply wp_mono; [apply Hm|done|done]. Qed.
Lemma at_bind_looks {A B} (m : M S B) (k : B → M S A) : Looks m → (∀ b, Atomic (k b)) → Atomic (m ≫= k).
Proof.
  intros Hm Hk s. apply wp_bind. eapply wp_mono; [apply Hm| |done]. cbn. unfold keeps, id. intros b s' ->. apply Hk.
Qed.
Lemma at_bind_sure {A B} (m : M S B) (k : B → M S A) : Atomic m → (∀ b, Sure (k b)) → Atomic (m ≫= k).
Proof.
  intros Hm Hk s. apply wp_bind. eapply wp_mono; [apply Hm| |done]. cbn. intros b s' _.
  eapply wp_mono; [apply Hk|done|done].
Qed.
Lemma at_fmap {A B} (f : A → B) (m : M S A) : Atomic m → Atomic (f <$> m).
Proof. intros Hm s. specialize (Hm s). unfold wp, fmap, M_fmap in *. by destruct (m s) as [[] ?]. Qed.
Lemma at_zoom {T A} (rd : S → T) wr (m : M T A) : (∀ s, wr (rd s) s = s) → Atomic m → Atomic (zoom rd wr m).
Proof.
  intros Hwr Hm s. specialize (Hm (rd s)). unfold wp, zoom in *. destruct (m (rd s)) as [[] t]; [done|]. by rewrite Hm, Hwr.
Qed.
#[export] Instance sure_ret {A} (a : A) : Sure (mret (M := M S) a).
Proof. intros s. by apply wp_ret. Qed.
#[export] Instance sure_modify f : Sure (modify (S := S) f).
Proof. intros s. by apply wp_modify. Qed.
#[export] Instance sure_get : Sure (get (S := S)).
Proof. intros s. by apply wp_get. Qed.
#[export] Instance sure_bind {A B} (m : M S B) (k : B → M S A) : Sure m → (∀ b, Sure (k b)) → Sure (m ≫= k).
Proof. intros Hm Hk s. apply wp_bind. eapply wp_mono; [apply Hm| |done]. cbn. intros b s' _. apply Hk. Qed.
Lemma at_sure {A} (m : M S A) : Sure m → Atomic m.
Proof. intros Hm s. eapply wp_mono; [apply Hm|done|done]. Qed.
(** The store after a call that threw. *)
Lemma atomic_threw {A} (m : M S A) s : Atomic m → threw (m s) = true → (m s).2 = s.
Proof. intros Hm. specialize (Hm s). unfold wp, threw in *. by destruct (m s) as [[] ?]. Qed.
End atomic.
Ltac at_go :=
  repeat first
    [ progress cbv zeta
    | lazymatch goal with
      | |- Atomic (mbind _ _) => first [apply at_bind_looks; [solve [ev_go]|intros ?] | apply at_bind_sure; [|intros ?; apply _]]
      | |- _ => first [apply at_looks; solve [ev_go] | solve [apply at_sure; apply _] | case_match]
      end ].

#[export] Instance atomic_transfer from to x : Atomic (transfer from to x).
Proof. unfold transfer. at_go. Qed.
#[export] Instance atomic_bond_run clock c : Atomic (bond_run clock c).
Proof. destruct c; unfold bond_run, lock_bond, refund_bond, slash, requireSigner, mustGetBond, refund_allowed; at_go; apply _. Qed.
#[export] Instance atomic_treasury_run clock c : Atomic (treasury_run clock c).
Proof.
  destruct c; unfold treasury_run, TreasuryExecutor.create_stream, TreasuryExecutor.stream_spend, TreasuryExecutor.top_up_stream,
    TreasuryExecutor.requireSigner, TreasuryExecutor.requireGovernor, TreasuryExecutor.transferFromTreasury; at_go.
Qed.
#[export] Instance atomic_create clock p d h u ts fs ds b : Atomic (createProposal clock p d h u ts fs ds b).
Proof. unfold createProposal. at_go. Qed.
Lemma atomic_gov_run sha256 dec clock c : ¬ interrupted c → Atomic (gov_run sha256 dec clock c).
Proof.
  destruct c; intros Hc; try (by destruct Hc); clear Hc; unfold gov_run, GovernorExecutor.propose,
    GovernorExecutor.propose_via_registry, GovernorExecutor.cast_vote, GovernorExecutor.queue, GovernorExecutor.cancel,
    GovernorExecutor.pause, GovernorExecutor.unpause; at_go; try apply _.
  apply at_zoom; [by intros []|]. unfold scheduleOperation. at_go.
Qed.
#[export] Instance atomic_cosponsor_run clock c : Atomic (cosponsor_run clock c).
Proof.
  destruct c; unfold cosponsor_run, CoSponsorshipExecutor.create_draft, CoSponsorshipExecutor.co_sponsor,
    CoSponsorshipExecutor.finalize_draft, GovernorExecutor.propose_via_registry; at_go; apply _.
Qed.
(** Both snapshots an objection reads are in the past, or neither is. *)
#[export] Instance atomic_object clock objector id : Atomic (OptimisticGovernorExecutor.object clock objector id).
Proof.
  intros s. unfold OptimisticGovernorExecutor.object, OptimisticGovernorExecutor.mustGetProposal. wp_go; try done.
  destruct (Z.ltb_spec (sequence clock) (o_createdLedger a)) as [Hlt|Hle].
  - unfold on_votes, get_past_votes. wp_go; [by destruct s|by destruct s|lia].
  - eapply wp_read; [by apply on_votes_read, get_past_votes_run|]. wp_go; [done|].
    eapply wp_read; [by apply on_votes_read, get_past_total_supply_run|]. by wp_go.
Qed.
#[export] Instance atomic_optimistic_run clock c : Atomic (optimistic_run clock c).
Proof.
  destruct c; try (cbn [optimistic_run]; apply _); unfold optimistic_run, OptimisticGovernorExecutor.propose,
    OptimisticGovernorExecutor.finalize, OptimisticGovernorExecutor.execute, OptimisticGovernorExecutor.cancel,
    OptimisticGovernorExecutor.update_config, OptimisticGovernorExecutor.mustGetProposal; at_go.
Qed.
#[export] Instance atomic_delegate clock caller a b : Atomic (on_votes (TokenVotes.delegate clock caller a b)).
Proof. apply at_zoom; [by intros []|]. unfold TokenVotes.delegate. at_go. Qed.
#[export] Instance atomic_schedule sha256 clock t d f n ids : Atomic (on_timelock (schedule_with_deps sha256 clock t d f n ids)).
Proof. apply at_zoom; [by intros []|]. unfold schedule_with_deps. at_go. Qed.
(** The conviction contract, in the states its histories reach. *)
Lemma conviction_run_threw clock c s :
  conv_ok (sequence clock) (st_convictionVoting s) → threw (conviction_run clock c s) = true → (conviction_run clock c s).2 = s.
Proof.
  intros Hok. destruct c as [caller p t f d a|caller a id x|caller a|id|id o l]; cbn [conviction_run]; rewrite ?ignore_threw, ?ignore_result.
  - apply atomic_threw. unfold ConvictionVotingExecutor.create_proposal, on_conviction. at_go. apply at_zoom; [by intros []|]. at_go.
  - destruct (stake_run clock caller a id x s Hok) as [(c' & p & _ & _ & _ & _ & -> & _)|[_ [e ->]]]; done.
  - destruct (withdraw_stake_run clock caller a s Hok) as [(c' & -> & _)|[e ->]]; done.
  - destruct (cv_proposals (st_convictionVoting s) !! id) as [p|] eqn:Hp.
    + rewrite (checkpoint_run _ _ _ _ Hok Hp). cbv zeta. by repeat case_match.
    + destruct (mustGetProposal_none _ _ Hp) as [e He]. unfold ConvictionVotingExecutor.checkpoint_conviction. intros _.
      erewrite bind_throw by (by apply on_conviction_run). apply on_conv_id.
  - unfold ConvictionVotingExecutor.get_stakes, on_conviction. apply atomic_threw, at_zoom; [by intros []|].
    unfold ConvictionVotingExecutor.mustGetProposal, ConvictionVotingExecutor.stakesFor. at_go.
Qed.

(** A request that threw. *)
Lemma request_threw sha256 dec P Q clock caller s s' :
  served sha256 dec P Q clock caller s true s' → conv_ok (sequence clock) (st_convictionVoting s) → s' = s ∨ Q.
Proof.
  intros Hreq Hok. remember true as t eqn:Ht. destruct Hreq; try (left; by apply atomic_threw; first [apply _|done]); [by left| |].
  - destruct c; try (left; apply atomic_threw; [by apply atomic_gov_run; intros []|done]); right; by apply H.
  - left. by apply conviction_run_threw.
Qed.
