(* ===== verification/ServerSafety.v ===== *)
(** * The mock RPC server: properties *)

From S2P Require Import Prelude SdkErrors JsValues Effects AddressOrder Store TokenVotes Timelock Proposals ProposalBonds.
From S2P Require Import Governor GovernorSafety Treasury CoSponsorship Conviction Optimistic.
From S2P Require Import Server ServerFrames ServerHistories.
Open Scope Z_scope.

(** ** A server to run the theorems on

    The encoder takes the addresses of the store and three accounts for addresses
    and nothing else. *)
Module ServerExample.
Import StoreExamples.
Definition known_addresses : list string :=
  ["gov"; "timelock"; "votes"; "cosponsor"; "optimistic"; "treasury"; "conviction"; "bonds"; "admin"; "guardian"; "alice"; "bob"].
Definition encoder (v : Encodable) (type : string) : outcome ScVal :=
  match v with
  | EText s => if String.eqb type "address" && negb (among known_addresses s) then Throw (PlainError "Unsupported address type")
               else Ok (scvNative type v)
  | _ => Ok (scvNative type v)
  end.
#[export] Instance codec : Codec := encoder.
Definition sha (b : bytes) : bytes := firstn 4 b.
Definition dec (b : bytes) : outcome (list native) := Ok [].
Definition transaction (caller contract fnName : string) (args : list Arg) (hash : string) : Transaction :=
  mkTransaction (Some (mkInvocation contract fnName args caller)) hash.
Definition server0 : MockSorobanServer := mkServer store (clk 7) ∅.
Definition after (tx : Transaction) (s : MockSorobanServer) : MockSorobanServer := (sendTransaction sha dec tx s).2.
Definition delegate_tx := transaction "alice" "votes" "delegate" [AText "alice"; AText "bob"] "h1".
Definition propose_tx := transaction "bob" "gov" "propose"
  [AText "bob"; AText "text"; ABytes []; AText "uri"; AList [AText "t"]; AList [AText "f"]; AList [ABytes []]] "h2".
Definition schedule_tx := transaction "bob" "timelock" "schedule_with_deps" [AText "t"; ABytes []; AText "f"; ABig 10; AList []] "h3".
Definition power_tx := transaction "bob" "votes" "get_votes" [AText "bob"] "h4".
Definition delegated := after delegate_tx server0.
Definition later := delegated <| sv_clock := clk 8 |>.
Definition proposed := after propose_tx later.

Lemma start_funded : funded (sv_store server0).
Proof. split; apply (bool_decide_unpack _); vm_compute; exact I. Qed.
Lemma start_apart : apart (st_addresses (sv_store server0)).
Proof. by split. Qed.
Lemma sent caller contract fnName args hash s s' :
  caller ≠ a_proposalBonds (st_addresses (sv_store s)) → fnName ≠ "schedule_with_deps" →
  (∀ c, resolve (st_addresses (sv_store s)) contract = Some c →
     well_typed sha dec (sv_clock s) c (mkInvocation contract fnName args caller)) →
  s' = after (transaction caller contract fnName args hash) s → server_step sha dec (keeps_delays s s') s s'.
Proof.
  intros Hc Hf Ht ->. eapply (srv_send _ _ _ _ (sendTransaction sha dec (transaction caller contract fnName args hash) s).1).
  - apply surjective_pairing.
  - intros iv [= <-]. split_and!; [done| |done]. by intros ?.
Qed.
Lemma ranged n s : sv_clock s = clk n → tl_minDelay (st_timelock (sv_store s)) = 10 → 0 ≤ n ≤ 1000 → in_range (world_of s).
Proof.
  intros Hc Hd Hn. unfold in_range, world_of. rewrite Hc. cbn [fst snd]. rewrite Hd, timestamp_eq. unfold clk. cbn.
  change (2 ^ 53) with 9007199254740992. lia.
Qed.
Ltac typed := intros c Hc; vm_compute in Hc; injection Hc as <-; hnf; eexists; reflexivity.
Lemma timed_history : rtc (timed_step sha dec) server0 proposed.
Proof.
  apply (rtc_l _ _ delegated).
  { split; [eapply sent; [| | |reflexivity]; [done|done|typed]|]. apply (ranged 7); [vm_compute; reflexivity..|lia]. }
  apply (rtc_l _ _ later).
  { split; [|apply (ranged 8); [vm_compute; reflexivity..|lia]].
    apply (srv_advance _ _ _ 1 (Ok tt)). vm_compute. reflexivity. }
  apply rtc_once. split; [eapply sent; [| | |reflexivity]; [done|done|typed]|]. apply (ranged 8); [vm_compute; reflexivity..|lia].
Qed.
(** The timelock returns the operation's id, and the server tries to encode it
    as an address: the transaction fails, but the operation is scheduled. *)
Lemma failed_schedule :
  (sendTransaction sha dec schedule_tx server0).1 = Ok (SentError "h3" "Unsupported address type") ∧
  size (tl_operations (st_timelock (sv_store server0))) = 0%nat ∧
  size (tl_operations (st_timelock (sv_store (after schedule_tx server0)))) = 1%nat.
Proof. vm_compute. auto. Qed.
End ServerExample.

(** ** Properties *)
Section properties.
Context {codec : Codec} (sha256 : bytes → bytes) (dec : bytes → outcome (list native)).

(** C26: simulation predicts the transaction.  [simulateTransaction] leaves the
    server as it is, and tells what [sendTransaction] in the same state does: it
    throws where sending throws; a value it answers is what [getTransaction] gives
    for the transaction once it is sent, which is then pending; and the error
    text it answers is the one with which sending fails, after which
    [getTransaction] finds a failure. *)
Theorem simulation_predicts_send tx s :
  let '(answer, s1) := simulateTransaction sha256 dec tx s in
  let '(sent, s2) := sendTransaction sha256 dec tx s in
  s1 = s ∧
  match answer with
  | Throw e => sent = Throw e ∧ s2 = s
  | Ok (SimulatedValue ledger v) =>
    ledger = sequence (sv_clock s) ∧ sent = Ok (SentPending (tx_hash tx) (timestamp (sv_clock s))) ∧
    getTransaction (tx_hash tx) s2 = (Ok (FoundSuccess v ledger), s2)
  | Ok (SimulatedError ledger e) =>
    ledger = sequence (sv_clock s) ∧ sent = Ok (SentError (tx_hash tx) e) ∧ getTransaction (tx_hash tx) s2 = (Ok FoundFailed, s2)
  end.
Proof.
  unfold simulateTransaction, sendTransaction, decodeInvocation, resolveContract, mbind, M_bind, get, unwrap.
  destruct (tx_operation tx) as [iv|]; [|done]. cbn -[invoke resolve].
  destruct (resolve _ _) as [contract|]; [|done]. cbn -[invoke].
  destruct (invoke _ _ _ _ _ _) as [[v|e] store]; cbn; unfold getTransaction, gets; cbn; by rewrite lookup_insert_eq.
Qed.

(** C25: the server refines its contracts.  From a store without negative balances
    or bonds, whose bonds contract shares its address neither with the governor
    nor with the treasury, whatever transactions the server is sent of accounts
    other than the bonds contract, with arguments of the types that the functions
    declare, and however its clock is advanced, the store moves by the steps of the
    bonds, treasury, co-sponsorship, conviction, optimistic and token models.  It
    moves by the steps of the governor's model, too, as long as the times stay exact
    doubles and no dependent operation that is scheduled replaces one by another that
    is due sooner and in less than the minimum delay. *)
Theorem server_refines_contracts s s' :
  apart (st_addresses (sv_store s)) → funded (sv_store s) →
  (rtc (server_step sha256 dec (λ _, True)) s s' →
    rtc bond_step (sv_store s) (sv_store s') ∧
    rtc treasury_step (sv_store s) (sv_store s') ∧
    rtc draft_step (sv_clock s, sv_store s) (sv_clock s', sv_store s') ∧
    rtc conviction_step (sv_clock s, sv_store s) (sv_clock s', sv_store s') ∧
    rtc (optimistic_step anything) (sv_clock s, sv_store s) (sv_clock s', sv_store s') ∧
    rtc votes_step (sv_clock s, st_votes (sv_store s)) (sv_clock s', st_votes (sv_store s'))) ∧
  (in_range (sv_clock s, sv_store s) → rtc (timed_step sha256 dec) s s' →
    rtc (world_step sha256 dec) (sv_clock s, sv_store s) (sv_clock s', sv_store s')).
Proof.
  intros Ha Hf. split.
  - intros Hsteps. by destruct (history_moves _ _ _ _ _ Hsteps Ha Hf).
  - intros Hr Hsteps. by apply timed_world.
Qed.

(** A failed transaction changes nothing, with two exceptions.  When
    [sendTransaction] answers an error, the transaction is found to have failed,
    the clock has not moved, and the store is the one before, unless the
    transaction is the governor's [execute] or [cancel_queued], which write
    before they throw, or the call returned and only its result has no encoding. *)
Theorem failed_send_keeps_store tx s s' hash e :
  conv_ok (sequence (sv_clock s)) (st_convictionVoting (sv_store s)) →
  sendTransaction sha256 dec tx s = (Ok (SentError hash e), s') →
  hash = tx_hash tx ∧ sv_clock s' = sv_clock s ∧ getTransaction hash s' = (Ok FoundFailed, s') ∧
  ∃ iv contract, tx_operation tx = Some iv ∧
    resolve (st_addresses (sv_store s)) (iv_contractAddress iv) = Some contract ∧
    (sv_store s' = sv_store s ∨
     contract = CGovernor ∧ (iv_functionName iv = "execute" ∨ iv_functionName iv = "cancel_queued") ∨
     ∃ value error, dispatch sha256 dec (sv_clock s) contract iv (sv_store s) = (Ok value, sv_store s') ∧
       encodeReturn contract (iv_functionName iv) value = Throw error).
Proof.
  intros Hok Hsend. destruct (sendTransaction_run sha256 dec tx s) as [(e' & Hrun & _)|(iv & contract & Htx & Hc & Hrun)].
  { by rewrite Hrun in Hsend. }
  pose proof (dispatch_served sha256 dec (sv_clock s) contract iv (sv_store s)) as Hserved. unfold invoke, mbind, M_bind in Hrun.
  destruct (dispatch sha256 dec (sv_clock s) contract iv (sv_store s)) as [[value|err] store] eqn:Hd.
  - unfold from_outcome in Hrun. destruct (encodeReturn contract (iv_functionName iv) value) as [v|err] eqn:Henc;
      rewrite Hrun in Hsend; [done|]. injection Hsend as <- <- <-. split_and!; [done|done| |].
    { unfold getTransaction, gets. cbn. by rewrite lookup_insert_eq. }
    exists iv, contract. split_and!; [done..|]. right; right. by exists value, err.
  - rewrite Hrun in Hsend. injection Hsend as <- <- <-. split_and!; [done|done| |].
    { unfold getTransaction, gets. cbn. by rewrite lookup_insert_eq. }
    exists iv, contract. split_and!; [done..|]. destruct (request_threw _ _ _ _ _ _ _ _ Hserved Hok) as [Hst|[-> Hfn]]; [by left|].
    right; left. by split.
Qed.
End properties.

Import ServerExample.
Lemma server_refines_contracts_witness :
  rtc (world_step sha dec) (sv_clock server0, sv_store server0) (sv_clock proposed, sv_store proposed) ∧
  size (g_proposals (st_governor (sv_store proposed))) = 1%nat.
Proof.
  split; [|vm_compute; reflexivity].
  apply (server_refines_contracts sha dec server0 proposed start_apart start_funded); [|exact timed_history].
  apply (ranged 7); [vm_compute; reflexivity..|lia].
Defined.
Lemma start_conviction : conv_ok (sequence (sv_clock server0)) (st_convictionVoting (sv_store server0)).
Proof. by apply conviction_boot_ok. Qed.
Lemma failed_send_keeps_store_witness :
  ∃ iv contract, tx_operation schedule_tx = Some iv ∧
    resolve (st_addresses (sv_store server0)) (iv_contractAddress iv) = Some contract ∧
    (sv_store (after schedule_tx server0) = sv_store server0 ∨
     contract = CGovernor ∧ (iv_functionName iv = "execute" ∨ iv_functionName iv = "cancel_queued") ∨
     ∃ value error, dispatch sha dec (sv_clock server0) contract iv (sv_store server0) = (Ok value, sv_store (after schedule_tx server0)) ∧
       encodeReturn contract (iv_functionName iv) value = Throw error).
Proof.
  destruct (failed_send_keeps_store sha dec schedule_tx server0 (after schedule_tx server0) "h3" "Unsupported address type"
    start_conviction) as (_ & _ & _ & H); [|exact H].
  pose proof (proj1 failed_schedule) as Hfst. unfold after. destruct (sendTransaction sha dec schedule_tx server0) as [o s'].
  cbn in Hfst. subst. reflexivity.
Defined.
