(* ===== verification/Live.v ===== *)
(** * Live events

    [packages/indexer/src/ws.ts], which sends the events of the indexer to the
    clients connected to it, and [sdk/src/streamEvents.ts], a client of it that
    falls back to polling.  The connection between the two, the timers and the
    answers to requests belong to the environment: a socket delivers what is
    sent on it in order while it is open. *)

From S2P Require Import Prelude JsValues IndexerWorld.

(** ** What goes over the wire

    [JSON.parse(JSON.stringify(v))] with bigints as texts; [None] is left out of
    an object. *)
Fixpoint wire (v : JsValue) : option JsValue :=
  match v with
  | VUndefined => None
  | VNull | VBool _ | VNum _ | VStr _ => Some v
  | VNaN => Some VNull
  | VBig n => Some (VStr (decimal n))
  | VBytes bs => Some (VObj [("type", VStr "Buffer"); ("data", VArr ((λ b, VNum (Z.of_N (Byte.to_N b))) <$> bs))])
  | VArr l => Some (VArr (List.map (λ x, default VNull (wire x)) l))
  | VObj fields =>
    Some (VObj ((fix go (l : list (string * JsValue)) := match l with
      | [] => []
      | (k, x) :: l => match wire x with Some y => (k, y) :: go l | None => go l end
      end) fields))
  | VMap _ => Some (VObj [])
  end.
Definition wire_fields (fields : list (string * JsValue)) : list (string * JsValue) :=
  omap (λ '(k, x), pair k <$> wire x) fields.
Definition wire_event (event : WsEvent) : WsEvent := mkWsEvent (ws_type event) (wire_fields (ws_data event)).

(** ** Filters *)
Definition EVENT_STATE (type : string) : option string :=
  jm_get type [("proposal_created", "Pending"); ("vote_cast", "Active"); ("proposal_queued", "Queued");
    ("proposal_executed", "Executed"); ("proposal_cancelled", "Cancelled")].
(** [event.data.proposal_id ?? event.data.id], [event.data.stream_id] *)
Definition event_proposal (event : WsEvent) : JsValue :=
  coalesce (field "proposal_id" (ws_data event)) (field "id" (ws_data event)).
Definition event_stream (event : WsEvent) : JsValue := field "stream_id" (ws_data event).

Record SubscriptionFilter := mkFilter {
  f_types : option (list JsValue); f_proposalId : option string; f_streamId : option string; f_state : option string }.
#[export] Instance SubscriptionFilter_eta : Eta SubscriptionFilter := λ f,
  mkFilter (f_types f) (f_proposalId f) (f_streamId f) (f_state f).
Definition is_type (type : string) (v : JsValue) : bool := match v with VStr t => String.eqb t type | _ => false end.
(** [v === undefined || test(v)] *)
Definition unless_undefined {A} (o : option A) (test : A → bool) : bool := match o with None => true | Some a => test a end.
(** [ws.ts]: [matchesFilter] *)
Definition server_matches (event : WsEvent) (filter : SubscriptionFilter) : bool :=
  match f_types filter with Some (t :: ts) => existsb (is_type (ws_type event)) (t :: ts) | _ => true end &&
  unless_undefined (f_proposalId filter) (String.eqb (js_String (event_proposal event))) &&
  unless_undefined (f_streamId filter) (String.eqb (js_String (event_stream event))) &&
  unless_undefined (f_state filter) (λ state, bool_decide (EVENT_STATE (ws_type event) = Some state)).

(** [StreamEventsOptions] without the delays; [o_fetch] and [o_WebSocket] say
    whether the runtime has them. *)
Record StreamEventsOptions := mkOptions {
  o_types : option (list string); o_proposalId : option string; o_streamId : option string; o_state : option string;
  o_fetch : bool; o_WebSocket : bool }.
(** [streamEvents.ts]: [matchesFilter] *)
Definition client_matches (opts : StreamEventsOptions) (event : WsEvent) : bool :=
  match o_types opts with Some (t :: ts) => existsb (String.eqb (ws_type event)) (t :: ts) | _ => true end &&
  unless_undefined (o_proposalId opts) (String.eqb (js_String (event_proposal event))) &&
  unless_undefined (o_streamId opts) (String.eqb (js_String (event_stream event))) &&
  unless_undefined (o_state opts) (λ state, bool_decide (EVENT_STATE (ws_type event) = Some state)).

(** ** Connections *)
Inductive ClientEnd := Connecting | Opened | Closed.
#[export] Instance ClientEnd_eq_dec : EqDecision ClientEnd.
Proof. solve_decision. Defined.
(** A connection: its state at the client; at the server [readyState === OPEN];
    and the messages on their way.  [so_since] and [so_until] are the lengths of
    the log of events when the server's end opened and closed. *)
Record Socket := mkSocket {
  so_client : ClientEnd; so_open : bool; so_up : list JsValue; so_down : list WsEvent;
  so_since : option nat; so_until : option nat }.
#[export] Instance Socket_eta : Eta Socket := λ s,
  mkSocket (so_client s) (so_open s) (so_up s) (so_down s) (so_since s) (so_until s).
Record SubscribedClient := mkClient { cl_socket : nat; cl_filter : SubscriptionFilter; cl_missedPings : Z }.
#[export] Instance SubscribedClient_eta : Eta SubscribedClient := λ c,
  mkClient (cl_socket c) (cl_filter c) (cl_missedPings c).

(** The variables of one call of [streamEvents], and what the runtime holds for
    it: pending timeouts, intervals with the [startPolling] they poll for, the
    [lastSeenId] of each [startPolling], the polls that wait for an answer, and
    the events handed to the handler, with where they came from. *)
Inductive Origin := FromSocket (k : nat) | FromPoll (c : nat).
Record Stream := mkStream {
  s_stopped : bool; s_ws : option nat; s_reconnectTimer : option nat; s_pollTimer : option nat; s_usingPolling : bool;
  s_timeouts : list nat; s_intervals : list (nat * nat); s_lastSeen : gmap nat (option string); s_polls : list nat;
  s_next : nat; s_handled : list (Origin * WsEvent) }.
#[export] Instance Stream_eta : Eta Stream := λ s,
  mkStream (s_stopped s) (s_ws s) (s_reconnectTimer s) (s_pollTimer s) (s_usingPolling s) (s_timeouts s) (s_intervals s)
    (s_lastSeen s) (s_polls s) (s_next s) (s_handled s).
(** The clients of the server, the connections, the stream and the log of what
    was broadcast. *)
Record Live := mkLive {
  v_clients : list SubscribedClient; v_sockets : gmap nat Socket; v_stream : Stream; v_log : list WsEvent }.
#[export] Instance Live_eta : Eta Live := λ v, mkLive (v_clients v) (v_sockets v) (v_stream v) (v_log v).

Definition on_stream (f : Stream → Stream) (v : Live) : Live := v <| v_stream ::= f |>.
Definition on_socket (k : nat) (f : Socket → Socket) (v : Live) : Live := v <| v_sockets ::= alter f k |>.
Definition fresh (v : Live) : nat := s_next (v_stream v).
Definition take_id (v : Live) : Live := on_stream (λ s, s <| s_next ::= S |>) v.

(** ** The server *)
Definition is_open (v : Live) (k : nat) : bool := match v_sockets v !! k with Some so => so_open so | None => false end.
(** [client.socket.send(payload)] *)
Definition send_down (payload : WsEvent) (k : nat) : Live → Live := on_socket k (λ so, so <| so_down ::= λ l, l ++ [payload] |>).
Definition broadcast (event : WsEvent) (v : Live) : Live :=
  let payload := wire_event event in
  foldl (λ v client, if is_open v (cl_socket client) && server_matches event (cl_filter client)
                     then send_down payload (cl_socket client) v else v) v (v_clients v).
(** The handlers of a connection. *)
Definition connection (k : nat) (v : Live) : Live :=
  v <| v_clients ::= λ l, l ++ [mkClient k (mkFilter None None None None) 0] |>.
Definition update_entry (k : nat) (f : SubscribedClient → SubscribedClient) (v : Live) : Live :=
  v <| v_clients ::= fmap (λ c, if (cl_socket c =? k)%nat then f c else c) |>.
Definition msg_field (k : string) (msg : JsValue) : JsValue := match msg with VObj fields => field k fields | _ => VUndefined end.
Definition as_text (v : JsValue) : option string := match v with VStr s => Some s | _ => None end.
(** [if (typeof v === "string") x = v] *)
Definition set_text (v : JsValue) (x : option string) : option string := match v with VStr s => Some s | _ => x end.
Definition read_message (msg : JsValue) (f : SubscriptionFilter) : SubscriptionFilter :=
  let get k := msg_field k msg in
  if nullish msg then f else
  let f := match get "types" with VArr l => f <| f_types := Some l |> | _ => f end in
  let f := f <| f_proposalId ::= set_text (get "proposalId") |> in
  let f := f <| f_streamId ::= set_text (get "streamId") |> in
  if is_type "proposal" (get "subscribe") && negb (is_undefined (get "proposal_id"))
  then f <| f_proposalId := Some (js_String (get "proposal_id")) |>
  else if is_type "stream" (get "subscribe") && negb (is_undefined (get "stream_id"))
  then f <| f_streamId := Some (js_String (get "stream_id")) |>
  else if is_type "state" (get "subscribe") then f <| f_state ::= set_text (get "state") |> else f.
Definition on_server_message (k : nat) (msg : JsValue) : Live → Live := update_entry k (λ c, c <| cl_filter ::= read_message msg |>).
Definition pong (k : nat) : Live → Live := update_entry k (λ c, c <| cl_missedPings := 0 |>).
(** [clients.delete(entry)], on [close] and on [error]; the socket is closed. *)
Definition delete_client (k : nat) (v : Live) : Live :=
  v <| v_clients ::= base.filter (λ c, cl_socket c ≠ k) |>.
Definition shut (k : nat) (v : Live) : Live :=
  on_socket k (λ so, if so_open so then so <| so_open := false |> <| so_until := Some (length (v_log v)) |> else so) v.
Definition MAX_MISSED_PINGS : Z := 3.
(** One entry of the heartbeat. *)
Definition beat (v : Live) (client : SubscribedClient) : Live :=
  if MAX_MISSED_PINGS <=? cl_missedPings client then delete_client (cl_socket client) (shut (cl_socket client) v)
  else if is_open v (cl_socket client)
  then update_entry (cl_socket client) (λ c, c <| cl_missedPings ::= λ n, n + 1 |>) v else v.
Definition heartbeat (v : Live) : Live := foldl beat v (v_clients v).
Definition getConnectedClientCount (v : Live) : nat := length (v_clients v).
Definition clearClients (v : Live) : Live := v <| v_clients := [] |>.

(** ** The client *)
Section client.
Context (opts : StreamEventsOptions).

Definition handle (from : Origin) (event : WsEvent) (v : Live) : Live :=
  if client_matches opts event then on_stream (λ s, s <| s_handled ::= λ l, l ++ [(from, event)] |>) v else v.

Definition stopPolling (v : Live) : Live :=
  match s_pollTimer (v_stream v) with
  | Some t => on_stream (λ s, s <| s_intervals ::= base.filter (λ i, i.1 ≠ t) |> <| s_pollTimer := None |>) v
  | None => v
  end.
(** The start of [poll], up to its request. *)
Definition poll (c : nat) (v : Live) : Live :=
  if s_stopped (v_stream v) then v else on_stream (λ s, s <| s_polls ::= λ l, l ++ [c] |>) v.
Definition startPolling (v : Live) : Live :=
  if negb (o_fetch opts) || s_usingPolling (v_stream v) then v else
  let v := on_stream (λ s, s <| s_usingPolling := true |>) v in
  let c := fresh v in
  let v := poll c (on_stream (λ s, s <| s_lastSeen ::= <[c := None]> |>) (take_id v)) in
  let t := fresh v in
  on_stream (λ s, s <| s_intervals ::= λ l, l ++ [(t, c)] |> <| s_pollTimer := Some t |>) (take_id v).
(** The rest of [poll], once the answer is read; [None] is a request that failed
    or was refused.  The proposals are objects, and the handler returns. *)
Definition proposal_text (p : list (string * JsValue)) : string := js_String (field "id" p).
Definition seen (last : option string) (id : string) : bool :=
  match last with Some last => negb (text_gt id last) | None => false end.
Definition report (c : nat) (last : option string) (v : Live) (p : list (string * JsValue)) : Live :=
  if seen last (proposal_text p) then v else handle (FromPoll c) (mkWsEvent "proposal_created" p) v.
Definition answer_poll (c : nat) (answer : option (list (list (string * JsValue)))) (v : Live) : Live :=
  match answer with
  | None => v
  | Some proposals =>
    let v := foldl (report c (default None (s_lastSeen (v_stream v) !! c))) v proposals in
    match proposals with
    | [] => v
    | p :: _ => on_stream (λ s, s <| s_lastSeen ::= <[c := Some (proposal_text p)]> |>) v
    end
  end.

(** [connect]; [created] says whether the constructor returns. *)
Definition connect (created : bool) (v : Live) : Live :=
  if s_stopped (v_stream v) then v
  else if negb (o_WebSocket opts) || negb created then startPolling v
  else let k := fresh v in
       on_stream (λ s, s <| s_ws := Some k |>)
         ((take_id v) <| v_sockets ::= <[k := mkSocket Connecting false [] [] None None]> |>).

Definition optional (k : string) (v : option JsValue) : list (string * JsValue) := match v with Some v => [(k, v)] | None => [] end.
(** [x !== undefined && x] for a text *)
Definition nonempty (x : option string) : bool := match x with Some s => negb (String.eqb s "") | None => false end.
Definition filter_message : JsValue :=
  VObj (optional "types" ((λ l, VArr (VStr <$> l)) <$> o_types opts) ++ optional "proposalId" (VStr <$> o_proposalId opts) ++
        optional "streamId" (VStr <$> o_streamId opts)).
Definition state_message (state : string) : JsValue := VObj [("subscribe", VStr "state"); ("state", VStr state)].
Definition send_up (msg : JsValue) (v : Live) : Live :=
  match s_ws (v_stream v) with Some k => on_socket k (λ so, so <| so_up ::= λ l, l ++ [msg] |>) v | None => v end.
Definition onopen (v : Live) : Live :=
  let v := on_stream (λ s, s <| s_usingPolling := false |>) (stopPolling v) in
  let v := if bool_decide (is_Some (o_types opts)) || nonempty (o_proposalId opts) || nonempty (o_streamId opts)
           then send_up filter_message v else v in
  match o_state opts with Some state => send_up (state_message state) v | None => v end.
Definition onmessage (k : nat) (event : WsEvent) : Live → Live := handle (FromSocket k) event.
Definition onclose (v : Live) : Live :=
  let v := on_stream (λ s, s <| s_ws := None |>) v in
  if s_stopped (v_stream v) then v else
  let v := startPolling v in
  let t := fresh v in
  on_stream (λ s, s <| s_timeouts ::= λ l, l ++ [t] |> <| s_reconnectTimer := Some t |>) (take_id v).
(** What the reconnect timer runs. *)
Definition reconnect (created : bool) (v : Live) : Live :=
  if s_stopped (v_stream v) then v
  else connect created (on_stream (λ s, s <| s_usingPolling := false |>) (stopPolling v)).
Definition unsubscribe (v : Live) : Live :=
  let v := on_stream (λ s, s <| s_stopped := true |>) v in
  let v := match s_reconnectTimer (v_stream v) with
           | Some t => on_stream (λ s, s <| s_timeouts ::= base.filter (λ u, u ≠ t) |>) v
           | None => v
           end in
  let v := stopPolling v in
  match s_ws (v_stream v) with
  | Some k => on_stream (λ s, s <| s_ws := None |>) (on_socket k (λ so, so <| so_client := Closed |>) v)
  | None => v
  end.
End client.

(** ** The system *)
Section system.
Context (opts : StreamEventsOptions).
(** Before [streamEvents] is called, and just after. *)
Definition idle : Live := mkLive [] ∅ (mkStream false None None None false [] [] ∅ [] 0 []) [].
Definition streamEvents (created : bool) : Live := connect opts created idle.

(** The server accepts a connection; the connection opens at the client, or
    closes at either end; messages arrive in order; timers fire; answers arrive;
    and the user unsubscribes. *)
Inductive live_step : Live → Live → Prop :=
  | ls_broadcast event v : live_step v ((broadcast event v) <| v_log ::= λ l, l ++ [event] |>)
  | ls_accept k so v :
    v_sockets v !! k = Some so → so_since so = None → so_client so ≠ Opened →
    live_step v (connection k (on_socket k (λ so, so <| so_open := true |> <| so_since := Some (length (v_log v)) |>) v))
  | ls_open k so v :
    v_sockets v !! k = Some so → so_client so = Connecting → is_Some (so_since so) →
    live_step v (onopen opts (on_socket k (λ so, so <| so_client := Opened |>) v))
  | ls_up k so msg rest v :
    v_sockets v !! k = Some so → so_open so = true → so_up so = msg :: rest →
    live_step v (on_server_message k msg (on_socket k (λ so, so <| so_up := rest |>) v))
  | ls_down k so event rest v :
    v_sockets v !! k = Some so → so_client so = Opened → so_down so = event :: rest →
    live_step v (onmessage opts k event (on_socket k (λ so, so <| so_down := rest |>) v))
  | ls_server_close k v : is_open v k = true → live_step v (delete_client k (shut k v))
  | ls_client_close k so v :
    v_sockets v !! k = Some so → so_client so ≠ Closed →
    live_step v (onclose opts (on_socket k (λ so, so <| so_client := Closed |>) v))
  | ls_reconnect t created v :
    t ∈ s_timeouts (v_stream v) →
    live_step v (reconnect opts created (on_stream (λ s, s <| s_timeouts ::= base.filter (λ u, u ≠ t) |>) v))
  | ls_interval t c v : (t, c) ∈ s_intervals (v_stream v) → live_step v (poll c v)
  | ls_answer i c answer v :
    s_polls (v_stream v) !! i = Some c →
    live_step v (answer_poll opts c answer (on_stream (λ s, s <| s_polls ::= delete i |>) v))
  | ls_heartbeat v : live_step v (heartbeat v)
  | ls_pong k v : is_open v k = true → live_step v (pong k v)
  | ls_unsubscribe v : live_step v (unsubscribe v).
End system.
