(* ===== verification/LiveClient.v ===== *)
(** * Live events: the client's sockets and timers *)

From S2P Require Import Prelude JsValues IndexerWorld Live.

(** What holds of a call of [streamEvents] between its steps. *)
Record tidy (opts : StreamEventsOptions) (v : Live) : Prop := {
  td_socket : ∀ k, s_ws (v_stream v) = Some k → ∃ so, v_sockets v !! k = Some so ∧ so_client so ≠ Closed;
  td_only : ∀ k so, v_sockets v !! k = Some so → so_client so ≠ Closed → s_ws (v_stream v) = Some k;
  td_fresh : ∀ k so, v_sockets v !! k = Some so → (k < s_next (v_stream v))%nat;
  td_intervals : ∃ c, s_intervals (v_stream v) = match s_pollTimer (v_stream v) with Some t => [(t, c)] | None => [] end;
  td_timeouts : s_timeouts (v_stream v) = [] ∨ ∃ t, s_timeouts (v_stream v) = [t] ∧ s_reconnectTimer (v_stream v) = Some t;
  td_using : s_stopped (v_stream v) = false →
    s_usingPolling (v_stream v) = match s_pollTimer (v_stream v) with Some _ => true | None => false end;
  td_apart : s_ws (v_stream v) ≠ None → s_pollTimer (v_stream v) = None ∧ s_timeouts (v_stream v) = [];
  td_stopped : s_stopped (v_stream v) = true →
    s_ws (v_stream v) = None ∧ s_pollTimer (v_stream v) = None ∧ s_timeouts (v_stream v) = [];
  td_alive : s_stopped (v_stream v) = false → o_fetch opts = true →
    s_ws (v_stream v) ≠ None ∨ s_pollTimer (v_stream v) ≠ None }.

(** ** What each function leaves *)
Lemma stop_run c v :
  s_intervals (v_stream v) = match s_pollTimer (v_stream v) with Some t => [(t, c)] | None => [] end →
  stopPolling v = on_stream (λ s, s <| s_intervals := [] |> <| s_pollTimer := None |>) v.
Proof.
  intros Hi. unfold stopPolling. destruct v as [cl so [a b r p u ti i l po n h] lg]. cbn in *. subst. destruct p as [t|]; [|done].
  unfold on_stream. cbn. by destruct (decide (t ≠ t)).
Qed.
Definition started (v : Live) : Live :=
  on_stream (λ s, s <| s_usingPolling := true |> <| s_lastSeen ::= <[s_next s := None]> |>
    <| s_polls ::= λ l, l ++ [s_next s] |> <| s_intervals := [(S (s_next s), s_next s)] |> <| s_pollTimer := Some (S (s_next s)) |>
    <| s_next := S (S (s_next s)) |>) v.
Lemma started_fields v :
  s_stopped (v_stream (started v)) = s_stopped (v_stream v) ∧ s_ws (v_stream (started v)) = s_ws (v_stream v) ∧
  s_timeouts (v_stream (started v)) = s_timeouts (v_stream v) ∧ v_sockets (started v) = v_sockets v.
Proof. by destruct v as [cl so [a b r p u ti i l po n h] lg]. Qed.
Lemma start_run opts v :
  s_stopped (v_stream v) = false → s_usingPolling (v_stream v) = false → s_intervals (v_stream v) = [] →
  startPolling opts v = if o_fetch opts then started v else v.
Proof.
  intros Hs Hu Hi. unfold startPolling, started. destruct v as [cl so [a b r p u ti i l po n h] lg]. cbn in *. subst.
  by destruct (o_fetch opts).
Qed.

(** The tidy states that wait for nothing: neither socket, timer nor interval. *)
Record bare (v : Live) : Prop := {
  ba_running : s_stopped (v_stream v) = false;
  ba_ws : s_ws (v_stream v) = None;
  ba_timeouts : s_timeouts (v_stream v) = [];
  ba_poll : s_pollTimer (v_stream v) = None ∧ s_intervals (v_stream v) = [] ∧ s_usingPolling (v_stream v) = false;
  ba_closed : ∀ k so, v_sockets v !! k = Some so → so_client so = Closed;
  ba_fresh : ∀ k so, v_sockets v !! k = Some so → (k < s_next (v_stream v))%nat }.

Lemma started_tidy opts v : bare v → tidy opts (started v).
Proof.
  intros [H1 H2 H3 (H4 & H5 & H6) H7 H8]. unfold started. split; cbn; rewrite ?H1, ?H2, ?H3; try done.
  - intros k so Hk Hc. by rewrite (H7 _ _ Hk) in Hc.
  - intros k so Hk. specialize (H8 _ _ Hk). lia.
  - by eexists.
  - by left.
  - intros _ _. by right.
Qed.
Lemma connect_tidy opts created v : bare v → tidy opts (connect opts created v).
Proof.
  intros Hv. pose proof Hv as [H1 H2 H3 (H4 & H5 & H6) H7 H8]. unfold connect. rewrite H1. destruct (_ || _).
  - rewrite start_run by done. destruct (o_fetch opts) eqn:Hf; [by apply started_tidy|].
    split; rewrite ?H1, ?H2, ?H3, ?H4, ?H5, ?H6; try done; [|by exists 0%nat|by left|congruence].
    intros k so Hk Hc. by rewrite (H7 _ _ Hk) in Hc.
  - split; cbn; rewrite ?H1, ?H2, ?H3, ?H4, ?H5, ?H6; try done; try (by left); try (by exists 0%nat).
    + intros k [= <-]. unfold fresh. rewrite lookup_insert_eq. eexists. by split.
    + intros k so. rewrite lookup_insert_Some. intros [[<- <-]|[Hne Hk]] Hc; [done|]. by rewrite (H7 _ _ Hk) in Hc.
    + intros k so. rewrite lookup_insert_Some. unfold fresh. intros [[<- <-]|[Hne Hk]]; [lia|]. specialize (H8 _ _ Hk). lia.
Qed.

(** ** The steps *)

(** Changes beside the stream's variables and the client's ends. *)
Record same_ends (v v' : Live) : Prop := {
  se_stopped : s_stopped (v_stream v') = s_stopped (v_stream v);
  se_ws : s_ws (v_stream v') = s_ws (v_stream v);
  se_reconnect : s_reconnectTimer (v_stream v') = s_reconnectTimer (v_stream v);
  se_poll : s_pollTimer (v_stream v') = s_pollTimer (v_stream v);
  se_using : s_usingPolling (v_stream v') = s_usingPolling (v_stream v);
  se_timeouts : s_timeouts (v_stream v') = s_timeouts (v_stream v);
  se_intervals : s_intervals (v_stream v') = s_intervals (v_stream v);
  se_next : s_next (v_stream v') = s_next (v_stream v);
  se_sockets : ∀ k, so_client <$> (v_sockets v' !! k) = so_client <$> (v_sockets v !! k) }.
#[export] Instance same_ends_preorder : PreOrder same_ends.
Proof. split; [by split|]. intros ? ? ? [] []. split; intros; congruence. Qed.
Lemma same_ends_tidy opts v v' : same_ends v v' → tidy opts v → tidy opts v'.
Proof.
  intros [H1 H2 H3 H4 H5 H6 H7 H8 H9] [T1 T2 T3 T4 T5 T6 T7 T8 T9].
  assert (∀ k so, v_sockets v' !! k = Some so → ∃ so0, v_sockets v !! k = Some so0 ∧ so_client so0 = so_client so) as Hback.
  { intros k so Hk. specialize (H9 k). rewrite Hk in H9. destruct (v_sockets v !! k) as [so0|]; [|done].
    exists so0. cbn in H9. by injection H9. }
  split; rewrite ?H1, ?H2, ?H3, ?H4, ?H5, ?H6, ?H7, ?H8; try done.
  - intros k Hk. destruct (T1 _ Hk) as (so & Hso & Hc). specialize (H9 k). rewrite Hso in H9.
    destruct (v_sockets v' !! k) as [so'|]; [|done]. exists so'. split; [done|]. cbn in H9. injection H9 as ->. done.
  - intros k so Hk Hc. destruct (Hback _ _ Hk) as (so0 & Hk0 & He). apply (T2 _ _ Hk0). congruence.
  - intros k so Hk. destruct (Hback _ _ Hk) as (so0 & Hk0 & _). exact (T3 _ _ Hk0).
Qed.
Lemma same_socket k f v : (∀ so, so_client (f so) = so_client so) → same_ends v (on_socket k f v).
Proof.
  intros Hf. split; try done. intros j. unfold on_socket. cbn. destruct (decide (j = k)) as [->|].
  - rewrite lookup_alter_eq. destruct (v_sockets v !! k); cbn; [by rewrite Hf|done].
  - by rewrite lookup_alter_ne.
Qed.
Lemma same_clients f v : same_ends v (v <| v_clients ::= f |>).
Proof. by split. Qed.
Lemma same_log f v : same_ends v (v <| v_log ::= f |>).
Proof. by split. Qed.
Lemma same_update k f v : same_ends v (update_entry k f v).
Proof. apply same_clients. Qed.
Lemma same_send payload k v : same_ends v (send_down payload k v).
Proof. by apply same_socket. Qed.
Lemma same_shut k v : same_ends v (shut k v).
Proof. apply same_socket. intros so. by destruct (so_open so). Qed.
Lemma same_foldl {A} (f : Live → A → Live) l v : (∀ v x, same_ends v (f v x)) → same_ends v (foldl f v l).
Proof. intros Hf. revert v. induction l as [|x l IH]; intros v; [done|]. cbn. etrans; [apply Hf|apply IH]. Qed.
Lemma same_broadcast event v : same_ends v (broadcast event v).
Proof. apply same_foldl. intros w c. destruct (_ && _); [apply same_send|done]. Qed.
Lemma same_heartbeat v : same_ends v (heartbeat v).
Proof.
  apply same_foldl. intros w c. unfold beat. destruct (_ <=? _); [|destruct (is_open _ _); [apply same_update|done]].
  unfold delete_client. etrans; [apply same_shut|apply same_clients].
Qed.
Lemma same_handle opts from event v : same_ends v (handle opts from event v).
Proof. unfold handle. by destruct (client_matches _ _). Qed.
Lemma same_answer opts c answer v : same_ends v (answer_poll opts c answer v).
Proof.
  destruct answer as [l|]; [|done]. cbn. etrans.
  - apply (same_foldl (report opts c (default None (s_lastSeen (v_stream v) !! c))) l). intros w p. unfold report.
    destruct (seen _ _); [done|apply same_handle].
  - by destruct l.
Qed.
Lemma same_poll c v : same_ends v (poll c v).
Proof. unfold poll. by destruct (s_stopped _). Qed.
Lemma same_send_up msg v : same_ends v (send_up msg v).
Proof. unfold send_up. destruct (s_ws _) as [k|]; [by apply same_socket|done]. Qed.

Lemma idle_bare : bare idle.
Proof. by split. Qed.
Lemma start_tidy opts created : tidy opts (streamEvents opts created).
Proof. apply connect_tidy, idle_bare. Qed.
Lemma open_tidy opts k so v : tidy opts v → v_sockets v !! k = Some so → so_client so = Connecting →
  tidy opts (onopen opts (on_socket k (λ so, so <| so_client := Opened |>) v)).
Proof.
  intros Hv Hk Hc. pose proof Hv as [T1 T2 T3 [c T4] T5 T6 T7 T8 T9].
  assert (s_ws (v_stream v) = Some k) as Hws by (apply (T2 _ _ Hk); congruence).
  assert (s_stopped (v_stream v) = false) as Hs.
  { destruct (s_stopped (v_stream v)); [|done]. destruct (T8 eq_refl) as [Hn _]. congruence. }
  destruct T7 as [Hp Ht]; [congruence|]. unfold onopen. set (w := on_stream _ (stopPolling _)).
  assert (tidy opts w) as Hw; [subst w|].
  2:{ refine (same_ends_tidy opts w _ _ Hw). cbv zeta. etrans; [|destruct (o_state opts); [apply same_send_up|done]].
    destruct (_ || _); [apply same_send_up|done]. }
  rewrite (stop_run c) by exact T4. split; cbn; rewrite ?Hws, ?Hs, ?Ht; try done.
  - intros k' [= <-]. rewrite lookup_alter_eq, Hk. eexists. split; [reflexivity|done].
  - intros k' so'. rewrite lookup_alter_Some. intros [(-> & _)|[Hne Hk']] Hc'; [done|]. rewrite <- Hws. by apply (T2 _ _ Hk').
  - intros k' so'. rewrite lookup_alter_Some. intros [(-> & x & Hx & _)|[Hne Hk']]; by eapply T3.
  - by left.
  - intros _ _. by left.
Qed.
(** A timeout is set while nothing else but polling is under way. *)
Lemma armed_tidy opts v :
  s_stopped (v_stream v) = false → s_ws (v_stream v) = None → s_timeouts (v_stream v) = [] →
  (∀ k so, v_sockets v !! k = Some so → so_client so = Closed) →
  (∀ k so, v_sockets v !! k = Some so → (k < s_next (v_stream v))%nat) →
  (∃ c, s_intervals (v_stream v) = match s_pollTimer (v_stream v) with Some t => [(t, c)] | None => [] end) →
  s_usingPolling (v_stream v) = match s_pollTimer (v_stream v) with Some _ => true | None => false end →
  (o_fetch opts = true → s_pollTimer (v_stream v) ≠ None) →
  tidy opts (on_stream (λ s, s <| s_timeouts ::= λ l, l ++ [fresh v] |> <| s_reconnectTimer := Some (fresh v) |>) (take_id v)).
Proof.
  destruct v as [cl sos [a b r p u ti i l po n h] lg]. unfold fresh. cbn. intros -> -> -> Hc Hf Hi Hu Ha. split; cbn; try done.
  - intros k so Hk Hn. by rewrite (Hc _ _ Hk) in Hn.
  - intros k so Hk. specialize (Hf _ _ Hk). lia.
  - right. by exists n.
  - intros _ Hfetch. right. by apply Ha.
Qed.
Lemma closed_bare opts k so v : tidy opts v → v_sockets v !! k = Some so → so_client so ≠ Closed →
  bare (on_stream (λ s, s <| s_ws := None |>) (on_socket k (λ so, so <| so_client := Closed |>) v)).
Proof.
  intros [T1 T2 T3 [c T4] T5 T6 T7 T8 T9] Hk Hc. pose proof (T2 _ _ Hk Hc) as Hws.
  destruct T7 as [Hp Ht]; [congruence|].
  assert (s_stopped (v_stream v) = false) as Hs.
  { destruct (s_stopped (v_stream v)); [|done]. destruct (T8 eq_refl) as [Hn _]. congruence. }
  split; cbn; rewrite ?Hp, ?T4, ?Hp; try done; [by rewrite (T6 Hs), Hp| |].
  - intros k' so'. rewrite lookup_alter_Some. intros [(-> & x & _ & ->)|[Hne Hk']]; [done|].
    destruct (decide (so_client so' = Closed)) as [|Hn]; [done|]. specialize (T2 _ _ Hk' Hn). congruence.
  - intros k' so'. rewrite lookup_alter_Some. intros [(-> & x & Hx & _)|[Hne Hk']]; by eapply T3.
Qed.
Lemma onclose_bare opts w :
  bare w → s_stopped (v_stream w) = false →
  tidy opts (on_stream (λ s, s <| s_timeouts ::= λ l, l ++ [fresh (startPolling opts w)] |>
    <| s_reconnectTimer := Some (fresh (startPolling opts w)) |>) (take_id (startPolling opts w))).
Proof.
  intros Hw _. pose proof Hw as [H1 H2 H3 (H4 & H5 & H6) H7 H8]. rewrite start_run by done. destruct (o_fetch opts) eqn:Hfetch.
  - destruct (started_fields w) as (Hs & Hws & Hto & Hso). apply armed_tidy; rewrite ?Hs, ?Hws, ?Hto, ?Hso; try done.
    + intros k so Hk. specialize (H8 _ _ Hk). destruct w as [cl sos [] lg]. cbn in *. lia.
    + destruct w as [cl sos [] lg]. by eexists.
  - apply armed_tidy; try done; [exists 0%nat; by rewrite H4, H5|by rewrite H4, H6|congruence].
Qed.
Lemma close_tidy opts k so v : tidy opts v → v_sockets v !! k = Some so → so_client so ≠ Closed →
  tidy opts (onclose opts (on_socket k (λ so, so <| so_client := Closed |>) v)).
Proof.
  intros Hv Hk Hc. pose proof (closed_bare _ _ _ _ Hv Hk Hc) as Hw. unfold onclose.
  set (w := on_stream _ _) in *. clearbody w. rewrite (ba_running _ Hw). by apply onclose_bare, Hw.
Qed.
Lemma drop_only (t : nat) : base.filter (λ u, u ≠ t) [t] = [].
Proof. cbn. by destruct (decide (t ≠ t)). Qed.
Lemma reconnect_tidy opts t created v : tidy opts v → t ∈ s_timeouts (v_stream v) →
  tidy opts (reconnect opts created (on_stream (λ s, s <| s_timeouts ::= base.filter (λ u, u ≠ t) |>) v)).
Proof.
  intros [T1 T2 T3 [c T4] T5 T6 T7 T8 T9] Ht.
  destruct T5 as [T5|(t' & T5 & _)]; [by rewrite T5 in Ht; apply not_elem_of_nil in Ht|].
  rewrite T5, list_elem_of_singleton in Ht. subst t'.
  assert (s_stopped (v_stream v) = false) as Hs.
  { destruct (s_stopped (v_stream v)); [|done]. destruct (T8 eq_refl) as (_ & _ & Hn). congruence. }
  assert (s_ws (v_stream v) = None) as Hws.
  { destruct (s_ws (v_stream v)); [|done]. destruct T7 as [_ Hn]; [done|]. congruence. }
  unfold reconnect. cbn. rewrite Hs. rewrite (stop_run c) by exact T4. apply connect_tidy. split; cbn; rewrite ?T5; try done.
  - apply drop_only.
  - intros k so Hk. destruct (decide (so_client so = Closed)) as [|Hn]; [done|]. specialize (T2 _ _ Hk Hn). congruence.
Qed.
Lemma unsubscribe_tidy opts v : tidy opts v → tidy opts (unsubscribe v).
Proof.
  intros [T1 T2 T3 [c T4] T5 T6 T7 T8 T9]. unfold unsubscribe.
  set (w := match s_reconnectTimer _ with Some _ => _ | None => _ end).
  assert (s_timeouts (v_stream w) = [] ∧ s_stopped (v_stream w) = true ∧ s_ws (v_stream w) = s_ws (v_stream v) ∧
    v_sockets w = v_sockets v ∧ s_intervals (v_stream w) = s_intervals (v_stream v) ∧
    s_pollTimer (v_stream w) = s_pollTimer (v_stream v) ∧ s_next (v_stream w) = s_next (v_stream v)) as (H1 & H2 & H3 & H4 & H5 & H6 & H7).
  { subst w. cbn. destruct T5 as [T5|(t & T5 & Hr)].
    - destruct (s_reconnectTimer (v_stream v)); cbn; rewrite T5; done.
    - rewrite Hr. cbn. by rewrite T5, drop_only. }
  rewrite (stop_run c) by (by rewrite H5, H6). cbn. rewrite H3.
  destruct (s_ws (v_stream v)) as [k|] eqn:Hws; split; cbn; rewrite ?H1, ?H2, ?H3, ?H4, ?H7; try done; try (by left); try (by exists 0%nat).
  - intros k' so'. rewrite lookup_alter_Some. intros [(-> & x & _ & ->)|[Hne Hk']] Hc'; [done|].
    specialize (T2 _ _ Hk' Hc'). congruence.
  - intros k' so'. rewrite lookup_alter_Some. intros [(-> & x & Hx & _)|[Hne Hk']]; by eapply T3.
Qed.

Lemma step_tidy opts v v' : live_step opts v v' → tidy opts v → tidy opts v'.
Proof.
  intros Hstep Hv. destruct Hstep as [event v|k so v Hk Hs Hc|k so v Hk Hc _|k so msg rest v Hk Ho Hu|k so event rest v Hk Hc Hd|
    k v Ho|k so v Hk Hc|t created v Ht|t c v Hi|i c answer v Hi|v|k v Ho|v].
  - eapply same_ends_tidy, Hv. etrans; [apply same_broadcast|apply same_log].
  - eapply same_ends_tidy, Hv. unfold connection. etrans; [|apply same_clients]. by apply same_socket.
  - by eapply open_tidy.
  - eapply same_ends_tidy, Hv. unfold on_server_message. etrans; [|apply same_update]. by apply same_socket.
  - eapply same_ends_tidy, Hv. unfold onmessage. etrans; [|apply same_handle]. by apply same_socket.
  - eapply same_ends_tidy, Hv. unfold delete_client. etrans; [apply same_shut|apply same_clients].
  - by eapply close_tidy.
  - by apply reconnect_tidy.
  - eapply same_ends_tidy, Hv. apply same_poll.
  - eapply same_ends_tidy, Hv. etrans; [|apply same_answer]. by split.
  - eapply same_ends_tidy, Hv. apply same_heartbeat.
  - eapply same_ends_tidy, Hv. apply same_update.
  - by apply unsubscribe_tidy.
Qed.
Lemma reachable_tidy opts created v : rtc (live_step opts) (streamEvents opts created) v → tidy opts v.
Proof.
  intros Hsteps. assert (tidy opts (streamEvents opts created)) as H0 by apply start_tidy. revert H0.
  induction Hsteps; eauto using step_tidy.
Qed.
