(* ===== verification/LiveDelivery.v ===== *)
(** * Live events: delivery

    What a connection hands to the handler, together with what is on its way, is
    what the server broadcast while its end was open, as far as the options want
    it: the filter the server keeps for a client never drops what the client's
    own filter would keep. *)

From S2P Require Import Prelude JsValues IndexerWorld Live LiveClient.

(** ** Filters *)

(** Values that print the same before and after the wire. *)
Definition simple (v : JsValue) : bool := match v with VNaN | VBytes _ | VArr _ | VMap _ => false | _ => true end.
Record event_ok (event : WsEvent) : Prop := {
  eo_keys : NoDup (ws_data event).*1;
  eo_simple : Forall (λ k, simple (field k (ws_data event)) = true) ["proposal_id"; "id"; "stream_id"] }.

Lemma wire_field k fields : NoDup fields.*1 → field k (wire_fields fields) = default VUndefined (wire (field k fields)).
Proof.
  intros Hnd. unfold field, wire_fields. induction fields as [|[k' v] fields IH]; [done|].
  apply NoDup_cons in Hnd as [Hk Hnd]. cbn [jm_get]. destruct (decide (k' = k)) as [->|Hne].
  - cbn. destruct (wire v) as [w|] eqn:Hw; cbn [fmap option_fmap option_map jm_get].
    + by rewrite decide_True.
    + rewrite IH by done. by rewrite (proj2 (jm_get_None k fields) Hk).
  - cbn [omap list_omap]. destruct (wire v) as [w|]; cbn [fmap option_fmap option_map jm_get]; [rewrite decide_False by done|]; by apply IH.
Qed.
Lemma wire_text v : simple v = true → js_String (default VUndefined (wire v)) = js_String v.
Proof. by destruct v. Qed.
Lemma wire_nullish v : simple v = true → nullish (default VUndefined (wire v)) = nullish v.
Proof. by destruct v. Qed.
Lemma wire_proposal event : event_ok event → js_String (event_proposal (wire_event event)) = js_String (event_proposal event).
Proof.
  intros [Hk Hs]. inversion_clear Hs as [|? ? H1 Hs']. inversion_clear Hs' as [|? ? H2 _]. unfold event_proposal, coalesce. cbn [ws_data wire_event].
  rewrite !wire_field by done. rewrite wire_nullish by done. by destruct (nullish _); apply wire_text.
Qed.
Lemma wire_stream event : event_ok event → js_String (event_stream (wire_event event)) = js_String (event_stream event).
Proof.
  intros [Hk Hs]. do 2 (inversion_clear Hs as [|? ? ? Hs']; rename Hs' into Hs). inversion_clear Hs as [|? ? H3 _].
  unfold event_stream. cbn [ws_data wire_event]. rewrite wire_field by done. by apply wire_text.
Qed.

(** The server's filter asks for no more than the options do. *)
Record admits (opts : StreamEventsOptions) (f : SubscriptionFilter) : Prop := {
  ad_types : ∀ l, f_types f = Some l → ∃ ts, o_types opts = Some ts ∧ l = VStr <$> ts;
  ad_proposal : ∀ s, f_proposalId f = Some s → o_proposalId opts = Some s;
  ad_stream : ∀ s, f_streamId f = Some s → o_streamId opts = Some s;
  ad_state : ∀ s, f_state f = Some s → o_state opts = Some s }.
Lemma types_text ty ts : existsb (is_type ty) (VStr <$> ts) = existsb (String.eqb ty) ts.
Proof. induction ts as [|t ts IH]; [done|]. cbn. by rewrite IH, String.eqb_sym. Qed.
Lemma admitted_matches opts f event :
  event_ok event → admits opts f → client_matches opts (wire_event event) = true → server_matches event f = true.
Proof.
  intros Hok [A1 A2 A3 A4] Hm. unfold client_matches, server_matches in *. rewrite !andb_true_iff in *.
  destruct Hm as [[[M1 M2] M3] M4]. rewrite wire_proposal in M2 by done. rewrite wire_stream in M3 by done. cbn [ws_type wire_event] in *. split_and!.
  - destruct (f_types f) as [l|]; [|done]. destruct (A1 l eq_refl) as (ts & Ho & ->). rewrite Ho in M1.
    destruct ts as [|t ts]; [done|]. cbn [fmap list_fmap]. change (VStr t :: (VStr <$> ts)) with (VStr <$> (t :: ts)). by rewrite types_text.
  - destruct (f_proposalId f) as [s|]; [|done]. by rewrite (A2 s eq_refl) in M2.
  - destruct (f_streamId f) as [s|]; [|done]. by rewrite (A3 s eq_refl) in M3.
  - destruct (f_state f) as [s|]; [|done]. by rewrite (A4 s eq_refl) in M4.
Qed.

(** The messages the client sends, and what they do to the filter. *)
Definition from_client (opts : StreamEventsOptions) (msg : JsValue) : Prop :=
  msg = filter_message opts ∨ ∃ state, o_state opts = Some state ∧ msg = state_message state.
Lemma read_admits opts msg f : from_client opts msg → admits opts f → admits opts (read_message msg f).
Proof.
  intros [->|(state & Hs & ->)] [A1 A2 A3 A4].
  - destruct opts as [ts p st state fe we]. unfold filter_message, read_message, set_text. cbn in *.
    destruct ts, p, st; split; cbn; try done; intros ? [= <-]; eauto.
  - split; cbn; try done. by intros ? [= <-].
Qed.
Lemma new_admits opts : admits opts (mkFilter None None None None).
Proof. by split. Qed.

(** ** The invariant *)
Definition wanted (opts : StreamEventsOptions) (l : list WsEvent) : list WsEvent := List.filter (client_matches opts) l.
Definition is_from (k : nat) (o : Origin) : bool := match o with FromSocket j => (j =? k)%nat | FromPoll _ => false end.
#[local] Arguments wanted : simpl never.
(** What the handler got from a connection. *)
Definition from_socket (k : nat) (v : Live) : list WsEvent :=
  snd <$> List.filter (λ p, is_from k p.1) (s_handled (v_stream v)).
(** What was broadcast while the server's end was open. *)
Definition segment (log : list WsEvent) (so : Socket) : list WsEvent :=
  match so_since so with
  | None => []
  | Some n => take (default (length log) (so_until so) - n) (drop n log)
  end.

Record socket_ok (opts : StreamEventsOptions) (v : Live) (k : nat) (so : Socket) : Prop := {
  ok_open : so_open so = match so_since so, so_until so with Some _, None => true | _, _ => false end;
  ok_before : so_since so = None → so_until so = None ∧ so_down so = [];
  ok_since : ∀ n, so_since so = Some n → (n ≤ default (length (v_log v)) (so_until so) ≤ length (v_log v))%nat;
  ok_up : Forall (from_client opts) (so_up so);
  ok_entry : so_open so = true → k ∈ cl_socket <$> v_clients v;
  ok_down : from_socket k v ++ wanted opts (so_down so) = wanted opts (wire_event <$> segment (v_log v) so) }.
Record delivers (opts : StreamEventsOptions) (v : Live) : Prop := {
  dl_distinct : NoDup (cl_socket <$> v_clients v);
  dl_clients : Forall (λ c, is_open v (cl_socket c) = true ∧ admits opts (cl_filter c)) (v_clients v);
  dl_sockets : ∀ k so, v_sockets v !! k = Some so → socket_ok opts v k so;
  dl_absent : ∀ k, v_sockets v !! k = None → from_socket k v = [] }.

(** A step that leaves the server's ends, what is under way to the client and
    what it was handed alone. *)
Record same_server (opts : StreamEventsOptions) (so so' : Socket) : Prop := {
  sa_open : so_open so' = so_open so; sa_down : so_down so' = so_down so; sa_since : so_since so' = so_since so;
  sa_until : so_until so' = so_until so; sa_up : Forall (from_client opts) (so_up so) → Forall (from_client opts) (so_up so') }.
Definition new_socket : Socket := mkSocket Connecting false [] [] None None.
Record beside_delivery (opts : StreamEventsOptions) (v v' : Live) : Prop := {
  bd_clients : v_clients v' = v_clients v;
  bd_log : v_log v' = v_log v;
  bd_handled : ∀ k, from_socket k v' = from_socket k v;
  bd_sockets : ∀ k so', v_sockets v' !! k = Some so' → same_server opts (default new_socket (v_sockets v !! k)) so';
  bd_kept : ∀ k, v_sockets v' !! k = None → v_sockets v !! k = None }.
#[export] Instance same_server_preorder opts : PreOrder (same_server opts).
Proof. split; [by split|]. intros ? ? ? [] []. split; try congruence. auto. Qed.
#[export] Instance beside_delivery_preorder opts : PreOrder (beside_delivery opts).
Proof.
  split.
  - intros v. split; try done. intros k so Hk. by rewrite Hk.
  - intros v1 v2 v3 [A1 A2 A3 A4 A5] [B1 B2 B3 B4 B5]. split; try congruence; [|by eauto].
    intros k so Hk. specialize (B4 _ _ Hk). destruct (v_sockets v2 !! k) as [so2|] eqn:Hk2; cbn in B4.
    + etrans; [by apply A4|done].
    + by rewrite (A5 _ Hk2).
Qed.
Lemma new_socket_ok opts v k : from_socket k v = [] → socket_ok opts v k new_socket.
Proof. intros Hk. split; cbn; try done; try constructor. by rewrite Hk. Qed.
Lemma delivers_old opts v k : delivers opts v → socket_ok opts v k (default new_socket (v_sockets v !! k)).
Proof.
  intros [_ _ Hs Ha]. destruct (v_sockets v !! k) as [so|] eqn:Hk; cbn; [by apply Hs|by apply new_socket_ok, Ha].
Qed.
Lemma delivers_beside opts v v' : beside_delivery opts v v' → delivers opts v → delivers opts v'.
Proof.
  intros [B1 B2 B3 B4 B5] Hv. pose proof Hv as [D1 D2 D3 D4].
  assert (∀ k, is_open v k = true → is_open v' k = true) as Hopen.
  { unfold is_open. intros k Hk. destruct (v_sockets v' !! k) as [so'|] eqn:Hk'; [|by rewrite (B5 _ Hk') in Hk].
    rewrite (sa_open _ _ _ (B4 _ _ Hk')). by destruct (v_sockets v !! k). }
  split; [by rewrite B1| | |].
  - rewrite B1. eapply Forall_impl; [exact D2|]. intros c [Ho Ha]. auto.
  - intros k so' Hk'. destruct (B4 _ _ Hk') as [E1 E2 E3 E4 E5]. destruct (delivers_old _ _ k Hv) as [O1 O2 O3 O4 O5 O6].
    split; unfold segment in *; rewrite ?E1, ?E2, ?E3, ?E4, ?B1, ?B2, ?B3; auto.
  - intros k Hk. rewrite B3. apply D4, B5, Hk.
Qed.

(** *** Steps of the client beside it *)
Lemma beside_stream opts f v : (∀ s, s_handled (f s) = s_handled s) → beside_delivery opts v (on_stream f v).
Proof. intros Hf. split; try done; [by intros k; unfold from_socket; cbn; rewrite Hf|]. intros k so Hk. cbn in Hk. by rewrite Hk. Qed.
Lemma beside_socket opts k f v : (∀ so, same_server opts so (f so)) → beside_delivery opts v (on_socket k f v).
Proof.
  intros Hf. split; try done.
  - intros j so. cbn. rewrite lookup_alter_Some. intros [(-> & x & Hx & ->)|[_ Hx]]; rewrite Hx; [apply Hf|done].
  - intros j. cbn. by rewrite lookup_alter_None.
Qed.
Lemma beside_stop opts v : beside_delivery opts v (stopPolling v).
Proof. unfold stopPolling. destruct (s_pollTimer _); [by apply beside_stream|done]. Qed.
Lemma beside_poll opts c v : beside_delivery opts v (poll c v).
Proof. unfold poll. destruct (s_stopped _); [done|by apply beside_stream]. Qed.
Lemma beside_start opts v : beside_delivery opts v (startPolling opts v).
Proof.
  unfold startPolling. destruct (_ || _); [done|]. cbv zeta. set (w := on_stream (λ s, s <| s_usingPolling := true |>) v).
  assert (beside_delivery opts v w) as Hw by (by apply beside_stream). clearbody w. etrans; [exact Hw|].
  set (x := on_stream (λ s, s <| s_lastSeen ::= _ |>) _).
  assert (beside_delivery opts w x) as Hx by (by eapply (transitivity (y := take_id w)); apply beside_stream). clearbody x.
  etrans; [exact Hx|]. set (y := poll _ x). assert (beside_delivery opts x y) as Hy by apply beside_poll. clearbody y.
  etrans; [exact Hy|]. by eapply (transitivity (y := take_id y)); apply beside_stream.
Qed.
Lemma beside_connect opts created v : (∀ so, v_sockets v !! fresh v ≠ Some so) → beside_delivery opts v (connect opts created v).
Proof.
  intros Hn. unfold connect. destruct (s_stopped _); [done|]. destruct (_ || _); [apply beside_start|].
  assert (v_sockets v !! fresh v = None) as Hnone by (destruct (v_sockets v !! fresh v) eqn:E; [by destruct (Hn s)|done]).
  etrans; [|by apply beside_stream]. split; try done.
  - intros k so. cbn. rewrite lookup_insert_Some. intros [[<- <-]|[_ Hk]]; [by rewrite Hnone|by rewrite Hk].
  - intros k. cbn. by rewrite lookup_insert_None; intros [? _].
Qed.
Lemma beside_send_up opts msg v : from_client opts msg → beside_delivery opts v (send_up msg v).
Proof.
  intros Hmsg. unfold send_up. destruct (s_ws _) as [k|]; [|done]. apply beside_socket. intros so. split; try done.
  cbn. intros Hup. apply Forall_app. split; [done|by apply Forall_singleton].
Qed.
Lemma beside_open opts v : beside_delivery opts v (onopen opts v).
Proof.
  unfold onopen. set (w := on_stream _ (stopPolling _)).
  assert (beside_delivery opts v w) as Hw by (etrans; [apply beside_stop|by apply beside_stream]). etrans; [exact Hw|]. clearbody w.
  etrans; [|destruct (o_state opts) as [state|] eqn:Hs; [apply beside_send_up; right; by exists state|reflexivity]].
  destruct (_ || _); [apply beside_send_up; by left|reflexivity].
Qed.
Lemma beside_close opts v : beside_delivery opts v (onclose opts v).
Proof.
  unfold onclose. set (w := on_stream _ v). assert (beside_delivery opts v w) as Hw by (by apply beside_stream). etrans; [exact Hw|].
  clearbody w. destruct (s_stopped _); [done|]. etrans; [apply beside_start|]. etrans; [|by apply beside_stream]. by apply beside_stream.
Qed.
Lemma beside_unsubscribe opts v : beside_delivery opts v (unsubscribe v).
Proof.
  unfold unsubscribe. set (w := match s_reconnectTimer _ with Some _ => _ | None => _ end).
  assert (beside_delivery opts v w) as Hw.
  { subst w. destruct (s_reconnectTimer _); [etrans; by apply beside_stream|by apply beside_stream]. }
  etrans; [exact Hw|]. clearbody w. etrans; [apply beside_stop|]. destruct (s_ws _) as [k|]; [|done].
  etrans; [|by apply beside_stream]. by apply beside_socket.
Qed.

(** *** Steps of the server *)
Lemma update_keys k f v : (∀ c, cl_socket (f c) = cl_socket c) → cl_socket <$> v_clients (update_entry k f v) = cl_socket <$> v_clients v.
Proof.
  intros Hf. unfold update_entry. cbn. rewrite <- list_fmap_compose. apply list_fmap_ext. intros _ c _. cbn.
  destruct (_ =? _)%nat; [apply Hf|done].
Qed.
Lemma delivers_update opts k f v :
  (∀ c, cl_socket (f c) = cl_socket c) → (∀ c, admits opts (cl_filter c) → admits opts (cl_filter (f c))) →
  delivers opts v → delivers opts (update_entry k f v).
Proof.
  intros Hf Ha [D1 D2 D3 D4]. pose proof (update_keys k f v Hf) as Hkeys. split; [by rewrite Hkeys| | |done].
  - unfold update_entry. cbn. rewrite Forall_fmap. eapply Forall_impl; [exact D2|]. intros c [Ho Hc]. cbn.
    destruct (_ =? _)%nat; [|done]. rewrite Hf. auto.
  - intros j so Hj. destruct (D3 j so Hj) as [O1 O2 O3 O4 O5 O6]. split; try done. by rewrite Hkeys.
Qed.
Lemma delivers_delete opts k v : delivers opts v → delivers opts (delete_client k (shut k v)).
Proof.
  intros Hv. pose proof Hv as [D1 D2 D3 D4].
  assert (∀ j, j ≠ k → is_open (delete_client k (shut k v)) j = is_open v j) as Hother.
  { intros j Hj. unfold is_open. cbn. by rewrite lookup_alter_ne. }
  split.
  - cbn. eapply sublist_NoDup; [exact D1|]. apply fmap_sublist, sublist_filter.
  - cbn. apply Forall_forall. intros c. rewrite list_elem_of_filter. intros [Hne Hc].
    destruct (proj1 (Forall_forall _ _) D2 c Hc) as [Ho Ha]. by rewrite Hother.
  - intros j so'. cbn. rewrite lookup_alter_Some. intros [(-> & so & Hso & ->)|[Hne Hj]].
    + destruct (D3 _ _ Hso) as [O1 O2 O3 O4 O5 O6]. destruct (so_open so) eqn:Hopen.
      2:{ split; cbn; try done; try by rewrite Hopen. }
      destruct (so_since so) as [n|] eqn:Hn; [|done]. destruct (so_until so) as [u|] eqn:Hu; [done|].
      specialize (O3 _ eq_refl). split; cbn; rewrite ?Hn; try done.
      * intros m [= <-]. cbn in *. lia.
      * unfold segment in *. cbn. by rewrite Hn in *; rewrite Hu in O6.
    + destruct (D3 _ _ Hj) as [O1 O2 O3 O4 O5 O6]. split; try done. cbn. intros Ho. specialize (O5 Ho).
      rewrite list_elem_of_fmap in *. destruct O5 as (c & -> & Hc). exists c. split; [done|]. rewrite list_elem_of_filter. split; [|done]. congruence.
  - intros j. cbn. rewrite lookup_alter_None. apply D4.
Qed.
Lemma delivers_heartbeat opts v : delivers opts v → delivers opts (heartbeat v).
Proof.
  unfold heartbeat. generalize (v_clients v). intros l. revert v. induction l as [|c l IH]; intros v Hv; [done|]. cbn. apply IH.
  unfold beat. destruct (_ <=? _); [by apply delivers_delete|]. destruct (is_open _ _); [|done]. by apply delivers_update.
Qed.
Lemma delivers_accept opts k so v :
  v_sockets v !! k = Some so → so_since so = None → delivers opts v →
  delivers opts (connection k (on_socket k (λ so, so <| so_open := true |> <| so_since := Some (length (v_log v)) |>) v)).
Proof.
  intros Hk Hs [D1 D2 D3 D4]. pose proof (D3 _ _ Hk) as [O1 O2 O3 O4 O5 O6]. destruct (O2 Hs) as [Hu Hd].
  assert (so_open so = false) as Hclosed by (by rewrite O1, Hs).
  assert (∀ c, c ∈ v_clients v → cl_socket c ≠ k) as Hnot.
  { intros c Hc <-. destruct (proj1 (Forall_forall _ _) D2 c Hc) as [Ho _]. unfold is_open in Ho. rewrite Hk in Ho. congruence. }
  split.
  - cbn. rewrite fmap_app. apply NoDup_app. split_and!; [done| |apply NoDup_singleton].
    intros j Hj. rewrite list_elem_of_fmap in Hj. destruct Hj as (c & -> & Hc). cbn. rewrite list_elem_of_singleton. by apply Hnot.
  - cbn. apply Forall_app. split.
    + apply Forall_forall. intros c Hc. destruct (proj1 (Forall_forall _ _) D2 c Hc) as [Ho Ha]. split; [|done].
      unfold is_open. cbn. rewrite lookup_alter_ne; [done|]. intros He. by apply (Hnot c).
    + apply Forall_singleton. cbn. split; [|apply new_admits]. unfold is_open. cbn. by rewrite lookup_alter_eq, Hk.
  - intros j so'. cbn. rewrite lookup_alter_Some. intros [(-> & so0 & Hso & ->)|[Hne Hj]].
    + rewrite Hk in Hso. injection Hso as <-. split; cbn; rewrite ?Hu; try done.
      * intros n [= <-]. cbn. lia.
      * intros _. rewrite fmap_app. apply elem_of_app. right. by apply list_elem_of_singleton.
      * unfold segment in *. cbn. rewrite Hu, Hs in *. cbn. by rewrite Nat.sub_diag.
    + destruct (D3 _ _ Hj) as [P1 P2 P3 P4 P5 P6]. split; try done. cbn. intros Ho. rewrite fmap_app. apply elem_of_app. left. by apply P5.
  - intros j. cbn. rewrite lookup_alter_None. apply D4.
Qed.

(** **** A broadcast *)
Definition takes (event : WsEvent) (k : nat) (c : SubscribedClient) : bool :=
  (cl_socket c =? k)%nat && server_matches event (cl_filter c).
Definition reached (event : WsEvent) (l : list SubscribedClient) (k : nat) (so : Socket) : Socket :=
  if so_open so && existsb (takes event k) l then so <| so_down ::= λ d, d ++ [wire_event event] |> else so.
Lemma broadcast_fold event l v :
  NoDup (cl_socket <$> l) →
  let v' := foldl (λ v client, if is_open v (cl_socket client) && server_matches event (cl_filter client)
                               then send_down (wire_event event) (cl_socket client) v else v) v l in
  v_clients v' = v_clients v ∧ v_stream v' = v_stream v ∧ v_log v' = v_log v ∧
  ∀ k, v_sockets v' !! k = reached event l k <$> v_sockets v !! k.
Proof.
  revert v. induction l as [|c l IH]; intros v Hnd.
  - cbn. split_and!; try done. intros k. unfold reached. cbn. destruct (v_sockets v !! k) as [so|]; [|done]. cbn. by rewrite andb_false_r.
  - cbn [fmap list_fmap] in Hnd. apply NoDup_cons in Hnd as [Hc Hnd]. cbn [foldl].
    set (w := if _ && _ then _ else v).
    destruct (IH w Hnd) as (H1 & H2 & H3 & H4). cbv zeta. rewrite H1, H2, H3. split_and!; try (subst w; by destruct (_ && _)).
    intros k. rewrite H4. clear H1 H2 H3 H4 IH. subst w. unfold is_open, reached, takes. cbn [existsb].
    destruct (Nat.eqb_spec (cl_socket c) k) as [<-|Hne]; cbn [andb orb].
    + assert (existsb (takes event (cl_socket c)) l = false) as Hl.
      { destruct (existsb _ l) eqn:He; [|done]. apply existsb_exists in He as (d & Hd & Ht). apply andb_true_iff in Ht as [Ht _].
        apply Nat.eqb_eq in Ht. destruct Hc. rewrite list_elem_of_fmap. exists d. by rewrite list_elem_of_In. }
      unfold takes in Hl. rewrite Hl, orb_false_r. destruct (v_sockets v !! cl_socket c) as [so|] eqn:Hk; cbn; rewrite ?Hk; [|done].
      destruct (so_open so) eqn:Ho; cbn; [destruct (server_matches _ _)|]; cbn; rewrite ?lookup_alter_eq, ?Hk; cbn; by rewrite ?andb_false_r, ?Ho.
    + destruct (_ && server_matches _ _); [|done]. cbn. by rewrite lookup_alter_ne.
Qed.
Lemma wanted_app opts l1 l2 : wanted opts (l1 ++ l2) = wanted opts l1 ++ wanted opts l2.
Proof. apply List.filter_app. Qed.
(** An event the options want reaches every open connection. *)
Lemma reached_wanted opts event l k so :
  event_ok event → Forall (λ c, admits opts (cl_filter c)) l → (so_open so = true → k ∈ cl_socket <$> l) →
  wanted opts (so_down (reached event l k so)) =
  wanted opts (so_down so) ++ (if so_open so then wanted opts [wire_event event] else []).
Proof.
  intros Hok Ha He. unfold reached. destruct (so_open so) eqn:Ho; cbn [andb]; [|by rewrite app_nil_r].
  destruct (existsb _ l) eqn:Hx; [by rewrite <- wanted_app|].
  rewrite <- (app_nil_r (wanted opts (so_down so))) at 1. f_equal. unfold wanted. cbn. destruct (client_matches opts _) eqn:Hm; [|done].
  exfalso. specialize (He eq_refl). rewrite list_elem_of_fmap in He. destruct He as (c & -> & Hc).
  assert (existsb (takes event (cl_socket c)) l = true) as Hx'; [|congruence].
  apply existsb_exists. exists c. split; [by apply list_elem_of_In|]. unfold takes. rewrite Nat.eqb_refl. cbn.
  eapply admitted_matches; [exact Hok| |exact Hm]. by apply (proj1 (Forall_forall _ _) Ha).
Qed.
Lemma segment_grows log event so n :
  so_since so = Some n → (n ≤ default (length log) (so_until so) ≤ length log)%nat →
  segment (log ++ [event]) so = segment log so ++ (match so_until so with None => [event] | Some _ => [] end).
Proof.
  unfold segment. intros ->. destruct (so_until so) as [u|]; cbn; intros Hn.
  - rewrite app_nil_r, drop_app_le by lia. apply take_app_le. rewrite length_drop. lia.
  - rewrite length_app, drop_app_le by lia. cbn. rewrite take_ge, take_ge; rewrite ?length_app, ?length_drop; cbn; try done; lia.
Qed.
Lemma delivers_broadcast opts event v :
  event_ok event → delivers opts v → delivers opts ((broadcast event v) <| v_log ::= λ l, l ++ [event] |>).
Proof.
  intros Hok [D1 D2 D3 D4]. destruct (broadcast_fold event (v_clients v) v D1) as (H1 & H2 & H3 & H4). fold (broadcast event v) in *.
  set (b := broadcast event v) in *. clearbody b. split; unfold is_open, from_socket; cbn; rewrite ?H1, ?H2, ?H3; [done| | |].
  - eapply Forall_impl; [exact D2|]. intros c [Ho Ha]. split; [|done]. rewrite H4. unfold is_open in Ho.
    destruct (v_sockets v !! cl_socket c) as [so|]; [|done]. cbn. unfold reached. by destruct (_ && _).
  - intros k so'. rewrite H4, fmap_Some. intros (so & Hk & ->). destruct (D3 _ _ Hk) as [O1 O2 O3 O4 O5 O6].
    assert (∀ A (f : Socket → A), (∀ g, f (so <| so_down ::= g |>) = f so) → f (reached event (v_clients v) k so) = f so) as Hsame.
    { intros A f Hf. unfold reached. destruct (_ && _); [apply Hf|done]. }
    split; cbn; unfold from_socket, segment; cbn; rewrite ?H1, ?H2, ?H3, ?(Hsame _ so_open), ?(Hsame _ so_since), ?(Hsame _ so_until),
      ?(Hsame _ so_up) by done; try done.
    + intros Hs. split; [by apply O2|]. unfold reached. rewrite O1, Hs. cbn. by apply O2.
    + intros n Hn. specialize (O3 _ Hn). rewrite length_app. destruct (so_until so); cbn in *; lia.
    + rewrite reached_wanted; [|done| |done]; [|eapply Forall_impl; [exact D2|]; by intros c [_ Ha]].
      rewrite app_assoc. fold (from_socket k v). rewrite O6. change (match so_since so with Some n => _ | None => _ end) with (segment (v_log v ++ [event]) so).
      destruct (so_since so) as [n|] eqn:Hs.
      * rewrite (segment_grows _ _ _ n Hs) by by apply O3. rewrite fmap_app, wanted_app, O1. by destruct (so_until so).
      * rewrite O1. unfold segment. rewrite Hs. by rewrite app_nil_r.
  - intros k. rewrite H4, fmap_None. apply D4.
Qed.

(** **** What the handler is given *)
Lemma handle_from opts from event v k :
  from_socket k (handle opts from event v) = from_socket k v ++ (if is_from k from then wanted opts [event] else []).
Proof.
  unfold handle, from_socket, wanted. cbn. destruct (client_matches opts event); cbn.
  - rewrite List.filter_app, fmap_app. cbn. by destruct (is_from k from).
  - by destruct (is_from k from); rewrite app_nil_r.
Qed.
Lemma handle_rest opts from event v :
  v_clients (handle opts from event v) = v_clients v ∧ v_sockets (handle opts from event v) = v_sockets v ∧
  v_log (handle opts from event v) = v_log v.
Proof. unfold handle. by destruct (client_matches _ _). Qed.
Lemma beside_handle_poll opts c event v : beside_delivery opts v (handle opts (FromPoll c) event v).
Proof.
  destruct (handle_rest opts (FromPoll c) event v) as (H1 & H2 & H3). split; rewrite ?H2; try done.
  - intros k. by rewrite handle_from, app_nil_r.
  - intros k so Hk. by rewrite Hk.
Qed.
Lemma beside_answer opts c answer v : beside_delivery opts v (answer_poll opts c answer v).
Proof.
  destruct answer as [l|]; [|done]. cbn. set (last := default None _). clearbody last.
  assert (∀ l v, beside_delivery opts v (foldl (report opts c last) v l)) as Hfold.
  { clear l v. induction l as [|p l IH]; intros v; [done|]. cbn. etrans; [|apply IH]. unfold report.
    destruct (seen _ _); [done|apply beside_handle_poll]. }
  etrans; [apply Hfold|]. destruct l; [done|by apply beside_stream].
Qed.
Lemma delivers_down opts k so event rest v :
  v_sockets v !! k = Some so → so_down so = event :: rest → delivers opts v →
  delivers opts (onmessage opts k event (on_socket k (λ so, so <| so_down := rest |>) v)).
Proof.
  intros Hk Hd [D1 D2 D3 D4]. unfold onmessage. set (w := on_socket _ _ v).
  destruct (handle_rest opts (FromSocket k) event w) as (H1 & H2 & H3). pose proof (handle_from opts (FromSocket k) event w) as Hf.
  set (x := handle _ _ _ _) in *. clearbody x. split; unfold is_open; rewrite ?H1, ?H2; [done| | |].
  - eapply Forall_impl; [exact D2|]. intros c [Ho Ha]. split; [|done]. unfold is_open in Ho. subst w. cbn.
    destruct (decide (cl_socket c = k)) as [He|Hne]; [rewrite He, Hk in *; by rewrite lookup_alter_eq, Hk|by rewrite lookup_alter_ne].
  - intros j so'. subst w. cbn. rewrite lookup_alter_Some. intros [(-> & so0 & Hso & ->)|[Hne Hj]].
    + rewrite Hk in Hso. injection Hso as <-. destruct (D3 _ _ Hk) as [O1 O2 O3 O4 O5 O6].
      split; unfold segment in *; cbn; rewrite ?H1, ?H3; cbn; try done.
      * intros Hs. destruct (O2 Hs) as [_ Hn]. by rewrite Hd in Hn.
      * rewrite Hf. cbn [is_from]. rewrite Nat.eqb_refl, <- app_assoc, <- wanted_app. etrans; [|exact O6]. by rewrite Hd.
    + destruct (D3 _ _ Hj) as [O1 O2 O3 O4 O5 O6]. split; unfold segment in *; rewrite ?H1, ?H3; try done.
      rewrite Hf. cbn. destruct (Nat.eqb_spec k j); [done|]. by rewrite app_nil_r.
  - intros j. subst w. cbn. rewrite lookup_alter_None, Hf. cbn. intros Hj. destruct (Nat.eqb_spec k j) as [->|]; [congruence|].
    rewrite app_nil_r. by apply D4.
Qed.

(** ** Every step *)
Lemma delivers_up opts k so msg rest v :
  v_sockets v !! k = Some so → so_up so = msg :: rest → delivers opts v →
  delivers opts (on_server_message k msg (on_socket k (λ so, so <| so_up := rest |>) v)).
Proof.
  intros Hk Hu Hv. pose proof (ok_up _ _ _ _ (dl_sockets _ _ Hv _ _ Hk)) as Hup. rewrite Hu in Hup.
  apply Forall_cons in Hup as [Hmsg Hrest]. unfold on_server_message. apply delivers_update; [done| |].
  - intros c. by apply read_admits.
  - apply (delivers_beside _ v); [|done]. split; try done.
    + intros j so'. cbn. rewrite lookup_alter_Some. intros [(-> & x & Hx & ->)|[_ Hx]]; by rewrite Hx.
    + intros j. cbn. by rewrite lookup_alter_None.
Qed.
Lemma beside_reconnect opts t created v :
  tidy opts v → beside_delivery opts v (reconnect opts created (on_stream (λ s, s <| s_timeouts ::= base.filter (λ u, u ≠ t) |>) v)).
Proof.
  intros Hv. set (w := on_stream _ v). assert (beside_delivery opts v w) as Hw by (by apply beside_stream).
  assert (∀ so, v_sockets w !! fresh w ≠ Some so) as Hn.
  { intros so Hk. pose proof (td_fresh _ _ Hv _ _ Hk) as Hlt. subst w. unfold fresh in Hlt. cbn in Hlt. lia. }
  clearbody w. etrans; [exact Hw|]. unfold reconnect. destruct (s_stopped _); [done|].
  set (x := on_stream (λ s, s <| s_usingPolling := false |>) (stopPolling w)).
  assert (beside_delivery opts w x ∧ v_sockets x = v_sockets w ∧ fresh x = fresh w) as (Hx & Hs & Hf).
  { subst x. split; [by eapply (transitivity (y := stopPolling w)); [apply beside_stop|apply beside_stream]|].
    unfold stopPolling. by destruct (s_pollTimer _). }
  clearbody x. etrans; [exact Hx|]. apply beside_connect. intros so. rewrite Hs, Hf. apply Hn.
Qed.
(** The steps that only the client takes part in. *)
Inductive client_step (opts : StreamEventsOptions) : Live → Live → Prop :=
  | cs_open k v : client_step opts v (onopen opts (on_socket k (λ so, so <| so_client := Opened |>) v))
  | cs_close k v : client_step opts v (onclose opts (on_socket k (λ so, so <| so_client := Closed |>) v))
  | cs_reconnect t created v :
    client_step opts v (reconnect opts created (on_stream (λ s, s <| s_timeouts ::= base.filter (λ u, u ≠ t) |>) v))
  | cs_interval c v : client_step opts v (poll c v)
  | cs_answer i c answer v : client_step opts v (answer_poll opts c answer (on_stream (λ s, s <| s_polls ::= delete i |>) v))
  | cs_unsubscribe v : client_step opts v (unsubscribe v).
Lemma beside_client opts v v' : tidy opts v → client_step opts v v' → beside_delivery opts v v'.
Proof.
  intros Htidy Hstep. destruct Hstep as [k v|k v|t created v|c v|i c answer v|v].
  - eapply transitivity; [|apply beside_open]. by apply beside_socket.
  - eapply transitivity; [|apply beside_close]. by apply beside_socket.
  - by apply beside_reconnect.
  - apply beside_poll.
  - eapply transitivity; [|apply beside_answer]. by apply beside_stream.
  - apply beside_unsubscribe.
Qed.
Lemma foldl_log {A} (f : Live → A → Live) l v : (∀ v x, v_log (f v x) = v_log v) → v_log (foldl f v l) = v_log v.
Proof. intros Hf. revert v. induction l as [|x l IH]; intros v; [done|]. cbn. by rewrite IH. Qed.
Lemma step_log opts v v' : tidy opts v → live_step opts v v' → ∃ l, v_log v' = v_log v ++ l.
Proof.
  intros Htidy Hstep. assert (client_step opts v v' → ∃ l, v_log v' = v_log v ++ l) as Hclient.
  { intros Hc. exists []. rewrite app_nil_r. eapply bd_log. by apply beside_client. }
  destruct Hstep; try (by apply Hclient; constructor); try by (exists []; rewrite app_nil_r).
  - exists [event]. cbn. f_equal. apply foldl_log. intros w c. by destruct (_ && _).
  - exists []. rewrite app_nil_r. unfold onmessage. by rewrite (proj2 (proj2 (handle_rest _ _ _ _))).
  - exists []. rewrite app_nil_r. apply foldl_log. intros w c. unfold beat. destruct (_ <=? _); [done|]. by destruct (is_open _ _).
Qed.
Lemma step_delivers opts v v' :
  live_step opts v v' → tidy opts v → Forall event_ok (v_log v') → delivers opts v → delivers opts v'.
Proof.
  intros Hstep Htidy Hlog Hv.
  assert (client_step opts v v' → delivers opts v') as Hclient by (intros Hc; eapply delivers_beside, Hv; by apply beside_client).
  destruct Hstep; try (by apply Hclient; constructor).
  - cbn in Hlog. apply Forall_app in Hlog as [_ Hev]. rewrite Forall_singleton in Hev. by apply delivers_broadcast.
  - by eapply delivers_accept.
  - by eapply delivers_up.
  - by eapply delivers_down.
  - by apply delivers_delete.
  - by apply delivers_heartbeat.
  - unfold pong. by apply delivers_update.
Qed.
Lemma start_delivers opts created : delivers opts (streamEvents opts created).
Proof.
  apply (delivers_beside _ idle); [by apply beside_connect|]. split; cbn; try done; constructor.
Qed.
Lemma reachable_delivers opts created v :
  rtc (live_step opts) (streamEvents opts created) v → Forall event_ok (v_log v) → delivers opts v.
Proof.
  revert v. apply (rtc_ind_r (λ v, Forall event_ok (v_log v) → delivers opts v)); [intros _; apply start_delivers|].
  intros v v' Hsteps Hstep IH Hlog. pose proof (reachable_tidy _ _ _ Hsteps) as Htidy. eapply step_delivers; [done..|]. apply IH.
  destruct (step_log _ _ _ Htidy Hstep) as [l Hl]. rewrite Hl in Hlog. by apply Forall_app in Hlog as [? _].
Qed.
