(* ===== verification/LiveSafety.v ===== *)
(** * Live events: what a stream promises *)

From S2P Require Import Prelude JsValues IndexerWorld Live LiveClient LiveDelivery.

(** ** After [unsubscribe] *)

(** What a stopped stream still does: the polls under way are answered. *)
Record stopped_step (v v' : Live) : Prop := {
  st_stopped : s_stopped (v_stream v') = true;
  st_polls : s_polls (v_stream v') `sublist_of` s_polls (v_stream v);
  st_handled : ∃ l, s_handled (v_stream v') = s_handled (v_stream v) ++ l ∧
    Forall (λ p, ∃ c, p.1 = FromPoll c ∧ c ∈ s_polls (v_stream v)) l }.
Definition same_stream (v v' : Live) : Prop :=
  s_stopped (v_stream v') = s_stopped (v_stream v) ∧ s_polls (v_stream v') = s_polls (v_stream v) ∧
  s_handled (v_stream v') = s_handled (v_stream v).
Lemma stopped_same v v' : s_stopped (v_stream v) = true → same_stream v v' → stopped_step v v'.
Proof. intros Hs (H1 & H2 & H3). split; [congruence|by rewrite H2|]. exists []. by rewrite app_nil_r. Qed.
Lemma report_all opts c last l v :
  let v' := foldl (report opts c last) v l in
  s_stopped (v_stream v') = s_stopped (v_stream v) ∧ s_polls (v_stream v') = s_polls (v_stream v) ∧
  s_handled (v_stream v') = s_handled (v_stream v) ++
    ((λ p, (FromPoll c, mkWsEvent "proposal_created" p)) <$>
     List.filter (λ p, negb (seen last (proposal_text p)) && client_matches opts (mkWsEvent "proposal_created" p)) l).
Proof.
  revert v. induction l as [|p l IH]; intros v; cbn; [by rewrite app_nil_r|].
  destruct (IH (report opts c last v p)) as (H1 & H2 & H3). cbn in *. rewrite H1, H2, H3. unfold report, handle.
  destruct (seen _ _); cbn; [done|]. destruct (client_matches _ _); cbn; [|done]. by rewrite <- app_assoc.
Qed.
Lemma heartbeat_stream v : v_stream (heartbeat v) = v_stream v.
Proof.
  unfold heartbeat. generalize (v_clients v). intros l. revert v. induction l as [|c l IH]; intros v; [done|]. cbn. rewrite IH.
  unfold beat. destruct (_ <=? _); [done|]. by destruct (is_open _ _).
Qed.
Lemma broadcast_stream event v : v_stream (broadcast event v) = v_stream v.
Proof.
  unfold broadcast. cbv zeta. generalize (v_clients v). intros l. revert v. induction l as [|c l IH]; intros v; [done|]. cbn. rewrite IH.
  by destruct (_ && _).
Qed.
Lemma stop_stream v : same_stream v (stopPolling v).
Proof. unfold stopPolling. by destruct (s_pollTimer _). Qed.
Lemma unsubscribe_stream v :
  s_stopped (v_stream (unsubscribe v)) = true ∧ s_polls (v_stream (unsubscribe v)) = s_polls (v_stream v) ∧
  s_handled (v_stream (unsubscribe v)) = s_handled (v_stream v).
Proof.
  unfold unsubscribe. set (w := match s_reconnectTimer _ with Some _ => _ | None => _ end).
  assert (s_stopped (v_stream w) = true ∧ s_polls (v_stream w) = s_polls (v_stream v) ∧ s_handled (v_stream w) = s_handled (v_stream v))
    as (H1 & H2 & H3) by (subst w; cbn; by destruct (s_reconnectTimer _)).
  clearbody w. destruct (stop_stream w) as (G1 & G2 & G3). rewrite <- H1, <- H2, <- H3, <- G1, <- G2, <- G3. by destruct (s_ws _).
Qed.
Lemma step_stopped opts v v' :
  live_step opts v v' → tidy opts v → s_stopped (v_stream v) = true → stopped_step v v'.
Proof.
  intros Hstep Hv Hs. pose proof (td_stopped _ _ Hv Hs) as (Hws & Hp & Ht).
  assert (∀ k so, v_sockets v !! k = Some so → so_client so = Closed) as Hclosed.
  { intros k so Hk. destruct (decide (so_client so = Closed)) as [|Hn]; [done|]. pose proof (td_only _ _ Hv _ _ Hk Hn). congruence. }
  destruct Hstep as [event v|k so v Hk Hsi Hc|k so v Hk Hc _|k so msg rest v Hk Ho Hu|k so event rest v Hk Hc Hd|
    k v Ho|k so v Hk Hc|t created v Hti|t c v Hi|i c answer v Hi|v|k v Ho|v];
    try (by apply stopped_same);
    try match goal with H : v_sockets v !! _ = Some ?so, G : context [so_client ?so] |- _ => by rewrite (Hclosed _ _ H) in G end.
  - apply stopped_same; [done|]. unfold same_stream. cbn. by rewrite broadcast_stream.
  - rewrite Ht in Hti. by apply not_elem_of_nil in Hti.
  - apply stopped_same; [done|]. unfold poll. by rewrite Hs.
  - assert (c ∈ s_polls (v_stream v)) as Hc by (by eapply list_elem_of_lookup_2). set (w := on_stream _ v).
    assert (stopped_step v w) as Hw.
    { split; [done|apply sublist_delete|]. exists []. by rewrite app_nil_r. }
    destruct answer as [l|]; [|exact Hw]. cbn. set (last := default None _). clearbody last.
    destruct (report_all opts c last l w) as (H1 & H2 & H3). cbv zeta in *. set (x := foldl _ w l) in *. clearbody x.
    assert (stopped_step v x) as Hx.
    { split; [by rewrite H1|rewrite H2; apply sublist_delete|]. eexists. split; [exact H3|]. apply Forall_fmap, Forall_forall. cbn. eauto. }
    destruct l; [exact Hx|]. destruct Hx as [X1 X2 X3]. by split.
  - apply stopped_same; [done|]. unfold same_stream. by rewrite heartbeat_stream.
  - apply stopped_same; [done|]. unfold same_stream. destruct (unsubscribe_stream v) as (H1 & H2 & H3). by rewrite H1, H2, H3.
Qed.

(** ** The promises *)

(** C27: Whatever connections open, close and are dropped and whenever the
    subscription messages arrive, what a connection has handed to the handler,
    followed by what the options want of the messages on their way, is what the
    options want of the events that were broadcast while the server's end of the
    connection was open, in order and each once. *)
Theorem stream_delivers_broadcasts opts created v k so :
  rtc (live_step opts) (streamEvents opts created) v → Forall event_ok (v_log v) → v_sockets v !! k = Some so →
  from_socket k v ++ wanted opts (so_down so) = wanted opts (wire_event <$> segment (v_log v) so).
Proof.
  intros Hsteps Hlog Hk. pose proof (reachable_delivers _ _ _ Hsteps Hlog) as Hv. by apply (ok_down _ _ _ _ (dl_sockets _ _ Hv _ _ Hk)).
Qed.

(** Between its steps a stream has at most one connection, one polling
    interval and one reconnect timer, polls and waits to reconnect only while it
    has no connection, has one source of events as long as it runs where the
    runtime can fetch, and keeps none of them once unsubscribed. *)
Theorem one_source_at_a_time opts created v :
  rtc (live_step opts) (streamEvents opts created) v →
  let s := v_stream v in
  (∀ k so, v_sockets v !! k = Some so → so_client so ≠ Closed → s_ws s = Some k) ∧
  (length (s_intervals s) ≤ 1)%nat ∧ (length (s_timeouts s) ≤ 1)%nat ∧
  (s_ws s ≠ None → s_intervals s = [] ∧ s_timeouts s = []) ∧
  (s_stopped s = false → o_fetch opts = true → s_ws s ≠ None ∨ s_intervals s ≠ []) ∧
  (s_stopped s = true → s_ws s = None ∧ s_intervals s = [] ∧ s_timeouts s = []).
Proof.
  intros Hsteps s. destruct (reachable_tidy _ _ _ Hsteps) as [T1 T2 T3 [c T4] T5 T6 T7 T8 T9]. subst s. rewrite T4. split_and!.
  - exact T2.
  - by destruct (s_pollTimer _); cbn; lia.
  - destruct T5 as [->|(t & -> & _)]; cbn; lia.
  - intros Hws. destruct (T7 Hws) as [-> Ht]. by rewrite Ht.
  - intros Hs Hf. destruct (T9 Hs Hf) as [|Hp]; [by left|]. right. by destruct (s_pollTimer _).
  - intros Hs. destruct (T8 Hs) as (-> & -> & ->). done.
Qed.

(** After [unsubscribe] the handler is only called for polls whose answer was
    still awaited, and never again when there is none: the messages, the timers
    and the intervals that are left reach it no more. *)
Theorem unsubscribed_stream_falls_silent opts created v v' :
  rtc (live_step opts) (streamEvents opts created) v → rtc (live_step opts) (unsubscribe v) v' →
  ∃ l, s_handled (v_stream v') = s_handled (v_stream v) ++ l ∧
       Forall (λ p, ∃ c, p.1 = FromPoll c ∧ c ∈ s_polls (v_stream v)) l.
Proof.
  intros Hsteps Hafter. destruct (unsubscribe_stream v) as (H1 & H2 & H3).
  assert (rtc (live_step opts) (streamEvents opts created) (unsubscribe v)) as Hu by (eapply rtc_r; [exact Hsteps|constructor]).
  set (P := λ w, rtc (live_step opts) (streamEvents opts created) w ∧ s_stopped (v_stream w) = true ∧
    s_polls (v_stream w) `sublist_of` s_polls (v_stream v) ∧ ∃ l, s_handled (v_stream w) = s_handled (v_stream v) ++ l ∧
       Forall (λ p, ∃ c, p.1 = FromPoll c ∧ c ∈ s_polls (v_stream v)) l).
  assert (P v') as (_ & _ & _ & Hl); [|exact Hl].
  revert v' Hafter. apply (rtc_ind_r P).
  - subst P. cbn. rewrite H2, H3. split_and!; try done. exists []. by rewrite app_nil_r.
  - intros w w' _ Hstep (Hw & Hs & Hp & l & Hl & Hfrom).
    destruct (step_stopped _ _ _ Hstep (reachable_tidy _ _ _ Hw) Hs) as [S1 S2 (l' & Hl' & Hfrom')].
    split_and!; [by eapply rtc_r|done|by etrans|]. exists (l ++ l'). rewrite Hl', Hl, app_assoc. split; [done|].
    apply Forall_app. split; [done|]. eapply Forall_impl; [exact Hfrom'|]. intros p (c & Hc & Hin). exists c. split; [done|].
    eapply elem_of_submseteq; [exact Hin|by apply sublist_submseteq].
Qed.

(** ** Polling

    What a poll reports: the proposals whose identifier, read as a text, comes
    after the one seen last. *)
Lemma answer_reports opts c l v :
  s_handled (v_stream (answer_poll opts c (Some l) v)) = s_handled (v_stream v) ++
    ((λ p, (FromPoll c, mkWsEvent "proposal_created" p)) <$>
     List.filter (λ p, negb (seen (default None (s_lastSeen (v_stream v) !! c)) (proposal_text p)) &&
                       client_matches opts (mkWsEvent "proposal_created" p)) l).
Proof.
  cbn. set (last := default None _). clearbody last. destruct (report_all opts c last l v) as (H1 & H2 & H3). cbv zeta in H3. rewrite <- H3.
  by destruct l.
Qed.
(** The heartbeat drops a client whose last four pings were not answered. *)
Lemma silent_client_dropped v c :
  MAX_MISSED_PINGS ≤ cl_missedPings c →
  (cl_socket c ∉ cl_socket <$> v_clients (beat v c)) ∧ is_open (beat v c) (cl_socket c) = false.
Proof.
  intros Hm. unfold beat. apply Z.leb_le in Hm. rewrite Hm. split.
  - cbn. rewrite list_elem_of_fmap. intros (d & He & Hd). apply list_elem_of_filter in Hd as [Hne _]. congruence.
  - unfold is_open, delete_client, shut. cbn. destruct (v_sockets v !! cl_socket c) as [so|] eqn:Hk.
    + rewrite lookup_alter_eq, Hk. cbn. by destruct (so_open so) eqn:Ho.
    + rewrite lookup_alter_eq. by rewrite Hk.
Qed.

(** ** Examples *)
Module LiveExample.
Definition opts : StreamEventsOptions := mkOptions (Some ["vote_cast"]) None None None true true.
Definition vote : WsEvent := mkWsEvent "vote_cast" [("proposal_id", VBig 7)].
Definition queued : WsEvent := mkWsEvent "proposal_queued" [("proposal_id", VBig 7)].
(** The connection opens, an event is sent before the filter arrives and a vote
    after it. *)
Definition connected : Live := streamEvents opts true.
Definition accepted : Live :=
  connection 0 (on_socket 0 (λ so, so <| so_open := true |> <| so_since := Some (length (v_log connected)) |>) connected).
Definition opened : Live := onopen opts (on_socket 0 (λ so, so <| so_client := Opened |>) accepted).
Definition log_one (event : WsEvent) (v : Live) : Live := (broadcast event v) <| v_log ::= λ l, l ++ [event] |>.
Definition early : Live := log_one queued opened.
Definition filtered : Live := on_server_message 0 (filter_message opts) (on_socket 0 (λ so, so <| so_up := [] |>) early).
Definition voted : Live := log_one vote (log_one queued filtered).
Definition received : Live :=
  onmessage opts 0 (wire_event queued) (on_socket 0 (λ so, so <| so_down := [wire_event vote] |>) voted).
Definition handled : Live := onmessage opts 0 (wire_event vote) (on_socket 0 (λ so, so <| so_down := [] |>) received).

Lemma handled_reachable : rtc (live_step opts) (streamEvents opts true) handled.
Proof.
  apply (rtc_l _ _ accepted); [eapply (ls_accept opts 0); [vm_compute; reflexivity|reflexivity|discriminate]|].
  apply (rtc_l _ _ opened); [eapply (ls_open opts 0); [vm_compute; reflexivity|reflexivity|by eexists]|].
  apply (rtc_l _ _ early); [apply (ls_broadcast opts queued)|].
  apply (rtc_l _ _ filtered); [eapply (ls_up opts 0); [vm_compute; reflexivity|reflexivity|reflexivity]|].
  apply (rtc_l _ _ (log_one queued filtered)); [apply (ls_broadcast opts queued)|].
  apply (rtc_l _ _ voted); [apply (ls_broadcast opts vote)|].
  apply (rtc_l _ _ received); [eapply (ls_down opts 0); [vm_compute; reflexivity|reflexivity|reflexivity]|].
  apply rtc_once. eapply (ls_down opts 0); [vm_compute; reflexivity|reflexivity|reflexivity].
Qed.
Lemma logged : Forall event_ok (v_log handled).
Proof. repeat (constructor; [split; [vm_compute; repeat constructor; set_solver|repeat constructor]|]). constructor. Qed.
(** The connection is lost: the stream polls until the timer reconnects. *)
Definition lost : Live := onclose opts (on_socket 0 (λ so, so <| so_client := Closed |>) handled).
Lemma lost_reachable : rtc (live_step opts) (streamEvents opts true) lost.
Proof.
  eapply rtc_r; [exact handled_reachable|]. eapply (ls_client_close opts 0); [vm_compute; reflexivity|discriminate].
Qed.
(** Proposals as polls see them: 99 hides 100, and 100 does not hide 99. *)
Definition proposal (n : Z) : list (string * JsValue) := [("id", VNum n)].
Definition all : StreamEventsOptions := mkOptions None None None None true false.
Definition polling : Live := streamEvents all true.
Definition reports (answer : list Z) (v : Live) : Live * list JsValue :=
  let v' := answer_poll all 0 (Some (proposal <$> answer)) v in
  (v', (λ p, field "id" (ws_data p.2)) <$> drop (length (s_handled (v_stream v))) (s_handled (v_stream v'))).
Example poll_misses_100 : (reports [100; 99] (reports [99] polling).1).2 = [].
Proof. vm_compute. reflexivity. Qed.
Example poll_repeats_99 :
  let v := (reports [100; 99] (reports [99] polling).1).1 in
  (reports [100; 99] v).2 = [VNum 99] ∧ (reports [101; 100; 99] v).2 = [VNum 101; VNum 99].
Proof. vm_compute. split; reflexivity. Qed.
(** A runtime whose constructor throws once is never asked again. *)
Example failed_constructor_polls_on :
  let v := streamEvents LiveExample.opts false in
  s_timeouts (v_stream v) = [] ∧ s_ws (v_stream v) = None ∧ s_usingPolling (v_stream v) = true.
Proof. vm_compute. split_and!; reflexivity. Qed.
End LiveExample.

Lemma stream_delivers_broadcasts_witness :
  from_socket 0 LiveExample.handled ++ wanted LiveExample.opts [] = [wire_event LiveExample.vote].
Proof.
  refine (eq_trans (stream_delivers_broadcasts LiveExample.opts true LiveExample.handled 0
    (mkSocket Opened true [] [] (Some 0%nat) None) LiveExample.handled_reachable LiveExample.logged _) _); vm_compute; reflexivity.
Defined.
Lemma one_source_at_a_time_witness :
  s_ws (v_stream LiveExample.lost) ≠ None ∨ s_intervals (v_stream LiveExample.lost) ≠ [].
Proof.
  destruct (one_source_at_a_time LiveExample.opts true LiveExample.lost LiveExample.lost_reachable) as (_ & _ & _ & _ & H & _).
  apply H; reflexivity.
Defined.
Lemma unsubscribed_stream_falls_silent_witness :
  ∃ l, s_handled (v_stream (unsubscribe LiveExample.lost)) = s_handled (v_stream LiveExample.lost) ++ l ∧
       Forall (λ p, ∃ c, p.1 = FromPoll c ∧ c ∈ s_polls (v_stream LiveExample.lost)) l.
Proof.
  apply (unsubscribed_stream_falls_silent LiveExample.opts true LiveExample.lost _ LiveExample.lost_reachable). apply rtc_refl.
Defined.
