(* ===== verification/SdkEvents.v ===== *)
(** * Events as the SDK reads them

    [sdk/src/events.ts]: an event with its topics and its value as plain data,
    and one parser for each event of the contracts.  A parser answers [null],
    here [None], for an event it does not recognise. *)

From S2P Require Import Prelude JsValues SdkTypes.

Record SorobanEvent := mkSorobanEvent { e_ledger : Z; e_contractId : string; e_topic : list string; e_value : JsValue }.

(** An event as the RPC answers it, with its topics and value decoded; [None]
    where [scValToNative] throws. *)
Record RawEvent := mkRawEvent {
  raw_ledger : Z; raw_contractId : option string; raw_topic : list (option JsValue); raw_value : option JsValue }.
Definition decodeEvent (raw : RawEvent) : option SorobanEvent :=
  topic ← mapM (fmap js_String) (raw_topic raw); value ← raw_value raw;
  Some (mkSorobanEvent (raw_ledger raw) (default "" (raw_contractId raw)) topic value).

(** ** Reading values *)

(** A number that is an integer, or [NaN]. *)
Inductive Num := num (n : Z) | nan.

(** [isRecord(value)], and the access [value.k] behind it: buffers and [Map]s
    are objects too, without these properties. *)
Definition isRecord (value : JsValue) : option (string → JsValue) :=
  match value with
  | VObj fields => Some (λ k, field k fields)
  | VBytes _ | VMap _ => Some (λ _, VUndefined)
  | _ => None
  end.
(** [Array.isArray(value) && value.length >= n], and the access [value[i]] *)
Definition array_of (n : nat) (value : JsValue) : option (nat → JsValue) :=
  match value with VArr l => if (length l <? n)%nat then None else Some (nth_value l) | _ => None end.
Definition toBigInt (value : JsValue) : option Z :=
  match value with VBig n | VNum n => Some n | VStr s => text_integer s | _ => None end.
Definition toNumber (value : JsValue) : option Num :=
  match value with
  | VNum n => Some (num n)
  | VNaN => Some nan
  | VBig n => Some (num (to_number n))
  | VStr "" => None
  | VStr s => (λ n, num (to_number n)) <$> text_integer s
  | _ => None
  end.
(** [String(value ?? other)] *)
Definition text_or (value : JsValue) (other : string) : string := if nullish value then other else js_String value.
Definition toHex (value : JsValue) : string := match value with VBytes bs => to_hex bs | _ => text_or value "" end.
(** [Array.isArray(value) ? value : []] *)
Definition items (value : JsValue) : list JsValue := match value with VArr l => l | _ => [] end.

(** [event.topic[0] === topic], [event.topic[1] ?? ""] *)
Definition has_topic (topic : string) (event : SorobanEvent) : bool := bool_decide (head (e_topic event) = Some topic).
Definition topic1 (event : SorobanEvent) : string := default "" (e_topic event !! 1%nat).
(** An event with a topic, and a record or a list of at least [n] as its value. *)
Definition record_event {A} (topic : string) (event : SorobanEvent) (read : (string → JsValue) → option A) : option A :=
  if has_topic topic event then isRecord (e_value event) ≫= read else None.
Definition array_event {A} (topic : string) (n : nat) (event : SorobanEvent) (read : (nat → JsValue) → option A) : option A :=
  if has_topic topic event then array_of n (e_value event) ≫= read else None.

(** ** The governor *)
Record ProposalCreatedEventData := mkProposalCreated {
  pc_proposalId : Z; pc_proposer : string; pc_description : string; pc_descriptionHash : string; pc_metadataUri : string;
  pc_targets : list JsValue; pc_fnNames : list JsValue; pc_calldatas : list JsValue; pc_startLedger : Num; pc_endLedger : Num }.
Definition parseLegacyProposalCreated (event : SorobanEvent) : option ProposalCreatedEventData :=
  if (length (e_topic event) <? 2)%nat then None else
  v ← array_of 7 (e_value event);
  proposalId ← toBigInt (v 0%nat); startLedger ← toNumber (v 5%nat); endLedger ← toNumber (v 6%nat);
  Some (mkProposalCreated proposalId (topic1 event) (text_or (v 1%nat) "") "" "" (items (v 2%nat)) (items (v 3%nat)) (items (v 4%nat))
    startLedger endLedger).
Definition parseProposalCreatedEvent (event : SorobanEvent) : option ProposalCreatedEventData :=
  if has_topic "prop_crtd" event then parseLegacyProposalCreated event else
  record_event "ProposalCreated" event (λ value,
    proposalId ← toBigInt (value "proposal_id");
    startLedger ← toNumber (value "start_ledger"); endLedger ← toNumber (value "end_ledger");
    Some (mkProposalCreated proposalId (text_or (value "proposer") "") (text_or (value "description") "")
      (text_or (value "description_hash") "") (text_or (value "metadata_uri") "") (items (value "targets"))
      (items (value "fn_names")) (items (value "calldatas")) startLedger endLedger)).

Record VoteCastEventData := mkVoteCast { vc_proposalId : Z; vc_voter : string; vc_support : Num; vc_weight : Z }.
Definition parseLegacyVoteCast (event : SorobanEvent) : option VoteCastEventData :=
  if (length (e_topic event) <? 2)%nat then None else
  v ← array_of 3 (e_value event);
  proposalId ← toBigInt (v 0%nat); weight ← toBigInt (v 2%nat);
  Some (mkVoteCast proposalId (topic1 event) (default (num (-1)) (toNumber (v 1%nat))) weight).
Definition parseVoteCastEvent (event : SorobanEvent) : option VoteCastEventData :=
  if has_topic "vote" event then parseLegacyVoteCast event else
  record_event "VoteCast" event (λ value,
    proposalId ← toBigInt (value "proposal_id"); support ← toNumber (value "support"); weight ← toBigInt (value "weight");
    Some (mkVoteCast proposalId (text_or (value "voter") "") support weight)).

Record VoteCastWithReasonEventData := mkVoteCastWithReason {
  vr_proposalId : Z; vr_voter : string; vr_support : Num; vr_weight : Z; vr_reason : string }.
Definition parseVoteCastWithReasonEvent (event : SorobanEvent) : option VoteCastWithReasonEventData :=
  record_event "VoteCastWithReason" event (λ value,
    proposalId ← toBigInt (value "proposal_id"); support ← toNumber (value "support"); weight ← toBigInt (value "weight");
    Some (mkVoteCastWithReason proposalId (text_or (value "voter") "") support weight (text_or (value "reason") ""))).

(** [opId] is [null] here when it is [undefined]. *)
Record ProposalQueuedEventData := mkProposalQueued { pq_proposalId : Z; pq_opId : JsValue; pq_eta : Z }.
Definition parseProposalQueuedEvent (event : SorobanEvent) : option ProposalQueuedEventData :=
  if negb (has_topic "ProposalQueued" event) then None else
  match e_value event with
  | VArr l =>
    proposalId ← toBigInt (nth_value l 0); eta ← toBigInt (nth_value l 1);
    Some (mkProposalQueued proposalId VNull eta)
  | _ =>
    value ← isRecord (e_value event);
    proposalId ← toBigInt (value "proposal_id"); eta ← toBigInt (value "eta");
    Some (mkProposalQueued proposalId (value "op_id" ?? VNull) eta)
  end.

Record ProposalExecutedEventData := mkProposalExecuted { px_proposalId : Z; px_caller : string }.
Definition parseProposalExecutedEvent (event : SorobanEvent) : option ProposalExecutedEventData :=
  if has_topic "execute" event then (λ proposalId, mkProposalExecuted proposalId "") <$> toBigInt (e_value event) else
  record_event "ProposalExecuted" event (λ value,
    proposalId ← toBigInt (value "proposal_id"); Some (mkProposalExecuted proposalId (text_or (value "caller") ""))).

Record ProposalCancelledEventData := mkProposalCancelled { pl_proposalId : Z; pl_caller : string }.
Definition parseProposalCancelledEvent (event : SorobanEvent) : option ProposalCancelledEventData :=
  record_event "ProposalCancelled" event (λ value,
    proposalId ← toBigInt (value "proposal_id"); Some (mkProposalCancelled proposalId (text_or (value "caller") ""))).

Record ProposalExpiredEventData := mkProposalExpired { pe_proposalId : Z; pe_expiredAtLedger : Num }.
Definition parseProposalExpiredEvent (event : SorobanEvent) : option ProposalExpiredEventData :=
  record_event "ProposalExpired" event (λ value,
    proposalId ← toBigInt (value "proposal_id"); expiredAtLedger ← toNumber (value "expired_at_ledger");
    Some (mkProposalExpired proposalId expiredAtLedger)).

Record ProposalVetoedEventData := mkProposalVetoed { pv_proposalId : Z; pv_queueTime : Z; pv_currentLedger : Z }.
(** [BigInt(value)] as a value, or [None] where it throws. *)
Definition big (value : JsValue) : option Z := match js_BigInt value tt with (Ok n, _) => Some n | _ => None end.
Definition parseProposalVetoedEvent (event : SorobanEvent) : option ProposalVetoedEventData :=
  array_event "veto" 3 event (λ raw,
    proposalId ← big (raw 0%nat); queueTime ← big (raw 1%nat); currentLedger ← big (raw 2%nat);
    Some (mkProposalVetoed proposalId queueTime currentLedger)).

Record GovernorUpgradedEventData := mkGovernorUpgraded { gu_oldHash : JsValue; gu_newHash : JsValue }.
Definition parseGovernorUpgradedEvent (event : SorobanEvent) : option GovernorUpgradedEventData :=
  record_event "GovernorUpgraded" event (λ value, Some (mkGovernorUpgraded (value "old_hash" ?? VNull) (value "new_hash" ?? VNull))).

(** [GovernorSettings] as this file fills it. *)
Record EventSettings := mkEventSettings {
  es_votingDelay : Num; es_votingPeriod : Num; es_quorumNumerator : Num; es_proposalThreshold : Z; es_guardian : string;
  es_voteType : VoteType; es_proposalGracePeriod : Num; es_useDynamicQuorum : bool; es_reflectorOracle : option string;
  es_minQuorumUsd : Z; es_maxCalldataSize : Num; es_proposalCooldown : Num; es_maxProposalsPerPeriod : Num;
  es_proposalPeriodDuration : Num }.
Definition toGovernorSettings (v : JsValue) : option EventSettings :=
  value ← isRecord v;
  votingDelay ← toNumber (value "voting_delay"); votingPeriod ← toNumber (value "voting_period");
  quorumNumerator ← toNumber (value "quorum_numerator"); proposalThreshold ← toBigInt (value "proposal_threshold");
  proposalGracePeriod ← toNumber (value "proposal_grace_period");
  Some (mkEventSettings votingDelay votingPeriod quorumNumerator proposalThreshold (text_or (value "guardian") "") Extended
    proposalGracePeriod (truthy (value "use_dynamic_quorum"))
    (if nullish (value "reflector_oracle") then None else Some (js_String (value "reflector_oracle")))
    (default 0 (toBigInt (value "min_quorum_usd"))) (default (num 10000) (toNumber (value "max_calldata_size")))
    (default (num 100) (toNumber (value "proposal_cooldown"))) (default (num 5) (toNumber (value "max_proposals_per_period")))
    (default (num 10000) (toNumber (value "proposal_period_duration")))).
Record ConfigUpdatedEventData := mkConfigUpdated { cu_oldSettings : EventSettings; cu_newSettings : EventSettings }.
Definition parseConfigUpdatedEvent (event : SorobanEvent) : option ConfigUpdatedEventData :=
  record_event "ConfigUpdated" event (λ value,
    oldSettings ← toGovernorSettings (value "old_settings"); newSettings ← toGovernorSettings (value "new_settings");
    Some (mkConfigUpdated oldSettings newSettings)).

Record ReputationUpdatedEventData := mkReputationUpdated { ru_proposer : string; ru_oldScore : Num; ru_newScore : Num; ru_reason : string }.
Definition parseReputationUpdatedEvent (event : SorobanEvent) : option ReputationUpdatedEventData :=
  record_event "ReputationUpdated" event (λ value,
    oldScore ← toNumber (value "old_score"); newScore ← toNumber (value "new_score");
    Some (mkReputationUpdated (text_or (value "proposer") (topic1 event)) oldScore newScore (text_or (value "reason") ""))).

Record EffectiveThresholdChangedEventData := mkEffectiveThresholdChanged { et_proposer : string; et_oldThreshold : Z; et_newThreshold : Z }.
Definition parseEffectiveThresholdChangedEvent (event : SorobanEvent) : option EffectiveThresholdChangedEventData :=
  record_event "EffectiveThresholdChanged" event (λ value,
    oldThreshold ← toBigInt (value "old_threshold"); newThreshold ← toBigInt (value "new_threshold");
    Some (mkEffectiveThresholdChanged (text_or (value "proposer") (topic1 event)) oldThreshold newThreshold)).

Record PauseEventData := mkPause { pa_pauser : string; pa_ledger : Num }.
Definition parsePauseEvent (event : SorobanEvent) : option PauseEventData :=
  record_event "Paused" event (λ value,
    ledger ← toNumber (value "ledger"); Some (mkPause (default (text_or (value "pauser") "") (e_topic event !! 1%nat)) ledger)).
Record UnpauseEventData := mkUnpause { up_ledger : Num }.
Definition parseUnpauseEvent (event : SorobanEvent) : option UnpauseEventData :=
  record_event "Unpaused" event (λ value, ledger ← toNumber (value "ledger"); Some (mkUnpause ledger)).

(** ** Co-sponsorship *)
Record DraftCreatedEventData := mkDraftCreated {
  dc_draftId : Z; dc_creator : string; dc_descriptionHash : string; dc_metadataUri : string; dc_createdLedger : Num; dc_expiryLedger : Num }.
Definition parseDraftCreatedEvent (event : SorobanEvent) : option DraftCreatedEventData :=
  record_event "DraftCreated" event (λ value,
    draftId ← toBigInt (value "draft_id"); createdLedger ← toNumber (value "created_ledger"); expiryLedger ← toNumber (value "expiry_ledger");
    Some (mkDraftCreated draftId (text_or (value "creator") (topic1 event)) (toHex (value "description_hash")) (text_or (value "metadata_uri") "") createdLedger expiryLedger)).
Record CoSponsoredEventData := mkCoSponsored { co_draftId : Z; co_sponsor : string; co_power : Z; co_totalPower : Z }.
Definition parseCoSponsoredEvent (event : SorobanEvent) : option CoSponsoredEventData :=
  array_event "CoSponsored" 3 event (λ value,
    draftId ← toBigInt (value 0%nat); power ← toBigInt (value 1%nat); totalPower ← toBigInt (value 2%nat);
    Some (mkCoSponsored draftId (topic1 event) power totalPower)).
Record CoSponsorshipWithdrawnEventData := mkCoSponsorshipWithdrawn {
  cw_draftId : Z; cw_sponsor : string; cw_power : Z; cw_totalPower : Z }.
Definition parseCoSponsorshipWithdrawnEvent (event : SorobanEvent) : option CoSponsorshipWithdrawnEventData :=
  array_event "CoSponsorshipWithdrawn" 3 event (λ value,
    draftId ← toBigInt (value 0%nat); power ← toBigInt (value 1%nat); totalPower ← toBigInt (value 2%nat);
    Some (mkCoSponsorshipWithdrawn draftId (topic1 event) power totalPower)).
Record DraftFinalizedEventData := mkDraftFinalized { df_draftId : Z; df_proposalId : Z }.
Definition parseDraftFinalizedEvent (event : SorobanEvent) : option DraftFinalizedEventData :=
  array_event "DraftFinalized" 2 event (λ value,
    draftId ← toBigInt (value 0%nat); proposalId ← toBigInt (value 1%nat); Some (mkDraftFinalized draftId proposalId)).
Record DraftCancelledEventData := mkDraftCancelled { dl_draftId : Z; dl_caller : string }.
Definition parseDraftCancelledEvent (event : SorobanEvent) : option DraftCancelledEventData :=
  array_event "DraftCancelled" 2 event (λ value,
    draftId ← toBigInt (value 0%nat); Some (mkDraftCancelled draftId (text_or (value 1%nat) ""))).
Record DraftExpiredEventData := mkDraftExpired { de_draftId : Z; de_expiredAtLedger : Num }.
Definition parseDraftExpiredEvent (event : SorobanEvent) : option DraftExpiredEventData :=
  array_event "DraftExpired" 2 event (λ value,
    draftId ← toBigInt (value 0%nat); expiredAtLedger ← toNumber (value 1%nat); Some (mkDraftExpired draftId expiredAtLedger)).

(** ** Delegation by signature *)
Record DelegatedBySigEventData := mkDelegatedBySig {
  ds_delegator : string; ds_delegatee : string; ds_relayer : string; ds_nonce : Z }.
Definition parseDelegatedBySigEvent (event : SorobanEvent) : option DelegatedBySigEventData :=
  record_event "DelegatedBySig" event (λ value,
    nonce ← toBigInt (value "nonce");
    Some (mkDelegatedBySig (text_or (value "delegator") (topic1 event)) (text_or (value "delegatee") "") (text_or (value "relayer") "") nonce)).
Record PermitsInvalidatedEventData := mkPermitsInvalidated { pi_delegator : string; pi_newNonce : Z }.
Definition parsePermitsInvalidatedEvent (event : SorobanEvent) : option PermitsInvalidatedEventData :=
  record_event "PermitsInvalidated" event (λ value,
    newNonce ← toBigInt (value "new_nonce"); Some (mkPermitsInvalidated (text_or (value "delegator") (topic1 event)) newNonce)).
Record RelayerWhitelistUpdatedEventData := mkRelayerWhitelistUpdated { rw_relayer : string; rw_whitelisted : bool }.
Definition parseRelayerWhitelistUpdatedEvent (event : SorobanEvent) : option RelayerWhitelistUpdatedEventData :=
  record_event "RelayerWhitelistUpdated" event (λ value,
    Some (mkRelayerWhitelistUpdated (text_or (value "relayer") (topic1 event)) (truthy (value "whitelisted")))).

(** ** Treasury streams *)
Record StreamCreatedEventData := mkStreamCreated { sc_streamId : Z; sc_name : string; sc_owner : string }.
Definition parseStreamCreatedEvent (event : SorobanEvent) : option StreamCreatedEventData :=
  array_event "stream_created" 3 event (λ value,
    streamId ← toBigInt (value 0%nat); Some (mkStreamCreated streamId (text_or (value 1%nat) "") (text_or (value 2%nat) ""))).
Record StreamSpendEventData := mkStreamSpend { ss_streamId : Z; ss_recipient : string; ss_amount : Z }.
Definition parseStreamSpendEvent (event : SorobanEvent) : option StreamSpendEventData :=
  array_event "stream_spend" 3 event (λ value,
    streamId ← toBigInt (value 0%nat); amount ← toBigInt (value 2%nat);
    Some (mkStreamSpend streamId (text_or (value 1%nat) "") amount)).
Record StreamBatchSpendEventData := mkStreamBatchSpend { sb_streamId : Z; sb_totalAmount : Z; sb_recipientCount : Num }.
Definition parseStreamBatchSpendEvent (event : SorobanEvent) : option StreamBatchSpendEventData :=
  array_event "stream_batch" 3 event (λ value,
    streamId ← toBigInt (value 0%nat); totalAmount ← toBigInt (value 1%nat); recipientCount ← toNumber (value 2%nat);
    Some (mkStreamBatchSpend streamId totalAmount recipientCount)).
Record StreamRevokedEventData := mkStreamRevoked { sr_streamId : Z; sr_caller : string; sr_unspentReturned : Z }.
Definition parseStreamRevokedEvent (event : SorobanEvent) : option StreamRevokedEventData :=
  array_event "stream_revoked" 3 event (λ value,
    streamId ← toBigInt (value 0%nat); unspentReturned ← toBigInt (value 2%nat);
    Some (mkStreamRevoked streamId (text_or (value 1%nat) "") unspentReturned)).
Record StreamExtendedEventData := mkStreamExtended { sx_streamId : Z; sx_oldEnd : Num; sx_newEnd : Num }.
Definition parseStreamExtendedEvent (event : SorobanEvent) : option StreamExtendedEventData :=
  array_event "stream_extended" 3 event (λ value,
    streamId ← toBigInt (value 0%nat); oldEnd ← toNumber (value 1%nat); newEnd ← toNumber (value 2%nat);
    Some (mkStreamExtended streamId oldEnd newEnd)).
Record StreamToppedUpEventData := mkStreamToppedUp { st_streamId : Z; st_additional : Z; st_newTotal : Z }.
Definition parseStreamToppedUpEvent (event : SorobanEvent) : option StreamToppedUpEventData :=
  array_event "stream_topped_up" 3 event (λ value,
    streamId ← toBigInt (value 0%nat); additional ← toBigInt (value 1%nat); newTotal ← toBigInt (value 2%nat);
    Some (mkStreamToppedUp streamId additional newTotal)).
Record StreamExhaustedEventData := mkStreamExhausted { sh_streamId : Z }.
Definition parseStreamExhaustedEvent (event : SorobanEvent) : option StreamExhaustedEventData :=
  if has_topic "stream_exhausted" event then mkStreamExhausted <$> toBigInt (e_value event) else None.
Record StreamExpiredEventData := mkStreamExpired { se_streamId : Z; se_unspent : Z }.
Definition parseStreamExpiredEvent (event : SorobanEvent) : option StreamExpiredEventData :=
  array_event "stream_expired" 2 event (λ value,
    streamId ← toBigInt (value 0%nat); unspent ← toBigInt (value 1%nat); Some (mkStreamExpired streamId unspent)).

(** ** The timelock *)
Record OperationScheduledEventData := mkOperationScheduled {
  os_opId : string; os_target : string; os_fnName : string; os_readyAt : Z; os_expiresAt : Z }.
Definition parseOperationScheduledEvent (event : SorobanEvent) : option OperationScheduledEventData :=
  record_event "OperationScheduled" event (λ value,
    readyAt ← toBigInt (value "ready_at"); expiresAt ← toBigInt (value "expires_at");
    Some (mkOperationScheduled (toHex (value "op_id")) (text_or (value "target") "") (text_or (value "fn_name") "") readyAt expiresAt)).
Record OperationExecutedEventData := mkOperationExecuted { ox_opId : string; ox_caller : string }.
Definition parseOperationExecutedEvent (event : SorobanEvent) : option OperationExecutedEventData :=
  record_event "OperationExecuted" event (λ value,
    Some (mkOperationExecuted (toHex (value "op_id")) (text_or (value "caller") ""))).
Record OperationCancelledEventData := mkOperationCancelled { oc_opId : string; oc_caller : string }.
Definition parseOperationCancelledEvent (event : SorobanEvent) : option OperationCancelledEventData :=
  record_event "OperationCancelled" event (λ value,
    Some (mkOperationCancelled (toHex (value "op_id")) (text_or (value "caller") ""))).
Record BatchOperationScheduledEventData := mkBatchOperationScheduled {
  bs_batchOpId : string; bs_targets : list string; bs_fnNames : list string; bs_readyAt : Z; bs_expiresAt : Z }.
Definition parseBatchOperationScheduledEvent (event : SorobanEvent) : option BatchOperationScheduledEventData :=
  record_event "BatchOperationScheduled" event (λ value,
    readyAt ← toBigInt (value "ready_at"); expiresAt ← toBigInt (value "expires_at");
    Some (mkBatchOperationScheduled (toHex (value "batch_op_id")) (js_String <$> items (value "targets")) (js_String <$> items (value "fn_names")) readyAt expiresAt)).
Record BatchOperationExecutedEventData := mkBatchOperationExecuted { bx_batchOpId : string; bx_caller : string }.
Definition parseBatchOperationExecutedEvent (event : SorobanEvent) : option BatchOperationExecutedEventData :=
  record_event "BatchOperationExecuted" event (λ value,
    Some (mkBatchOperationExecuted (toHex (value "batch_op_id")) (text_or (value "caller") ""))).
Record BatchOperationCancelledEventData := mkBatchOperationCancelled { bc_batchOpId : string; bc_caller : string }.
Definition parseBatchOperationCancelledEvent (event : SorobanEvent) : option BatchOperationCancelledEventData :=
  record_event "BatchOperationCancelled" event (λ value,
    Some (mkBatchOperationCancelled (toHex (value "batch_op_id")) (text_or (value "caller") ""))).
Record MinDelayUpdatedEventData := mkMinDelayUpdated { md_oldDelay : Z; md_newDelay : Z }.
Definition parseMinDelayUpdatedEvent (event : SorobanEvent) : option MinDelayUpdatedEventData :=
  record_event "MinDelayUpdated" event (λ value,
    oldDelay ← toBigInt (value "old_delay"); newDelay ← toBigInt (value "new_delay"); Some (mkMinDelayUpdated oldDelay newDelay)).
Record DependencyDagValidatedEventData := mkDependencyDagValidated { dv_batchOpId : string; dv_opCount : Num }.
Definition parseDependencyDagValidatedEvent (event : SorobanEvent) : option DependencyDagValidatedEventData :=
  array_event "DependencyDagValidated" 2 event (λ value,
    opCount ← toNumber (value 1%nat); Some (mkDependencyDagValidated (toHex (value 0%nat)) opCount)).
Record CycleDetectedEventData := mkCycleDetected { cd_cyclePath : list string }.
Definition parseCycleDetectedEvent (event : SorobanEvent) : option CycleDetectedEventData :=
  if has_topic "CycleDetected" event then
    match e_value event with VArr l => Some (mkCycleDetected (toHex <$> l)) | _ => None end
  else None.
Record PartialBatchStartedEventData := mkPartialBatchStarted { pb_batchOpId : string; pb_totalOps : Num }.
Definition parsePartialBatchStartedEvent (event : SorobanEvent) : option PartialBatchStartedEventData :=
  array_event "PartialBatchStarted" 2 event (λ value,
    totalOps ← toNumber (value 1%nat); Some (mkPartialBatchStarted (toHex (value 0%nat)) totalOps)).
Record PartialOpSucceededEventData := mkPartialOpSucceeded {
  po_batchOpId : string; po_opId : string; po_completed : Num; po_total : Num }.
Definition parsePartialOpSucceededEvent (event : SorobanEvent) : option PartialOpSucceededEventData :=
  array_event "PartialOpSucceeded" 4 event (λ value,
    completed ← toNumber (value 2%nat); total ← toNumber (value 3%nat);
    Some (mkPartialOpSucceeded (toHex (value 0%nat)) (toHex (value 1%nat)) completed total)).
Record PartialOpFailedEventData := mkPartialOpFailed { pf_batchOpId : string; pf_opId : string }.
Definition parsePartialOpFailedEvent (event : SorobanEvent) : option PartialOpFailedEventData :=
  array_event "PartialOpFailed" 2 event (λ value,
    Some (mkPartialOpFailed (toHex (value 0%nat)) (toHex (value 1%nat)))).
Record BatchRecoveryEnteredEventData := mkBatchRecoveryEntered { br_batchOpId : string; br_recoveryDeadline : Num }.
Definition parseBatchRecoveryEnteredEvent (event : SorobanEvent) : option BatchRecoveryEnteredEventData :=
  array_event "BatchRecoveryEntered" 2 event (λ value,
    recoveryDeadline ← toNumber (value 1%nat); Some (mkBatchRecoveryEntered (toHex (value 0%nat)) recoveryDeadline)).
Record FailedOpRetriedEventData := mkFailedOpRetried {
  fr_batchOpId : string; fr_opId : string; fr_retryCount : Num; fr_succeeded : bool }.
Definition parseFailedOpRetriedEvent (event : SorobanEvent) : option FailedOpRetriedEventData :=
  array_event "FailedOpRetried" 4 event (λ value,
    retryCount ← toNumber (value 2%nat);
    Some (mkFailedOpRetried (toHex (value 0%nat)) (toHex (value 1%nat)) retryCount (truthy (value 3%nat)))).
Record FailedOpSkippedEventData := mkFailedOpSkipped { fs_batchOpId : string; fs_opId : string }.
Definition parseFailedOpSkippedEvent (event : SorobanEvent) : option FailedOpSkippedEventData :=
  array_event "FailedOpSkipped" 2 event (λ value,
    Some (mkFailedOpSkipped (toHex (value 0%nat)) (toHex (value 1%nat)))).
Record BatchFullyCompleteEventData := mkBatchFullyComplete { bf_batchOpId : string }.
Definition parseBatchFullyCompleteEvent (event : SorobanEvent) : option BatchFullyCompleteEventData :=
  if has_topic "BatchFullyComplete" event then Some (mkBatchFullyComplete (toHex (e_value event))) else None.

(** ** The signal anchor *)
Record ResultAnchoredEventData := mkResultAnchored {
  ra_pollId : Z; ra_resultHash : string; ra_anchoredLedger : Num; ra_anchorer : string }.
Definition parseResultAnchoredEvent (event : SorobanEvent) : option ResultAnchoredEventData :=
  array_event "ResultAnchored" 3 event (λ value,
    pollId ← toBigInt (value 0%nat); anchoredLedger ← toNumber (value 2%nat);
    Some (mkResultAnchored pollId (toHex (value 1%nat)) anchoredLedger (topic1 event))).

(** ** The vote escrow *)
Record LockCreatedEventData := mkLockCreated { lc_owner : string; lc_amount : Z; lc_endLedger : Num; lc_initialVotingPower : Z }.
Definition parseLockCreatedEvent (event : SorobanEvent) : option LockCreatedEventData :=
  record_event "LockCreated" event (λ value,
    amount ← toBigInt (value "amount"); endLedger ← toNumber (value "end_ledger"); initialVotingPower ← toBigInt (value "initial_voting_power");
    Some (mkLockCreated (text_or (value "owner") (topic1 event)) amount endLedger initialVotingPower)).
Record LockIncreasedEventData := mkLockIncreased { li_owner : string; li_addedAmount : Z; li_newVotingPower : Z }.
Definition parseLockIncreasedEvent (event : SorobanEvent) : option LockIncreasedEventData :=
  record_event "LockIncreased" event (λ value,
    addedAmount ← toBigInt (value "added_amount"); newVotingPower ← toBigInt (value "new_voting_power");
    Some (mkLockIncreased (text_or (value "owner") (topic1 event)) addedAmount newVotingPower)).
Record LockExtendedEventData := mkLockExtended { lx_owner : string; lx_oldEndLedger : Num; lx_newEndLedger : Num }.
Definition parseLockExtendedEvent (event : SorobanEvent) : option LockExtendedEventData :=
  record_event "LockExtended" event (λ value,
    oldEndLedger ← toNumber (value "old_end_ledger"); newEndLedger ← toNumber (value "new_end_ledger");
    Some (mkLockExtended (text_or (value "owner") (topic1 event)) oldEndLedger newEndLedger)).
Record LockWithdrawnEventData := mkLockWithdrawn { lw_owner : string; lw_amount : Z }.
Definition parseLockWithdrawnEvent (event : SorobanEvent) : option LockWithdrawnEventData :=
  record_event "LockWithdrawn" event (λ value,
    amount ← toBigInt (value "amount"); Some (mkLockWithdrawn (text_or (value "owner") (topic1 event)) amount)).

(** ** Voting rewards *)
(** [toBigInt(event.topic[1])] *)
Definition topic_BigInt (event : SorobanEvent) : option Z := s ← e_topic event !! 1%nat; text_integer s.
Record EpochStartedEventData := mkEpochStarted { ep_epochId : Z; ep_startLedger : Num; ep_endLedger : Num }.
Definition parseEpochStartedEvent (event : SorobanEvent) : option EpochStartedEventData :=
  array_event "EpochStarted" 2 event (λ value,
    epochId ← topic_BigInt event; startLedger ← toNumber (value 0%nat); endLedger ← toNumber (value 1%nat);
    Some (mkEpochStarted epochId startLedger endLedger)).
Record EpochRootPublishedEventData := mkEpochRootPublished { er_epochId : Z; er_merkleRoot : string; er_totalRewardAmount : Z }.
Definition parseEpochRootPublishedEvent (event : SorobanEvent) : option EpochRootPublishedEventData :=
  array_event "EpochRootPublished" 2 event (λ value,
    epochId ← topic_BigInt event; totalRewardAmount ← toBigInt (value 1%nat);
    Some (mkEpochRootPublished epochId (toHex (value 0%nat)) totalRewardAmount)).
Record RewardClaimedEventData := mkRewardClaimed { rc_claimant : string; rc_epochId : Z; rc_amount : Z }.
Definition parseRewardClaimedEvent (event : SorobanEvent) : option RewardClaimedEventData :=
  array_event "RewardClaimed" 2 event (λ value,
    epochId ← toBigInt (value 0%nat); amount ← toBigInt (value 1%nat); Some (mkRewardClaimed (topic1 event) epochId amount)).
Record PoolFundedEventData := mkPoolFunded { pd_funder : string; pd_amount : Z }.
Definition parsePoolFundedEvent (event : SorobanEvent) : option PoolFundedEventData :=
  if has_topic "PoolFunded" event then mkPoolFunded (topic1 event) <$> toBigInt (e_value event) else None.
