(* ===== verification/ContractEvents.v ===== *)
(** * Events as the contracts publish them

    The [events.rs] of the contracts whose events [sdk/src/events.ts] reads, what
    the [lib.rs] of four of them publish themselves, and the events of the two
    voting tracks under topics of the governor: for each [emit_*] function the
    topics and the value, as [scValToNative] decodes them.  A [u32]
    or [i32] decodes to a number, a [u64] or [i128] to a bigint, an address, a
    text or a symbol to a text, bytes to a buffer, a tuple or a vector to an
    array, a struct to an object and the unit to [null]. *)

From S2P Require Import Prelude JsValues SdkTypes.

Abbreviation int32 := VNum (only parsing).
Abbreviation int64 := VBig (only parsing).
Abbreviation int128 := VBig (only parsing).
Abbreviation symbol := VStr (only parsing).
Abbreviation text := VStr (only parsing).
Abbreviation address := VStr (only parsing).

(** Topics and value. *)
Definition Published : Type := list JsValue * JsValue.

(** ** [governor] *)
Inductive VoteSupport := Against | For | Abstain.
Definition vote_support_to_u32 (support : VoteSupport) : Z := match support with Against => 0 | For => 1 | Abstain => 2 end.
Record ContractSettings := mkContractSettings {
  k_voting_delay : Z; k_voting_period : Z; k_quorum_numerator : Z; k_proposal_threshold : Z; k_guardian : string;
  k_vote_type : VoteType; k_proposal_grace_period : Z; k_use_dynamic_quorum : bool; k_reflector_oracle : option string;
  k_min_quorum_usd : Z; k_max_calldata_size : Z; k_proposal_cooldown : Z; k_max_proposals_per_period : Z;
  k_proposal_period_duration : Z; k_co_sponsorship_registry : option string; k_use_commit_reveal : bool;
  k_commit_phase_fraction : Z }.
Definition optional_address (o : option string) : JsValue := match o with Some a => address a | None => VNull end.
Definition vote_type_symbol (v : VoteType) : JsValue :=
  VArr [symbol match v with Simple => "Simple" | Extended => "Extended" | Quadratic => "Quadratic" end].
Definition settings_value (k : ContractSettings) : JsValue :=
  VObj [("co_sponsorship_registry", optional_address (k_co_sponsorship_registry k)); ("commit_phase_fraction", int32 (k_commit_phase_fraction k));
    ("guardian", address (k_guardian k)); ("max_calldata_size", int32 (k_max_calldata_size k));
    ("max_proposals_per_period", int32 (k_max_proposals_per_period k)); ("min_quorum_usd", int128 (k_min_quorum_usd k));
    ("proposal_cooldown", int32 (k_proposal_cooldown k)); ("proposal_grace_period", int32 (k_proposal_grace_period k));
    ("proposal_period_duration", int32 (k_proposal_period_duration k)); ("proposal_threshold", int128 (k_proposal_threshold k));
    ("quorum_numerator", int32 (k_quorum_numerator k)); ("reflector_oracle", optional_address (k_reflector_oracle k));
    ("use_commit_reveal", VBool (k_use_commit_reveal k)); ("use_dynamic_quorum", VBool (k_use_dynamic_quorum k));
    ("vote_type", vote_type_symbol (k_vote_type k)); ("voting_delay", int32 (k_voting_delay k)); ("voting_period", int32 (k_voting_period k))].
Inductive GovernorEvent :=
  | emit_proposal_created (id : Z) (proposer description : string) (description_hash : bytes) (metadata_uri : string)
      (targets fn_names : list string) (calldatas : list bytes) (start_ledger end_ledger : Z)
  | emit_vote_cast (voter : string) (proposal_id : Z) (support : VoteSupport) (weight : Z)
  | emit_vote_cast_with_reason (voter : string) (proposal_id : Z) (support : VoteSupport) (weight : Z) (reason : string)
  | emit_proposal_queued (proposal_id : Z) (op_id : bytes) (eta : Z)
  | emit_proposal_executed (proposal_id : Z) (caller : string)
  | emit_proposal_cancelled (proposal_id : Z) (caller : string)
  | emit_proposal_expired (proposal_id expired_at_ledger : Z)
  | emit_governor_upgraded (old_hash new_hash : bytes)
  | emit_config_updated (old_settings new_settings : ContractSettings)
  | emit_guardian_changed (old_guardian new_guardian : string)
  | emit_paused (pauser : string) (ledger : Z)
  | emit_unpaused (ledger : Z)
  | emit_pauser_changed (old_pauser new_pauser : string)
  | emit_reputation_updated (proposer : string) (old_score new_score : Z) (reason : string)
  | emit_effective_threshold_changed (proposer : string) (old_threshold new_threshold : Z)
  | emit_vote_committed (proposal_id : Z) (voter : string) (commitment : bytes)
  | emit_vote_revealed (proposal_id : Z) (voter : string) (support : VoteSupport) (weight : Z)
  | emit_commit_phase_started (proposal_id commit_deadline reveal_deadline : Z).
Definition governor_publishes (e : GovernorEvent) : Published :=
  match e with
  | emit_proposal_created id proposer description hash uri targets fn_names calldatas start finish =>
    ([symbol "ProposalCreated"; address proposer],
     VObj [("calldatas", VArr (VBytes <$> calldatas)); ("description", text description); ("description_hash", VBytes hash);
       ("end_ledger", int32 finish); ("fn_names", VArr (symbol <$> fn_names)); ("metadata_uri", text uri); ("proposal_id", int64 id);
       ("proposer", address proposer); ("start_ledger", int32 start); ("targets", VArr (address <$> targets))])
  | emit_vote_cast voter id support weight =>
    ([symbol "VoteCast"; address voter],
     VObj [("proposal_id", int64 id); ("support", int32 (vote_support_to_u32 support)); ("voter", address voter); ("weight", int128 weight)])
  | emit_vote_cast_with_reason voter id support weight reason =>
    ([symbol "VoteCastWithReason"],
     VObj [("proposal_id", int64 id); ("reason", text reason); ("support", int32 (vote_support_to_u32 support)); ("voter", address voter);
       ("weight", int128 weight)])
  | emit_proposal_queued id op_id eta =>
    ([symbol "ProposalQueued"], VObj [("eta", int64 eta); ("op_id", VBytes op_id); ("proposal_id", int64 id)])
  | emit_proposal_executed id caller => ([symbol "ProposalExecuted"], VObj [("caller", address caller); ("proposal_id", int64 id)])
  | emit_proposal_cancelled id caller => ([symbol "ProposalCancelled"], VObj [("caller", address caller); ("proposal_id", int64 id)])
  | emit_proposal_expired id ledger => ([symbol "ProposalExpired"], VObj [("expired_at_ledger", int32 ledger); ("proposal_id", int64 id)])
  | emit_governor_upgraded old new => ([symbol "GovernorUpgraded"], VObj [("new_hash", VBytes new); ("old_hash", VBytes old)])
  | emit_config_updated old new =>
    ([symbol "ConfigUpdated"], VObj [("new_settings", settings_value new); ("old_settings", settings_value old)])
  | emit_guardian_changed old new => ([symbol "GuardianChanged"], VObj [("new_guardian", address new); ("old_guardian", address old)])
  | emit_paused pauser ledger => ([symbol "Paused"; address pauser], VObj [("ledger", int32 ledger); ("pauser", address pauser)])
  | emit_unpaused ledger => ([symbol "Unpaused"], VObj [("ledger", int32 ledger)])
  | emit_pauser_changed old new => ([symbol "PauserChanged"], VArr [address old; address new])
  | emit_reputation_updated proposer old new reason =>
    ([symbol "ReputationUpdated"; address proposer],
     VObj [("new_score", int32 new); ("old_score", int32 old); ("proposer", address proposer); ("reason", symbol reason)])
  | emit_effective_threshold_changed proposer old new =>
    ([symbol "EffectiveThresholdChanged"; address proposer],
     VObj [("new_threshold", int128 new); ("old_threshold", int128 old); ("proposer", address proposer)])
  | emit_vote_committed id voter commitment => ([symbol "VoteCommitted"; address voter], VArr [int64 id; VBytes commitment])
  | emit_vote_revealed id voter support weight =>
    ([symbol "VoteRevealed"; address voter], VArr [int64 id; int32 (vote_support_to_u32 support); int128 weight])
  | emit_commit_phase_started id commit reveal => ([symbol "CommitPhaseStarted"; int64 id], VArr [int32 commit; int32 reveal])
  end.

(** ** [co-sponsorship] *)
Inductive CoSponsorshipEvent :=
  | emit_draft_created (id : Z) (creator : string) (description_hash : bytes) (metadata_uri : string) (created_ledger expiry_ledger : Z)
  | emit_co_sponsored (draft_id : Z) (sponsor : string) (power total_power : Z)
  | emit_co_sponsorship_withdrawn (draft_id : Z) (sponsor : string) (power total_power : Z)
  | emit_draft_finalized (draft_id proposal_id : Z)
  | emit_draft_cancelled (draft_id : Z) (caller : string)
  | emit_draft_expired (draft_id expired_at_ledger : Z).
Definition co_sponsorship_publishes (e : CoSponsorshipEvent) : Published :=
  match e with
  | emit_draft_created id creator hash uri created expiry =>
    ([symbol "DraftCreated"; address creator],
     VObj [("created_ledger", int32 created); ("creator", address creator); ("description_hash", VBytes hash); ("draft_id", int64 id);
       ("expiry_ledger", int32 expiry); ("metadata_uri", text uri)])
  | emit_co_sponsored id sponsor power total => ([symbol "CoSponsored"; address sponsor], VArr [int64 id; int128 power; int128 total])
  | emit_co_sponsorship_withdrawn id sponsor power total =>
    ([symbol "CoSponsorshipWithdrawn"; address sponsor], VArr [int64 id; int128 power; int128 total])
  | emit_draft_finalized id proposal => ([symbol "DraftFinalized"], VArr [int64 id; int64 proposal])
  | emit_draft_cancelled id caller => ([symbol "DraftCancelled"], VArr [int64 id; address caller])
  | emit_draft_expired id ledger => ([symbol "DraftExpired"], VArr [int64 id; int32 ledger])
  end.

(** ** [token-votes] *)
Inductive DelegationSigEvent :=
  | emit_delegated_by_sig (delegator delegatee relayer : string) (nonce : Z)
  | emit_permits_invalidated (delegator : string) (new_nonce : Z)
  | emit_relayer_whitelist_updated (relayer : string) (whitelisted : bool).
Definition token_votes_publishes (e : DelegationSigEvent) : Published :=
  match e with
  | emit_delegated_by_sig delegator delegatee relayer nonce =>
    ([symbol "DelegatedBySig"; address delegator],
     VObj [("delegatee", address delegatee); ("delegator", address delegator); ("nonce", int64 nonce); ("relayer", address relayer)])
  | emit_permits_invalidated delegator nonce =>
    ([symbol "PermitsInvalidated"; address delegator], VObj [("delegator", address delegator); ("new_nonce", int64 nonce)])
  | emit_relayer_whitelist_updated relayer listed =>
    ([symbol "RelayerWhitelistUpdated"; address relayer], VObj [("relayer", address relayer); ("whitelisted", VBool listed)])
  end.

(** ** [treasury] *)
Inductive TreasuryEvent :=
  | emit_stream_created (id : Z) (name owner : string)
  | emit_stream_spend (stream_id : Z) (recipient : string) (amount : Z)
  | emit_stream_batch_spend (stream_id total_amount recipient_count : Z)
  | emit_stream_revoked (stream_id : Z) (caller : string) (unspent_returned : Z)
  | emit_stream_extended (stream_id old_end new_end : Z)
  | emit_stream_topped_up (stream_id additional new_total : Z)
  | emit_stream_exhausted (stream_id : Z)
  | publish_execute (tx_id : Z).
Definition treasury_publishes (e : TreasuryEvent) : Published :=
  match e with
  | emit_stream_created id name owner => ([symbol "stream_created"], VArr [int64 id; text name; address owner])
  | emit_stream_spend id recipient amount => ([symbol "stream_spend"], VArr [int64 id; address recipient; int128 amount])
  | emit_stream_batch_spend id total count => ([symbol "stream_batch"], VArr [int64 id; int128 total; int32 count])
  | emit_stream_revoked id caller unspent => ([symbol "stream_revoked"], VArr [int64 id; address caller; int128 unspent])
  | emit_stream_extended id old new => ([symbol "stream_extended"], VArr [int64 id; int32 old; int32 new])
  | emit_stream_topped_up id more total => ([symbol "stream_topped_up"], VArr [int64 id; int128 more; int128 total])
  | emit_stream_exhausted id => ([symbol "stream_exhausted"], int64 id)
  | publish_execute tx_id => ([symbol "execute"], int64 tx_id)
  end.

(** ** [timelock] *)
Inductive TimelockEvent :=
  | emit_operation_scheduled (op_id : bytes) (target fn_name : string) (ready_at expires_at : Z)
  | emit_operation_executed (op_id : bytes) (caller : string)
  | emit_operation_cancelled (op_id : bytes) (caller : string)
  | emit_batch_operation_scheduled (batch_op_id : bytes) (targets fn_names : list string) (ready_at expires_at : Z)
  | emit_batch_operation_executed (batch_op_id : bytes) (caller : string)
  | emit_batch_operation_cancelled (batch_op_id : bytes) (caller : string)
  | emit_min_delay_updated (old_delay new_delay : Z)
  | emit_dependency_dag_validated (batch_op_id : bytes) (op_count : Z)
  | emit_cycle_detected (cycle_path : list bytes)
  | emit_partial_batch_started (batch_op_id : bytes) (total_ops : Z)
  | emit_partial_op_succeeded (batch_op_id op_id : bytes) (completed total : Z)
  | emit_partial_op_failed (batch_op_id op_id : bytes)
  | emit_batch_recovery_entered (batch_op_id : bytes) (recovery_deadline : Z)
  | emit_failed_op_retried (batch_op_id op_id : bytes) (retry_count : Z) (succeeded : bool)
  | emit_failed_op_skipped (batch_op_id op_id : bytes)
  | emit_batch_fully_complete (batch_op_id : bytes)
  | publish_operation_execute (op_id : bytes).
Definition timelock_publishes (e : TimelockEvent) : Published :=
  match e with
  | emit_operation_scheduled op target fn ready expires =>
    ([symbol "OperationScheduled"],
     VObj [("expires_at", int64 expires); ("fn_name", symbol fn); ("op_id", VBytes op); ("ready_at", int64 ready); ("target", address target)])
  | emit_operation_executed op caller => ([symbol "OperationExecuted"], VObj [("caller", address caller); ("op_id", VBytes op)])
  | emit_operation_cancelled op caller => ([symbol "OperationCancelled"], VObj [("caller", address caller); ("op_id", VBytes op)])
  | emit_batch_operation_scheduled op targets fns ready expires =>
    ([symbol "BatchOperationScheduled"],
     VObj [("batch_op_id", VBytes op); ("expires_at", int64 expires); ("fn_names", VArr (symbol <$> fns)); ("ready_at", int64 ready);
       ("targets", VArr (address <$> targets))])
  | emit_batch_operation_executed op caller => ([symbol "BatchOperationExecuted"], VObj [("batch_op_id", VBytes op); ("caller", address caller)])
  | emit_batch_operation_cancelled op caller =>
    ([symbol "BatchOperationCancelled"], VObj [("batch_op_id", VBytes op); ("caller", address caller)])
  | emit_min_delay_updated old new => ([symbol "MinDelayUpdated"], VObj [("new_delay", int64 new); ("old_delay", int64 old)])
  | emit_dependency_dag_validated op count => ([symbol "DependencyDagValidated"], VArr [VBytes op; int32 count])
  | emit_cycle_detected path => ([symbol "CycleDetected"], VArr (VBytes <$> path))
  | emit_partial_batch_started op total => ([symbol "PartialBatchStarted"], VArr [VBytes op; int32 total])
  | emit_partial_op_succeeded batch op completed total =>
    ([symbol "PartialOpSucceeded"], VArr [VBytes batch; VBytes op; int32 completed; int32 total])
  | emit_partial_op_failed batch op => ([symbol "PartialOpFailed"], VArr [VBytes batch; VBytes op])
  | emit_batch_recovery_entered batch deadline => ([symbol "BatchRecoveryEntered"], VArr [VBytes batch; int32 deadline])
  | emit_failed_op_retried batch op count succeeded =>
    ([symbol "FailedOpRetried"], VArr [VBytes batch; VBytes op; int32 count; VBool succeeded])
  | emit_failed_op_skipped batch op => ([symbol "FailedOpSkipped"], VArr [VBytes batch; VBytes op])
  | emit_batch_fully_complete batch => ([symbol "BatchFullyComplete"], VBytes batch)
  | publish_operation_execute op => ([symbol "execute"], VBytes op)
  end.

(** ** [signal-anchor], [vote-escrow], [voting-rewards] *)
Inductive AnchorEvent :=
  | emit_result_anchored (poll_id : Z) (result_hash : bytes) (anchored_ledger : Z) (anchorer : string).
Definition anchor_publishes (e : AnchorEvent) : Published :=
  match e with
  | emit_result_anchored id hash ledger anchorer =>
    ([symbol "ResultAnchored"; address anchorer], VArr [int64 id; VBytes hash; int32 ledger])
  end.
Inductive EscrowEvent :=
  | emit_lock_created (owner : string) (amount end_ledger initial_voting_power : Z)
  | emit_lock_increased (owner : string) (added_amount new_voting_power : Z)
  | emit_lock_extended (owner : string) (old_end_ledger new_end_ledger : Z)
  | emit_lock_withdrawn (owner : string) (amount : Z)
  | emit_escrow_config_updated (old_min_lock_duration new_min_lock_duration old_max_lock_duration new_max_lock_duration
      old_max_multiplier_bps new_max_multiplier_bps : Z).
Definition escrow_publishes (e : EscrowEvent) : Published :=
  match e with
  | emit_lock_created owner amount finish power =>
    ([symbol "LockCreated"; address owner],
     VObj [("amount", int128 amount); ("end_ledger", int32 finish); ("initial_voting_power", int128 power); ("owner", address owner)])
  | emit_lock_increased owner added power =>
    ([symbol "LockIncreased"; address owner], VObj [("added_amount", int128 added); ("new_voting_power", int128 power); ("owner", address owner)])
  | emit_lock_extended owner old new =>
    ([symbol "LockExtended"; address owner], VObj [("new_end_ledger", int32 new); ("old_end_ledger", int32 old); ("owner", address owner)])
  | emit_lock_withdrawn owner amount => ([symbol "LockWithdrawn"; address owner], VObj [("amount", int128 amount); ("owner", address owner)])
  | emit_escrow_config_updated old_min new_min old_max new_max old_bps new_bps =>
    ([symbol "EscrowConfigUpdated"],
     VObj [("new_max_lock_duration", int32 new_max); ("new_max_multiplier_bps", int32 new_bps); ("new_min_lock_duration", int32 new_min);
       ("old_max_lock_duration", int32 old_max); ("old_max_multiplier_bps", int32 old_bps); ("old_min_lock_duration", int32 old_min)])
  end.
Inductive RewardsEvent :=
  | emit_epoch_started (epoch_id start_ledger end_ledger : Z)
  | emit_epoch_root_published (epoch_id : Z) (merkle_root : bytes) (total_reward_amount : Z)
  | emit_reward_claimed (epoch_id : Z) (claimant : string) (amount : Z)
  | emit_pool_funded (funder : string) (amount : Z)
  | emit_epoch_swept (epoch_id unclaimed_amount : Z)
  | emit_admin_set (new_admin : string)
  | emit_epoch_duration_updated (new_duration_ledgers : Z).
Definition rewards_publishes (e : RewardsEvent) : Published :=
  match e with
  | emit_epoch_started id start finish => ([symbol "EpochStarted"; int64 id], VArr [int32 start; int32 finish])
  | emit_epoch_root_published id root total => ([symbol "EpochRootPublished"; int64 id], VArr [VBytes root; int128 total])
  | emit_reward_claimed id claimant amount => ([symbol "RewardClaimed"; address claimant], VArr [int64 id; int128 amount])
  | emit_pool_funded funder amount => ([symbol "PoolFunded"; address funder], int128 amount)
  | emit_epoch_swept id amount => ([symbol "EpochSwept"; int64 id], int128 amount)
  | emit_admin_set admin => ([symbol "AdminSet"], address admin)
  | emit_epoch_duration_updated ledgers => ([symbol "EpochDurationUpdated"], int32 ledgers)
  end.

(** ** [optimistic-governor], [conviction-voting]: events under topics of the governor *)
Inductive TrackEvent :=
  | emit_optimistic_proposal_created (id : Z) (proposer : string) (challenge_end_ledger : Z)
  | emit_optimistic_config_updated (challenge_window_ledgers objection_threshold_bps : Z)
  | emit_conviction_proposal_created (id : Z) (proposer target : string) (requested_amount : Z)
  | emit_track_proposal_executed (proposal_id : Z)
  | emit_track_proposal_cancelled (proposal_id : Z) (caller : string).
Definition track_publishes (e : TrackEvent) : Published :=
  match e with
  | emit_optimistic_proposal_created id proposer finish => ([symbol "ProposalCreated"; int64 id], VArr [address proposer; int32 finish])
  | emit_optimistic_config_updated window bps => ([symbol "ConfigUpdated"], VArr [int32 window; int32 bps])
  | emit_conviction_proposal_created id proposer target amount =>
    ([symbol "ProposalCreated"; int64 id], VArr [address proposer; address target; int128 amount])
  | emit_track_proposal_executed id => ([symbol "ProposalExecuted"; int64 id], VNull)
  | emit_track_proposal_cancelled id caller => ([symbol "ProposalCancelled"; int64 id], address caller)
  end.

(** ** What the [lib.rs] of the governor, the timelock, the treasury and the token
    publish themselves, beside [execute] *)
Inductive DirectEvent :=
  | governor_exbatch (proposal_ids : list Z)
  | governor_cancelled_from_queue (proposal_id : Z) (caller : string)
  | timelock_schedule (op_id : bytes)
  | timelock_schbatch (batch_op_id : bytes)
  | timelock_exbatch (batch_op_id : bytes)
  | timelock_cancel (op_id : bytes)
  | timelock_upd_dly (old_delay new_delay : Z)
  | timelock_upd_win (old_window new_window : Z)
  | treasury_ownership_proposed (new_owner : string)
  | treasury_ownership_transferred (pending : string)
  | treasury_submit (id : Z)
  | treasury_approve (approver : string) (tx_id : Z)
  | treasury_cancel (tx_id : Z)
  | treasury_bat_xfer (op_hash : bytes) (recipients : Z)
  | treasury_slash (signer reason : string)
  | treasury_unslash (signer : string)
  | votes_delegate_changed (delegator : string) (previous_delegate : option string) (delegatee : string)
  | votes_del_revk (delegator old_delegatee : string) (balance : Z)
  | votes_v_active (account : string) (old_votes new_votes : Z)
  | votes_ret_set (period_ledgers ledger : Z)
  | votes_pruned (total_pruned safe_cutoff current_ledger : Z)
  | votes_delegation_registered (delegator delegatee : string) (power chain_depth : Z)
  | votes_delegation_revoked (delegator previous_delegatee : string) (at_ledger : Z)
  | votes_depth_limit_updated (old_limit new_limit : Z)
  | votes_split_delegated (delegator : string) (splits : list (string * Z))
  | votes_split_undelegated (delegator : string).
Definition direct_publishes (e : DirectEvent) : Published :=
  match e with
  | governor_exbatch ids => ([symbol "exbatch"], VArr (VBig <$> ids))
  | governor_cancelled_from_queue id caller => ([symbol "ProposalCancelledFromQueue"], VArr [int64 id; address caller])
  | timelock_schedule op => ([symbol "schedule"], VBytes op)
  | timelock_schbatch op => ([symbol "schbatch"], VBytes op)
  | timelock_exbatch op => ([symbol "exbatch"], VBytes op)
  | timelock_cancel op => ([symbol "cancel"], VBytes op)
  | timelock_upd_dly old new => ([symbol "upd_dly"], VArr [int64 old; int64 new])
  | timelock_upd_win old new => ([symbol "upd_win"], VArr [int64 old; int64 new])
  | treasury_ownership_proposed owner => ([symbol "OwnershipProposed"], VArr [address owner])
  | treasury_ownership_transferred owner => ([symbol "OwnershipTransferred"], VArr [address owner])
  | treasury_submit id => ([symbol "submit"], int64 id)
  | treasury_approve approver id => ([symbol "approve"; address approver], int64 id)
  | treasury_cancel id => ([symbol "cancel"], int64 id)
  | treasury_bat_xfer hash count => ([symbol "bat_xfer"], VArr [VBytes hash; int32 count])
  | treasury_slash signer reason => ([symbol "slash"; address signer], symbol reason)
  | treasury_unslash signer => ([symbol "unslash"; address signer], VNull)
  | votes_delegate_changed delegator previous delegatee =>
    ([symbol "DelegateChanged"; address delegator], VArr [optional_address previous; address delegatee])
  | votes_del_revk delegator old balance => ([symbol "del_revk"; address delegator], VArr [address old; int128 balance])
  | votes_v_active account old new => ([symbol "v_active"; address account], VArr [int128 old; int128 new])
  | votes_ret_set period ledger => ([symbol "ret_set"], VArr [int32 period; int32 ledger])
  | votes_pruned total cutoff ledger => ([symbol "pruned"], VArr [int32 total; int32 cutoff; int32 ledger])
  | votes_delegation_registered delegator delegatee power depth =>
    ([symbol "DelegationRegistered"; address delegator], VArr [address delegatee; int128 power; int32 depth])
  | votes_delegation_revoked delegator previous ledger =>
    ([symbol "DelegationRevoked"; address delegator], VArr [address previous; int32 ledger])
  | votes_depth_limit_updated old new => ([symbol "DelegationDepthLimitUpdated"], VArr [int32 old; int32 new])
  | votes_split_delegated delegator splits =>
    ([symbol "SplitDelegated"; address delegator],
     VArr ((λ s, VObj [("delegatee", address s.1); ("weight_bps", int32 s.2)]) <$> splits))
  | votes_split_undelegated delegator => ([symbol "SplitUndelegated"; address delegator], VNull)
  end.

Inductive ContractEvent :=
  | Governor (e : GovernorEvent) | CoSponsorship (e : CoSponsorshipEvent) | TokenVotes (e : DelegationSigEvent)
  | Treasury (e : TreasuryEvent) | Timelock (e : TimelockEvent) | SignalAnchor (e : AnchorEvent) | VoteEscrow (e : EscrowEvent)
  | VotingRewards (e : RewardsEvent) | Tracks (e : TrackEvent) | Direct (e : DirectEvent).
Definition publishes (e : ContractEvent) : Published :=
  match e with
  | Governor e => governor_publishes e | CoSponsorship e => co_sponsorship_publishes e | TokenVotes e => token_votes_publishes e
  | Treasury e => treasury_publishes e | Timelock e => timelock_publishes e | SignalAnchor e => anchor_publishes e
  | VoteEscrow e => escrow_publishes e | VotingRewards e => rewards_publishes e | Tracks e => track_publishes e
  | Direct e => direct_publishes e
  end.
