(* ===== verification/SdkEventsRead.v ===== *)
(** * The SDK reads back what the contracts publish *)

From S2P Require Import Prelude JsValues SdkTypes SdkEvents ContractEvents.

(** ** All parsers side by side *)
Inductive Parsed :=
  | P_ProposalCreated (d : ProposalCreatedEventData) | P_VoteCast (d : VoteCastEventData)
  | P_VoteCastWithReason (d : VoteCastWithReasonEventData) | P_ProposalQueued (d : ProposalQueuedEventData)
  | P_ProposalExecuted (d : ProposalExecutedEventData) | P_ProposalCancelled (d : ProposalCancelledEventData)
  | P_ProposalExpired (d : ProposalExpiredEventData) | P_ProposalVetoed (d : ProposalVetoedEventData)
  | P_GovernorUpgraded (d : GovernorUpgradedEventData) | P_ConfigUpdated (d : ConfigUpdatedEventData)
  | P_ReputationUpdated (d : ReputationUpdatedEventData)
  | P_EffectiveThresholdChanged (d : EffectiveThresholdChangedEventData) | P_Pause (d : PauseEventData)
  | P_Unpause (d : UnpauseEventData) | P_DraftCreated (d : DraftCreatedEventData) | P_CoSponsored (d : CoSponsoredEventData)
  | P_CoSponsorshipWithdrawn (d : CoSponsorshipWithdrawnEventData) | P_DraftFinalized (d : DraftFinalizedEventData)
  | P_DraftCancelled (d : DraftCancelledEventData) | P_DraftExpired (d : DraftExpiredEventData)
  | P_DelegatedBySig (d : DelegatedBySigEventData) | P_PermitsInvalidated (d : PermitsInvalidatedEventData)
  | P_RelayerWhitelistUpdated (d : RelayerWhitelistUpdatedEventData) | P_StreamCreated (d : StreamCreatedEventData)
  | P_StreamSpend (d : StreamSpendEventData) | P_StreamBatchSpend (d : StreamBatchSpendEventData)
  | P_StreamRevoked (d : StreamRevokedEventData) | P_StreamExtended (d : StreamExtendedEventData)
  | P_StreamToppedUp (d : StreamToppedUpEventData) | P_StreamExhausted (d : StreamExhaustedEventData)
  | P_StreamExpired (d : StreamExpiredEventData) | P_OperationScheduled (d : OperationScheduledEventData)
  | P_OperationExecuted (d : OperationExecutedEventData) | P_OperationCancelled (d : OperationCancelledEventData)
  | P_BatchOperationScheduled (d : BatchOperationScheduledEventData)
  | P_BatchOperationExecuted (d : BatchOperationExecutedEventData)
  | P_BatchOperationCancelled (d : BatchOperationCancelledEventData) | P_MinDelayUpdated (d : MinDelayUpdatedEventData)
  | P_DependencyDagValidated (d : DependencyDagValidatedEventData) | P_CycleDetected (d : CycleDetectedEventData)
  | P_PartialBatchStarted (d : PartialBatchStartedEventData) | P_PartialOpSucceeded (d : PartialOpSucceededEventData)
  | P_PartialOpFailed (d : PartialOpFailedEventData) | P_BatchRecoveryEntered (d : BatchRecoveryEnteredEventData)
  | P_FailedOpRetried (d : FailedOpRetriedEventData) | P_FailedOpSkipped (d : FailedOpSkippedEventData)
  | P_BatchFullyComplete (d : BatchFullyCompleteEventData) | P_ResultAnchored (d : ResultAnchoredEventData)
  | P_LockCreated (d : LockCreatedEventData) | P_LockIncreased (d : LockIncreasedEventData)
  | P_LockExtended (d : LockExtendedEventData) | P_LockWithdrawn (d : LockWithdrawnEventData)
  | P_EpochStarted (d : EpochStartedEventData) | P_EpochRootPublished (d : EpochRootPublishedEventData)
  | P_RewardClaimed (d : RewardClaimedEventData) | P_PoolFunded (d : PoolFundedEventData).
Definition parsers : list (SorobanEvent → option Parsed) :=
  [λ e, P_ProposalCreated <$> parseProposalCreatedEvent e; λ e, P_VoteCast <$> parseVoteCastEvent e;
   λ e, P_VoteCastWithReason <$> parseVoteCastWithReasonEvent e; λ e, P_ProposalQueued <$> parseProposalQueuedEvent e;
   λ e, P_ProposalExecuted <$> parseProposalExecutedEvent e; λ e, P_ProposalCancelled <$> parseProposalCancelledEvent e;
   λ e, P_ProposalExpired <$> parseProposalExpiredEvent e; λ e, P_ProposalVetoed <$> parseProposalVetoedEvent e;
   λ e, P_GovernorUpgraded <$> parseGovernorUpgradedEvent e; λ e, P_ConfigUpdated <$> parseConfigUpdatedEvent e;
   λ e, P_ReputationUpdated <$> parseReputationUpdatedEvent e;
   λ e, P_EffectiveThresholdChanged <$> parseEffectiveThresholdChangedEvent e; λ e, P_Pause <$> parsePauseEvent e;
   λ e, P_Unpause <$> parseUnpauseEvent e; λ e, P_DraftCreated <$> parseDraftCreatedEvent e;
   λ e, P_CoSponsored <$> parseCoSponsoredEvent e; λ e, P_CoSponsorshipWithdrawn <$> parseCoSponsorshipWithdrawnEvent e;
   λ e, P_DraftFinalized <$> parseDraftFinalizedEvent e; λ e, P_DraftCancelled <$> parseDraftCancelledEvent e;
   λ e, P_DraftExpired <$> parseDraftExpiredEvent e; λ e, P_DelegatedBySig <$> parseDelegatedBySigEvent e;
   λ e, P_PermitsInvalidated <$> parsePermitsInvalidatedEvent e;
   λ e, P_RelayerWhitelistUpdated <$> parseRelayerWhitelistUpdatedEvent e; λ e, P_StreamCreated <$> parseStreamCreatedEvent e;
   λ e, P_StreamSpend <$> parseStreamSpendEvent e; λ e, P_StreamBatchSpend <$> parseStreamBatchSpendEvent e;
   λ e, P_StreamRevoked <$> parseStreamRevokedEvent e; λ e, P_StreamExtended <$> parseStreamExtendedEvent e;
   λ e, P_StreamToppedUp <$> parseStreamToppedUpEvent e; λ e, P_StreamExhausted <$> parseStreamExhaustedEvent e;
   λ e, P_StreamExpired <$> parseStreamExpiredEvent e; λ e, P_OperationScheduled <$> parseOperationScheduledEvent e;
   λ e, P_OperationExecuted <$> parseOperationExecutedEvent e; λ e, P_OperationCancelled <$> parseOperationCancelledEvent e;
   λ e, P_BatchOperationScheduled <$> parseBatchOperationScheduledEvent e;
   λ e, P_BatchOperationExecuted <$> parseBatchOperationExecutedEvent e;
   λ e, P_BatchOperationCancelled <$> parseBatchOperationCancelledEvent e;
   λ e, P_MinDelayUpdated <$> parseMinDelayUpdatedEvent e;
   λ e, P_DependencyDagValidated <$> parseDependencyDagValidatedEvent e; λ e, P_CycleDetected <$> parseCycleDetectedEvent e;
   λ e, P_PartialBatchStarted <$> parsePartialBatchStartedEvent e;
   λ e, P_PartialOpSucceeded <$> parsePartialOpSucceededEvent e; λ e, P_PartialOpFailed <$> parsePartialOpFailedEvent e;
   λ e, P_BatchRecoveryEntered <$> parseBatchRecoveryEnteredEvent e; λ e, P_FailedOpRetried <$> parseFailedOpRetriedEvent e;
   λ e, P_FailedOpSkipped <$> parseFailedOpSkippedEvent e; λ e, P_BatchFullyComplete <$> parseBatchFullyCompleteEvent e;
   λ e, P_ResultAnchored <$> parseResultAnchoredEvent e; λ e, P_LockCreated <$> parseLockCreatedEvent e;
   λ e, P_LockIncreased <$> parseLockIncreasedEvent e; λ e, P_LockExtended <$> parseLockExtendedEvent e;
   λ e, P_LockWithdrawn <$> parseLockWithdrawnEvent e; λ e, P_EpochStarted <$> parseEpochStartedEvent e;
   λ e, P_EpochRootPublished <$> parseEpochRootPublishedEvent e; λ e, P_RewardClaimed <$> parseRewardClaimedEvent e;
   λ e, P_PoolFunded <$> parsePoolFundedEvent e].
(** What each parser that recognises the event makes of it. *)
Definition read_event (event : SorobanEvent) : list Parsed := omap (λ parse, parse event) parsers.
(** ** What is expected of the events of the contracts *)

(** The vote type, the registry and the fields of commit and reveal are not read. *)
Definition settings_of (k : ContractSettings) : EventSettings :=
  mkEventSettings (num (k_voting_delay k)) (num (k_voting_period k)) (num (k_quorum_numerator k)) (k_proposal_threshold k) (k_guardian k)
    Extended (num (k_proposal_grace_period k)) (k_use_dynamic_quorum k) (k_reflector_oracle k) (k_min_quorum_usd k)
    (num (k_max_calldata_size k)) (num (k_proposal_cooldown k)) (num (k_max_proposals_per_period k)) (num (k_proposal_period_duration k)).
Definition governor_read (e : GovernorEvent) : list Parsed :=
  match e with
  | emit_proposal_created id proposer description hash uri targets fn_names calldatas start finish =>
    [P_ProposalCreated (mkProposalCreated id proposer description (buffer_text hash) uri (VStr <$> targets)
      (VStr <$> fn_names) (VBytes <$> calldatas) (num start) (num finish))]
  | emit_vote_cast voter id support weight => [P_VoteCast (mkVoteCast id voter (num (vote_support_to_u32 support)) weight)]
  | emit_vote_cast_with_reason voter id support weight reason =>
    [P_VoteCastWithReason (mkVoteCastWithReason id voter (num (vote_support_to_u32 support)) weight reason)]
  | emit_proposal_queued id op_id eta => [P_ProposalQueued (mkProposalQueued id (VBytes op_id) eta)]
  | emit_proposal_executed id caller => [P_ProposalExecuted (mkProposalExecuted id caller)]
  | emit_proposal_cancelled id caller => [P_ProposalCancelled (mkProposalCancelled id caller)]
  | emit_proposal_expired id ledger => [P_ProposalExpired (mkProposalExpired id (num ledger))]
  | emit_governor_upgraded old new => [P_GovernorUpgraded (mkGovernorUpgraded (VBytes old) (VBytes new))]
  | emit_config_updated old new => [P_ConfigUpdated (mkConfigUpdated (settings_of old) (settings_of new))]
  | emit_paused pauser ledger => [P_Pause (mkPause pauser (num ledger))]
  | emit_unpaused ledger => [P_Unpause (mkUnpause (num ledger))]
  | emit_reputation_updated proposer old new reason => [P_ReputationUpdated (mkReputationUpdated proposer (num old) (num new) reason)]
  | emit_effective_threshold_changed proposer old new =>
    [P_EffectiveThresholdChanged (mkEffectiveThresholdChanged proposer old new)]
  | emit_guardian_changed _ _ | emit_pauser_changed _ _ | emit_vote_committed _ _ _ | emit_vote_revealed _ _ _ _
  | emit_commit_phase_started _ _ _ => []
  end.
Definition co_sponsorship_read (e : CoSponsorshipEvent) : list Parsed :=
  match e with
  | emit_draft_created id creator hash uri created expiry =>
    [P_DraftCreated (mkDraftCreated id creator (to_hex hash) uri (num created) (num expiry))]
  | emit_co_sponsored id sponsor power total => [P_CoSponsored (mkCoSponsored id sponsor power total)]
  | emit_co_sponsorship_withdrawn id sponsor power total => [P_CoSponsorshipWithdrawn (mkCoSponsorshipWithdrawn id sponsor power total)]
  | emit_draft_finalized id proposal => [P_DraftFinalized (mkDraftFinalized id proposal)]
  | emit_draft_cancelled id caller => [P_DraftCancelled (mkDraftCancelled id caller)]
  | emit_draft_expired id ledger => [P_DraftExpired (mkDraftExpired id (num ledger))]
  end.
Definition token_votes_read (e : DelegationSigEvent) : list Parsed :=
  match e with
  | emit_delegated_by_sig delegator delegatee relayer nonce => [P_DelegatedBySig (mkDelegatedBySig delegator delegatee relayer nonce)]
  | emit_permits_invalidated delegator nonce => [P_PermitsInvalidated (mkPermitsInvalidated delegator nonce)]
  | emit_relayer_whitelist_updated relayer listed => [P_RelayerWhitelistUpdated (mkRelayerWhitelistUpdated relayer listed)]
  end.
(** The parser of the governor's old topic also takes the execution of a
    treasury transaction for a proposal's. *)
Definition treasury_read (e : TreasuryEvent) : list Parsed :=
  match e with
  | emit_stream_created id name owner => [P_StreamCreated (mkStreamCreated id name owner)]
  | emit_stream_spend id recipient amount => [P_StreamSpend (mkStreamSpend id recipient amount)]
  | emit_stream_batch_spend id total count => [P_StreamBatchSpend (mkStreamBatchSpend id total (num count))]
  | emit_stream_revoked id caller unspent => [P_StreamRevoked (mkStreamRevoked id caller unspent)]
  | emit_stream_extended id old new => [P_StreamExtended (mkStreamExtended id (num old) (num new))]
  | emit_stream_topped_up id more total => [P_StreamToppedUp (mkStreamToppedUp id more total)]
  | emit_stream_exhausted id => [P_StreamExhausted (mkStreamExhausted id)]
  | publish_execute tx_id => [P_ProposalExecuted (mkProposalExecuted tx_id "")]
  end.
Definition timelock_read (e : TimelockEvent) : list Parsed :=
  match e with
  | emit_operation_scheduled op target fn ready expires => [P_OperationScheduled (mkOperationScheduled (to_hex op) target fn ready expires)]
  | emit_operation_executed op caller => [P_OperationExecuted (mkOperationExecuted (to_hex op) caller)]
  | emit_operation_cancelled op caller => [P_OperationCancelled (mkOperationCancelled (to_hex op) caller)]
  | emit_batch_operation_scheduled op targets fns ready expires =>
    [P_BatchOperationScheduled (mkBatchOperationScheduled (to_hex op) targets fns ready expires)]
  | emit_batch_operation_executed op caller => [P_BatchOperationExecuted (mkBatchOperationExecuted (to_hex op) caller)]
  | emit_batch_operation_cancelled op caller => [P_BatchOperationCancelled (mkBatchOperationCancelled (to_hex op) caller)]
  | emit_min_delay_updated old new => [P_MinDelayUpdated (mkMinDelayUpdated old new)]
  | emit_dependency_dag_validated op count => [P_DependencyDagValidated (mkDependencyDagValidated (to_hex op) (num count))]
  | emit_cycle_detected path => [P_CycleDetected (mkCycleDetected (to_hex <$> path))]
  | emit_partial_batch_started op total => [P_PartialBatchStarted (mkPartialBatchStarted (to_hex op) (num total))]
  | emit_partial_op_succeeded batch op completed total =>
    [P_PartialOpSucceeded (mkPartialOpSucceeded (to_hex batch) (to_hex op) (num completed) (num total))]
  | emit_partial_op_failed batch op => [P_PartialOpFailed (mkPartialOpFailed (to_hex batch) (to_hex op))]
  | emit_batch_recovery_entered batch deadline => [P_BatchRecoveryEntered (mkBatchRecoveryEntered (to_hex batch) (num deadline))]
  | emit_failed_op_retried batch op count succeeded =>
    [P_FailedOpRetried (mkFailedOpRetried (to_hex batch) (to_hex op) (num count) succeeded)]
  | emit_failed_op_skipped batch op => [P_FailedOpSkipped (mkFailedOpSkipped (to_hex batch) (to_hex op))]
  | emit_batch_fully_complete batch => [P_BatchFullyComplete (mkBatchFullyComplete (to_hex batch))]
  | publish_operation_execute _ => []
  end.
Definition expected (e : ContractEvent) : list Parsed :=
  match e with
  | Governor e => governor_read e
  | CoSponsorship e => co_sponsorship_read e
  | TokenVotes e => token_votes_read e
  | Treasury e => treasury_read e
  | Timelock e => timelock_read e
  | SignalAnchor (emit_result_anchored id hash ledger anchorer) => [P_ResultAnchored (mkResultAnchored id (to_hex hash) (num ledger) anchorer)]
  | VoteEscrow (emit_lock_created owner amount finish power) => [P_LockCreated (mkLockCreated owner amount (num finish) power)]
  | VoteEscrow (emit_lock_increased owner added power) => [P_LockIncreased (mkLockIncreased owner added power)]
  | VoteEscrow (emit_lock_extended owner old new) => [P_LockExtended (mkLockExtended owner (num old) (num new))]
  | VoteEscrow (emit_lock_withdrawn owner amount) => [P_LockWithdrawn (mkLockWithdrawn owner amount)]
  | VoteEscrow (emit_escrow_config_updated _ _ _ _ _ _) => []
  | VotingRewards (emit_epoch_started id start finish) => [P_EpochStarted (mkEpochStarted id (num start) (num finish))]
  | VotingRewards (emit_epoch_root_published id root total) => [P_EpochRootPublished (mkEpochRootPublished id (to_hex root) total)]
  | VotingRewards (emit_reward_claimed id claimant amount) => [P_RewardClaimed (mkRewardClaimed claimant id amount)]
  | VotingRewards (emit_pool_funded funder amount) => [P_PoolFunded (mkPoolFunded funder amount)]
  | VotingRewards (emit_epoch_swept _ _ | emit_admin_set _ | emit_epoch_duration_updated _) => []
  | Tracks _ | Direct _ => []
  end.
(** The event as the RPC answers it. *)
Definition raw_of (ledger : Z) (contract : string) (p : Published) : RawEvent :=
  mkRawEvent ledger (Some contract) (Some <$> p.1) (Some p.2).

(** ** Lemmas *)
Lemma topics_decode (l : list JsValue) : mapM (fmap js_String) (Some <$> l) = Some (js_String <$> l).
Proof. induction l as [|v l IH]; [done|]. cbn in *. by rewrite IH. Qed.
Lemma decode_raw ledger contract p :
  decodeEvent (raw_of ledger contract p) = Some (mkSorobanEvent ledger contract (js_String <$> p.1) p.2).
Proof. unfold decodeEvent. cbn [raw_topic raw_of raw_value]. by rewrite topics_decode. Qed.
Lemma texts_read (l : list string) : js_String <$> (VStr <$> l) = l.
Proof. rewrite <- list_fmap_compose. apply list_fmap_id. Qed.
Lemma path_read (l : list bytes) : toHex <$> (VBytes <$> l) = to_hex <$> l.
Proof. by rewrite <- list_fmap_compose. Qed.

(** A topic that is the text of an integer is read as the integer. *)
Lemma epoch_topic (topic : string) (id : Z) ledger contract (value : JsValue) (l : list Parsed) :
  (∀ t, text_integer t = Some id → read_event (mkSorobanEvent ledger contract [topic; t] value) = l) →
  read_event (mkSorobanEvent ledger contract [topic; decimal id] value) = l.
Proof. intros H. apply H, text_integer_decimal. Qed.

(** C28: An event of the governor, the co-sponsorship, the token, the treasury,
    the timelock, the signal anchor, the vote escrow or the rewards is recognised by
    the parser meant for it and by no other, which answers the data that were
    published, and by no parser when none is meant for it, [expected] says which;
    the events of the two voting tracks under topics of the governor are not taken
    for its own.  Three readings are not what was published: a description hash is
    read as the text its bytes encode; the settings of an update have the vote type
    [Extended], whichever was published, and neither the registry nor the two fields
    of commit and reveal; and the execution of a treasury transaction passes for
    that of a proposal. *)
Theorem sdk_reads_published_events ledger contract e :
  read_event <$> decodeEvent (raw_of ledger contract (publishes e)) = Some (expected e).
Proof.
  rewrite decode_raw. cbn [fmap option_fmap option_map]. f_equal.
  destruct e as [e|e|e|e|e|e|e|e|e|e]; destruct e; try reflexivity.
  - destruct old_settings as [? ? ? ? ? ? ? ? [o|] ? ? ? ? ? ? ? ?], new_settings as [? ? ? ? ? ? ? ? [n|] ? ? ? ? ? ? ? ?]; reflexivity.
  - transitivity [P_BatchOperationScheduled (mkBatchOperationScheduled (to_hex batch_op_id) (js_String <$> (VStr <$> targets))
      (js_String <$> (VStr <$> fn_names)) ready_at expires_at)]; [reflexivity|by rewrite !texts_read].
  - transitivity [P_CycleDetected (mkCycleDetected (toHex <$> (VBytes <$> cycle_path)))]; [reflexivity|by rewrite path_read].
  - apply epoch_topic. intros t Ht. lazy -[text_integer]. rewrite Ht. reflexivity.
  - apply epoch_topic. intros t Ht. lazy -[text_integer to_hex]. rewrite Ht. reflexivity.
Qed.
