(* ===== verification/SdkSubscriptions.v ===== *)
(** * Subscriptions of the SDK

    [withRetry] and [createRetry] of [sdk/src/utils.ts]; [createTopicSubscription],
    the subscriptions made of it and [getProposalEvents] of [sdk/src/events.ts].
    The chain and the RPC in front of it belong to the environment: it closes
    ledgers, matches topics, and answers or fails. *)

From Stdlib Require Import Sorted.
From S2P Require Import Prelude JsValues SdkTypes SdkEvents.

(** ** Retries *)
Record RetryOptions := mkRetryOptions {
  maxAttempts : option Z; baseDelayMs : option Z; maxDelayMs : option Z; retryOn : option (JsError → bool) }.
(** The [undefined] that is thrown where nothing was tried. *)
Definition no_error : JsError := PlainError "undefined".
(** [Math.min(baseDelayMs * Math.pow(2, attempt - 1), maxDelayMs)] *)
Definition exponential (opts : RetryOptions) (attempt : Z) : Z :=
  Z.min (default 1000 (baseDelayMs opts) * 2 ^ (attempt - 1)) (default 30000 (maxDelayMs opts)).
Definition retryable (opts : RetryOptions) (e : JsError) : bool := match retryOn opts with Some p => p e | None => true end.

Section retry.
Context {S A : Type} (opts : RetryOptions) (fn : M S A) (onRetry : Z → JsError → M S unit) (sleep : Z → S → S).
(** [sleep n] is a pause of [n] milliseconds and up to a third more. *)
Fixpoint attempts (remaining : nat) (attempt : Z) (lastError : JsError) : M S A :=
  match remaining with
  | O => throw lastError
  | Datatypes.S remaining => λ s,
    match fn s with
    | (Ok a, s) => (Ok a, s)
    | (Throw e, s) =>
      if negb (retryable opts e) || (attempt =? default 3 (maxAttempts opts)) then (Throw e, s)
      else (onRetry attempt e;; modify (sleep (exponential opts attempt));; attempts remaining (attempt + 1) e) s
    end
  end.
Definition withRetry : M S A := attempts (Z.to_nat (default 3 (maxAttempts opts))) 1 no_error.
End retry.

(** Options as an object is spread: a key may be absent, or present and
    [undefined]. *)
Record RetryFields := mkRetryFields {
  rf_maxAttempts : option (option Z); rf_baseDelayMs : option (option Z); rf_maxDelayMs : option (option Z);
  rf_retryOn : option (option (JsError → bool)) }.
Record ClientRetryConfig := mkClientRetryConfig {
  rc_retry : option RetryFields; rc_maxAttempts : option Z; rc_baseDelayMs : option Z }.
(** [a ?? b] of optional values *)
Definition or_else {A} (a b : option A) : option A := match a with Some _ => a | None => b end.
(** The options of the function [createRetry] returns, given [retryOn]. *)
Definition createRetry (config : ClientRetryConfig) (defaults : RetryOptions) (retry_on : option (JsError → bool)) : RetryOptions :=
  let retry := default (mkRetryFields None None None None) (rc_retry config) in
  mkRetryOptions
    (default (or_else (rc_maxAttempts config) (maxAttempts defaults)) (rf_maxAttempts retry))
    (default (or_else (rc_baseDelayMs config) (baseDelayMs defaults)) (rf_baseDelayMs retry))
    (default (maxDelayMs defaults) (rf_maxDelayMs retry))
    (or_else retry_on (default (retryOn defaults) (rf_retryOn retry))).

(** ** Subscriptions *)

(** The variables of one call, the polls that wait for an answer and the calls
    of the callback.  A poll waits for the latest ledger, or for events. *)
Inductive Pending := AwaitLatest | AwaitEvents (startLedger : Z).
Record Subscription := mkSubscription {
  su_address : string; su_topic : string; su_filter : SorobanEvent → bool;
  su_cursor : Z; su_initialized : bool; su_stopped : bool; su_pending : list Pending; su_called : list SorobanEvent }.
#[export] Instance Subscription_eta : Eta Subscription := λ s,
  mkSubscription (su_address s) (su_topic s) (su_filter s) (su_cursor s) (su_initialized s) (su_stopped s) (su_pending s) (su_called s).
(** The start of [poll], up to its first request. *)
Definition poll (s : Subscription) : Subscription :=
  if su_stopped s then s
  else s <| su_pending ::= λ l, l ++ [if su_initialized s then AwaitEvents (su_cursor s) else AwaitLatest] |>.
Definition createTopicSubscription (address topic : string) (filter : SorobanEvent → bool) : Subscription :=
  poll (mkSubscription address topic filter 0 false false [] []).
Definition every : SorobanEvent → bool := λ _, true.
(** The rest of [poll] after the latest ledger is known, and after the events are. *)
Definition answer_latest (i : nat) (sequence : Z) (s : Subscription) : Subscription :=
  s <| su_cursor := sequence |> <| su_initialized := true |> <| su_pending ::= <[i := AwaitEvents sequence]> |>.
(** [fetchEvents]: the events that decode. *)
Definition fetched (page : list RawEvent) : list SorobanEvent := omap decodeEvent page.
Definition latest_ledger (latestLedger startLedger : Z) : Z := if latestLedger =? 0 then startLedger else latestLedger.
Section answer.
(** Whether the callback returns. *)
Context (returns : SorobanEvent → bool).
(** The calls for a page, and whether all returned. *)
Fixpoint calls (s : Subscription) (events : list SorobanEvent) : list SorobanEvent * bool :=
  match events with
  | [] => ([], true)
  | event :: events =>
    if negb (su_stopped s) && su_filter s event
    then if returns event then let '(l, ok) := calls s events in (event :: l, ok) else ([event], false)
    else calls s events
  end.
Definition answer_events (i : nat) (page : list RawEvent) (latestLedger : Z) (startLedger : Z) (s : Subscription) : Subscription :=
  let '(l, ok) := calls s (fetched page) in
  let s := s <| su_pending ::= delete i |> <| su_called ::= λ c, c ++ l |> in
  if ok then s <| su_cursor := latest_ledger latestLedger startLedger + 1 |> else s.
End answer.
Definition fail_poll (i : nat) (s : Subscription) : Subscription := s <| su_pending ::= delete i |>.
Definition unsubscribe (s : Subscription) : Subscription := s <| su_stopped := true |>.

(** *** The subscriptions on offer *)
Definition subscribeToVotes (governorAddress : string) (proposalId : Z) : Subscription :=
  createTopicSubscription governorAddress "VoteCast" (λ e, bool_decide (vc_proposalId <$> parseVoteCastEvent e = Some proposalId)).
Definition subscribeToVoteCastWithReason (governorAddress : string) (proposalId : Z) : Subscription :=
  createTopicSubscription governorAddress "VoteCastWithReason"
    (λ e, bool_decide (vr_proposalId <$> parseVoteCastWithReasonEvent e = Some proposalId)).
Definition subscribeToProposals (governorAddress : string) : Subscription :=
  createTopicSubscription governorAddress "ProposalCreated" every.
Definition subscribeToProposalQueued (governorAddress : string) : Subscription :=
  createTopicSubscription governorAddress "ProposalQueued" every.
Definition subscribeToProposalExecuted (governorAddress : string) : Subscription :=
  createTopicSubscription governorAddress "ProposalExecuted" every.
Definition subscribeToProposalCancelled (governorAddress : string) : Subscription :=
  createTopicSubscription governorAddress "ProposalCancelled" every.
Definition subscribeToProposalExpired (governorAddress : string) : Subscription :=
  createTopicSubscription governorAddress "ProposalExpired" every.
Definition subscribeToGovernorUpgraded (governorAddress : string) : Subscription :=
  createTopicSubscription governorAddress "GovernorUpgraded" every.
Definition subscribeToConfigUpdated (governorAddress : string) : Subscription :=
  createTopicSubscription governorAddress "ConfigUpdated" every.
Definition subscribeToReputationUpdated (governorAddress : string) : Subscription :=
  createTopicSubscription governorAddress "ReputationUpdated" every.
Definition subscribeToEffectiveThresholdChanged (governorAddress : string) : Subscription :=
  createTopicSubscription governorAddress "EffectiveThresholdChanged" every.
Definition subscribeToPauseEvents (governorAddress : string) : Subscription :=
  createTopicSubscription governorAddress "Paused" every.
Definition subscribeToUnpauseEvents (governorAddress : string) : Subscription :=
  createTopicSubscription governorAddress "Unpaused" every.
Definition subscribeToDraftCreated (coSponsorshipAddress : string) : Subscription :=
  createTopicSubscription coSponsorshipAddress "DraftCreated" every.
Definition subscribeToCoSponsored (coSponsorshipAddress : string) : Subscription :=
  createTopicSubscription coSponsorshipAddress "CoSponsored" every.
Definition subscribeToCoSponsorshipWithdrawn (coSponsorshipAddress : string) : Subscription :=
  createTopicSubscription coSponsorshipAddress "CoSponsorshipWithdrawn" every.
Definition subscribeToDraftFinalized (coSponsorshipAddress : string) : Subscription :=
  createTopicSubscription coSponsorshipAddress "DraftFinalized" every.
Definition subscribeToDraftCancelled (coSponsorshipAddress : string) : Subscription :=
  createTopicSubscription coSponsorshipAddress "DraftCancelled" every.
Definition subscribeToDraftExpired (coSponsorshipAddress : string) : Subscription :=
  createTopicSubscription coSponsorshipAddress "DraftExpired" every.
Definition subscribeToDelegatedBySig (tokenVotesAddress : string) : Subscription :=
  createTopicSubscription tokenVotesAddress "DelegatedBySig" every.
Definition subscribeToPermitsInvalidated (tokenVotesAddress : string) : Subscription :=
  createTopicSubscription tokenVotesAddress "PermitsInvalidated" every.
Definition subscribeToRelayerWhitelistUpdated (tokenVotesAddress : string) : Subscription :=
  createTopicSubscription tokenVotesAddress "RelayerWhitelistUpdated" every.
Definition subscribeToStreamCreated (treasuryAddress : string) : Subscription :=
  createTopicSubscription treasuryAddress "stream_created" every.
Definition subscribeToStreamSpend (treasuryAddress : string) : Subscription :=
  createTopicSubscription treasuryAddress "stream_spend" every.
Definition subscribeToStreamBatchSpend (treasuryAddress : string) : Subscription :=
  createTopicSubscription treasuryAddress "stream_batch" every.
Definition subscribeToStreamRevoked (treasuryAddress : string) : Subscription :=
  createTopicSubscription treasuryAddress "stream_revoked" every.
Definition subscribeToStreamExtended (treasuryAddress : string) : Subscription :=
  createTopicSubscription treasuryAddress "stream_extended" every.
Definition subscribeToStreamToppedUp (treasuryAddress : string) : Subscription :=
  createTopicSubscription treasuryAddress "stream_topped_up" every.
Definition subscribeToStreamExhausted (treasuryAddress : string) : Subscription :=
  createTopicSubscription treasuryAddress "stream_exhausted" every.
Definition subscribeToStreamExpired (treasuryAddress : string) : Subscription :=
  createTopicSubscription treasuryAddress "stream_expired" every.
Definition subscribeToOperationScheduled (timelockAddress : string) : Subscription :=
  createTopicSubscription timelockAddress "OperationScheduled" every.
Definition subscribeToOperationExecuted (timelockAddress : string) : Subscription :=
  createTopicSubscription timelockAddress "OperationExecuted" every.
Definition subscribeToOperationCancelled (timelockAddress : string) : Subscription :=
  createTopicSubscription timelockAddress "OperationCancelled" every.
Definition subscribeToBatchOperationScheduled (timelockAddress : string) : Subscription :=
  createTopicSubscription timelockAddress "BatchOperationScheduled" every.
Definition subscribeToBatchOperationExecuted (timelockAddress : string) : Subscription :=
  createTopicSubscription timelockAddress "BatchOperationExecuted" every.
Definition subscribeToBatchOperationCancelled (timelockAddress : string) : Subscription :=
  createTopicSubscription timelockAddress "BatchOperationCancelled" every.
Definition subscribeToMinDelayUpdated (timelockAddress : string) : Subscription :=
  createTopicSubscription timelockAddress "MinDelayUpdated" every.
Definition subscribeToDependencyDagValidated (timelockAddress : string) : Subscription :=
  createTopicSubscription timelockAddress "DependencyDagValidated" every.
Definition subscribeToCycleDetected (timelockAddress : string) : Subscription :=
  createTopicSubscription timelockAddress "CycleDetected" every.
Definition subscribeToPartialBatchStarted (timelockAddress : string) : Subscription :=
  createTopicSubscription timelockAddress "PartialBatchStarted" every.
Definition subscribeToPartialOpSucceeded (timelockAddress : string) : Subscription :=
  createTopicSubscription timelockAddress "PartialOpSucceeded" every.
Definition subscribeToPartialOpFailed (timelockAddress : string) : Subscription :=
  createTopicSubscription timelockAddress "PartialOpFailed" every.
Definition subscribeToBatchRecoveryEntered (timelockAddress : string) : Subscription :=
  createTopicSubscription timelockAddress "BatchRecoveryEntered" every.
Definition subscribeToFailedOpRetried (timelockAddress : string) : Subscription :=
  createTopicSubscription timelockAddress "FailedOpRetried" every.
Definition subscribeToFailedOpSkipped (timelockAddress : string) : Subscription :=
  createTopicSubscription timelockAddress "FailedOpSkipped" every.
Definition subscribeToBatchFullyComplete (timelockAddress : string) : Subscription :=
  createTopicSubscription timelockAddress "BatchFullyComplete" every.
Definition subscribeToResultAnchored (signalAnchorAddress : string) : Subscription :=
  createTopicSubscription signalAnchorAddress "ResultAnchored" every.
Definition subscribeToLockCreated (address : string) : Subscription := createTopicSubscription address "LockCreated" every.
Definition subscribeToLockIncreased (address : string) : Subscription :=
  createTopicSubscription address "LockIncreased" every.
Definition subscribeToLockExtended (address : string) : Subscription := createTopicSubscription address "LockExtended" every.
Definition subscribeToLockWithdrawn (address : string) : Subscription :=
  createTopicSubscription address "LockWithdrawn" every.
Definition subscribeToEpochStarted (address : string) : Subscription := createTopicSubscription address "EpochStarted" every.
Definition subscribeToEpochRootPublished (address : string) : Subscription :=
  createTopicSubscription address "EpochRootPublished" every.
Definition subscribeToRewardClaimed (address : string) : Subscription :=
  createTopicSubscription address "RewardClaimed" every.
Definition subscribeToPoolFunded (address : string) : Subscription := createTopicSubscription address "PoolFunded" every.

(** ** The chain *)

(** The most events the RPC is asked for at once. *)
Definition event_limit : nat := 100.
Section chain.
(** What [getEvents] matches with a contract and a topic. *)
Context (matches : string → string → RawEvent → bool).
Definition relevant (chain : list RawEvent) (address topic : string) (startLedger : Z) : list RawEvent :=
  base.filter (λ e, startLedger ≤ raw_ledger e ∧ matches address topic e = true) chain.
Definition page_from (chain : list RawEvent) (address topic : string) (startLedger : Z) : list RawEvent :=
  take event_limit (relevant chain address topic startLedger).
Record System := mkSystem { sy_chain : list RawEvent; sy_latest : Z; sy_sub : Subscription }.
#[export] Instance System_eta : Eta System := λ s, mkSystem (sy_chain s) (sy_latest s) (sy_sub s).
Context (returns : SorobanEvent → bool).
(** Ledgers close, the interval fires, polls are answered or fail, and the user
    unsubscribes. *)
Inductive sub_step : System → System → Prop :=
  | ss_ledger new latest s :
    sy_latest s < latest → Forall (λ e, sy_latest s < raw_ledger e ≤ latest) new → StronglySorted Z.le (raw_ledger <$> new) →
    sub_step s (s <| sy_chain ::= λ l, l ++ new |> <| sy_latest := latest |>)
  | ss_tick s : sub_step s (s <| sy_sub ::= poll |>)
  | ss_latest i s : su_pending (sy_sub s) !! i = Some AwaitLatest → sub_step s (s <| sy_sub ::= answer_latest i (sy_latest s) |>)
  | ss_events i start s :
    su_pending (sy_sub s) !! i = Some (AwaitEvents start) →
    sub_step s (s <| sy_sub ::= answer_events returns i
      (page_from (sy_chain s) (su_address (sy_sub s)) (su_topic (sy_sub s)) start) (sy_latest s) start |>)
  | ss_fail i s : is_Some (su_pending (sy_sub s) !! i) → sub_step s (s <| sy_sub ::= fail_poll i |>)
  | ss_unsubscribe s : sub_step s (s <| sy_sub ::= unsubscribe |>).

(** ** All proposals from a ledger *)

(** [Math.max(...page.map((event) => event.ledger))] *)
Definition last_ledger (page : list SorobanEvent) : Z := foldr Z.max 0 (e_ledger <$> page).
Fixpoint pages (fuel : nat) (chain : list RawEvent) (address : string) (latest startLedger : Z) : option (list SorobanEvent) :=
  if latest <? startLedger then Some [] else
  match fuel with
  | O => None
  | Datatypes.S fuel =>
    match fetched (page_from chain address "ProposalCreated" startLedger) with
    | [] => pages fuel chain address latest (latest_ledger latest startLedger + 1)
    | page => (λ rest, page ++ rest) <$> pages fuel chain address latest (last_ledger page + 1)
    end
  end.
(** The chain closes no ledger while the pages are read. *)
Definition getProposalEvents (fuel : nat) (chain : list RawEvent) (latest : Z) (governorAddress : string) (fromLedger : Z) :
  option (list SorobanEvent) := pages fuel chain governorAddress latest (Z.max 1 fromLedger).
End chain.
