(* ===== verification/SdkDelivery.v ===== *)
(** * Subscriptions of the SDK: what reaches the callback *)

From stdpp Require Import sorting.
From S2P Require Import Prelude JsValues SdkTypes SdkEvents SdkSubscriptions.

(** ** Retries *)
Section retry.
Context {S A : Type} (opts : RetryOptions) (fn : M S A) (onRetry : Z → JsError → M S unit) (sleep : Z → S → S).

(** [n] attempts that failed and were to be repeated, with their pauses. *)
Inductive failing (s : S) : Z → S → Prop :=
  | fa_none : failing s 0 s
  | fa_more n s1 e s2 s3 :
    failing s n s1 → fn s1 = (Throw e, s2) → retryable opts e = true → onRetry (n + 1) e s2 = (Ok tt, s3) →
    failing s (n + 1) (sleep (exponential opts (n + 1)) s3).
(** How a call ends after [n] failed attempts. *)
Inductive ends (max n : Z) (s : S) : outcome A → S → Prop :=
  | en_ok a s' : fn s = (Ok a, s') → ends max n s (Ok a) s'
  | en_fatal e s' : fn s = (Throw e, s') → retryable opts e = false ∨ n + 1 = max → ends max n s (Throw e) s'
  | en_hook e s1 e' s' :
    fn s = (Throw e, s1) → retryable opts e = true → onRetry (n + 1) e s1 = (Throw e', s') → ends max n s (Throw e') s'.
Lemma attempts_outcome rem n last s0 s o s' :
  Z.of_nat rem = default 3 (maxAttempts opts) - n → (0 < rem)%nat → 0 ≤ n → failing s0 n s →
  attempts opts fn onRetry sleep rem (n + 1) last s = (o, s') →
  ∃ k s1, 0 ≤ k < default 3 (maxAttempts opts) ∧ failing s0 k s1 ∧ ends (default 3 (maxAttempts opts)) k s1 o s'.
Proof.
  revert n last s. set (mx := default 3 (maxAttempts opts)). induction rem as [|rem IH]; intros n last s Hrem Hpos Hn Hf Hrun; [lia|].
  cbn in Hrun. fold mx in Hrun. destruct (fn s) as [[a|e] s1] eqn:Hfn.
  { injection Hrun as <- <-. exists n, s. split; [lia|]. split; [done|by apply en_ok]. }
  destruct (negb (retryable opts e) || (n + 1 =? mx)) eqn:Hstop.
  { injection Hrun as <- <-. exists n, s. split; [lia|]. split; [done|]. apply en_fatal; [done|].
    apply orb_true_iff in Hstop as [H|H]; [left; by apply negb_true_iff|right; by apply Z.eqb_eq]. }
  apply orb_false_iff in Hstop as [Hre Hlast]. apply negb_false_iff in Hre. apply Z.eqb_neq in Hlast.
  unfold mbind, M_bind in Hrun. destruct (onRetry (n + 1) e s1) as [[[]|e'] s2] eqn:Hhook.
  - cbn in Hrun. eapply IH; [| | |by eapply fa_more|exact Hrun]; lia.
  - injection Hrun as <- <-. exists n, s. split; [lia|]. split; [done|by eapply en_hook].
Qed.
End retry.

(** [withRetry] calls its function at most [maxAttempts] times: it fails that
    often less one, pausing 1, 2, 4, ... times the base delay up to the maximum,
    and then returns what the function returns, or throws what it throws when
    that error is not to be retried or the attempts are used up; an error of
    [onRetry] ends it, and without attempts it throws [undefined]. *)
Theorem withRetry_outcome {S A} (opts : RetryOptions) (fn : M S A) onRetry sleep s o s' :
  withRetry opts fn onRetry sleep s = (o, s') →
  let max := default 3 (maxAttempts opts) in
  (max ≤ 0 ∧ o = Throw no_error ∧ s' = s) ∨
  (∃ n s1, 0 ≤ n < max ∧ failing opts fn onRetry sleep s n s1 ∧ ends opts fn onRetry max n s1 o s').
Proof.
  intros Hrun max. destruct (Z.leb_spec max 0) as [Hle|Hlt].
  - left. unfold withRetry in Hrun. fold max in Hrun. rewrite Z2Nat.nonpos in Hrun by done. by injection Hrun as <- <-.
  - right. eapply (attempts_outcome opts fn onRetry sleep _ 0 no_error s s); [| | |apply fa_none|exact Hrun]; lia.
Qed.

(** ** Subscriptions *)
Section delivery.
Context (matches : string → string → RawEvent → bool) (returns : SorobanEvent → bool).
Implicit Types (s : System) (sub : Subscription) (chain : list RawEvent).

(** What matches from one ledger up to another, and what a callback wants of it. *)
Definition between sub chain (first last : Z) : list RawEvent :=
  base.filter (λ e, (first ≤ raw_ledger e < last) ∧ matches (su_address sub) (su_topic sub) e = true) chain.
Definition wanted sub (events : list RawEvent) : list SorobanEvent := List.filter (su_filter sub) (fetched events).
#[local] Arguments between : simpl never.
#[local] Arguments wanted : simpl never.
(** The static part of a subscription. *)
Definition same_subscription sub sub' : Prop :=
  su_address sub' = su_address sub ∧ su_topic sub' = su_topic sub ∧ su_filter sub' = su_filter sub.
Lemma sdk_wanted_app sub l1 l2 : wanted sub (l1 ++ l2) = wanted sub l1 ++ wanted sub l2.
Proof. unfold wanted, fetched. by rewrite omap_app, List.filter_app. Qed.
Lemma wanted_same sub sub' l : same_subscription sub sub' → wanted sub' l = wanted sub l.
Proof. intros (_ & _ & Hf). unfold wanted. by rewrite Hf. Qed.
Lemma between_same sub sub' chain first last :
  same_subscription sub sub' → between sub' chain first last = between sub chain first last.
Proof. intros (Ha & Ht & _). unfold between. by rewrite Ha, Ht. Qed.
Lemma between_nil sub chain first last :
  Forall (λ e, raw_ledger e < first ∨ last ≤ raw_ledger e) chain → between sub chain first last = [].
Proof.
  intros Hall. unfold between. induction Hall as [|e chain He _ IH]; [done|]. rewrite filter_cons, decide_False; [done|]. lia.
Qed.
(** A sorted chain splits at a ledger. *)
Lemma between_split sub chain first mid last :
  StronglySorted Z.le (raw_ledger <$> chain) → first ≤ mid ≤ last →
  between sub chain first mid ++ between sub chain mid last = between sub chain first last.
Proof.
  intros Hs Hm. induction chain as [|e chain IH]; [done|]. cbn in Hs. apply StronglySorted_inv in Hs as [Hs He].
  specialize (IH Hs). rewrite Forall_fmap in He. destruct (decide (raw_ledger e < mid)) as [Hlt|Hge].
  - unfold between in *. rewrite !filter_cons. rewrite (decide_False (P := (mid ≤ _ < _) ∧ _)) by lia.
    destruct (decide ((first ≤ raw_ledger e < mid) ∧ _)) as [H1|H1]; destruct (decide ((first ≤ raw_ledger e < last) ∧ _)) as [H2|H2];
      [by rewrite <- IH|exfalso; apply H2; split; [lia|apply H1]|exfalso; apply H1; split; [lia|apply H2]|done].
  - rewrite (between_nil sub (e :: chain) first mid) by (constructor; [lia|eapply Forall_impl; [exact He|]; cbn; lia]). cbn [app].
    unfold between. rewrite !filter_cons.
    assert (between sub chain first mid = []) as Hnil by (apply between_nil; eapply Forall_impl; [exact He|]; cbn; lia).
    rewrite Hnil in IH. unfold between in IH. cbn in IH. rewrite IH.
    destruct (decide ((mid ≤ raw_ledger e < last) ∧ _)) as [H1|H1]; destruct (decide ((first ≤ raw_ledger e < last) ∧ _)) as [H2|H2];
      [done|exfalso; apply H2; split; [lia|apply H1]|exfalso; apply H1; split; [lia|apply H2]|done].
Qed.
Lemma between_grows sub chain new first last :
  Forall (λ e, last ≤ raw_ledger e) new → between sub (chain ++ new) first last = between sub chain first last.
Proof.
  intros Hn. unfold between. rewrite filter_app. fold (between sub new first last).
  rewrite between_nil; [by rewrite app_nil_r|]. eapply Forall_impl; [exact Hn|]. cbn. lia.
Qed.
Lemma relevant_between sub chain start latest :
  Forall (λ e, raw_ledger e ≤ latest) chain →
  relevant matches chain (su_address sub) (su_topic sub) start = between sub chain start (latest + 1).
Proof.
  intros Hall. unfold relevant, between. induction Hall as [|e chain He _ IH]; [done|]. rewrite !filter_cons, IH.
  destruct (decide ((start ≤ raw_ledger e) ∧ _)) as [H1|H1]; destruct (decide ((start ≤ raw_ledger e < latest + 1) ∧ _)) as [H2|H2];
    [done|exfalso; apply H2; split; [lia|apply H1]|exfalso; apply H1; split; [lia|apply H2]|done].
Qed.

(** *** What a page leads to *)
Lemma calls_all sub l : (∀ e, returns e = true) → su_stopped sub = false → calls returns sub l = (List.filter (su_filter sub) l, true).
Proof.
  intros Hr Hs. induction l as [|e l IH]; [done|]. cbn. rewrite Hs, Hr, IH. cbn. by destruct (su_filter sub e).
Qed.
Lemma calls_sub sub l : (calls returns sub l).1 `sublist_of` l.
Proof.
  induction l as [|e l IH]; [done|]. cbn. destruct (negb _ && _); [|by constructor].
  destruct (returns e); [|constructor; apply sublist_nil_l]. destruct (calls returns sub l) as [l' ok]. by constructor.
Qed.

(** *** Exactness *)

(** The chain a history starts from. *)
Record sound_chain s : Prop := {
  so_sorted : StronglySorted Z.le (raw_ledger <$> sy_chain s);
  so_closed : Forall (λ e, raw_ledger e ≤ sy_latest s) (sy_chain s);
  so_latest : 0 < sy_latest s }.
Lemma sound_step s s' : sub_step matches returns s s' → sound_chain s → sound_chain s' ∧ sy_latest s ≤ sy_latest s'.
Proof.
  intros Hstep [H1 H2 H3].
  destruct Hstep as [new latest s Hlt Hnew Hsorted|s|i s Hi|i start s Hi|i s Hi|s]; try (split; [by split|done]).
  cbn. split; [|lia]. split; cbn; [| |lia].
  - rewrite fmap_app. apply StronglySorted_app. split_and!; [|done|done].
    intros x y Hx Hy. rewrite list_elem_of_fmap in Hx, Hy. destruct Hx as (e & -> & He), Hy as (e' & -> & He').
    rewrite Forall_forall in H2, Hnew. specialize (H2 _ He). specialize (Hnew _ He'). lia.
  - apply Forall_app. split; (eapply Forall_impl; [eassumption|]); cbn; lia.
Qed.
(** A subscription that still runs, whose polls do not overlap: before its first
    answer, and after it, with the ledger [first] that answer named. *)
Record unanswered sub0 s : Prop := {
  un_same : same_subscription sub0 (sy_sub s);
  un_state : su_initialized (sy_sub s) = false → su_stopped (sy_sub s) = false →
    su_called (sy_sub s) = [] ∧ Forall (eq AwaitLatest) (su_pending (sy_sub s)) }.
Record exact (first : Z) sub0 s : Prop := {
  ex_same : same_subscription sub0 (sy_sub s);
  ex_initialized : su_initialized (sy_sub s) = true;
  ex_state : su_stopped (sy_sub s) = false →
    first ≤ su_cursor (sy_sub s) ≤ sy_latest s + 1 ∧
    su_called (sy_sub s) = wanted sub0 (between sub0 (sy_chain s) first (su_cursor (sy_sub s))) ∧
    Forall (eq (AwaitEvents (su_cursor (sy_sub s)))) (su_pending (sy_sub s)) }.
(** The polls do not overlap, and the page a poll waits for is not cut. *)
Definition alone s : Prop := (length (su_pending (sy_sub s)) ≤ 1)%nat.
Definition uncut s : Prop := ∀ start, AwaitEvents start ∈ su_pending (sy_sub s) →
  (length (relevant matches (sy_chain s) (su_address (sy_sub s)) (su_topic (sy_sub s)) start) ≤ event_limit)%nat.
Definition quiet_step s s' : Prop := sub_step matches returns s s' ∧ alone s' ∧ uncut s.

Lemma only_one {A} (l : list A) i x : (length l ≤ 1)%nat → l !! i = Some x → i = 0%nat ∧ l = [x].
Proof. destruct l as [|y [|z l]]; [done| |cbn; lia]. intros _ H. destruct i as [|i]; [|done]. cbn in H. by injection H as ->. Qed.
Lemma alone_tail {A} (l : list A) x : (length (l ++ [x]) ≤ 1)%nat → l = [].
Proof. rewrite length_app. destruct l; [done|cbn; lia]. Qed.
Lemma same_trans sub1 sub2 sub3 : same_subscription sub1 sub2 → same_subscription sub2 sub3 → same_subscription sub1 sub3.
Proof. unfold same_subscription. intuition congruence. Qed.
Lemma answer_static i page latest start sub :
  let sub' := answer_events returns i page latest start sub in
  same_subscription sub sub' ∧ su_initialized sub' = su_initialized sub ∧ su_stopped sub' = su_stopped sub.
Proof. unfold answer_events. cbv zeta. by destruct (calls _ _ _) as [l []]. Qed.
Lemma unanswered_step sub0 s s' :
  alone s → quiet_step s s' → unanswered sub0 s → unanswered sub0 s'.
Proof.
  intros Halone (Hstep & Halone' & _) [E1 E2].
  destruct Hstep as [new latest s Hlt Hnew Hsorted|s|i s Hi|i start s Hi|i s Hi|s].
  - split; cbn; [done|exact E2].
  - unfold alone in Halone'. cbn in *. unfold poll in *. destruct (su_stopped (sy_sub s)) eqn:Hst; [split; cbn; [done|congruence]|].
    cbn in Halone'. pose proof (alone_tail _ _ Halone') as Hnil. split; cbn; [done|]. intros Hi _. rewrite Hi, Hnil.
    destruct (E2 Hi eq_refl) as [Hc _]. split; [done|by repeat constructor].
  - split; cbn; [done|discriminate].
  - destruct (only_one _ _ _ Halone Hi) as [-> Hp].
    destruct (answer_static 0 (page_from matches (sy_chain s) (su_address (sy_sub s)) (su_topic (sy_sub s)) start)
      (sy_latest s) start (sy_sub s)) as (A & Ai & As). split; [exact (same_trans _ _ _ E1 A)|].
    intros Hinit Hst. destruct (E2 (eq_trans (eq_sym Ai) Hinit) (eq_trans (eq_sym As) Hst)) as [_ Hf]. rewrite Hp in Hf. by apply Forall_cons_1 in Hf as [Hf _].
  - destruct Hi as [x Hi]. destruct (only_one _ _ _ Halone Hi) as [-> Hp]. split; cbn; [done|]. rewrite Hp. cbn.
    intros Hinit Hst. destruct (E2 Hinit Hst) as [Hc _]. by split.
  - split; cbn; [done|]. discriminate.
Qed.
(** The first answer names the latest ledger. *)
Lemma first_answer sub0 s s' :
  alone s → quiet_step s s' → unanswered sub0 s → su_initialized (sy_sub s) = false → su_initialized (sy_sub s') = true →
  sy_latest s' = sy_latest s ∧ exact (sy_latest s) sub0 s'.
Proof.
  intros Halone (Hstep & _ & _) [E1 E2] Hbefore.
  destruct Hstep as [new latest s Hlt Hnew Hsorted|s|i s Hi|i start s Hi|i s Hi|s]; cbn; try congruence.
  - unfold poll. destruct (su_stopped (sy_sub s)); cbn; congruence.
  - intros _. split; [done|]. destruct (only_one _ _ _ Halone Hi) as [-> Hp]. split; cbn; [done..|]. intros Hs.
    destruct (E2 Hbefore Hs) as [Hc _]. rewrite Hp, Hc. cbn. split_and!; [lia..| |by repeat constructor].
    rewrite between_nil; [done|]. apply Forall_forall. lia.
  - intros H. pose proof (eq_trans (eq_sym (proj1 (proj2 (answer_static _ _ _ _ _)))) H). congruence.
Qed.

(** A page that is not cut brings the subscription up to the latest ledger. *)
Lemma uncut_answer first sub0 s :
  (∀ e, returns e = true) → sound_chain s → uncut s → exact first sub0 s → su_stopped (sy_sub s) = false →
  su_pending (sy_sub s) = [AwaitEvents (su_cursor (sy_sub s))] →
  let start := su_cursor (sy_sub s) in
  let sub := answer_events returns 0 (page_from matches (sy_chain s) (su_address (sy_sub s)) (su_topic (sy_sub s)) start)
    (sy_latest s) start (sy_sub s) in
  su_cursor sub = sy_latest s + 1 ∧ su_pending sub = [] ∧ same_subscription sub0 sub ∧ su_initialized sub = true ∧
  su_called sub = wanted sub0 (between sub0 (sy_chain s) first (sy_latest s + 1)).
Proof.
  intros Hret [C1 C2 C3] Huncut [E1 Ei E3] Hs Hp start sub. specialize (E3 Hs) as (Hf & Hc & _).
  specialize (Huncut start). rewrite Hp in Huncut. specialize (Huncut ltac:(by apply list_elem_of_singleton)).
  subst sub. unfold answer_events. rewrite calls_all by done. cbn. unfold latest_ledger.
  destruct (Z.eqb_spec (sy_latest s) 0); [lia|]. rewrite Hp. split_and!; [done..|].
  rewrite Hc. unfold page_from. rewrite take_ge by done. rewrite relevant_between with (latest := sy_latest s) by done.
  rewrite (between_same _ _ _ _ _ E1), <- (between_split sub0 _ first start (sy_latest s + 1)) by (done || lia).
  rewrite sdk_wanted_app. f_equal. exact (wanted_same _ _ _ E1).
Qed.
Lemma exact_step first sub0 s s' :
  (∀ e, returns e = true) → sound_chain s → alone s → quiet_step s s' → exact first sub0 s → exact first sub0 s'.
Proof.
  intros Hret Hsound Halone (Hstep & Halone' & Huncut) Hex. pose proof Hex as [E1 Ei E3].
  destruct Hstep as [new latest s Hlt Hnew Hsorted|s|i s Hi|i start s Hi|i s Hi|s].
  - split; cbn; [done..|]. intros Hs. destruct (E3 Hs) as (Hf & Hcalled & Hp). split_and!; [lia|lia| |done].
    rewrite between_grows; [done|]. eapply Forall_impl; [exact Hnew|]. cbn. lia.
  - unfold alone in Halone'. cbn in *. unfold poll in *. destruct (su_stopped (sy_sub s)) eqn:Hst; [split; cbn; [done..|congruence]|].
    cbn in Halone'. pose proof (alone_tail _ _ Halone') as Hnil. split; cbn; [done..|]. intros _. rewrite Hnil, Ei.
    destruct (E3 eq_refl) as (Hf & Hc & _). split_and!; [lia..|done|by repeat constructor].
  - destruct (only_one _ _ _ Halone Hi) as [-> Hp]. split; cbn; [done..|]. intros Hs. destruct (E3 Hs) as (_ & _ & Hf).
    rewrite Hp in Hf. by apply Forall_cons_1 in Hf as [Hf _].
  - destruct (only_one _ _ _ Halone Hi) as [-> Hp]. destruct (su_stopped (sy_sub s)) eqn:Hs.
    + destruct (answer_static 0 (page_from matches (sy_chain s) (su_address (sy_sub s)) (su_topic (sy_sub s)) start)
        (sy_latest s) start (sy_sub s)) as (A & Ai & As).
      split; [exact (same_trans _ _ _ E1 A)|exact (eq_trans Ai Ei)|]. intros Hrun. pose proof (eq_trans (eq_sym As) Hrun). congruence.
    + destruct (E3 eq_refl) as (_ & _ & Hf). rewrite Hp in Hf. apply Forall_cons_1 in Hf as [Hst _]. injection Hst as <-.
      pose proof (proj1 (E3 eq_refl)) as Hf. pose proof (uncut_answer first sub0 s Hret Hsound Huncut Hex Hs Hp) as Hsub. cbv zeta in Hsub.
      revert Hsub. generalize (answer_events returns 0 (page_from matches (sy_chain s) (su_address (sy_sub s)) (su_topic (sy_sub s))
        (su_cursor (sy_sub s))) (sy_latest s) (su_cursor (sy_sub s))). intros answer (H1 & H2 & H3 & H4 & H5).
      split; cbn; [done..|]. intros _. rewrite H1, H2. split_and!; [lia|lia|done|constructor].
  - unfold fail_poll. destruct Hi as [x Hi]. destruct (only_one _ _ _ Halone Hi) as [-> Hp]. split; cbn; [done..|]. rewrite Hp. cbn.
    intros Hs. destruct (E3 Hs) as (H1 & H2 & _). split_and!; [lia..|done|constructor].
  - split; cbn; [done..|]. discriminate.
Qed.

Lemma quiet_sound s s' : rtc quiet_step s s' → sound_chain s → alone s → sound_chain s' ∧ alone s'.
Proof.
  induction 1 as [s|s1 s2 s3 (Hs & Ha & _) _ IH]; [done|]. intros Hsound _. apply IH; [|done]. by eapply sound_step.
Qed.
Lemma unanswered_history sub0 s s' : rtc quiet_step s s' → alone s → unanswered sub0 s → unanswered sub0 s'.
Proof.
  induction 1 as [s|s1 s2 s3 Hstep _ IH]; [done|]. intros Ha Hu. apply IH; [apply Hstep|]. by eapply unanswered_step.
Qed.
Lemma exact_history first sub0 s s' :
  (∀ e, returns e = true) → rtc quiet_step s s' → sound_chain s → alone s → exact first sub0 s → exact first sub0 s'.
Proof.
  intros Hret. induction 1 as [s|s1 s2 s3 Hstep _ IH]; [done|]. intros Hs Ha He. pose proof Hstep as (H1 & H2 & _).
  apply IH; [by eapply sound_step|done|by eapply exact_step].
Qed.
(** A running subscription after the next tick, unless a poll still waits. *)
Definition polling s : System := if bool_decide (su_pending (sy_sub s) = []) then s <| sy_sub ::= poll |> else s.
Lemma polling_exact first sub0 s :
  exact first sub0 s → alone s → su_stopped (sy_sub s) = false →
  exact first sub0 (polling s) ∧ su_pending (sy_sub (polling s)) = [AwaitEvents (su_cursor (sy_sub (polling s)))] ∧
  sy_chain (polling s) = sy_chain s ∧ sy_latest (polling s) = sy_latest s ∧ su_stopped (sy_sub (polling s)) = false ∧
  same_subscription (sy_sub s) (sy_sub (polling s)) ∧ su_cursor (sy_sub (polling s)) = su_cursor (sy_sub s).
Proof.
  intros [E1 Ei E3] Ha Hs. destruct (E3 Hs) as (H1 & H2 & H3). unfold polling. case_bool_decide as Hp.
  - cbn. unfold poll. rewrite Hs, Ei. cbn. rewrite Hp. split_and!; try done. split; cbn; [done..|]. intros _.
    split_and!; [lia..|done|by repeat constructor].
  - unfold alone in Ha. split_and!; try done. destruct (su_pending (sy_sub s)) as [|x [|y l]]; [done| |cbn in Ha; lia].
    apply Forall_cons_1 in H3 as [<- _]. done.
Qed.
End delivery.

(** C29: A subscription is exact from its first answer on.  Let the callback never
    throw, the polls not overlap and the pages that answer them not be cut.  Let
    [s1] be the state in which the subscription's first request is answered, with
    the latest ledger at that time.  In every later state of a running
    subscription, whatever polls have failed in between, the callback has been
    called for each event it wants, once and in order, from that ledger up to
    the cursor and for no other; and the poll that waits, or else the one of the
    next tick, once its page is answered, calls back for all the rest up to the
    ledger that is the latest then. *)
Theorem subscription_is_exact matches returns address topic filter s0 s1 s2 s :
  (∀ e, returns e = true) → sound_chain s0 → sy_sub s0 = createTopicSubscription address topic filter →
  rtc (quiet_step matches returns) s0 s1 → su_initialized (sy_sub s1) = false →
  quiet_step matches returns s1 s2 → su_initialized (sy_sub s2) = true →
  rtc (quiet_step matches returns) s2 s → su_stopped (sy_sub s) = false →
  let first := sy_latest s1 in
  first ≤ su_cursor (sy_sub s) ≤ sy_latest s + 1 ∧
  su_called (sy_sub s) = wanted (sy_sub s) (between matches (sy_sub s) (sy_chain s) first (su_cursor (sy_sub s))) ∧
  ∃ start, su_pending (sy_sub (polling s)) = [AwaitEvents start] ∧
    (uncut matches (polling s) →
     let page := page_from matches (sy_chain s) (su_address (sy_sub s)) (su_topic (sy_sub s)) start in
     let sub := answer_events returns 0 page (sy_latest s) start (sy_sub (polling s)) in
     su_cursor sub = sy_latest s + 1 ∧
     su_called sub = wanted (sy_sub s) (between matches (sy_sub s) (sy_chain s) first (sy_latest s + 1))).
Proof.
  intros Hret Hsound Hsub H01 Hi1 H12 Hi2 H2 Hs first.
  assert (alone s0) as Ha0 by (unfold alone; by rewrite Hsub).
  assert (unanswered (sy_sub s0) s0) as Hu0 by (split; [done|]; rewrite Hsub; intros _ _; split; [done|by repeat constructor]).
  destruct (quiet_sound _ _ _ _ H01 Hsound Ha0) as [Hsound1 Ha1]. pose proof (unanswered_history _ _ _ _ _ H01 Ha0 Hu0) as Hu1.
  destruct (first_answer _ _ _ _ _ Ha1 H12 Hu1 Hi1 Hi2) as [_ Hex2]. fold first in Hex2.
  destruct (quiet_sound _ _ _ _ (rtc_once _ _ H12) Hsound1 Ha1) as [Hsound2 Ha2].
  destruct (quiet_sound _ _ _ _ H2 Hsound2 Ha2) as [Hsounds Has].
  pose proof (exact_history _ _ _ _ _ _ Hret H2 Hsound2 Ha2 Hex2) as Hex.
  assert (∀ a b, wanted (sy_sub s) (between matches (sy_sub s) (sy_chain s) a b) =
    wanted (sy_sub s0) (between matches (sy_sub s0) (sy_chain s) a b)) as Hw.
  { intros a b. rewrite (between_same _ _ _ _ _ _ (ex_same _ _ _ _ Hex)). exact (wanted_same _ _ _ (ex_same _ _ _ _ Hex)). }
  destruct (ex_state _ _ _ _ Hex Hs) as (Hf & Hc & _). split; [exact Hf|]. split; [by rewrite Hw|].
  destruct (polling_exact _ _ _ _ Hex Has Hs) as (Hexp & Hp & Hch & Hl & Hst & (Ha & Ht & _) & Hcur).
  eexists. split; [exact Hp|]. intros Huncut page sub. rewrite Hw.
  assert (sound_chain (polling s)) as Hsp by (destruct Hsounds; split; by rewrite ?Hch, ?Hl).
  destruct (uncut_answer _ _ _ _ _ Hret Hsp Huncut Hexp Hst Hp) as (H1' & _ & _ & _ & H5). rewrite Hch, Hl, Ha, Ht in *.
  by split.
Qed.

(** ** What a cut page costs *)
Section loss.
Context (matches : string → string → RawEvent → bool) (returns : SorobanEvent → bool).
Implicit Types (s : System).
Lemma decoded_ledger raw e : decodeEvent raw = Some e → e_ledger e = raw_ledger raw.
Proof. unfold decodeEvent. intros H. apply bind_Some in H as (t & _ & H). apply bind_Some in H as (v & _ & H). by injection H as <-. Qed.
Lemma fetched_from chain address topic start e :
  e ∈ fetched (page_from matches chain address topic start) → start ≤ e_ledger e.
Proof.
  unfold fetched. rewrite list_elem_of_omap. intros (raw & Hraw & Hd). rewrite (decoded_ledger _ _ Hd).
  apply elem_of_take in Hraw as (i & Hi & _). apply list_elem_of_lookup_2 in Hi. unfold relevant in Hi.
  apply list_elem_of_filter in Hi. tauto.
Qed.
Lemma answer_run i page latest start (sub : Subscription) :
  let sub' := answer_events returns i page latest start sub in
  ∃ l, l `sublist_of` fetched page ∧ su_pending sub' = delete i (su_pending sub) ∧ su_called sub' = su_called sub ++ l ∧
    su_initialized sub' = su_initialized sub ∧ (su_cursor sub' = latest_ledger latest start + 1 ∨ su_cursor sub' = su_cursor sub).
Proof.
  unfold answer_events. pose proof (calls_sub returns sub (fetched page)) as Hl.
  destruct (calls returns sub (fetched page)) as [l ok]. exists l. destruct ok; cbn; split_and!; auto.
Qed.
#[local] Arguments answer_events : simpl never.
(** A subscription past a ledger calls back for no event before it any more. *)
Record past (c0 : Z) (called : list SorobanEvent) s : Prop := {
  pa_started : su_initialized (sy_sub s) = true;
  pa_cursor : c0 ≤ su_cursor (sy_sub s);
  pa_latest : c0 ≤ sy_latest s + 1 ∧ 0 < sy_latest s;
  pa_pending : Forall (λ p, ∃ start, p = AwaitEvents start ∧ c0 ≤ start) (su_pending (sy_sub s));
  pa_called : ∃ l, su_called (sy_sub s) = called ++ l ∧ Forall (λ e, c0 ≤ e_ledger e) l }.
Lemma past_step c0 called s s' : sub_step matches returns s s' → past c0 called s → past c0 called s'.
Proof.
  intros Hstep [P1 P2 [P3 P3'] P4 (l & P5 & P6)].
  destruct Hstep as [new latest s Hlt Hnew Hsorted|s|i s Hi|i start s Hi|i s Hi|s].
  - split; cbn; try done; [lia|by exists l].
  - unfold poll. destruct (su_stopped (sy_sub s)) eqn:Hs; split; cbn; rewrite ?Hs; cbn; try done; try (by exists l).
    apply Forall_app. split; [done|]. rewrite P1. repeat constructor. by eexists.
  - rewrite Forall_forall in P4. apply list_elem_of_lookup_2 in Hi. by destruct (P4 _ Hi) as (? & ? & _).
  - set (page := page_from _ _ _ _ _). assert (∀ e, e ∈ fetched page → start ≤ e_ledger e) as Hfrom by (intros e; apply fetched_from).
    clearbody page. destruct (answer_run i page (sy_latest s) start (sy_sub s)) as (c & Hsub & Hp & Hc & Hi' & Hcur).
    split; cbn; rewrite ?Hp, ?Hc, ?Hi'; try done.
    + unfold latest_ledger in Hcur. destruct (Z.eqb_spec (sy_latest s) 0); lia.
    + by apply Forall_delete.
    + exists (l ++ c). rewrite P5, app_assoc. split; [done|]. apply Forall_app. split; [done|]. apply Forall_forall. intros e He.
      assert (start ≤ e_ledger e) by (eapply Hfrom, elem_of_submseteq; [exact He|by apply sublist_submseteq]).
      rewrite Forall_forall in P4. apply list_elem_of_lookup_2 in Hi. destruct (P4 _ Hi) as (st & [= <-] & ?). lia.
  - split; cbn; try done; [by apply Forall_delete|by exists l].
  - split; cbn; try done. by exists l.
Qed.
End loss.

(** What a page is too short for is lost: when a poll is answered with a page
    that is cut and no other poll is under way, the cursor still passes the
    latest ledger, and the callback is never called for an event beyond the
    page, whatever happens afterwards. *)
Theorem cut_page_is_skipped matches returns s s' start raw e :
  sound_chain s → (∀ e, returns e = true) → su_initialized (sy_sub s) = true → su_stopped (sy_sub s) = false →
  su_pending (sy_sub s) = [AwaitEvents start] →
  let page := page_from matches (sy_chain s) (su_address (sy_sub s)) (su_topic (sy_sub s)) start in
  raw ∈ drop event_limit (relevant matches (sy_chain s) (su_address (sy_sub s)) (su_topic (sy_sub s)) start) →
  decodeEvent raw = Some e → e ∉ fetched page → e ∉ su_called (sy_sub s) →
  rtc (sub_step matches returns) (s <| sy_sub ::= answer_events returns 0 page (sy_latest s) start |>) s' →
  e ∉ su_called (sy_sub s').
Proof.
  intros [_ Hclosed Hpos] Hret Hinit Hrun Hp page Hraw Hdec Hnot Hold Hsteps.
  assert (raw_ledger raw ≤ sy_latest s) as Hle.
  { rewrite Forall_forall in Hclosed. apply Hclosed. apply list_elem_of_lookup in Hraw as (i & Hi). rewrite lookup_drop in Hi.
    apply list_elem_of_lookup_2 in Hi. unfold relevant in Hi. by apply list_elem_of_filter in Hi as [_ Hi]. }
  set (s1 := s <| sy_sub ::= _ |>) in Hsteps.
  assert (past (sy_latest s + 1) (su_called (sy_sub s1)) s1 ∧ e ∉ su_called (sy_sub s1)) as [Hpast Hs1].
  { assert (sy_sub s1 = (sy_sub s) <| su_pending ::= delete 0%nat |>
        <| su_called ::= λ c, c ++ List.filter (su_filter (sy_sub s)) (fetched page) |>
        <| su_cursor := latest_ledger (sy_latest s) start + 1 |>) as Hsub.
    { change (sy_sub s1) with (answer_events returns 0 page (sy_latest s) start (sy_sub s)). unfold answer_events. by rewrite calls_all. }
    assert (sy_latest s1 = sy_latest s) as Hsame by done. clearbody s1. split.
    - split; rewrite ?Hsub, ?Hsame; cbn; try done; try lia; [|by rewrite Hp|].
      + unfold latest_ledger. destruct (Z.eqb_spec (sy_latest s) 0); lia.
      + exists []. by rewrite app_nil_r.
    - rewrite Hsub. cbn. rewrite elem_of_app. intros [?|Hin]; [done|].
      rewrite list_elem_of_In, List.filter_In, <- list_elem_of_In in Hin. by destruct Hin. }
  assert (past (sy_latest s + 1) (su_called (sy_sub s1)) s') as [_ _ _ _ (l & Hl & Hlate)].
  { clear -Hpast Hsteps. revert Hpast. generalize (su_called (sy_sub s1)). intros c Hc. induction Hsteps; eauto using past_step. }
  rewrite Hl, elem_of_app. intros [?|Hin]; [done|]. rewrite Forall_forall in Hlate. specialize (Hlate _ Hin).
  rewrite (decoded_ledger _ _ Hdec) in Hlate. lia.
Qed.

(** ** All proposals *)
Section proposals.
Context (matches : string → string → RawEvent → bool) (chain : list RawEvent) (address : string) (latest : Z).
Abbreviation matching start := (relevant matches chain address "ProposalCreated" start).
(** Every event decodes and is in a closed ledger, and no page ends inside a ledger. *)
Record whole_ledgers : Prop := {
  wl_decoded : Forall (λ e, is_Some (decodeEvent e)) chain;
  wl_closed : Forall (λ e, 0 < raw_ledger e ≤ latest) chain;
  wl_whole : ∀ start e e', e ∈ take event_limit (matching start) → e' ∈ drop event_limit (matching start) → raw_ledger e < raw_ledger e';
  wl_latest : 0 < latest }.
Lemma last_ledger_max l e : e ∈ l → e_ledger e ≤ last_ledger l.
Proof. unfold last_ledger. induction 1; cbn; lia. Qed.
Lemma last_ledger_in l : l ≠ [] → Forall (λ e, 0 < e_ledger e) l → ∃ e, e ∈ l ∧ e_ledger e = last_ledger l.
Proof.
  induction l as [|e l IH]; [done|]. intros _ Hall. apply Forall_cons in Hall as [He Hall]. unfold last_ledger in *. cbn.
  destruct l as [|e' l]; [exists e; split; [by constructor|cbn; lia]|]. destruct IH as (x & Hx & Hm); [done..|].
  destruct (Z.max_spec (e_ledger e) (foldr Z.max 0 (e_ledger <$> e' :: l))) as [[_ Hmax]|[_ Hmax]]; rewrite Hmax.
  - exists x. split; [by constructor|done].
  - exists e. split; [by constructor|done].
Qed.
Lemma fetched_nil l : Forall (λ e, is_Some (decodeEvent e)) l → fetched l = [] → l = [].
Proof. destruct 1 as [|e l [d He] _]; [done|]. unfold fetched. cbn. by rewrite He. Qed.
Lemma fetched_app l1 l2 : fetched (l1 ++ l2) = fetched l1 ++ fetched l2.
Proof. apply omap_app. Qed.
Lemma matching_sub (P : RawEvent → Prop) start : Forall P chain → Forall P (matching start).
Proof. intros H. unfold relevant. apply Forall_forall. intros e He. apply list_elem_of_filter in He as [_ He]. by rewrite Forall_forall in H; apply H. Qed.
(** The next page starts where this one ends. *)
Lemma matching_after start m :
  start ≤ m + 1 → Forall (λ e, raw_ledger e ≤ m) (take event_limit (matching start)) →
  Forall (λ e, m < raw_ledger e) (drop event_limit (matching start)) → matching (m + 1) = drop event_limit (matching start).
Proof.
  intros Hle Hbefore Hafter.
  assert (matching (m + 1) = base.filter (λ e, m + 1 ≤ raw_ledger e) (matching start)) as ->.
  { unfold relevant. rewrite list_filter_filter. apply list_filter_iff. intros e. split; [|tauto]. intros [? ?]. split_and!; [lia|lia|done]. }
  rewrite <- (take_drop event_limit (matching start)) at 1. rewrite filter_app.
  assert (∀ l, Forall (λ e, raw_ledger e ≤ m) l → base.filter (λ e, m + 1 ≤ raw_ledger e) l = []) as Hnone.
  { induction 1; [done|]. rewrite filter_cons, decide_False by lia. done. }
  assert (∀ l, Forall (λ e, m < raw_ledger e) l → base.filter (λ e, m + 1 ≤ raw_ledger e) l = l) as Hall.
  { induction 1; [done|]. rewrite filter_cons, decide_True by lia. by f_equal. }
  by rewrite Hnone, Hall.
Qed.
Lemma matching_none start : Forall (λ e, raw_ledger e ≤ latest) chain → latest < start → matching start = [].
Proof.
  intros Hall Hlt. unfold relevant. induction Hall as [|e l He _ IH]; [done|]. rewrite filter_cons, decide_False by lia. done.
Qed.
Lemma pages_all fuel start :
  whole_ledgers → (Z.to_nat (latest + 1 - start) ≤ fuel)%nat →
  pages matches fuel chain address latest start = Some (fetched (matching start)).
Proof.
  intros [W1 W2 W3 W4].
  assert (Forall (λ e, raw_ledger e ≤ latest) chain) as Hclosed by (eapply Forall_impl; [exact W2|]; cbn; lia).
  revert start. induction fuel as [|fuel IH]; intros start Hfuel; cbn [pages]; destruct (Z.ltb_spec latest start) as [Hlt|Hge];
    try (by rewrite matching_none); [lia|].
  set (page := page_from matches chain address "ProposalCreated" start).
  assert (Forall (λ e, is_Some (decodeEvent e)) page) as Hdec by (by apply Forall_take, matching_sub).
  destruct (fetched page) as [|e0 l0] eqn:Hpage.
  - apply fetched_nil in Hpage; [|done]. unfold latest_ledger. destruct (Z.eqb_spec latest 0); [lia|].
    rewrite IH by lia. rewrite matching_none by (done || lia). f_equal.
    destruct (matching start) eqn:Hm; [done|]. subst page. unfold page_from in Hpage. by rewrite Hm in Hpage.
  - rewrite <- Hpage. destruct (last_ledger_in (fetched page)) as (e & He & Hm); [congruence| |].
    { unfold fetched. apply Forall_forall. intros e He. apply list_elem_of_omap in He as (raw & Hraw & Hd).
      rewrite (decoded_ledger _ _ Hd). assert (Forall (λ e, 0 < raw_ledger e ≤ latest) page) as Hpos by (by apply Forall_take, matching_sub).
      rewrite Forall_forall in Hpos. by apply Hpos. }
    unfold fetched in He. apply list_elem_of_omap in He as (raw & Hraw & Hd). pose proof (decoded_ledger _ _ Hd) as Hl. rewrite Hm in Hl.
    assert (start ≤ raw_ledger raw) as Hstart.
    { pose proof Hraw as Hin. apply elem_of_take in Hin as (j & Hj & _). apply list_elem_of_lookup_2 in Hj. unfold relevant in Hj. apply list_elem_of_filter in Hj. tauto. }
    rewrite IH by lia. rewrite matching_after with (start := start); [|lia| |].
    + rewrite <- (take_drop event_limit (matching start)) at 2. by rewrite fetched_app.
    + apply Forall_forall. intros x Hx. rewrite Forall_forall in Hdec. destruct (Hdec x Hx) as [d Hxd].
      rewrite <- (decoded_ledger _ _ Hxd). apply last_ledger_max. unfold fetched. apply list_elem_of_omap. by exists x.
    + apply Forall_forall. intros x Hx. rewrite Hl. by apply (W3 start).
Qed.
End proposals.

(** C30: [getProposalEvents] always ends, within as many pages as there are
    ledgers, and answers every proposal from the given ledger on, in order,
    when no page ends inside a ledger. *)
Theorem all_proposals_are_read matches fuel chain latest address from :
  whole_ledgers matches chain address latest → (Z.to_nat latest ≤ fuel)%nat →
  getProposalEvents matches fuel chain latest address from =
  Some (fetched (relevant matches chain address "ProposalCreated" (Z.max 1 from))).
Proof. intros Hw Hfuel. unfold getProposalEvents. apply pages_all; [done|]. lia. Qed.

(** ** Examples *)
Module SubscriptionExample.
(** An event of the governor, one of them in each ledger, or all in one. *)
Definition at_ledger (ledger n : Z) : RawEvent :=
  mkRawEvent ledger (Some "CGOV") [Some (VStr "ProposalCreated")] (Some (VNum n)).
Definition by_topic (address topic : string) (raw : RawEvent) : bool :=
  bool_decide (raw_contractId raw = Some address) &&
  match raw_topic raw with Some (VStr t) :: _ => String.eqb t topic | _ => false end.
Definition ok (e : SorobanEvent) : bool := true.
Definition numbers (l : list SorobanEvent) : list Z := (λ e, match e_value e with VNum n => n | _ => -1 end) <$> l.

(** Two attempts fail, the third returns. *)
Definition third_time : M nat nat := λ n, if (n <? 2)%nat then (Throw (PlainError "busy"), Datatypes.S n) else (Ok n, n).
Definition plain : RetryOptions := mkRetryOptions None None None None.
Definition no_hook (attempt : Z) (e : JsError) : M nat unit := mret tt.
Example two_retries : withRetry plain third_time no_hook (λ _ n, n) 0%nat = (Ok 2%nat, 2%nat).
Proof. reflexivity. Qed.
(** Without attempts nothing is tried, and [undefined] is thrown. *)
Example no_attempts :
  withRetry (mkRetryOptions (Some 0) None None None) third_time no_hook (λ _ n, n) 0%nat = (Throw no_error, 0%nat).
Proof. reflexivity. Qed.
(** A [retry] object that names a key with [undefined] hides the other settings. *)
Example undefined_hides_settings :
  maxAttempts (createRetry (mkClientRetryConfig (Some (mkRetryFields (Some None) None None None)) (Some 5) None) plain None) = None.
Proof. reflexivity. Qed.

(** A subscription that is answered, and sees a ledger close. *)
Definition subscribed : System := mkSystem [at_ledger 5 1] 5 (subscribeToProposals "CGOV").
Definition answered : System := subscribed <| sy_sub ::= answer_latest 0 5 |>.
Definition page_of (s : System) (start : Z) : list RawEvent :=
  page_from by_topic (sy_chain s) (su_address (sy_sub s)) (su_topic (sy_sub s)) start.
Definition first_page : System := answered <| sy_sub ::= answer_events ok 0 (page_of answered 5) 5 5 |>.
Definition closed : System := first_page <| sy_chain ::= λ l, l ++ [at_ledger 6 2; at_ledger 7 3] |> <| sy_latest := 7 |>.
Definition polled : System := closed <| sy_sub ::= poll |>.
Definition second_page : System := polled <| sy_sub ::= answer_events ok 0 (page_of polled 6) 7 6 |>.
Lemma two_pages : quiet_step by_topic ok subscribed answered ∧ rtc (quiet_step by_topic ok) answered second_page.
Proof.
  assert (∀ (s : System) start, (length (sy_chain s) ≤ event_limit)%nat →
    (length (relevant by_topic (sy_chain s) (su_address (sy_sub s)) (su_topic (sy_sub s)) start) ≤ event_limit)%nat) as Hshort.
  { intros s start Hs. etrans; [apply length_filter|done]. }
  assert (∀ s : System, (length (sy_chain s) ≤ event_limit)%nat → uncut by_topic s) as Huncut by (intros s Hs start _; by apply Hshort).
  split; [split_and!; [by apply ss_latest|vm_compute; lia|apply Huncut; vm_compute; lia]|].
  apply (rtc_l _ _ first_page); [split_and!; [by apply (ss_events by_topic ok 0 5 answered)|vm_compute; lia|apply Huncut; vm_compute; lia]|].
  apply (rtc_l _ _ closed); [split_and!; [|vm_compute; lia|apply Huncut; vm_compute; lia]|].
  { apply (ss_ledger by_topic ok [at_ledger 6 2; at_ledger 7 3] 7 first_page); [done| |repeat constructor; cbn; lia].
    repeat constructor; cbn; lia. }
  apply (rtc_l _ _ polled); [split_and!; [apply ss_tick|vm_compute; lia|apply Huncut; vm_compute; lia]|].
  apply rtc_once. split_and!; [by apply (ss_events by_topic ok 0 6 polled)|vm_compute; lia|apply Huncut; vm_compute; lia].
Qed.
(** Two polls that overlap fetch the same events, and both call back. *)
Definition twice : System := polled <| sy_sub ::= poll |>.
Example overlapping_polls_repeat_events :
  let s := twice <| sy_sub ::= answer_events ok 0 (page_of twice 6) 7 6 |> in
  numbers (su_called (sy_sub (s <| sy_sub ::= answer_events ok 0 (page_of s 6) 7 6 |>))) = [1; 2; 3; 2; 3].
Proof. vm_compute. reflexivity. Qed.
(** A callback that throws is called for the same events by every poll. *)
Example throwing_callback_repeats_events :
  let fussy e := negb (bool_decide (numbers [e] = [3])) in
  let s := polled <| sy_sub ::= answer_events fussy 0 (page_of polled 6) 7 6 |> <| sy_sub ::= poll |> in
  numbers (su_called (sy_sub (s <| sy_sub ::= answer_events fussy 0 (page_of s 6) 7 6 |>))) = [1; 2; 3; 2; 3].
Proof. vm_compute. reflexivity. Qed.

(** More events in a ledger than a page holds. *)
Definition crowded : list RawEvent := (λ n, at_ledger 9 (Z.of_nat n)) <$> seq 0 101.
Example crowded_ledger_is_cut :
  (λ l, length l) <$> getProposalEvents by_topic 10 crowded 9 "CGOV" 1 = Some 100%nat.
Proof. vm_compute. reflexivity. Qed.
Definition waiting : System :=
  mkSystem crowded 9 ((subscribeToProposals "CGOV") <| su_cursor := 9 |> <| su_initialized := true |> <| su_pending := [AwaitEvents 9] |>).
Lemma waiting_sound : sound_chain waiting.
Proof.
  split; [|apply Forall_fmap, Forall_forall; vm_compute; discriminate|reflexivity].
  apply Sorted_StronglySorted; [intros x y z; apply Z.le_trans|]. vm_compute. repeat (constructor; try (intros H; discriminate H)).
Qed.
Definition last_event : SorobanEvent := mkSorobanEvent 9 "CGOV" ["ProposalCreated"] (VNum 100).
Lemma not_among (l : list SorobanEvent) e : bool_decide (numbers [e] ⊆ numbers l) = false → e ∉ l.
Proof. intros H He. apply bool_decide_eq_false in H. apply H. intros n. cbn. rewrite list_elem_of_singleton. intros ->. by apply (list_elem_of_fmap_2 (λ e, match e_value e with VNum n => n | _ => -1 end)). Qed.
Definition sparse : list RawEvent := [at_ledger 5 1; at_ledger 7 2].
Lemma sparse_whole : whole_ledgers by_topic sparse "CGOV" 9.
Proof.
  split; [repeat (constructor; [by eexists|]); constructor|repeat (constructor; [vm_compute; done|]); constructor| |done]. intros start e e' _ He.
  rewrite drop_ge in He; [by apply not_elem_of_nil in He|]. etrans; [apply length_filter|vm_compute; lia].
Qed.
End SubscriptionExample.

Lemma withRetry_outcome_witness :
  ∃ n s1, 0 ≤ n < 3 ∧ failing SubscriptionExample.plain SubscriptionExample.third_time SubscriptionExample.no_hook (λ _ n, n) 0%nat n s1 ∧
    ends SubscriptionExample.plain SubscriptionExample.third_time SubscriptionExample.no_hook 3 n s1 (Ok 2%nat) 2%nat.
Proof.
  destruct (withRetry_outcome SubscriptionExample.plain SubscriptionExample.third_time SubscriptionExample.no_hook (λ _ n, n) 0%nat _ _
    SubscriptionExample.two_retries) as [(H & _)|H]; [by vm_compute in H|exact H].
Defined.
Lemma subscription_is_exact_witness :
  SubscriptionExample.numbers (su_called (sy_sub SubscriptionExample.second_page)) = [1; 2; 3] ∧
  5 ≤ su_cursor (sy_sub SubscriptionExample.second_page) ≤ 8 ∧ su_called (sy_sub SubscriptionExample.second_page) =
    wanted (sy_sub SubscriptionExample.second_page)
      (between SubscriptionExample.by_topic (sy_sub SubscriptionExample.second_page) (sy_chain SubscriptionExample.second_page) 5 8).
Proof.
  split; [vm_compute; reflexivity|].
  destruct (subscription_is_exact SubscriptionExample.by_topic SubscriptionExample.ok "CGOV" "ProposalCreated" every
    SubscriptionExample.subscribed SubscriptionExample.subscribed SubscriptionExample.answered SubscriptionExample.second_page)
    as (H1 & H2 & _).
  - reflexivity.
  - split; [repeat constructor|repeat constructor; vm_compute; discriminate|reflexivity].
  - reflexivity.
  - apply rtc_refl.
  - reflexivity.
  - exact (proj1 SubscriptionExample.two_pages).
  - reflexivity.
  - exact (proj2 SubscriptionExample.two_pages).
  - reflexivity.
  - split; [exact H1|exact H2].
Defined.
Lemma cut_page_is_skipped_witness :
  SubscriptionExample.last_event ∉ su_called (sy_sub (SubscriptionExample.waiting <| sy_sub ::=
    answer_events SubscriptionExample.ok 0 (SubscriptionExample.page_of SubscriptionExample.waiting 9) 9 9 |>)).
Proof.
  apply (cut_page_is_skipped SubscriptionExample.by_topic SubscriptionExample.ok SubscriptionExample.waiting _ 9
    (SubscriptionExample.at_ledger 9 100) SubscriptionExample.last_event).
  - exact SubscriptionExample.waiting_sound.
  - reflexivity.
  - reflexivity.
  - reflexivity.
  - reflexivity.
  - vm_compute. by constructor.
  - reflexivity.
  - apply SubscriptionExample.not_among. vm_compute. reflexivity.
  - by apply not_elem_of_nil.
  - apply rtc_refl.
Defined.
Lemma all_proposals_are_read_witness :
  getProposalEvents SubscriptionExample.by_topic 9 SubscriptionExample.sparse 9 "CGOV" 6 =
  Some [mkSorobanEvent 7 "CGOV" ["ProposalCreated"] (VNum 2)].
Proof. apply (all_proposals_are_read SubscriptionExample.by_topic 9 SubscriptionExample.sparse 9 "CGOV" 6 SubscriptionExample.sparse_whole). vm_compute. lia. Defined.
