(* ===== verification/SdkClient.v ===== *)
(** * Clients of the SDK: the calls they share

    What the clients of [sdk/src] are made of.  A client builds a transaction with
    one contract call, has it simulated to read, or has it prepared, signed, sent
    and confirmed to write, and retries.  The RPC server and the clock are a record
    of calls on a state of its own; the Stellar library encodes and decodes values. *)

From S2P Require Import Prelude JsValues SdkErrors Effects ProposalBonds Server SdkTypes SdkEvents SdkSubscriptions.

(** ** The Stellar library *)

Record Account := mkAccount { ac_id : string; ac_sequence : Z }.
Record Call := mkCall { cl_contract : string; cl_function : string; cl_args : list ScVal }.
(** A transaction with one call, and one with its signatures. *)
Record Tx := mkTx { t_account : Account; t_call : Call }.
Record Envelope := mkEnvelope { en_tx : Tx; en_signers : list string }.
(** What a simulation answers: an error, or the fields the clients read. *)
Record SimulationResponse := mkSimulationResponse {
  sm_result : option ScVal; sm_result_cost : JsValue; sm_cost : JsValue; sm_minResourceFee : JsValue; sm_min_resource_fee : JsValue }.
Inductive Simulation := SimulationError (error : option string) | SimulationSuccess (response : SimulationResponse).

(** [nativeStruct] is [nativeToScVal] of an object with a type for each field,
    [nativeUntyped] without a type; [xdr_bytes] is [toXDR()]; [assemble] is
    [assembleTransaction(tx, simulation).build()]; [check_contract] is
    [new Contract(id)], which throws for what is no id; [response_status] is
    [error.response.status] of an error of the HTTP client. *)
Class Stellar := {
  stellar_codec :: Codec;
  scValToNative : ScVal → outcome JsValue;
  nativeStruct : list (string * (Encodable * string)) → outcome ScVal;
  nativeUntyped : JsValue → outcome ScVal;
  xdr_bytes : ScVal → bytes;
  assemble : Tx → SimulationResponse → Tx;
  check_contract : string → outcome unit;
  BASE_FEE : string;
  response_status : JsError → option Z }.

(** ** The RPC server *)

(** The answer to a sent transaction, with its text as JSON. *)
Record SendResult := mkSendResult { sd_status : string; sd_hash : string; sd_error : option string; sd_json : string }.
Inductive TxStatus := TxMissing | TxFailed | TxSuccess (returnValue : option ScVal).
(** A segment of a topic filter: the XDR of a value, or a bare text. *)
Inductive Segment := SegXdr (v : ScVal) | SegText (s : string).
Record EventsRequest := mkEventsRequest {
  er_startLedger : option Z; er_contractId : string; er_topics : list (list Segment); er_limit : Z }.
Record Rpc (S : Type) := mkRpc {
  rpc_getAccount : string → M S Account;
  rpc_simulate : Tx → M S Simulation;
  rpc_prepare : Tx → M S Tx;
  rpc_send : Envelope → M S SendResult;
  rpc_getTransaction : string → M S TxStatus;
  rpc_getLatestLedger : M S Z;
  rpc_getEvents : EventsRequest → M S (option (list RawEvent));
  rpc_sleep : Z → S → S;
  rpc_now : S → Z }.
Arguments mkRpc {S}.
Arguments rpc_getAccount {S}.
Arguments rpc_simulate {S}.
Arguments rpc_prepare {S}.
Arguments rpc_send {S}.
Arguments rpc_getTransaction {S}.
Arguments rpc_getLatestLedger {S}.
Arguments rpc_getEvents {S}.
Arguments rpc_sleep {S}.
Arguments rpc_now {S}.

Record GovernorConfig := mkGovernorConfig {
  gc_governorAddress : string; gc_timelockAddress : string; gc_votesAddress : string; gc_simulationAccount : option string;
  gc_indexerUrl : option string; gc_retry : ClientRetryConfig }.

(** ** Errors *)

(** [text.includes(needle)] *)
Fixpoint includes (needle text : string) : bool :=
  match strip_prefix needle text with
  | Some _ => true
  | None => match text with String _ text => includes needle text | EmptyString => false end
  end.
Definition message_of (e : JsError) : string :=
  match e with MockContractError _ text | SdkError _ _ text | PlainError text => text end.
Definition transient_texts : list string :=
  ["fetch"; "network"; "timeout"; "aborted"; "connection refused"; "econnrefused"; "500"; "502"; "503"; "504"].
Definition transient_message (e : JsError) : bool :=
  let msg := to_lower (message_of e) in existsb (λ t, includes t msg) transient_texts.
Definition isNetworkError `{!Stellar} (e : JsError) : bool :=
  transient_message e || match response_status e with Some status => (500 <=? status) && (status <? 600) | None => false end.
(** An error of [errors.ts], of the named class. *)
Definition typed (class : string) (e : TypedError) : JsError := SdkError class (err_code e) (err_message e).

(** ** Calls *)
Section calls.
Context `{!Stellar} {S : Type} (rpc : Rpc S).

(** [await getAccount(source)], then the arguments and the transaction. *)
Definition build (source contract fnName : string) (args : list (outcome ScVal)) : M S Tx :=
  account ← rpc_getAccount rpc source;
  args ← map_m from_outcome args;
  mret (mkTx account (mkCall contract fnName args)).
Definition simulate (source contract fnName : string) (args : list (outcome ScVal)) : M S Simulation :=
  tx ← build source contract fnName args; rpc_simulate rpc tx.
Definition to_native (raw : ScVal) : M S JsValue := from_outcome (scValToNative raw).
(** [raw ? parse(raw) : missing], with [failed] for an error of the simulation. *)
Definition read_value {A} (result : Simulation) (failed : option string → M S A) (missing : M S A) (parse : ScVal → M S A) : M S A :=
  match result with
  | SimulationError error => failed error
  | SimulationSuccess response => match sm_result response with Some raw => parse raw | None => missing end
  end.
(** The value a contract returns, or [other] when there is none. *)
Definition read_or {A} (source contract fnName : string) (args : list (outcome ScVal)) (other : A) (parse : JsValue → M S A) : M S A :=
  result ← simulate source contract fnName args;
  read_value result (λ _, mret other) (mret other) (λ raw, value ← to_native raw; parse value).
(** The same, with an error when there is none. *)
Definition undefined_text (o : option string) : string := default "undefined" o.
Definition read_required {A} (source contract fnName : string) (args : list (outcome ScVal)) (missing : string) (parse : JsValue → M S A) : M S A :=
  result ← simulate source contract fnName args;
  read_value result (λ error, throw (PlainError ("Simulation error: " +:+ undefined_text error))) (throw (PlainError missing))
    (λ raw, value ← to_native raw; parse value).

(** A key pair signs at once; a wallet is asked, and what it answers is decoded. *)
Definition Signing : Type := Tx → M S Envelope.
Definition keypair (publicKey : string) : Signing := λ tx, mret (mkEnvelope tx [publicKey]).
Definition submit_tx (sign : Signing) (tx : Tx) (rejected : SendResult → JsError) : M S SendResult :=
  prepared ← rpc_prepare rpc tx;
  signed ← sign prepared;
  result ← rpc_send rpc signed;
  throw_if (String.eqb (sd_status result) "ERROR") (rejected result);;
  mret result.
Definition submit (sign : Signing) (source contract fnName : string) (args : list (outcome ScVal)) (rejected : SendResult → JsError) : M S SendResult :=
  tx ← build source contract fnName args; submit_tx sign tx rejected.
(** [parseXError(result)] *)
Definition raw_of (result : SendResult) : RawError := RawObject (Some (sd_status result)) (sd_error result).

(** At most [retries] looks at a transaction, with a delay before each. *)
Section confirm.
Context (delay : Z) (look : string → M S TxStatus) (failed timeout : JsError).
Fixpoint await_confirmation (retries : nat) (hash : string) : M S (option ScVal) :=
  match retries with
  | O => throw timeout
  | Datatypes.S retries =>
    modify (rpc_sleep rpc delay);;
    status ← look hash;
    match status with
    | TxSuccess returnValue => mret returnValue
    | TxFailed => throw failed
    | TxMissing => await_confirmation retries hash
    end
  end.
End confirm.
End calls.

(** ** Sorting *)

(** [sort((a, b) => key(b) - key(a))], which is stable. *)
Section sorting.
Context {A : Type} (key : A → Z).
Fixpoint insert_desc (x : A) (l : list A) : list A :=
  match l with
  | [] => [x]
  | y :: l' => if key x <? key y then y :: insert_desc x l' else x :: l
  end.
Definition sort_desc (l : list A) : list A := foldr insert_desc [] l.
End sorting.

(** ** Values *)

(** [toBigInt] of the governor client: what is no number and no text is zero. *)
Definition native_toBigInt {S} (value : JsValue) : M S Z :=
  match value with VBig n | VNum n => mret n | VNaN | VStr _ => js_BigInt value | _ => mret 0 end.
(** [Number(v)]: no value of a contract has a fraction. *)
Definition numeric (v : JsValue) : Num := match js_Number v with VNum n => num n | _ => nan end.
(** [nativeToScVal(v, { type })] *)
Definition a_address `{!Stellar} (s : string) : outcome ScVal := nativeToScVal (EText s) "address".
Definition a_string `{!Stellar} (s : string) : outcome ScVal := nativeToScVal (EText s) "string".
Definition a_symbol `{!Stellar} (s : string) : outcome ScVal := nativeToScVal (EText s) "symbol".
Definition a_bytes `{!Stellar} (bs : bytes) : outcome ScVal := nativeToScVal (EBytes bs) "bytes".
Definition a_u32 `{!Stellar} (n : Z) : outcome ScVal := nativeToScVal (EInt n) "u32".
Definition a_u64 `{!Stellar} (n : Z) : outcome ScVal := nativeToScVal (EInt n) "u64".
Definition a_i128 `{!Stellar} (n : Z) : outcome ScVal := nativeToScVal (EInt n) "i128".
(** [xdr.ScVal.scvVec(items.map(f))] *)
Definition a_vec {A} (f : A → outcome ScVal) (items : list A) : outcome ScVal := o_map scvVec (o_list f items).

(** [xdr.ScVal.scvMap] of entries in the order given. *)
Definition a_map (entries : list (string * outcome ScVal)) : outcome ScVal :=
  o_map scvMap (o_list (λ '(key, val), o_map (pair key) val) entries).

(** ** Hexadecimal digits *)

(** [parseInt(text, 16)] of two characters: leading blanks are skipped, a sign or a
    digit may open, and what follows the digits is dropped; [None] is [NaN]. *)
Definition parse_pair (a b : Ascii.ascii) : option Z :=
  let digit c := Z.of_N <$> hex_value c in
  if is_blank a then digit b
  else if Ascii.eqb a (Ascii.ascii_of_N 43) then digit b
  else if Ascii.eqb a (Ascii.ascii_of_N 45) then Z.opp <$> digit b
  else
    high ← digit a;
    if (high =? 0) && (Ascii.eqb b (Ascii.ascii_of_N 120) || Ascii.eqb b (Ascii.ascii_of_N 88)) then None
    else match digit b with Some low => Some (16 * high + low) | None => Some high end.
(** An item of a [Uint8Array]. *)
Definition uint8 (n : Z) : byte := default x00 (Byte.of_N (Z.to_N (n mod 256))).
Fixpoint hex_pairs (position : Z) (s : string) : outcome bytes :=
  match s with
  | String a (String b s) =>
    match parse_pair a b with
    | Some n => o_map (cons (uint8 n)) (hex_pairs (position + 2) s)
    | None => Throw (PlainError ("Invalid hex character at position " +:+ decimal position))
    end
  | _ => Ok []
  end.
Definition hexToBytes32 (hex : string) : outcome bytes :=
  let clean := default hex (strip_prefix "0x" hex) in
  let length := Z.of_nat (String.length clean) in
  if negb (length =? 64) then
    Throw (PlainError ("Invalid hex length for BytesN<32>: expected 64 chars, got " +:+ decimal length))
  else hex_pairs 0 clean.

(** [JSON.parse]; [None] where it throws. *)
Class Json := JSON_parse : string → option JsValue.
