(* ===== verification/SdkVotes.v ===== *)
(** * The votes client of the SDK

    [sdk/src/votes.ts]: delegation, voting power, the registry of delegations, and
    the analytics that replay delegation events into a map kept by the caller. *)

From S2P Require Import Prelude JsValues SdkErrors Relayer Concentration Doubles Effects Server SdkTypes SdkEvents SdkSubscriptions SdkClient.

(** A [Map] of texts: delegator to delegatee. *)
Definition JsMap : Type := list (string * string).

Definition DEFAULT_SCAN_WINDOW : Z := 17280.

Record SplitDelegation := mkSplitDelegation { sp_delegatee : string; sp_weightBps : Num }.
Record TopDelegate := mkTopDelegate { td_address : string; td_votingPower : Z; td_baseVotes : Z; td_delegatorCount : Z }.
Record VotingPowerDistribution := mkDistribution {
  vd_totalDelegated : Z; vd_totalSupply : Z; vd_delegationRate : double; vd_giniCoefficient : double }.
Record DelegatorInfo := mkDelegatorInfo { di_delegator : string; di_power : Z }.
Record DelegateInfo := mkDelegateInfo { dl_address : string; dl_votes : Z; dl_percentOfSupply : double }.
Record VotesSettings := mkVotesSettings {
  vs_checkpointRetentionPeriod : JsValue; vs_timeWeightEnabled : JsValue; vs_timeWeightScale : JsValue }.
Record DelegatorRecord := mkDelegatorRecord { dr_balance : Z; dr_startLedger : JsValue }.
Record DelegationEntry := mkDelegationEntry {
  de_delegator : string; de_delegatee : string; de_delegatedAtLedger : Num; de_votingPowerAtDelegation : Z; de_active : bool;
  de_revokedAtLedger : option Num }.
Record DelegationHistoryEntry := mkDelegationHistoryEntry {
  dh_delegatee : string; dh_delegatedAtLedger : Num; dh_revokedAtLedger : option Num; dh_powerAtDelegation : Z; dh_sequence : Num }.
Record RegistryDelegatorInfo := mkRegistryDelegatorInfo {
  rd_address : string; rd_delegatedPower : Z; rd_delegatedAtLedger : Num; rd_chainDepth : Num }.
Record DelegateProfile := mkDelegateProfile {
  dp_address : string; dp_currentVotingPower : Z; dp_baseVotingPower : Z; dp_totalDelegators : Num; dp_totalDelegatedPower : Z;
  dp_delegationDepthLimit : Num; dp_firstDelegatedAtLedger : option Num }.

(** ** Pure helpers *)

(** [(2 * weightedSum) / (n * total) - (n + 1) / n] in doubles, the sums exact. *)
Fixpoint rank_sum (rank : Z) (sorted : list Z) (acc : Z) : Z :=
  match sorted with [] => acc | v :: sorted => rank_sum (rank + 1) sorted (acc + rank * v) end.
Definition computeGini (powers : list Z) : double :=
  match powers with
  | [] => of_int 0
  | _ =>
    let sorted := ascending powers in
    let n := Z.of_nat (length sorted) in
    let total := reduce_sum sorted in
    if total =? 0 then of_int 0
    else d_sub (d_div (d_mul (of_int 2) (of_int (rank_sum 1 sorted 0))) (d_mul (of_int n) (of_int total)))
           (d_div (of_int (n + 1)) (of_int n))
  end.
(** Delegatees in the order they are met, with the number of their delegators. *)
Definition count_delegator (byDelegate : list (string * Z)) (entry : string * string) : list (string * Z) :=
  jm_set entry.2 (default 0 (jm_get entry.2 byDelegate) + 1) byDelegate.
Definition group_by_delegate (delegationMap : JsMap) : list (string * Z) := foldl count_delegator [] delegationMap.

(** [Buffer.from(text, "utf8").toString("base64")] *)
Definition base64_char (n : N) : Ascii.ascii :=
  Ascii.ascii_of_N (if n <? 26 then n + 65 else if n <? 52 then n + 71 else if n <? 62 then n - 4 else if n =? 62 then 43 else 47)%N.
Definition pad : string := "=".
Fixpoint to_base64 (bs : bytes) : string :=
  match bs with
  | [] => ""
  | [a] =>
    let a := Byte.to_N a in
    String (base64_char (a / 4)) (String (base64_char (a mod 4 * 16)) (pad +:+ pad))
  | [a; b] =>
    let '(a, b) := (Byte.to_N a, Byte.to_N b) in
    String (base64_char (a / 4)) (String (base64_char (a mod 4 * 16 + b / 16)) (String (base64_char (b mod 16 * 4)) pad))
  | a :: b :: c :: bs =>
    let '(a, b, c) := (Byte.to_N a, Byte.to_N b, Byte.to_N c) in
    String (base64_char (a / 4)) (String (base64_char (a mod 4 * 16 + b / 16))
      (String (base64_char (b mod 16 * 4 + c / 64)) (String (base64_char (c mod 64)) (to_base64 bs))))
  end%N.
Definition cursor_payload (nextStartLedger : Z) : string := stringifyJson (VObj [("nextStartLedger", VNum nextStartLedger)]).
Definition encodeDelegationCursor (nextStartLedger : Z) : string := to_base64 (utf8 (cursor_payload nextStartLedger)).
Definition decodeDelegationCursor `{!Json} (cursor : string) : option Z :=
  parsed ← JSON_parse (buffer_text (from_base64 cursor));
  match (prop parsed "nextStartLedger" : M unit JsValue) tt with
  | (Ok value, _) => match js_Number value with VNum next => if 0 <? next then Some next else None | _ => None end
  | (Throw _, _) => None
  end.

(** What an event does to the map: a new delegatee, or none any more.  An event
    that cannot be read does nothing. *)
Definition delegation_change (event : RawEvent) : option (string * option string) :=
  symbol ← raw_topic event !! 0%nat ≫= id;
  delegator ← raw_topic event !! 1%nat ≫= id;
  match symbol with
  | VStr "del_chsh" =>
    data ← raw_value event;
    match (item data 1 : M unit JsValue) tt, delegator with
    | (Ok (VStr newDelegatee), _), VStr delegator => Some (delegator, Some newDelegatee)
    | _, _ => None
    end
  | VStr "del_revk" => match delegator with VStr delegator => Some (delegator, None) | _ => None end
  | _ => None
  end.
Definition apply_change (delegationMap : JsMap) (event : RawEvent) : JsMap :=
  match delegation_change event with
  | Some (delegator, Some delegatee) => jm_set delegator delegatee delegationMap
  | Some (delegator, None) => jm_delete delegator delegationMap
  | None => delegationMap
  end.
Definition max_ledger (cursorLedger : Z) (events : list RawEvent) : Z := foldl Z.max cursorLedger (raw_ledger <$> events).

Module VotesClient.
Section client.
Context `{!Stellar, !Json} {S : Type} (rpc : Rpc S) (config : GovernorConfig) (onRetry : Z → JsError → M S unit).

Definition votes : string := gc_votesAddress config.
Definition votes_error (c : VotesErrorCode.t) (message : string) : JsError := SdkError "VotesError" (VotesErrorCode.num c) message.
Definition defaults : RetryOptions := mkRetryOptions None None None (Some isNetworkError).
Definition retry {A} (fn : M S A) (retry_on : option (JsError → bool)) : M S A :=
  withRetry (createRetry (gc_retry config) defaults retry_on) fn onRetry (rpc_sleep rpc).
Definition isRetryableSubmissionError (e : JsError) : bool :=
  if isNetworkError e then true
  else match e with
       | SdkError "VotesError" code _ =>
         (100 <=? code) && negb (code =? VotesErrorCode.num VotesErrorCode.TransactionFailed) &&
         negb (code =? VotesErrorCode.num VotesErrorCode.DelegationFailed)
       | _ => false
       end.
Definition rejected (result : SendResult) : JsError := typed "VotesError" (parseVotesError (raw_of result)).
Definition readAccount (fallback : option string) : string := default (default votes fallback) (gc_simulationAccount config).

(** ** Submissions *)
Definition send (sign : Signing) (source fnName : string) (args : list (outcome ScVal)) : M S string :=
  retry (sd_hash <$> submit rpc sign source votes fnName args rejected) (Some isRetryableSubmissionError).
Definition undelegate (signer : string) : M S string := send (keypair signer) signer "undelegate" [a_address signer].
Definition revokeDelegation (signer : string) : M S string := undelegate signer.
Definition undelegateWithSign (signerPublicKey : string) (signUnsignedXdr : Signing) : M S string :=
  send signUnsignedXdr signerPublicKey "undelegate" [a_address signerPublicKey].
Definition delegate (signer delegatee : string) : M S string :=
  send (keypair signer) signer "delegate" [a_address signer; a_address delegatee].
Definition delegateWithSign (signerPublicKey delegatee : string) (signUnsignedXdr : Signing) : M S string :=
  send signUnsignedXdr signerPublicKey "delegate" [a_address signerPublicKey; a_address delegatee].
Definition transferAndDelegate (signer to : string) (amount : Z) (delegatee : string) : M S unit :=
  send (keypair signer) signer "transfer_and_delegate" [a_address signer; a_address to; a_i128 amount; a_address delegatee];;
  mret tt.
Definition splitDelegationToScVal (split : string * Z) : outcome ScVal :=
  nativeStruct [("delegatee", (EText split.1, "address")); ("weight_bps", (EInt split.2, "u32"))].
Definition delegateSplit (signer : string) (splits : list (string * Z)) : M S string :=
  send (keypair signer) signer "delegate_split" [a_address signer; a_vec splitDelegationToScVal splits].
Definition delegateSplitWithSign (signerPublicKey : string) (splits : list (string * Z)) (signUnsignedXdr : Signing) : M S string :=
  send signUnsignedXdr signerPublicKey "delegate_split" [a_address signerPublicKey; a_vec splitDelegationToScVal splits].
Definition undelegateSplit (signer : string) : M S string := send (keypair signer) signer "undelegate_split" [a_address signer].
Definition undelegateSplitWithSign (signerPublicKey : string) (signUnsignedXdr : Signing) : M S string :=
  send signUnsignedXdr signerPublicKey "undelegate_split" [a_address signerPublicKey].
Definition setDelegationDepthLimit (signer : string) (newLimit : Z) : M S string :=
  send (keypair signer) signer "set_delegation_depth_limit" [a_address signer; a_u32 newLimit].
(** These two do not retry. *)
Definition setTimeWeightEnabled (signer : string) (enabled : bool) : M S unit :=
  submit rpc (keypair signer) signer votes "set_time_weight_enabled" [nativeUntyped (VBool enabled)] rejected;; mret tt.
Definition setTimeWeightScale (signer : string) (scale : Z) : M S unit :=
  submit rpc (keypair signer) signer votes "set_time_weight_scale" [a_u32 scale] rejected;; mret tt.

(** ** Power *)
Definition amount (source fnName : string) (args : list (outcome ScVal)) : M S Z := read_or rpc source votes fnName args 0 js_BigInt.
Definition getVotes (account : string) : M S Z :=
  retry (amount (readAccount (Some account)) "get_votes" [a_address account]) None.
Definition getPastVotes (account : string) (ledger : Z) : M S Z :=
  retry (amount (readAccount (Some account)) "get_past_votes" [a_address account; a_u32 ledger]) None.
Definition getBaseVotes (account : string) : M S Z := amount (readAccount (Some account)) "get_base_votes" [a_address account].
Definition getPastBaseVotes (account : string) (ledger : Z) : M S Z :=
  amount (readAccount (Some account)) "get_past_base_votes" [a_address account; a_u32 ledger].
Definition getDelegatee (account : string) : M S JsValue :=
  retry (read_or rpc (readAccount (Some account)) votes "delegates" [a_address account] VNull mret) None.
Definition getTotalSupply : M S Z := retry (amount (readAccount None) "total_supply" []) None.
Definition getPastTotalSupply (ledger : Z) : M S Z :=
  retry (amount (readAccount None) "get_past_total_supply" [a_u32 ledger]) None.
Definition setting (fnName : string) : M S Simulation := simulate rpc (readAccount None) votes fnName [].
(** [result!.retval] *)
Definition setting_value (result : Simulation) (failure : string) : M S (option ScVal) :=
  match result with
  | SimulationError _ => throw (votes_error VotesErrorCode.SimulationFailed failure)
  | SimulationSuccess response => mret (sm_result response)
  end.
Definition native_setting (raw : option ScVal) : M S JsValue :=
  raw ← unwrap raw (TypeError "Cannot read properties of undefined"); to_native raw.
Definition getVotesSettings : M S VotesSettings :=
  retentionResult ← setting "checkpoint_retention_period";
  enabledResult ← setting "time_weight_enabled";
  scaleResult ← setting "time_weight_scale";
  retention ← setting_value retentionResult "Failed to get checkpoint retention period";
  enabled ← setting_value enabledResult "Failed to get time weight enabled";
  scale ← setting_value scaleResult "Failed to get time weight scale";
  retention ← native_setting retention; enabled ← native_setting enabled; scale ← native_setting scale;
  mret (mkVotesSettings retention enabled scale).
Definition getDelegatorRecord (account : string) : M S (option DelegatorRecord) :=
  read_or rpc (readAccount (Some account)) votes "get_delegator_record" [a_address account] None (λ native,
    balance ← prop native "balance"; balance ← js_BigInt balance; startLedger ← prop native "start_ledger";
    mret (Some (mkDelegatorRecord balance startLedger))).

(** ** The registry of delegations *)
(** The arguments are encoded before the first attempt. *)
Definition simulateRead {A} (method : string) (args : list (outcome ScVal)) (parse : JsValue → M S A) (defaultValue : A) : M S A :=
  args ← map_m from_outcome args;
  retry (read_or rpc (readAccount None) votes method (Ok <$> args) defaultValue parse) None.
(** [scValToNative(raw).map(parse)] *)
Definition each {A} (parse : JsValue → M S A) (value : JsValue) : M S (list A) :=
  match value with VArr l => map_m parse l | _ => throw (TypeError "map is not a function") end.
Definition parseSplitDelegation (native : JsValue) : M S SplitDelegation :=
  delegatee ← prop native "delegatee"; weight ← prop native "weight_bps";
  mret (mkSplitDelegation (js_String delegatee) (numeric weight)).
Definition optional_number (v : JsValue) : option Num := if nullish v then None else Some (numeric v).
Definition parseDelegationEntry (native : JsValue) : M S DelegationEntry :=
  delegator ← prop native "delegator"; delegatee ← prop native "delegatee"; at_ledger ← prop native "delegated_at_ledger";
  power ← prop native "voting_power_at_delegation"; power ← js_BigInt power;
  active ← prop native "active"; revoked ← prop native "revoked_at_ledger";
  mret (mkDelegationEntry (js_String delegator) (js_String delegatee) (numeric at_ledger) power (truthy active) (optional_number revoked)).
Definition parseDelegationHistoryEntry (native : JsValue) : M S DelegationHistoryEntry :=
  delegatee ← prop native "delegatee"; at_ledger ← prop native "delegated_at_ledger"; revoked ← prop native "revoked_at_ledger";
  power ← prop native "power_at_delegation"; power ← js_BigInt power; sequence ← prop native "sequence";
  mret (mkDelegationHistoryEntry (js_String delegatee) (numeric at_ledger) (optional_number revoked) power (numeric sequence)).
Definition parseRegistryDelegatorInfo (native : JsValue) : M S RegistryDelegatorInfo :=
  address ← prop native "address"; power ← prop native "delegated_power"; power ← js_BigInt power;
  at_ledger ← prop native "delegated_at_ledger"; depth ← prop native "chain_depth";
  mret (mkRegistryDelegatorInfo (js_String address) power (numeric at_ledger) (numeric depth)).
Definition parseDelegateProfile (native : JsValue) : M S DelegateProfile :=
  address ← prop native "address";
  current ← prop native "current_voting_power"; current ← js_BigInt current;
  base ← prop native "base_voting_power"; base ← js_BigInt base;
  delegators ← prop native "total_delegators";
  power ← prop native "total_delegated_power"; power ← js_BigInt power;
  limit ← prop native "delegation_depth_limit"; first ← prop native "first_delegated_at_ledger";
  mret (mkDelegateProfile (js_String address) current base (numeric delegators) power (numeric limit) (optional_number first)).

Definition getSplitDelegations (delegator : string) : M S (list SplitDelegation) :=
  simulateRead "get_split_delegations" [a_address delegator] (each parseSplitDelegation) [].
Definition getDelegationHistory (delegator : string) : M S (list DelegationHistoryEntry) :=
  simulateRead "get_delegation_history" [a_address delegator] (each parseDelegationHistoryEntry) [].
Definition getRegistryDelegators (delegatee : string) (offset limit : Z) : M S (list RegistryDelegatorInfo) :=
  simulateRead "get_delegators" [a_address delegatee; a_u32 offset; a_u32 limit] (each parseRegistryDelegatorInfo) [].
Definition getDelegatorCount (delegatee : string) : M S Num :=
  simulateRead "get_delegator_count" [a_address delegatee] (λ v, mret (numeric v)) (num 0).
Definition getDelegationChain (delegator : string) : M S JsValue :=
  simulateRead "get_delegation_chain" [a_address delegator] mret (VArr []).
Definition getChainDepth (delegator : string) : M S Num :=
  simulateRead "get_chain_depth" [a_address delegator] (λ v, mret (numeric v)) (num 0).
Definition getDelegateProfile (address : string) : M S DelegateProfile :=
  simulateRead "get_delegate_profile" [a_address address] parseDelegateProfile
    (mkDelegateProfile address 0 0 (num 0) 0 (num 1) None).
Definition getReceivedDelegations (delegatee : string) (offset limit : Z) : M S (list DelegationEntry) :=
  simulateRead "get_received_delegations" [a_address delegatee; a_u32 offset; a_u32 limit] (each parseDelegationEntry) [].
Definition wouldCreateCycle (delegator delegatee : string) : M S bool :=
  simulateRead "would_create_cycle" [a_address delegator; a_address delegatee] (λ v, mret (truthy v)) false.
Definition getDelegationSnapshot (delegatee : string) (atLedger offset limit : Z) : M S (list RegistryDelegatorInfo) :=
  simulateRead "get_delegation_snapshot" [a_address delegatee; a_u32 atLedger; a_u32 offset; a_u32 limit]
    (each parseRegistryDelegatorInfo) [].
Definition getDelegationDepthLimit : M S Num :=
  simulateRead "get_delegation_depth_limit" [] (λ v, mret (numeric v)) (num 1).

(** ** The map of delegations *)

(** A call of the RPC beside the map. *)
Definition on_rpc {A} (m : M S A) : M (S * JsMap) A := zoom fst (λ s p, (s, p.2)) m.
Definition topicFilter : list Segment := [SegXdr (scvSymbol "del_chsh"); SegXdr (scvSymbol "del_revk")].
Definition events_from (cursorLedger limit : Z) : EventsRequest := mkEventsRequest (Some cursorLedger) votes [topicFilter] limit.
(** The most events the next request may bring. *)
Definition page_limit (scanCap : option Z) (scanned : Z) : Z :=
  match scanCap with None => 100 | Some cap => Z.max 1 (Z.min 100 (cap - scanned)) end.
Definition below_cap (scanCap : option Z) (scanned : Z) : bool := match scanCap with None => true | Some cap => scanned <? cap end.
(** How a scan ends: short of fuel, or with the ledger to go on from. *)
Inductive Scan := OutOfFuel | Scanned (next : option Z).
Fixpoint scan (fuel : nat) (latest : Z) (scanCap : option Z) (cursorLedger scanned : Z) : M (S * JsMap) Scan :=
  if (cursorLedger <=? latest) && below_cap scanCap scanned then
    match fuel with
    | O => mret OutOfFuel
    | Datatypes.S fuel =>
      response ← on_rpc (retry (rpc_getEvents rpc (events_from cursorLedger (page_limit scanCap scanned))) None);
      match default [] response with
      | [] => mret (Scanned None)
      | events =>
        modify (λ p, (p.1, foldl apply_change p.2 events));;
        scan fuel latest scanCap (max_ledger cursorLedger events + 1) (scanned + Z.of_nat (length events))
      end
    end
  else mret (Scanned (if latest <? cursorLedger then None else Some cursorLedger)).
Definition scan_failure (e : JsError) : JsError :=
  votes_error VotesErrorCode.EventScanFailed ("Failed to scan delegation events: " +:+ message_of e).
Record ScanOptions := mkScanOptions { sn_fromLedger : option Z; sn_cursor : option string; sn_maxEventsToScan : option Z }.
Definition first_ledger (options : ScanOptions) : option Z :=
  match sn_cursor options with
  | None | Some EmptyString => sn_fromLedger options
  | Some cursor => match decodeDelegationCursor cursor with Some decoded => Some decoded | None => sn_fromLedger options end
  end.
Definition buildDelegationMapIncremental (fuel : nat) (options : ScanOptions) : M (S * JsMap) Scan :=
  startLedger ← match first_ledger options with
                | Some ledger => mret ledger
                | None => (λ sequence, Z.max 1 (sequence - DEFAULT_SCAN_WINDOW)) <$> on_rpc (retry (rpc_getLatestLedger rpc) None)
                end;
  try_catch (latest ← on_rpc (rpc_getLatestLedger rpc); scan fuel latest (Z.max 0 <$> sn_maxEventsToScan options) startLedger 0)
    (λ e, throw (scan_failure e)).
(** A fresh map, which only the caller sees. *)
Definition fresh_map {A} (m : M (S * JsMap) A) : M S (A * JsMap) := λ s,
  let '(o, (s, delegationMap)) := m (s, []) in (match o with Ok a => Ok (a, delegationMap) | Throw e => Throw e end, s).
Definition buildDelegationMap (fuel : nat) (fromLedger : option Z) : M S (Scan * JsMap) :=
  fresh_map (buildDelegationMapIncremental fuel (mkScanOptions fromLedger None None)).

(** ** Analytics *)
Record TopDelegatesOptions := mkTopDelegatesOptions { to_limit : option Z; to_offset : option Z; to_scan : ScanOptions }.
(** The requests of a batch run side by side; here one after the other. *)
Definition powers_of (byDelegate : list (string * Z)) : M S (list TopDelegate) :=
  map_m (λ entry, votingPower ← getVotes entry.1; baseVotes ← getBaseVotes entry.1;
                  mret (mkTopDelegate entry.1 votingPower baseVotes entry.2)) byDelegate.
Definition rank_delegates (limit offset : Z) (powerEntries : list TopDelegate) : list TopDelegate :=
  js_slice (sort_desc td_votingPower (List.filter (λ d, 0 <? td_votingPower d) powerEntries)) offset (offset + limit).
(** The options' map is the second part of the state. *)
Definition getTopDelegates (fuel : nat) (options : TopDelegatesOptions) : M (S * JsMap) (list TopDelegate * Scan) :=
  let limit := Z.max 1 (Z.min (default 50 (to_limit options)) 100) in
  let offset := Z.max 0 (default 0 (to_offset options)) in
  end_of_scan ← buildDelegationMapIncremental fuel (to_scan options);
  delegationMap ← gets snd;
  match delegationMap with
  | [] => mret ([], end_of_scan)
  | _ =>
    powerEntries ← on_rpc (powers_of (group_by_delegate delegationMap));
    mret (rank_delegates limit offset powerEntries, end_of_scan)
  end.
(** The form with a limit and a ledger. *)
Definition getTopDelegates_legacy (fuel : nat) (limit : Z) (fromLedger : option Z) : M S (list TopDelegate) :=
  result ← fresh_map (getTopDelegates fuel (mkTopDelegatesOptions (Some limit) None (mkScanOptions fromLedger None None)));
  mret result.1.1.
Definition getVotingPowerDistribution (fuel : nat) (fromLedger : option Z) : M S VotingPowerDistribution :=
  scanned ← buildDelegationMap fuel fromLedger;
  totalSupply ← getTotalSupply;
  match scanned.2 with
  | [] => mret (mkDistribution 0 totalSupply (of_int 0) (of_int 0))
  | delegationMap =>
    powers ← map_m (λ entry, getVotes entry.1) (group_by_delegate delegationMap);
    let activePowers := List.filter (λ p, 0 <? p) powers in
    let totalDelegated := reduce_sum activePowers in
    mret (mkDistribution totalDelegated totalSupply
      (if 0 <? totalSupply then d_div (of_int totalDelegated) (of_int totalSupply) else of_int 0) (computeGini activePowers))
  end.
Definition getDelegators (fuel : nat) (delegateAddress : string) (fromLedger : option Z) : M S (list DelegatorInfo) :=
  scanned ← buildDelegationMap fuel fromLedger;
  let delegators := (List.filter (λ entry, String.eqb entry.2 delegateAddress) scanned.2).*1 in
  results ← map_m (λ delegator, mkDelegatorInfo delegator <$> getVotes delegator) delegators;
  mret (sort_desc di_power (List.filter (λ d, 0 <? di_power d) results)).
Definition getTopDelegatesByAddresses (addresses : list string) (limit : Z) : M S (list DelegateInfo) :=
  totalSupply ← getTotalSupply;
  if totalSupply =? 0 then mret []
  else
    delegates ← map_m (λ address, votes ← getVotes address;
      mret (mkDelegateInfo address votes
        (if 0 <? totalSupply then d_div (of_int (to_number (votes * 10000 ÷ᵇ totalSupply))) (of_int 100) else of_int 0))) addresses;
    mret (js_slice (sort_desc dl_votes (List.filter (λ d, 0 <? dl_votes d) delegates)) 0 limit).
End client.
End VotesClient.
