(* ===== verification/SdkTimelock.v ===== *)
(** * The timelock client of the SDK

    [sdk/src/timelock.ts]: scheduling, execution, cancellation and recovery of
    batches, and the queries.  Operation ids are texts of hexadecimal digits. *)

From S2P Require Import Prelude JsValues SdkErrors Effects Server SdkTypes SdkEvents SdkSubscriptions SdkClient.

Record FailedOperation := mkFailedOperation {
  fo_opId : string; fo_target : string; fo_fnName : string; fo_data : string; fo_failureReason : string; fo_failedAtLedger : Num;
  fo_retryCount : Num }.
Record PartialBatchExecutionState := mkPartialBatch {
  pb_batchOpId : string; pb_totalOps : Num; pb_completedOps : list string; pb_failedOps : list FailedOperation;
  pb_pendingOps : list string; pb_recoveryMode : bool; pb_recoveryDeadline : Num }.
Record DependencyEdge := mkEdge { ed_from : string; ed_to : string }.
Record DependencyGraph := mkGraph { dg_nodes : list string; dg_edges : list DependencyEdge }.
Record DagCheck := mkDagCheck { dc_valid : JsValue; dc_cyclePath : option JsValue }.

(** [(v ?? []).map(f)] *)
Definition map_items {S A} (f : JsValue → M S A) (v : JsValue) : M S (list A) :=
  match v ?? VArr [] with VArr l => map_m f l | _ => throw (TypeError "map is not a function") end.
Definition mapFailedOp {S} (raw : JsValue) : M S FailedOperation :=
  opId ← prop raw "op_id"; opId ← buffer_hex opId; target ← prop raw "target"; fnName ← prop raw "fn_name";
  data ← prop raw "data"; data ← buffer_hex data; reason ← prop raw "failure_reason"; at_ledger ← prop raw "failed_at_ledger";
  count ← prop raw "retry_count";
  mret (mkFailedOperation opId (js_String target) (js_String fnName) data (js_String reason) (numeric at_ledger) (numeric count)).
Definition mapPartialBatchState {S} (raw : JsValue) : M S PartialBatchExecutionState :=
  batchOpId ← prop raw "batch_op_id"; batchOpId ← buffer_hex batchOpId; total ← prop raw "total_ops";
  completed ← prop raw "completed_ops"; completed ← map_items buffer_hex completed;
  failed ← prop raw "failed_ops"; failed ← map_items mapFailedOp failed;
  pending ← prop raw "pending_ops"; pending ← map_items buffer_hex pending;
  mode ← prop raw "recovery_mode"; deadline ← prop raw "recovery_deadline";
  mret (mkPartialBatch batchOpId (numeric total) completed failed pending (truthy mode) (numeric deadline)).
Definition mapDependencyGraph {S} (raw : JsValue) : M S DependencyGraph :=
  nodes ← prop raw "nodes"; nodes ← map_items buffer_hex nodes;
  edges ← prop raw "edges";
  edges ← map_items (λ e, from ← prop e "from"; from ← buffer_hex from; to ← prop e "to"; to ← buffer_hex to; mret (mkEdge from to)) edges;
  mret (mkGraph nodes edges).

(** The third argument of [schedule]: a function name, or the delay alone. *)
Inductive NameOrDelay := FnName (fnName : string) | LegacyDelay (delay : Z).

Module TimelockClient.
Section client.
Context `{!Stellar} {S : Type} (rpc : Rpc S) (config : GovernorConfig) (onRetry : Z → JsError → M S unit).

Definition timelock : string := gc_timelockAddress config.
Definition timelock_error (c : TimelockErrorCode.t) (message : string) : JsError := SdkError "TimelockError" (TimelockErrorCode.num c) message.
Definition defaults : RetryOptions := mkRetryOptions None None None (Some isNetworkError).
Definition retry {A} (fn : M S A) (retry_on : option (JsError → bool)) : M S A :=
  withRetry (createRetry (gc_retry config) defaults retry_on) fn onRetry (rpc_sleep rpc).
Definition isRetryableSubmissionError (e : JsError) : bool :=
  if isNetworkError e then true
  else match e with
       | SdkError "TimelockError" code _ =>
         (100 <=? code) && negb (code =? TimelockErrorCode.num TimelockErrorCode.TransactionFailed) &&
         negb (code =? TimelockErrorCode.num TimelockErrorCode.MissingReturnValue)
       | _ => false
       end.
Definition rejected (result : SendResult) : JsError := typed "TimelockError" (parseTimelockError (raw_of result)).
Definition readAccount : string := default timelock (gc_simulationAccount config).
Definition failed (hash : string) : JsError := timelock_error TimelockErrorCode.TransactionFailed ("Transaction failed: " +:+ hash).
Definition unconfirmed : JsError := timelock_error TimelockErrorCode.TransactionTimeout "Transaction not confirmed after 10 retries".
Definition pollForConfirmation (hash : string) : M S (option ScVal) :=
  await_confirmation rpc 2000 (λ hash, retry (rpc_getTransaction rpc hash) None) (failed hash) unconfirmed 10 hash.

(** ** Submissions *)
Definition op (opId : string) : outcome ScVal := a_bytes (of_hex opId).
Definition confirmed {A} (signer fnName : string) (args : list (outcome ScVal)) (rejected : SendResult → JsError)
    (finish : option ScVal → M S A) : M S A :=
  retry (result ← submit rpc (keypair signer) signer timelock fnName args rejected;
         returnVal ← pollForConfirmation (sd_hash result); finish returnVal) (Some isRetryableSubmissionError).
Definition no_value (_ : option ScVal) : M S unit := mret tt.
(** The returned bytes in hexadecimal. *)
Definition op_id (missing : JsError) (returnVal : option ScVal) : M S string :=
  raw ← unwrap returnVal missing; value ← to_native raw; buffer_hex value.
Definition missing_value (fnName : string) : JsError :=
  timelock_error TimelockErrorCode.MissingReturnValue ("No return value from " +:+ fnName).
Definition schedule (signer target : string) (data : bytes) (fnNameOrDelay : NameOrDelay) (delayArg : option Z) : M S string :=
  let fnName := match fnNameOrDelay with FnName name => name | LegacyDelay _ => "execute" end in
  let delay := match fnNameOrDelay with LegacyDelay delay => Some delay | FnName _ => delayArg end in
  delay ← unwrap delay (timelock_error TimelockErrorCode.MissingReturnValue "schedule requires a delay");
  confirmed signer "schedule" [a_address signer; a_address target; a_bytes data; a_symbol fnName; a_u64 delay] rejected
    (op_id (missing_value "schedule")).
Definition scheduleBatch (signer : string) (targets : list string) (data : list bytes) (fnNames : list string) (delay : Z)
    (predecessor salt : bytes) : M S string :=
  retry (
    throw_if (length targets =? 0)%nat (PlainError "scheduleBatch requires at least one operation");;
    throw_if (negb (length data =? length targets)%nat || negb (length fnNames =? length targets)%nat)
      (PlainError "scheduleBatch: targets, data, and fnNames must have equal length");;
    result ← submit rpc (keypair signer) signer timelock "schedule_batch"
      [a_address signer; a_vec a_address targets; a_vec a_bytes data; a_vec a_symbol fnNames; a_u64 delay; a_bytes predecessor; a_bytes salt]
      (λ result, PlainError ("scheduleBatch failed: " +:+ sd_json result));
    returnVal ← pollForConfirmation (sd_hash result);
    op_id (PlainError "scheduleBatch: missing return value") returnVal) (Some isRetryableSubmissionError).
Definition executeBatch (signer batchOpId : string) : M S unit :=
  confirmed signer "execute_batch" [a_address signer; op batchOpId] rejected no_value.
Definition execute (signer opId : string) : M S unit := confirmed signer "execute" [a_address signer; op opId] rejected no_value.
Definition cancel (signer opId : string) : M S unit := confirmed signer "cancel" [a_address signer; op opId] rejected no_value.
Definition scheduleWithDeps (signer target : string) (data : bytes) (fnName : string) (delay : Z) (predecessors : list bytes)
    (salt : bytes) : M S string :=
  confirmed signer "schedule_with_deps"
    [a_address signer; a_address target; a_bytes data; a_symbol fnName; a_u64 delay; a_vec a_bytes predecessors; a_bytes salt] rejected
    (op_id (missing_value "schedule_with_deps")).
Definition executePartialBatch (signer batchOpId : string) : M S PartialBatchExecutionState :=
  confirmed signer "execute_batch_partial" [a_address signer; op batchOpId] rejected
    (λ returnVal, raw ← unwrap returnVal (missing_value "execute_batch_partial"); value ← to_native raw; mapPartialBatchState value).
Definition retryFailedOperation (signer batchOpId opId : string) : M S unit :=
  confirmed signer "retry_failed_operation" [a_address signer; op batchOpId; op opId] rejected no_value.
Definition skipFailedOperation (signer batchOpId opId : string) : M S unit :=
  confirmed signer "skip_failed_operation" [a_address signer; op batchOpId; op opId] rejected no_value.

(** ** Queries *)
Definition read {A} (fnName : string) (args : list (outcome ScVal)) (other : A) (parse : JsValue → M S A) : M S A :=
  retry (read_or rpc readAccount timelock fnName args other parse) None.
Definition isReady (opId : string) : M S JsValue := read "is_ready" [op opId] (VBool false) mret.
Definition isPending (opId : string) : M S JsValue := read "is_pending" [op opId] (VBool false) mret.
Definition minDelay : M S Z := read "min_delay" [] 0 js_BigInt.
(** Without retries. *)
Definition executionWindow : M S Z := read_or rpc readAccount timelock "execution_window" [] 0 js_BigInt.
Definition allPredecessorsDone (opId : string) : M S JsValue := read "all_predecessors_done" [op opId] (VBool false) mret.
Definition getBatchDependencyGraph (batchOpId : string) : M S (option DependencyGraph) :=
  read "get_batch_dependency_graph" [op batchOpId] None (λ value, Some <$> mapDependencyGraph value).
(** [native.cycle_path?.map((bytes) => Buffer.from(bytes))] *)
Definition cycle_path (native : JsValue) : M S (option JsValue) :=
  path ← prop native "cycle_path";
  if nullish path then mret None
  else match path with VArr l => mret (Some (VArr l)) | _ => throw (TypeError "map is not a function") end.
Definition validateDependencyDag (opIds : list bytes) : M S DagCheck :=
  read "validate_dependency_dag" [a_vec a_bytes opIds] (mkDagCheck (VBool false) None) (λ native,
    valid ← prop native "valid"; path ← cycle_path native; mret (mkDagCheck valid path)).
Definition getPartialBatchState (batchOpId : string) : M S (option PartialBatchExecutionState) :=
  read "get_partial_batch_state" [op batchOpId] None (λ value, Some <$> mapPartialBatchState value).
End client.
End TimelockClient.
