(* ===== verification/SdkGovernor.v ===== *)
(** * The governor client of the SDK

    [sdk/src/governor/]: [governor-client.ts] with [proposals.ts], [voting.ts],
    [queries.ts], [events.ts], [execution.ts] and [commitReveal.ts], which take the
    client as their first argument. *)

From S2P Require Import Prelude JsValues Merkle SdkErrors Doubles Effects Server SdkEvents SdkSubscriptions ContractEvents.
From S2P Require Import SdkClient SdkTimelock SdkTypes.

#[export] Instance sdk_state_eq_dec : EqDecision ProposalState.
Proof. solve_decision. Defined.

(** The answer of a web server, with the body as JSON. *)
Record HttpAnswer := mkHttpAnswer { ha_ok : bool; ha_status : Z; ha_statusText : string; ha_json : outcome JsValue }.

Record SdkProposal := mkSdkProposal {
  sp_id : Z; sp_proposer : string; sp_description : string; sp_startLedger : Num; sp_endLedger : Num; sp_votesFor : Z;
  sp_votesAgainst : Z; sp_votesAbstain : Z; sp_executed : bool; sp_cancelled : bool }.
Record ProposalVotes := mkProposalVotes { pv_votesFor : Z; pv_votesAgainst : Z; pv_votesAbstain : Z }.
(** The settings as they are read: numbers may be [NaN]. *)
Record SettingsRead := mkSettingsRead {
  sg_votingDelay : Num; sg_votingPeriod : Num; sg_quorumNumerator : Num; sg_proposalThreshold : Z; sg_guardian : string;
  sg_voteType : VoteType; sg_proposalGracePeriod : Num; sg_useDynamicQuorum : bool; sg_reflectorOracle : option string;
  sg_minQuorumUsd : Z; sg_maxCalldataSize : Num; sg_proposalCooldown : Num; sg_maxProposalsPerPeriod : Num;
  sg_proposalPeriodDuration : Num; sg_useCommitReveal : bool; sg_commitPhaseFraction : Num }.
Record Estimate := mkEstimate {
  es_ok : bool; es_error : option string; es_cpuInsns : JsValue; es_memBytes : JsValue; es_estimatedFeeStroops : option string }.
Record CanProposeResult := mkCanPropose {
  cp_allowed : bool; cp_reason : string; cp_cooldownEndsAt : option Num; cp_proposalsThisPeriod : Num; cp_maxPerPeriod : Num;
  cp_votingPower : Z; cp_threshold : Z }.
Record VotingHistoryEntry := mkHistoryEntry { vh_proposalId : Z; vh_support : JsValue; vh_weight : Z; vh_reason : JsValue; vh_ledger : Num }.
Record VoteByAddress := mkVoteByAddress { va_proposalId : Z; va_support : VoteSupport; va_weight : Z; va_ledger : Z }.
Record Receipt := mkReceipt { rc_hasVoted : JsValue; rc_support : VoteSupport; rc_weight : Z; rc_reason : JsValue }.
Record TimelockInfo := mkTimelockInfo {
  ti_queueLedger : number; ti_vetoWindowEndLedger : number; ti_executableAtLedger : number; ti_executionDeadlineLedger : number }.
Record ProposalAction := mkProposalAction { ca_target : string; ca_function : string; ca_args : list JsValue }.
Record ProposalSimulation := mkProposalSimulation { si_success : bool; si_computeUnits : option Num; si_error : option string }.
Record ExecutionGasEstimate := mkExecutionGas {
  xg_proposalId : Z; xg_actionCount : Num; xg_calldataBytes : Num; xg_estimatedCpuInsns : Z; xg_estimatedMemBytes : Z;
  xg_estimatedFeeStroops : Z; xg_rpcCpuInsns : option Z; xg_rpcMemBytes : option Z }.
Record GuardianActivity := mkGuardianActivity { ga_proposalId : Z; ga_canceller : string; ga_ledger : Z }.
Record CommitVoteParams := mkCommitVoteParams { cm_proposalId : Z; cm_support : VoteSupport; cm_weightSeed : option Z; cm_salt : option bytes }.
Record CommitmentResult := mkCommitment { cr_commitment : bytes; cr_salt : bytes; cr_weightSeed : Z }.
Inductive CommitPhase := CommitPhase_commit | CommitPhase_reveal | CommitPhase_ended.
Record CommitRevealStatus := mkCommitRevealStatus {
  cs_phase : CommitPhase; cs_commitDeadline : Num; cs_revealDeadline : Num; cs_commitCount : Num; cs_revealCount : Num }.
Record CalldataProposal := mkCalldataProposal { ud_target : string; ud_fnName : string; ud_calldata : bytes }.
(** A result or the error in its place. *)
Inductive Settled (A : Type) := Fulfilled (a : A) | Rejected (e : JsError).
Arguments Fulfilled {A}.
Arguments Rejected {A}.

Definition support_name (support : VoteSupport) : string := match support with Against => "Against" | For => "For" | Abstain => "Abstain" end.
Definition support_vec (support : VoteSupport) : outcome ScVal := Ok (scvVec [scvSymbol (support_name support)]).
Definition state_name (st : ProposalState) : string :=
  match st with
  | Pending => "Pending" | Active => "Active" | Defeated => "Defeated" | Succeeded => "Succeeded" | Queued => "Queued"
  | Executed => "Executed" | Cancelled => "Cancelled" | Expired => "Expired"
  end.
Definition all_states : list ProposalState := [Pending; Active; Defeated; Succeeded; Queued; Executed; Cancelled; Expired].
Definition vote_type_name (v : VoteType) : string := match v with Simple => "Simple" | Extended => "Extended" | Quadratic => "Quadratic" end.

(** ** Reading values *)

(** [v?.k] *)
Definition maybe_prop {S} (v : JsValue) (k : string) : M S JsValue := if nullish v then mret VUndefined else prop v k.
(** Names every object has are left out. *)
Definition decodeProposalState {S} (native : JsValue) : M S ProposalState :=
  match native with
  | VArr (variant :: _) =>
    unwrap (find (λ st, String.eqb (state_name st) (js_String variant)) all_states)
      (PlainError ("Unknown proposal state: " +:+ js_String variant))
  | _ => throw (PlainError "Invalid ScVal format for ProposalState enum")
  end.
Definition pick {S} (native : JsValue) (camel snake : string) (fallback : JsValue) : M S JsValue :=
  a ← prop native camel;
  if negb (is_undefined a) then mret a
  else b ← prop native snake; mret (if negb (is_undefined b) then b else fallback).
Definition mapProposalNative {S} (native : JsValue) : M S SdkProposal :=
  id ← pick native "id" "id" (VNum 0); id ← native_toBigInt id;
  proposer ← pick native "proposer" "proposer" (VStr "");
  description ← pick native "description" "description" (VStr "");
  startLedger ← pick native "startLedger" "start_ledger" (VNum 0);
  endLedger ← pick native "endLedger" "end_ledger" (VNum 0);
  votesFor ← pick native "votesFor" "votes_for" (VNum 0); votesFor ← native_toBigInt votesFor;
  votesAgainst ← pick native "votesAgainst" "votes_against" (VNum 0); votesAgainst ← native_toBigInt votesAgainst;
  votesAbstain ← pick native "votesAbstain" "votes_abstain" (VNum 0); votesAbstain ← native_toBigInt votesAbstain;
  executed ← pick native "executed" "executed" (VBool false);
  cancelled ← pick native "cancelled" "cancelled" (VBool false);
  mret (mkSdkProposal id (js_String proposer) (js_String description) (numeric startLedger) (numeric endLedger) votesFor votesAgainst
    votesAbstain (truthy executed) (truthy cancelled)).
Definition read_vote_type (voteTypeRaw : JsValue) : VoteType :=
  let voteTypeValue := match voteTypeRaw with VArr l => text_or (nth_value l 0) "" | v => text_or v "" end in
  if String.eqb voteTypeValue "Simple" then Simple else if String.eqb voteTypeValue "Quadratic" then Quadratic else Extended.
Definition read_settings {S} (native : JsValue) : M S SettingsRead :=
  voteTypeRaw ← prop native "vote_type";
  delay ← prop native "voting_delay"; period ← prop native "voting_period"; quorum ← prop native "quorum_numerator";
  threshold ← prop native "proposal_threshold"; threshold ← native_toBigInt threshold;
  guardian ← prop native "guardian"; grace ← prop native "proposal_grace_period"; dynamic ← prop native "use_dynamic_quorum";
  oracle ← prop native "reflector_oracle"; usd ← prop native "min_quorum_usd"; usd ← native_toBigInt usd;
  size ← prop native "max_calldata_size"; cooldown ← prop native "proposal_cooldown"; most ← prop native "max_proposals_per_period";
  duration ← prop native "proposal_period_duration"; commit ← prop native "use_commit_reveal"; fraction ← prop native "commit_phase_fraction";
  mret (mkSettingsRead (numeric (delay ?? VNum 0)) (numeric (period ?? VNum 0)) (numeric (quorum ?? VNum 0)) threshold
    (text_or guardian "") (read_vote_type voteTypeRaw) (numeric (grace ?? VNum 0)) (truthy (dynamic ?? VBool false))
    (if truthy oracle then Some (js_String oracle) else None) usd (numeric (size ?? VNum 10000)) (numeric (cooldown ?? VNum 100))
    (numeric (most ?? VNum 5)) (numeric (duration ?? VNum 10000)) (truthy (commit ?? VBool false)) (numeric (fraction ?? VNum 5000))).
Definition num_add (a b : Num) : Num := match a, b with num x, num y => num (x + y) | _, _ => nan end.
Definition floor_tenth (x : Num) : number := match x with num n => Math_floor (d_div (of_int n) (of_int 10)) | nan => NaN end.
Definition plus (a b : number) : number := match a with Int n => num_plus n b | other => other end.
Definition as_number (x : Num) : number := match x with num n => Int n | nan => NaN end.
(** Events and indexers give ledgers as numbers. *)
Definition ledger_key (x : Num) : Z := match x with num n => n | nan => 0 end.
(** A vote as its event tells it; an event that cannot be read is dropped. *)
Definition read_vote (event : RawEvent) : option VoteByAddress :=
  value ← raw_value event;
  match (proposalId ← maybe_prop value "proposal_id"; proposalId ← js_BigInt proposalId;
         support ← maybe_prop value "support"; weight ← maybe_prop value "weight"; weight ← js_BigInt (weight ?? VNum 0);
         mret (mkVoteByAddress proposalId
           (match numeric support with num 0 => Against | num 1 => For | _ => Abstain end) weight (raw_ledger event)) : M unit _) tt with
  | (Ok vote, _) => Some vote
  | (Throw _, _) => None
  end.
(** The id of the proposal an event tells of. *)
Definition read_proposal_id (event : RawEvent) : option (Z * Z) :=
  symbol ← raw_topic event !! 0%nat ≫= id;
  value ← raw_value event;
  match (raw ← (if match symbol with VStr s => String.eqb s "ProposalCreated" | _ => false end then maybe_prop value "proposal_id"
                else mret match value with VArr l => nth_value l 0 | _ => VUndefined end);
         js_BigInt raw : M unit _) tt with
  | (Ok id, _) => Some (id, raw_ledger event)
  | (Throw _, _) => None
  end.
Definition read_cancellation (guardianAddress : string) (event : RawEvent) : option GuardianActivity :=
  value ← raw_value event;
  match (id ← prop value "proposal_id"; caller ← prop value "caller"; id ← js_BigInt id; mret (id, text_or caller "") : M unit _) tt with
  | (Ok (id, caller), _) => if String.eqb caller guardianAddress then Some (mkGuardianActivity id caller (raw_ledger event)) else None
  | (Throw _, _) => None
  end.
(** Of several events of a proposal, the one of the latest ledger. *)
Definition keep_newest (uniq : list (Z * Z)) (entry : Z * Z) : list (Z * Z) :=
  match jm_get entry.1 uniq with
  | Some ledger => if ledger <? entry.2 then jm_set entry.1 entry.2 uniq else uniq
  | None => jm_set entry.1 entry.2 uniq
  end.
Definition greatest_ledger (cursor : Z) (events : list RawEvent) : Z := foldl Z.max cursor (raw_ledger <$> events).

(** ** Commitments *)
Fixpoint le_bytes (n : nat) (v : Z) : bytes := match n with O => [] | S n => uint8 v :: le_bytes n (v / 256) end.
Definition U128_MAX : Z := 2 ^ 128 - 1.
Definition u128LeBuffer (value : Z) : outcome bytes :=
  if (value <? 0) || (U128_MAX <? value) then Throw (PlainError "weightSeed must fit in an unsigned 128-bit integer")
  else Ok (le_bytes 8 (value mod 2 ^ 64) ++ le_bytes 8 (value / 2 ^ 64)).
(** [writeBigUInt64LE] *)
Definition u64LeBuffer (value : Z) : outcome bytes :=
  if (0 <=? value) && (value <? 2 ^ 64) then Ok (le_bytes 8 value) else Throw (PlainError "value is out of range").
(** [random n] is [randomBytes(n)]. *)
Definition generateCommitment (sha256 : bytes → bytes) (random : nat → bytes) (params : CommitVoteParams) : outcome CommitmentResult :=
  let weightSeed := default (Z.of_N (foldl (λ acc b, acc * 256 + Byte.to_N b) 0 (random 16%nat))%N) (cm_weightSeed params) in
  let salt := default (random 32%nat) (cm_salt params) in
  if negb (length salt =? 32)%nat then Throw (PlainError "salt must be exactly 32 bytes")
  else match u64LeBuffer (cm_proposalId params), u128LeBuffer weightSeed with
       | Ok proposalIdBuf, Ok seed =>
         Ok (mkCommitment (sha256 (proposalIdBuf ++ uint8 (vote_support_to_u32 (cm_support params)) :: seed ++ salt)) salt weightSeed)
       | Throw e, _ => Throw e
       | _, Throw e => Throw e
       end.

(** ** Settings *)
Definition DEFAULT_MAX_VOTING_DELAY : Z := 1209600.
Definition DEFAULT_MIN_VOTING_PERIOD : Z := 1.
Definition governor_error (c : GovernorErrorCode.t) (message : string) : JsError := SdkError "GovernorError" (GovernorErrorCode.num c) message.
Definition invalid_argument (message : string) : JsError := governor_error GovernorErrorCode.InvalidArguments message.
(** The delay, the period and the fraction are integers here. *)
Definition validateGovernorSettings {S} (newSettings : GovernorSettings) (maxVotingDelay minVotingPeriod : option Z) : M S unit :=
  let maxVotingDelay := default DEFAULT_MAX_VOTING_DELAY maxVotingDelay in
  let minVotingPeriod := default DEFAULT_MIN_VOTING_PERIOD minVotingPeriod in
  throw_if ((gs_votingDelay newSettings <? 0) || (maxVotingDelay <? gs_votingDelay newSettings))
    (invalid_argument ("votingDelay must be between 0 and " +:+ decimal maxVotingDelay));;
  throw_if (gs_votingPeriod newSettings <? minVotingPeriod)
    (invalid_argument ("votingPeriod must be at least " +:+ decimal minVotingPeriod));;
  throw_if (match gs_quorumNumerator newSettings with Int q => (q <=? 0) || (100 <? q) | _ => true end)
    (invalid_argument "quorumNumerator must be greater than 0 and at most 100");;
  throw_if (gs_proposalThreshold newSettings <? 0) (invalid_argument "proposalThreshold must be greater than or equal to 0");;
  let commitPhaseFraction := default 5000 (gs_commitPhaseFraction newSettings) in
  throw_if ((commitPhaseFraction <=? 0) || (10000 <=? commitPhaseFraction))
    (invalid_argument "commitPhaseFraction must be a BPS value between 1 and 9999").
(** [nativeToScVal(q, { type: "u32" })] of a quorum that was checked. *)
Definition a_quorum `{!Stellar} (q : number) : outcome ScVal := match q with Int n => a_u32 n | _ => Throw (PlainError "RangeError") end.
Definition settings_entries `{!Stellar} (newSettings : GovernorSettings) : list (string * outcome ScVal) :=
  [("voting_delay", a_u32 (gs_votingDelay newSettings)); ("voting_period", a_u32 (gs_votingPeriod newSettings));
   ("quorum_numerator", a_quorum (gs_quorumNumerator newSettings)); ("proposal_threshold", a_i128 (gs_proposalThreshold newSettings));
   ("guardian", a_address (gs_guardian newSettings)); ("vote_type", Ok (scvVec [scvSymbol (vote_type_name (gs_voteType newSettings))]));
   ("proposal_grace_period", a_u32 (gs_proposalGracePeriod newSettings));
   ("use_dynamic_quorum", Ok (scvBool (default false (gs_useDynamicQuorum newSettings))));
   ("reflector_oracle", match gs_reflectorOracle newSettings with Some EmptyString | None => Ok scvVoid | Some a => a_address a end);
   ("min_quorum_usd", a_i128 (default 0 (gs_minQuorumUsd newSettings)));
   ("max_calldata_size", a_u32 (default 10000 (gs_maxCalldataSize newSettings)));
   ("proposal_cooldown", a_u32 (default 100 (gs_proposalCooldown newSettings)));
   ("max_proposals_per_period", a_u32 (default 5 (gs_maxProposalsPerPeriod newSettings)));
   ("proposal_period_duration", a_u32 (default 10000 (gs_proposalPeriodDuration newSettings)));
   ("use_commit_reveal", Ok (scvBool (default false (gs_useCommitReveal newSettings))));
   ("commit_phase_fraction", a_u32 (default 5000 (gs_commitPhaseFraction newSettings)))].

(** ** Watching a proposal *)

(** The variables of [onProposalStateChange], the ticks that wait for a state and
    the calls of the callback. *)
Record Watch := mkWatch { w_stopped : bool; w_previous : option ProposalState; w_waiting : nat; w_changes : list ProposalState }.
#[export] Instance Watch_eta : Eta Watch := λ w, mkWatch (w_stopped w) (w_previous w) (w_waiting w) (w_changes w).
Definition watch_tick (w : Watch) : Watch := if w_stopped w then w else w <| w_waiting ::= Datatypes.S |>.
Definition onProposalStateChange : Watch := watch_tick (mkWatch false None 0 []).
(** A tick goes on with the state it read, or with its error; the callback returns
    or throws. *)
Definition watch_answer (answer : option ProposalState) (returns : ProposalState → bool) (w : Watch) : Watch :=
  let w := w <| w_waiting ::= Nat.pred |> in
  match answer with
  | None => w
  | Some st =>
    let changed := match w_previous w with Some previous => negb (bool_decide (st = previous)) | None => false end in
    let w := if changed then w <| w_changes ::= λ l, l ++ [st] |> else w in
    if changed && negb (returns st) then w else w <| w_previous := Some st |>
  end.
Definition watch_stop (w : Watch) : Watch := w <| w_stopped := true |>.

(** The arguments of [propose]: a hash, a link and targets with functions and
    data that may be missing, or the older form of targets, functions and data. *)
Inductive ProposeArgs :=
  | Described (descriptionHash metadataUri : string) (targets : list string) (fnNames : option (list string)) (calldatas : option (list bytes))
  | LegacyArgs (targets fnNames : list string) (calldatas : list bytes).
Fixpoint repeated (n : nat) (s : string) : string := match n with O => "" | S n => s +:+ repeated n s end.

Module GovernorClient.
Section client.
Context `{!Stellar} {S : Type} (rpc : Rpc S) (config : GovernorConfig) (onRetry : Z → JsError → M S unit) (fetch : string → M S HttpAnswer).

Definition governor : string := gc_governorAddress config.
(** Only [onRetry] has a default. *)
Definition defaults : RetryOptions := mkRetryOptions None None None None.
Definition retry {A} (fn : M S A) (retry_on : option (JsError → bool)) : M S A :=
  withRetry (createRetry (gc_retry config) defaults retry_on) fn onRetry (rpc_sleep rpc).
Definition isNetworkError (e : JsError) : bool := transient_message e.
Definition isRetryableSubmissionError (e : JsError) : bool :=
  match e with SdkError "GovernorError" _ _ => false | e => isNetworkError e end.
Definition readAccount (sourceAccount : option string) : string :=
  default (default governor (gc_simulationAccount config)) sourceAccount.
Definition failed (hash : string) : JsError := governor_error GovernorErrorCode.TransactionFailed ("Transaction failed: " +:+ hash).
Definition unconfirmed : JsError := governor_error GovernorErrorCode.TransactionTimeout "Transaction not confirmed after 10 retries".
Definition pollForConfirmation (hash : string) : M S (option ScVal) :=
  await_confirmation rpc 2000 (rpc_getTransaction rpc) (failed hash) unconfirmed 10 hash.
Definition parsed (result : SendResult) : JsError := typed "GovernorError" (parseGovernorError (raw_of result)).
(** [JSON.stringify(result)] after a label *)
Definition labelled (label : string) (result : SendResult) : JsError := PlainError (label +:+ ": " +:+ sd_json result).
(** A submission to the end: the hash, and the value returned on chain. *)
Definition confirmed (sign : Signing) (source fnName : string) (args : list (outcome ScVal)) (rejected : SendResult → JsError) :
  M S (string * option ScVal) :=
  result ← submit rpc sign source governor fnName args rejected;
  returnValue ← pollForConfirmation (sd_hash result);
  mret (sd_hash result, returnValue).

(** *** [governor-client.ts] *)

(** The arguments are encoded before the first attempt. *)
Definition simulateAndSubmit (signer fnName : string) (args : list (outcome ScVal)) : M S unit :=
  args ← map_m from_outcome args;
  retry (
    tx ← build rpc signer governor fnName (Ok <$> args);
    simResult ← rpc_simulate rpc tx;
    match simResult with
    | SimulationError error => throw (typed "GovernorError" (parseGovernorError (RawString (default "" error))))
    | SimulationSuccess response =>
      signed ← keypair signer (assemble tx response);
      result ← rpc_send rpc signed;
      throw_if (String.eqb (sd_status result) "ERROR")
        (typed "GovernorError" (parseGovernorError (RawString (default "" (sd_error result)))));;
      pollForConfirmation (sd_hash result);;
      mret tt
    end) (Some isRetryableSubmissionError).
Definition execute (signer : string) (proposalId : Z) : M S unit := simulateAndSubmit signer "execute" [a_u64 proposalId].
Definition queue (signer : string) (proposalId : Z) : M S unit := simulateAndSubmit signer "queue" [a_u64 proposalId].
Definition call_with (account : Account) (fnName : string) (args : list (outcome ScVal)) : M S Simulation :=
  args ← map_m from_outcome args; rpc_simulate rpc (mkTx account (mkCall governor fnName args)).
Fixpoint fetch_proposals (account : Account) (ids : list Z) : M S (list JsValue) :=
  match ids with
  | [] => mret []
  | id :: ids =>
    result ← call_with account "get_proposal" [a_u64 id];
    proposal ← read_value result (λ _, mret []) (mret []) (λ raw, (λ v, [v]) <$> to_native raw);
    rest ← fetch_proposals account ids;
    mret (proposal ++ rest)
  end.
Definition listProposals (from count : Z) : M S JsValue :=
  account ← rpc_getAccount rpc (readAccount None);
  listResult ← call_with account "get_proposal_list" [a_u32 from; a_u32 count];
  match listResult with
  | SimulationSuccess response => match sm_result response with Some raw => to_native raw | None => mret (VArr []) end
  | SimulationError _ =>
    countResult ← call_with account "proposal_count" [];
    match countResult with
    | SimulationError _ => mret (VArr [])
    | SimulationSuccess response =>
      total ← match sm_result response with Some raw => numeric <$> to_native raw | None => mret (num 0) end;
      let last := match total with num total => Z.min (from + count) total | nan => from end in
      VArr <$> fetch_proposals account (seqZ (from + 1) (last - from))
    end
  end.

(** *** [proposals.ts] *)
Definition a_vec_symbol (syms : list string) : outcome ScVal := a_vec (λ s, a_symbol (trim s)) syms.
Definition propose_args (proposer description : string) (hashBytes : bytes) (metadataUri : string) (targets fnNames : list string)
    (calldatas : list bytes) : list (outcome ScVal) :=
  [a_address proposer; a_string description; a_bytes hashBytes; a_string metadataUri; a_vec a_address targets; a_vec_symbol fnNames;
   a_vec a_bytes calldatas].
Definition check_lengths (targets fnNames : list string) (calldatas : list bytes) : M S unit :=
  throw_if (negb (length targets =? length fnNames)%nat || negb (length targets =? length calldatas)%nat)
    (governor_error GovernorErrorCode.InvalidVectorLengths "targets, fnNames, and calldatas must have the same length");;
  throw_if (length targets =? 0)%nat (governor_error GovernorErrorCode.NoTargets "At least one on-chain action is required").
(** [returnVal ? BigInt(scValToNative(returnVal)) : 0n] *)
Definition returned_id (returnVal : option ScVal) : M S Z :=
  match returnVal with Some raw => value ← to_native raw; js_BigInt value | None => mret 0 end.
Definition propose (signer description : string) (args : ProposeArgs) : M S Z :=
  retry (
    let '(descriptionHash, metadataUri, targets, fnNames, calldatas) :=
      match args with
      | Described hash uri targets fnNames calldatas => (hash, uri, targets, fnNames, calldatas)
      | LegacyArgs targets fnNames calldatas => (repeated 64 "0", "", targets, Some fnNames, Some calldatas)
      end in
    match fnNames, calldatas with
    | Some fnNames, Some calldatas =>
      check_lengths targets fnNames calldatas;;
      hashBytes ← from_outcome (hexToBytes32 descriptionHash);
      sent ← confirmed (keypair signer) signer "propose" (propose_args signer description hashBytes metadataUri targets fnNames calldatas) parsed;
      returned_id sent.2
    | _, _ => throw (invalid_argument "targets, fnNames, and calldatas are required")
    end) (Some isRetryableSubmissionError).
(** Without retries. *)
Definition proposeWithSign (signerPublicKey description descriptionHash metadataUri : string) (targets fnNames : list string)
    (calldatas : list bytes) (signUnsignedXdr : Signing) : M S (Z * string) :=
  check_lengths targets fnNames calldatas;;
  hashBytes ← from_outcome (hexToBytes32 descriptionHash);
  sent ← confirmed signUnsignedXdr signerPublicKey "propose"
    (propose_args signerPublicKey description hashBytes metadataUri targets fnNames calldatas) parsed;
  proposalId ← returned_id sent.2;
  mret (proposalId, sent.1).
(** [x?.k] of the cost of a simulation *)
Definition cost_of (cost : JsValue) (k : string) : M S JsValue := maybe_prop cost k.
Definition refused (error : string) : Estimate := mkEstimate false (Some error) VUndefined VUndefined None.
Definition resources (result : Simulation) : M S Estimate :=
  match result with
  | SimulationError error => mret (refused (default "Simulation failed" error))
  | SimulationSuccess response =>
    cpuInsns ← cost_of (sm_cost response) "cpuInsns"; memBytes ← cost_of (sm_cost response) "memBytes";
    mret (mkEstimate true None cpuInsns memBytes None)
  end.
Definition simulateTargetInvocation (footprintSourceAccount contractId functionName : string) (args : list ScVal) : M S Estimate :=
  retry (
    from_outcome (check_contract contractId);;
    result ← simulate rpc footprintSourceAccount contractId functionName (Ok <$> args);
    resources result) None.
Fixpoint simulate_actions (source : string) (actions : list ProposalAction) (computeUnits : Num) : M S ProposalSimulation :=
  match actions with
  | [] => mret (mkProposalSimulation true (Some computeUnits) None)
  | action :: actions =>
    from_outcome (check_contract (ca_target action));;
    args ← map_m from_outcome (nativeUntyped <$> ca_args action);
    result ← simulate rpc source (ca_target action) (ca_function action) (Ok <$> args);
    match result with
    | SimulationError error => mret (mkProposalSimulation false None (Some ("Simulation failed: " +:+ default "unknown" error)))
    | SimulationSuccess response =>
      match sm_result response with
      | None => mret (mkProposalSimulation false None (Some "No simulation result returned"))
      | Some _ =>
        inner ← cost_of (sm_result_cost response) "cpuInstructions"; outer ← cost_of (sm_cost response) "cpuInstructions";
        insns ← cost_of (sm_cost response) "cpuInsns";
        let cost := (inner ?? outer) ?? js_Number (insns ?? VNum 0) in
        simulate_actions source actions (num_add computeUnits (numeric cost))
      end
    end
  end.
Definition simulateProposal (actions : list ProposalAction) (sourceAccount : option string) : M S ProposalSimulation :=
  retry (try_catch (simulate_actions (readAccount sourceAccount) actions (num 0))
           (λ e, mret (mkProposalSimulation false None (Some (message_of e))))) None.
Definition estimateProposeResources (proposer description descriptionHash metadataUri : string) (targets fnNames : list string)
    (calldatas : list bytes) : M S Estimate :=
  retry (try_catch (
    hashBytes ← from_outcome (hexToBytes32 descriptionHash);
    result ← simulate rpc proposer governor "propose" (propose_args proposer description hashBytes metadataUri targets fnNames calldatas);
    resources result) (λ e, mret (refused (message_of e)))) None.
Definition cancel (signer : string) (proposalId : Z) : M S unit :=
  retry (confirmed (keypair signer) signer "cancel" [a_address signer; a_u64 proposalId] (labelled "Transaction failed");; mret tt)
    (Some isRetryableSubmissionError).
Definition cancelByGovernance (signer : string) (proposalId : Z) : M S unit :=
  retry (confirmed (keypair signer) signer "cancel_by_governance" [a_u64 proposalId] (labelled "Transaction failed");; mret tt)
    (Some isRetryableSubmissionError).
Definition cancelByGovernanceWithSign (signerPublicKey : string) (proposalId : Z) (signUnsignedXdr : Signing) : M S unit :=
  confirmed signUnsignedXdr signerPublicKey "cancel_by_governance" [a_u64 proposalId] (labelled "Transaction failed");; mret tt.
Definition required {A} (source fnName : string) (args : list (outcome ScVal)) (parse : JsValue → M S A) : M S A :=
  read_required rpc source governor fnName args "No return value" parse.
Definition getProposal (proposalId : Z) : M S SdkProposal :=
  retry (required (readAccount None) "get_proposal" [a_u64 proposalId] mapProposalNative) None.
(** Without retries; a number of the contract. *)
Definition getQueueTime (proposalId : Z) : M S Num :=
  read_or rpc (readAccount None) governor "get_queue_time" [a_u64 proposalId] (num 0) (λ v, mret (numeric v)).
Definition getQueuedOpIds (proposalId : Z) : M S (list JsValue) :=
  retry (read_or rpc (readAccount None) governor "get_queued_op_ids" [a_u64 proposalId] [] (λ opIds,
    match opIds with
    | VArr l => mret ((λ id, match id with VBytes bs => VStr (to_hex bs) | id => id end) <$> l)
    | _ => throw (TypeError "opIds.map is not a function")
    end)) None.

(** *** [queries.ts] *)
Definition proposalThreshold : M S Z := retry (read_or rpc (readAccount None) governor "proposal_threshold" [] 0 js_BigInt) None.
Definition getSettings (sourceAccount : option string) : M S SettingsRead :=
  retry (read_required rpc (readAccount sourceAccount) governor "get_settings" [] "No settings return value" read_settings) None.
Definition getProposalState (proposalId : Z) : M S ProposalState :=
  retry (required (readAccount None) "state" [a_u64 proposalId] decodeProposalState) None.
(** These two do not retry. *)
Definition getQuorum (proposalId : Z) : M S Z := required governor "get_quorum" [a_u64 proposalId] js_BigInt.
Definition isQuorumReached (proposalId : Z) : M S JsValue := required governor "is_quorum_reached" [a_u64 proposalId] mret.
Definition getLatestLedger : M S Z := retry (rpc_getLatestLedger rpc) None.
Definition proposalCount : M S Z := retry (read_or rpc (readAccount None) governor "proposal_count" [] 0 js_BigInt) None.
(** [url] is the argument, or else [INDEXER_API_URL]. *)
Definition getProposalFromIndexer (proposalId : Z) (url : option string) : M S JsValue :=
  match url with
  | None | Some EmptyString => mret VNull
  | Some url =>
    try_catch (
      response ← fetch (url +:+ "/proposals/" +:+ decimal proposalId);
      if ha_status response =? 404 then mret VNull
      else
        throw_if (negb (ha_ok response)) (PlainError ("HTTP " +:+ decimal (ha_status response)));;
        from_outcome (ha_json response)) (λ _, mret VNull)
  end.
Definition getLastProposalLedger (address : string) : M S Num :=
  retry (read_or rpc governor governor "last_proposal_ledger" [a_address address] (num 0) (λ v, mret (numeric v))) None.
Definition getProposalsInPeriod (address : string) : M S Num :=
  retry (read_or rpc governor governor "proposals_in_period" [a_address address] (num 0) (λ v, mret (numeric v))) None.

Definition getTimelockInfo (proposalId : Z) : M S TimelockInfo :=
  queueLedger ← getQueueTime proposalId;
  throw_if (match queueLedger with num 0 => true | _ => false end)
    (PlainError ("Proposal " +:+ decimal proposalId +:+ " not queued or not found"));;
  settings ← getSettings None;
  minDelay ← TimelockClient.minDelay rpc config onRetry;
  executionWindow ← TimelockClient.executionWindow rpc config;
  let tenth n := Math_floor (d_div (of_int n) (of_int 10)) in
  let queued := as_number queueLedger in
  let executable := plus queued (tenth minDelay) in
  mret (mkTimelockInfo queued (plus queued (floor_tenth (sg_votingDelay settings))) executable (plus executable (tenth executionWindow))).
(** The polls until the state is there or the time is over; [None] is short of
    fuel. *)
Fixpoint wait_for (fuel : nat) (proposalId : Z) (targetState : ProposalState) (startTime timeoutMs pollIntervalMs : Z) : M S (option unit) :=
  now ← gets (rpc_now rpc);
  if now - startTime <? timeoutMs then
    match fuel with
    | O => mret None
    | Datatypes.S fuel =>
      currentState ← getProposalState proposalId;
      if bool_decide (currentState = targetState) then mret (Some tt)
      else modify (rpc_sleep rpc pollIntervalMs);; wait_for fuel proposalId targetState startTime timeoutMs pollIntervalMs
    end
  else throw (PlainError ("Timeout waiting for proposal " +:+ decimal proposalId +:+ " to reach state " +:+ state_name targetState)).
Definition waitForProposalState (fuel : nat) (proposalId : Z) (targetState : ProposalState) (timeoutMs pollIntervalMs : option Z) : M S (option unit) :=
  startTime ← gets (rpc_now rpc);
  wait_for fuel proposalId targetState startTime (default 300000 timeoutMs) (default 5000 pollIntervalMs).
(** The requests of a chunk run side by side; here one after the other. *)
Definition settle {A} (m : M S A) : M S (Settled A) := try_catch (Fulfilled <$> m) (λ e, mret (Rejected e)).
Definition getProposalsBatch (proposalIds : list Z) : M S (list (Z * Settled SdkProposal)) :=
  map_m (λ id, pair id <$> settle (getProposal id)) proposalIds.
Definition getProposalExpiryLedger (proposalId : Z) : M S Num :=
  proposal ← getProposal proposalId; settings ← getSettings None;
  mret (num_add (sp_endLedger proposal) (sg_proposalGracePeriod settings)).
Definition buildUpdateConfigProposal (newSettings : GovernorSettings) (maxVotingDelay minVotingPeriod : option Z) : M S CalldataProposal :=
  validateGovernorSettings newSettings maxVotingDelay minVotingPeriod;;
  settingsScVal ← from_outcome (a_map (settings_entries newSettings));
  mret (mkCalldataProposal governor "update_config" (xdr_bytes (scvVec [settingsScVal]))).

(** *** [execution.ts] *)

(** The first of the keys that has a value. *)
Fixpoint simulationCostValue (cost : JsValue) (keys : list string) : M S (option Z) :=
  match cost, keys with
  | VObj _, key :: keys =>
    value ← prop cost key;
    if nullish value then simulationCostValue cost keys else Some <$> native_toBigInt value
  | _, _ => mret None
  end.
(** [native.a ?? native.b] *)
Definition either_name (native : JsValue) (snake camel : string) : M S JsValue := a ← prop native snake; b ← prop native camel; mret (a ?? b).
Definition read_gas (cost native : JsValue) : M S ExecutionGasEstimate :=
  id ← either_name native "proposal_id" "proposalId"; id ← native_toBigInt id;
  actions ← either_name native "action_count" "actionCount"; size ← either_name native "calldata_bytes" "calldataBytes";
  cpu ← either_name native "estimated_cpu_insns" "estimatedCpuInsns"; cpu ← native_toBigInt cpu;
  mem ← either_name native "estimated_mem_bytes" "estimatedMemBytes"; mem ← native_toBigInt mem;
  fee ← either_name native "estimated_fee_stroops" "estimatedFeeStroops"; fee ← native_toBigInt fee;
  rpcCpu ← simulationCostValue cost ["cpuInsns"; "cpuInstructions"]; rpcMem ← simulationCostValue cost ["memBytes"; "memoryBytes"];
  mret (mkExecutionGas id (numeric (actions ?? VNum 0)) (numeric (size ?? VNum 0)) cpu mem fee rpcCpu rpcMem).
Definition estimateExecutionGas (proposalId : Z) (sourceAccount : option string) : M S ExecutionGasEstimate :=
  retry (
    result ← simulate rpc (readAccount sourceAccount) governor "estimate_execution_gas" [a_u64 proposalId];
    match result with
    | SimulationError error => throw (PlainError ("Simulation error: " +:+ undefined_text error))
    | SimulationSuccess response =>
      raw ← unwrap (sm_result response) (PlainError "No return value");
      native ← to_native raw; read_gas (sm_cost response) native
    end) None.

(** *** [voting.ts] *)
Definition vote_args (voter : string) (proposalId : Z) (support : VoteSupport) : list (outcome ScVal) :=
  [a_address voter; a_u64 proposalId; support_vec support].
(** [x?.toString()] of a number *)
Definition text_of (v : JsValue) : JsValue := if nullish v then VUndefined else VStr (js_String v).
Definition estimateVoteGas (voter : string) (proposalId : Z) (support : VoteSupport) : M S Estimate :=
  retry (try_catch (
    result ← simulate rpc voter governor "cast_vote" (vote_args voter proposalId support);
    match result with
    | SimulationError error => mret (refused (default "Simulation failed" error))
    | SimulationSuccess response =>
      let cost := sm_cost response in
      cpuInsns ← cost_of cost "cpuInsns"; cpuInstructions ← cost_of cost "cpuInstructions";
      memBytes ← cost_of cost "memBytes"; memoryBytes ← cost_of cost "memoryBytes";
      fee ← native_toBigInt ((sm_minResourceFee response ?? sm_min_resource_fee response) ?? VStr BASE_FEE);
      mret (mkEstimate true None (cpuInsns ?? text_of cpuInstructions) (memBytes ?? text_of memoryBytes) (Some (decimal fee)))
    end) (λ e, mret (refused (message_of e)))) None.
Definition castVote (signer : string) (proposalId : Z) (support : VoteSupport) : M S string :=
  retry (fst <$> confirmed (keypair signer) signer "cast_vote" (vote_args signer proposalId support) parsed) (Some isRetryableSubmissionError).
(** These three do not retry. *)
Definition castVoteWithSign (signerPublicKey : string) (proposalId : Z) (support : VoteSupport) (signUnsignedXdr : Signing) : M S unit :=
  confirmed signUnsignedXdr signerPublicKey "cast_vote" (vote_args signerPublicKey proposalId support) (labelled "castVoteWithSign failed");;
  mret tt.
Definition castVoteWithReason (signer : string) (proposalId : Z) (support : VoteSupport) (reason : string) : M S unit :=
  confirmed (keypair signer) signer "cast_vote_with_reason" (vote_args signer proposalId support ++ [a_string reason])
    (labelled "castVoteWithReason failed");; mret tt.
Definition castVoteWithReasonAndSign (signerPublicKey : string) (proposalId : Z) (support : VoteSupport) (reason : string)
    (signUnsignedXdr : Signing) : M S unit :=
  confirmed signUnsignedXdr signerPublicKey "cast_vote_with_reason" (vote_args signerPublicKey proposalId support ++ [a_string reason])
    (labelled "castVoteWithReasonAndSign failed");; mret tt.
Definition getProposalVotes (proposalId : Z) : M S ProposalVotes :=
  retry (required (readAccount None) "get_proposal" [a_u64 proposalId] (λ proposal,
    yes ← prop proposal "votes_for"; yes ← native_toBigInt yes; no ← prop proposal "votes_against"; no ← native_toBigInt no;
    abstain ← prop proposal "votes_abstain"; abstain ← native_toBigInt abstain; mret (mkProposalVotes yes no abstain))) None.
Definition flag (fnName : string) (proposalId : Z) (voter : string) : M S bool :=
  retry (try_catch (read_or rpc (readAccount None) governor fnName [a_u64 proposalId; a_address voter] false (λ v, mret (truthy v)))
           (λ _, mret false)) None.
Definition hasVoted (proposalId : Z) (voter : string) : M S bool := flag "has_voted" proposalId voter.
Definition canPropose (proposer : string) : M S CanProposeResult :=
  retry (required governor "can_propose" [a_address proposer] (λ native,
    allowed ← prop native "allowed"; reason ← prop native "reason"; cooldown ← prop native "cooldown_ends_at";
    proposals ← prop native "proposals_this_period"; most ← prop native "max_per_period";
    power ← prop native "voting_power"; power ← native_toBigInt (power ?? VNum 0);
    threshold ← prop native "threshold"; threshold ← native_toBigInt (threshold ?? VNum 0);
    mret (mkCanPropose (truthy allowed) (text_or reason "unknown") (if truthy cooldown then Some (numeric cooldown) else None)
      (numeric (proposals ?? VNum 0)) (numeric (most ?? VNum 0)) power threshold))) None.
Definition newest_first (limit : Z) (history : list VotingHistoryEntry) : list VotingHistoryEntry :=
  js_slice (sort_desc (λ e, ledger_key (vh_ledger e)) history) 0 limit.
Definition indexed_vote (v : JsValue) : M S VotingHistoryEntry :=
  id ← prop v "proposal_id"; id ← native_toBigInt id; support ← prop v "support"; weight ← prop v "weight"; weight ← native_toBigInt weight;
  reason ← prop v "reason"; ledger ← prop v "ledger"; mret (mkHistoryEntry id support weight reason (numeric ledger)).
(** The history the indexer has, or nothing when it does not answer well. *)
Definition indexed_history (indexerUrl voter : string) (limit : Z) : M S (option (list VotingHistoryEntry)) :=
  try_catch (
    response ← fetch (indexerUrl +:+ "/profile/" +:+ voter);
    if ha_ok response then
      data ← from_outcome (ha_json response);
      votes ← prop data "votes";
      match (if truthy votes then votes else VArr []) with
      | VArr l => history ← map_m indexed_vote l; mret (Some (newest_first limit history))
      | _ => throw (TypeError "votes.map is not a function")
      end
    else mret None) (λ _, mret None).
Fixpoint scanned_history (voter : string) (events : list RawEvent) : M S (list VotingHistoryEntry) :=
  match events with
  | [] => mret []
  | event :: events =>
    if (length (raw_topic event) <? 2)%nat then scanned_history voter events
    else
      voterTopic ← unwrap (raw_topic event !! 1%nat ≫= id) (PlainError "Bad union switch");
      if negb (String.eqb (js_String voterTopic) voter) then scanned_history voter events
      else
        native ← unwrap (raw_value event) (PlainError "Bad union switch");
        a ← prop native "proposal_id"; b ← prop native "proposalId"; proposalId ← native_toBigInt (a ?? b);
        support ← prop native "support"; weight ← prop native "weight"; weight ← native_toBigInt (weight ?? VNum 0);
        reason ← prop native "reason";
        rest ← scanned_history voter events;
        mret (mkHistoryEntry proposalId (js_Number support) weight reason (num (raw_ledger event)) :: rest)
  end.
Definition history_request (voter : string) (limit : Z) : EventsRequest :=
  mkEventsRequest None governor [[SegText "VoteCast"; SegText "vote"]; [SegText voter]] (limit * 2).
Definition getVotingHistory (voter : string) (limit : option Z) : M S (list VotingHistoryEntry) :=
  let limit := default 50 limit in
  indexed ← match gc_indexerUrl config with None | Some EmptyString => mret None | Some url => indexed_history url voter limit end;
  match indexed with
  | Some history => mret history
  | None =>
    retry (
      events ← rpc_getEvents rpc (history_request voter limit);
      events ← unwrap events (TypeError "events.events is not iterable");
      newest_first limit <$> scanned_history voter events) None
  end.
(** Pages of events up to the latest ledger; [None] is short of fuel. *)
Section paging.
Context {A : Type} (topics : list Segment) (retry_on : option (JsError → bool)) (read : RawEvent → option A) (enough : list A → bool).
Fixpoint page_through (fuel : nat) (latest cursor : Z) (results : list A) : M S (option (list A)) :=
  if cursor <=? latest then
    match fuel with
    | O => mret None
    | Datatypes.S fuel =>
      response ← retry (rpc_getEvents rpc (mkEventsRequest (Some cursor) governor [topics] 100)) retry_on;
      match default [] response with
      | [] => mret (Some results)
      | events =>
        let results := results ++ omap read events in
        if enough results then mret (Some results) else page_through fuel latest (greatest_ledger cursor events + 1) results
      end
    end
  else mret (Some results).
End paging.
Definition page_size (limit : option Z) : Z := Z.max 1 (Z.min (default 50 limit) 200).
Definition first_cursor (fromLedger : option Z) : Z := Z.max 1 (default 1 fromLedger).
Definition address_topics (topic address : string) : M S (list Segment) :=
  v ← from_outcome (a_address address); mret [SegXdr (scvSymbol topic); SegXdr v].
Definition getVotesCastByAddress (fuel : nat) (voter : string) (fromLedger limit : option Z) : M S (option (list VoteByAddress)) :=
  let limit := page_size limit in
  topics ← address_topics "VoteCast" voter;
  latest ← getLatestLedger;
  results ← page_through topics (Some isNetworkError) read_vote (λ results, limit <=? Z.of_nat (length results)) fuel latest
    (first_cursor fromLedger) [];
  mret ((λ results, js_slice (sort_desc va_ledger results) 0 limit) <$> results).
Definition receipt_support (support : JsValue) : M S VoteSupport :=
  variant ← item support 0;
  mret (default Against (find (λ st, String.eqb (support_name st) (js_String variant)) [Against; For; Abstain])).
Definition no_receipt : Receipt := mkReceipt (VBool false) Against 0 (VStr "").
Definition getReceipt (proposalId : Z) (voter : string) : M S Receipt :=
  retry (read_or rpc (readAccount None) governor "get_receipt" [a_u64 proposalId; a_address voter] no_receipt (λ receipt,
    support ← prop receipt "support"; support ← receipt_support support; voted ← prop receipt "has_voted";
    weight ← prop receipt "weight"; weight ← js_BigInt weight; reason ← prop receipt "reason";
    mret (mkReceipt voted support weight reason))) None.
Definition getVoteReason (proposalId : Z) (voter : string) : M S JsValue :=
  receipt ← getReceipt proposalId voter; mret (rc_reason receipt ?? VStr "").
Definition getProposalsSummaryBatch (proposalIds : list Z) : M S (list (Z * Settled (ProposalState * ProposalVotes))) :=
  map_m (λ id, pair id <$> settle (st ← getProposalState id; votes ← getProposalVotes id; mret (st, votes))) proposalIds.

(** *** [events.ts] *)
Definition getGuardianActivity (fuel : nat) (fromLedger : option Z) : M S (option (list GuardianActivity)) :=
  settings ← getSettings None;
  if String.eqb (sg_guardian settings) "" then mret (Some [])
  else
    latest ← getLatestLedger;
    page_through [SegXdr (scvSymbol "ProposalCancelled")] None (read_cancellation (sg_guardian settings)) (λ _, false) fuel latest
      (default 1 fromLedger) [].
Definition getProposalsForAddress (fuel : nat) (proposer : string) (fromLedger limit : option Z) :
  M S (option (list (Z * SdkProposal * ProposalState))) :=
  created ← address_topics "ProposalCreated" proposer; legacy ← address_topics "prop_crtd" proposer;
  latest ← getLatestLedger;
  let pages topics := page_through topics (Some isNetworkError) read_proposal_id (λ _, false) fuel latest (first_cursor fromLedger) [] in
  created ← pages created; legacy ← pages legacy;
  match created, legacy with
  | Some created, Some legacy =>
    let newestFirst := js_slice (sort_desc snd (foldl keep_newest [] (created ++ legacy))) 0 (page_size limit) in
    Some <$> map_m (λ entry, proposal ← getProposal entry.1; st ← getProposalState entry.1; mret (entry.1, proposal, st)) newestFirst
  | _, _ => mret None
  end.

(** *** [commitReveal.ts] *)
Definition commitVote (signer : string) (proposalId : Z) (commitment : bytes) : M S string :=
  retry (fst <$> confirmed (keypair signer) signer "commit_vote" [a_address signer; a_u64 proposalId; a_bytes commitment]
    (labelled "commitVote failed")) (Some isRetryableSubmissionError).
Definition revealVote (signer : string) (proposalId : Z) (support : VoteSupport) (weightSeed : Z) (salt : bytes) : M S string :=
  retry (fst <$> confirmed (keypair signer) signer "reveal_vote"
    (vote_args signer proposalId support ++ [nativeToScVal (EInt weightSeed) "u128"; a_bytes salt]) (labelled "revealVote failed"))
    (Some isRetryableSubmissionError).
Definition hasCommitted (proposalId : Z) (voter : string) : M S bool := flag "has_committed" proposalId voter.
Definition deadline (fnName : string) (proposalId : Z) : M S Num :=
  retry (required (readAccount None) fnName [a_u64 proposalId] (λ v, mret (numeric v))) None.
Definition getCommitDeadline (proposalId : Z) : M S Num := deadline "get_commit_deadline" proposalId.
Definition getRevealDeadline (proposalId : Z) : M S Num := deadline "get_reveal_deadline" proposalId.
(** [a <= b], false of [NaN] *)
Definition at_most (a : Z) (b : Num) : bool := match b with num b => a <=? b | nan => false end.
Definition phase_at (currentLedger : Z) (commitDeadline revealDeadline : Num) : CommitPhase :=
  if at_most currentLedger commitDeadline then CommitPhase_commit
  else if at_most currentLedger revealDeadline then CommitPhase_reveal else CommitPhase_ended.
Definition getCommitRevealStatus (proposalId : Z) : M S CommitRevealStatus :=
  commitDeadline ← getCommitDeadline proposalId; revealDeadline ← getRevealDeadline proposalId; currentLedger ← getLatestLedger;
  counts ← match gc_indexerUrl config with
           | None | Some EmptyString => mret (num 0, num 0)
           | Some url =>
             try_catch (
               response ← fetch (url +:+ "/governor/commit-reveal/" +:+ decimal proposalId);
               if ha_ok response then
                 data ← from_outcome (ha_json response);
                 commits ← prop data "commit_count"; reveals ← prop data "reveal_count";
                 mret (numeric (commits ?? VNum 0), numeric (reveals ?? VNum 0))
               else mret (num 0, num 0)) (λ _, mret (num 0, num 0))
           end;
  mret (mkCommitRevealStatus (phase_at currentLedger commitDeadline revealDeadline) commitDeadline revealDeadline counts.1 counts.2).
End client.
End GovernorClient.
