(* ===== verification/SdkContracts.v ===== *)
(** * The clients of the other contracts

    [sdk/src]: [convictionVoting.ts], [optimisticGovernor.ts], [proposalBonds.ts],
    [coSponsorship.ts] and [voteEscrow.ts].  What their private methods share is
    written once: a submission with the parser of the contract's errors, with or
    without retries, a read, and a request to the indexer. *)

From S2P Require Import Prelude JsValues SdkErrors Effects ProposalBonds Server SdkEvents SdkSubscriptions SdkClient SdkTypes SdkGovernor.

(** The configuration of a client: the contract, the account that reads are
    simulated for, the indexer and the retries. *)
Record ClientConfig := mkClientConfig {
  cc_address : string; cc_simulationAccount : option string; cc_indexerUrl : option string; cc_retry : ClientRetryConfig }.
(** [BigInt(String(v))] and [BigInt(v ?? 0)] *)
Definition text_BigInt {S} (v : JsValue) : M S Z := js_BigInt (VStr (js_String v)).
Definition BigInt_or_0 {S} (v : JsValue) : M S Z := js_BigInt (v ?? VNum 0).
(** [v.map(f)] *)
Definition map_rows {S A} (f : JsValue → M S A) (v : JsValue) : M S (list A) :=
  match v with
  | VArr l => map_m f l
  | VUndefined | VNull => throw (TypeError "Cannot read properties of undefined")
  | _ => throw (TypeError "map is not a function")
  end.
(** [BigInt(scValToNative(result.returnValue!))] and [Number(...)] *)
Definition returned {S} `{!Stellar} (returnValue : option ScVal) : M S JsValue :=
  raw ← unwrap returnValue (TypeError "Cannot read properties of undefined"); to_native raw.

Section shared.
Context `{!Stellar} {S : Type} (rpc : Rpc S) (config : ClientConfig) (onRetry : Z → JsError → M S unit) (fetch : string → M S HttpAnswer).

Definition read_account : string := default (cc_address config) (cc_simulationAccount config).
Definition retry_with {A} (defaults : RetryOptions) (fn : M S A) : M S A :=
  withRetry (createRetry (cc_retry config) defaults None) fn onRetry (rpc_sleep rpc).
(** The arguments are encoded by the caller, before the first request. *)
Definition with_args {A} (args : list (outcome ScVal)) (k : list (outcome ScVal) → M S A) : M S A :=
  args ← map_m from_outcome args; k (Ok <$> args).

(** ** Without retries *)

(** [submit] and [submitWithSign] of the conviction and the optimistic client: up to
    twenty looks, a second apart; a failed transaction has no text. *)
Section plain.
Context (parse : RawError → JsError).
Definition plain_submit (sign : Signing) (source fn : string) (args : list (outcome ScVal)) : M S (string * option ScVal) :=
  with_args args (λ args,
    sent ← submit rpc sign source (cc_address config) fn args (λ result, parse (raw_of result));
    returnValue ← await_confirmation rpc 1000 (rpc_getTransaction rpc) (parse (RawObject (Some "FAILED") None))
      (parse (RawString "Transaction confirmation timed out")) 20 (sd_hash sent);
    mret (sd_hash sent, returnValue)).
Definition plain_simulate (fn : string) (args : list (outcome ScVal)) : M S JsValue :=
  with_args args (λ args,
    result ← simulate rpc read_account (cc_address config) fn args;
    read_value result (λ error, throw (parse (RawObject None error))) (throw (parse (RawObject None None))) to_native).
End plain.
(** The rows under [data] of an answer of the indexer. *)
Definition plain_rows {A} (path : string) (row : JsValue → M S A) : M S (list A) :=
  match cc_indexerUrl config with
  | None | Some EmptyString => throw (PlainError "indexerUrl is required")
  | Some url =>
    response ← fetch (url +:+ path);
    throw_if (negb (ha_ok response)) (PlainError ("Indexer request failed: " +:+ decimal (ha_status response)));;
    json ← from_outcome (ha_json response); data ← prop json "data"; map_rows row data
  end.

(** ** With retries *)

(** The class of the errors, its codes and the parser, given the function called. *)
Section retried.
Context (class : string) (failed_code timeout_code simulation_code : Z) (parse : RawError → option string → TypedError).
Definition network_only : RetryOptions := mkRetryOptions None None None (Some isNetworkError).
Definition failed_hash (hash : string) : JsError := SdkError class failed_code ("Transaction failed: " +:+ hash).
Definition not_confirmed : JsError := SdkError class timeout_code "Transaction not confirmed after 10 retries".
Definition poll_hash (hash : string) : M S (option ScVal) :=
  await_confirmation rpc 2000 (λ hash, retry_with network_only (rpc_getTransaction rpc hash)) (failed_hash hash) not_confirmed 10 hash.
(** One attempt at a submission. *)
Definition submission (sign : Signing) (source fn : string) (args : list (outcome ScVal)) : M S (string * option ScVal) :=
  result ← submit rpc sign source (cc_address config) fn args (λ result, typed class (parse (raw_of result) (Some fn)));
  returnValue ← poll_hash (sd_hash result);
  mret (sd_hash result, returnValue).
Definition retried_submit (sign : Signing) (source fn : string) (args : list (outcome ScVal)) : M S (string * option ScVal) :=
  with_args args (λ args, retry_with network_only (submission sign source fn args)).
(** A read, with what an error of the simulation and a missing value end in. *)
Definition retried_read {A} (fn : string) (args : list (outcome ScVal)) (failed : option string → M S A) (missing : M S A) (read : JsValue → M S A) : M S A :=
  retry_with network_only (
    result ← simulate rpc read_account (cc_address config) fn args;
    read_value result failed missing (λ raw, native ← to_native raw; read native)).
Definition simulation_failed {A} (error : option string) : M S A := throw (typed class (parse (RawObject (Some "ERROR") error) None)).
Definition indexer_failed (response : HttpAnswer) : JsError :=
  SdkError class failed_code ("Indexer request failed: " +:+ decimal (ha_status response) +:+ " " +:+ ha_statusText response).
(** [name] is the path, or the method where it writes the request itself. *)
Definition with_indexer {A} (name : string) (k : string → M S A) : M S A :=
  match cc_indexerUrl config with
  | None | Some EmptyString => throw (SdkError class simulation_code (name +:+ " requires config.indexerUrl to be set"))
  | Some url => k url
  end.
Definition indexer_json (client path : string) : M S JsValue :=
  with_indexer (client +:+ "." +:+ path) (λ url, retry_with network_only (
    resp ← fetch (url +:+ path);
    throw_if (negb (ha_ok resp)) (indexer_failed resp);;
    from_outcome (ha_json resp))).
End retried.
End shared.

(** [URLSearchParams] of the options that are there, with a question mark; a state
    is one of the names of its type, which are sent as they are. *)
Record ListOptions := mkListOptions { lo_state : option string; lo_page : option Z; lo_limit : option Z }.
Definition number_param (key : string) (o : option Z) : list string :=
  match o with Some n => if n =? 0 then [] else [key +:+ "=" +:+ decimal n] | None => [] end.
Definition query_text (key : string) (options : ListOptions) : string :=
  let params := match lo_state options with Some EmptyString | None => [] | Some s => [key +:+ "=" +:+ s] end ++
                number_param "page" (lo_page options) ++ number_param "limit" (lo_limit options) in
  match params with [] => "" | _ => "?" +:+ String.concat "&" params end.
Record Page (A : Type) := mkPage { pg_data : list A; pg_page : JsValue; pg_limit : JsValue; pg_hasMore : JsValue }.
Arguments mkPage {A}.
Definition read_page {S A} (row : JsValue → M S A) (more : string) (raw : JsValue) : M S (Page A) :=
  data ← prop raw "data"; data ← map_rows row data;
  pagination ← prop raw "pagination"; page ← prop pagination "page"; limit ← prop pagination "limit"; hasMore ← prop pagination more;
  mret (mkPage data page limit hasMore).

(** ** [convictionVoting.ts] *)
Record SdkConvictionProposal := mkSdkConviction {
  sv_id : Z; sv_proposer : string; sv_target : string; sv_fnName : string; sv_calldata : JsValue; sv_requestedAmount : Z;
  sv_createdLedger : Num; sv_conviction : Z; sv_lastUpdatedLedger : Num; sv_executed : bool; sv_cancelled : bool }.
Record ConvictionSnapshot := mkConvictionSnapshot { cn_proposalId : Z; cn_ledger : Num; cn_conviction : Z }.

Module ConvictionVotingClient.
Section client.
Context `{!Stellar} {S : Type} (rpc : Rpc S) (config : ClientConfig) (fetch : string → M S HttpAnswer).
Definition parse (raw : RawError) : JsError := typed "ConvictionVotingError" (parseConvictionVotingError raw).
Definition submit_by (sign : Signing) (source fn : string) (args : list (outcome ScVal)) : M S (string * option ScVal) :=
  plain_submit rpc config parse sign source fn args.
Definition submit (signer fn : string) (args : list (outcome ScVal)) : M S (string * option ScVal) := submit_by (keypair signer) signer fn args.
Definition submitWithSign (signerPublicKey : string) (signUnsignedXdr : Signing) (fn : string) (args : list (outcome ScVal)) : M S (string * option ScVal) :=
  submit_by signUnsignedXdr signerPublicKey fn args.
Definition simulate (fn : string) (args : list (outcome ScVal)) : M S JsValue := plain_simulate rpc config parse fn args.
Definition createProposal (proposer target fnName : string) (calldata : bytes) (requestedAmount : Z) : M S Num :=
  result ← submit proposer "create_proposal"
    [a_address proposer; a_address target; a_symbol fnName; a_bytes calldata; a_i128 requestedAmount];
  numeric <$> returned result.2.
Definition stake_args (staker : string) (proposalId amount : Z) : list (outcome ScVal) := [a_address staker; a_u64 proposalId; a_i128 amount].
Definition stake (staker : string) (proposalId amount : Z) : M S string :=
  fst <$> submit staker "stake" (stake_args staker proposalId amount).
Definition withdrawStake (staker : string) : M S string := fst <$> submit staker "withdraw_stake" [a_address staker].
Definition stakeWithSign (signerPublicKey : string) (proposalId amount : Z) (signUnsignedXdr : Signing) : M S string :=
  fst <$> submitWithSign signerPublicKey signUnsignedXdr "stake" (stake_args signerPublicKey proposalId amount).
Definition withdrawStakeWithSign (signerPublicKey : string) (signUnsignedXdr : Signing) : M S string :=
  fst <$> submitWithSign signerPublicKey signUnsignedXdr "withdraw_stake" [a_address signerPublicKey].
Definition read_proposal (native : JsValue) : M S SdkConvictionProposal :=
  id ← prop native "id"; id ← text_BigInt id; proposer ← prop native "proposer"; target ← prop native "target"; fnName ← prop native "fn_name";
  calldata ← prop native "calldata"; amount ← prop native "requested_amount"; amount ← text_BigInt amount;
  created ← prop native "created_ledger"; conviction ← prop native "conviction"; conviction ← text_BigInt conviction;
  updated ← prop native "last_updated_ledger"; executed ← prop native "executed"; cancelled ← prop native "cancelled";
  mret (mkSdkConviction id (js_String proposer) (js_String target) (js_String fnName) calldata amount (numeric created) conviction
    (numeric updated) (truthy executed) (truthy cancelled)).
Definition getProposal (proposalId : Z) : M S SdkConvictionProposal :=
  native ← simulate "get_proposal" [a_u64 proposalId]; read_proposal native.
(** The conviction a checkpoint returned, and whether the proposal is executed now. *)
Definition checkpoint (sign : Signing) (source : string) (proposalId : Z) : M S (Z * bool) :=
  result ← submit_by sign source "checkpoint_conviction" [a_u64 proposalId];
  native ← returned result.2; conviction ← js_BigInt native; proposal ← getProposal proposalId; mret (conviction, sv_executed proposal).
Definition checkpointConviction (caller : string) (proposalId : Z) : M S (Z * bool) := checkpoint (keypair caller) caller proposalId.
Definition checkpointConvictionWithSign (signerPublicKey : string) (proposalId : Z) (signUnsignedXdr : Signing) : M S (Z * bool) :=
  checkpoint signUnsignedXdr signerPublicKey proposalId.
Definition getRequiredThreshold (requestedAmount : Z) : M S Z :=
  native ← simulate "get_required_threshold" [a_i128 requestedAmount]; text_BigInt native.
Definition getConvictionHistory (proposalId : Z) : M S (list ConvictionSnapshot) :=
  plain_rows config fetch ("/conviction/proposals/" +:+ decimal proposalId +:+ "/conviction-history") (λ row,
    id ← prop row "proposal_id"; id ← text_BigInt id; ledger ← prop row "ledger"; conviction ← prop row "conviction";
    conviction ← text_BigInt conviction; mret (mkConvictionSnapshot id (numeric ledger) conviction)).
End client.
End ConvictionVotingClient.

(** ** [optimisticGovernor.ts] *)
Record SdkOptimisticProposal := mkSdkOptimistic {
  so_id : Z; so_proposer : string; so_target : string; so_fnName : string; so_calldata : JsValue; so_descriptionHash : JsValue;
  so_createdLedger : Num; so_challengeEndLedger : Num; so_objectionVotes : Z; so_state : JsValue }.
Record OptimisticSettings := mkOptimisticSettings {
  os_votesToken : string; os_challengeWindowLedgers : Num; os_objectionThresholdBps : Num; os_proposerBondAmount : Z;
  os_proposerBondToken : string }.
Record SdkObjection := mkSdkObjection { sj_proposalId : Z; sj_objector : string; sj_weight : Z; sj_runningTotal : Z; sj_ledger : Num }.
Inductive OptimisticState := StChallengeWindow | StObjected | StPassed | StExecuted | StCancelled.
Definition state_tag (st : OptimisticState) : string :=
  match st with
  | StChallengeWindow => "ChallengeWindow" | StObjected => "Objected" | StPassed => "Passed" | StExecuted => "Executed"
  | StCancelled => "Cancelled"
  end.
Definition toIndexerState (st : OptimisticState) : string :=
  match st with
  | StChallengeWindow => "challenge_window" | StObjected => "objected" | StPassed => "passed" | StExecuted => "executed"
  | StCancelled => "cancelled"
  end.
Definition optimistic_states : list OptimisticState := [StChallengeWindow; StObjected; StPassed; StExecuted; StCancelled].
Definition fromIndexerState (s : string) : OptimisticState :=
  default StChallengeWindow (find (λ st, String.eqb (toIndexerState st) s) optimistic_states).
(** [raw?.tag ?? String(raw)] *)
Definition mapState {S} (raw : JsValue) : M S JsValue :=
  tag ← (if nullish raw then mret VUndefined else prop raw "tag"); mret (tag ?? VStr (js_String raw)).
Definition mapProposal {S} (native : JsValue) : M S SdkOptimisticProposal :=
  id ← prop native "id"; id ← text_BigInt id; proposer ← prop native "proposer"; target ← prop native "target"; fnName ← prop native "fn_name";
  calldata ← prop native "calldata"; hash ← prop native "description_hash"; created ← prop native "created_ledger";
  challenge ← prop native "challenge_end_ledger"; votes ← prop native "objection_votes"; votes ← text_BigInt votes;
  state ← prop native "state"; state ← mapState state;
  mret (mkSdkOptimistic id (js_String proposer) (js_String target) (js_String fnName) calldata hash (numeric created) (numeric challenge) votes state).
Definition mapIndexedProposal {S} (row : JsValue) : M S SdkOptimisticProposal :=
  id ← prop row "proposal_id"; id ← text_BigInt id; proposer ← prop row "proposer"; created ← prop row "created_ledger";
  challenge ← prop row "challenge_end_ledger"; votes ← prop row "objection_votes"; votes ← text_BigInt (votes ?? VNum 0); state ← prop row "state";
  mret (mkSdkOptimistic id (js_String proposer) "" "" (VBytes []) (VBytes []) (numeric created) (numeric challenge) votes
    (VStr (state_tag (fromIndexerState (js_String state))))).

Module OptimisticGovernorClient.
Section client.
Context `{!Stellar} {S : Type} (rpc : Rpc S) (config : ClientConfig) (fetch : string → M S HttpAnswer).
Definition parse (raw : RawError) : JsError := typed "OptimisticGovernorError" (parseOptimisticGovernorError raw).
Definition submit_by (sign : Signing) (source fn : string) (args : list (outcome ScVal)) : M S (string * option ScVal) :=
  plain_submit rpc config parse sign source fn args.
Definition submit (signer fn : string) (args : list (outcome ScVal)) : M S (string * option ScVal) := submit_by (keypair signer) signer fn args.
Definition submitWithSign (signerPublicKey : string) (signUnsignedXdr : Signing) (fn : string) (args : list (outcome ScVal)) : M S (string * option ScVal) :=
  submit_by signUnsignedXdr signerPublicKey fn args.
Definition simulate (fn : string) (args : list (outcome ScVal)) : M S JsValue := plain_simulate rpc config parse fn args.
Definition hash_arg (descriptionHash : string) : outcome ScVal :=
  match hexToBytes32 descriptionHash with Ok bs => a_bytes bs | Throw e => Throw e end.
Definition propose_as (sign : Signing) (proposer target fnName : string) (calldata : bytes) (descriptionHash : string) : M S Num :=
  result ← submit_by sign proposer "propose"
    [a_address proposer; a_address target; a_symbol fnName; a_bytes calldata; hash_arg descriptionHash];
  numeric <$> returned result.2.
Definition propose (proposer target fnName : string) (calldata : bytes) (descriptionHash : string) : M S Num :=
  propose_as (keypair proposer) proposer target fnName calldata descriptionHash.
Definition proposeWithSign (proposerPublicKey target fnName : string) (calldata : bytes) (descriptionHash : string) (signUnsignedXdr : Signing) : M S Num :=
  propose_as signUnsignedXdr proposerPublicKey target fnName calldata descriptionHash.
Definition object (objector : string) (proposalId : Z) : M S string :=
  fst <$> submit objector "object" [a_address objector; a_u64 proposalId].
Definition objectWithSign (objectorPublicKey : string) (proposalId : Z) (signUnsignedXdr : Signing) : M S string :=
  fst <$> submitWithSign objectorPublicKey signUnsignedXdr "object" [a_address objectorPublicKey; a_u64 proposalId].
Definition getProposal (proposalId : Z) : M S SdkOptimisticProposal := native ← simulate "get_proposal" [a_u64 proposalId]; mapProposal native.
Definition finalizeWithSign (callerPublicKey : string) (proposalId : Z) (signUnsignedXdr : Signing) : M S JsValue :=
  submitWithSign callerPublicKey signUnsignedXdr "finalize" [a_u64 proposalId];; so_state <$> getProposal proposalId.
Definition finalize (caller : string) (proposalId : Z) : M S JsValue := finalizeWithSign caller proposalId (keypair caller).
Definition execute (caller : string) (proposalId : Z) : M S string := fst <$> submit caller "execute" [a_u64 proposalId].
Definition executeWithSign (callerPublicKey : string) (proposalId : Z) (signUnsignedXdr : Signing) : M S string :=
  fst <$> submitWithSign callerPublicKey signUnsignedXdr "execute" [a_u64 proposalId].
Definition cancel (caller : string) (proposalId : Z) : M S string :=
  fst <$> submit caller "cancel" [a_address caller; a_u64 proposalId].
Definition cancelWithSign (callerPublicKey : string) (proposalId : Z) (signUnsignedXdr : Signing) : M S string :=
  fst <$> submitWithSign callerPublicKey signUnsignedXdr "cancel" [a_address callerPublicKey; a_u64 proposalId].
Definition getConfig : M S OptimisticSettings :=
  native ← simulate "get_config" [];
  token ← prop native "votes_token"; window ← prop native "challenge_window_ledgers"; threshold ← prop native "objection_threshold_bps";
  amount ← prop native "proposer_bond_amount"; amount ← text_BigInt amount; bond ← prop native "proposer_bond_token";
  mret (mkOptimisticSettings (js_String token) (numeric window) (numeric threshold) amount (js_String bond)).
Definition updateConfig (admin : string) (challengeWindowLedgers objectionThresholdBps : Z) : M S string :=
  fst <$> submit admin "update_config" [a_address admin; a_u32 challengeWindowLedgers; a_u32 objectionThresholdBps].
Definition listProposals (status : option OptimisticState) : M S (list SdkOptimisticProposal) :=
  let query := match status with Some st => "?status=" +:+ toIndexerState st | None => "" end in
  plain_rows config fetch ("/optimistic/proposals" +:+ query) mapIndexedProposal.
Definition getObjections (proposalId : Z) : M S (list SdkObjection) :=
  plain_rows config fetch ("/optimistic/proposals/" +:+ decimal proposalId +:+ "/objections") (λ row,
    id ← prop row "proposal_id"; id ← text_BigInt id; objector ← prop row "objector"; weight ← prop row "weight"; weight ← text_BigInt weight;
    total ← prop row "running_total"; total ← text_BigInt total; ledger ← prop row "ledger";
    mret (mkSdkObjection id (js_String objector) weight total (numeric ledger))).
End client.
End OptimisticGovernorClient.

(** ** [proposalBonds.ts] *)
Record SdkBond := mkSdkBond { sb_proposer : string; sb_descriptionHash : string; sb_amount : Z; sb_lockedLedger : Num; sb_state : JsValue }.
Record SdkBondSettings := mkSdkBondSettings {
  bt_bondToken : string; bt_bondAmount : Z; bt_governor : string; bt_refundGraceLedgers : Num; bt_maxLockLedgers : Num }.
(** The hash as a text, from bytes in hexadecimal. *)
Definition hash_text {S} (v : JsValue) : M S string := match v with VStr s => mret s | v => buffer_hex v end.
(** [["Locked"]] or what else it is *)
Definition bond_state (rawState : JsValue) : JsValue := match rawState with VArr (VStr s :: _) => VStr s | v => v end.
Definition parseBond {S} (native : JsValue) : M S SdkBond :=
  hash ← prop native "description_hash"; hash ← hash_text hash; state ← prop native "state"; proposer ← prop native "proposer";
  amount ← prop native "amount"; amount ← js_BigInt amount; ledger ← prop native "locked_ledger";
  mret (mkSdkBond (js_String proposer) hash amount (numeric ledger) (bond_state state)).
Definition bond_states : list (string * string) := [("locked", "Locked"); ("refunded", "Refunded"); ("slashed", "Slashed")].
Definition mapBondFromIndexer {S} (raw : JsValue) : M S SdkBond :=
  address ← prop raw "proposer_address"; proposer ← prop raw "proposer"; hash ← prop raw "description_hash";
  amount ← prop raw "amount"; amount ← BigInt_or_0 amount; ledger ← prop raw "locked_ledger"; state ← prop raw "state";
  mret (mkSdkBond (js_String (address ?? proposer)) (js_String (hash ?? VStr "")) amount (numeric (ledger ?? VNum 0))
    (VStr (default "Locked" (jm_get (to_lower (js_String state)) bond_states)))).

Module ProposalBondsClient.
Section client.
Context `{!Stellar} {S : Type} (rpc : Rpc S) (config : ClientConfig) (onRetry : Z → JsError → M S unit) (fetch : string → M S HttpAnswer).
Definition class : string := "ProposalBondsError".
Definition parse (raw : RawError) (_ : option string) : TypedError := parseProposalBondsError raw.
Definition failed_code : Z := ProposalBondsErrorCode.num ProposalBondsErrorCode.TransactionFailed.
Definition timeout_code : Z := ProposalBondsErrorCode.num ProposalBondsErrorCode.TransactionTimeout.
Definition simulation_code : Z := ProposalBondsErrorCode.num ProposalBondsErrorCode.SimulationFailed.
(** The constructor wants the address of the contract. *)
Definition ProposalBondsClient (proposalBondsAddress : option string) : outcome string :=
  match proposalBondsAddress with
  | None | Some EmptyString => Throw (SdkError class failed_code "ProposalBondsClient requires config.proposalBondsAddress")
  | Some address => Ok address
  end.
Definition submit_by (sign : Signing) (source fn : string) (args : list (outcome ScVal)) : M S (string * option ScVal) :=
  retried_submit rpc config onRetry class failed_code timeout_code parse sign source fn args.
Definition submit (signer fn : string) (args : list (outcome ScVal)) : M S (string * option ScVal) := submit_by (keypair signer) signer fn args.
Definition submitWithSign (signerPublicKey : string) (signUnsignedXdr : Signing) (fn : string) (args : list (outcome ScVal)) : M S (string * option ScVal) :=
  submit_by signUnsignedXdr signerPublicKey fn args.
Definition hash_arg (descriptionHash : string) : outcome ScVal :=
  match hexToBytes32 descriptionHash with Ok bs => a_bytes bs | Throw e => Throw e end.
Definition lockBondWithSign (signerPublicKey descriptionHash : string) (signUnsignedXdr : Signing) : M S string :=
  fst <$> submitWithSign signerPublicKey signUnsignedXdr "lock_bond" [a_address signerPublicKey; hash_arg descriptionHash].
Definition lockBond (signer descriptionHash : string) : M S string :=
  fst <$> submit signer "lock_bond" [a_address signer; hash_arg descriptionHash].
Definition refundBondWithSign (callerPublicKey descriptionHash : string) (proposalId : Z) (signUnsignedXdr : Signing) : M S string :=
  fst <$> submitWithSign callerPublicKey signUnsignedXdr "refund_bond" [a_address callerPublicKey; hash_arg descriptionHash; a_u64 proposalId].
Definition refundBond (caller descriptionHash : string) (proposalId : Z) : M S string :=
  fst <$> submit caller "refund_bond" [a_address caller; hash_arg descriptionHash; a_u64 proposalId].
Definition encodeSlashCalldata (governorAddress descriptionHash recipient : string) : outcome bytes :=
  o_map (λ items, xdr_bytes (scvVec items)) (o_list id [a_address governorAddress; hash_arg descriptionHash; a_address recipient]).
Definition read {A} (fn : string) (args : list (outcome ScVal)) (missing : M S A) (parse_native : JsValue → M S A) : M S A :=
  retried_read rpc config onRetry fn args (simulation_failed class parse) missing parse_native.
Definition getBond (descriptionHash : string) : M S (option SdkBond) :=
  read "get_bond" [hash_arg descriptionHash] (mret None) (λ native, if nullish native then mret None else Some <$> parseBond native).
Definition getSettings : M S SdkBondSettings :=
  read "get_settings" [] (throw (SdkError class (ProposalBondsErrorCode.num ProposalBondsErrorCode.MissingReturnValue) "No return value from get_settings"))
    (λ native, token ← prop native "bond_token"; amount ← prop native "bond_amount"; amount ← js_BigInt amount; governor ← prop native "governor";
               grace ← prop native "refund_grace_ledgers"; most ← prop native "max_lock_ledgers";
               mret (mkSdkBondSettings (js_String token) amount (js_String governor) (numeric grace) (numeric most))).
Definition indexerRequest (path : string) : M S JsValue :=
  indexer_json rpc config onRetry fetch class failed_code simulation_code "ProposalBondsClient" path.
Definition listBonds (options : ListOptions) : M S (Page SdkBond) :=
  raw ← indexerRequest ("/proposal-bonds" +:+ query_text "state" options); read_page mapBondFromIndexer "hasMore" raw.
Definition getBondsByProposer (address : string) : M S (list SdkBond) :=
  raw ← indexerRequest ("/proposal-bonds/by-proposer/" +:+ address); data ← prop raw "data"; map_rows mapBondFromIndexer data.
Definition getProposalIdForDescriptionHash (descriptionHash : string) : M S (option Z) :=
  with_indexer config class simulation_code "ProposalBondsClient.getProposalIdForDescriptionHash" (λ url,
    retry_with rpc config onRetry network_only (
      resp ← fetch (url +:+ "/proposals/by-description-hash/" +:+ descriptionHash);
      if ha_status resp =? 404 then mret None
      else
        throw_if (negb (ha_ok resp)) (indexer_failed class failed_code resp);;
        proposal ← from_outcome (ha_json resp); id ← prop proposal "id"; Some <$> js_BigInt id)).
End client.
End ProposalBondsClient.

(** ** [coSponsorship.ts] *)
Record SdkDraft := mkSdkDraft {
  sf_id : Z; sf_creator : string; sf_description : string; sf_descriptionHash : string; sf_metadataUri : string; sf_targets : JsValue;
  sf_fnNames : JsValue; sf_calldatas : JsValue; sf_createdLedger : Num; sf_expiryLedger : Num; sf_coSponsors : JsValue;
  sf_coSponsorPower : list Z; sf_totalPower : Z; sf_finalized : bool; sf_cancelled : bool }.
Record Pledge := mkPledge { pl_sponsorAddress : JsValue; pl_pledgedPower : Z; pl_pledgedAtLedger : Num }.
Definition parseProposalDraft {S} (native : JsValue) : M S SdkDraft :=
  hash ← prop native "description_hash"; hash ← hash_text hash; id ← prop native "id"; id ← js_BigInt id; creator ← prop native "creator";
  description ← prop native "description"; uri ← prop native "metadata_uri"; targets ← prop native "targets"; fnNames ← prop native "fn_names";
  calldatas ← prop native "calldatas"; created ← prop native "created_ledger"; expiry ← prop native "expiry_ledger";
  sponsors ← prop native "co_sponsors"; powers ← prop native "co_sponsor_power"; powers ← map_rows js_BigInt (powers ?? VArr []);
  total ← prop native "total_power"; total ← js_BigInt total; finalized ← prop native "finalized"; cancelled ← prop native "cancelled";
  mret (mkSdkDraft id (js_String creator) (js_String description) hash (js_String uri) (targets ?? VArr []) (fnNames ?? VArr [])
    (calldatas ?? VArr []) (numeric created) (numeric expiry) (sponsors ?? VArr []) powers total (truthy finalized) (truthy cancelled)).
Definition mapDraftFromIndexer {S} (raw : JsValue) : M S SdkDraft :=
  hash ← prop raw "description_hash"; hash ← match hash with VStr s => mret s | v => if truthy v then buffer_hex v else mret "" end;
  id ← prop raw "id"; draft ← prop raw "draft_id"; id ← BigInt_or_0 (id ?? draft); creator ← prop raw "creator";
  description ← prop raw "description"; uri ← prop raw "metadata_uri"; targets ← prop raw "targets"; fnNames ← prop raw "fn_names";
  calldatas ← prop raw "calldatas"; created ← prop raw "created_ledger"; expiry ← prop raw "expiry_ledger";
  sponsors ← prop raw "co_sponsors"; powers ← prop raw "co_sponsor_power"; powers ← map_rows js_BigInt (powers ?? VArr []);
  total ← prop raw "total_power"; total ← BigInt_or_0 total; finalized ← prop raw "finalized"; cancelled ← prop raw "cancelled";
  mret (mkSdkDraft id (js_String creator) (js_String (description ?? VStr "")) hash (js_String (uri ?? VStr "")) (targets ?? VArr [])
    (fnNames ?? VArr []) (calldatas ?? VArr []) (numeric (created ?? VNum 0)) (numeric (expiry ?? VNum 0)) (sponsors ?? VArr []) powers total
    (truthy finalized) (truthy cancelled)).

Module CoSponsorshipClient.
Section client.
Context `{!Stellar} {S : Type} (rpc : Rpc S) (config : ClientConfig) (onRetry : Z → JsError → M S unit) (fetch : string → M S HttpAnswer).
Definition class : string := "CoSponsorshipError".
Definition failed_code : Z := CoSponsorshipErrorCode.num CoSponsorshipErrorCode.TransactionFailed.
Definition timeout_code : Z := CoSponsorshipErrorCode.num CoSponsorshipErrorCode.TransactionTimeout.
Definition simulation_code : Z := CoSponsorshipErrorCode.num CoSponsorshipErrorCode.SimulationFailed.
Definition CoSponsorshipClient (coSponsorshipAddress : option string) : outcome string :=
  match coSponsorshipAddress with
  | None | Some EmptyString => Throw (SdkError class failed_code "CoSponsorshipClient requires config.coSponsorshipAddress")
  | Some address => Ok address
  end.
Definition submit_by (sign : Signing) (source fn : string) (args : list (outcome ScVal)) : M S (string * option ScVal) :=
  retried_submit rpc config onRetry class failed_code timeout_code parseCoSponsorshipError sign source fn args.
Definition submit (signer fn : string) (args : list (outcome ScVal)) : M S (string * option ScVal) := submit_by (keypair signer) signer fn args.
Definition submitWithSign (signerPublicKey : string) (signUnsignedXdr : Signing) (fn : string) (args : list (outcome ScVal)) : M S (string * option ScVal) :=
  submit_by signUnsignedXdr signerPublicKey fn args.
Definition returned_value (fn : string) (returnVal : option ScVal) : M S Z :=
  raw ← unwrap returnVal (SdkError class (CoSponsorshipErrorCode.num CoSponsorshipErrorCode.MissingReturnValue) ("No return value from " +:+ fn));
  native ← to_native raw; js_BigInt native.
Definition draft_args (signer description : string) (descriptionHash : bytes) (metadataUri : string) (targets fnNames : list string)
    (calldatas : list bytes) : list (outcome ScVal) :=
  [a_address signer; a_string description; a_bytes descriptionHash; a_string metadataUri; a_vec a_address targets; a_vec a_symbol fnNames;
   a_vec a_bytes calldatas].
Definition createDraftWithSign (signerPublicKey description : string) (descriptionHash : bytes) (metadataUri : string)
    (targets fnNames : list string) (calldatas : list bytes) (signUnsignedXdr : Signing) : M S Z :=
  result ← submitWithSign signerPublicKey signUnsignedXdr "create_draft"
    (draft_args signerPublicKey description descriptionHash metadataUri targets fnNames calldatas);
  returned_value "create_draft" result.2.
Definition createDraft (signer description : string) (descriptionHash : bytes) (metadataUri : string) (targets fnNames : list string)
    (calldatas : list bytes) : M S Z :=
  createDraftWithSign signer description descriptionHash metadataUri targets fnNames calldatas (keypair signer).
Definition pledge_args (signer : string) (draftId : Z) : list (outcome ScVal) := [a_address signer; a_u64 draftId].
Definition coSponsorWithSign (signerPublicKey : string) (draftId : Z) (signUnsignedXdr : Signing) : M S string :=
  fst <$> submitWithSign signerPublicKey signUnsignedXdr "co_sponsor" (pledge_args signerPublicKey draftId).
Definition coSponsor (signer : string) (draftId : Z) : M S string :=
  fst <$> submit signer "co_sponsor" (pledge_args signer draftId).
Definition withdrawCoSponsorshipWithSign (signerPublicKey : string) (draftId : Z) (signUnsignedXdr : Signing) : M S string :=
  fst <$> submitWithSign signerPublicKey signUnsignedXdr "withdraw_co_sponsorship" (pledge_args signerPublicKey draftId).
Definition withdrawCoSponsorship (signer : string) (draftId : Z) : M S string :=
  fst <$> submit signer "withdraw_co_sponsorship" (pledge_args signer draftId).
Definition finalizeDraftWithSign (signerPublicKey : string) (draftId : Z) (signUnsignedXdr : Signing) : M S Z :=
  result ← submitWithSign signerPublicKey signUnsignedXdr "finalize_draft" (pledge_args signerPublicKey draftId);
  returned_value "finalize_draft" result.2.
Definition finalizeDraft (signer : string) (draftId : Z) : M S Z := finalizeDraftWithSign signer draftId (keypair signer).
Definition cancelDraftWithSign (signerPublicKey : string) (draftId : Z) (signUnsignedXdr : Signing) : M S string :=
  fst <$> submitWithSign signerPublicKey signUnsignedXdr "cancel_draft" (pledge_args signerPublicKey draftId).
Definition cancelDraft (signer : string) (draftId : Z) : M S string :=
  fst <$> submit signer "cancel_draft" (pledge_args signer draftId).
Definition read {A} (fn : string) (args : list (outcome ScVal)) (failed : option string → M S A) (missing : M S A) (parse_native : JsValue → M S A) : M S A :=
  retried_read rpc config onRetry fn args failed missing parse_native.
Definition getDraft (draftId : Z) : M S SdkDraft :=
  read "get_draft" [a_u64 draftId] (simulation_failed class parseCoSponsorshipError) (throw (PlainError "No return value")) parseProposalDraft.
Definition getActiveDrafts (offset limit : Z) : M S (list SdkDraft) :=
  read "get_active_drafts" [a_u64 offset; a_u64 limit] (λ _, mret []) (mret []) (map_rows parseProposalDraft).
Definition getCoSponsorPower (draftId : Z) (sponsor : string) : M S Z :=
  read "get_co_sponsor_power" [a_u64 draftId; a_address sponsor] (λ _, mret 0) (mret 0) js_BigInt.
Definition draftThresholdMet (draftId : Z) : M S JsValue :=
  read "draft_threshold_met" [a_u64 draftId] (λ _, mret (VBool false)) (mret (VBool false)) mret.
Definition indexerRequest (path : string) : M S JsValue :=
  indexer_json rpc config onRetry fetch class failed_code simulation_code "CoSponsorshipClient" path.
Definition listDrafts (options : ListOptions) : M S (Page SdkDraft) :=
  raw ← indexerRequest ("/co-sponsorship/drafts" +:+ query_text "status" options); read_page mapDraftFromIndexer "has_more" raw.
Definition getDraftsByCreator (address : string) : M S (list SdkDraft) :=
  raw ← indexerRequest ("/co-sponsorship/drafts?creator=" +:+ address); data ← prop raw "data"; map_rows mapDraftFromIndexer data.
Definition getDraftCoSponsorHistory (draftId : Z) : M S (list Pledge) :=
  raw ← indexerRequest ("/co-sponsorship/drafts/" +:+ decimal draftId +:+ "/co-sponsors"); data ← prop raw "data";
  map_rows (λ entry, sponsor ← prop entry "sponsor_address"; power ← prop entry "pledged_power"; power ← BigInt_or_0 power;
                     ledger ← prop entry "pledged_at_ledger"; mret (mkPledge sponsor power (numeric ledger))) data.
End client.
End CoSponsorshipClient.

(** ** [voteEscrow.ts] *)
Record Lock := mkLock {
  lk_owner : JsValue; lk_amount : Z; lk_start_ledger : Num; lk_end_ledger : Num; lk_initial_voting_power : Z; lk_withdrawn : bool }.
Definition read_lock {S} (native : JsValue) : M S Lock :=
  owner ← prop native "owner"; amount ← prop native "amount"; amount ← js_BigInt amount; start ← prop native "start_ledger";
  last ← prop native "end_ledger"; power ← prop native "initial_voting_power"; power ← js_BigInt power; withdrawn ← prop native "withdrawn";
  mret (mkLock owner amount (numeric start) (numeric last) power (truthy withdrawn)).

Module VoteEscrowClient.
Section client.
Context `{!Stellar} {S : Type} (rpc : Rpc S) (config : ClientConfig) (onRetry : Z → JsError → M S unit).
(** The default has no [retryOn]. *)
Definition defaults : RetryOptions := mkRetryOptions (Some 5) (Some 1000) None None.
Definition retry {A} (fn : M S A) : M S A := retry_with rpc config onRetry defaults fn.
Definition escrow_error (raw : RawError) : JsError := typed "VoteEscrowError" (parseVoteEscrowError raw).
(** [StrKey.isValidContract] *)
Definition VoteEscrowClient (isValidContract : string → bool) (voteEscrowAddress : JsValue) : outcome string :=
  match voteEscrowAddress with
  | VStr address => if isValidContract address then Ok address
                    else Throw (PlainError "VoteEscrowClient requires a valid voteEscrowAddress contract ID")
  | _ => Throw (PlainError "VoteEscrowClient requires a valid voteEscrowAddress contract ID")
  end.
Definition readAccount (fallback : option string) : string :=
  default (default (cc_address config) fallback) (cc_simulationAccount config).
(** Sent, and not waited for. *)
Definition send (sign : Signing) (source fn : string) (args : list (outcome ScVal)) : M S string :=
  retry (sd_hash <$> submit rpc sign source (cc_address config) fn args (λ result, escrow_error (raw_of result))).
Definition lock_args (signer : string) (amount durationLedgers : Z) : list (outcome ScVal) :=
  [a_address signer; a_i128 amount; a_u32 durationLedgers].
Definition createLock (signer : string) (amount durationLedgers : Z) : M S string :=
  send (keypair signer) signer "create_lock" (lock_args signer amount durationLedgers).
Definition createLockWithSign (signerPublicKey : string) (amount durationLedgers : Z) (signUnsignedXdr : Signing) : M S string :=
  send signUnsignedXdr signerPublicKey "create_lock" (lock_args signerPublicKey amount durationLedgers).
Definition increaseLockAmountWithSign (signerPublicKey : string) (additionalAmount : Z) (signUnsignedXdr : Signing) : M S string :=
  send signUnsignedXdr signerPublicKey "increase_lock_amount" [a_address signerPublicKey; a_i128 additionalAmount].
Definition extendLockWithSign (signerPublicKey : string) (newEndLedger : Z) (signUnsignedXdr : Signing) : M S string :=
  send signUnsignedXdr signerPublicKey "extend_lock" [a_address signerPublicKey; a_u32 newEndLedger].
Definition withdrawWithSign (signerPublicKey : string) (signUnsignedXdr : Signing) : M S string :=
  send signUnsignedXdr signerPublicKey "withdraw" [a_address signerPublicKey].
Definition escrow_config_args (admin : string) (minLockDuration maxLockDuration maxMultiplierBps : Z) : list (outcome ScVal) :=
  [a_address admin; a_u32 minLockDuration; a_u32 maxLockDuration; a_u32 maxMultiplierBps].
Definition updateEscrowConfig (signer : string) (minLockDuration maxLockDuration maxMultiplierBps : Z) : M S string :=
  send (keypair signer) signer "update_escrow_config" (escrow_config_args signer minLockDuration maxLockDuration maxMultiplierBps).
Definition encodeUpdateEscrowConfigCalldata (adminAddress : string) (minLockDuration maxLockDuration maxMultiplierBps : Z) : outcome CalldataProposal :=
  o_map (λ items, mkCalldataProposal (cc_address config) "update_escrow_config" (xdr_bytes (scvVec items)))
    (o_list id (escrow_config_args adminAddress minLockDuration maxLockDuration maxMultiplierBps)).
Definition increaseLockAmount (signer : string) (additionalAmount : Z) : M S string :=
  send (keypair signer) signer "increase_lock_amount" [a_address signer; a_i128 additionalAmount].
Definition extendLock (signer : string) (newEndLedger : Z) : M S string :=
  send (keypair signer) signer "extend_lock" [a_address signer; a_u32 newEndLedger].
Definition withdraw (signer : string) : M S string := send (keypair signer) signer "withdraw" [a_address signer].

(** *** Reads *)
Definition no_lock_or {A} (other : A) (error : option string) : M S A :=
  let e := parseVoteEscrowError (RawObject None error) in
  if err_code e =? VoteEscrowErrorCode.num VoteEscrowErrorCode.LockNotFound then mret other else throw (typed "VoteEscrowError" e).
Definition getLock (owner : string) : M S (option Lock) :=
  retry (
    result ← simulate rpc (readAccount (Some owner)) (cc_address config) "get_lock" [a_address owner];
    read_value result (no_lock_or None) (throw (escrow_error (RawString "Simulation returned no lock result")))
      (λ raw, native ← to_native raw; if nullish native then mret None else Some <$> read_lock native)).
Definition no_power : JsError := escrow_error (RawString "Simulation returned no voting power result").
Definition getVotingPower (owner : string) : M S Z :=
  retry (
    result ← simulate rpc (readAccount (Some owner)) (cc_address config) "get_votes" [a_address owner];
    read_value result (no_lock_or 0) (throw no_power)
      (λ raw, native ← to_native raw; if nullish native then throw no_power else js_BigInt native)).
(** The total, when there is one to speak of. *)
Definition getEscrowStats : M S (option Z) :=
  retry (
    ledgerSeq ← rpc_getLatestLedger rpc;
    read_or rpc (readAccount None) (cc_address config) "get_past_total_supply" [a_u32 ledgerSeq] None (λ native,
      if nullish native then mret None
      else
        totalLocked ← try_catch (Some <$> text_BigInt native) (λ _, mret None);
        mret (match totalLocked with Some 0 => None | other => other end))).
Definition amount (account : option string) (fn : string) (args : list (outcome ScVal)) : M S Z :=
  retry (read_or rpc (readAccount account) (cc_address config) fn args 0 js_BigInt).
Definition getPastVotes (owner : string) (ledger : Z) : M S Z := amount (Some owner) "get_past_votes" [a_address owner; a_u32 ledger].
Definition getPastTotalSupply (ledger : Z) : M S Z := amount None "get_past_total_supply" [a_u32 ledger].
Definition getLockHistory (owner : string) (offset limit : Z) : M S (list Lock) :=
  retry (read_or rpc (readAccount (Some owner)) (cc_address config) "get_lock_history" [a_address owner; a_u32 offset; a_u32 limit] []
    (λ native, match native with VArr l => map_m read_lock l | _ => mret [] end)).
Definition getToken : M S string :=
  retry (read_or rpc (readAccount None) (cc_address config) "token" [] "" (λ native, mret (js_String native))).
End client.
End VoteEscrowClient.
