(* ===== verification/SdkTreasury.v ===== *)
(** * The treasury client

    [sdk/src/treasury.ts]: batch transfers, spending caps, budget streams and the
    history the indexer keeps of them.  A submission is retried on errors of the
    network and on errors of the client itself, the missing confirmation among
    them. *)

From S2P Require Import Prelude JsValues SdkErrors Effects Server SdkEvents SdkSubscriptions SdkClient SdkTypes SdkGovernor SdkContracts.

(** ** What the client returns *)
Record BatchTransferRecipient := mkBatchTransferRecipient { br_address : string; br_amount : Z }.
Record SpendingCap := mkSpendingCap { sp_token : JsValue; sp_maxAmount : Z; sp_periodLedgers : Num }.
Record TreasuryTx := mkTreasuryTx {
  tt_id : Z; tt_proposer : JsValue; tt_target : JsValue; tt_approvals : Num; tt_executed : bool; tt_cancelled : bool }.
Record BatchTransferEvent := mkBatchTransferEvent {
  bv_opHash : JsValue; bv_token : JsValue; bv_recipientCount : JsValue; bv_totalAmount : Z; bv_ledger : JsValue }.
(** [StreamEvent]: an event of a stream in the history of the indexer. *)
Inductive HistoryEvent :=
  | HistoryCreated (name owner : JsValue)
  | HistorySpend (recipient : JsValue) (amount : Z)
  | HistoryBatch (totalAmount : Z) (recipientCount : JsValue)
  | HistoryRevoked (caller : JsValue) (unspentReturned : Z)
  | HistoryExtended (oldEndLedger newEndLedger : JsValue)
  | HistoryToppedUp (additionalAmount newTotalAmount : Z)
  | HistoryExhausted
  | HistoryExpired (unspent : Z).
Record StreamEvent := mkStreamEvent { he_streamId : Z; he_event : HistoryEvent; he_ledger : JsValue }.
Record CreateStreamParams := mkCreateStreamParams {
  cp_name : string; cp_owner : string; cp_token : string; cp_totalAllocated : Z; cp_startLedger : Z; cp_endLedger : Z;
  cp_maxSingleSpend : Z; cp_cooldownLedgers : Z; cp_proposalId : Z }.
Record BudgetStream := mkBudgetStream {
  bg_id : Z; bg_name : string; bg_owner : string; bg_token : string; bg_totalAllocated : Z; bg_totalSpent : Z; bg_startLedger : Num;
  bg_endLedger : Num; bg_isActive : bool; bg_isRevoked : bool; bg_revokedAtLedger : option Num; bg_maxSingleSpend : Z;
  bg_cooldownLedgers : Num; bg_lastSpendLedger : Num; bg_spendCount : Num; bg_createdByProposalId : Z }.
Record StreamSpend := mkStreamSpendRead {
  rs_streamId : Z; rs_spendIndex : Num; rs_recipient : string; rs_amount : Z; rs_memo : string; rs_executedAtLedger : Num; rs_executedBy : string }.
Record StreamBudgetReport := mkStreamBudgetReport {
  rr_streamId : Z; rr_name : string; rr_totalAllocated : Z; rr_totalSpent : Z; rr_remaining : Z; rr_utilizationBps : Num; rr_isActive : bool;
  rr_daysRemaining : Num; rr_spendCount : Num; rr_avgSpend : Z }.
Record TreasuryBudgetSummary := mkTreasuryBudgetSummary {
  rm_totalStreams : Num; rm_activeStreams : Num; rm_totalAllocatedByToken : list (string * Z); rm_totalSpentByToken : list (string * Z);
  rm_totalRemainingByToken : list (string * Z) }.

(** ** Readers *)
Definition encodeBatchRecipient `{!Stellar} (r : BatchTransferRecipient) : outcome ScVal :=
  a_map [("amount", a_i128 (br_amount r)); ("recipient", a_address (br_address r))].
Definition parseBudgetStreamFromNative {S} (s : JsValue) : M S BudgetStream :=
  id ← prop s "id"; id ← js_BigInt id; name ← prop s "name"; owner ← prop s "owner"; token ← prop s "token";
  allocated ← prop s "total_allocated"; allocated ← js_BigInt allocated; spent ← prop s "total_spent"; spent ← js_BigInt spent;
  first ← prop s "start_ledger"; last ← prop s "end_ledger"; active ← prop s "is_active"; revoked ← prop s "is_revoked";
  revokedAt ← prop s "revoked_at_ledger"; most ← prop s "max_single_spend"; most ← js_BigInt most; cooldown ← prop s "cooldown_ledgers";
  lastSpend ← prop s "last_spend_ledger"; count ← prop s "spend_count"; proposal ← prop s "created_by_proposal_id"; proposal ← js_BigInt proposal;
  mret (mkBudgetStream id (js_String name) (js_String owner) (js_String token) allocated spent (numeric first) (numeric last) (truthy active)
    (truthy revoked) (if nullish revokedAt then None else Some (numeric revokedAt)) most (numeric cooldown) (numeric lastSpend)
    (numeric count) proposal).
Definition read_spend {S} (s : JsValue) : M S StreamSpend :=
  id ← prop s "stream_id"; id ← js_BigInt id; index ← prop s "spend_index"; recipient ← prop s "recipient"; amount ← prop s "amount";
  amount ← js_BigInt amount; memo ← prop s "memo"; ledger ← prop s "executed_at_ledger"; by_ ← prop s "executed_by";
  mret (mkStreamSpendRead id (numeric index) (js_String recipient) amount (js_String memo) (numeric ledger) (js_String by_)).
Definition read_report {S} (r : JsValue) : M S StreamBudgetReport :=
  id ← prop r "stream_id"; id ← js_BigInt id; name ← prop r "name"; allocated ← prop r "total_allocated"; allocated ← js_BigInt allocated;
  spent ← prop r "total_spent"; spent ← js_BigInt spent; remaining ← prop r "remaining"; remaining ← js_BigInt remaining;
  bps ← prop r "utilization_bps"; active ← prop r "is_active"; days ← prop r "days_remaining"; count ← prop r "spend_count";
  avg ← prop r "avg_spend"; avg ← js_BigInt avg;
  mret (mkStreamBudgetReport id (js_String name) allocated spent remaining (numeric bps) (truthy active) (numeric days) (numeric count) avg).
(** [p[n]] *)
Definition item {S} (p : JsValue) (n : nat) : M S JsValue :=
  match p with
  | VUndefined | VNull => throw (TypeError "Cannot read properties of undefined")
  | VArr l => mret (default VUndefined (l !! n))
  | VStr s => mret (default VUndefined ((λ c, VStr (String c "")) <$> String.get n s))
  | _ => mret VUndefined
  end.
Definition parseTokenAmounts {S} (arr : JsValue) : M S (list (string * Z)) :=
  match arr with
  | VArr l => map_m (λ p, token ← item p 0; amount ← item p 1; amount ← js_BigInt amount; mret (js_String token, amount)) l
  | _ => mret []
  end.
Definition empty_summary : TreasuryBudgetSummary := mkTreasuryBudgetSummary (num 0) (num 0) [] [] [].
Definition read_summary {S} (s : JsValue) : M S TreasuryBudgetSummary :=
  total ← prop s "total_streams"; active ← prop s "active_streams"; allocated ← prop s "total_allocated_by_token";
  allocated ← parseTokenAmounts allocated; spent ← prop s "total_spent_by_token"; spent ← parseTokenAmounts spent;
  remaining ← prop s "total_remaining_by_token"; remaining ← parseTokenAmounts remaining;
  mret (mkTreasuryBudgetSummary (numeric total) (numeric active) allocated spent remaining).
Definition read_tx {S} (tx : JsValue) : M S TreasuryTx :=
  id ← prop tx "id"; id ← js_BigInt id; proposer ← prop tx "proposer"; target ← prop tx "target"; approvals ← prop tx "approvals";
  executed ← prop tx "executed"; cancelled ← prop tx "cancelled";
  mret (mkTreasuryTx id proposer target (numeric approvals) (truthy executed) (truthy cancelled)).
Definition read_cap {S} (cap : JsValue) : M S (option SpendingCap) :=
  if truthy cap then
    token ← prop cap "token"; most ← prop cap "max_amount"; most ← js_BigInt most; period ← prop cap "period_ledgers";
    mret (Some (mkSpendingCap token most (numeric period)))
  else mret None.
Definition I128_MAX : Z := 2 ^ 127 - 1.

(** ** The client *)
Module TreasuryClient.
Definition class : string := "TreasuryError".
Definition code : TreasuryErrorCode.t → Z := TreasuryErrorCode.num.
Definition treasury_error (c : TreasuryErrorCode.t) (text : string) : JsError := SdkError class (code c) text.
(** Errors of the contract have codes below 100; what is above is retried, but a
    failed transaction and a missing value. *)
Definition isRetryableSubmissionError `{!Stellar} (e : JsError) : bool :=
  isNetworkError e ||
  match e with
  | SdkError "TreasuryError" n _ =>
    (100 <=? n) && negb (n =? code TreasuryErrorCode.TransactionFailed) && negb (n =? code TreasuryErrorCode.MissingReturnValue)
  | _ => false
  end.

Section client.
Context `{!Stellar} {S : Type} (rpc : Rpc S) (config : ClientConfig) (onRetry : Z → JsError → M S unit) (fetch : string → M S HttpAnswer).
Abbreviation treasury := (cc_address config).
Definition retry {A} (fn : M S A) (retryOn : option (JsError → bool)) : M S A :=
  withRetry (createRetry (cc_retry config) network_only retryOn) fn onRetry (rpc_sleep rpc).
Definition readAccount (fallback : option string) : outcome string :=
  match or_else (cc_simulationAccount config) fallback with
  | None | Some EmptyString => Throw (treasury_error TreasuryErrorCode.InvalidArguments
      "TreasuryClient read methods require simulationAccount in TreasuryConfig")
  | Some account => Ok account
  end.
Definition pollForConfirmation (hash : string) : M S (option ScVal) :=
  await_confirmation rpc 2000 (λ hash, retry (rpc_getTransaction rpc hash) None) (failed_hash class (code TreasuryErrorCode.TransactionFailed) hash)
    (not_confirmed class (code TreasuryErrorCode.TransactionTimeout)) 10 hash.

(** *** Submissions *)

(** [o] as an argument that is encoded after [before]. *)
Definition encoded_after (before : outcome ScVal) (o : outcome ScVal) : outcome ScVal := match before with Ok _ => o | Throw e => Throw e end.
Definition rejected (result : SendResult) : JsError := typed class (parseTreasuryError (raw_of result)).
Definition confirmed (signer fnName : string) (args : list (outcome ScVal)) : M S (string * option ScVal) :=
  result ← submit rpc (keypair signer) signer treasury fnName args rejected;
  returnValue ← pollForConfirmation (sd_hash result);
  mret (sd_hash result, returnValue).
Definition submission {A} (fn : M S A) : M S A := retry fn (Some isRetryableSubmissionError).
Definition required (fnName : string) (returnVal : option ScVal) : M S ScVal :=
  unwrap returnVal (treasury_error TreasuryErrorCode.MissingReturnValue ("No return value from " +:+ fnName)).
Definition check_recipient (r : BatchTransferRecipient) : M S unit :=
  throw_if (br_amount r <=? 0) (treasury_error TreasuryErrorCode.InvalidArguments
    ("amount must be positive, got " +:+ decimal (br_amount r) +:+ " for " +:+ br_address r)).
Definition batchTransfer (signer token : string) (recipients : list BatchTransferRecipient) : M S string :=
  submission (
    throw_if (bool_decide (recipients = [])) (treasury_error TreasuryErrorCode.InvalidArguments "recipients list must not be empty");;
    map_m check_recipient recipients;;
    let recipientsScVal := a_vec encodeBatchRecipient recipients in
    result ← confirmed signer "batch_transfer" [encoded_after recipientsScVal (a_address signer); a_address token; recipientsScVal];
    returnVal ← required "batch_transfer" result.2; bytes ← to_native returnVal; buffer_hex bytes).
(** Sent, and not waited for. *)
Definition setSpendingCap (signer token : string) (maxAmount periodLedgers : Z) : M S unit :=
  submission (
    submit rpc (keypair signer) signer treasury "set_spending_cap"
      [a_address signer; a_address token; a_i128 maxAmount; a_u32 periodLedgers] rejected;;
    mret tt).
Definition submitWithLimit (signer target : string) (calldata : bytes) (amount : Z) : M S JsValue :=
  submission (
    result ← confirmed signer "submit_with_limit" [a_address signer; a_address target; a_bytes calldata; a_i128 amount];
    returnVal ← required "submit_with_limit" result.2; to_native returnVal).
Definition createStream (signer : string) (params : CreateStreamParams) : M S (Z * string) :=
  submission (
    result ← confirmed signer "create_stream"
      [a_address signer; a_symbol (cp_name params); a_address (cp_owner params); a_address (cp_token params);
       a_i128 (cp_totalAllocated params); a_u32 (cp_startLedger params); a_u32 (cp_endLedger params); a_i128 (cp_maxSingleSpend params);
       a_u32 (cp_cooldownLedgers params); a_u64 (cp_proposalId params)];
    returnVal ← required "create_stream" result.2; native ← to_native returnVal; streamId ← js_BigInt native;
    mret (streamId, result.1)).
Definition streamSpend (signer : string) (streamId : Z) (recipient : string) (amount : Z) (memo : string) : M S string :=
  submission (fst <$> confirmed signer "stream_spend"
    [a_address signer; a_u64 streamId; a_address recipient; a_i128 amount; a_string memo]).
Definition streamBatchSpend (signer : string) (streamId : Z) (recipients : list string) (amounts : list Z) (memo : string) : M S string :=
  submission (
    throw_if (negb (length recipients =? length amounts)%nat)
      (treasury_error TreasuryErrorCode.InvalidArguments "recipients and amounts must have the same length");;
    let recipientsScVal := a_vec a_address recipients in let amountsScVal := a_vec a_i128 amounts in
    fst <$> confirmed signer "stream_batch_spend"
      [encoded_after recipientsScVal (encoded_after amountsScVal (a_address signer)); a_u64 streamId; recipientsScVal; amountsScVal;
       a_string memo]).
Definition revokeStream (signer : string) (streamId : Z) : M S string :=
  submission (fst <$> confirmed signer "revoke_stream" [a_address signer; a_u64 streamId]).
Definition extendStream (signer : string) (streamId newEndLedger : Z) : M S string :=
  submission (fst <$> confirmed signer "extend_stream" [a_address signer; a_u64 streamId; a_u32 newEndLedger]).
Definition topUpStream (signer : string) (streamId additionalAmount : Z) : M S string :=
  submission (fst <$> confirmed signer "top_up_stream" [a_address signer; a_u64 streamId; a_i128 additionalAmount]).

(** *** Reads *)
Definition read {A} (fnName : string) (args : list (outcome ScVal)) (failed missing : M S A) (parse : JsValue → M S A) : M S A :=
  retry (
    account ← from_outcome (readAccount None);
    result ← simulate rpc account treasury fnName args;
    read_value result (λ _, failed) missing (λ raw, native ← to_native raw; parse native)) None.
Definition read_or_default {A} (fnName : string) (args : list (outcome ScVal)) (other : A) (parse : JsValue → M S A) : M S A :=
  read fnName args (mret other) (mret other) parse.
Definition getSpendingCap (token : string) : M S (option SpendingCap) := read_or_default "get_spending_cap" [a_address token] None read_cap.
Definition getSpentThisPeriod (token : string) : M S Z := read_or_default "get_spent_this_period" [a_address token] 0 js_BigInt.
Definition getSpendingRemaining (token : string) : M S (option Z) :=
  read_or_default "get_spending_remaining" [a_address token] None (λ native,
    remaining ← js_BigInt native; mret (if remaining =? I128_MAX then None else Some remaining)).
Definition getOwners : M S (list string) := read_or_default "owners" [] [] (map_rows (λ owner, mret (js_String owner))).
Definition getThreshold : M S Num := read_or_default "threshold" [] (num 1) (λ native, mret (numeric native)).
Definition isOwner (address : string) : M S bool :=
  read_or_default "is_treasury_owner" [a_address address] false (λ native, mret (truthy native)).
Definition getOwner : M S string := read_or_default "get_owner" [] "" (λ native, mret (js_String native)).
Definition isGovernor (address : string) : M S bool := governor ← getOwner; mret (String.eqb governor address).
Definition getTxCount : M S Z := read_or_default "tx_count" [] 0 js_BigInt.
Definition missing_value {A} (call : string) : M S A :=
  throw (treasury_error TreasuryErrorCode.MissingReturnValue ("No return value from " +:+ call)).
Definition getTx (txId : Z) : M S TreasuryTx :=
  read "get_tx" [a_u64 txId]
    (throw (treasury_error TreasuryErrorCode.InvalidArguments ("Treasury transaction " +:+ decimal txId +:+ " not found")))
    (missing_value ("get_tx(" +:+ decimal txId +:+ ")")) read_tx.
Definition stream_not_found {A} (streamId : Z) : M S A :=
  throw (treasury_error TreasuryErrorCode.StreamNotFound ("Stream " +:+ decimal streamId +:+ " not found")).
Definition getStream (streamId : Z) : M S BudgetStream :=
  read "get_stream" [a_u64 streamId] (stream_not_found streamId) (missing_value ("get_stream(" +:+ decimal streamId +:+ ")"))
    parseBudgetStreamFromNative.
(** [options?.offset ?? 0] and [options?.limit ?? 20] *)
Definition getStreams (offset limit : option Z) : M S (list BudgetStream) :=
  read_or_default "get_streams" [a_u64 (default 0 offset); a_u64 (default 20 limit)] [] (map_rows parseBudgetStreamFromNative).
Definition getStreamsByOwner (owner : string) (offset limit : option Z) : M S (list BudgetStream) :=
  read_or_default "get_streams_by_owner" [a_address owner; a_u64 (default 0 offset); a_u64 (default 20 limit)] []
    (map_rows parseBudgetStreamFromNative).
Definition getStreamSpends (streamId : Z) (offset limit : option Z) : M S (list StreamSpend) :=
  read_or_default "get_stream_spends" [a_u64 streamId; a_u32 (default 0 offset); a_u32 (default 50 limit)] [] (map_rows read_spend).
Definition getStreamReport (streamId : Z) : M S StreamBudgetReport :=
  read "get_stream_report" [a_u64 streamId] (stream_not_found streamId) (missing_value ("get_stream_report(" +:+ decimal streamId +:+ ")"))
    read_report.
Definition getBudgetSummary : M S TreasuryBudgetSummary := read_or_default "get_budget_summary" [] empty_summary read_summary.
Definition getStreamRemaining (streamId : Z) : M S Z := read_or_default "get_stream_remaining" [a_u64 streamId] 0 js_BigInt.

(** *** The history of the indexer *)

(** [url.replace(/\/$/, '')] *)
Fixpoint without_slash (url : string) : string :=
  match url with
  | String c url => if Ascii.eqb c (Ascii.ascii_of_N 47) && String.eqb url "" then EmptyString else String c (without_slash url)
  | EmptyString => EmptyString
  end.
Definition history {A} (method path : string) (row : JsValue → M S A) : M S (list A) :=
  match cc_indexerUrl config with
  | None | Some EmptyString => throw (treasury_error TreasuryErrorCode.InvalidArguments ("indexerUrl must be set in TreasuryConfig to use " +:+ method))
  | Some url =>
    response ← fetch (without_slash url +:+ path);
    throw_if (negb (ha_ok response)) (indexer_failed class (code TreasuryErrorCode.TransactionFailed) response);;
    json ← from_outcome (ha_json response); data ← prop json "data"; map_rows row data
  end.
Definition page_text (limit offset : Z) : string := "limit=" +:+ decimal (Z.min limit 100) +:+ "&offset=" +:+ decimal offset.
Definition read_transfer (row : JsValue) : M S BatchTransferEvent :=
  hash ← prop row "op_hash"; token ← prop row "token"; count ← prop row "recipient_count"; amount ← prop row "total_amount";
  amount ← js_BigInt amount; ledger ← prop row "ledger";
  mret (mkBatchTransferEvent hash token count amount ledger).
(** [ledger >= fromLedger] *)
Definition from_ledger (fromLedger : Z) (e : BatchTransferEvent) : bool :=
  match js_Number (bv_ledger e) with VNum n => fromLedger <=? n | _ => false end.
Definition getBatchTransferHistory (fromLedger : option Z) (limit offset : Z) : M S (list BatchTransferEvent) :=
  events ← history "getBatchTransferHistory" ("/treasury/transfers?" +:+ page_text limit offset) read_transfer;
  mret (match fromLedger with None => events | Some first => List.filter (from_ledger first) events end).
(** [BigInt(v ?? "0")] *)
Definition amount_or_0 (v : JsValue) : M S Z := js_BigInt (v ?? VStr "0").
Definition read_event (row : JsValue) : M S StreamEvent :=
  let text key := v ← prop row key; mret (v ?? VStr "") in
  let count key := v ← prop row key; mret (v ?? VNum 0) in
  let amount key := v ← prop row key; amount_or_0 v in
  ledger ← prop row "ledger"; id ← prop row "stream_id"; id ← js_BigInt id; kind ← prop row "event_type";
  event ← match kind with
    | VStr "stream_created" => name ← text "name"; owner ← text "owner"; mret (HistoryCreated name owner)
    | VStr "stream_spend" => recipient ← text "recipient"; n ← amount "amount"; mret (HistorySpend recipient n)
    | VStr "stream_batch" => n ← amount "total_amount"; recipients ← count "recipient_count"; mret (HistoryBatch n recipients)
    | VStr "stream_revoked" => caller ← text "caller"; n ← amount "unspent_returned"; mret (HistoryRevoked caller n)
    | VStr "stream_extended" => old ← count "old_end_ledger"; new ← count "new_end_ledger"; mret (HistoryExtended old new)
    | VStr "stream_topped_up" => n ← amount "additional_amount"; total ← amount "new_total_amount"; mret (HistoryToppedUp n total)
    | VStr "stream_exhausted" => mret HistoryExhausted
    | VStr "stream_expired" => n ← amount "unspent"; mret (HistoryExpired n)
    | _ => throw (treasury_error TreasuryErrorCode.InvalidArguments ("Unknown stream event type: " +:+ js_String kind))
    end;
  mret (mkStreamEvent id event ledger).
Definition getStreamHistory (streamId limit offset : Z) : M S (list StreamEvent) :=
  history "getStreamHistory" ("/treasury/stream-events?stream_id=" +:+ decimal streamId +:+ "&" +:+ page_text limit offset) read_event.
End client.
End TreasuryClient.
