(* ===== verification/SdkOnMock.v ===== *)
(** * The SDK on the mock server

    The clients run against [MockSorobanServer], as the simulation harness has
    them: the RPC is the mock server, and a transaction reaches it with its
    arguments decoded.  A call of a client is then a call of the executor. *)

From S2P Require Import Prelude SdkErrors JsValues Effects AddressOrder Store TokenVotes Timelock Proposals Governor Server ServerSafety.
From S2P Require Import SdkTypes SdkEvents SdkSubscriptions SdkDelivery ContractEvents SdkClient SdkTimelock SdkVotes SdkGovernor.
Open Scope Z_scope.

(** ** What the Stellar library promises *)

(** The plain data of a value encoded for a type. *)
Definition native_of (value : Encodable) (type : string) : JsValue :=
  match value with
  | EText s => VStr s
  | EInt n => if String.eqb type "u32" then VNum n else VBig n
  | EBool b => VBool b
  | EBytes bs => VBytes bs
  end.
(** The types that values are encoded for by the clients and by the mock server. *)
Definition encoded_as (value : Encodable) (type : string) : bool :=
  existsb (String.eqb type) match value with
                            | EText _ => ["address"; "string"; "symbol"]
                            | EInt _ => ["u32"; "u64"; "i128"]
                            | EBool _ => ["boolean"]
                            | EBytes _ => ["bytes"]
                            end.
(** [scValToNative] gives back what was encoded for these types, objects with different keys among
    it; what [assembleTransaction] adds is no call and no other source; and an error
    of [errors.ts] has no response of the HTTP client. *)
Class StellarLaws `{!Stellar} := {
  law_native : ∀ value type v, nativeToScVal value type = Ok v → encoded_as value type = true → scValToNative v = Ok (native_of value type);
  law_void : scValToNative scvVoid = Ok VNull;
  law_symbol : ∀ s, scValToNative (scvSymbol s) = Ok (VStr s);
  law_bool : ∀ b, scValToNative (scvBool b) = Ok (VBool b);
  law_vec : ∀ items natives, Forall2 (λ v n, scValToNative v = Ok n) items natives → scValToNative (scvVec items) = Ok (VArr natives);
  law_map : ∀ entries natives, NoDup (entries.*1) →
    Forall2 (λ (e : string * ScVal) (n : string * JsValue), e.1 = n.1 ∧ scValToNative e.2 = Ok n.2) entries natives →
    scValToNative (scvMap entries) = Ok (VObj natives);
  law_assemble : ∀ tx response, t_call (assemble tx response) = t_call tx ∧ ac_id (t_account (assemble tx response)) = ac_id (t_account tx);
  law_status : ∀ class code text, response_status (SdkError class code text) = None }.
Arguments StellarLaws : clear implicits.
Arguments StellarLaws {_}.

(** ** The mock server as an RPC *)
Fixpoint arg_of (v : JsValue) : Arg :=
  match v with
  | VStr s => AText s | VBytes bs => ABytes bs | VBig n => ABig n | VNum n => ANum n
  | VArr l => AList (List.map arg_of l)
  | _ => AOther
  end.
Section mock.
Context `{!Stellar} (sha256 : bytes → bytes) (decode_calldata : bytes → outcome (list native)) (hash_of : Tx → string).
Definition invocation_of (tx : Tx) : outcome DecodedInvocation :=
  o_map (λ args, mkInvocation (cl_contract (t_call tx)) (cl_function (t_call tx)) (arg_of <$> args) (ac_id (t_account tx)))
    (o_list scValToNative (cl_args (t_call tx))).
Definition deliver {A} (tx : Tx) (answer : Transaction → M MockSorobanServer A) : M MockSorobanServer A :=
  invocation ← from_outcome (invocation_of tx); answer (mkTransaction (Some invocation) (hash_of tx)).
Definition simulation_of (answer : Simulated) : Simulation :=
  match answer with
  | SimulatedValue _ retval =>
    SimulationSuccess (mkSimulationResponse (Some retval) VUndefined (VObj [("cpuInsns", VStr "0"); ("memBytes", VStr "0")])
      (VStr "100000") VUndefined)
  | SimulatedError _ error => SimulationError (Some error)
  end.
Definition result_of (answer : Server.Sent) : SendResult :=
  match answer with
  | SentPending hash closeTime =>
    mkSendResult "PENDING" hash None
      (stringifyJson (VObj [("status", VStr "PENDING"); ("hash", VStr hash); ("latestLedgerCloseTime", VStr (decimal closeTime))]))
  | SentError hash error =>
    mkSendResult "ERROR" hash (Some error) (stringifyJson (VObj [("status", VStr "ERROR"); ("hash", VStr hash); ("error", VStr error)]))
  end.
Definition status_of (answer : Found) : TxStatus :=
  match answer with NotFound => TxMissing | FoundFailed => TxFailed | FoundSuccess v _ => TxSuccess (Some v) end.
(** It has no events, and its clock is moved by the harness alone. *)
Definition mock_rpc : Rpc MockSorobanServer :=
  mkRpc (λ a, (λ account, mkAccount account.1 account.2) <$> getAccount a)
    (λ tx, simulation_of <$> deliver tx (simulateTransaction sha256 decode_calldata))
    (λ tx, mret tx)
    (λ e, result_of <$> deliver (en_tx e) (sendTransaction sha256 decode_calldata))
    (λ hash, status_of <$> getTransaction hash)
    Server.getLatestLedger
    (λ _, throw (TypeError "getEvents is not a function"))
    (λ _ s, s) (λ _, 0).
End mock.

(** ** Retries that change nothing *)
Definition no_hook {S} (attempt : Z) (e : JsError) : M S unit := mret tt.
Lemma retry_ok {S A} opts (fn : M S A) onRetry sleep s a s' :
  1 ≤ default 3 (maxAttempts opts) → fn s = (Ok a, s') → withRetry opts fn onRetry sleep s = (Ok a, s').
Proof.
  intros Hmax Hfn. unfold withRetry. destruct (Z.to_nat (default 3 (maxAttempts opts))) as [|n] eqn:Hn; [lia|].
  cbn [attempts]. by rewrite Hfn.
Qed.
Lemma retry_final {S A} opts (fn : M S A) onRetry sleep s e s' :
  1 ≤ default 3 (maxAttempts opts) → fn s = (Throw e, s') → retryable opts e = false → withRetry opts fn onRetry sleep s = (Throw e, s').
Proof.
  intros Hmax Hfn Hre. unfold withRetry. destruct (Z.to_nat (default 3 (maxAttempts opts))) as [|n] eqn:Hn; [lia|].
  cbn [attempts]. rewrite Hfn, Hre. done.
Qed.
(** An attempt that always ends alike ends the call alike. *)
Lemma retry_same {S A} opts (fn : M S A) s o :
  1 ≤ default 3 (maxAttempts opts) → fn s = (o, s) → withRetry opts fn no_hook (λ _ s, s) s = (o, s).
Proof.
  intros Hmax Hfn. unfold withRetry. set (mx := default 3 (maxAttempts opts)) in *.
  assert (∀ k attempt e, (0 < k)%nat → attempt + Z.of_nat k = mx + 1 → attempts opts fn no_hook (λ _ s, s) k attempt e s = (o, s)) as Hk.
  { induction k as [|k IH]; intros attempt e Hpos Hsum; [lia|]. cbn [attempts]. rewrite Hfn. destruct o as [a|e']; [done|]. fold mx.
    destruct (retryable opts e'); [|done]. cbn. destruct (Z.eqb_spec attempt mx) as [|Hne]; [done|].
    unfold mbind, M_bind, no_hook, modify. cbn. apply IH; lia. }
  apply Hk; lia.
Qed.

(** ** Calls on the mock server *)
Section on_mock.
Context `{!Stellar, !StellarLaws} (sha256 : bytes → bytes) (decode_calldata : bytes → outcome (list native)) (hash_of : Tx → string).
Context (config : GovernorConfig).
Abbreviation rpc := (mock_rpc sha256 decode_calldata hash_of).
Abbreviation run := (invoke sha256 decode_calldata).
Implicit Types (s : MockSorobanServer).
Definition natives (vals : list ScVal) (ns : list JsValue) : Prop := Forall2 (λ v n, scValToNative v = Ok n) vals ns.
Lemma o_list_Forall2 {A B} (f : A → outcome B) l k : o_list f l = Ok k ↔ Forall2 (λ x y, f x = Ok y) l k.
Proof.
  split.
  - revert k. induction l as [|x l IH]; intros k; cbn; [by intros [= <-]|]. destruct (f x) as [y|] eqn:Hf; [|done].
    destruct (o_list f l) as [k'|]; [|done]. intros [= <-]. constructor; [done|by apply IH].
  - induction 1 as [|x y l k Hx _ IH]; [done|]. cbn. by rewrite Hx, IH.
Qed.
Lemma encode_ok {S} (vals : list ScVal) (s : S) : map_m from_outcome (Ok <$> vals : list (outcome ScVal)) s = (Ok vals, s).
Proof. induction vals as [|v vals IH]; [done|]. rewrite fmap_cons. cbn [map_m]. unfold mbind, M_bind. unfold from_outcome in *. by rewrite IH. Qed.
Lemma build_on_mock source c fnName (vals : list ScVal) s :
  build rpc source c fnName (Ok <$> vals) s = (Ok (mkTx (mkAccount source 0) (mkCall c fnName vals)), s).
Proof.
  unfold build, mbind, M_bind. change (rpc_getAccount rpc source s) with (Ok (mkAccount source 0), s). cbv beta iota. by rewrite encode_ok.
Qed.
Definition call_of source c fnName ns : DecodedInvocation := mkInvocation c fnName (arg_of <$> ns) source.
Lemma invocation_ok source c fnName vals ns :
  natives vals ns → invocation_of (mkTx (mkAccount source 0) (mkCall c fnName vals)) = Ok (call_of source c fnName ns).
Proof. intros Hn. unfold invocation_of. cbn. apply o_list_Forall2 in Hn. by rewrite Hn. Qed.
(** What a simulation answers, by what the contract does. *)
Definition simulated (result : outcome ScVal) (ledger : Z) : Simulation :=
  simulation_of (match result with Ok v => SimulatedValue ledger v | Throw e => SimulatedError ledger (Server.error_text e) end).
Lemma simulate_on_mock source c fnName vals ns contract s :
  natives vals ns → resolve (st_addresses (sv_store s)) c = Some contract →
  simulate rpc source c fnName (Ok <$> vals) s =
  (Ok (simulated (run (sv_clock s) contract (call_of source c fnName ns) (sv_store s)).1 (sequence (sv_clock s))), s).
Proof.
  intros Hn Hc. unfold simulate, mbind, M_bind. rewrite build_on_mock. cbn -[invocation_of invoke].
  unfold fmap, M_fmap, deliver, mbind, M_bind, from_outcome. rewrite (invocation_ok _ _ _ _ _ Hn).
  unfold simulateTransaction, decodeInvocation, resolveContract, mbind, M_bind, get, unwrap. cbn -[invoke resolve].
  unfold call_of. rewrite Hc. cbn -[invoke]. by destruct (run _ _ _ _) as [[v|e] store].
Qed.
(** The server after a transaction was sent. *)
Definition sent_state (hash : string) (result : outcome ScVal * MockLedgerStore) s : MockSorobanServer :=
  s <| sv_store := result.2 |> <| sv_results ::= <[hash := match result.1 with Ok v => Success v | Throw e => Failed (Server.error_text e) end]> |>.
Definition sent_result (hash : string) (result : outcome ScVal * MockLedgerStore) (time : Z) : SendResult :=
  result_of (match result.1 with Ok _ => SentPending hash time | Throw e => SentError hash (Server.error_text e) end).
Lemma send_invocation tx iv signers contract s :
  invocation_of tx = Ok iv → resolve (st_addresses (sv_store s)) (iv_contractAddress iv) = Some contract →
  let result := run (sv_clock s) contract iv (sv_store s) in
  rpc_send rpc (mkEnvelope tx signers) s = (Ok (sent_result (hash_of tx) result (timestamp (sv_clock s))), sent_state (hash_of tx) result s).
Proof.
  intros Hiv Hc result. cbn -[invocation_of]. unfold fmap, M_fmap, deliver, mbind, M_bind, from_outcome. rewrite Hiv.
  unfold sendTransaction, decodeInvocation, resolveContract, mbind, M_bind, get, unwrap.
  cbn -[invoke resolve]. rewrite Hc. cbn -[invoke]. subst result. by destruct (run _ _ _ _) as [[v|e] store].
Qed.
Lemma send_on_mock source c fnName vals ns signers contract s :
  natives vals ns → resolve (st_addresses (sv_store s)) c = Some contract →
  let tx := mkTx (mkAccount source 0) (mkCall c fnName vals) in
  let result := run (sv_clock s) contract (call_of source c fnName ns) (sv_store s) in
  rpc_send rpc (mkEnvelope tx signers) s = (Ok (sent_result (hash_of tx) result (timestamp (sv_clock s))), sent_state (hash_of tx) result s).
Proof. intros Hn Hc tx result. apply (send_invocation _ (call_of source c fnName ns)); [by apply invocation_ok|done]. Qed.
(** What [assembleTransaction] makes of a transaction is the same call. *)
Lemma invocation_assemble tx response : invocation_of (assemble tx response) = invocation_of tx.
Proof. unfold invocation_of. by destruct (law_assemble tx response) as [-> ->]. Qed.
Lemma found_on_mock hash v store s :
  rpc_getTransaction rpc hash (sent_state hash (Ok v, store) s) = (Ok (TxSuccess (Some v)), sent_state hash (Ok v, store) s).
Proof. cbn. unfold fmap, M_fmap, getTransaction, gets, sent_state. cbn. by rewrite lookup_insert_eq. Qed.
Lemma poll_on_mock hash v store s :
  GovernorClient.pollForConfirmation rpc hash (sent_state hash (Ok v, store) s) = (Ok (Some v), sent_state hash (Ok v, store) s).
Proof.
  unfold GovernorClient.pollForConfirmation. cbn [await_confirmation]. unfold mbind, M_bind, modify.
  change (rpc_sleep rpc 2000 ?s) with s. by rewrite found_on_mock.
Qed.
(** A submission of the governor client runs the executor once. *)
Lemma confirmed_on_mock source fnName vals ns contract rejected s :
  natives vals ns → resolve (st_addresses (sv_store s)) (gc_governorAddress config) = Some contract →
  let hash := hash_of (mkTx (mkAccount source 0) (mkCall (gc_governorAddress config) fnName vals)) in
  let result := run (sv_clock s) contract (call_of source (gc_governorAddress config) fnName ns) (sv_store s) in
  GovernorClient.confirmed rpc config (keypair source) source fnName (Ok <$> vals) rejected s =
  (match result.1 with
   | Ok v => Ok (hash, Some v)
   | Throw _ => Throw (rejected (sent_result hash result (timestamp (sv_clock s))))
   end, sent_state hash result s).
Proof.
  intros Hn Hc hash result. unfold GovernorClient.confirmed, submit, submit_tx, mbind, M_bind. rewrite build_on_mock.
  change (rpc_prepare rpc ?tx s) with (Ok tx, s). cbv beta iota.
  unfold keypair, mret, M_ret. rewrite (send_on_mock _ _ _ _ _ _ _ _ Hn Hc). fold result hash. cbv beta iota.
  destruct result as [[v|e] store]; unfold sent_result; cbn [fst result_of]; unfold throw_if; cbn [sd_status String.eqb Ascii.eqb Bool.eqb];
    [|done].
  unfold mret, M_ret. cbn [sd_hash]. by rewrite poll_on_mock.
Qed.
End on_mock.

(** ** A Stellar library for the examples

    Values keep what was encoded; every account exists; a hash is the function of
    the call and its source. *)
Module SdkExample.
Fixpoint toy_native (v : ScVal) : outcome JsValue :=
  match v with
  | scvVoid => Ok VNull
  | scvSymbol s => Ok (VStr s)
  | scvBool b => Ok (VBool b)
  | scvVec items => o_map VArr (o_list toy_native items)
  | scvMap entries => o_map VObj (o_list (λ e, o_map (pair e.1) (toy_native e.2)) entries)
  | scvNative type value => Ok (native_of value type)
  end.
Definition toy_untyped (v : JsValue) : outcome ScVal :=
  match v with
  | VBool b => Ok (scvBool b)
  | VStr s => Ok (scvNative "string" (EText s))
  | VBig n => Ok (scvNative "i128" (EInt n))
  | _ => Ok scvVoid
  end.
#[export] Instance toy : Stellar := {|
  stellar_codec := ServerExample.encoder;
  scValToNative := toy_native;
  nativeStruct := λ fields, a_map ((λ f, (f.1, ServerExample.encoder f.2.1 f.2.2)) <$> fields);
  nativeUntyped := toy_untyped;
  xdr_bytes := λ _, [];
  assemble := λ tx _, tx;
  check_contract := λ _, Ok tt;
  BASE_FEE := "100";
  response_status := λ _, None |}.
Lemma toy_list items natives : Forall2 (λ v n, toy_native v = Ok n) items natives → o_list toy_native items = Ok natives.
Proof. by intros H%o_list_Forall2. Qed.
#[export] Instance toy_laws : StellarLaws.
Proof.
  split; try done.
  - intros value type v Hv _. cbn in *. destruct value; cbn in Hv.
    2,3,4: by injection Hv as <-.
    destruct (_ && _); [done|by injection Hv as <-].
  - intros items natives Hi. cbn. by rewrite (toy_list _ _ Hi).
  - intros entries natives _ He. cbn.
    assert (o_list (λ e, o_map (pair e.1) (toy_native e.2)) entries = Ok natives) as ->; [|done].
    apply o_list_Forall2. induction He as [|[k v] [k' n] entries natives [Hk Hv] _ IH]; [done|]. constructor; [|done].
    cbn in *. subst. by rewrite Hv.
Qed.
Definition toy_hash (tx : Tx) : string := ac_id (t_account tx) +:+ "." +:+ cl_function (t_call tx).
Definition toy_retry : ClientRetryConfig := mkClientRetryConfig None None None.
Definition toy_config : GovernorConfig := mkGovernorConfig "gov" "timelock" "votes" None None toy_retry.

(** Bob proposes, votes and comes back when the vote is over. *)
Import ServerExample.
Abbreviation toy_rpc := (mock_rpc sha dec toy_hash).
Definition sdk_proposed : MockSorobanServer :=
  (GovernorClient.propose toy_rpc toy_config no_hook "bob" "text"
     (Described (repeated 64 "0") "uri" ["alice"] (Some ["f"]) (Some [[]])) later).2.
Definition voting : MockSorobanServer := sdk_proposed <| sv_clock := StoreExamples.clk 9 |>.
Definition voted : MockSorobanServer := (GovernorClient.castVote toy_rpc toy_config no_hook "bob" 1 For voting).2.
Definition closed : MockSorobanServer := voted <| sv_clock := StoreExamples.clk 20 |>.
End SdkExample.
