(* ===== verification/SdkSubmissions.v ===== *)
(** * Submissions of the SDK: a verdict is final

    What a client has sent and asked for is kept in a trace, of which the RPC is
    only required to say the truth: a transaction is prepared with its call, and
    every sending and every look at a transaction is recorded with its answer. *)

From S2P Require Import Prelude JsValues SdkErrors Effects Server SdkTypes SdkEvents SdkSubscriptions SdkDelivery ContractEvents.
From S2P Require Import SdkClient SdkTimelock SdkGovernor SdkOnMock ServerSafety.

Inductive Exchange := Sent (envelope : Envelope) (answer : outcome SendResult) | Looked (hash : string) (answer : outcome TxStatus).
(** The answers that decide about a transaction. *)
Definition verdict (x : Exchange) : bool :=
  match x with
  | Sent _ (Ok result) => String.eqb (sd_status result) "ERROR"
  | Looked _ (Ok TxFailed) | Looked _ (Ok (TxSuccess _)) => true
  | _ => false
  end.
Definition is_sent (x : Exchange) : bool := match x with Sent _ _ => true | _ => false end.
Definition sends (l : list Exchange) : nat := length (List.filter is_sent l).

Class Traced `{!Stellar} {S} (rpc : Rpc S) (onRetry : Z → JsError → M S unit) (trace : S → list Exchange) := {
  tr_account : ∀ a, Evolves (keeps trace) (rpc_getAccount rpc a);
  tr_prepare : ∀ tx, Evolves (keeps trace) (rpc_prepare rpc tx);
  tr_hook : ∀ n e, Evolves (keeps trace) (onRetry n e);
  tr_sleep : ∀ n s, trace (rpc_sleep rpc n s) = trace s;
  tr_call : ∀ tx s tx' s', rpc_prepare rpc tx s = (Ok tx', s') → t_call tx' = t_call tx;
  tr_send : ∀ e s o s', rpc_send rpc e s = (o, s') → trace s' = trace s ++ [Sent e o];
  tr_look : ∀ h s o s', rpc_getTransaction rpc h s = (o, s') → trace s' = trace s ++ [Looked h o] }.

(** Any RPC whose preparation keeps the call, with a trace kept beside its state. *)
Section logged.
Context `{!Stellar} {S : Type} (rpc : Rpc S).
Definition unlogged {A} (m : M S A) : M (S * list Exchange) A := zoom fst (λ s p, (s, p.2)) m.
Definition log {A} (exchange : outcome A → Exchange) (m : M S A) : M (S * list Exchange) A := λ p,
  let '(o, s) := m p.1 in (o, (s, p.2 ++ [exchange o])).
Definition logged : Rpc (S * list Exchange) :=
  mkRpc (λ a, unlogged (rpc_getAccount rpc a)) (λ tx, unlogged (rpc_simulate rpc tx)) (λ tx, unlogged (rpc_prepare rpc tx))
    (λ e, log (Sent e) (rpc_send rpc e)) (λ h, log (Looked h) (rpc_getTransaction rpc h)) (unlogged (rpc_getLatestLedger rpc))
    (λ request, unlogged (rpc_getEvents rpc request)) (λ n p, (rpc_sleep rpc n p.1, p.2)) (λ p, rpc_now rpc p.1).
Lemma ev_unlogged {A} (m : M S A) : Evolves (keeps snd) (unlogged m).
Proof. by apply ev_zoom_keeps. Qed.
Lemma logged_traced (onRetry : Z → JsError → M S unit) :
  (∀ tx s tx' s', rpc_prepare rpc tx s = (Ok tx', s') → t_call tx' = t_call tx) →
  Traced logged (λ n e, unlogged (onRetry n e)) snd.
Proof.
  intros Hcall. split; try (intros; apply ev_unlogged).
  - done.
  - intros tx [s l] tx' s' Hrun. cbn in Hrun. unfold unlogged, zoom in Hrun. cbn in Hrun.
    destruct (rpc_prepare rpc tx s) as [o s1] eqn:Hp. injection Hrun as -> <-. by eapply Hcall.
  - intros e [s l] o s'. cbn. unfold log. cbn. destruct (rpc_send rpc e s) as [o1 s1]. by intros [= <- <-].
  - intros h [s l] o s'. cbn. unfold log. cbn. destruct (rpc_getTransaction rpc h s) as [o1 s1]. by intros [= <- <-].
Qed.
End logged.

Section trace.
Context `{!Stellar} {S : Type} (rpc : Rpc S) (config : GovernorConfig) (onRetry : Z → JsError → M S unit) (trace : S → list Exchange).
Context `{!Traced rpc onRetry trace}.

(** ** One attempt *)
#[local] Arguments GovernorClient.pollForConfirmation : simpl never.
Definition missing : outcome TxStatus → Prop := eq (Ok TxMissing).
(** The looks of a confirmation, and how they end. *)
Inductive looks_end (failed timeout : JsError) : list (outcome TxStatus) → outcome (option ScVal) → Prop :=
  | le_success l v : Forall missing l → looks_end failed timeout (l ++ [Ok (TxSuccess v)]) (Ok v)
  | le_failed l : Forall missing l → looks_end failed timeout (l ++ [Ok TxFailed]) (Throw failed)
  | le_timeout l : Forall missing l → looks_end failed timeout l (Throw timeout)
  | le_error l e : Forall missing l → looks_end failed timeout (l ++ [Throw e]) (Throw e).
Lemma looks_end_cons failed timeout l o : looks_end failed timeout l o → looks_end failed timeout (Ok TxMissing :: l) o.
Proof. destruct 1; rewrite ?app_comm_cons; constructor; by constructor. Qed.
Lemma await_trace delay failed timeout n hash s o s' :
  await_confirmation rpc delay (rpc_getTransaction rpc) failed timeout n hash s = (o, s') →
  ∃ looks, trace s' = trace s ++ (Looked hash <$> looks) ∧ looks_end failed timeout looks o.
Proof.
  revert s. induction n as [|n IH]; intros s Hrun; cbn in Hrun.
  { injection Hrun as <- <-. exists []. split; [by rewrite app_nil_r|by constructor]. }
  unfold mbind, M_bind, modify in Hrun. destruct (rpc_getTransaction rpc hash (rpc_sleep rpc delay s)) as [[st|e] s1] eqn:Hlook;
    pose proof (tr_look _ _ _ _ Hlook) as Ht; rewrite tr_sleep in Ht.
  - destruct st as [| |v].
    + destruct (IH _ Hrun) as (looks & Htr & Hend). exists (Ok TxMissing :: looks). split; [|by apply looks_end_cons].
      rewrite Htr, Ht, <- app_assoc. done.
    + injection Hrun as <- <-. exists [Ok TxFailed]. split; [done|]. by apply (le_failed _ _ []).
    + injection Hrun as <- <-. exists [Ok (TxSuccess v)]. split; [done|]. by apply (le_success _ _ []).
  - injection Hrun as <- <-. exists [Throw e]. split; [done|]. by apply (le_error _ _ []).
Qed.

(** An envelope with the call, signed by its source. *)
Definition carries (pk fnName : string) (args : list (outcome ScVal)) (envelope : Envelope) : Prop :=
  ∃ vals, args = (Ok <$> vals : list (outcome ScVal)) ∧ t_call (en_tx envelope) = mkCall (gc_governorAddress config) fnName vals ∧ en_signers envelope = [pk].
(** What an attempt leaves in the trace: nothing, a sending that fails, or one that
    is accepted and the looks at it. *)
Inductive attempt_shape (pk fnName : string) (args : list (outcome ScVal)) : list Exchange → outcome (string * option ScVal) → Prop :=
  | as_none e : attempt_shape pk fnName args [] (Throw e)
  | as_thrown envelope e : carries pk fnName args envelope → attempt_shape pk fnName args [Sent envelope (Throw e)] (Throw e)
  | as_rejected envelope r :
    carries pk fnName args envelope → sd_status r = "ERROR" →
    attempt_shape pk fnName args [Sent envelope (Ok r)] (Throw (GovernorClient.parsed r))
  | as_looked envelope r looks o :
    carries pk fnName args envelope → sd_status r ≠ "ERROR" →
    looks_end (GovernorClient.failed (sd_hash r)) GovernorClient.unconfirmed looks o →
    attempt_shape pk fnName args (Sent envelope (Ok r) :: (Looked (sd_hash r) <$> looks)) (o_map (pair (sd_hash r)) o).

Lemma encoded_args (args : list (outcome ScVal)) (s : S) vals s' : map_m from_outcome args s = (Ok vals, s') → args = (Ok <$> vals : list (outcome ScVal)) ∧ s' = s.
Proof.
  revert vals s'. induction args as [|[v|e] args IH]; intros vals s' Hrun; cbn in Hrun; [by injection Hrun as <- <-| |done].
  unfold mbind, M_bind, from_outcome in Hrun. destruct (map_m _ args s) as [[rest|] s1] eqn:Hm; [|done].
  injection Hrun as <- <-. destruct (IH _ _ eq_refl) as [-> ->]. done.
Qed.
Lemma args_state (args : list (outcome ScVal)) (s : S) o s' : map_m from_outcome args s = (o, s') → s' = s.
Proof.
  revert o s'. induction args as [|[v|e] args IH]; intros o s' Hrun; cbn in Hrun; [by injection Hrun as <- <-| |by injection Hrun as <- <-].
  unfold mbind, M_bind, from_outcome in Hrun. destruct (map_m _ args s) as [[rest|] s1] eqn:Hm; injection Hrun as <- <-; by eapply IH.
Qed.
Lemma build_trace a contract fnName args s o s' :
  build rpc a contract fnName args s = (o, s') →
  trace s' = trace s ∧ match o with Ok tx => ∃ vals, args = (Ok <$> vals : list (outcome ScVal)) ∧ t_call tx = mkCall contract fnName vals | Throw _ => True end.
Proof.
  unfold build, mbind, M_bind. intros Hrun. pose proof (evolves_state (keeps trace) (rpc_getAccount rpc a) (Evolves0 := tr_account a) s) as Hk.
  destruct (rpc_getAccount rpc a s) as [[account|e] s1]; [|by injection Hrun as <- <-]. cbn in Hk.
  destruct (map_m from_outcome args s1) as [[vals|e] s2] eqn:Hm; injection Hrun as <- <-; [|by rewrite (args_state _ _ _ _ Hm)].
  destruct (encoded_args _ _ _ _ Hm) as [-> ->]. split; [done|]. by exists vals.
Qed.
Lemma attempt_trace pk fnName args s o s' :
  GovernorClient.confirmed rpc config (keypair pk) pk fnName args GovernorClient.parsed s = (o, s') →
  ∃ new, trace s' = trace s ++ new ∧ attempt_shape pk fnName args new o.
Proof.
  unfold GovernorClient.confirmed, submit, submit_tx, mbind, M_bind. intros Hrun.
  destruct (build rpc pk _ fnName args s) as [[tx|e] s1] eqn:Hb; destruct (build_trace _ _ _ _ _ _ _ Hb) as [Ht Htx].
  2: { injection Hrun as <- <-. exists []. rewrite app_nil_r. split; [done|constructor]. }
  destruct Htx as (vals & Hargs & Hcall). destruct (rpc_prepare rpc tx s1) as [[tx'|e] s2] eqn:Hp;
    pose proof (evolves_run (keeps trace) _ (Evolves0 := tr_prepare tx) _ _ _ Hp) as Hk; unfold keeps in Hk.
  2: { injection Hrun as <- <-. exists []. rewrite app_nil_r. split; [congruence|constructor]. }
  cbn in Hrun. destruct (rpc_send rpc (mkEnvelope tx' [pk]) s2) as [ans s3] eqn:Hs. pose proof (tr_send _ _ _ _ Hs) as Hsent.
  assert (carries pk fnName args (mkEnvelope tx' [pk])) as Hcar by (exists vals; cbn; by rewrite (tr_call _ _ _ _ Hp)).
  assert (trace s3 = trace s ++ [Sent (mkEnvelope tx' [pk]) ans]) as Htr by (rewrite Hsent; by f_equal; congruence).
  destruct ans as [r|e]; [|injection Hrun as <- <-; eexists; split; [exact Htr|by constructor]].
  unfold throw_if in Hrun. destruct (String.eqb_spec (sd_status r) "ERROR") as [He|He]; cbn in Hrun.
  { injection Hrun as <- <-. eexists. split; [exact Htr|by constructor]. }
  destruct (GovernorClient.pollForConfirmation rpc (sd_hash r) s3) as [o4 s4] eqn:Hl.
  destruct (await_trace _ _ _ _ _ _ _ _ Hl) as (looks & Htr4 & Hend).
  assert (o = o_map (pair (sd_hash r)) o4 ∧ s' = s4) as [-> ->] by (destruct o4; by injection Hrun as <- <-).
  eexists. split; [|by apply (as_looked pk fnName args (mkEnvelope tx' [pk]) r looks o4)]. by rewrite Htr4, Htr, <- app_assoc.
Qed.

(** ** A verdict comes last *)
Definition verdict_last (l : list Exchange) : Prop := ∀ before x after, l = before ++ x :: after → verdict x = true → after = [].
Lemma verdict_last_none l : Forall (λ x, verdict x = false) l → verdict_last l.
Proof. intros Hl before x after -> Hv. apply Forall_app in Hl as [_ Hl]. apply Forall_cons_1 in Hl as [Hx _]. congruence. Qed.
Lemma verdict_last_snoc l x : Forall (λ x, verdict x = false) l → verdict_last (l ++ [x]).
Proof.
  intros Hl before y after Heq Hv. destruct after as [|z after] using rev_ind; [done|]. clear IHafter.
  rewrite app_comm_cons, app_assoc in Heq. apply app_inj_tail in Heq as [Heq _].
  rewrite Heq in Hl. apply Forall_app in Hl as [_ Hl]. apply Forall_cons_1 in Hl as [Hy _]. congruence.
Qed.
Lemma verdict_last_app l1 l2 : Forall (λ x, verdict x = false) l1 → verdict_last l2 → verdict_last (l1 ++ l2).
Proof.
  intros H1 H2 before x after Heq Hv. apply app_eq_app in Heq as (k & [[Hl Hx]|[Hb Hk]]).
  - destruct k as [|y k]; [by apply (H2 [] x after)|]. injection Hx as <- Hk. rewrite Hl in H1.
    apply Forall_app in H1 as [_ H1]. apply Forall_cons_1 in H1 as [Hx _]. congruence.
  - by apply (H2 k x after).
Qed.
Lemma missing_silent h l : Forall missing l → Forall (λ x, verdict x = false) (Looked h <$> l).
Proof. intros Hl. apply Forall_fmap. eapply Forall_impl; [exact Hl|]. by intros ? <-. Qed.

(** The last exchange of a submission that succeeded. *)
Definition succeeded (h : string) (v : option ScVal) : Exchange := Looked h (Ok (TxSuccess v)).
Lemma attempt_verdict pk fnName args new o :
  attempt_shape pk fnName args new o →
  verdict_last new ∧
  match o with
  | Ok (h, v) => last new = Some (succeeded h v)
  | Throw e => GovernorClient.isRetryableSubmissionError e = true → Forall (λ x, verdict x = false) new
  end ∧
  (∀ h v, last new = Some (succeeded h v) → o = Ok (h, v)).
Proof.
  destruct 1 as [e|envelope e Hc|envelope r Hc Hr|envelope r looks o Hc Hr Hend].
  - split_and!; [by apply verdict_last_none|done|done].
  - split_and!; [apply verdict_last_none; by repeat constructor|by repeat constructor|done].
  - split_and!; [by apply (verdict_last_snoc [])|done|done].
  - assert (verdict (Sent envelope (Ok r)) = false) as Hs by (cbn; by apply String.eqb_neq).
    destruct Hend as [l v Hl|l Hl|l Hl|l e Hl]; rewrite ?fmap_app; cbn [fmap list_fmap];
      pose proof (missing_silent (sd_hash r) l Hl) as Hm; rewrite ?app_comm_cons.
    + split_and!; [by apply verdict_last_snoc; constructor|by rewrite last_snoc|]. intros h w Hw. rewrite last_snoc in Hw. by injection Hw as <- <-.
    + split_and!; [by apply verdict_last_snoc; constructor|done|]. intros h w Hw. by rewrite last_snoc in Hw.
    + split_and!; [by apply verdict_last_none; constructor|done|]. intros h w Hw. exfalso.
      apply last_Some_elem_of in Hw. assert (Forall (λ x, verdict x = false) (Sent envelope (Ok r) :: (Looked (sd_hash r) <$> l))) as Hall by by constructor.
      rewrite Forall_forall in Hall. by apply Hall in Hw.
    + split_and!; [by apply verdict_last_snoc; constructor|intros _; rewrite <- app_comm_cons; constructor; [done|]; apply Forall_app; by repeat constructor|].
      intros h w Hw. by rewrite last_snoc in Hw.
Qed.

Lemma attempt_sends pk fnName args new o :
  attempt_shape pk fnName args new o → (sends new ≤ 1)%nat ∧ (∀ e a, Sent e a ∈ new → carries pk fnName args e).
Proof.
  assert (∀ h looks, List.filter is_sent (Looked h <$> looks) = []) as Hl by (intros h looks; induction looks; done).
  destruct 1 as [e|envelope e Hc|envelope r Hc Hr|envelope r looks o Hc Hr Hend]; unfold sends; cbn.
  - split; [lia|]. by intros e' a ?%not_elem_of_nil.
  - split; [lia|]. intros e' a [= -> ->]%list_elem_of_singleton. done.
  - split; [lia|]. intros e' a [= -> ->]%list_elem_of_singleton. done.
  - rewrite Hl. split; [cbn; lia|]. intros e' a [[= -> ->]|Hx]%elem_of_cons; [done|]. apply list_elem_of_fmap in Hx as (? & ? & _). done.
Qed.
Section retried.
Context (pk fnName : string) (args : list (outcome ScVal)).
Definition attempt : M S string := fst <$> GovernorClient.confirmed rpc config (keypair pk) pk fnName args GovernorClient.parsed.
Definition submission_options : RetryOptions :=
  createRetry (gc_retry config) GovernorClient.defaults (Some GovernorClient.isRetryableSubmissionError).
Lemma attempt_run s o s' :
  attempt s = (o, s') → ∃ o1 new, o = o_map fst o1 ∧ trace s' = trace s ++ new ∧ attempt_shape pk fnName args new o1.
Proof.
  unfold attempt. intros Hrun. destruct (GovernorClient.confirmed rpc config (keypair pk) pk fnName args GovernorClient.parsed s) as [o1 s1] eqn:Hc.
  destruct (attempt_trace _ _ _ _ _ _ Hc) as (new & Htr & Hshape). exists o1, new.
  unfold fmap, M_fmap in Hrun. rewrite Hc in Hrun. by destruct o1; injection Hrun as <- <-.
Qed.
(** Attempts that are repeated had no verdict. *)
Lemma failing_trace s n s1 :
  failing submission_options attempt onRetry (rpc_sleep rpc) s n s1 → 0 ≤ n →
  ∃ new, trace s1 = trace s ++ new ∧ Z.of_nat (sends new) ≤ n ∧ (∀ e a, Sent e a ∈ new → carries pk fnName args e) ∧
    Forall (λ x, verdict x = false) new.
Proof.
  induction 1 as [|n s1 e s2 s3 Hf IH Hfn Hre Hhook]; intros Hn.
  { exists []. rewrite app_nil_r. split_and!; [done..| |constructor]. by intros e a ?%not_elem_of_nil. }
  assert (∀ k s' s'', failing submission_options attempt onRetry (rpc_sleep rpc) s' k s'' → 0 ≤ k) as Hpos by (induction 1; lia).
  destruct (IH (Hpos _ _ _ Hf)) as (new1 & H1 & H2 & H3 & H4). destruct (attempt_run _ _ _ Hfn) as (o1 & new2 & Ho & H5 & Hshape).
  destruct o1 as [|e1]; [done|]. injection Ho as <-. destruct (attempt_sends _ _ _ _ _ Hshape) as [H6 H7].
  destruct (attempt_verdict _ _ _ _ _ Hshape) as (_ & H8 & _).
  pose proof (evolves_run (keeps trace) _ (Evolves0 := tr_hook (n + 1) e) _ _ _ Hhook) as Hk. unfold keeps in Hk.
  exists (new1 ++ new2). rewrite tr_sleep, Hk, H5, H1, <- app_assoc. split; [done|].
  unfold sends in *. rewrite List.filter_app, length_app. split; [lia|]. split.
  - intros e' a [Hx|Hx]%elem_of_app; [by apply (H3 e' a)|by apply (H7 e' a)].
  - apply Forall_app. split; [done|]. by apply H8.
Qed.
(** The trace of a submission from its start to its end. *)
Lemma submission_trace s o s' :
  GovernorClient.retry rpc config onRetry attempt (Some GovernorClient.isRetryableSubmissionError) s = (o, s') →
  ∃ new, trace s' = trace s ++ new ∧ Z.of_nat (sends new) ≤ Z.max 0 (default 3 (maxAttempts submission_options)) ∧
    (∀ e a, Sent e a ∈ new → carries pk fnName args e) ∧ verdict_last new ∧
    (∀ h, o = Ok h ↔ ∃ v, last new = Some (succeeded h v)).
Proof.
  unfold GovernorClient.retry, withRetry. fold submission_options. intros Hrun.
  set (max := default 3 (maxAttempts submission_options)) in *. destruct (Z.leb_spec max 0) as [Hle|Hlt].
  { rewrite Z2Nat.nonpos in Hrun by done. injection Hrun as <- <-. exists []. rewrite app_nil_r. split_and!; [done|cbn; lia| |by apply verdict_last_none|].
    - by intros e a ?%not_elem_of_nil.
    - intros h. split; [done|]. by intros [v Hv]. }
  destruct (attempts_outcome submission_options attempt onRetry (rpc_sleep rpc) (Z.to_nat max) 0 no_error s s o s') as (n & s1 & Hn & Hf & Hends);
    [fold max; lia|lia|lia|constructor|exact Hrun|]. fold max in Hn, Hends.
  destruct (failing_trace _ _ _ Hf ltac:(lia)) as (new1 & H1 & H2 & H3 & H4).
  assert (∃ (o1 : outcome (string * option ScVal)) e2 s2, attempt s1 = (o_map fst o1, s2) ∧ trace s' = trace s2 ∧
            match o1 with Ok (h, _) => o = Ok h | Throw _ => o = Throw e2 end) as (o1 & e2 & s2 & Hatt & Htr & Ho).
  { destruct Hends as [h s2 Hfn|e s2 Hfn _|e s2 e' s3 Hfn _ Hhook]; destruct (attempt_run _ _ _ Hfn) as (o1 & _ & Ho & _).
    - destruct o1 as [[h' v]|]; [|done]. injection Ho as ->. by exists (Ok (h', v)), no_error, s2.
    - destruct o1 as [|e1]; [done|]. injection Ho as ->. by exists (Throw e1), e1, s2.
    - destruct o1 as [|e1]; [done|]. injection Ho as ->. exists (Throw e1), e', s2. split_and!; [done| |done].
      exact (evolves_run (keeps trace) _ (Evolves0 := tr_hook (n + 1) e1) _ _ _ Hhook). }
  destruct (attempt_run _ _ _ Hatt) as (o1' & new2 & Heq & H5 & Hshape).
  destruct (attempt_sends _ _ _ _ _ Hshape) as [H6 H7]. destruct (attempt_verdict _ _ _ _ _ Hshape) as (H8 & H9 & H10).
  exists (new1 ++ new2). rewrite Htr, H5, H1, <- app_assoc. split; [done|]. unfold sends in *. rewrite List.filter_app, length_app.
  split; [lia|]. split; [intros e a [Hx|Hx]%elem_of_app; [by apply (H3 e a)|by apply (H7 e a)]|]. split; [by apply verdict_last_app|].
  intros h. split.
  - intros ->. destruct o1 as [[h1 v1]|e1]; [|done]. injection Ho as <-. destruct o1' as [[h2 v2]|e1']; [|done]. cbn in Heq. injection Heq as <-.
    exists v2. by rewrite last_app, H9.
  - intros [v Hv]. rewrite last_app in Hv. destruct (last new2) as [x|] eqn:Hlast.
    + injection Hv as ->. rewrite (H10 h v eq_refl) in Heq. destruct o1 as [[h1 v1]|e1]; [|done]. cbn in Heq. by injection Heq as <-.
    + exfalso. apply last_Some_elem_of in Hv. rewrite Forall_forall in H4. by apply H4 in Hv.
Qed.
End retried.

(** C35: A vote is sent at most as often as there are attempts, each time as the
    same call under the voter's signature; an answer that decides about it, a
    rejection, a failure or a success on chain, is the last exchange with the RPC,
    so nothing is sent after it; and [castVote] returns a hash exactly when that
    last answer is the success of the transaction with this hash. *)
Theorem verdict_is_final (pk : string) (proposalId : Z) (support : VoteSupport) s o s' :
  GovernorClient.castVote rpc config onRetry pk proposalId support s = (o, s') →
  ∃ new, trace s' = trace s ++ new ∧ Z.of_nat (sends new) ≤ Z.max 0 (default 3 (maxAttempts submission_options)) ∧
    (∀ e a, Sent e a ∈ new → carries pk "cast_vote" (GovernorClient.vote_args pk proposalId support) e) ∧ verdict_last new ∧
    (∀ h, o = Ok h ↔ ∃ v, last new = Some (succeeded h v)).
Proof. apply submission_trace. Qed.
End trace.

Import ServerExample SdkExample.
(** A vote on the mock server. *)
Lemma verdict_is_final_witness :
  let result := GovernorClient.castVote (logged toy_rpc) toy_config (λ n e, unlogged (no_hook n e)) "bob" 1 For (voting, []) in
  ∃ new, result.2.2 = new ∧ result.1 = Ok "bob.cast_vote" ∧ Z.of_nat (sends new) ≤ 3 ∧ verdict_last new ∧
    ∃ v, last new = Some (succeeded "bob.cast_vote" v).
Proof.
  intros result.
  assert (Traced (logged toy_rpc) (λ n e, unlogged (no_hook n e)) snd) as Htraced by (apply logged_traced; by intros tx s tx' s' [= -> ->]).
  destruct (verdict_is_final (logged toy_rpc) toy_config _ snd "bob" 1 For (voting, []) _ _ (surjective_pairing result))
    as (new & Htr & Hsends & _ & Hlast & Hok).
  exists new. split_and!; [exact Htr|vm_compute; reflexivity|exact Hsends|exact Hlast|]. apply Hok. vm_compute. reflexivity.
Defined.
