(* ===== verification/SdkRefinement.v ===== *)
(** * Calls of the SDK refine calls of the executors

    With the mock server as its RPC, a submission of the governor client is one run
    of the executor's operation, and a read gives what the executor's operation
    returns. *)

From S2P Require Import Prelude JsValues SdkErrors Effects AddressOrder Store TokenVotes Timelock Proposals Governor Server.
From S2P Require Import SdkEvents SdkSubscriptions SdkDelivery ContractEvents SdkClient SdkTimelock SdkVotes SdkGovernor SdkOnMock SdkTypes.
From S2P Require Import ServerSafety.
Open Scope Z_scope.

Section refinement.
Context `{!Stellar, !StellarLaws} (sha256 : bytes → bytes) (decode_calldata : bytes → outcome (list native)) (hash_of : Tx → string).
Context (config : GovernorConfig) (onRetry : Z → JsError → M MockSorobanServer unit).
Abbreviation rpc := (mock_rpc sha256 decode_calldata hash_of).
Abbreviation run := (invoke sha256 decode_calldata).
Abbreviation gov := (gc_governorAddress config).
Implicit Types (s : MockSorobanServer).

(** ** Submissions *)

(** The typed error the client makes of an error of the executor. *)
Definition as_governor_error (e : JsError) : JsError :=
  typed "GovernorError" (parseGovernorError (RawObject (Some "ERROR") (Some (Server.error_text e)))).
Lemma contract_error_recovered (c : GovernorErrorCode.t) text :
  as_governor_error (MockContractError (GovernorErrorCode.num c) text) =
  SdkError "GovernorError" (GovernorErrorCode.num c) (GovernorErrorCode.message c).
Proof.
  unfold as_governor_error, Server.error_text.
  pose proof (family_parse_code c (RawObject (Some "ERROR") (Some (toSorobanErrorString (GovernorErrorCode.num c))))) as Hp.
  cbn in Hp. rewrite Hp; [done|]. exact (extract_mock_code (family_num c) (family_num_range c)).
Qed.
Definition max_attempts : Z := default 3 (maxAttempts (createRetry (gc_retry config) GovernorClient.defaults (Some GovernorClient.isRetryableSubmissionError))).
(** The hash a call of a client gets. *)
Definition call_hash (source fnName : string) (vals : list ScVal) : string :=
  hash_of (mkTx (mkAccount source 0) (mkCall gov fnName vals)).
Lemma typed_final e : GovernorClient.isRetryableSubmissionError (typed "GovernorError" e) = false.
Proof. done. Qed.
(** An operation without a result, in the encoding of the server. *)
Definition voided (result : outcome unit * MockLedgerStore) : outcome ScVal * MockLedgerStore := (o_map (λ _, scvVoid) result.1, result.2).
Lemma vote_args_encoded pk id support va vi :
  a_address pk = Ok va → a_u64 id = Ok vi →
  GovernorClient.vote_args pk id support = Ok <$> [va; vi; scvVec [scvSymbol (support_name support)]].
Proof. intros Ha Hi. unfold GovernorClient.vote_args. by rewrite Ha, Hi. Qed.
Lemma vote_args_native pk id support va vi :
  a_address pk = Ok va → a_u64 id = Ok vi →
  natives [va; vi; scvVec [scvSymbol (support_name support)]] [VStr pk; VBig id; VArr [VStr (support_name support)]].
Proof.
  intros Ha Hi. apply Forall2_cons. split; [exact (law_native _ _ _ Ha eq_refl)|]. apply Forall2_cons. split; [exact (law_native _ _ _ Hi eq_refl)|].
  apply Forall2_cons. split; [|constructor]. apply law_vec, Forall2_cons. split; [apply law_symbol|constructor].
Qed.
(** The handler of a call: an operation, and the encoding of what it returns. *)
Lemma run_handler {A} clock contract iv h (op : M MockLedgerStore A) (wrap : A → Value) (enc : A → outcome ScVal) st :
  jm_get (iv_functionName iv) (executor_of sha256 decode_calldata contract) = Some h →
  h clock (iv_caller iv) (iv_args iv) = Some (wrap <$> op) →
  (∀ a, encodeReturn contract (iv_functionName iv) (wrap a) = enc a) →
  run clock contract iv st = (a ← op; from_outcome (enc a)) st.
Proof.
  intros Hh Hop Henc. unfold invoke, dispatch. rewrite Hh, Hop. unfold cast, mbind, M_bind, fmap, M_fmap.
  destruct (op st) as [[a|e] st']; [|done]. by rewrite Henc.
Qed.
Lemma run_void clock contract iv h (op : M MockLedgerStore unit) st :
  jm_get (iv_functionName iv) (executor_of sha256 decode_calldata contract) = Some h →
  h clock (iv_caller iv) (iv_args iv) = Some (void op) → encodeReturn contract (iv_functionName iv) RNull = encVoid →
  run clock contract iv st = voided (op st).
Proof.
  intros Hh Hop Henc. rewrite (run_handler _ _ _ h op (λ _, RNull) (λ _, encVoid)); [|done..].
  unfold mbind, M_bind, voided. by destruct (op st) as [[[]|e] st'].
Qed.
Lemma cast_vote_invoked clock pk id name st :
  run clock CGovernor (call_of pk gov "cast_vote" [VStr pk; VBig id; VArr [VStr name]]) st =
  voided (GovernorExecutor.cast_vote clock pk pk id name st).
Proof. by eapply run_void. Qed.

(** C31: A vote cast by the governor client is exactly one run of the executor's
    [cast_vote] with the signer as caller and voter: its hash is returned when the
    executor returns, the typed error of the executor's error is thrown when it
    throws, without a second attempt; and the store is the one the executor left. *)
Theorem vote_through_sdk pk id support va vi s :
  resolve (st_addresses (sv_store s)) gov = Some CGovernor → a_address pk = Ok va → a_u64 id = Ok vi → 1 ≤ max_attempts →
  let hash := call_hash pk "cast_vote" [va; vi; scvVec [scvSymbol (support_name support)]] in
  let vote := GovernorExecutor.cast_vote (sv_clock s) pk pk id (support_name support) (sv_store s) in
  GovernorClient.castVote rpc config onRetry pk id support s =
  (match vote.1 with Ok _ => Ok hash | Throw e => Throw (as_governor_error e) end, sent_state hash (voided vote) s).
Proof.
  intros Hc Ha Hi Hmax hash vote. unfold GovernorClient.castVote, GovernorClient.retry.
  set (fn := fst <$> GovernorClient.confirmed _ _ _ _ _ _ _).
  assert (fn s = (match vote.1 with Ok _ => Ok hash | Throw e => Throw (as_governor_error e) end, sent_state hash (voided vote) s)) as Hfn.
  { subst fn. unfold fmap, M_fmap. rewrite (vote_args_encoded _ _ _ _ _ Ha Hi).
    rewrite (confirmed_on_mock _ _ _ _ _ _ _ _ _ _ _ (vote_args_native _ _ support _ _ Ha Hi) Hc), cast_vote_invoked.
    fold vote. fold (call_hash pk "cast_vote" [va; vi; scvVec [scvSymbol (support_name support)]]). fold hash. by destruct vote as [[[]|e] st]. }
  destruct vote.1 as [|e]; [by apply retry_ok|]. by apply retry_final.
Qed.

(** A call that is simulated first is sent only when the simulation went well. *)
Lemma queue_invoked clock pk id st :
  run clock CGovernor (call_of pk gov "queue" [VBig id]) st = voided (GovernorExecutor.queue sha256 clock id st).
Proof. by eapply run_void. Qed.
Lemma execute_invoked clock pk id st :
  run clock CGovernor (call_of pk gov "execute" [VBig id]) st = voided (GovernorExecutor.execute decode_calldata clock id st).
Proof. by eapply run_void. Qed.
(** The simulation's answer to an operation without a result. *)
Definition void_response : SimulationResponse :=
  mkSimulationResponse (Some scvVoid) VUndefined (VObj [("cpuInsns", VStr "0"); ("memBytes", VStr "0")]) (VStr "100000") VUndefined.
Definition assembled_hash (source fnName : string) (vals : list ScVal) : string :=
  hash_of (assemble (mkTx (mkAccount source 0) (mkCall gov fnName vals)) void_response).
Definition as_simulation_error (e : JsError) : JsError := typed "GovernorError" (parseGovernorError (RawString (Server.error_text e))).
Lemma answer_on_mock source c fnName vals ns contract s :
  natives vals ns → resolve (st_addresses (sv_store s)) c = Some contract →
  rpc_simulate rpc (mkTx (mkAccount source 0) (mkCall c fnName vals)) s =
  (Ok (simulated (run (sv_clock s) contract (call_of source c fnName ns) (sv_store s)).1 (sequence (sv_clock s))), s).
Proof.
  intros Hn Hc. pose proof (simulate_on_mock sha256 decode_calldata hash_of source c fnName vals ns contract s Hn Hc) as Hs.
  unfold simulate, mbind, M_bind in Hs. by rewrite build_on_mock in Hs.
Qed.
Lemma simulate_and_submit pk fnName vals ns contract (operation : outcome unit * MockLedgerStore) s :
  natives vals ns → resolve (st_addresses (sv_store s)) gov = Some contract → 1 ≤ max_attempts →
  run (sv_clock s) contract (call_of pk gov fnName ns) (sv_store s) = voided operation →
  GovernorClient.simulateAndSubmit rpc config onRetry pk fnName (Ok <$> vals) s =
  match operation.1 with
  | Ok _ => (Ok tt, sent_state (assembled_hash pk fnName vals) (voided operation) s)
  | Throw e => (Throw (as_simulation_error e), s)
  end.
Proof.
  intros Hn Hc Hmax Hrun. unfold GovernorClient.simulateAndSubmit, mbind, M_bind. rewrite encode_ok. unfold GovernorClient.retry.
  set (fn := λ s, _ : outcome unit * MockSorobanServer).
  assert (fn s = match operation.1 with
                 | Ok _ => (Ok tt, sent_state (assembled_hash pk fnName vals) (voided operation) s)
                 | Throw e => (Throw (as_simulation_error e), s)
                 end) as Hfn.
  { subst fn. cbv beta. unfold GovernorClient.governor. rewrite build_on_mock. cbv beta iota.
    rewrite (answer_on_mock _ _ _ _ _ _ _ Hn Hc), Hrun. unfold voided. destruct operation as [[[]|e] st]; [|done].
    cbn [o_map fst simulated simulation_of]. unfold keypair, mret, M_ret.
    rewrite (send_invocation _ _ _ _ (call_of pk gov fnName ns) _ contract); [|by rewrite invocation_assemble; apply invocation_ok|done].
    rewrite Hrun. unfold voided, sent_result. cbn [o_map fst snd result_of]. unfold throw_if. cbn [sd_status String.eqb Ascii.eqb Bool.eqb].
    unfold mret, M_ret. cbn [sd_hash]. by rewrite poll_on_mock. }
  destruct operation as [[[]|e] st]; [by apply retry_ok|]. by apply retry_final.
Qed.

(** C32: [queue] and [execute] of the governor client are sent only when their
    simulation goes well, and are then one run of the executor's operation on the
    store; otherwise the executor's error is thrown as a typed error and the server
    is as it was: nothing is sent or stored. *)
Theorem queue_and_execute_through_sdk pk id vi s :
  resolve (st_addresses (sv_store s)) gov = Some CGovernor → a_u64 id = Ok vi → 1 ≤ max_attempts →
  let queued := GovernorExecutor.queue sha256 (sv_clock s) id (sv_store s) in
  let executed := GovernorExecutor.execute decode_calldata (sv_clock s) id (sv_store s) in
  GovernorClient.queue rpc config onRetry pk id s =
  match queued.1 with
  | Ok _ => (Ok tt, sent_state (assembled_hash pk "queue" [vi]) (voided queued) s)
  | Throw e => (Throw (as_simulation_error e), s)
  end ∧
  GovernorClient.execute rpc config onRetry pk id s =
  match executed.1 with
  | Ok _ => (Ok tt, sent_state (assembled_hash pk "execute" [vi]) (voided executed) s)
  | Throw e => (Throw (as_simulation_error e), s)
  end.
Proof.
  intros Hc Hi Hmax queued executed. assert (natives [vi] [VBig id]) as Hn.
  { apply Forall2_cons. split; [exact (law_native _ _ _ Hi eq_refl)|constructor]. }
  unfold GovernorClient.queue, GovernorClient.execute. rewrite Hi. split.
  - apply (simulate_and_submit pk "queue" [vi] [VBig id] CGovernor); [done..|]. apply queue_invoked.
  - apply (simulate_and_submit pk "execute" [vi] [VBig id] CGovernor); [done..|]. apply execute_invoked.
Qed.

(** ** Reads *)

Definition read_failure (e : JsError) : JsError := PlainError ("Simulation error: " +:+ Server.error_text e).
Lemma read_on_mock {A} source c fnName vals ns contract missing (parse : JsValue → M MockSorobanServer A) s :
  natives vals ns → resolve (st_addresses (sv_store s)) c = Some contract →
  read_required rpc source c fnName (Ok <$> vals) missing parse s =
  match (run (sv_clock s) contract (call_of source c fnName ns) (sv_store s)).1 with
  | Ok v => (value ← to_native v; parse value) s
  | Throw e => (Throw (read_failure e), s)
  end.
Proof.
  intros Hn Hc. unfold read_required. unfold mbind at 1, M_bind at 1. rewrite (simulate_on_mock _ _ _ _ _ _ _ _ _ _ Hn Hc).
  by destruct (run _ _ _ _) as [[v|e] st].
Qed.
Lemma read_or_on_mock {A} source c fnName vals ns contract (other : A) (parse : JsValue → M MockSorobanServer A) s :
  natives vals ns → resolve (st_addresses (sv_store s)) c = Some contract →
  read_or rpc source c fnName (Ok <$> vals) other parse s =
  match (run (sv_clock s) contract (call_of source c fnName ns) (sv_store s)).1 with
  | Ok v => (value ← to_native v; parse value) s
  | Throw e => (Ok other, s)
  end.
Proof.
  intros Hn Hc. unfold read_or. unfold mbind at 1, M_bind at 1. rewrite (simulate_on_mock _ _ _ _ _ _ _ _ _ _ Hn Hc).
  by destruct (run _ _ _ _) as [[v|e] st].
Qed.

(** *** Records as objects *)

(** What a value encoded as [o] is read as. *)
Definition encodes (o : outcome ScVal) (n : JsValue) : Prop := ∀ v, o = Ok v → scValToNative v = Ok n.
Lemma encodes_native value type : encoded_as value type = true → encodes (nativeToScVal value type) (native_of value type).
Proof. intros Hk v Hv. by apply law_native. Qed.
Lemma encodes_symbol x : encodes (encSymbol x) (VStr x).
Proof. intros v [= <-]. apply law_symbol. Qed.
Lemma encodes_enum x : encodes (encEnum x) (VArr [VStr x]).
Proof. intros v [= <-]. apply law_vec, Forall2_cons. split; [apply law_symbol|constructor]. Qed.
Lemma encodes_void : encodes encVoid VNull.
Proof. intros v [= <-]. apply law_void. Qed.
Lemma encodes_vec {A} (enc : A → outcome ScVal) (native : A → JsValue) l :
  (∀ x, encodes (enc x) (native x)) → encodes (encVec enc l) (VArr (native <$> l)).
Proof.
  intros Henc v. unfold encVec. destruct (o_list enc l) as [vals|] eqn:Hl; [|done]. intros [= <-]. apply law_vec.
  apply o_list_Forall2 in Hl. induction Hl; constructor; [by apply Henc|done].
Qed.
(** A sorted list of entries stays in step with another one with the same keys. *)
Lemma insert_by_Forall2 {A B} (R : A → B → Prop) (e : string * A) (n : string * B) l k :
  let step := λ (e : string * A) (n : string * B), e.1 = n.1 ∧ R e.2 n.2 in
  step e n → Forall2 step l k → Forall2 step (insert_by fst e l) (insert_by fst n k).
Proof.
  intros step He. induction 1 as [|x y l k Hx Hl IH]; cbn; [constructor; [exact He|constructor]|].
  assert (before_by fst x e = before_by fst y n) as -> by (unfold before_by; by destruct He as [-> _], Hx as [-> _]).
  destruct (before_by fst y n); constructor; [exact Hx|exact IH|exact He|by constructor].
Qed.
Lemma sort_by_Forall2 {A B} (R : A → B → Prop) (l : list (string * A)) (k : list (string * B)) :
  let step := λ (e : string * A) (n : string * B), e.1 = n.1 ∧ R e.2 n.2 in
  Forall2 step l k → Forall2 step (sort_by fst l) (sort_by fst k).
Proof. intros step. induction 1; cbn; [done|]. by apply insert_by_Forall2. Qed.
Lemma encodes_map (fields : list (string * outcome ScVal)) (ns : list (string * JsValue)) :
  Forall2 (λ f n, f.1 = n.1 ∧ encodes f.2 n.2) fields ns → NoDup (ns.*1) → encodes (encMap fields) (VObj (sort_by fst ns)).
Proof.
  intros Hf Hd v. unfold encMap. destruct (o_list _ fields) as [vals|] eqn:Hl; [|done]. intros [= <-].
  assert (Forall2 (λ (e : string * ScVal) (n : string * JsValue), e.1 = n.1 ∧ scValToNative e.2 = Ok n.2) vals ns) as Hv.
  { apply o_list_Forall2 in Hl. revert ns Hf Hd. induction Hl as [|[key o] y fields vals Hx _ IH]; intros ns Hf Hd.
    - apply Forall2_nil_inv_l in Hf as ->. constructor.
    - apply Forall2_cons_inv_l in Hf as (n & ns' & [Hk Hn] & Hf & ->). apply NoDup_cons in Hd as [_ Hd].
      destruct o as [v|]; [|done]. injection Hx as <-. constructor; [|by apply IH]. split; [done|]. by apply Hn. }
  apply law_map; [|by apply (sort_by_Forall2 (λ v n, scValToNative v = Ok n))].
  assert (vals.*1 = ns.*1) as Hkeys by (clear -Hv; induction Hv as [|? ? ? ? [? _]]; cbn; congruence).
  rewrite (sort_by_perm fst vals). by rewrite Hkeys.
Qed.


Definition proposal_native (p : ProposalRecord) : list (string * JsValue) :=
  [("id", VBig (p_id p)); ("proposer", VStr (p_proposer p)); ("description", VStr (p_description p));
   ("description_hash", VBytes (of_hex (p_descriptionHash p))); ("metadata_uri", VStr (p_metadataUri p));
   ("targets", VArr (VStr <$> p_targets p)); ("fn_names", VArr (VStr <$> p_fnNames p)); ("calldatas", VArr (VBytes <$> p_calldatas p));
   ("start_ledger", VNum (p_startLedger p)); ("end_ledger", VNum (p_endLedger p)); ("votes_for", VBig (p_votesFor p));
   ("votes_against", VBig (p_votesAgainst p)); ("votes_abstain", VBig (p_votesAbstain p)); ("executed", VBool (p_executed p));
   ("cancelled", VBool (p_cancelled p)); ("queued", VBool (p_queued p)); ("op_ids", VArr ((λ id, VBytes (of_hex id)) <$> p_opIds p))].
Definition settings_native (st : GovernorSettingsState) : list (string * JsValue) :=
  [("voting_delay", VNum (Store.gs_votingDelay st)); ("voting_period", VNum (Store.gs_votingPeriod st)); ("quorum_numerator", VNum (Store.gs_quorumNumerator st));
   ("proposal_threshold", VBig (Store.gs_proposalThreshold st)); ("guardian", VStr (Store.gs_guardian st));
   ("vote_type", VArr [VStr (match Store.gs_voteType st with Store.Simple => "Simple" | Store.Extended => "Extended" | Store.Quadratic => "Quadratic" end)]);
   ("proposal_grace_period", VNum (Store.gs_proposalGracePeriod st)); ("use_dynamic_quorum", VBool (Store.gs_useDynamicQuorum st));
   ("reflector_oracle", match Store.gs_reflectorOracle st with Some EmptyString | None => VNull | Some a => VStr a end);
   ("min_quorum_usd", VBig (Store.gs_minQuorumUsd st)); ("max_calldata_size", VNum (Store.gs_maxCalldataSize st));
   ("proposal_cooldown", VNum (Store.gs_proposalCooldown st)); ("max_proposals_per_period", VNum (Store.gs_maxProposalsPerPeriod st));
   ("proposal_period_duration", VNum (Store.gs_proposalPeriodDuration st))].
(** Goes field by field. *)
Ltac fields :=
  repeat (apply Forall2_cons; split; [split; [reflexivity|]|]); try apply Forall2_nil_2; cbn [fst snd];
  lazymatch goal with
  | |- encodes (encVec _ _) _ => apply encodes_vec; intros ?; first [(apply encodes_native; reflexivity)|apply encodes_symbol]
  | |- encodes (encEnum _) _ => apply encodes_enum
  | |- encodes (match ?o with _ => _ end) _ => destruct o as [[|]|]; first [apply encodes_void|(apply encodes_native; reflexivity)]
  | |- _ => (apply encodes_native; reflexivity)
  end.
Lemma encodes_proposal p : encodes (encodeProposal p) (VObj (sort_by fst (proposal_native p))).
Proof. apply encodes_map; [fields|]. apply (bool_decide_unpack _). vm_compute. exact I. Qed.
Lemma encodes_settings st : encodes (encodeGovernorSettings st) (VObj (sort_by fst (settings_native st))).
Proof. apply encodes_map; [fields|]. apply (bool_decide_unpack _). vm_compute. exact I. Qed.

(** What the client makes of a proposal and of the settings of the mock, which has
    no votes in two phases. *)
Definition sdk_proposal (p : ProposalRecord) : SdkProposal :=
  mkSdkProposal (p_id p) (p_proposer p) (p_description p) (num (p_startLedger p)) (num (p_endLedger p)) (p_votesFor p) (p_votesAgainst p)
    (p_votesAbstain p) (p_executed p) (p_cancelled p).
Definition sdk_vote_type (t : Store.VoteType) : VoteType :=
  match t with Store.Simple => Simple | Store.Extended => Extended | Store.Quadratic => Quadratic end.
Definition sdk_settings (st : GovernorSettingsState) : SettingsRead :=
  mkSettingsRead (num (Store.gs_votingDelay st)) (num (Store.gs_votingPeriod st)) (num (Store.gs_quorumNumerator st)) (Store.gs_proposalThreshold st) (Store.gs_guardian st)
    (sdk_vote_type (Store.gs_voteType st)) (num (Store.gs_proposalGracePeriod st)) (Store.gs_useDynamicQuorum st)
    (match Store.gs_reflectorOracle st with Some EmptyString | None => None | o => o end) (Store.gs_minQuorumUsd st) (num (Store.gs_maxCalldataSize st))
    (num (Store.gs_proposalCooldown st)) (num (Store.gs_maxProposalsPerPeriod st)) (num (Store.gs_proposalPeriodDuration st)) false (num 5000).
Lemma proposal_read p s : mapProposalNative (VObj (sort_by fst (proposal_native p))) s = (Ok (sdk_proposal p), s).
Proof. by lazy. Qed.
Lemma settings_read st s : read_settings (VObj (sort_by fst (settings_native st))) s = (Ok (sdk_settings st), s).
Proof. destruct st as [? ? ? ? guardian [] ? ? [[|]|] ? ? ? ? ? ? ?]; by lazy. Qed.

(** What a read gives of the result of an operation and of its encoding. *)
Definition read_of {A B} (f : A → B) (enc : A → outcome ScVal) (result : outcome A) : outcome B :=
  match result with
  | Ok a => match enc a with Ok _ => Ok (f a) | Throw e => Throw (read_failure e) end
  | Throw e => Throw (read_failure e)
  end.
Definition sdk_state (st : ProposalStateName) : ProposalState :=
  match st with
  | Proposals.Pending => Pending | Proposals.Active => Active | Proposals.Defeated => Defeated | Proposals.Succeeded => Succeeded
  | Proposals.Queued => Queued | Proposals.Executed => Executed | Proposals.Cancelled => Cancelled | Proposals.Expired => Expired
  end.
(** A read of an operation [op] whose result [enc] encodes and [parse] reads back. *)
Lemma read_of_mock {A B} source fnName vals ns missing (parse : JsValue → M MockSorobanServer B) (op : M MockLedgerStore A) (wrap : A → Value)
    (enc : A → outcome ScVal) (native : A → JsValue) (f : A → B) s :
  natives vals ns → resolve (st_addresses (sv_store s)) gov = Some CGovernor →
  (∀ st, run (sv_clock s) CGovernor (call_of source gov fnName ns) st = (a ← op; from_outcome (enc a)) st) →
  (∀ a, encodes (enc a) (native a)) → (∀ a, parse (native a) s = (Ok (f a), s)) →
  read_required rpc source gov fnName (Ok <$> vals) missing parse s = (read_of f enc (op (sv_store s)).1, s).
Proof.
  intros Hn Hc Hrun Henc Hparse. rewrite (read_on_mock _ _ _ _ _ CGovernor _ _ _ Hn Hc), Hrun. unfold mbind, M_bind, from_outcome.
  destruct (op (sv_store s)) as [[a|e] st]; cbn; [|done]. destruct (enc a) as [v|e] eqn:Hv; [|done]. unfold to_native, from_outcome.
  by rewrite (Henc a v Hv), Hparse.
Qed.
Lemma read_retried {A} (fn : M MockSorobanServer A) o s :
  1 ≤ max_attempts → fn s = (o, s) → GovernorClient.retry rpc config no_hook fn None s = (o, s).
Proof. intros Hmax Hfn. by apply retry_same. Qed.
Lemma id_native id vi : a_u64 id = Ok vi → natives [vi] [VBig id].
Proof. intros Hi. apply Forall2_cons. split; [exact (law_native _ _ _ Hi eq_refl)|constructor]. Qed.

(** C33: The reads of the governor client are the operations of the executor: the
    state of a proposal, its fields and the settings come back as the store has
    them, the settings the mock does not keep with their defaults; an error of the
    executor, or of the encoding of its result, is thrown as an error of the
    simulation; and the server is left as it was. *)
Theorem reads_through_sdk id vi s :
  resolve (st_addresses (sv_store s)) gov = Some CGovernor → a_u64 id = Ok vi → 1 ≤ max_attempts →
  GovernorClient.getProposalState rpc config no_hook id s =
    (read_of sdk_state (λ st, encEnum (Proposals.state_name st)) (GovernorExecutor.state (sv_clock s) id (sv_store s)).1, s) ∧
  GovernorClient.getProposal rpc config no_hook id s =
    (read_of sdk_proposal encodeProposal (GovernorExecutor.get_proposal id (sv_store s)).1, s) ∧
  GovernorClient.getSettings rpc config no_hook None s =
    (read_of sdk_settings encodeGovernorSettings (GovernorExecutor.get_settings (sv_store s)).1, s).
Proof.
  intros Hc Hi Hmax. pose proof (id_native _ _ Hi) as Hn.
  unfold GovernorClient.getProposalState, GovernorClient.getProposal, GovernorClient.getSettings, GovernorClient.required. rewrite Hi.
  split_and!; (apply read_retried; [done|]).
  - apply (read_of_mock _ _ [vi] [VBig id] _ _ _ (RText ∘ Proposals.state_name) _ (λ st, VArr [VStr (Proposals.state_name st)])); [done..| | |].
    + intros st. by eapply run_handler.
    + intros st. apply encodes_enum.
    + by intros [].
  - apply (read_of_mock _ _ [vi] [VBig id] _ _ _ RProposal _ (λ p, VObj (sort_by fst (proposal_native p)))); [done..| | |].
    + intros st. by eapply run_handler.
    + intros p. apply encodes_proposal.
    + intros p. apply proposal_read.
  - apply (read_of_mock _ _ [] [] _ _ _ RSettings _ (λ st, VObj (sort_by fst (settings_native st)))); [constructor|done|..].
    + intros st. by eapply run_handler.
    + intros st. apply encodes_settings.
    + intros st. apply settings_read.
Qed.

(** ** The votes client *)
Abbreviation tokens := (gc_votesAddress config).
Definition as_votes_error (e : JsError) : JsError :=
  typed "VotesError" (parseVotesError (RawObject (Some "ERROR") (Some (Server.error_text e)))).
Lemma delegate_error clock a b st e st' : TokenVotes.delegate clock a a b st = (Throw e, st') → ∃ text, e = MockContractError 1 text.
Proof.
  unfold TokenVotes.delegate, throw_if, mbind, M_bind, get. rewrite bool_decide_eq_true_2 by done. cbn -[Nat.ltb].
  destruct (wouldCreateCycle st a b); [intros [= <- <-]; by eexists|].
  destruct (MAX_CHAIN_WALK <? length (resolveChain st b))%nat; [intros [= <- <-]; by eexists|done].
Qed.
Lemma delegate_error_final text : VotesClient.isRetryableSubmissionError (as_votes_error (MockContractError 1 text)) = false.
Proof.
  unfold VotesClient.isRetryableSubmissionError, isNetworkError. unfold as_votes_error, typed. rewrite law_status. by vm_compute.
Qed.
Definition votes_attempts : Z := default 3 (maxAttempts (createRetry (gc_retry config) VotesClient.defaults (Some VotesClient.isRetryableSubmissionError))).
Lemma delegate_invoked clock a b st :
  run clock CVotes (call_of a tokens "delegate" [VStr a; VStr b]) st = voided (on_votes (TokenVotes.delegate clock a a b) st).
Proof. by eapply run_void. Qed.
Lemma address_native a va : a_address a = Ok va → natives [va] [VStr a].
Proof. intros Ha. apply Forall2_cons. split; [exact (law_native _ _ _ Ha eq_refl)|constructor]. Qed.

(** The power of an account, zero when it cannot be encoded. *)
Definition power_read (account : string) s : Z :=
  let power := lastCheckpointVotes (tv_checkpoints (st_votes (sv_store s)) !! account) in
  match encI128 power with Ok _ => power | Throw _ => 0 end.
Lemma get_votes_invoked clock source account st :
  run clock CVotes (call_of source tokens "get_votes" [VStr account]) st = (a ← on_votes (get_votes account); from_outcome (encI128 a)) st.
Proof. by eapply run_handler. Qed.
Lemma get_votes_on_mock account va s :
  resolve (st_addresses (sv_store s)) tokens = Some CVotes → a_address account = Ok va → 1 ≤ votes_attempts →
  VotesClient.getVotes rpc config no_hook account s = (Ok (power_read account s), s).
Proof.
  intros Hc Ha Hmax. unfold VotesClient.getVotes, VotesClient.retry, VotesClient.amount. rewrite Ha. apply retry_same; [done|].
  rewrite (read_or_on_mock _ _ _ [va] [VStr account] CVotes _ _ _ (address_native _ _ Ha) Hc).
  rewrite get_votes_invoked.
  unfold mbind, M_bind, from_outcome, on_votes, zoom, get_votes, gets, power_read. cbn [fst].
  destruct (encI128 _) as [v|e] eqn:Hv; [|done]. cbn [fst]. unfold to_native, from_outcome.
  pose proof (law_native _ _ _ Hv eq_refl) as Hl. cbn in Hl. by rewrite Hl.
Qed.

(** C34: A delegation by the votes client is one run of the token's [delegate] with
    the signer as caller and delegator: the hash is returned when it returns, the
    typed error is thrown without a second attempt when it throws, the store is the
    one it left; and the power the client reads, of any account at any time, is the
    last checkpoint the token has for it. *)
Theorem delegation_through_sdk a b va vb s :
  resolve (st_addresses (sv_store s)) tokens = Some CVotes → a_address a = Ok va → a_address b = Ok vb → 1 ≤ votes_attempts →
  let hash := hash_of (mkTx (mkAccount a 0) (mkCall tokens "delegate" [va; vb])) in
  let delegated := on_votes (TokenVotes.delegate (sv_clock s) a a b) (sv_store s) in
  VotesClient.delegate rpc config onRetry a b s =
  (match delegated.1 with Ok _ => Ok hash | Throw e => Throw (as_votes_error e) end, sent_state hash (voided delegated) s) ∧
  (∀ s', resolve (st_addresses (sv_store s')) tokens = Some CVotes →
     VotesClient.getVotes rpc config no_hook b s' = (Ok (power_read b s'), s')).
Proof.
  intros Hc Ha Hb Hmax hash delegated. split; [|intros s' Hs'; by eapply get_votes_on_mock]. unfold VotesClient.delegate, VotesClient.send, VotesClient.retry. rewrite Ha, Hb.
  assert (natives [va; vb] [VStr a; VStr b]) as Hn.
  { apply Forall2_cons. split; [exact (law_native _ _ _ Ha eq_refl)|]. by apply address_native. }
  set (fn := sd_hash <$> _).
  assert (fn s = (match delegated.1 with Ok _ => Ok hash | Throw e => Throw (as_votes_error e) end, sent_state hash (voided delegated) s)) as Hfn.
  { subst fn. unfold fmap, M_fmap, submit, submit_tx, mbind, M_bind. change (VotesClient.votes config) with tokens.
    change [Ok va; Ok vb] with (Ok <$> [va; vb] : list (outcome ScVal)). rewrite build_on_mock. change (rpc_prepare rpc ?tx s) with (Ok tx, s). cbv beta iota.
    unfold keypair, mret, M_ret. rewrite (send_on_mock _ _ _ _ _ _ _ _ _ _ _ Hn Hc), delegate_invoked. fold delegated hash.
    by destruct delegated as [[[]|e] st]. }
  destruct delegated as [[[]|e] st] eqn:Hd; [by apply retry_ok|]. apply retry_final; [done..|]. cbn.
  assert (∃ text, e = MockContractError 1 text) as [text ->].
  { unfold delegated, on_votes, zoom in Hd. destruct (TokenVotes.delegate _ _ _ _ _) as [o t] eqn:Ho. injection Hd as -> <-. by eapply delegate_error. }
  apply delegate_error_final.
Qed.
End refinement.

(** ** Examples *)
Import ServerExample SdkExample.

Lemma vote_through_sdk_witness :
  (GovernorClient.castVote toy_rpc toy_config no_hook "bob" 1 For voting).1 = Ok "bob.cast_vote" ∧
  (GovernorClient.castVote toy_rpc toy_config no_hook "bob" 1 For voted).1 =
    Throw (SdkError "GovernorError" 12 "Voter has already voted on this proposal").
Proof.
  rewrite !(vote_through_sdk sha dec toy_hash toy_config no_hook "bob" 1 For (scvNative "address" (EText "bob")) (scvNative "u64" (EInt 1)));
    [vm_compute; split; reflexivity|first [reflexivity|vm_compute; congruence]..].
Defined.
Lemma queue_and_execute_through_sdk_witness :
  (GovernorClient.queue toy_rpc toy_config no_hook "bob" 1 closed).1 = Ok tt ∧
  GovernorClient.queue toy_rpc toy_config no_hook "bob" 1 voted =
    (Throw (SdkError "GovernorError" 14 "Proposal is not in Succeeded state"), voted).
Proof.
  pose proof (λ s Hs, proj1 (queue_and_execute_through_sdk sha dec toy_hash toy_config no_hook "bob" 1 (scvNative "u64" (EInt 1)) s
    Hs eq_refl ltac:(vm_compute; congruence))) as Hqueue.
  rewrite !Hqueue; vm_compute; auto.
Defined.
Lemma reads_through_sdk_witness :
  (GovernorClient.getProposalState toy_rpc toy_config no_hook 1 closed).1 = Ok Succeeded ∧
  (GovernorClient.getProposal toy_rpc toy_config no_hook 1 closed).1 =
    Ok (mkSdkProposal 1 "bob" "text" (num 9) (num 19) 50 0 0 false false).
Proof.
  destruct (reads_through_sdk sha dec toy_hash toy_config 1 (scvNative "u64" (EInt 1)) closed) as (Hstate & Hproposal & _);
    [vm_compute; reflexivity|reflexivity|vm_compute; congruence|].
  rewrite Hstate, Hproposal. split; vm_compute; reflexivity.
Defined.
Lemma delegation_through_sdk_witness :
  (VotesClient.delegate toy_rpc toy_config no_hook "bob" "alice" server0).1 = Ok "bob.delegate" ∧
  (VotesClient.delegate toy_rpc toy_config no_hook "bob" "alice" delegated).1 = Throw (SdkError "VotesError" 1 "Votes contract error #1").
Proof.
  pose proof (λ s Hs, proj1 (delegation_through_sdk sha dec toy_hash toy_config no_hook "bob" "alice" (scvNative "address" (EText "bob"))
    (scvNative "address" (EText "alice")) s Hs eq_refl eq_refl ltac:(vm_compute; congruence))) as Hdelegate.
  rewrite !Hdelegate; vm_compute; auto.
Defined.
