(* ===== verification/SdkDelegations.v ===== *)
(** * The map of delegations

    What a scan of [sdk/src/votes.ts] makes of the events an RPC serves in pages:
    the replay of them all, in one scan or in several with the cursor between; and
    what it misses. *)

From stdpp Require Import sorting.
From S2P Require Import Prelude JsValues SdkErrors Relayer Effects Server SdkEvents SdkSubscriptions SdkDelivery ContractEvents SdkClient SdkVotes SdkTimelock SdkGovernor SdkOnMock SdkTypes.
Open Scope Z_scope.

(** ** Cursors *)
Lemma base64_char_value n : (n < 64)%N → base64_value (base64_char n) = Some n.
Proof.
  intros Hn. assert (forallb (λ n, bool_decide (base64_value (base64_char n) = Some n)) (N.of_nat <$> seq 0 64) = true) as Hall by (vm_compute; reflexivity).
  rewrite forallb_forall in Hall. eapply bool_decide_eq_true_1, (Hall n), list_elem_of_In, list_elem_of_fmap.
  exists (N.to_nat n). split; [lia|]. apply elem_of_seq. lia.
Qed.
Lemma byte_of_mod n b : (n mod 256 = Byte.to_N b)%N → byte_of_N n = b.
Proof. intros Hn. unfold byte_of_N. rewrite Hn. by destruct b. Qed.
Lemma byte_below b : (Byte.to_N b < 256)%N.
Proof. by destruct b. Qed.
Lemma omap_sextet n l : (n < 64)%N → omap base64_value (base64_char n :: l) = n :: omap base64_value l.
Proof. intros Hn. cbn. by rewrite base64_char_value. Qed.
Ltac sextets :=
  repeat match goal with |- context [Byte.to_N ?b] => lazymatch goal with _ : (Byte.to_N b < 256)%N |- _ => fail | _ => pose proof (byte_below b) end end;
  zify; Z.to_euclidean_division_equations; lia.
Fixpoint from_to_base64 (bs : bytes) : from_base64 (to_base64 bs) = bs.
Proof.
  destruct bs as [|a [|b [|c bs]]]; [done| | |]; unfold from_base64; cbn [to_base64 String.list_ascii_of_string];
    rewrite !omap_sextet by sextets.
  - change (omap base64_value (String.list_ascii_of_string (pad +:+ pad))) with (@nil N). cbn [of_sextets].
    f_equal. apply byte_of_mod. sextets.
  - change (omap base64_value (String.list_ascii_of_string pad)) with (@nil N). cbn [of_sextets]. f_equal; [|f_equal]; apply byte_of_mod; sextets.
  - cbn [of_sextets]. fold (from_base64 (to_base64 bs)). rewrite from_to_base64. f_equal; [|f_equal; [|f_equal]]; apply byte_of_mod; sextets.
Qed.

Section cursors.
Context `{!Json}.
(** [JSON.parse] reads what [JSON.stringify] wrote. *)
Definition parses_payload : Prop := ∀ n, JSON_parse (cursor_payload n) = Some (VObj [("nextStartLedger", VNum n)]).
Lemma payload_ascii n : ascii_text (cursor_payload n).
Proof.
  change (cursor_payload n) with ("{" +:+ ((json_string "nextStartLedger" +:+ (":" +:+ decimal n)) +:+ "}")).
  repeat apply ascii_text_app; try apply decimal_ascii; unfold ascii_text; vm_compute; repeat constructor.
Qed.
Hypothesis payload_parsed : parses_payload.
Lemma cursor_decoded n : 0 < n → decodeDelegationCursor (encodeDelegationCursor n) = Some n.
Proof.
  intros Hn. unfold decodeDelegationCursor, encodeDelegationCursor. rewrite from_to_base64.
  rewrite buffer_text_utf8, payload_parsed by apply payload_ascii. cbn -[Z.ltb]. by destruct n.
Qed.
Lemma cursor_not_empty n : encodeDelegationCursor n ≠ "".
Proof.
  unfold encodeDelegationCursor. intros Hn. pose proof (from_to_base64 (utf8 (cursor_payload n))) as Hb. by rewrite Hn in Hb.
Qed.
Lemma first_ledger_cursor n fromLedger cap :
  0 < n → VotesClient.first_ledger (VotesClient.mkScanOptions fromLedger (Some (encodeDelegationCursor n)) cap) = Some n.
Proof.
  intros Hn. unfold VotesClient.first_ledger. cbn [VotesClient.sn_cursor VotesClient.sn_fromLedger]. pose proof (cursor_not_empty n). rewrite cursor_decoded by done.
  by destruct (encodeDelegationCursor n).
Qed.
End cursors.

Lemma filter_sorted {A} (R : A → A → Prop) (p : A → bool) l : StronglySorted R l → StronglySorted R (List.filter p l).
Proof.
  induction 1 as [|x l Hs IH Hx]; cbn; [constructor|]. destruct (p x); [|done]. constructor; [done|].
  rewrite Forall_forall in *. intros y Hy. apply Hx. rewrite list_elem_of_In, filter_In in Hy. apply list_elem_of_In, Hy.
Qed.
Section scans.
Context `{!Stellar, !Json} {S : Type} (rpc : Rpc S) (config : GovernorConfig) (onRetry : Z → JsError → M S unit).

(** The events that pass the client's filter, in the order of the RPC, and those of
    them from a ledger on. *)
Context (matched : list RawEvent) (latest : Z).
Definition from (cursor : Z) : list RawEvent := List.filter (λ e, cursor <=? raw_ledger e) matched.
(** The page from a ledger has no event of a ledger another event of which comes
    after it. *)
Definition whole (limit cursor : Z) : Prop :=
  Forall (λ e, Forall (λ e', raw_ledger e < raw_ledger e') (skipn (Z.to_nat limit) (from cursor))) (firstn (Z.to_nat limit) (from cursor)).
(** The pages that a scan reads, with its bound and its cursor, are whole. *)
Fixpoint whole_scan (fuel : nat) (cap : option Z) (cursor scanned : Z) : Prop :=
  match fuel with
  | O => True
  | Datatypes.S fuel =>
    if (cursor <=? latest) && VotesClient.below_cap cap scanned then
      let limit := VotesClient.page_limit cap scanned in
      let page := firstn (Z.to_nat limit) (from cursor) in
      whole limit cursor ∧ match page with
                           | [] => True
                           | _ => whole_scan fuel cap (max_ledger cursor page + 1) (scanned + Z.of_nat (length page))
                           end
    else True
  end.
Hypothesis no_future : ∀ e, e ∈ matched → raw_ledger e <= latest.
(** [getEvents] serves the first of them from a ledger on. *)
Hypothesis serves : ∀ cursor limit s,
  rpc_getEvents rpc (VotesClient.events_from config cursor limit) s = (Ok (Some (firstn (Z.to_nat limit) (from cursor))), s).

Lemma from_elem cursor e : e ∈ from cursor ↔ e ∈ matched ∧ cursor <= raw_ledger e.
Proof. unfold from. rewrite !list_elem_of_In, filter_In. by rewrite Z.leb_le. Qed.
Lemma from_from c c' : c <= c' → from c' = List.filter (λ e, c' <=? raw_ledger e) (from c).
Proof.
  intros Hle. clear no_future serves. unfold from. induction matched as [|e l IH]; [done|]. cbn.
  destruct (Z.leb_spec c (raw_ledger e)); cbn; destruct (Z.leb_spec c' (raw_ledger e)); rewrite ?IH; done || lia.
Qed.
Lemma max_ledger_bounds cursor events : cursor <= max_ledger cursor events ∧ (∀ e, e ∈ events → raw_ledger e <= max_ledger cursor events).
Proof.
  unfold max_ledger. revert cursor. induction events as [|x l IH]; intros cursor; cbn; [split; [lia|by intros e ?%not_elem_of_nil]|].
  destruct (IH (Z.max cursor (raw_ledger x))) as [H1 H2]. split; [lia|]. intros e [->|He]%elem_of_cons; [lia|by apply H2].
Qed.
Lemma max_ledger_reached cursor events :
  max_ledger cursor events = cursor ∨ ∃ e, e ∈ events ∧ max_ledger cursor events = raw_ledger e.
Proof.
  unfold max_ledger. revert cursor. induction events as [|x l IH]; intros cursor; cbn; [by left|].
  destruct (IH (Z.max cursor (raw_ledger x))) as [Heq|(e & He & Heq)]; [|right; exists e; split; [by right|done]].
  destruct (Z.max_spec cursor (raw_ledger x)) as [[_ Hm]|[_ Hm]]; rewrite Hm in *; [right; exists x; split; [by left|done]|by left].
Qed.
Lemma filter_all {A} (p : A → bool) l : (∀ x, x ∈ l → p x = true) → List.filter p l = l.
Proof. induction l as [|x l IH]; intros Hp; [done|]. cbn. rewrite Hp by by left. f_equal. apply IH. intros y Hy. apply Hp. by right. Qed.
Lemma filter_none {A} (p : A → bool) l : (∀ x, x ∈ l → p x = false) → List.filter p l = [].
Proof. induction l as [|x l IH]; intros Hp; [done|]. cbn. rewrite Hp by by left. apply IH. intros y Hy. apply Hp. by right. Qed.
(** With no two events in a ledger every page is whole. *)
Lemma increasing_whole : StronglySorted (λ e e', raw_ledger e < raw_ledger e') matched → ∀ limit cursor, whole limit cursor.
Proof.
  clear no_future serves. intros Hs limit cursor. apply Forall_forall. intros e He. apply Forall_forall. intros e' He'.
  pose proof (filter_sorted _ (λ e, cursor <=? raw_ledger e) _ Hs) as Hf. fold (from cursor) in Hf.
  rewrite <- (firstn_skipn (Z.to_nat limit) (from cursor)) in Hf. exact (StronglySorted_app_1_elem_of _ _ _ _ _ Hf He He').
Qed.
(** After a page the next one starts where it ended. *)
Lemma next_page cursor limit page rest :
  whole limit cursor → firstn (Z.to_nat limit) (from cursor) = page → skipn (Z.to_nat limit) (from cursor) = rest → page ≠ [] →
  from (max_ledger cursor page + 1) = rest.
Proof.
  intros Hwhole Hpage Hrest Hne. assert (from cursor = page ++ rest) as Hsplit by (subst; by rewrite firstn_skipn).
  assert (∀ e e', e ∈ page → e' ∈ rest → raw_ledger e < raw_ledger e') as Hlt.
  { intros e e' He He'. unfold whole in Hwhole. rewrite Hpage, Hrest, Forall_forall in Hwhole. specialize (Hwhole e He).
    rewrite Forall_forall in Hwhole. by apply Hwhole. }
  assert (∀ e, e ∈ page → cursor <= raw_ledger e) as Hge.
  { intros e He. assert (e ∈ from cursor) as [_ ?]%from_elem by (rewrite Hsplit; by apply elem_of_app; left). done. }
  destruct (max_ledger_bounds cursor page) as [H1 H2]. rewrite (from_from cursor), Hsplit, List.filter_app by lia.
  rewrite filter_none, filter_all; [done| |].
  - intros e He. apply Z.leb_le. destruct (max_ledger_reached cursor page) as [Heq|(x & Hx & Heq)]; [|rewrite Heq; pose proof (Hlt _ _ Hx He); lia].
    destruct page as [|x page']; [done|]. pose proof (Hge x ltac:(by left)). pose proof (Hlt x e ltac:(by left) He). lia.
  - intros e He%H2. apply Z.leb_gt. lia.
Qed.

(** The events a scan has met, and where it stopped. *)
Definition scanned_to (cursor : Z) (seen : list RawEvent) (next : option Z) : Prop :=
  match next with None => seen = from cursor | Some c => seen ++ from c = from cursor end.
Lemma scan_page fuel cap cursor scanned s m (limit := VotesClient.page_limit cap scanned) (page := firstn (Z.to_nat limit) (from cursor)) :
  cursor <= latest → VotesClient.below_cap cap scanned = true → 1 <= default 3 (maxAttempts (createRetry (gc_retry config) VotesClient.defaults None)) →
  VotesClient.scan rpc config onRetry (Datatypes.S fuel) latest cap cursor scanned (s, m) =
  match page with
  | [] => (Ok (VotesClient.Scanned None), (s, m))
  | _ => VotesClient.scan rpc config onRetry fuel latest cap (max_ledger cursor page + 1) (scanned + Z.of_nat (length page))
           (s, foldl apply_change m page)
  end.
Proof.
  intros Hle Hcap Hmax. cbn [VotesClient.scan]. rewrite Hcap, (proj2 (Z.leb_le _ _) Hle). cbn [andb].
  unfold mbind at 1, M_bind at 1. unfold VotesClient.on_rpc, zoom. cbn [fst snd]. fold limit.
  assert (VotesClient.retry rpc config onRetry (rpc_getEvents rpc (VotesClient.events_from config cursor limit)) None s = (Ok (Some page), s)) as ->
    by by apply retry_ok.
  cbn [default]. by destruct page.
Qed.
Lemma page_limit_range cap scanned : 1 <= VotesClient.page_limit cap scanned <= 100.
Proof. unfold VotesClient.page_limit. destruct cap; lia. Qed.
Lemma scan_whole cap fuel cursor scanned s m :
  1 <= default 3 (maxAttempts (createRetry (gc_retry config) VotesClient.defaults None)) →
  whole_scan fuel cap cursor scanned → latest - cursor < Z.of_nat fuel →
  ∃ seen next, VotesClient.scan rpc config onRetry fuel latest cap cursor scanned (s, m) =
    (Ok (VotesClient.Scanned next), (s, foldl apply_change m seen)) ∧ scanned_to cursor seen next ∧ (cap = None → next = None) ∧
    (∀ c, next = Some c → cursor <= c).
Proof.
  intros Hmax. revert cursor scanned m. induction fuel as [|fuel IH]; intros cursor scanned m Hwhole Hfuel.
  { exists [], None. cbn [VotesClient.scan]. rewrite (proj2 (Z.leb_gt cursor latest)) by lia. cbn [andb].
    rewrite (proj2 (Z.ltb_lt latest cursor)) by lia. split_and!; [done| |done..]. symmetry. apply filter_none.
    intros e He%no_future. apply Z.leb_gt. lia. }
  destruct ((cursor <=? latest) && VotesClient.below_cap cap scanned) eqn:Hgo.
  - cbn [whole_scan] in Hwhole. rewrite Hgo in Hwhole. destruct Hwhole as [Hpage_whole Hrest_whole].
    apply andb_true_iff in Hgo as [Hle%Z.leb_le Hcap]. rewrite scan_page by done.
    set (page := firstn _ (from cursor)) in *. destruct page as [|x rest'] eqn:Hpage.
    + exists [], None. split_and!; [done| |done..]. pose proof (page_limit_range cap scanned). subst page.
      destruct (from cursor) eqn:Hf; [done|]. destruct (Z.to_nat (VotesClient.page_limit cap scanned)) eqn:Hn; [lia|done].
    + rewrite <- Hpage. destruct (max_ledger_bounds cursor page) as [Hm _].
      destruct (IH (max_ledger cursor page + 1) (scanned + Z.of_nat (length page)) (foldl apply_change m page)) as (seen & next & Hrun & Hto & Hnone & Hc); [by rewrite Hpage|lia|].
      exists (page ++ seen), next. rewrite Hrun, foldl_app. split_and!; [done| |done|intros c Hn; specialize (Hc c Hn); lia].
      pose proof (next_page cursor _ page _ Hpage_whole eq_refl eq_refl ltac:(by rewrite Hpage)) as Hnext.
      pose proof (firstn_skipn (Z.to_nat (VotesClient.page_limit cap scanned)) (from cursor)) as Hsplit. fold page in Hsplit.
      unfold scanned_to in *. destruct next as [c|]; [rewrite <- app_assoc, Hto, Hnext; done|rewrite Hto, Hnext; done].
  - exists [], (if latest <? cursor then None else Some cursor). cbn [VotesClient.scan]. rewrite Hgo. split_and!; [done| | |].
    + unfold scanned_to. destruct (Z.ltb_spec latest cursor); [|done]. symmetry. apply filter_none. intros e He%no_future. apply Z.leb_gt. lia.
    + intros ->. cbn in Hgo. rewrite andb_true_r in Hgo. apply Z.leb_gt in Hgo. by rewrite (proj2 (Z.ltb_lt _ _)).
    + intros c. destruct (latest <? cursor); [done|]. intros [= ->]. lia.
Qed.

Hypothesis payload_parsed : parses_payload.
Hypothesis latest_ledger : ∀ s, rpc_getLatestLedger rpc s = (Ok latest, s).
Abbreviation build_map := (VotesClient.buildDelegationMapIncremental rpc config onRetry).
Lemma build_map_scan fuel options start s m :
  VotesClient.first_ledger options = Some start →
  build_map fuel options (s, m) =
  match VotesClient.scan rpc config onRetry fuel latest (Z.max 0 <$> VotesClient.sn_maxEventsToScan options) start 0 (s, m) with
  | (Ok r, p) => (Ok r, p)
  | (Throw e, p) => (Throw (VotesClient.scan_failure e), p)
  end.
Proof.
  intros Hstart. unfold VotesClient.buildDelegationMapIncremental. rewrite Hstart. unfold mbind at 1, M_bind at 1. unfold mret, M_ret.
  unfold try_catch, mbind, M_bind, VotesClient.on_rpc, zoom. cbn [fst snd]. rewrite latest_ledger. by destruct (VotesClient.scan _ _ _ _ _ _ _ _ _) as [[]].
Qed.
Definition attempts_allowed : Prop := 1 <= default 3 (maxAttempts (createRetry (gc_retry config) VotesClient.defaults None)).

(** C36: A scan none of whose pages ends inside a ledger replays the events the RPC
    matches, in their order, into the map: all of them when it has no bound, and with
    a bound up to the ledger its cursor names.  A scan without a bound goes on from
    there, and when none of its pages of one hundred ends inside a ledger, both
    together have replayed every event once.  A scan stops when it has as much fuel
    as there are ledgers. *)
Theorem scans_replay_delegations fuel options start s m :
  attempts_allowed → 0 < start → VotesClient.first_ledger options = Some start → latest - start < Z.of_nat fuel →
  whole_scan fuel (Z.max 0 <$> VotesClient.sn_maxEventsToScan options) start 0 →
  ∃ seen next, build_map fuel options (s, m) = (Ok (VotesClient.Scanned next), (s, foldl apply_change m seen)) ∧
    match next with
    | None => seen = from start
    | Some c =>
      seen ++ from c = from start ∧ VotesClient.sn_maxEventsToScan options ≠ None ∧
      ∀ resumed, resumed = VotesClient.mkScanOptions None (Some (encodeDelegationCursor c)) None → whole_scan fuel None c 0 →
        build_map fuel resumed (s, foldl apply_change m seen) = (Ok (VotesClient.Scanned None), (s, foldl apply_change m (from start)))
    end.
Proof.
  intros Hmax Hpos Hstart Hfuel Hwhole.
  destruct (scan_whole (Z.max 0 <$> VotesClient.sn_maxEventsToScan options) fuel start 0 s m Hmax Hwhole Hfuel) as (seen & next & Hrun & Hto & Hnone & Hge).
  exists seen, next. rewrite (build_map_scan _ _ _ _ _ Hstart), Hrun. split; [done|]. unfold scanned_to in Hto.
  destruct next as [c|]; [|done]. split_and!; [done| |].
  { intros Hn. rewrite Hn in Hnone. by discriminate Hnone. }
  intros resumed -> Hrest. specialize (Hge c eq_refl).
  destruct (scan_whole None fuel c 0 s (foldl apply_change m seen) Hmax Hrest) as (rest & next' & Hrun' & Hto' & Hnone' & _); [lia|].
  rewrite (build_map_scan _ _ c) by (apply first_ledger_cursor; [done|lia]). cbn [VotesClient.sn_maxEventsToScan fmap option_fmap option_map].
  rewrite Hrun', (Hnone' eq_refl). rewrite (Hnone' eq_refl) in Hto'. cbn in Hto'. by rewrite <- Hto, Hto', foldl_app.
Qed.
End scans.

(** ** What the token publishes

    The two events of [token-votes/src/lib.rs] that tell of delegations. *)
Inductive DelegationEvent :=
  | delegate_changed (delegator : string) (previous_delegate : option string) (delegatee : string)
  | delegation_revoked (delegator old_delegatee : string) (balance : Z).
Definition delegation_publishes (e : DelegationEvent) : Published :=
  direct_publishes match e with
                   | delegate_changed delegator previous delegatee => votes_delegate_changed delegator previous delegatee
                   | delegation_revoked delegator old balance => votes_del_revk delegator old balance
                   end.
Definition as_raw (contract : string) (entry : Z * DelegationEvent) : RawEvent :=
  let p := delegation_publishes entry.2 in mkRawEvent entry.1 (Some contract) (Some <$> p.1) (Some p.2).
(** A filter of topics stands for the topics of an event in their order. *)
Definition passes `{!Stellar} (filter : list Segment) (e : RawEvent) : Prop :=
  Forall2 (λ segment topic, match segment with
                            | SegXdr v => ∃ n, topic = Some n ∧ scValToNative v = Ok n
                            | SegText _ => False
                            end) filter (raw_topic e).
Definition delegator_of (e : DelegationEvent) : string :=
  match e with delegate_changed a _ _ | delegation_revoked a _ _ => a end.

(** No event of the token passes the filter of the scan, whose second topic is a
    name where the token has an account; and the event of a new delegatee would not
    be understood. *)
Lemma no_event_passes `{!Stellar, !StellarLaws} contract entry :
  delegator_of entry.2 ≠ "del_revk" → ¬ passes VotesClient.topicFilter (as_raw contract entry).
Proof.
  intros Hne Hp. unfold passes, VotesClient.topicFilter in Hp. apply Forall2_cons_inv_l in Hp as (t1 & ts & _ & Hp & Ht).
  apply Forall2_cons_inv_l in Hp as (t2 & ts' & (n & -> & Hn) & _ & ->). rewrite law_symbol in Hn. injection Hn as <-.
  by destruct entry as [ledger []]; cbn in *; injection Ht as _ Ht.
Qed.
Lemma change_not_understood contract ledger delegator previous delegatee m :
  apply_change m (as_raw contract (ledger, delegate_changed delegator previous delegatee)) = m.
Proof. done. Qed.

(** The map stays as it was, whoever delegates. *)
Theorem delegations_are_not_found `{!Stellar, !Json, !StellarLaws} {S} (rpc : Rpc S) config onRetry
    (published : list (Z * DelegationEvent)) (matched : list RawEvent) latest fuel options start s m :
  (∀ entry, entry ∈ published → delegator_of entry.2 ≠ "del_revk") →
  (∀ e, e ∈ matched → passes VotesClient.topicFilter e ∧ e ∈ as_raw (gc_votesAddress config) <$> published) →
  (∀ s, rpc_getLatestLedger rpc s = (Ok latest, s)) →
  (∀ cursor limit s, rpc_getEvents rpc (VotesClient.events_from config cursor limit) s =
    (Ok (Some (firstn (Z.to_nat limit) (from matched cursor))), s)) →
  attempts_allowed config → VotesClient.first_ledger options = Some start → latest - start < Z.of_nat fuel → start <= latest →
  VotesClient.sn_maxEventsToScan options = None →
  VotesClient.buildDelegationMapIncremental rpc config onRetry fuel options (s, m) = (Ok (VotesClient.Scanned None), (s, m)).
Proof.
  intros Hpub Hmatched Hlatest Hserves Hmax Hstart Hfuel Hle Hcap.
  assert (matched = []) as ->.
  { destruct matched as [|e l]; [done|]. destruct (Hmatched e ltac:(by left)) as [Hp He].
    apply list_elem_of_fmap in He as (entry & -> & He). exfalso. by apply (no_event_passes _ _ (Hpub _ He) Hp). }
  rewrite (build_map_scan _ _ _ latest Hlatest _ _ _ _ _ Hstart), Hcap. cbn [fmap option_fmap option_map].
  destruct fuel as [|fuel]; [lia|]. rewrite (scan_page _ _ _ [] _ Hserves) by done.
  by destruct (Z.to_nat (VotesClient.page_limit None 0)).
Qed.

(** ** A server of events *)
Module DelegationExample.
Import SdkExample.
Definition no_answer {A} : M unit A := throw (PlainError "no answer").
Definition serving (matched : list RawEvent) (latest : Z) : Rpc unit :=
  mkRpc (λ _, no_answer) (λ _, no_answer) (λ _, no_answer) (λ _, no_answer) (λ _, no_answer) (mret latest)
    (λ request, mret (Some (firstn (Z.to_nat (er_limit request)) (from matched (default 0 (er_startLedger request)))))) (λ _ s, s) (λ _, 0).
Definition payload_number (s : string) : option Z :=
  of_decimal (String.string_of_list_ascii (removelast (skipn 19 (String.list_ascii_of_string s)))).
Lemma characters_app (a b : string) : String.list_ascii_of_string (a +:+ b) = String.list_ascii_of_string a ++ String.list_ascii_of_string b.
Proof. induction a as [|c a IH]; [done|]. cbn. by rewrite <- IH. Qed.
#[export] Instance payload_json : Json := λ s, (λ n, VObj [("nextStartLedger", VNum n)]) <$> payload_number s.
Lemma payload_json_parses : parses_payload.
Proof.
  intros n. unfold JSON_parse, payload_json. assert (payload_number (cursor_payload n) = Some n) as ->; [|done].
  unfold payload_number. set (key := json_string "nextStartLedger").
  change (cursor_payload n) with ("{" +:+ ((key +:+ (":" +:+ decimal n)) +:+ "}")). rewrite !characters_app.
  rewrite <- !app_assoc, (app_assoc (String.list_ascii_of_string "{")), (app_assoc (_ ++ _) (String.list_ascii_of_string ":")).
  rewrite drop_app_length' by (vm_compute; reflexivity). change (String.list_ascii_of_string "}") with [Ascii.ascii_of_N 125].
  rewrite removelast_last, String.string_of_list_ascii_of_string. apply of_decimal_decimal.
Qed.
Definition changed (ledger : Z) (delegator delegatee : string) : RawEvent :=
  mkRawEvent ledger (Some "votes") [Some (VStr "del_chsh"); Some (VStr delegator)] (Some (VArr [VNull; VStr delegatee])).
Definition revoked (ledger : Z) (delegator : string) : RawEvent :=
  mkRawEvent ledger (Some "votes") [Some (VStr "del_revk"); Some (VStr delegator)] (Some (VArr [VStr "carol"; VBig 5])).
Definition five : list RawEvent := [changed 2 "alice" "bob"; changed 2 "dave" "bob"; revoked 4 "alice"; changed 7 "alice" "carol"; revoked 9 "dave"].
Definition bounded : VotesClient.ScanOptions := VotesClient.mkScanOptions (Some 1) None (Some 2).
Definition crowd : list RawEvent := (λ i, changed 5 (decimal i) "bob") <$> seqZ 1 101.
End DelegationExample.
Import SdkExample DelegationExample.

Lemma scans_replay_delegations_witness :
  ∃ seen next,
    VotesClient.buildDelegationMapIncremental (serving five 10) toy_config no_hook 20 bounded (tt, []) =
      (Ok (VotesClient.Scanned next), (tt, foldl apply_change [] seen)) ∧
    next = Some 3 ∧ seen ++ from five 3 = five ∧
    VotesClient.buildDelegationMapIncremental (serving five 10) toy_config no_hook 20
      (VotesClient.mkScanOptions None (Some (encodeDelegationCursor 3)) None) (tt, foldl apply_change [] seen) =
      (Ok (VotesClient.Scanned None), (tt, [("alice", "carol")])).
Proof.
  assert (∀ e, e ∈ five → raw_ledger e <= 10) as Hnow by (apply Forall_forall; vm_compute; repeat constructor; done).
  pose proof (scans_replay_delegations (serving five 10) toy_config no_hook five 10 Hnow) as Hscan.
  destruct (Hscan ltac:(done) payload_json_parses ltac:(done) 20%nat bounded 1 tt []) as (seen & next & Hrun & Hnext);
    [vm_compute; congruence|lia|done|lia|vm_compute; repeat constructor; done|].
  exists seen, next. assert (next = Some 3) as -> by (vm_compute in Hrun; congruence).
  destruct Hnext as (Hseen & _ & Hresume). split_and!; [exact Hrun|done|exact Hseen|].
  rewrite (Hresume _ eq_refl) by (vm_compute; repeat constructor; done). vm_compute. reflexivity.
Defined.
(** A full page ends inside a ledger: what is left of the ledger is not read. *)
Lemma crowded_ledger_loses_events :
  match VotesClient.buildDelegationMap (serving crowd 10) toy_config no_hook 20 (Some 1) tt with
  | (Ok (end_of_scan, m), _) => end_of_scan = VotesClient.Scanned None ∧ length m = 100%nat
  | _ => False
  end ∧ length (foldl apply_change [] crowd) = 101%nat.
Proof. vm_compute. auto. Qed.
(** Nothing is matched. *)
Lemma delegations_are_not_found_witness :
  let published := [(3, delegate_changed "alice" None "bob"); (5, delegation_revoked "alice" "bob" 5)] in
  VotesClient.buildDelegationMapIncremental (serving [] 10) toy_config no_hook 20 (VotesClient.mkScanOptions (Some 1) None None) (tt, []) =
    (Ok (VotesClient.Scanned None), (tt, [])).
Proof.
  intros published. apply (delegations_are_not_found (serving [] 10) toy_config no_hook published [] 10 20 _ 1);
    [|by intros e ?%not_elem_of_nil|done|done|vm_compute; congruence|done|lia|lia|done].
  apply Forall_forall. repeat constructor; done.
Defined.
