(* ===== verification/SdkContractsSafety.v ===== *)
(** * Theorems about the clients of the other contracts

    On the mock server their calls are runs of the executors; what their retries
    send again, a spend of the treasury among it. *)

From S2P Require Import Prelude JsValues SdkErrors Effects AddressOrder Store TokenVotes Timelock Proposals Governor ProposalBonds Treasury CoSponsorship Conviction Optimistic Server.
From S2P Require Import SdkEvents SdkSubscriptions SdkDelivery ContractEvents SdkClient SdkGovernor SdkContracts SdkTreasury SdkOnMock SdkTypes.
From S2P Require Import ServerSafety SdkRefinement.
Open Scope Z_scope.

(** ** Which failed transactions are sent again *)

(** The digits of a hash. *)
Fixpoint is_hash (s : string) : bool :=
  match s with
  | EmptyString => true
  | String c s => match hex_value c with Some _ => Ascii.eqb (ascii_lower c) c && is_hash s | None => false end
  end.
Definition status_digits : list string := ["500"; "502"; "503"; "504"].
Lemma to_lower_app a b : to_lower (a +:+ b) = to_lower a +:+ to_lower b.
Proof. induction a as [|c a IH]; [done|]. change (to_lower (String c a +:+ b)) with (String (ascii_lower c) (to_lower (a +:+ b))). by rewrite IH. Qed.
Lemma to_lower_hash s : is_hash s = true → to_lower s = s.
Proof.
  induction s as [|c s IH]; [done|]. cbn. destruct (hex_value c); [|done]. intros [->%Ascii.eqb_eq Hs]%andb_true_iff. by rewrite IH.
Qed.
Lemma prefix_hash p s r : strip_prefix p s = Some r → is_hash s = true → is_hash p = true.
Proof.
  revert s. induction p as [|a p IH]; intros s; [done|]. destruct s as [|b s]; [done|]. cbn. destruct (Ascii.eqb_spec a b) as [->|]; [|done].
  intros Hp. destruct (hex_value b); [|done]. intros [-> Hs]%andb_true_iff. by apply (IH s).
Qed.
(** A text that is no hash is in none. *)
Lemma not_in_hash t s : is_hash t = false → is_hash s = true → includes t s = false.
Proof.
  intros Ht. induction s as [|c s IH]; intros Hs; cbn [includes].
  - destruct (strip_prefix t "") eqn:Hp; [|done]. apply prefix_hash in Hp; [congruence|done].
  - destruct (strip_prefix t (String c s)) eqn:Hp; [apply prefix_hash in Hp; [congruence|done]|]. apply IH.
    cbn in Hs. destruct (hex_value c); [|done]. by apply andb_true_iff in Hs as [_ ?].
Qed.
Lemma transient_hash class code hash :
  is_hash hash = true → transient_message (failed_hash class code hash) = existsb (λ t, includes t hash) status_digits.
Proof.
  intros Hh. unfold transient_message, failed_hash, message_of. cbv zeta. rewrite to_lower_app, (to_lower_hash _ Hh).
  change (to_lower "Transaction failed: ") with "transaction failed: ". cbn [existsb transient_texts].
  assert (∀ t, In t transient_texts → includes t ("transaction failed: " +:+ hash) = includes t hash) as Hskip.
  { intros t Hin. cbn in Hin. by repeat destruct Hin as [<-|Hin]. }
  rewrite !Hskip by (cbn; tauto). rewrite !(not_in_hash _ hash) by done. done.
Qed.

Section resent.
Context `{!Stellar, !StellarLaws} {S : Type} (rpc : Rpc S) (config : ClientConfig) (onRetry : Z → JsError → M S unit).
Context (class : string) (failed_code timeout_code : Z) (parse : RawError → option string → TypedError).
Abbreviation opts := (createRetry (cc_retry config) network_only None).
Abbreviation attempt_of := (submission rpc config onRetry class failed_code timeout_code parse).
Lemma network_hash hash : is_hash hash = true →
  isNetworkError (failed_hash class failed_code hash) = existsb (λ t, includes t hash) status_digits.
Proof. intros Hh. unfold isNetworkError. rewrite (transient_hash _ _ _ Hh). unfold failed_hash. by rewrite law_status, orb_false_r. Qed.

(** C38: A transaction of the bonds or the co-sponsorship client that the chain has
    executed without success is submitted once more exactly when its hash happens
    to contain one of the digits 500, 502, 503 and 504, which the test for network
    errors looks for in the text of the error; any other failure ends the call. *)
Theorem failed_transaction_is_resent sign source fn (vals : list ScVal) hash s s' :
  retryOn opts = Some isNetworkError → 2 ≤ default 3 (maxAttempts opts) → is_hash hash = true →
  attempt_of sign source fn (Ok <$> vals) s = (Throw (failed_hash class failed_code hash), s') →
  retried_submit rpc config onRetry class failed_code timeout_code parse sign source fn (Ok <$> vals) s =
  if existsb (λ t, includes t hash) status_digits then
    (onRetry 1 (failed_hash class failed_code hash);; modify (rpc_sleep rpc (exponential opts 1));;
     attempts opts (attempt_of sign source fn (Ok <$> vals)) onRetry (rpc_sleep rpc) (Z.to_nat (default 3 (maxAttempts opts)) - 1) 2
       (failed_hash class failed_code hash)) s'
  else (Throw (failed_hash class failed_code hash), s').
Proof.
  intros Hon Hmax Hh Hrun. unfold retried_submit, with_args. unfold mbind at 1, M_bind at 1. rewrite encode_ok. unfold retry_with, withRetry.
  destruct (Z.to_nat (default 3 (maxAttempts opts))) as [|n] eqn:Hn; [lia|]. cbn [attempts]. rewrite Hrun.
  unfold retryable. rewrite Hon, (network_hash _ Hh). destruct (Z.eqb_spec 1 (default 3 (maxAttempts opts))) as [|_]; [lia|].
  rewrite orb_false_r. replace (Datatypes.S n - 1)%nat with n by lia. by destruct (existsb _ _).
Qed.
End resent.

(** ** Submissions on the mock server *)
Section tracks.
Context `{!Stellar, !StellarLaws} (sha256 : bytes → bytes) (decode_calldata : bytes → outcome (list native)) (hash_of : Tx → string).
Context (config : ClientConfig) (onRetry : Z → JsError → M MockSorobanServer unit).
Abbreviation rpc := (mock_rpc sha256 decode_calldata hash_of).
Abbreviation run := (invoke sha256 decode_calldata).
Abbreviation address := (cc_address config).
Implicit Types (s : MockSorobanServer).
(** The hash of a call, and what a client throws of an executor's error. *)
Definition track_hash (source fn : string) (vals : list ScVal) : string := hash_of (mkTx (mkAccount source 0) (mkCall address fn vals)).
Definition rejection (e : JsError) : RawError := RawObject (Some "ERROR") (Some (Server.error_text e)).
Lemma submit_on_mock source fn vals ns contract rejected s :
  natives vals ns → resolve (st_addresses (sv_store s)) address = Some contract →
  let result := run (sv_clock s) contract (call_of source address fn ns) (sv_store s) in
  let sent := sent_result (track_hash source fn vals) result (timestamp (sv_clock s)) in
  submit rpc (keypair source) source address fn (Ok <$> vals) rejected s =
  (match result.1 with Ok _ => Ok sent | Throw _ => Throw (rejected sent) end, sent_state (track_hash source fn vals) result s).
Proof.
  intros Hn Hc result sent. unfold submit, submit_tx, mbind, M_bind. rewrite build_on_mock. change (rpc_prepare rpc ?tx s) with (Ok tx, s).
  cbv beta iota. unfold keypair, mret, M_ret. rewrite (send_on_mock _ _ _ _ _ _ _ _ _ _ _ Hn Hc). fold result (track_hash source fn vals).
  fold sent. destruct result as [[v|e] store]; done.
Qed.
Lemma await_on_mock delay look failed timeout n hash v store s :
  look hash (sent_state hash (Ok v, store) s) = (Ok (TxSuccess (Some v)), sent_state hash (Ok v, store) s) →
  await_confirmation rpc delay look failed timeout (S n) hash (sent_state hash (Ok v, store) s) = (Ok (Some v), sent_state hash (Ok v, store) s).
Proof.
  intros Hlook. cbn [await_confirmation]. unfold mbind, M_bind, modify. change (rpc_sleep rpc delay ?s) with s. by rewrite Hlook.
Qed.
(** A submission without retries runs the executor once. *)
Lemma plain_on_mock parse source fn vals ns contract s :
  natives vals ns → resolve (st_addresses (sv_store s)) address = Some contract →
  let result := run (sv_clock s) contract (call_of source address fn ns) (sv_store s) in
  plain_submit rpc config parse (keypair source) source fn (Ok <$> vals) s =
  (match result.1 with Ok v => Ok (track_hash source fn vals, Some v) | Throw e => Throw (parse (rejection e)) end,
   sent_state (track_hash source fn vals) result s).
Proof.
  intros Hn Hc result. unfold plain_submit, with_args. unfold mbind at 1, M_bind at 1. rewrite encode_ok. unfold mbind at 1, M_bind at 1.
  rewrite (submit_on_mock _ _ _ _ _ _ _ Hn Hc). fold result. destruct result as [[v|e] store]; [|done].
  cbn [fst]. unfold mbind, M_bind. unfold sent_result. cbn [fst result_of sd_hash]. by rewrite await_on_mock by apply found_on_mock.
Qed.
(** A submission with retries, too, when its error is none of the network. *)
Lemma retried_on_mock class failed_code timeout_code parse source fn vals ns contract s :
  natives vals ns → resolve (st_addresses (sv_store s)) address = Some contract →
  1 ≤ default 3 (maxAttempts (createRetry (cc_retry config) network_only None)) →
  retryOn (createRetry (cc_retry config) network_only None) = Some isNetworkError →
  let result := run (sv_clock s) contract (call_of source address fn ns) (sv_store s) in
  (∀ e, result.1 = Throw e → isNetworkError (typed class (parse (rejection e) (Some fn))) = false) →
  retried_submit rpc config onRetry class failed_code timeout_code parse (keypair source) source fn (Ok <$> vals) s =
  (match result.1 with Ok v => Ok (track_hash source fn vals, Some v) | Throw e => Throw (typed class (parse (rejection e) (Some fn))) end,
   sent_state (track_hash source fn vals) result s).
Proof.
  intros Hn Hc Hmax Hon result Hfinal. unfold retried_submit, with_args. unfold mbind at 1, M_bind at 1. rewrite encode_ok.
  unfold retry_with. set (fn' := submission _ _ _ _ _ _ _ _ _ _ _).
  assert (fn' s = (match result.1 with Ok v => Ok (track_hash source fn vals, Some v)
                   | Throw e => Throw (typed class (parse (rejection e) (Some fn))) end, sent_state (track_hash source fn vals) result s)) as Hfn.
  { subst fn'. unfold submission. unfold mbind at 1, M_bind at 1. rewrite (submit_on_mock _ _ _ _ _ _ _ Hn Hc). fold result.
    destruct result as [[v|e] store]; [|done]. cbn [fst]. unfold mbind, M_bind, poll_hash, sent_result. cbn [fst result_of sd_hash].
    rewrite await_on_mock; [done|]. unfold retry_with. apply retry_ok; [done|]. apply found_on_mock. }
  destruct result as [[v|e] store]; [by apply retry_ok|]. apply retry_final; [done..|]. unfold retryable. rewrite Hon. by apply Hfinal.
Qed.

(** *** Conviction votes and objections *)
Definition conviction_error (e : JsError) : JsError := ConvictionVotingClient.parse (rejection e).
Definition objection_error (e : JsError) : JsError := OptimisticGovernorClient.parse (rejection e).
(** What a client returns of a run whose result it does not read, and the server
    the run leaves. *)
Definition hash_or (error : JsError → JsError) (hash : string) (result : outcome unit * MockLedgerStore) s : outcome string * MockSorobanServer :=
  (match result.1 with Ok _ => Ok hash | Throw e => Throw (error e) end, sent_state hash (voided result) s).
Lemma native_args (args : list (Encodable * string * ScVal)) :
  Forall (λ a, nativeToScVal a.1.1 a.1.2 = Ok a.2 ∧ encoded_as a.1.1 a.1.2 = true) args → natives (snd <$> args) ((λ a, native_of a.1.1 a.1.2) <$> args).
Proof. induction 1 as [|a args Ha _ IH]; constructor; [exact (law_native _ _ _ (proj1 Ha) (proj2 Ha))|done]. Qed.
(** An operation without a result, without retries. *)
Lemma plain_operation parse source fn vals ns contract h (op : M MockLedgerStore unit) s :
  natives vals ns → resolve (st_addresses (sv_store s)) address = Some contract →
  jm_get fn (executor_of sha256 decode_calldata contract) = Some h → h (sv_clock s) source (arg_of <$> ns) = Some (void op) →
  encodeReturn contract fn RNull = encVoid →
  (fst <$> plain_submit rpc config parse (keypair source) source fn (Ok <$> vals)) s =
  hash_or (λ e, parse (rejection e)) (track_hash source fn vals) (op (sv_store s)) s.
Proof.
  intros Hn Hc Hh Hop Henc. unfold fmap, M_fmap. rewrite (plain_on_mock _ _ _ _ _ _ _ Hn Hc).
  rewrite (run_void _ _ _ _ _ h op) by done. unfold hash_or, voided. by destruct (op (sv_store s)) as [[[]|e] st].
Qed.
Lemma created_by (parse : RawError → JsError) source fn vals ns contract h (op : M MockLedgerStore Z) s :
  natives vals ns → resolve (st_addresses (sv_store s)) address = Some contract →
  jm_get fn (executor_of sha256 decode_calldata contract) = Some h → h (sv_clock s) source (arg_of <$> ns) = Some (RInt <$> op) →
  (∀ n, encodeReturn contract fn (RInt n) = encU64 n) →
  (result ← plain_submit rpc config parse (keypair source) source fn (Ok <$> vals); numeric <$> returned result.2) s =
  let result := (n ← op; v ← from_outcome (encU64 n); mret (n, v)) (sv_store s) in
  (match result.1 with Ok (n, _) => Ok (numeric (VBig n)) | Throw e => Throw (parse (rejection e)) end,
   sent_state (track_hash source fn vals) (o_map snd result.1, result.2) s).
Proof.
  intros Hn Hc Hh Hop Henc. unfold mbind at 1, M_bind at 1. rewrite (plain_on_mock _ _ _ _ _ _ _ Hn Hc).
  rewrite (run_handler _ _ _ _ _ h op RInt encU64) by done. unfold mbind, M_bind, from_outcome.
  destruct (op (sv_store s)) as [[n|e] st]; [|done]. destruct (encU64 n) as [v|e] eqn:Hv; [|done]. cbn.
  unfold returned, unwrap, fmap, M_fmap, mbind, M_bind, to_native, from_outcome, mret, M_ret. cbn. by rewrite (law_native _ _ _ Hv eq_refl).
Qed.

(** C37: The conviction and the optimistic client run the executor once and do not
    retry: a stake, an objection and an optimistic proposal have the effect of
    [stake], [object] and [propose] with the signer as caller, and end with the hash
    or the new id when it returns and with the typed error of its error when it
    throws. *)
Theorem tracks_through_sdk pk id amount va vi vm target fnName calldata hash bs vt vf vc vh s :
  a_address pk = Ok va → a_u64 id = Ok vi → a_i128 amount = Ok vm →
  a_address target = Ok vt → a_symbol fnName = Ok vf → a_bytes calldata = Ok vc → hexToBytes32 hash = Ok bs → a_bytes bs = Ok vh →
  (resolve (st_addresses (sv_store s)) address = Some CConvictionVoting →
   ConvictionVotingClient.stake rpc config pk id amount s =
   hash_or conviction_error (track_hash pk "stake" [va; vi; vm]) (ConvictionVotingExecutor.stake (sv_clock s) pk pk id amount (sv_store s)) s) ∧
  (resolve (st_addresses (sv_store s)) address = Some COptimisticGovernor →
   OptimisticGovernorClient.object rpc config pk id s =
   hash_or objection_error (track_hash pk "object" [va; vi]) (OptimisticGovernorExecutor.object (sv_clock s) pk id (sv_store s)) s ∧
   OptimisticGovernorClient.propose rpc config pk target fnName calldata hash s =
   let result := (n ← OptimisticGovernorExecutor.propose (sv_clock s) pk target fnName calldata bs; v ← from_outcome (encU64 n); mret (n, v))
     (sv_store s) in
   (match result.1 with Ok (n, _) => Ok (numeric (VBig n)) | Throw e => Throw (objection_error e) end,
    sent_state (track_hash pk "propose" [va; vt; vf; vc; vh]) (o_map snd result.1, result.2) s)).
Proof.
  intros Ha Hi Hm Ht Hf Hcd Hx Hh. split; [intros Hc|intros Hc; split].
  - unfold ConvictionVotingClient.stake, ConvictionVotingClient.submit, ConvictionVotingClient.submit_by, ConvictionVotingClient.stake_args. rewrite Ha, Hi, Hm.
    pose proof (native_args [(EText pk, "address", va); (EInt id, "u64", vi); (EInt amount, "i128", vm)] ltac:(repeat constructor; done)) as Hn.
    eapply (plain_operation _ _ _ _ _ _ _ _ _ Hn Hc); [reflexivity..|done].
  - unfold OptimisticGovernorClient.object, OptimisticGovernorClient.submit, OptimisticGovernorClient.submit_by. rewrite Ha, Hi.
    pose proof (native_args [(EText pk, "address", va); (EInt id, "u64", vi)] ltac:(repeat constructor; done)) as Hn.
    eapply (plain_operation _ _ _ _ _ _ _ _ _ Hn Hc); [reflexivity..|done].
  - unfold OptimisticGovernorClient.propose, OptimisticGovernorClient.propose_as, OptimisticGovernorClient.submit, OptimisticGovernorClient.submit_by, OptimisticGovernorClient.hash_arg.
    rewrite Hx, Ha, Ht, Hf, Hcd, Hh.
    pose proof (native_args [(EText pk, "address", va); (EText target, "address", vt); (EText fnName, "symbol", vf); (EBytes calldata, "bytes", vc);
      (EBytes bs, "bytes", vh)] ltac:(repeat constructor; done)) as Hn.
    eapply (created_by _ _ _ _ _ _ _ _ _ Hn Hc); [reflexivity..|done].
Qed.

(** *** Bonds and drafts *)
Lemma bonds_error_final (c : ProposalBondsErrorCode.t) :
  isNetworkError (SdkError ProposalBondsClient.class (ProposalBondsErrorCode.num c) (ProposalBondsErrorCode.message c)) = false.
Proof. unfold isNetworkError. rewrite law_status. by destruct c; vm_compute. Qed.
Lemma draft_error_final (c : CoSponsorshipErrorCode.t) :
  isNetworkError (SdkError CoSponsorshipClient.class (CoSponsorshipErrorCode.num c) (CoSponsorshipErrorCode.message c)) = false.
Proof. unfold isNetworkError. rewrite law_status. by destruct c; vm_compute. Qed.
Lemma rejection_read {T} `{ErrorFamilyLaws T} (c : T) text :
  family_parse (rejection (MockContractError (family_num c) text)) = mkTypedError (family_num c) (family_message c).
Proof. apply family_parse_code. exact (extract_mock_code (family_num c) (family_num_range c)). Qed.
Lemma bonds_rejection c text fn :
  typed ProposalBondsClient.class (ProposalBondsClient.parse (rejection (MockContractError (ProposalBondsErrorCode.num c) text)) fn) =
  SdkError ProposalBondsClient.class (ProposalBondsErrorCode.num c) (ProposalBondsErrorCode.message c).
Proof. unfold ProposalBondsClient.parse. pose proof (rejection_read c text) as Hr. cbn in Hr. by rewrite Hr. Qed.
Lemma draft_rejection c text :
  typed CoSponsorshipClient.class (parseCoSponsorshipError (rejection (MockContractError (CoSponsorshipErrorCode.num c) text)) (Some "co_sponsor")) =
  SdkError CoSponsorshipClient.class (CoSponsorshipErrorCode.num c) (CoSponsorshipErrorCode.message c).
Proof.
  pose proof (rejection_read c text) as Hr.
  change (parseCoSponsorshipError (rejection (MockContractError (CoSponsorshipErrorCode.num c) text)) None =
    mkTypedError (CoSponsorshipErrorCode.num c) (CoSponsorshipErrorCode.message c)) in Hr.
  assert (∀ raw, parseCoSponsorshipError raw (Some "co_sponsor") = parseCoSponsorshipError raw None) as ->.
  { intros raw. unfold parseCoSponsorshipError. by destruct (extractContractErrorCode raw). }
  by rewrite Hr.
Qed.
Definition retries_network : Prop :=
  1 ≤ default 3 (maxAttempts (createRetry (cc_retry config) network_only None)) ∧
  retryOn (createRetry (cc_retry config) network_only None) = Some isNetworkError.
(** An operation without a result, with retries: an error of the contract, which is
    read as [read], ends it. *)
Lemma retried_operation class failed_code timeout_code parse source fn vals ns contract h (op : M MockLedgerStore unit) s :
  natives vals ns → resolve (st_addresses (sv_store s)) address = Some contract →
  jm_get fn (executor_of sha256 decode_calldata contract) = Some h → h (sv_clock s) source (arg_of <$> ns) = Some (void op) →
  encodeReturn contract fn RNull = encVoid → retries_network →
  (∀ e, (op (sv_store s)).1 = Throw e → isNetworkError (typed class (parse (rejection e) (Some fn))) = false) →
  (fst <$> retried_submit rpc config onRetry class failed_code timeout_code parse (keypair source) source fn (Ok <$> vals)) s =
  hash_or (λ e, typed class (parse (rejection e) (Some fn))) (track_hash source fn vals) (op (sv_store s)) s.
Proof.
  intros Hn Hc Hh Hop Henc [Hmax Hon] Hfinal. unfold fmap, M_fmap.
  assert (run (sv_clock s) contract (call_of source address fn ns) (sv_store s) = voided (op (sv_store s))) as Hrun by by eapply run_void.
  rewrite (retried_on_mock _ _ _ _ _ _ _ _ contract _ Hn Hc Hmax Hon); rewrite Hrun.
  - unfold hash_or, voided. by destruct (op (sv_store s)) as [[[]|e] st].
  - unfold voided. destruct (op (sv_store s)) as [[[]|e] st]; [done|]. intros e' [= <-]. by apply Hfinal.
Qed.

(** A result of an executor that is no error, or one of the errors [num] numbers. *)
Definition by_contract {T} (num : T → Z) (result : outcome unit) : Prop :=
  match result with Ok _ => True | Throw e => ∃ c text, e = MockContractError (num c) text end.
Definition bond_error (e : JsError) : JsError :=
  typed ProposalBondsClient.class (ProposalBondsClient.parse (rejection e) (Some "lock_bond")).
Definition pledge_error (e : JsError) : JsError :=
  typed CoSponsorshipClient.class (parseCoSponsorshipError (rejection e) (Some "co_sponsor")).

(** C3: A bond locked by the bonds client, and a pledge of the co-sponsorship
    client, that the executor accepts or refuses with an error of the contract, is
    one run of [lock_bond] or [co_sponsor]: the hash is returned, or the error with
    the code and the text of the SDK is thrown, without a second attempt. *)
Theorem bonds_and_pledges_through_sdk pk hash bs id va vh vi s :
  a_address pk = Ok va → hexToBytes32 hash = Ok bs → a_bytes bs = Ok vh → a_u64 id = Ok vi → retries_network →
  let locked := lock_bond (sv_clock s) pk pk (HashBytes bs) (sv_store s) in
  let pledged := CoSponsorshipExecutor.co_sponsor (sv_clock s) pk pk id (sv_store s) in
  (resolve (st_addresses (sv_store s)) address = Some CProposalBonds → by_contract ProposalBondsErrorCode.num locked.1 →
   ProposalBondsClient.lockBond rpc config onRetry pk hash s = hash_or bond_error (track_hash pk "lock_bond" [va; vh]) locked s) ∧
  (resolve (st_addresses (sv_store s)) address = Some CCoSponsorship → by_contract CoSponsorshipErrorCode.num pledged.1 →
   CoSponsorshipClient.coSponsor rpc config onRetry pk id s = hash_or pledge_error (track_hash pk "co_sponsor" [va; vi]) pledged s) ∧
  (∀ c text, bond_error (MockContractError (ProposalBondsErrorCode.num c) text) =
     SdkError "ProposalBondsError" (ProposalBondsErrorCode.num c) (ProposalBondsErrorCode.message c)) ∧
  (∀ c text, pledge_error (MockContractError (CoSponsorshipErrorCode.num c) text) =
     SdkError "CoSponsorshipError" (CoSponsorshipErrorCode.num c) (CoSponsorshipErrorCode.message c)).
Proof.
  intros Ha Hx Hh Hi Hre locked pledged. split_and!; [intros Hc Herror..|intros; apply bonds_rejection|intros; apply draft_rejection].
  - unfold ProposalBondsClient.lockBond, ProposalBondsClient.submit, ProposalBondsClient.submit_by, ProposalBondsClient.hash_arg. rewrite Hx, Ha, Hh.
    pose proof (native_args [(EText pk, "address", va); (EBytes bs, "bytes", vh)] ltac:(repeat constructor; done)) as Hn.
    eapply (retried_operation _ _ _ _ _ _ _ _ _ _ _ _ Hn Hc); [reflexivity..|done|]. fold locked. intros e He. rewrite He in Herror.
    destruct Herror as (c & text & ->). rewrite bonds_rejection. apply bonds_error_final.
  - unfold CoSponsorshipClient.coSponsor, CoSponsorshipClient.submit, CoSponsorshipClient.submit_by, CoSponsorshipClient.pledge_args. rewrite Ha, Hi.
    pose proof (native_args [(EText pk, "address", va); (EInt id, "u64", vi)] ltac:(repeat constructor; done)) as Hn.
    eapply (retried_operation _ _ _ _ _ _ _ _ _ _ _ _ Hn Hc); [reflexivity..|done|]. fold pledged. intros e He. rewrite He in Herror.
    destruct Herror as (c & text & ->). rewrite draft_rejection. apply draft_error_final.
Qed.
End tracks.

(** ** The treasury client

    On the mock server a spend is one run of the executor, and what is left is read
    back; on a server that is slow to confirm it is more than one. *)
(** ** A server that is slow to confirm

    It answers as the mock does, but the number of looks in its state find no
    transaction yet. *)
Definition lift {S A} (op : M S A) : M (S * nat) A := λ s, let '(o, s') := op s.1 in (o, (s', s.2)).
Definition slow {S} (rpc : Rpc S) : Rpc (S * nat) :=
  mkRpc (λ a, lift (rpc_getAccount rpc a)) (λ tx, lift (rpc_simulate rpc tx)) (λ tx, lift (rpc_prepare rpc tx)) (λ e, lift (rpc_send rpc e))
    (λ hash s, match s.2 with O => lift (rpc_getTransaction rpc hash) s | S n => (Ok TxMissing, (s.1, n)) end)
    (lift (rpc_getLatestLedger rpc)) (λ request, lift (rpc_getEvents rpc request)) (λ n s, (rpc_sleep rpc n s.1, s.2)) (λ s, rpc_now rpc s.1).

(** ** What is retried *)
Lemma treasury_retries `{!Stellar, !StellarLaws} (c : TreasuryErrorCode.t) :
  TreasuryClient.isRetryableSubmissionError (TreasuryClient.treasury_error c (TreasuryErrorCode.message c)) =
  match c with TreasuryErrorCode.SimulationFailed | TreasuryErrorCode.TransactionTimeout | TreasuryErrorCode.InvalidArguments => true | _ => false end.
Proof.
  unfold TreasuryClient.isRetryableSubmissionError, isNetworkError, TreasuryClient.treasury_error. rewrite law_status.
  by destruct c; vm_compute.
Qed.

Section treasury.
Context `{!Stellar, !StellarLaws} (sha256 : bytes → bytes) (decode_calldata : bytes → outcome (list native)) (hash_of : Tx → string).
Context (config : ClientConfig).
Abbreviation rpc := (mock_rpc sha256 decode_calldata hash_of).
Abbreviation run := (invoke sha256 decode_calldata).
Abbreviation address := (cc_address config).
Implicit Types (s : MockSorobanServer).
Definition spend_attempts : Z :=
  default 3 (maxAttempts (createRetry (cc_retry config) network_only (Some TreasuryClient.isRetryableSubmissionError))).
Definition spend_error (e : JsError) : JsError := typed TreasuryClient.class (parseTreasuryError (rejection e)).
(** The encodings of the arguments of a spend. *)
Record spend_encoded (pk : string) (id : Z) (recipient : string) (amount : Z) (memo : string) (vals : list ScVal) : Prop := {
  se_args : [a_address pk; a_u64 id; a_address recipient; a_i128 amount; a_string memo] = Ok <$> vals;
  se_natives : natives vals [VStr pk; VBig id; VStr recipient; VBig amount; VStr memo] }.
Lemma spend_arguments pk id recipient amount memo va vi vr vm vt :
  a_address pk = Ok va → a_u64 id = Ok vi → a_address recipient = Ok vr → a_i128 amount = Ok vm → a_string memo = Ok vt →
  spend_encoded pk id recipient amount memo [va; vi; vr; vm; vt].
Proof.
  intros Ha Hi Hr Hm Ht. split; [by rewrite Ha, Hi, Hr, Hm, Ht|].
  exact (native_args [(EText pk, "address", va); (EInt id, "u64", vi); (EText recipient, "address", vr); (EInt amount, "i128", vm);
    (EText memo, "string", vt)] ltac:(repeat constructor; done)).
Qed.
Lemma spend_invoked clock pk id recipient amount memo st :
  run clock CTreasury (call_of pk address "stream_spend" [VStr pk; VBig id; VStr recipient; VBig amount; VStr memo]) st =
  voided (TreasuryExecutor.stream_spend clock pk pk id recipient amount memo st).
Proof. by eapply run_void. Qed.
Lemma retry_attempts_same : spend_attempts = default 3 (maxAttempts (createRetry (cc_retry config) network_only None)).
Proof. done. Qed.
(** One attempt at a spend on the mock, which confirms at once. *)
Lemma spend_attempt pk id recipient amount memo vals onRetry s :
  resolve (st_addresses (sv_store s)) address = Some CTreasury → spend_encoded pk id recipient amount memo vals → 1 ≤ spend_attempts →
  (fst <$> TreasuryClient.confirmed rpc config onRetry pk "stream_spend"
     [a_address pk; a_u64 id; a_address recipient; a_i128 amount; a_string memo]) s =
  hash_or spend_error (track_hash hash_of config pk "stream_spend" vals)
    (TreasuryExecutor.stream_spend (sv_clock s) pk pk id recipient amount memo (sv_store s)) s.
Proof.
  intros Hc [Hargs Hn] Hmax. rewrite Hargs. unfold fmap, M_fmap, TreasuryClient.confirmed. unfold mbind at 1, M_bind at 1.
  rewrite (submit_on_mock _ _ _ _ _ _ _ _ _ _ _ Hn Hc), spend_invoked. unfold hash_or, voided.
  destruct (TreasuryExecutor.stream_spend _ _ _ _ _ _ _ _) as [[[]|e] st]; [|done]. cbn [o_map fst snd].
  unfold mbind, M_bind, TreasuryClient.pollForConfirmation, sent_result. cbn [fst result_of sd_hash].
  rewrite await_on_mock; [done|]. unfold TreasuryClient.retry. apply retry_ok; [done|]. apply found_on_mock.
Qed.

Lemma spend_error_read c text :
  spend_error (MockContractError (TreasuryErrorCode.num c) text) = TreasuryClient.treasury_error c (TreasuryErrorCode.message c).
Proof. unfold spend_error. pose proof (rejection_read c text) as Hr. cbn in Hr. by rewrite Hr. Qed.
(** A result that is no error, or an error of the contract. *)
Definition by_treasury (result : outcome unit) : Prop :=
  match result with Ok _ => True | Throw e => ∃ c text, e = MockContractError (TreasuryErrorCode.num c) text ∧ TreasuryErrorCode.num c < 100 end.
Lemma by_treasury_final e : by_treasury (Throw e) → TreasuryClient.isRetryableSubmissionError (spend_error e) = false.
Proof. intros (c & text & -> & Hc). rewrite spend_error_read, treasury_retries. by destruct c; vm_compute in Hc. Qed.
(** What is left of a stream, zero when it cannot be read or encoded. *)
Definition remaining_read (id : Z) s : Z :=
  match (TreasuryExecutor.get_stream_remaining id (sv_store s)).1 with
  | Ok n => match encI128 n with Ok _ => n | Throw _ => 0 end
  | Throw _ => 0
  end.
Lemma remaining_invoked clock source id st :
  run clock CTreasury (call_of source address "get_stream_remaining" [VBig id]) st =
  (n ← TreasuryExecutor.get_stream_remaining id; from_outcome (encI128 n)) st.
Proof. by eapply run_handler. Qed.
Lemma remaining_on_mock reader id vi s :
  cc_simulationAccount config = Some reader → reader ≠ "" → resolve (st_addresses (sv_store s)) address = Some CTreasury →
  a_u64 id = Ok vi → 1 ≤ spend_attempts →
  TreasuryClient.getStreamRemaining rpc config no_hook id s = (Ok (remaining_read id s), s).
Proof.
  intros Hr Hne Hc Hi Hmax. unfold TreasuryClient.getStreamRemaining, TreasuryClient.read_or_default, TreasuryClient.read, TreasuryClient.retry.
  apply retry_same; [done|]. rewrite Hi. unfold TreasuryClient.readAccount. rewrite Hr. destruct reader as [|c reader]; [done|]. cbn [or_else].
  unfold mbind at 1, M_bind at 1, from_outcome at 1. unfold mbind at 1, M_bind at 1. change [Ok vi] with (Ok <$> [vi] : list (outcome ScVal)).
  rewrite (simulate_on_mock _ _ _ _ _ _ _ _ CTreasury _ (id_native _ _ Hi) Hc), remaining_invoked. unfold remaining_read, mbind, M_bind, from_outcome.
  destruct (TreasuryExecutor.get_stream_remaining id (sv_store s)) as [[n|e] st]; [|done]. cbn [fst].
  destruct (encI128 n) as [v|e] eqn:Hv; [|done]. cbn [fst simulated simulation_of read_value sm_result]. unfold to_native, from_outcome.
  pose proof (law_native _ _ _ Hv eq_refl) as Hl. cbn in Hl. by rewrite Hl.
Qed.
Lemma spend_takes clock pk id recipient amount memo st st' :
  TreasuryExecutor.stream_spend clock pk pk id recipient amount memo st = (Ok tt, st') →
  ∃ b, tr_streams (st_treasury st) !! id = Some b ∧ 0 < amount ∧
    (TreasuryExecutor.get_stream_remaining id st).1 = Ok (bs_totalAllocated b - bs_totalSpent b) ∧
    (TreasuryExecutor.get_stream_remaining id st').1 = Ok (bs_totalAllocated b - bs_totalSpent b - amount).
Proof.
  intros Hrun. destruct (stream_spend_run clock pk pk id recipient amount memo st) as [(b & Hb & _ & Hv & _ & E)|[_ [e E]]]; [|congruence].
  rewrite Hrun in E. injection E as ->. exists b. split; [done|]. split; [apply Hv|].
  unfold TreasuryExecutor.get_stream_remaining, TreasuryExecutor.loadStream, spend_result, mbind, M_bind, gets, get, unwrap.
  cbn. rewrite Hb, lookup_alter_eq, Hb. cbn.
  split; [done|]. unfold spent_from. cbn. case_match; cbn; f_equal; lia.
Qed.
(** The errors of a spend of a positive amount by its signer are the contract's. *)
Lemma spend_by_treasury clock pk id recipient amount memo st :
  0 < amount → by_treasury (TreasuryExecutor.stream_spend clock pk pk id recipient amount memo st).1.
Proof.
  intros Hpos.
  assert (∀ c text, TreasuryErrorCode.num c < 100 → by_treasury (Throw (MockContractError (TreasuryErrorCode.num c) text))) as Hcode by (intros c text Hc; cbn; eauto).
  unfold TreasuryExecutor.stream_spend, TreasuryExecutor.requireSigner, TreasuryExecutor.loadStream. rewrite String.eqb_refl.
  unfold mbind, M_bind, throw_if, get, unwrap. cbn [negb]. unfold mret, M_ret. cbv beta iota.
  destruct (tr_streams (st_treasury st) !! id) as [b|]; [|by apply (Hcode TreasuryErrorCode.StreamNotFound)].
  assert (by_treasury (TreasuryExecutor.validateSpend clock b pk amount st).1 ∧ (TreasuryExecutor.validateSpend clock b pk amount st).2 = st) as [Hv Hs].
  { unfold TreasuryExecutor.validateSpend. m_run.
    destruct (bs_isRevoked b); [split; [exact (Hcode TreasuryErrorCode.StreamRevoked _ eq_refl)|done]|].
    destruct (negb (bs_isActive b)); [split; [exact (Hcode TreasuryErrorCode.StreamNotActive _ eq_refl)|done]|].
    destruct (negb (String.eqb pk (bs_owner b))); [split; [exact (Hcode TreasuryErrorCode.UnauthorizedStreamOwner _ eq_refl)|done]|].
    destruct (_ || _); [split; [exact (Hcode TreasuryErrorCode.StreamExpired _ eq_refl)|done]|].
    rewrite (proj2 (Z.leb_gt _ _) Hpos).
    destruct (bs_maxSingleSpend b <? amount); [split; [exact (Hcode TreasuryErrorCode.StreamSpendExceedsMax _ eq_refl)|done]|].
    destruct (_ <? amount); [split; [exact (Hcode TreasuryErrorCode.StreamBudgetExhausted _ eq_refl)|done]|].
    destruct (_ && _); [split; [exact (Hcode TreasuryErrorCode.StreamCooldownNotElapsed _ eq_refl)|done]|done]. }
  destruct (TreasuryExecutor.validateSpend clock b pk amount st) as [[[]|e] st1]; [|done]. cbn in Hs. subst st1.
  rewrite transferFromTreasury_run. destruct (_ <? _); [by apply (Hcode TreasuryErrorCode.InsufficientTreasuryBalance)|done].
Qed.

(** C39: A spend of a positive amount by the treasury client is, on the mock server,
    one run of [stream_spend] with the signer as caller and owner: the hash is
    returned when it returns, and the typed error of its error is thrown, without a
    second attempt, when it throws.  A spend that returns takes exactly the amount
    from what is left of the stream, and what is left is what the client reads. *)
Theorem spend_through_sdk pk id recipient amount memo vals reader vi onRetry s :
  resolve (st_addresses (sv_store s)) address = Some CTreasury → spend_encoded pk id recipient amount memo vals → a_u64 id = Ok vi →
  cc_simulationAccount config = Some reader → reader ≠ "" → 1 ≤ spend_attempts → 0 < amount →
  let spent := TreasuryExecutor.stream_spend (sv_clock s) pk pk id recipient amount memo (sv_store s) in
  TreasuryClient.streamSpend rpc config onRetry pk id recipient amount memo s =
    hash_or spend_error (track_hash hash_of config pk "stream_spend" vals) spent s ∧
  (spent.1 = Ok tt → ∃ left, (TreasuryExecutor.get_stream_remaining id (sv_store s)).1 = Ok left ∧
     (TreasuryExecutor.get_stream_remaining id spent.2).1 = Ok (left - amount)) ∧
  (∀ s', resolve (st_addresses (sv_store s')) address = Some CTreasury →
     TreasuryClient.getStreamRemaining rpc config no_hook id s' = (Ok (remaining_read id s'), s')).
Proof.
  intros Hc Henc Hi Hr Hne Hmax Hpos spent. split_and!.
  - unfold TreasuryClient.streamSpend, TreasuryClient.submission, TreasuryClient.retry.
    pose proof (spend_attempt pk id recipient amount memo vals onRetry s Hc Henc Hmax) as Hfn. fold spent in Hfn.
    pose proof (spend_by_treasury (sv_clock s) pk id recipient amount memo (sv_store s) Hpos) as Hby. fold spent in Hby.
    unfold hash_or in *. destruct spent as [[[]|e] st]; [by apply retry_ok|]. apply retry_final; [done..|]. by apply by_treasury_final.
  - intros Hok. destruct spent as [o st] eqn:Hs. cbn in Hok. subst o. apply spend_takes in Hs as (b & _ & _ & Hleft & Hafter). by eexists.
  - intros s' Hs'. by eapply remaining_on_mock.
Qed.

(** ** Spends that are not confirmed in time *)
Abbreviation slow_rpc := (slow rpc).
Lemma await_slow look failed timeout hash s n k :
  (∀ s n, look hash (s, S n) = (Ok TxMissing, (s, n))) →
  await_confirmation slow_rpc 2000 look failed timeout k hash (s, (k + n)%nat) = (Throw timeout, (s, n)).
Proof.
  intros Hlook. induction k as [|k IH]; [done|]. cbn [await_confirmation Nat.add]. unfold mbind, M_bind, modify.
  change (rpc_sleep slow_rpc 2000 (s, S (k + n))) with (s, S (k + n)). by rewrite Hlook.
Qed.
(** A submission on the slow server reaches the mock at once. *)
Lemma submit_slow source fn vals ns contract rejected s n v store :
  natives vals ns → resolve (st_addresses (sv_store s)) address = Some contract →
  run (sv_clock s) contract (call_of source address fn ns) (sv_store s) = (Ok v, store) →
  let hash := track_hash hash_of config source fn vals in
  submit slow_rpc (keypair source) source address fn (Ok <$> vals) rejected (s, n) =
  (Ok (sent_result hash (Ok v, store) (timestamp (sv_clock s))), (sent_state hash (Ok v, store) s, n)).
Proof.
  intros Hn Hc Hrun hash. unfold submit, submit_tx, build, mbind, M_bind.
  change (rpc_getAccount slow_rpc source (s, n)) with (Ok (mkAccount source 0), (s, n)). cbv beta iota. rewrite encode_ok.
  unfold mret, M_ret. change (rpc_prepare slow_rpc ?tx (s, n)) with (Ok tx, (s, n)). cbv beta iota. unfold keypair, mret, M_ret.
  change (rpc_send slow_rpc ?e (s, n)) with (let '(o, s') := rpc_send rpc e s in (o, (s', n))).
  rewrite (send_on_mock _ _ _ _ _ _ _ _ _ _ _ Hn Hc), Hrun. done.
Qed.
Lemma slow_attempt pk id recipient amount memo vals s n store :
  resolve (st_addresses (sv_store s)) address = Some CTreasury → spend_encoded pk id recipient amount memo vals → 1 ≤ spend_attempts →
  TreasuryExecutor.stream_spend (sv_clock s) pk pk id recipient amount memo (sv_store s) = (Ok tt, store) →
  let hash := track_hash hash_of config pk "stream_spend" vals in
  let fn := fst <$> TreasuryClient.confirmed slow_rpc config no_hook pk "stream_spend"
              [a_address pk; a_u64 id; a_address recipient; a_i128 amount; a_string memo] in
  fn (s, (10 + n)%nat) = (Throw (not_confirmed TreasuryClient.class (TreasuryClient.code TreasuryErrorCode.TransactionTimeout)),
                    (sent_state hash (Ok scvVoid, store) s, n)) ∧
  fn (s, 0%nat) = (Ok hash, (sent_state hash (Ok scvVoid, store) s, 0%nat)).
Proof.
  intros Hc [Hargs Hn] Hmax Hspend hash fn. subst fn. rewrite Hargs. unfold fmap, M_fmap, TreasuryClient.confirmed.
  pose proof (spend_invoked (sv_clock s) pk id recipient amount memo (sv_store s)) as Hrun. rewrite Hspend in Hrun.
  unfold voided in Hrun. cbn [o_map fst snd] in Hrun. split.
  - unfold mbind at 1, M_bind at 1. rewrite (submit_slow _ _ _ _ _ _ _ _ _ _ Hn Hc Hrun). fold hash.
    unfold mbind, M_bind, TreasuryClient.pollForConfirmation, sent_result. cbn [fst result_of sd_hash].
    rewrite (await_slow _ _ _ hash _ n 10); [done|]. intros s' m. unfold TreasuryClient.retry. by apply retry_ok.
  - unfold mbind at 1, M_bind at 1. rewrite (submit_slow _ _ _ _ _ _ _ _ _ _ Hn Hc Hrun). fold hash.
    unfold mbind, M_bind, TreasuryClient.pollForConfirmation, sent_result. cbn [fst result_of sd_hash await_confirmation].
    unfold modify, mbind, M_bind. change (rpc_sleep slow_rpc 2000 ?x) with (x.1, x.2). cbn [fst snd].
    unfold TreasuryClient.retry.
    rewrite (retry_ok _ (rpc_getTransaction slow_rpc hash) _ _ _ (TxSuccess (Some scvVoid)) (sent_state hash (Ok scvVoid, store) s, 0%nat)); [done|done|].
    change (rpc_getTransaction slow_rpc hash (?x, 0%nat)) with (lift (rpc_getTransaction rpc hash) (x, 0%nat)). unfold lift. cbn [fst snd].
    by rewrite found_on_mock.
Qed.

(** C40: A spend that the chain executes but does not confirm within ten looks is paid
    again.  The client takes the missing confirmation for an error to retry: where
    the stream allows two spends, the call returns one hash, and the recipient and
    the stream have had two. *)
Theorem unconfirmed_spend_is_paid_twice pk id recipient amount memo vals s first second :
  resolve (st_addresses (sv_store s)) address = Some CTreasury → spend_encoded pk id recipient amount memo vals → 2 ≤ spend_attempts →
  TreasuryExecutor.stream_spend (sv_clock s) pk pk id recipient amount memo (sv_store s) = (Ok tt, first) →
  TreasuryExecutor.stream_spend (sv_clock s) pk pk id recipient amount memo first = (Ok tt, second) →
  let hash := track_hash hash_of config pk "stream_spend" vals in
  TreasuryClient.streamSpend slow_rpc config no_hook pk id recipient amount memo (s, 10%nat) =
    (Ok hash, (sent_state hash (Ok scvVoid, second) (sent_state hash (Ok scvVoid, first) s), 0%nat)) ∧
  ∃ left, (TreasuryExecutor.get_stream_remaining id (sv_store s)).1 = Ok left ∧
    (TreasuryExecutor.get_stream_remaining id second).1 = Ok (left - 2 * amount).
Proof.
  intros Hc Henc Hmax Hfirst Hsecond hash. split.
  - destruct (slow_attempt pk id recipient amount memo vals s 0 first Hc Henc ltac:(lia) Hfirst) as [H1 _]. cbn [Nat.add] in H1.
    set (s1 := sent_state hash (Ok scvVoid, first) s).
    assert (resolve (st_addresses (sv_store s1)) address = Some CTreasury) as Hc1.
    { destruct (stream_spend_run (sv_clock s) pk pk id recipient amount memo (sv_store s)) as [(b & _ & _ & _ & _ & E)|[_ [e E]]]; [|congruence].
      rewrite Hfirst in E. injection E as E. subst s1. unfold sent_state. cbn. by rewrite E. }
    destruct (slow_attempt pk id recipient amount memo vals s1 0 second Hc1 Henc ltac:(lia) Hsecond) as [_ H2].
    unfold TreasuryClient.streamSpend, TreasuryClient.submission, TreasuryClient.retry, withRetry.
    change (default 3 (maxAttempts (createRetry (cc_retry config) network_only (Some TreasuryClient.isRetryableSubmissionError)))) with spend_attempts.
    destruct (Z.to_nat spend_attempts) as [|[|n]] eqn:Hn; [lia..|]. cbn [attempts]. rewrite H1.
    set (e := not_confirmed _ _). unfold retryable. cbn [createRetry retryOn or_else].
    change (TreasuryClient.isRetryableSubmissionError e) with (isNetworkError e || true). rewrite orb_true_r. cbn [negb orb].
    change (default 3 (maxAttempts (createRetry (cc_retry config) network_only (Some TreasuryClient.isRetryableSubmissionError)))) with spend_attempts.
    destruct (Z.eqb_spec 1 spend_attempts); [lia|]. unfold mbind, M_bind, modify. change (no_hook 1 e ?x) with (Ok tt, x). cbv beta iota.
    change (rpc_sleep slow_rpc ?d (?x, 0%nat)) with (x, 0%nat). fold hash. fold s1. by rewrite H2.
  - destruct (spend_takes _ _ _ _ _ _ _ _ Hfirst) as (b & _ & _ & Hleft & Hafter).
    destruct (spend_takes _ _ _ _ _ _ _ _ Hsecond) as (b' & _ & _ & Hleft' & Hafter').
    exists (bs_totalAllocated b - bs_totalSpent b). split; [done|]. rewrite Hafter'. rewrite Hafter in Hleft'. injection Hleft' as Hl. f_equal. lia.
Qed.
End treasury.

(** ** Examples *)
Import ServerExample SdkExample.
Definition track_config (address : string) : ClientConfig := mkClientConfig address None None toy_retry.
(** A chain that fails every transaction, or refuses it; the state counts them. *)
Definition failing (hash : string) (refused : bool) : Rpc nat :=
  mkRpc (λ a, mret (mkAccount a 0)) (λ _, mret (SimulationError None)) mret
    (λ _ n, (Ok (mkSendResult (if refused then "ERROR" else "PENDING") hash None "{}"), S n))
    (λ _, mret TxFailed) (mret 0) (λ _, mret None) (λ _ n, n) (λ _, 0).
Definition challenged : MockSorobanServer :=
  (OptimisticGovernorClient.propose toy_rpc (track_config "optimistic") "bob" "alice" "f" [] (repeated 64 "0") later).2 <| sv_clock := StoreExamples.clk 9 |>.
Definition locked_once : MockSorobanServer :=
  (ProposalBondsClient.lockBond toy_rpc (track_config "bonds") no_hook "alice" (repeated 64 "0") server0).2.
(** A lock that the chain refuses is sent five times: the client of the vote escrow
    retries whatever was thrown. *)
Lemma refused_lock_is_resent :
  VoteEscrowClient.createLock (failing "ab" true) (track_config "escrow") no_hook "alice" 5 7 0%nat =
  (Throw (SdkError "VoteEscrowError" 101 "Transaction failed: unknown"), 5%nat).
Proof. vm_compute. reflexivity. Qed.

Lemma failed_transaction_is_resent_witness :
  ProposalBondsClient.lockBond (failing "a5003" false) (track_config "bonds") no_hook "alice" (repeated 64 "0") 0%nat =
    (Throw (SdkError "ProposalBondsError" 101 "Transaction failed: a5003"), 3%nat) ∧
  ProposalBondsClient.lockBond (failing "a5013" false) (track_config "bonds") no_hook "alice" (repeated 64 "0") 0%nat =
    (Throw (SdkError "ProposalBondsError" 101 "Transaction failed: a5013"), 1%nat).
Proof.
  pose proof (λ hash s', failed_transaction_is_resent (failing hash false) (track_config "bonds") no_hook ProposalBondsClient.class
    ProposalBondsClient.failed_code ProposalBondsClient.timeout_code ProposalBondsClient.parse (keypair "alice") "alice" "lock_bond"
    [scvNative "address" (EText "alice"); scvNative "bytes" (EBytes (List.repeat x00 32))] hash 0%nat s' eq_refl ltac:(vm_compute; congruence)) as Hr.
  unfold ProposalBondsClient.lockBond, ProposalBondsClient.submit, ProposalBondsClient.submit_by, fmap, M_fmap.
  pose proof (Hr "a5003" 1%nat eq_refl eq_refl) as H1. pose proof (Hr "a5013" 1%nat eq_refl eq_refl) as H2.
  change (Ok <$> [scvNative "address" (EText "alice"); scvNative "bytes" (EBytes (List.repeat x00 32))])
    with [a_address "alice"; ProposalBondsClient.hash_arg (repeated 64 "0")] in H1, H2.
  rewrite H1, H2. vm_compute. auto.
Defined.
Lemma tracks_through_sdk_witness :
  (ConvictionVotingClient.stake toy_rpc (track_config "conviction") "bob" 1 5 later).1 =
    Throw (SdkError "ConvictionVotingError" 5 "Proposal not found") ∧
  (OptimisticGovernorClient.object toy_rpc (track_config "optimistic") "bob" 1 challenged).1 = Ok "bob.object" ∧
  (OptimisticGovernorClient.object toy_rpc (track_config "optimistic") "alice" 1 challenged).1 =
    Throw (SdkError "OptimisticGovernorError" 10 "Account has zero voting power") ∧
  (OptimisticGovernorClient.propose toy_rpc (track_config "optimistic") "bob" "alice" "f" [] (repeated 64 "0") later).1 = Ok (num 1).
Proof.
  pose proof (λ address pk s, tracks_through_sdk sha dec toy_hash (track_config address) pk 1 5 (scvNative "address" (EText pk))
    (scvNative "u64" (EInt 1)) (scvNative "i128" (EInt 5)) "alice" "f" [] (repeated 64 "0") (List.repeat x00 32)
    (scvNative "address" (EText "alice")) (scvNative "symbol" (EText "f")) (scvNative "bytes" (EBytes [])) (scvNative "bytes" (EBytes (List.repeat x00 32))) s) as Hr.
  destruct (Hr "conviction" "bob" later eq_refl eq_refl eq_refl eq_refl eq_refl eq_refl eq_refl eq_refl) as [H1 _].
  destruct (Hr "optimistic" "bob" challenged eq_refl eq_refl eq_refl eq_refl eq_refl eq_refl eq_refl eq_refl) as [_ H2].
  destruct (Hr "optimistic" "alice" challenged eq_refl eq_refl eq_refl eq_refl eq_refl eq_refl eq_refl eq_refl) as [_ H3].
  destruct (Hr "optimistic" "bob" later eq_refl eq_refl eq_refl eq_refl eq_refl eq_refl eq_refl eq_refl) as [_ H4].
  rewrite (H1 eq_refl), (proj1 (H2 eq_refl)), (proj1 (H3 eq_refl)), (proj2 (H4 eq_refl)). vm_compute. auto.
Defined.
Lemma bonds_and_pledges_through_sdk_witness :
  (ProposalBondsClient.lockBond toy_rpc (track_config "bonds") no_hook "alice" (repeated 64 "0") server0).1 = Ok "alice.lock_bond" ∧
  (ProposalBondsClient.lockBond toy_rpc (track_config "bonds") no_hook "alice" (repeated 64 "0") locked_once).1 =
    Throw (SdkError "ProposalBondsError" 3 "A bond has already been locked for this description hash") ∧
  (CoSponsorshipClient.coSponsor toy_rpc (track_config "cosponsor") no_hook "alice" 1 server0).1 =
    Throw (SdkError "CoSponsorshipError" 1 "Contract is already initialized").
Proof.
  pose proof (λ address s, bonds_and_pledges_through_sdk sha dec toy_hash (track_config address) no_hook "alice" (repeated 64 "0") (List.repeat x00 32)
    1 (scvNative "address" (EText "alice")) (scvNative "bytes" (EBytes (List.repeat x00 32))) (scvNative "u64" (EInt 1)) s
    eq_refl eq_refl eq_refl eq_refl ltac:(split; [vm_compute; congruence|reflexivity])) as Hr.
  destruct (Hr "bonds" server0) as [H1 _]. destruct (Hr "bonds" locked_once) as [H2 _]. destruct (Hr "cosponsor" server0) as (_ & H3 & _).
  rewrite H1, H2, H3; [vm_compute; auto|first [reflexivity|vm_compute; eauto]..].
  - exists CoSponsorshipErrorCode.AlreadyInitialized. vm_compute. eauto.
  - exists ProposalBondsErrorCode.BondAlreadyLocked. vm_compute. eauto.
Defined.

(** *** A stream of the treasury *)
Module TreasuryExamples.
Definition treasury_config : ClientConfig := mkClientConfig "treasury" (Some "alice") None toy_retry.
(** A stream of thirty tokens for bob, without a cooldown. *)
Definition granted : MockLedgerStore :=
  Treasury.Examples.run 1 (TrCreate "gov" "gov" "grants" "bob" "USDC" 30 0 1000 20 0 7) Treasury.Examples.funded.
Definition granting : MockSorobanServer := mkServer granted (StoreExamples.clk 10) ∅.
Definition spend_once (amount : Z) (s : MockSorobanServer) : outcome string * MockSorobanServer :=
  TreasuryClient.streamSpend toy_rpc treasury_config no_hook "bob" 1 "alice" amount "memo" s.
Definition spend_vals (amount : Z) : list ScVal :=
  [scvNative "address" (EText "bob"); scvNative "u64" (EInt 1); scvNative "address" (EText "alice"); scvNative "i128" (EInt amount);
   scvNative "string" (EText "memo")].
Lemma spend_vals_encoded amount : spend_encoded "bob" 1 "alice" amount "memo" (spend_vals amount).
Proof. by apply spend_arguments. Qed.
(** Arguments that the client itself refuses are tried three times. *)
Lemma refused_arguments_are_retried :
  TreasuryClient.batchTransfer (failing "ab" false) treasury_config (λ _ _ n, (Ok tt, S n)) "bob" "USDC" [] 0%nat =
  (Throw (SdkError "TreasuryError" 104 "recipients list must not be empty"), 2%nat).
Proof. vm_compute. reflexivity. Qed.
End TreasuryExamples.
Import TreasuryExamples.

Lemma spend_through_sdk_witness :
  (spend_once 10 granting).1 = Ok "bob.stream_spend" ∧
  (spend_once 25 granting).1 = Throw (SdkError "TreasuryError" 15 "Spend exceeds the maximum single spend for a stream") ∧
  (TreasuryClient.getStreamRemaining toy_rpc treasury_config no_hook 1 (spend_once 10 granting).2).1 = Ok 20.
Proof.
  pose proof (λ amount, spend_through_sdk sha dec toy_hash treasury_config "bob" 1 "alice" amount "memo" (spend_vals amount) "alice"
    (scvNative "u64" (EInt 1)) no_hook granting eq_refl (spend_vals_encoded amount) eq_refl eq_refl ltac:(done) ltac:(vm_compute; congruence)) as Hspend.
  destruct (Hspend 10 ltac:(lia)) as (H1 & _ & Hread). destruct (Hspend 25 ltac:(lia)) as (H2 & _ & _).
  unfold spend_once. rewrite H1, H2, Hread; vm_compute; auto.
Defined.
Lemma unconfirmed_spend_is_paid_twice_witness :
  (TreasuryClient.streamSpend (slow toy_rpc) treasury_config no_hook "bob" 1 "alice" 10 "memo" (granting, 10%nat)).1 = Ok "bob.stream_spend" ∧
  (TreasuryExecutor.get_stream_remaining 1 granted).1 = Ok 30 ∧
  (TreasuryExecutor.get_stream_remaining 1
     (sv_store (TreasuryClient.streamSpend (slow toy_rpc) treasury_config no_hook "bob" 1 "alice" 10 "memo" (granting, 10%nat)).2.1)).1 = Ok 10.
Proof.
  destruct (unconfirmed_spend_is_paid_twice sha dec toy_hash treasury_config "bob" 1 "alice" 10 "memo" (spend_vals 10) granting
    (TreasuryExecutor.stream_spend (StoreExamples.clk 10) "bob" "bob" 1 "alice" 10 "memo" granted).2
    (TreasuryExecutor.stream_spend (StoreExamples.clk 10) "bob" "bob" 1 "alice" 10 "memo"
       (TreasuryExecutor.stream_spend (StoreExamples.clk 10) "bob" "bob" 1 "alice" 10 "memo" granted).2).2) as [Hcall _];
    [reflexivity|apply spend_vals_encoded|vm_compute; congruence|vm_compute; reflexivity|vm_compute; reflexivity|].
  rewrite Hcall. vm_compute. auto.
Defined.
